(* ===== verification/_CoqProject ===== *)
-Q . S2P
Prelude.v
Environ.v
ModuleEnv.v
VMOffsets.v
Store.v
Registry.v
TrapHandlers.v
JitInt.v
Memory.v
VMContext.v
Table.v
Instance.v
InstanceProofs.v
Instantiate.v
Link.v
LinkProofs.v
FuncEnviron.v
FuncEnvironProofs.v
CodeMemory.v
Jit.v
JitProofs.v
Action.v
ActionProofs.v
CacheWorker.v
CacheEntries.v
CacheConfigs.v
AddressTransform.v
AddressTransformProofs.v
DebugExpression.v
DebugExpressionProofs.v
RangeInfo.v
DebugGc.v
Microwasm.v
MicrowasmTyping.v
MicrowasmProofs.v
MicrowasmSound.v
MicrowasmValues.v
HostFloats.v
X64.v
LightbeamRegs.v
LightbeamOwns.v
Lightbeam.v
LightbeamOps.v
LightbeamMemory.v
LightbeamBlocks.v
LightbeamInts.v
LightbeamCalls.v
LightbeamFloats.v
LightbeamConversions.v
LightbeamTranslate.v
LightbeamInv.v
LightbeamMoves.v
LightbeamArith.v
LightbeamStack.v
LightbeamReturn.v
LightbeamTraps.v
LightbeamAccess.v
LightbeamSandbox.v
LightbeamIndirect.v
LightbeamTheorems.v
LightbeamWasm.v
LightbeamErrors.v
WasiTypes.v
WasiInterface.v
WasiTranslate.v
WasiSyscalls.v
WasiProofs.v
WasiTheorems.v
WasiInstance.v
