(* ===== verification/Prelude.v ===== *)
(** * A verification development for wasmtime

    wasmtime compiles WebAssembly modules to native code, links them with each
    other and with the host, and runs them.  The repository is a workspace of
    crates; this development covers the parts that carry its own logic.

    ** The program and its parts

    - [wasmtime-environ] turns the callbacks of a WebAssembly parser into a
      [Module] with its index spaces, chooses how memories and tables are
      implemented, computes the layout of the [VMContext] structure that
      compiled code and runtime share, and caches compiled code on disk.
    - [wasmtime-runtime] owns linear memories, tables, instances and their
      contexts, the registries of signatures and traps, the delivery of traps
      and the list of code images that a debugger reads.
    - [wasmtime-jit] drives compilation, places compiled code in executable
      memory, resolves the imports of a module against the exports of instances,
      patches addresses into code, and calls exported functions.
    - [wasmtime-wasi] and [wasmtime-wasi-c] are two implementations of the WASI
      calls of a guest, on a Rust and on a C library.
    - [wasmtime-debug] rewrites the debug information of a module for the
      generated code.
    - [lightbeam] is a streaming compiler; its front half converts WebAssembly
      to Microwasm, a language of labels and branches on one stack, and its back
      half emits machine code for each operator as it comes.

    They meet as follows.  The environment's layout ([VMOffsets]) is used by the
    compiler when it emits loads ([FuncEnviron]), and by the runtime when it fills
    a context ([VMContext], [Instance]); compiling ([Jit]) registers the traps of
    the code ([Registry]), which the handlers look up ([TrapHandlers]); calling
    ([Action]) goes through trampolines in the code memory ([CodeMemory]); the
    calls of WASI ([WasiSyscalls]) find the guest's memory among the exports
    ([Instance]); the linker ([Link]) takes handles on instances
    and gives the addresses of their definitions to the new instance, which
    copies them into its context; a growing memory ([Memory]) is reflected in
    the context of the instance that defines it ([Instance]), through which the
    importing instances see it; the cache ([CacheEntries]) keys code by the hash
    of the module ([Environ]) and tells its worker ([CacheWorker]) what was
    used.

    ** Files

    - [Prelude]: computations that may panic ([res]), machine integers at their
      width, lists indexed by integers, the tactic [res_inv], the hints [rust].
    - [Environ]: [environ/src/module.rs], [tunables.rs],
      [jit/src/target_tunables.rs]: [Module], plans, index conversions, the
      cache key.
    - [ModuleEnv]: [environ/src/module_environ.rs]: each callback is a function,
      a translation is a run over a sequence of callbacks.
    - [VMOffsets]: [environ/src/vmoffsets.rs], builtin indices of
      [func_environ.rs]: one definition per offset function, with the checks of
      its 32-bit arithmetic.
    - [Store]: the bytes of the address space (the part of Rust's abstract
      machine that raw pointers use).
    - [Registry]: [runtime/src/sig_registry.rs], [trap_registry.rs].
    - [TrapHandlers]: [runtime/src/traphandlers.rs], [signalhandlers.rs],
      [signalhandlers/Trampolines.cpp], [HandleTrap] and [WasmTrapHandler]: a
      thread's scope, recorded trap and flag of a trap being handled, nested calls
      that a trap leaves by [longjmp].
    - [JitInt]: [runtime/src/jit_int.rs]: the linked list of images and what the
      debugger finds at each notification.
    - [Memory]: [runtime/src/mmap.rs], [memory.rs] over the class [OS] of the
      system calls, with their laws [OSLaws].
    - [VMContext]: [runtime/src/vmcontext.rs] and the accessors of
      [instance.rs]: structures as bytes at the offsets of [VMOffsets].
    - [Table]: [runtime/src/table.rs].
    - [Instance], [InstanceProofs], [Instantiate]: [runtime/src/instance.rs],
      [imports.rs], [export.rs], the memory calls of [libcalls.rs].  Instances
      are records at addresses of a shared state; handles are counted.
    - [Link], [LinkProofs]: [jit/src/link.rs], [resolver.rs], [namespace.rs].
    - [FuncEnviron], [FuncEnvironProofs]: [environ/src/func_environ.rs]: a
      function under construction is a record of its entities and instructions;
      the class [Cranelift] says what running them means.
    - [CodeMemory]: [jit/src/code_memory.rs].
    - [Jit], [JitProofs]: [jit/src/compiler.rs], [instantiate.rs] and the
      containers of [environ/src/compilation.rs]; the parser, the back ends and the
      emission of machine code are the class [JitTools].
    - [Action], [ActionProofs]: [jit/src/action.rs], [context.rs].
    - [CacheWorker], [CacheEntries], [CacheConfigs]:
      [environ/src/cache/worker.rs], [cache.rs], [cache/config.rs] over classes
      that stand for the file system, the clock and the codecs.
    - [AddressTransform], [AddressTransformProofs]:
      [debug/src/transform/address_transform.rs], [environ/src/address_map.rs].
    - [DebugExpression], [DebugExpressionProofs]:
      [debug/src/transform/expression.rs], over the class [Gimli] of the constants,
      readers and writers of DWARF.
    - [RangeInfo]: [debug/src/transform/range_info_builder.rs].
    - [DebugGc]: [debug/src/gc.rs].
    - [Microwasm], [MicrowasmTyping], [MicrowasmProofs], [MicrowasmSound],
      [MicrowasmValues]: [lightbeam/src/microwasm.rs], the driver of the
      conversion in [function_body.rs] and the operations of the virtual stack
      in [backend.rs] that move values.
    - [X64]: the x86-64 instructions that the back half uses, and a processor that
      runs them (the part of the architecture's manual that the code relies on).
    - [HostFloats]: the floats of the language and of the processor, over the
      [SpecFloat] of the standard library; what is open about NaNs is a class.
    - [LightbeamRegs], [Lightbeam], [LightbeamOps], [LightbeamInts],
      [LightbeamFloats], [LightbeamConversions], [LightbeamMemory],
      [LightbeamCalls], [LightbeamBlocks]: [lightbeam/src/backend.rs]: registers
      with their counts of uses and calling conventions; the [Context], a state
      that operations pass on and that collects the instructions, with labels,
      moves, spilling and the virtual stack; operators on integers and floats and
      conversions; globals and linear memory over the offsets of [ModuleContext];
      calls; blocks and branches.
    - [LightbeamTranslate]: [translate] of [lightbeam/src/function_body.rs], with
      every operator.
    - [LightbeamOwns], [LightbeamInv], [LightbeamMoves], [LightbeamArith],
      [LightbeamStack], [LightbeamReturn], [LightbeamTheorems]: the invariant
      between the virtual stack and the machine, a weakest precondition for the
      code generator and the code that it generates together, and their theorems.
    - [LightbeamTraps], [LightbeamAccess], [LightbeamSandbox],
      [LightbeamIndirect]: the same with code that may leave to the trap label,
      and the theorems on accesses of memory and indirect calls.
    - [LightbeamWasm]: [translate_wasm], which composes the two halves.
    - [LightbeamErrors]: functions for which the generated code is wrong.
    - [WasiTypes], [WasiInterface], [WasiTranslate], [WasiSyscalls],
      [WasiInstance]: the data of [wasi-c/src/wasm32.rs] at its layout, the table of
      calls, [translate.rs], [syscalls.rs] with the arguments and environment of
      the C library's [posix.c], the instances of both crates and the calls of
      [wasi/src/syscalls.rs]; [WasiProofs] and [WasiTheorems] prove their
      properties over the classes [SSP] and [Hostcalls] of the two libraries.

    ** What the theorems show

    - Layout: the offsets are those of a sequence of arrays, inside the
      allocation, disjoint, with a panic exactly on 32-bit overflow; alignment
      holds exactly under a condition on the number of signatures.
    - Contexts: what is written is read back, by the runtime's accessors and at
      the field offsets that compiled code uses.
    - Memories and tables: creation and growth keep the invariant and the contents,
      and growth fails exactly at the limits or when the system refuses; growth through an instance updates its context and nothing
      else; an imported memory is the exporter's.
    - Instances and linking: creation places an instance beside unchanged ones;
      errors change nothing that existed and release what was taken; a successful link resolves every import
      to a compatible export and holds one handle per dependency, a failed one
      gives all handles back; relocation writes exactly its targets; accepted
      segments are applied without a panic, in bounds.
    - Emitted code: an indirect call traps or reaches a function of the expected
      signature; direct calls, library calls and heaps use the addresses that the
      runtime keeps in the context.
    - Compiling and calling: each trap of a compiled function is found at its
      address, and removed with its compiler; every trap, also after earlier ones,
      ends the innermost call with its message; arguments and results pass through slots and trampoline
      unchanged; the debugger finds exactly the live images.
    - WASI: a call returns, with an error number, and changes nothing outside the
      guest's memory and the library's state, with the exceptions stated there, one
      of which does escape; the command line arrives; through [wasi-common] the
      functions are given the exported memory and the instance's own context.
    - Translation: the index spaces are those of WebAssembly, and which callback
      sequences are accepted.
    - Registries and code memory: indices decide signature equality; trap
      descriptions live as long as their registration; published code does not
      change.
    - Cache: what a clean-up deletes and keeps, how entries are recognized, mutual
      exclusion by lock files, entries read back as they were stored, and which
      configuration a file gives, with the durations for which reading it panics.
    - Debug information: addresses are mapped to the code of the right function;
      the entries that are kept are the reachable ones; the expressions for
      variables are, at each address, those for the locations at that address; the
      one case in which the translation of ranges does not end.
    - Microwasm: the conversion of a valid function returns, and its output is
      well formed under a type system stated independently of it; operators on
      locals move values as WebAssembly prescribes.
    - Code generation of Lightbeam: a function without branches computes on the
      processor what Microwasm prescribes, with spilled registers, kept counts of
      uses and restored stack, and, through the conversion, what WebAssembly
      prescribes, for constants, locals, [add], [sub], [and], [or], [xor], [eqz]
      and comparisons of 32 bits; a load or store compares the address of its first
      byte with the length of the memory and traps from there on, and indirect calls
      reach an element of the table of the expected signature or trap, in every state
      of the generator without a comparison in the flags; inputs for which the code is
      wrong, among them the loads with an offset from 2^31 on, which leave the
      memory, and tables of more than 2^32 bytes.

    Several theorems show behaviours that the code does not intend; they say so
    in their comments.

    ** Bounds and fuel

    Integers are [Z] with the checks or the truncation of their Rust width
    written out; pointers have 64 bits where a structure in memory is concerned,
    and the layout is parametric in their width.  A bare operator panics on
    overflow and a [debug_assert!] is checked, as in builds with overflow checks
    and debug assertions.  Fuel is used where a recursion
    is not structural, and is shown to be enough: dropping a handle follows
    dependencies, each of which is removed from the state, so the number of
    instances suffices; the search for reachable entries runs at most once per
    entry; the conversion to Microwasm yields once per operator, and the theorem
    is that fuel of the length of the body plus two gives the whole output;
    directories of the cache are entered to the two levels that the code has; the
    iteration of the translated ranges has a fuel argument, and the theorem on it
    says for which inputs there is enough; the compilation of a DWARF expression
    reads at least a byte per turn, so its length is enough; taking a register in
    Lightbeam spills at most one entry of the virtual stack per turn, and spilling
    itself needs no register, so the recursion between the two has depth two;
    passing arguments moves one or pushes one per turn, so twice their number is
    enough; the loop over a function consumes an operator per turn.

    ** What is not modelled

    Code that mostly calls a library or the system whose behaviour is the point:
    the back ends as such ([cranelift.rs], [lightbeam.rs] of the environment); the
    copying of DWARF entries and line programs through gimli; the handlers of the
    operating systems, which read and redirect the program counter; the system
    calls behind WASI; the embedding APIs, interface types, command line tools and
    bindings.  Of [backend.rs], the encoding of instructions by dynasm and the
    assembly of the finished section are left out; an instruction is a value of
    [X64], which the theorems run.  Locks are
    sequential, except that the poisoning of the trap registry is modelled.
    Diagnostic text (logging) is left out, but for the errors of the cache
    configuration and of traps. *)

From stdpp Require Export base numbers list option gmap strings.

Local Open Scope Z_scope.

(** ** Rust computations that may panic

    A Rust function that can panic ([unwrap], [assert!], an index out of
    range, an arithmetic overflow under overflow checks) is a function into
    [res].  [Result<A, E>] values that the code returns are values of
    [result]. *)

Inductive res (A : Type) : Type :=
| Ret (a : A)
| Panic.
Arguments Ret {A} a.
Arguments Panic {A}.

Inductive result (A E : Type) : Type :=
| Ok (a : A)
| Err (e : E).
Arguments Ok {A E} a.
Arguments Err {A E} e.

#[export] Instance Ret_inj {A} : Inj (=) (=) (@Ret A).
Proof. by intros x y [=]. Qed.

#[export] Instance res_mret : MRet res := @Ret.
#[export] Instance res_mbind : MBind res := λ A B f m,
  match m with Ret a => f a | Panic => Panic end.
#[export] Instance res_fmap : FMap res := λ A B f m,
  match m with Ret a => Ret (f a) | Panic => Panic end.

(** [Option::unwrap] / [Option::expect]. *)
Definition unwrap {A} (o : option A) : res A :=
  match o with Some a => Ret a | None => Panic end.

(** [assert!] (and [assert_eq!] on the decided equality). *)
Definition rassert (b : bool) : res unit := if b then Ret tt else Panic.

(** The value of a computation that is known to return. *)
Definition res_val {A} (d : A) (r : res A) : A :=
  match r with Ret a => a | Panic => d end.

Definition is_ret {A} (r : res A) : bool :=
  match r with Ret _ => true | Panic => false end.

(** A fold and a map in the [res] monad, for [for] loops. *)
Fixpoint foldM {A B} (f : B → A → res B) (b : B) (l : list A) : res B :=
  match l with
  | [] => Ret b
  | a :: l => b' ← f b a; foldM f b' l
  end.

Fixpoint mapR {A B} (f : A → res B) (l : list A) : res (list B) :=
  match l with
  | [] => Ret []
  | a :: l => b ← f a; bs ← mapR f l; Ret (b :: bs)
  end.

Lemma bind_Ret {A B} (m : res A) (f : A → res B) (b : B) :
  m ≫= f = Ret b ↔ ∃ a, m = Ret a ∧ f a = Ret b.
Proof. destruct m; cbn; naive_solver. Qed.

Lemma bind_Ret_l {A B} (a : A) (f : A → res B) : Ret a ≫= f = f a.
Proof. done. Qed.

Lemma bind_Panic {A B} (m : res A) (f : A → res B) :
  m ≫= f = Panic ↔ m = Panic ∨ ∃ a, m = Ret a ∧ f a = Panic.
Proof. destruct m; cbn; naive_solver. Qed.

Lemma is_ret_bind {A B} (m : res A) (f : A → res B) :
  is_ret (m ≫= f) = true ↔ ∃ a, m = Ret a ∧ is_ret (f a) = true.
Proof. destruct m; cbn; naive_solver. Qed.

Lemma is_ret_iff {A} (m : res A) : is_ret m = true ↔ ∃ a, m = Ret a.
Proof. destruct m; cbn; naive_solver. Qed.

Lemma unwrap_Ret {A} (o : option A) a : unwrap o = Ret a ↔ o = Some a.
Proof. destruct o; cbn; naive_solver. Qed.

Lemma rassert_Ret (b : bool) u : rassert b = Ret u ↔ b = true.
Proof. destruct b, u; cbn; naive_solver. Qed.

Lemma foldM_app {A B} (f : B → A → res B) b l1 l2 :
  foldM f b (l1 ++ l2) = foldM f b l1 ≫= λ b', foldM f b' l2.
Proof.
  revert b; induction l1 as [|a l1 IH]; intros b; cbn; [done|].
  destruct (f b a); cbn; [apply IH | done].
Qed.

Lemma foldM_inv {A B} (P : B → Prop) (f : B → A → res B) l b b' :
  (∀ b a b', a ∈ l → P b → f b a = Ret b' → P b') →
  P b → foldM f b l = Ret b' → P b'.
Proof.
  revert b; induction l as [|a l IH]; cbn; intros b Hf Hb Hr; [by simplify_eq|].
  destruct (f b a) as [b1|] eqn:E; cbn in Hr; [|done].
  eapply IH; [|eapply Hf; [|done..]|done].
  - intros b2 a2 b3 Ha. apply Hf. by constructor.
  - constructor.
Qed.

Lemma mapR_total {A B} (f : A → res B) l :
  (∀ a, a ∈ l → ∃ b, f a = Ret b) → ∃ k, mapR f l = Ret k.
Proof.
  induction l as [|a l IH]; intros Hf; cbn; [by eexists|].
  destruct (Hf a) as [b ->]; [left|]. destruct IH as [k ->]; [intros; apply Hf; by right|].
  by eexists.
Qed.

Lemma mapR_Ret {A B} (f : A → res B) l k :
  mapR f l = Ret k ↔ Forall2 (λ a b, f a = Ret b) l k.
Proof.
  revert k; induction l as [|a l IH]; intros k; cbn.
  - split; [intros; simplify_eq; constructor | by inversion 1].
  - rewrite bind_Ret. setoid_rewrite bind_Ret. split.
    + intros (b & Hb & bs & Hbs & ?); simplify_eq. constructor; [done|].
      by apply IH.
    + inversion 1; subst. eexists; split; [done|]. eexists; split; [by apply IH|done].
Qed.

(** Take a hypothesis [m ≫= f = Ret b] apart, as far as it goes. *)
Ltac res_inv1 H :=
  lazymatch type of H with
  | mbind _ _ = Ret _ =>
      let a := fresh "a" in let H1 := fresh "E" in let H2 := fresh "H" in
      apply bind_Ret in H; destruct H as (a & H1 & H2);
      res_inv1 H1; res_inv1 H2
  | rassert _ = Ret _ => apply rassert_Ret in H
  | unwrap _ = Ret _ => apply unwrap_Ret in H
  | Ret _ = Ret _ => injection H as H; subst
  | Panic = Ret _ => discriminate H
  | _ => idtac
  end.
Ltac res_inv H := cbn beta in H; res_inv1 H; simplify_eq.

(** ** Machine integers

    A [w]-bit unsigned integer is a [Z] in [0, 2^w).  [checked_add] and its
    relatives are Rust's methods.  The bare operators are [op_add], [op_mul],
    [op_sub]: they panic on overflow, which is Rust's behaviour with overflow
    checks.  Where a theorem shows that such an operator returns, no overflow
    happens, so the value is the one a build without overflow checks computes
    as well. *)

Definition in_u (w x : Z) : bool := (0 <=? x) && (x <? 2 ^ w).

Definition checked_add (w a b : Z) : option Z :=
  if in_u w (a + b) then Some (a + b) else None.
Definition checked_mul (w a b : Z) : option Z :=
  if in_u w (a * b) then Some (a * b) else None.
Definition checked_sub (w a b : Z) : option Z :=
  if in_u w (a - b) then Some (a - b) else None.

Definition op_add (w a b : Z) : res Z := unwrap (checked_add w a b).
Definition op_mul (w a b : Z) : res Z := unwrap (checked_mul w a b).
Definition op_sub (w a b : Z) : res Z := unwrap (checked_sub w a b).

(** [x as uN]: truncation; and the two's complement reading of [x as iN]. *)
Definition wrap_u (w x : Z) : Z := x mod 2 ^ w.
Definition wrap_s (w x : Z) : Z :=
  let y := x mod 2 ^ w in if y <? 2 ^ (w - 1) then y else y - 2 ^ w.

Definition try_from_u (w x : Z) : option Z := if in_u w x then Some x else None.

Lemma in_u_spec w x : in_u w x = true ↔ 0 ≤ x < 2 ^ w.
Proof. unfold in_u. lia. Qed.

Lemma in_u_false w x : in_u w x = false ↔ x < 0 ∨ 2 ^ w ≤ x.
Proof. unfold in_u. lia. Qed.

Lemma checked_add_None w a b : checked_add w a b = None → 0 ≤ a + b → 2 ^ w ≤ a + b.
Proof.
  unfold checked_add, in_u. destruct (Z.leb_spec 0 (a + b)), (Z.ltb_spec (a + b) (2 ^ w)); cbn; [done|lia..].
Qed.
Lemma checked_add_Some w a b c :
  checked_add w a b = Some c ↔ c = a + b ∧ 0 ≤ a + b < 2 ^ w.
Proof.
  unfold checked_add. destruct (in_u w (a + b)) eqn:E.
  - apply in_u_spec in E. naive_solver.
  - apply in_u_false in E. naive_solver lia.
Qed.

Lemma checked_mul_Some w a b c :
  checked_mul w a b = Some c ↔ c = a * b ∧ 0 ≤ a * b < 2 ^ w.
Proof.
  unfold checked_mul. destruct (in_u w (a * b)) eqn:E.
  - apply in_u_spec in E. naive_solver.
  - apply in_u_false in E. naive_solver lia.
Qed.

Lemma checked_sub_Some w a b c :
  checked_sub w a b = Some c ↔ c = a - b ∧ 0 ≤ a - b < 2 ^ w.
Proof.
  unfold checked_sub. destruct (in_u w (a - b)) eqn:E.
  - apply in_u_spec in E. naive_solver.
  - apply in_u_false in E. naive_solver lia.
Qed.

Lemma op_add_Ret w a b c : op_add w a b = Ret c ↔ c = a + b ∧ 0 ≤ a + b < 2 ^ w.
Proof. unfold op_add. by rewrite unwrap_Ret, checked_add_Some. Qed.
Lemma op_mul_Ret w a b c : op_mul w a b = Ret c ↔ c = a * b ∧ 0 ≤ a * b < 2 ^ w.
Proof. unfold op_mul. by rewrite unwrap_Ret, checked_mul_Some. Qed.
Lemma op_sub_Ret w a b c : op_sub w a b = Ret c ↔ c = a - b ∧ 0 ≤ a - b < 2 ^ w.
Proof. unfold op_sub. by rewrite unwrap_Ret, checked_sub_Some. Qed.

Lemma op_add_fits w a b : 0 ≤ a + b < 2 ^ w → op_add w a b = Ret (a + b).
Proof. intros. by apply op_add_Ret. Qed.
Lemma op_mul_fits w a b : 0 ≤ a * b < 2 ^ w → op_mul w a b = Ret (a * b).
Proof. intros. by apply op_mul_Ret. Qed.
Lemma op_sub_fits w a b : 0 ≤ a - b < 2 ^ w → op_sub w a b = Ret (a - b).
Proof. intros. by apply op_sub_Ret. Qed.

Lemma try_from_u_Some w x y : try_from_u w x = Some y ↔ y = x ∧ 0 ≤ x < 2 ^ w.
Proof.
  unfold try_from_u. destruct (in_u w x) eqn:E.
  - apply in_u_spec in E. naive_solver.
  - apply in_u_false in E. naive_solver lia.
Qed.

(** ** Hints: the arithmetic side conditions of the components *)

Create HintDb rust discriminated.
#[export] Hint Resolve op_add_fits op_mul_fits op_sub_fits : rust.
#[export] Hint Extern 2 (_ ≤ _) => lia : rust.
#[export] Hint Extern 2 (_ < _) => lia : rust.
#[export] Hint Extern 2 (_ ≤ _ < _) => lia : rust.

(** ** Lists indexed by [Z] (Rust [usize] indices) *)

Definition zlen {A} (l : list A) : Z := Z.of_nat (length l).

(** [slice.get(i)] *)
Definition zget {A} (l : list A) (i : Z) : option A :=
  if 0 <=? i then l !! Z.to_nat i else None.

(** [v[i]]: panics out of range. *)
Definition zindex {A} (l : list A) (i : Z) : res A := unwrap (zget l i).

(** [v[i] = x]: panics out of range. *)
Definition zset {A} (l : list A) (i : Z) (x : A) : res (list A) :=
  if (0 <=? i) && (i <? zlen l) then Ret (<[Z.to_nat i := x]> l) else Panic.

Lemma zlen_nonneg {A} (l : list A) : 0 ≤ zlen l.
Proof. unfold zlen. lia. Qed.
#[export] Hint Resolve zlen_nonneg : rust.

Lemma zlen_app {A} (l k : list A) : zlen (l ++ k) = zlen l + zlen k.
Proof. unfold zlen. rewrite length_app. lia. Qed.

Lemma zlen_cons {A} (x : A) l : zlen (x :: l) = zlen l + 1.
Proof. unfold zlen. cbn. lia. Qed.

Lemma zget_Some_lt {A} (l : list A) i x : zget l i = Some x → 0 ≤ i < zlen l.
Proof.
  unfold zget, zlen. destruct (Z.leb_spec 0 i); [|done].
  intros H1%lookup_lt_Some. lia.
Qed.

Lemma zget_is_Some {A} (l : list A) i : 0 ≤ i < zlen l → ∃ x, zget l i = Some x.
Proof.
  unfold zget, zlen. intros [??]. rewrite (proj2 (Z.leb_le 0 i)) by done.
  apply lookup_lt_is_Some_2. lia.
Qed.

Lemma zget_None {A} (l : list A) i : zget l i = None ↔ i < 0 ∨ zlen l ≤ i.
Proof.
  destruct (zget l i) as [x|] eqn:E.
  - apply zget_Some_lt in E. naive_solver lia.
  - split; [|done]. intros _.
    destruct (decide (0 ≤ i < zlen l)) as [Hi|]; [|lia].
    apply zget_is_Some in Hi as [? ?]. congruence.
Qed.

Lemma zget_app_l {A} (l k : list A) i : i < zlen l → zget (l ++ k) i = zget l i.
Proof.
  unfold zget, zlen. intros. destruct (Z.leb_spec 0 i); [|done].
  apply lookup_app_l. lia.
Qed.

Lemma zget_app_Some_l {A} (l k : list A) i x : zget l i = Some x → zget (l ++ k) i = Some x.
Proof. unfold zget. destruct (0 <=? i); [|done]. by apply lookup_app_l_Some. Qed.
Lemma zget_snoc_last {A} (l : list A) x : zget (l ++ [x]) (zlen l) = Some x.
Proof.
  unfold zget, zlen. rewrite (proj2 (Z.leb_le 0 _)), Nat2Z.id by lia. by apply list_lookup_middle.
Qed.
Lemma zget_app_r {A} (l k : list A) i :
  zlen l ≤ i → zget (l ++ k) i = zget k (i - zlen l).
Proof.
  unfold zget, zlen. intros. rewrite !(proj2 (Z.leb_le 0 _)) by lia.
  rewrite lookup_app_r by lia. f_equal. lia.
Qed.

Lemma zget_Forall {A} (P : A → Prop) l i x : Forall P l → zget l i = Some x → P x.
Proof. unfold zget. rewrite Forall_lookup. intros H ?. case_match; [by eapply H|done]. Qed.

Lemma zset_Ret {A} (l : list A) i x :
  0 ≤ i < zlen l → zset l i x = Ret (<[Z.to_nat i := x]> l).
Proof. intros. unfold zset. by rewrite (proj2 (Z.leb_le _ _)), (proj2 (Z.ltb_lt _ _)) by lia. Qed.

Lemma zget_insert {A} (l : list A) i j x :
  0 ≤ i < zlen l → zget (<[Z.to_nat i := x]> l) j = if decide (i = j) then Some x else zget l j.
Proof.
  intros Hi. unfold zget, zlen in *. destruct (Z.leb_spec 0 j); [|case_decide; [lia|done]].
  case_decide as E.
  - subst. apply list_lookup_insert_eq. lia.
  - apply list_lookup_insert_ne. lia.
Qed.

Lemma zlen_insert {A} (l : list A) i x : zlen (<[i := x]> l) = zlen l.
Proof. unfold zlen. by rewrite length_insert. Qed.
Lemma zget_nil {A} i (x : A) : zget [] i = Some x → False.
Proof. unfold zget. by case_match. Qed.

Lemma zget_singleton {A} (x y : A) i : zget [x] i = Some y → i = 0 ∧ y = x.
Proof.
  intros H. pose proof (zget_Some_lt _ _ _ H) as Hi. unfold zlen in Hi. cbn in Hi.
  assert (i = 0) as -> by lia. by injection H.
Qed.

Lemma zget_cons {A} (x : A) l i : 0 < i → zget (x :: l) i = zget l (i - 1).
Proof.
  intros. change (x :: l) with ([x] ++ l). rewrite zget_app_r; [done|]. unfold zlen. cbn. lia.
Qed.

Lemma zget_map {A B} (f : A → B) l i : zget (map f l) i = f <$> zget l i.
Proof. unfold zget. case_match; [apply list_lookup_fmap|done]. Qed.

Lemma zget_elem_of {A} (l : list A) i x : zget l i = Some x → x ∈ l.
Proof. unfold zget. case_match; [apply list_elem_of_lookup_2|done]. Qed.

Lemma elem_of_zget {A} (l : list A) x : x ∈ l → ∃ i, zget l i = Some x.
Proof.
  intros [i Hi]%list_elem_of_lookup. exists (Z.of_nat i). unfold zget.
  rewrite (proj2 (Z.leb_le 0 _)) by lia. by rewrite Nat2Z.id.
Qed.

Lemma zindex_Ret {A} (l : list A) i x : zindex l i = Ret x ↔ zget l i = Some x.
Proof. apply unwrap_Ret. Qed.

(** Element-wise results of [mapR]. *)
Lemma mapR_zlen {A B} (f : A → res B) l k : mapR f l = Ret k → zlen k = zlen l.
Proof. intros E%mapR_Ret%Forall2_length. unfold zlen. lia. Qed.

Lemma mapR_zget {A B} (f : A → res B) l k i a :
  mapR f l = Ret k → zget l i = Some a → ∃ b, zget k i = Some b ∧ f a = Ret b.
Proof.
  intros E%mapR_Ret Hi. unfold zget in *. case_match; [|done].
  by eapply Forall2_lookup_l in E.
Qed.

Lemma mapR_Forall {A B} (f : A → res B) (P : B → Prop) l k :
  mapR f l = Ret k → (∀ a b, a ∈ l → f a = Ret b → P b) → Forall P k.
Proof.
  intros E%mapR_Ret HP. induction E as [|a b l k Hab E IH]; constructor.
  - eapply HP; [left|done].
  - apply IH. intros a' b' Ha. apply HP. by right.
Qed.

Lemma app_one_not_nil {A} (l : list A) x : l ++ [x] ≠ [].
Proof. by destruct l. Qed.

Lemma omap_app_one {A B} (f : A → option B) l x :
  omap f (l ++ [x]) = omap f l ++ match f x with Some y => [y] | None => [] end.
Proof. rewrite omap_app. cbn. by destruct (f x). Qed.
