(* ===== verification/Environ.v ===== *)
(** * Modules and their translation environment

    Models [wasmtime-environ/src/module.rs], [tunables.rs],
    [module_environ.rs] and [wasmtime-jit/src/target_tunables.rs]: the
    decoded module with its index spaces, the choice of an implementation
    style for memories and tables, and the callbacks through which the wasm
    parser fills a [ModuleTranslation]. *)

From S2P Require Import Prelude.
From stdpp Require Import sorting.
Local Open Scope Z_scope.

(** ** Data of the code generator that modules mention

    [ir::Type]: the constants the sources name, every other type being
    [ir_other]. *)
Inductive ir_type := I32 | I64 | F32 | F64 | I8X16 | ir_other (n : Z).
#[export] Instance ir_type_eq_dec : EqDecision ir_type.
Proof. solve_decision. Defined.

Inductive ArgumentPurpose := Normal | VMContextArg | OtherPurpose (n : Z).
#[export] Instance ArgumentPurpose_eq_dec : EqDecision ArgumentPurpose.
Proof. solve_decision. Defined.

Record AbiParam := mkAbiParam { value_type : ir_type; purpose : ArgumentPurpose }.
#[export] Instance AbiParam_eq_dec : EqDecision AbiParam.
Proof. solve_decision. Defined.

Record Signature := mkSignature {
  params : list AbiParam;
  returns : list AbiParam;
  call_conv : Z;
}.
#[export] Instance Signature_eq_dec : EqDecision Signature.
Proof. solve_decision. Defined.

Inductive GlobalInit :=
| I32Const (x : Z)
| I64Const (x : Z)
| F32Const (x : Z)
| F64Const (x : Z)
| V128Const (x : list Z)
| GetGlobal (x : Z)
| ImportInit.
#[export] Instance GlobalInit_eq_dec : EqDecision GlobalInit.
Proof. solve_decision. Defined.

Record Global := mkGlobal {
  global_ty : ir_type;
  mutability : bool;
  initializer : GlobalInit;
}.
#[export] Instance Global_eq_dec : EqDecision Global.
Proof. solve_decision. Defined.

Record Memory := mkMemory {
  mem_minimum : Z;
  mem_maximum : option Z;
  mem_shared : bool;
}.
#[export] Instance Memory_eq_dec : EqDecision Memory.
Proof. solve_decision. Defined.

Inductive TableElementType := Func | Val (ty : ir_type).
#[export] Instance TableElementType_eq_dec : EqDecision TableElementType.
Proof. solve_decision. Defined.

Record Table := mkTable {
  table_ty : TableElementType;
  table_minimum : Z;
  table_maximum : option Z;
}.
#[export] Instance Table_eq_dec : EqDecision Table.
Proof. solve_decision. Defined.

(** ** [tunables.rs] (64-bit target) *)

Record Tunables := mkTunables {
  static_memory_bound : Z;
  static_memory_offset_guard_size : Z;
  dynamic_memory_offset_guard_size : Z;
}.

Definition Tunables_default : Tunables := {|
  static_memory_bound := 0x10000;
  static_memory_offset_guard_size := 0x80000000;
  dynamic_memory_offset_guard_size := 0x10000;
|}.

(** [target_tunables]; [is_windows] is the test on [triple.operating_system]. *)
Definition target_tunables (is_windows : bool) : Tunables :=
  let result := Tunables_default in
  if is_windows then {|
    static_memory_bound := Z.min (static_memory_bound result) 0x100;
    static_memory_offset_guard_size :=
      Z.min (static_memory_offset_guard_size result) 0x10000;
    dynamic_memory_offset_guard_size := dynamic_memory_offset_guard_size result;
  |} else result.

(** ** [module.rs] *)

Record TableElements := mkTableElements {
  te_table_index : Z;
  te_base : option Z;
  te_offset : Z;
  te_elements : list Z;
}.

Inductive Export :=
| ExportFunction (i : Z)
| ExportTable (i : Z)
| ExportMemory (i : Z)
| ExportGlobal (i : Z).
#[export] Instance Export_eq_dec : EqDecision Export.
Proof. solve_decision. Defined.

Inductive MemoryStyle := Dynamic | Static (bound : Z).
#[export] Instance MemoryStyle_eq_dec : EqDecision MemoryStyle.
Proof. solve_decision. Defined.

Definition MemoryStyle_for_memory (memory : Memory) (tunables : Tunables)
    : res (MemoryStyle * Z) :=
  let dynamic := Ret (Dynamic, dynamic_memory_offset_guard_size tunables) in
  match mem_maximum memory with
  | Some maximum =>
      if maximum <=? static_memory_bound tunables then
        _ ← rassert (mem_minimum memory <=? static_memory_bound tunables);
        Ret (Static (static_memory_bound tunables),
             static_memory_offset_guard_size tunables)
      else dynamic
  | None => dynamic
  end.

Record MemoryPlan := mkMemoryPlan {
  plan_memory : Memory;
  plan_style : MemoryStyle;
  plan_offset_guard_size : Z;
}.
#[export] Instance MemoryPlan_eq_dec : EqDecision MemoryPlan.
Proof. solve_decision. Defined.

Definition MemoryPlan_for_memory (memory : Memory) (tunables : Tunables)
    : res MemoryPlan :=
  '(style, offset_guard_size) ← MemoryStyle_for_memory memory tunables;
  Ret (mkMemoryPlan memory style offset_guard_size).

Inductive TableStyle := CallerChecksSignature.
#[export] Instance TableStyle_eq_dec : EqDecision TableStyle.
Proof. solve_decision. Defined.

Definition TableStyle_for_table (_table : Table) (_tunables : Tunables) : TableStyle :=
  CallerChecksSignature.

Record TablePlan := mkTablePlan { plan_table : Table; table_style : TableStyle }.
#[export] Instance TablePlan_eq_dec : EqDecision TablePlan.
Proof. solve_decision. Defined.

Definition TablePlan_for_table (table : Table) (tunables : Tunables) : TablePlan :=
  mkTablePlan table (TableStyle_for_table table tunables).

(** A [PrimaryMap] is the list of its values; an [IndexMap] is the
    association list in insertion order. *)
Record Module_ := mkModule {
  signatures : list Signature;
  imported_funcs : list (string * string);
  imported_tables : list (string * string);
  imported_memories : list (string * string);
  imported_globals : list (string * string);
  functions : list Z;
  table_plans : list TablePlan;
  memory_plans : list MemoryPlan;
  globals : list Global;
  exports : list (string * Export);
  start_func : option Z;
  table_elements : list TableElements;
}.

Definition Module_new : Module_ := {|
  signatures := []; imported_funcs := []; imported_tables := [];
  imported_memories := []; imported_globals := []; functions := [];
  table_plans := []; memory_plans := []; globals := []; exports := [];
  start_func := None; table_elements := [];
|}.

Section index_spaces.
Context (m : Module_).

Definition func_index (defined_func : Z) : Z := zlen (imported_funcs m) + defined_func.
Definition defined_func_index (func : Z) : option Z :=
  if func <? zlen (imported_funcs m) then None
  else Some (func - zlen (imported_funcs m)).
Definition is_imported_function (index : Z) : bool := index <? zlen (imported_funcs m).

Definition table_index (defined_table : Z) : Z := zlen (imported_tables m) + defined_table.
Definition defined_table_index (table : Z) : option Z :=
  if table <? zlen (imported_tables m) then None
  else Some (table - zlen (imported_tables m)).
Definition is_imported_table (index : Z) : bool := index <? zlen (imported_tables m).

Definition memory_index (defined_memory : Z) : Z :=
  zlen (imported_memories m) + defined_memory.
Definition defined_memory_index (memory : Z) : option Z :=
  if memory <? zlen (imported_memories m) then None
  else Some (memory - zlen (imported_memories m)).
Definition is_imported_memory (index : Z) : bool := index <? zlen (imported_memories m).

Definition global_index (defined_global : Z) : Z :=
  zlen (imported_globals m) + defined_global.
Definition defined_global_index (global : Z) : option Z :=
  if global <? zlen (imported_globals m) then None
  else Some (global - zlen (imported_globals m)).
Definition is_imported_global (index : Z) : bool := index <? zlen (imported_globals m).
End index_spaces.

(** [IndexMap::get] and [IndexMap::insert] (an existing key keeps its place). *)
Fixpoint imap_get {A} (l : list (string * A)) (k : string) : option A :=
  match l with
  | [] => None
  | (k', v) :: l => if decide (k' = k) then Some v else imap_get l k
  end.

Fixpoint imap_insert {A} (l : list (string * A)) (k : string) (v : A)
    : list (string * A) :=
  match l with
  | [] => [(k, v)]
  | (k', v') :: l =>
      if decide (k' = k) then (k', v) :: l else (k', v') :: imap_insert l k v
  end.

(** *** [Module::hash_for_cache]

    The hasher is a parameter of the source; the model is the sequence of
    items that are fed to it, in order. *)
Record FunctionBodyData := mkFunctionBodyData { fb_data : list Z; fb_module_offset : Z }.

Inductive hash_item :=
| HSignatures (l : list Signature)
| HFunctions (l : list Z)
| HTablePlans (l : list TablePlan)
| HMemoryPlans (l : list MemoryPlan)
| HGlobals (l : list Global)
| HExport (e : Export)
| HBodies (l : list FunctionBodyData).

(** The derived [Ord] of [Export]: by variant, then by index. *)
Definition export_key (e : Export) : Z * Z :=
  match e with
  | ExportFunction i => (0, i)
  | ExportTable i => (1, i)
  | ExportMemory i => (2, i)
  | ExportGlobal i => (3, i)
  end.
Definition export_le (a b : Export) : Prop :=
  (export_key a).1 < (export_key b).1 ∨
  ((export_key a).1 = (export_key b).1 ∧ (export_key a).2 ≤ (export_key b).2).
#[export] Instance export_le_dec : RelDecision export_le.
Proof. intros a b. unfold export_le. apply _. Defined.

Definition hash_for_cache (m : Module_) (function_body_inputs : list FunctionBodyData)
    : list hash_item :=
  [HSignatures (signatures m); HFunctions (functions m); HTablePlans (table_plans m);
   HMemoryPlans (memory_plans m); HGlobals (globals m)]
  ++ map HExport (merge_sort export_le (map snd (exports m)))
  ++ [HBodies function_body_inputs].

(** ** Properties *)

#[export] Instance export_le_total : Total export_le.
Proof. intros a b. unfold export_le. lia. Qed.
#[export] Instance export_le_trans : Transitive export_le.
Proof. intros a b c. unfold export_le. lia. Qed.
#[export] Instance export_le_antisymm : AntiSymm (=) export_le.
Proof.
  intros a b. unfold export_le. intros H1 H2.
  destruct a, b; cbn in *; f_equal; lia.
Qed.

(** The cache key does not depend on the order in which exports were
    declared nor on their names: two modules that agree on everything else
    that is hashed, and whose exported entities are the same up to order,
    feed the hasher the same sequence. *)
Theorem hash_for_cache_export_order (m m' : Module_) (bodies : list FunctionBodyData)
    (Hs : signatures m = signatures m') (Hf : functions m = functions m')
    (Ht : table_plans m = table_plans m') (Hm : memory_plans m = memory_plans m')
    (Hg : globals m = globals m')
    (He : Permutation (map snd (exports m)) (map snd (exports m'))) :
  hash_for_cache m bodies = hash_for_cache m' bodies.
Proof.
  unfold hash_for_cache. rewrite Hs, Hf, Ht, Hm, Hg. do 3 f_equal.
  apply (StronglySorted_unique export_le); try (apply StronglySorted_merge_sort; apply _).
  by rewrite !merge_sort_Permutation.
Qed.

Definition ex_module (e : list (string * Export)) : Module_ :=
  mkModule [] [] [] [] [] [0; 0] [] [] [] e None [].

Lemma hash_for_cache_export_order_witness :
  hash_for_cache (ex_module [("a", ExportFunction 1); ("b", ExportFunction 0)]) [] =
  hash_for_cache (ex_module [("x", ExportFunction 0); ("y", ExportFunction 1)]) [].
Proof.
  apply (hash_for_cache_export_order
    (ex_module [("a", ExportFunction 1); ("b", ExportFunction 0)])
    (ex_module [("x", ExportFunction 0); ("y", ExportFunction 1)]));
    try reflexivity.
  apply perm_swap.
Defined.

Lemma MemoryStyle_for_memory_Ret mem t :
  is_ret (MemoryStyle_for_memory mem t) = true ↔
  ∀ M, mem_maximum mem = Some M → M ≤ static_memory_bound t →
       mem_minimum mem ≤ static_memory_bound t.
Proof.
  unfold MemoryStyle_for_memory. destruct (mem_maximum mem) as [M|]; [|naive_solver].
  destruct (Z.leb_spec M (static_memory_bound t)).
  - destruct (Z.leb_spec (mem_minimum mem) (static_memory_bound t)); cbn.
    + split; [intros _ M' [= <-]; lia | done].
    + split; [done|]. intros Hall. specialize (Hall M eq_refl). lia.
  - cbn. split; [intros _ M' [= <-]; lia | done].
Qed.

(** The plan of a memory whose limits are valid (minimum at most the
    maximum) is always drawn up, and it is static, with the tunables' bound
    (at least the memory's minimum and maximum) and the static guard,
    exactly when a declared maximum is within the bound; otherwise it is
    dynamic with the dynamic guard. *)
Theorem MemoryPlan_for_memory_spec (mem : Memory) (t : Tunables)
    (Hlim : ∀ M, mem_maximum mem = Some M → mem_minimum mem ≤ M) :
  ∃ plan, MemoryPlan_for_memory mem t = Ret plan ∧ plan_memory plan = mem ∧
  match plan_style plan with
  | Static bound =>
      bound = static_memory_bound t ∧ mem_minimum mem ≤ bound ∧
      plan_offset_guard_size plan = static_memory_offset_guard_size t ∧
      ∃ M, mem_maximum mem = Some M ∧ M ≤ bound
  | Dynamic =>
      plan_offset_guard_size plan = dynamic_memory_offset_guard_size t ∧
      ∀ M, mem_maximum mem = Some M → static_memory_bound t < M
  end.
Proof.
  unfold MemoryPlan_for_memory, MemoryStyle_for_memory.
  destruct (mem_maximum mem) as [M|] eqn:EM.
  - specialize (Hlim M eq_refl).
    destruct (Z.leb_spec M (static_memory_bound t)).
    + rewrite (proj2 (Z.leb_le _ _)) by lia. cbn. eexists.
      split_and!; [done..|]. cbn. split_and!; eauto with lia.
    + cbn. eexists. split_and!; [done..|]. cbn. split; [done|]. naive_solver.
  - cbn. eexists. split_and!; [done..|]. cbn. split; [done|]. naive_solver.
Qed.

Lemma MemoryPlan_for_memory_spec_witness :
  ∃ plan, MemoryPlan_for_memory (mkMemory 1 (Some 10) false) Tunables_default = Ret plan ∧
          plan_style plan = Static 65536.
Proof.
  destruct (MemoryPlan_for_memory_spec (mkMemory 1 (Some 10) false) Tunables_default)
    as (plan & H & _).
  - intros M [= <-]. cbn. lia.
  - exists plan. split; [exact H|]. vm_compute in H. injection H as <-. reflexivity.
Defined.
