(* ===== verification/ModuleEnv.v ===== *)
(** * The module environment: callbacks that build a module

    Models [wasmtime-environ/src/module_environ.rs].  [translate_module] of
    the wasm frontend is third-party code; what the source defines are the
    callbacks it calls.  A callback is an [event], one event is one [step]
    of the [ModuleTranslation] state, and a translation is a [run] over a
    sequence of events.  The abstract specification is the WebAssembly
    index space: imports first, then definitions. *)

From S2P Require Import Prelude Environ.
Local Open Scope Z_scope.

Record DataInitializerLocation := mkDataInitializerLocation {
  dl_memory_index : Z;
  dl_base : option Z;
  dl_offset : Z;
}.

Record DataInitializer := mkDataInitializer {
  di_location : DataInitializerLocation;
  di_data : list Z;
}.

Record ModuleTranslation := mkModuleTranslation {
  mt_module : Module_;
  function_body_inputs : list FunctionBodyData;
  data_initializers : list DataInitializer;
  mt_tunables : Tunables;
}.

(** [ModuleEnvironment::new] *)
Definition ModuleEnvironment_new (tunables : Tunables) : ModuleTranslation := {|
  mt_module := Module_new; function_body_inputs := [];
  data_initializers := []; mt_tunables := tunables;
|}.

Definition with_module (mt : ModuleTranslation) (m : Module_) : ModuleTranslation :=
  {| mt_module := m; function_body_inputs := function_body_inputs mt;
     data_initializers := data_initializers mt; mt_tunables := mt_tunables mt |}.

(** Field updates of [Module_], for the assignments of the callbacks. *)
Section updates.
Context (m : Module_).
Definition set_signatures x := mkModule x (imported_funcs m) (imported_tables m)
  (imported_memories m) (imported_globals m) (functions m) (table_plans m)
  (memory_plans m) (globals m) (exports m) (start_func m) (table_elements m).
Definition push_func_import fs i := mkModule (signatures m) i (imported_tables m)
  (imported_memories m) (imported_globals m) fs (table_plans m)
  (memory_plans m) (globals m) (exports m) (start_func m) (table_elements m).
Definition push_table_import ps i := mkModule (signatures m) (imported_funcs m) i
  (imported_memories m) (imported_globals m) (functions m) ps
  (memory_plans m) (globals m) (exports m) (start_func m) (table_elements m).
Definition push_memory_import ps i := mkModule (signatures m) (imported_funcs m)
  (imported_tables m) i (imported_globals m) (functions m) (table_plans m)
  ps (globals m) (exports m) (start_func m) (table_elements m).
Definition push_global_import gs i := mkModule (signatures m) (imported_funcs m)
  (imported_tables m) (imported_memories m) i (functions m) (table_plans m)
  (memory_plans m) gs (exports m) (start_func m) (table_elements m).
Definition set_exports x := mkModule (signatures m) (imported_funcs m)
  (imported_tables m) (imported_memories m) (imported_globals m) (functions m)
  (table_plans m) (memory_plans m) (globals m) x (start_func m) (table_elements m).
Definition set_start x := mkModule (signatures m) (imported_funcs m)
  (imported_tables m) (imported_memories m) (imported_globals m) (functions m)
  (table_plans m) (memory_plans m) (globals m) (exports m) x (table_elements m).
Definition set_table_elements x := mkModule (signatures m) (imported_funcs m)
  (imported_tables m) (imported_memories m) (imported_globals m) (functions m)
  (table_plans m) (memory_plans m) (globals m) (exports m) (start_func m) x.
End updates.

Section environment.
Set Default Proof Using "Type".
(** [AbiParam::special] and the target's pointer type are the code
    generator's. *)
Context (abi_special : ir_type → ArgumentPurpose → AbiParam).
Context (pointer_type : ir_type).

Definition translate_signature (sig : Signature) (pointer_type : ir_type) : Signature :=
  mkSignature (abi_special pointer_type VMContextArg :: params sig)
    (returns sig) (call_conv sig).

Definition declare_signature (mt : ModuleTranslation) (sig : Signature)
    : res ModuleTranslation :=
  let m := mt_module mt in
  Ret (with_module mt (set_signatures m
    (signatures m ++ [translate_signature sig pointer_type]))).

Definition declare_func_import (mt : ModuleTranslation) (sig_index : Z)
    (module field : string) : res ModuleTranslation :=
  let m := mt_module mt in
  _ ← rassert (zlen (functions m) =? zlen (imported_funcs m));
  Ret (with_module mt (push_func_import m (functions m ++ [sig_index])
    (imported_funcs m ++ [(module, field)]))).

Definition declare_table_import (mt : ModuleTranslation) (table : Table)
    (module field : string) : res ModuleTranslation :=
  let m := mt_module mt in
  _ ← rassert (zlen (table_plans m) =? zlen (imported_tables m));
  let plan := TablePlan_for_table table (mt_tunables mt) in
  Ret (with_module mt (push_table_import m (table_plans m ++ [plan])
    (imported_tables m ++ [(module, field)]))).

Definition declare_memory_import (mt : ModuleTranslation) (memory : Memory)
    (module field : string) : res ModuleTranslation :=
  let m := mt_module mt in
  _ ← rassert (zlen (memory_plans m) =? zlen (imported_memories m));
  plan ← MemoryPlan_for_memory memory (mt_tunables mt);
  Ret (with_module mt (push_memory_import m (memory_plans m ++ [plan])
    (imported_memories m ++ [(module, field)]))).

Definition declare_global_import (mt : ModuleTranslation) (global : Global)
    (module field : string) : res ModuleTranslation :=
  let m := mt_module mt in
  _ ← rassert (zlen (globals m) =? zlen (imported_globals m));
  Ret (with_module mt (push_global_import m (globals m ++ [global])
    (imported_globals m ++ [(module, field)]))).

Definition declare_func_type (mt : ModuleTranslation) (sig_index : Z)
    : res ModuleTranslation :=
  let m := mt_module mt in
  Ret (with_module mt (push_func_import m (functions m ++ [sig_index]) (imported_funcs m))).

Definition declare_table (mt : ModuleTranslation) (table : Table)
    : res ModuleTranslation :=
  let m := mt_module mt in
  let plan := TablePlan_for_table table (mt_tunables mt) in
  Ret (with_module mt (push_table_import m (table_plans m ++ [plan]) (imported_tables m))).

Definition declare_memory (mt : ModuleTranslation) (memory : Memory)
    : res ModuleTranslation :=
  let m := mt_module mt in
  plan ← MemoryPlan_for_memory memory (mt_tunables mt);
  Ret (with_module mt (push_memory_import m (memory_plans m ++ [plan])
    (imported_memories m))).

Definition declare_global (mt : ModuleTranslation) (global : Global)
    : res ModuleTranslation :=
  let m := mt_module mt in
  Ret (with_module mt (push_global_import m (globals m ++ [global]) (imported_globals m))).

(** [declare_{func,table,memory,global}_export]. *)
Definition declare_export (mt : ModuleTranslation) (e : Export) (name : string)
    : res ModuleTranslation :=
  let m := mt_module mt in
  Ret (with_module mt (set_exports m (imap_insert (exports m) name e))).

Definition declare_start_func (mt : ModuleTranslation) (func_index : Z)
    : res ModuleTranslation :=
  let m := mt_module mt in
  _ ← rassert (bool_decide (start_func m = None));
  Ret (with_module mt (set_start m (Some func_index))).

Definition declare_table_elements (mt : ModuleTranslation) (table_index : Z)
    (base : option Z) (offset : Z) (elements : list Z) : res ModuleTranslation :=
  let m := mt_module mt in
  Ret (with_module mt (set_table_elements m (table_elements m ++
    [mkTableElements table_index base offset elements]))).

Definition define_function_body (mt : ModuleTranslation) (body_bytes : list Z)
    (body_offset : Z) : res ModuleTranslation :=
  Ret {| mt_module := mt_module mt;
         function_body_inputs := function_body_inputs mt ++
           [mkFunctionBodyData body_bytes body_offset];
         data_initializers := data_initializers mt; mt_tunables := mt_tunables mt |}.

Definition declare_data_initialization (mt : ModuleTranslation) (memory_index : Z)
    (base : option Z) (offset : Z) (data : list Z) : res ModuleTranslation :=
  Ret {| mt_module := mt_module mt; function_body_inputs := function_body_inputs mt;
         data_initializers := data_initializers mt ++
           [mkDataInitializer (mkDataInitializerLocation memory_index base offset) data];
         mt_tunables := mt_tunables mt |}.

(** The callbacks that only reserve capacity ([reserve_signatures], ...,
    [finish_imports]) leave the contents of the translation as they are;
    [usize::try_from(num)] of a [u32] does not fail on a 64-bit target. *)
Inductive event :=
| EReserve (num : Z)
| EFinishImports
| ESignature (sig : Signature)
| EFuncImport (sig_index : Z) (module field : string)
| ETableImport (table : Table) (module field : string)
| EMemoryImport (memory : Memory) (module field : string)
| EGlobalImport (global : Global) (module field : string)
| EFuncType (sig_index : Z)
| ETable (table : Table)
| EMemory (memory : Memory)
| EGlobal (global : Global)
| EExport (e : Export) (name : string)
| EStartFunc (func_index : Z)
| ETableElements (table_index : Z) (base : option Z) (offset : Z) (elements : list Z)
| EFunctionBody (body_bytes : list Z) (body_offset : Z)
| EDataInit (memory_index : Z) (base : option Z) (offset : Z) (data : list Z).

Definition step (mt : ModuleTranslation) (e : event) : res ModuleTranslation :=
  match e with
  | EReserve _ | EFinishImports => Ret mt
  | ESignature sig => declare_signature mt sig
  | EFuncImport s m f => declare_func_import mt s m f
  | ETableImport t m f => declare_table_import mt t m f
  | EMemoryImport x m f => declare_memory_import mt x m f
  | EGlobalImport g m f => declare_global_import mt g m f
  | EFuncType s => declare_func_type mt s
  | ETable t => declare_table mt t
  | EMemory x => declare_memory mt x
  | EGlobal g => declare_global mt g
  | EExport e name => declare_export mt e name
  | EStartFunc i => declare_start_func mt i
  | ETableElements t b o es => declare_table_elements mt t b o es
  | EFunctionBody b o => define_function_body mt b o
  | EDataInit i b o d => declare_data_initialization mt i b o d
  end.

Definition run (mt : ModuleTranslation) (es : list event) : res ModuleTranslation :=
  foldM step mt es.

(** ** The abstract index spaces

    What the callbacks of a sequence of events declare, kind by kind. *)
Definition func_imports (es : list event) : list (Z * (string * string)) :=
  omap (λ e, match e with EFuncImport s m f => Some (s, (m, f)) | _ => None end) es.
Definition func_defs (es : list event) : list Z :=
  omap (λ e, match e with EFuncType s => Some s | _ => None end) es.
Definition table_imports (es : list event) : list (Table * (string * string)) :=
  omap (λ e, match e with ETableImport t m f => Some (t, (m, f)) | _ => None end) es.
Definition table_defs (es : list event) : list Table :=
  omap (λ e, match e with ETable t => Some t | _ => None end) es.
Definition memory_imports (es : list event) : list (Memory * (string * string)) :=
  omap (λ e, match e with EMemoryImport x m f => Some (x, (m, f)) | _ => None end) es.
Definition memory_defs (es : list event) : list Memory :=
  omap (λ e, match e with EMemory x => Some x | _ => None end) es.
Definition global_imports (es : list event) : list (Global * (string * string)) :=
  omap (λ e, match e with EGlobalImport g m f => Some (g, (m, f)) | _ => None end) es.
Definition global_defs (es : list event) : list Global :=
  omap (λ e, match e with EGlobal g => Some g | _ => None end) es.
Definition start_decls (es : list event) : list Z :=
  omap (λ e, match e with EStartFunc i => Some i | _ => None end) es.

(** [index_space R imps defs all names]: the module's vector [all] holds the
    imports, then the definitions (each related by [R] to what was declared),
    and [names] are the imports' names. *)
Definition index_space {A B} (R : A → B → Prop) (imps : list (A * (string * string)))
    (defs : list A) (all : list B) (names : list (string * string)) : Prop :=
  Forall2 R (map fst imps ++ defs) all ∧ names = map snd imps.

Lemma index_space_nil {A B} (R : A → B → Prop) : index_space R [] [] [] [].
Proof. split; [constructor|done]. Qed.

Lemma index_space_def {A B} (R : A → B → Prop) imps defs all names a b :
  R a b → index_space R imps defs all names →
  index_space R imps (defs ++ [a]) (all ++ [b]) names.
Proof.
  intros HR [H ->]. split; [|done]. rewrite app_assoc. apply Forall2_app; [done|].
  by repeat constructor.
Qed.

Lemma index_space_import {A B} (R : A → B → Prop) imps defs all names a b n :
  R a b → zlen all = zlen names → index_space R imps defs all names →
  index_space R (imps ++ [(a, n)]) defs (all ++ [b]) (names ++ [n]).
Proof.
  intros HR Hl [H ->]. pose proof (Forall2_length _ _ _ H) as Hlen.
  unfold zlen in Hl. rewrite length_app, !length_map in *.
  assert (defs = []) as -> by (apply nil_length_inv; lia).
  rewrite !app_nil_r in *. split.
  - rewrite app_nil_r, map_app. apply Forall2_app; [done|]. by repeat constructor.
  - by rewrite map_app.
Qed.

Lemma index_space_defs_nil {A B} (R : A → B → Prop) imps defs all names :
  index_space R imps defs all names → (zlen all =? zlen names) = true ↔ defs = [].
Proof.
  intros [H ->]. pose proof (Forall2_length _ _ _ H) as Hlen. unfold zlen.
  rewrite length_app, !length_map in *. rewrite Z.eqb_eq. split.
  - intros. apply nil_length_inv; lia.
  - intros ->. cbn in *. lia.
Qed.

Definition plan_of (t : Tunables) (x : Memory) (p : MemoryPlan) : Prop :=
  MemoryPlan_for_memory x t = Ret p.

(** The state of a translation is what its events declared. *)
Record translates (t : Tunables) (es : list event) (mt : ModuleTranslation) : Prop := {
  tr_tunables : mt_tunables mt = t;
  tr_funcs : index_space eq (func_imports es) (func_defs es)
    (functions (mt_module mt)) (imported_funcs (mt_module mt));
  tr_tables : index_space (λ x p, p = TablePlan_for_table x t)
    (table_imports es) (table_defs es)
    (table_plans (mt_module mt)) (imported_tables (mt_module mt));
  tr_memories : index_space (plan_of t) (memory_imports es) (memory_defs es)
    (memory_plans (mt_module mt)) (imported_memories (mt_module mt));
  tr_globals : index_space eq (global_imports es) (global_defs es)
    (globals (mt_module mt)) (imported_globals (mt_module mt));
  tr_start : start_func (mt_module mt) = None ↔ start_decls es = [];
}.

Lemma translates_new t : translates t [] (ModuleEnvironment_new t).
Proof. split; cbn; eauto using index_space_nil. by split. Qed.

Lemma step_translates t es mt e mt' :
  translates t es mt → step mt e = Ret mt' → translates t (es ++ [e]) mt'.
Proof.
  intros [Ht Hf Htb Hm Hg Hs] Hstep.
  destruct e; cbn in Hstep; unfold declare_signature, declare_func_import,
    declare_table_import, declare_memory_import, declare_global_import,
    declare_func_type, declare_table, declare_memory, declare_global, declare_export,
    declare_start_func, declare_table_elements, define_function_body,
    declare_data_initialization in Hstep; res_inv Hstep;
    split; cbn; unfold func_imports, func_defs, table_imports, table_defs,
    memory_imports, memory_defs, global_imports, global_defs, start_decls in *;
    rewrite ?omap_app_one, ?app_nil_r;
    eauto using index_space_def, index_space_import;
    try (apply index_space_import; [done|by apply Z.eqb_eq|done]).
  split; [done|]. by intros ?%app_one_not_nil.
Qed.

Lemma run_translates_gen t es es' mt mt' :
  translates t es mt → run mt es' = Ret mt' → translates t (es ++ es') mt'.
Proof.
  revert es mt; induction es' as [|e es' IH]; intros es mt H Hr; cbn in Hr.
  - simplify_eq. by rewrite app_nil_r.
  - apply bind_Ret in Hr as (mt1 & H1 & Hr).
    eapply step_translates in H1; [|done]. specialize (IH _ _ H1 Hr).
    by rewrite <-app_assoc in IH.
Qed.

(** When a callback does not panic, in a debug build: imports come before
    definitions of their kind, at most one start function, and the assertion
    of [MemoryStyle::for_memory] holds. *)
Definition event_ok (t : Tunables) (before : list event) (e : event) : Prop :=
  match e with
  | EFuncImport _ _ _ => func_defs before = []
  | ETableImport _ _ _ => table_defs before = []
  | EMemoryImport x _ _ =>
      memory_defs before = [] ∧ is_ret (MemoryPlan_for_memory x t) = true
  | EGlobalImport _ _ _ => global_defs before = []
  | EMemory x => is_ret (MemoryPlan_for_memory x t) = true
  | EStartFunc _ => start_decls before = []
  | _ => True
  end.

Lemma step_ok t es mt e :
  translates t es mt → is_ret (step mt e) = true ↔ event_ok t es e.
Proof.
  intros [Ht Hf Htb Hm Hg Hs].
  apply index_space_defs_nil in Hf, Htb, Hm, Hg.
  destruct e; cbn [step event_ok]; try done; unfold declare_func_import, declare_table_import,
    declare_memory_import, declare_global_import, declare_memory, declare_start_func;
    rewrite ?(is_ret_iff (MemoryPlan_for_memory _ _)), ?is_ret_bind;
    try setoid_rewrite rassert_Ret.
  - rewrite <-Hf. naive_solver.
  - rewrite <-Htb. naive_solver.
  - setoid_rewrite is_ret_bind. rewrite <-Hm, Ht. naive_solver.
  - rewrite <-Hg. naive_solver.
  - rewrite Ht. naive_solver.
  - setoid_rewrite bool_decide_eq_true. rewrite <-Hs. naive_solver.
Qed.

Lemma run_ok_gen t es0 es mt :
  translates t es0 mt →
  is_ret (run mt es) = true ↔
  ∀ pre e post, es = pre ++ e :: post → event_ok t (es0 ++ pre) e.
Proof.
  revert es0 mt; induction es as [|e es IH]; intros es0 mt H.
  - split; [|done]. intros _ [|??] ?? ?; done.
  - cbn. rewrite is_ret_bind. split.
    + intros (mt1 & H1 & H2) pre e' post Heq.
      pose proof (step_translates _ _ _ _ _ H H1) as Ht1.
      destruct pre as [|e1 pre]; cbn in Heq; simplify_eq.
      * rewrite app_nil_r. eapply step_ok; [done|]. by rewrite H1.
      * pose proof (proj1 (IH _ _ Ht1) H2 pre e' post eq_refl) as Ho.
        by rewrite <-app_assoc in Ho.
    + intros Hall. pose proof (Hall [] e es eq_refl) as He.
      rewrite app_nil_r in He. apply (step_ok _ _ _ _ H), is_ret_iff in He as [mt1 H1].
      exists mt1. split; [done|]. eapply IH; [by eapply step_translates|].
      intros pre e' post ->. rewrite <-app_assoc. by apply (Hall (e :: pre) e' post).
Qed.

(** C28: a translation that returns has built the WebAssembly index spaces:
    in each of the four kinds (functions, tables, memories, globals) the
    module's vector lists the declared imports first and the definitions
    after them, in the order of their callbacks, with the plan chosen for
    each memory and table, and the import names are those of the import
    callbacks. *)
Theorem run_index_spaces t es mt (Hrun : run (ModuleEnvironment_new t) es = Ret mt) :
  let m := mt_module mt in
  index_space eq (func_imports es) (func_defs es) (functions m) (imported_funcs m) ∧
  index_space (λ x p, p = TablePlan_for_table x t)
    (table_imports es) (table_defs es) (table_plans m) (imported_tables m) ∧
  index_space (plan_of t) (memory_imports es) (memory_defs es)
    (memory_plans m) (imported_memories m) ∧
  index_space eq (global_imports es) (global_defs es) (globals m) (imported_globals m).
Proof.
  destruct (run_translates_gen t [] es _ _ (translates_new t) Hrun); done.
Qed.

(** A translation panics (with debug assertions) exactly when a callback
    comes out of order: an import after a definition of its kind, a second
    start function, or a memory whose declared maximum is within the static
    bound while its minimum is above it.  Every other sequence of callbacks
    completes. *)
Theorem run_returns_iff t es :
  is_ret (run (ModuleEnvironment_new t) es) = true ↔
  ∀ pre e post, es = pre ++ e :: post → event_ok t pre e.
Proof. apply (run_ok_gen t [] es _ (translates_new t)). Qed.

End environment.

(** ** Index conversions *)

(** Within each index space, converting a defined index to a module
    index and back is the identity, and an index has no defined counterpart
    exactly when it is an import. *)
Theorem index_roundtrip (m : Module_) (d i : Z) (Hd : 0 ≤ d) :
  defined_func_index m (func_index m d) = Some d ∧
  defined_table_index m (table_index m d) = Some d ∧
  defined_memory_index m (memory_index m d) = Some d ∧
  defined_global_index m (global_index m d) = Some d ∧
  (∀ k, defined_func_index m i = Some k → func_index m k = i) ∧
  (∀ k, defined_table_index m i = Some k → table_index m k = i) ∧
  (∀ k, defined_memory_index m i = Some k → memory_index m k = i) ∧
  (∀ k, defined_global_index m i = Some k → global_index m k = i) ∧
  is_imported_function m i = bool_decide (defined_func_index m i = None) ∧
  is_imported_table m i = bool_decide (defined_table_index m i = None) ∧
  is_imported_memory m i = bool_decide (defined_memory_index m i = None) ∧
  is_imported_global m i = bool_decide (defined_global_index m i = None).
Proof.
  unfold defined_func_index, defined_table_index, defined_memory_index,
    defined_global_index, func_index, table_index, memory_index, global_index,
    is_imported_function, is_imported_table, is_imported_memory, is_imported_global.
  repeat match goal with |- _ ∧ _ => split end; intros;
    repeat case_match; simplify_eq; try (f_equal; lia); try lia;
    by rewrite ?bool_decide_eq_true_2, ?bool_decide_eq_false_2.
Qed.

(** ** Examples and witnesses *)

Definition ex_sig : Signature := mkSignature [] [] 0.
Definition ex_events : list event :=
  [ESignature ex_sig; EFuncImport 0 "env" "f"; EMemoryImport (mkMemory 1 None false) "env" "mem";
   EFinishImports; EFuncType 0; EGlobal (mkGlobal I32 false (I32Const 7));
   EExport (ExportFunction 1) "run"; EStartFunc 1; EFunctionBody [11] 40].

Definition ex_special (ty : ir_type) (p : ArgumentPurpose) : AbiParam := mkAbiParam ty p.

Lemma run_index_spaces_witness :
  ∃ mt, run ex_special I64 (ModuleEnvironment_new Tunables_default) ex_events = Ret mt ∧
  functions (mt_module mt) = [0; 0] ∧
  index_space eq (func_imports ex_events) (func_defs ex_events)
    (functions (mt_module mt)) (imported_funcs (mt_module mt)).
Proof.
  eexists. split; [vm_compute; reflexivity|]. split; [reflexivity|].
  eapply (run_index_spaces ex_special I64 Tunables_default). vm_compute. reflexivity.
Defined.

Lemma index_roundtrip_witness :
  defined_func_index (mkModule [] [("env", "f")] [] [] [] [0; 0] [] [] [] [] None [])
    (func_index (mkModule [] [("env", "f")] [] [] [] [0; 0] [] [] [] [] None []) 0)
  = Some 0.
Proof.
  apply (index_roundtrip
    (mkModule [] [("env", "f")] [] [] [] [0; 0] [] [] [] [] None []) 0 0).
  lia.
Defined.

(** ** What the cache key does not see *)

Definition hash_of_run (t : Tunables) (es : list event) : res (list hash_item) :=
  mt ← run ex_special I64 (ModuleEnvironment_new t) es;
  Ret (hash_for_cache (mt_module mt) (function_body_inputs mt)).

Definition defined_memory_of_run (t : Tunables) (es : list event) : res (option Z) :=
  mt ← run ex_special I64 (ModuleEnvironment_new t) es;
  Ret (defined_memory_index (mt_module mt) 0).

Lemma run_app special pt mt es1 es2 :
  run special pt mt (es1 ++ es2) = run special pt mt es1 ≫= λ mt', run special pt mt' es2.
Proof. apply foldM_app. Qed.

Lemma run_cons special pt mt e es :
  run special pt mt (e :: es) = step special pt mt e ≫= λ mt', run special pt mt' es.
Proof. done. Qed.

Lemma run_func_types special pt {A} (bodies : list A) mt :
  run special pt mt (map (λ _, EFuncType 0) bodies) =
  Ret (with_module mt (push_func_import (mt_module mt)
    (functions (mt_module mt) ++ map (λ _, 0) bodies) (imported_funcs (mt_module mt)))).
Proof.
  revert mt. induction bodies as [|b bodies IH]; intros mt; cbn.
  - destruct mt as [[]]; cbn. by rewrite app_nil_r.
  - unfold run in IH. rewrite IH. cbn. by rewrite <-app_assoc.
Qed.

Lemma run_bodies special pt (bodies : list (list Z * Z)) mt :
  run special pt mt (map (λ b, EFunctionBody b.1 b.2) bodies) =
  Ret (mkModuleTranslation (mt_module mt)
    (function_body_inputs mt ++ map (λ b, mkFunctionBodyData b.1 b.2) bodies)
    (data_initializers mt) (mt_tunables mt)).
Proof.
  revert mt. induction bodies as [|b bodies IH]; intros mt; cbn.
  - destruct mt; cbn. by rewrite app_nil_r.
  - unfold run in IH. rewrite IH. cbn. by rewrite <-app_assoc.
Qed.

(** The cache key does not record how many entries of an index space are
    imports.  For every memory type and every list of function bodies, a
    module that imports its memory and a module that defines it feed the
    hasher the same sequence, although the code compiled for memory 0
    differs (one goes through the import, the other is local). *)
Theorem hash_for_cache_ignores_imports t (x : Memory) (bodies : list (list Z * Z))
    (Hx : is_ret (MemoryPlan_for_memory x t) = true) :
  let funcs := map (λ b, EFuncType 0) bodies in
  let code := map (λ b, EFunctionBody b.1 b.2) bodies in
  let imports := [ESignature ex_sig; EMemoryImport x "env" "mem"] ++ funcs ++ code in
  let defines := [ESignature ex_sig] ++ funcs ++ [EMemory x] ++ code in
  (∃ h, hash_of_run t imports = Ret h ∧ hash_of_run t defines = Ret h) ∧
  defined_memory_of_run t imports = Ret None ∧
  defined_memory_of_run t defines = Ret (Some 0).
Proof.
  apply is_ret_iff in Hx as [plan Hplan].
  set (sig := translate_signature ex_special ex_sig I64).
  assert (Hi : run ex_special I64 (ModuleEnvironment_new t)
      [ESignature ex_sig; EMemoryImport x "env" "mem"] =
    Ret (mkModuleTranslation (mkModule [sig] [] [] [("env", "mem")] [] [] [] [plan]
      [] [] None []) [] [] t)).
  { cbn -[MemoryPlan_for_memory]. unfold declare_memory_import. simpl mt_tunables.
    by rewrite Hplan. }
  assert (Hs : run ex_special I64 (ModuleEnvironment_new t) [ESignature ex_sig] =
    Ret (mkModuleTranslation (set_signatures Module_new [sig]) [] [] t)) by done.
  assert (Hd : ∀ m bs ds, run ex_special I64 (mkModuleTranslation m bs ds t) [EMemory x] =
    Ret (mkModuleTranslation (push_memory_import m (memory_plans m ++ [plan])
      (imported_memories m)) bs ds t)).
  { intros. cbn -[MemoryPlan_for_memory]. unfold declare_memory. simpl mt_tunables.
    by rewrite Hplan. }
  unfold hash_of_run, defined_memory_of_run. cbn zeta.
  rewrite !run_app, Hi, Hs, !bind_Ret_l.
  rewrite !run_app, !run_func_types, !bind_Ret_l, !run_app.
  unfold with_module. cbn [mt_tunables].
  rewrite !Hd, !bind_Ret_l, !run_bodies, !bind_Ret_l.
  split; [eexists; split; reflexivity|done].
Qed.

Lemma hash_for_cache_ignores_imports_witness :
  defined_memory_of_run Tunables_default
    [ESignature ex_sig; EMemoryImport (mkMemory 1 None false) "env" "mem";
     EFuncType 0; EFunctionBody [11] 30] = Ret None.
Proof.
  apply (hash_for_cache_ignores_imports Tunables_default (mkMemory 1 None false)
    [([11], 30)]). reflexivity.
Defined.
