(* ===== verification/VMOffsets.v ===== *)
(** * The layout of [VMContext]

    Models [wasmtime-environ/src/vmoffsets.rs] (and the builtin function
    indices of [func_environ.rs]): the byte offsets at which compiled code
    and the runtime find the fields of the dynamically sized [VMContext].
    The functions are translated one by one, with their checked 32-bit and
    8-bit arithmetic; [regions] is the abstract specification, a sequence of
    arrays laid out one after another. *)

From S2P Require Import Prelude Environ.
Local Open Scope Z_scope.

(** ** [BuiltinFunctionIndex] *)
Definition get_memory32_grow_index : Z := 0.
Definition get_imported_memory32_grow_index : Z := 1.
Definition get_memory32_size_index : Z := 2.
Definition get_imported_memory32_size_index : Z := 3.
Definition builtin_functions_total_number : Z := 4.

Definition cast_to_u32 (sz : Z) : res Z := unwrap (try_from_u 32 sz).

(** [(offset + (width - 1)) / width * width] on [u32]. *)
Definition align (offset width : Z) : res Z :=
  w1 ← op_sub 32 width 1;
  s ← op_add 32 offset w1;
  op_mul 32 (s / width) width.

Record VMOffsets := mkVMOffsets {
  pointer_size : Z;
  num_signature_ids : Z;
  num_imported_functions : Z;
  num_imported_tables : Z;
  num_imported_memories : Z;
  num_imported_globals : Z;
  num_defined_tables : Z;
  num_defined_memories : Z;
  num_defined_globals : Z;
}.

Definition VMOffsets_new (pointer_size : Z) (module : Module_) : res VMOffsets :=
  num_signature_ids ← cast_to_u32 (zlen (signatures module));
  num_imported_functions ← cast_to_u32 (zlen (imported_funcs module));
  num_imported_tables ← cast_to_u32 (zlen (imported_tables module));
  num_imported_memories ← cast_to_u32 (zlen (imported_memories module));
  num_imported_globals ← cast_to_u32 (zlen (imported_globals module));
  num_defined_tables ← cast_to_u32 (zlen (table_plans module));
  num_defined_memories ← cast_to_u32 (zlen (memory_plans module));
  num_defined_globals ← cast_to_u32 (zlen (globals module));
  Ret (mkVMOffsets pointer_size num_signature_ids num_imported_functions
    num_imported_tables num_imported_memories num_imported_globals
    num_defined_tables num_defined_memories num_defined_globals).

Section offsets.
Context (o : VMOffsets).
Set Default Proof Using "Type".

(** *** Structs: [u8] offsets and sizes *)
Definition vmfunction_import_body : res Z := op_mul 8 0 (pointer_size o).
Definition vmfunction_import_vmctx : res Z := op_mul 8 1 (pointer_size o).
Definition size_of_vmfunction_import : res Z := op_mul 8 2 (pointer_size o).

Definition size_of_vmfunction_body_ptr : res Z := op_mul 8 1 (pointer_size o).

Definition vmtable_import_from : res Z := op_mul 8 0 (pointer_size o).
Definition vmtable_import_vmctx : res Z := op_mul 8 1 (pointer_size o).
Definition size_of_vmtable_import : res Z := op_mul 8 2 (pointer_size o).

Definition vmtable_definition_base : res Z := op_mul 8 0 (pointer_size o).
Definition vmtable_definition_current_elements : res Z := op_mul 8 1 (pointer_size o).
Definition size_of_vmtable_definition_current_elements : res Z := Ret 4.
Definition size_of_vmtable_definition : res Z := op_mul 8 2 (pointer_size o).

Definition vmmemory_import_from : res Z := op_mul 8 0 (pointer_size o).
Definition vmmemory_import_vmctx : res Z := op_mul 8 1 (pointer_size o).
Definition size_of_vmmemory_import : res Z := op_mul 8 2 (pointer_size o).

Definition vmmemory_definition_base : res Z := op_mul 8 0 (pointer_size o).
Definition vmmemory_definition_current_length : res Z := op_mul 8 1 (pointer_size o).
Definition size_of_vmmemory_definition_current_length : res Z := Ret 4.
Definition size_of_vmmemory_definition : res Z := op_mul 8 2 (pointer_size o).

Definition vmglobal_import_from : res Z := op_mul 8 0 (pointer_size o).
Definition size_of_vmglobal_import : res Z := op_mul 8 1 (pointer_size o).

Definition size_of_vmglobal_definition : res Z := Ret 16.
Definition size_of_vmshared_signature_index : res Z := Ret 4.

Definition vmcaller_checked_anyfunc_func_ptr : res Z := op_mul 8 0 (pointer_size o).
Definition vmcaller_checked_anyfunc_type_index : res Z := op_mul 8 1 (pointer_size o).
Definition vmcaller_checked_anyfunc_vmctx : res Z := op_mul 8 2 (pointer_size o).
Definition size_of_vmcaller_checked_anyfunc : res Z := op_mul 8 3 (pointer_size o).

(** [begin.checked_add(num.checked_mul(u32::from(size)).unwrap()).unwrap()],
    the expression every offset below is built from. *)
Definition after_array (begin size : res Z) (num : Z) : res Z :=
  b ← begin;
  s ← size;
  n ← unwrap (checked_mul 32 num s);
  unwrap (checked_add 32 b n).

(** *** Arrays: [u32] offsets *)
Definition vmctx_signature_ids_begin : res Z := Ret 0.
Definition vmctx_imported_functions_begin : res Z :=
  after_array vmctx_signature_ids_begin size_of_vmshared_signature_index
    (num_signature_ids o).
Definition vmctx_imported_tables_begin : res Z :=
  after_array vmctx_imported_functions_begin size_of_vmfunction_import
    (num_imported_functions o).
Definition vmctx_imported_memories_begin : res Z :=
  after_array vmctx_imported_tables_begin size_of_vmtable_import
    (num_imported_tables o).
Definition vmctx_imported_globals_begin : res Z :=
  after_array vmctx_imported_memories_begin size_of_vmmemory_import
    (num_imported_memories o).
Definition vmctx_tables_begin : res Z :=
  after_array vmctx_imported_globals_begin size_of_vmglobal_import
    (num_imported_globals o).
Definition vmctx_memories_begin : res Z :=
  after_array vmctx_tables_begin size_of_vmtable_definition (num_defined_tables o).
Definition vmctx_globals_begin : res Z :=
  offset ← after_array vmctx_memories_begin size_of_vmmemory_definition
    (num_defined_memories o);
  align offset 16.
Definition vmctx_builtin_functions_begin : res Z :=
  after_array vmctx_globals_begin size_of_vmglobal_definition (num_defined_globals o).
Definition size_of_vmctx : res Z :=
  after_array vmctx_builtin_functions_begin (Ret (pointer_size o))
    builtin_functions_total_number.

(** *** Elements *)
Definition vmctx_vmshared_signature_id (index : Z) : res Z :=
  _ ← rassert (index <? num_signature_ids o);
  after_array vmctx_signature_ids_begin size_of_vmshared_signature_index index.
Definition vmctx_vmfunction_import (index : Z) : res Z :=
  _ ← rassert (index <? num_imported_functions o);
  after_array vmctx_imported_functions_begin size_of_vmfunction_import index.
Definition vmctx_vmtable_import (index : Z) : res Z :=
  _ ← rassert (index <? num_imported_tables o);
  after_array vmctx_imported_tables_begin size_of_vmtable_import index.
Definition vmctx_vmmemory_import (index : Z) : res Z :=
  _ ← rassert (index <? num_imported_memories o);
  after_array vmctx_imported_memories_begin size_of_vmmemory_import index.
Definition vmctx_vmglobal_import (index : Z) : res Z :=
  _ ← rassert (index <? num_imported_globals o);
  after_array vmctx_imported_globals_begin size_of_vmglobal_import index.
Definition vmctx_vmtable_definition (index : Z) : res Z :=
  _ ← rassert (index <? num_defined_tables o);
  after_array vmctx_tables_begin size_of_vmtable_definition index.
Definition vmctx_vmmemory_definition (index : Z) : res Z :=
  _ ← rassert (index <? num_defined_memories o);
  after_array vmctx_memories_begin size_of_vmmemory_definition index.
Definition vmctx_vmglobal_definition (index : Z) : res Z :=
  _ ← rassert (index <? num_defined_globals o);
  after_array vmctx_globals_begin size_of_vmglobal_definition index.
Definition vmctx_builtin_function (index : Z) : res Z :=
  after_array vmctx_builtin_functions_begin (Ret (pointer_size o)) index.

(** *** Fields of elements: [element.checked_add(u32::from(field)).unwrap()] *)
Definition field_of (element field : res Z) : res Z :=
  e ← element; f ← field; unwrap (checked_add 32 e f).

Definition vmctx_vmfunction_import_body (index : Z) : res Z :=
  field_of (vmctx_vmfunction_import index) vmfunction_import_body.
Definition vmctx_vmfunction_import_vmctx (index : Z) : res Z :=
  field_of (vmctx_vmfunction_import index) vmfunction_import_vmctx.
Definition vmctx_vmtable_import_from (index : Z) : res Z :=
  field_of (vmctx_vmtable_import index) vmtable_import_from.
Definition vmctx_vmtable_definition_base (index : Z) : res Z :=
  field_of (vmctx_vmtable_definition index) vmtable_definition_base.
Definition vmctx_vmtable_definition_current_elements (index : Z) : res Z :=
  field_of (vmctx_vmtable_definition index) vmtable_definition_current_elements.
Definition vmctx_vmmemory_import_from (index : Z) : res Z :=
  field_of (vmctx_vmmemory_import index) vmmemory_import_from.
Definition vmctx_vmmemory_import_vmctx (index : Z) : res Z :=
  field_of (vmctx_vmmemory_import index) vmmemory_import_vmctx.
Definition vmctx_vmmemory_definition_base (index : Z) : res Z :=
  field_of (vmctx_vmmemory_definition index) vmmemory_definition_base.
Definition vmctx_vmmemory_definition_current_length (index : Z) : res Z :=
  field_of (vmctx_vmmemory_definition index) vmmemory_definition_current_length.
Definition vmctx_vmglobal_import_from (index : Z) : res Z :=
  field_of (vmctx_vmglobal_import index) vmglobal_import_from.

(** ** Specification: arrays laid out in sequence *)

Record region := mkRegion { r_count : Z; r_size : Z; r_align : Z }.

Definition align_up (x a : Z) : Z := (x + (a - 1)) / a * a.

Fixpoint region_begin (base : Z) (rs : list region) (k : nat) : Z :=
  match rs, k with
  | [], _ => base
  | r :: _, O => align_up base (r_align r)
  | r :: rs, S k => region_begin (align_up base (r_align r) + r_count r * r_size r) rs k
  end.

Definition regions : list region :=
  let p := pointer_size o in
  [mkRegion (num_signature_ids o) 4 1; mkRegion (num_imported_functions o) (2 * p) 1;
   mkRegion (num_imported_tables o) (2 * p) 1; mkRegion (num_imported_memories o) (2 * p) 1;
   mkRegion (num_imported_globals o) p 1; mkRegion (num_defined_tables o) (2 * p) 1;
   mkRegion (num_defined_memories o) (2 * p) 1; mkRegion (num_defined_globals o) 16 16;
   mkRegion builtin_functions_total_number p 1].

(** The bytes the layout needs. *)
Definition layout_size : Z := region_begin 0 regions 9.

End offsets.

(** The values the fields of [VMOffsets] can have: [u32] counts, and the
    size of a pointer. *)
Record wf_offsets (o : VMOffsets) : Prop := {
  wf_ptr : pointer_size o = 4 ∨ pointer_size o = 8;
  wf_sigs : 0 ≤ num_signature_ids o < 2 ^ 32;
  wf_if : 0 ≤ num_imported_functions o < 2 ^ 32;
  wf_it : 0 ≤ num_imported_tables o < 2 ^ 32;
  wf_im : 0 ≤ num_imported_memories o < 2 ^ 32;
  wf_ig : 0 ≤ num_imported_globals o < 2 ^ 32;
  wf_dt : 0 ≤ num_defined_tables o < 2 ^ 32;
  wf_dm : 0 ≤ num_defined_memories o < 2 ^ 32;
  wf_dg : 0 ≤ num_defined_globals o < 2 ^ 32;
}.

(** ** The code computes the specified layout *)

(** A [u32] result, or the panic of the overflow check. *)
Definition fits32 (x : Z) : res Z := if x <? 2 ^ 32 then Ret x else Panic.

Lemma fits32_Ret x y : fits32 x = Ret y ↔ y = x ∧ x < 2 ^ 32.
Proof. unfold fits32. destruct (Z.ltb_spec x (2 ^ 32)); naive_solver lia. Qed.

Lemma after_array_fits b s num :
  0 ≤ b → 0 ≤ s → 0 ≤ num →
  after_array (fits32 b) (Ret s) num = fits32 (b + num * s).
Proof.
  intros Hb Hs Hn. assert (0 ≤ num * s) by nia. unfold after_array, fits32.
  destruct (Z.ltb_spec b (2 ^ 32)); cbn [mbind res_mbind].
  - unfold checked_mul, checked_add, in_u.
    destruct (Z.ltb_spec (num * s) (2 ^ 32)), (Z.ltb_spec (b + num * s) (2 ^ 32));
      rewrite ?(proj2 (Z.leb_le 0 _)) by lia; cbn [andb unwrap mbind res_mbind];
      try lia; rewrite ?(proj2 (Z.leb_le 0 _)) by lia; try done.
    + by rewrite (proj2 (Z.ltb_lt _ _)) by lia.
    + by rewrite (proj2 (Z.ltb_ge _ _)) by lia.
  - by rewrite (proj2 (Z.ltb_ge _ _)) by lia.
Qed.

Lemma align_up_bounds x a : 0 < a → x ≤ align_up x a < x + a.
Proof.
  intros Ha. unfold align_up.
  pose proof (Z.div_mod (x + (a - 1)) a ltac:(lia)).
  pose proof (Z.mod_pos_bound (x + (a - 1)) a Ha). nia.
Qed.

Lemma align_up_1 x : align_up x 1 = x.
Proof. unfold align_up. rewrite Z.div_1_r. lia. Qed.

Lemma align_up_divides x a : (a | align_up x a).
Proof. apply Z.divide_factor_r. Qed.

Lemma align_fits b : 0 ≤ b → (fits32 b ≫= λ x, align x 16) = fits32 (align_up b 16).
Proof.
  intros Hb. pose proof (align_up_bounds b 16 ltac:(lia)).
  destruct (align_up_divides b 16) as [k Hk].
  unfold fits32 at 1. destruct (Z.ltb_spec b (2 ^ 32)); cbn [mbind res_mbind].
  - unfold align. rewrite op_sub_fits by lia. cbn [mbind res_mbind].
    destruct (decide (b + 15 < 2 ^ 32)).
    + rewrite op_add_fits by lia. cbn [mbind res_mbind].
      change ((b + (16 - 1)) / 16 * 16) with (align_up b 16) in *.
      rewrite op_mul_fits by (fold (align_up b 16); lia).
      change ((b + (16 - 1)) / 16 * 16) with (align_up b 16).
      symmetry. apply fits32_Ret. lia.
    + unfold op_add, checked_add. rewrite (proj2 (in_u_false 32 _)) by lia. cbn.
      unfold fits32. rewrite (proj2 (Z.ltb_ge _ _)); [done|].
      assert (2 ^ 32 ≤ align_up b 16); [|done].
      unfold align_up in *. change (2 ^ 32) with (268435456 * 16) in *. nia.
  - unfold fits32. by rewrite (proj2 (Z.ltb_ge _ _)) by lia.
Qed.

Section refinement.
Context (o : VMOffsets) (Hwf : wf_offsets o).
Set Default Proof Using "Type*".

Lemma ptr_bounds : 4 ≤ pointer_size o ≤ 8.
Proof. destruct Hwf. lia. Qed.

Lemma u8_mul_ptr k : 0 ≤ k ≤ 3 → op_mul 8 k (pointer_size o) = Ret (k * pointer_size o).
Proof. intros. pose proof ptr_bounds. apply op_mul_fits. nia. Qed.

Lemma regions_nonneg : Forall (λ r, 0 ≤ r_count r ∧ 0 < r_size r ∧ 0 < r_align r) (regions o).
Proof.
  destruct Hwf. unfold regions, builtin_functions_total_number.
  repeat constructor; cbn; lia.
Qed.

Lemma region_begin_nonneg_gen base rs k :
  Forall (λ r, 0 ≤ r_count r ∧ 0 < r_size r ∧ 0 < r_align r) rs →
  0 ≤ base → base ≤ region_begin base rs k.
Proof.
  intros Hrs. revert base k; induction Hrs as [|r rs (?&?&?) _ IH]; intros base k Hb.
  - destruct k; cbn; lia.
  - pose proof (align_up_bounds base (r_align r) ltac:(done)).
    destruct k as [|k]; cbn; [lia|].
    etrans; [|apply IH]; nia.
Qed.

Lemma region_begin_nonneg k : 0 ≤ region_begin 0 (regions o) k.
Proof. apply region_begin_nonneg_gen; [apply regions_nonneg | lia]. Qed.

(** One more array: [after_array] against [region_begin]. *)
Lemma after_region begin size k r :
  begin = fits32 (region_begin 0 (regions o) k) →
  regions o !! k = Some r → size = Ret (r_size r) →
  after_array begin size (r_count r) =
  fits32 (region_begin 0 (regions o) k + r_count r * r_size r).
Proof.
  intros -> Hr ->. pose proof regions_nonneg as Hall.
  rewrite Forall_lookup in Hall. apply Hall in Hr as (? & ? & ?).
  apply after_array_fits; [apply region_begin_nonneg|lia|lia].
Qed.

Lemma region_begin_S base rs k r :
  rs !! k = Some r →
  region_begin base rs (S k) =
  align_up (region_begin base rs k + r_count r * r_size r)
    match rs !! S k with Some r' => r_align r' | None => 1 end.
Proof.
  revert base k; induction rs as [|r0 rs IH]; intros base k Hk; [done|].
  destruct k as [|k]; cbn in Hk.
  - simplify_eq. destruct rs as [|r1 rs]; cbn; [by rewrite align_up_1|done].
  - cbn [region_begin]. rewrite (IH _ _ Hk). done.
Qed.

Lemma next_begin begin size k r r' :
  begin = fits32 (region_begin 0 (regions o) k) →
  regions o !! k = Some r → size = Ret (r_size r) →
  regions o !! S k = Some r' → r_align r' = 1 →
  after_array begin size (r_count r) = fits32 (region_begin 0 (regions o) (S k)).
Proof.
  intros Hb Hr Hs Hr' Ha. rewrite (region_begin_S _ _ _ _ Hr), Hr', Ha, align_up_1.
  by apply after_region.
Qed.

Notation begin_at k := (fits32 (region_begin 0 (regions o) k)).

Lemma signature_ids_begin_spec : vmctx_signature_ids_begin = begin_at 0.
Proof. done. Qed.
Lemma imported_functions_begin_spec : vmctx_imported_functions_begin o = begin_at 1.
Proof.
  exact (next_begin _ _ 0 _ _ signature_ids_begin_spec eq_refl eq_refl eq_refl eq_refl).
Qed.
Lemma imported_tables_begin_spec : vmctx_imported_tables_begin o = begin_at 2.
Proof.
  exact (next_begin _ _ 1 _ _ imported_functions_begin_spec eq_refl
    (u8_mul_ptr 2 ltac:(lia)) eq_refl eq_refl).
Qed.
Lemma imported_memories_begin_spec : vmctx_imported_memories_begin o = begin_at 3.
Proof.
  exact (next_begin _ _ 2 _ _ imported_tables_begin_spec eq_refl
    (u8_mul_ptr 2 ltac:(lia)) eq_refl eq_refl).
Qed.
Lemma imported_globals_begin_spec : vmctx_imported_globals_begin o = begin_at 4.
Proof.
  exact (next_begin _ _ 3 _ _ imported_memories_begin_spec eq_refl
    (u8_mul_ptr 2 ltac:(lia)) eq_refl eq_refl).
Qed.
Lemma tables_begin_spec : vmctx_tables_begin o = begin_at 5.
Proof.
  refine (next_begin _ _ 4 _ _ imported_globals_begin_spec eq_refl _ eq_refl eq_refl).
  etrans; [by apply u8_mul_ptr|]. by rewrite Z.mul_1_l.
Qed.
Lemma memories_begin_spec : vmctx_memories_begin o = begin_at 6.
Proof.
  exact (next_begin _ _ 5 _ _ tables_begin_spec eq_refl
    (u8_mul_ptr 2 ltac:(lia)) eq_refl eq_refl).
Qed.
Lemma globals_begin_spec : vmctx_globals_begin o = begin_at 7.
Proof.
  unfold vmctx_globals_begin, size_of_vmmemory_definition.
  rewrite (after_region _ _ 6 _ memories_begin_spec eq_refl (u8_mul_ptr 2 ltac:(lia))
    : after_array _ _ (num_defined_memories o) = _).
  rewrite align_fits; [by erewrite (region_begin_S _ _ 6)|].
  pose proof (region_begin_nonneg 6). destruct Hwf. cbn [r_count r_size]. nia.
Qed.
Lemma builtin_functions_begin_spec : vmctx_builtin_functions_begin o = begin_at 8.
Proof.
  exact (next_begin _ _ 7 _ _ globals_begin_spec eq_refl eq_refl eq_refl eq_refl).
Qed.
Lemma size_of_vmctx_spec : size_of_vmctx o = fits32 (layout_size o).
Proof.
  unfold layout_size. erewrite (region_begin_S _ _ 8) by done. cbn [regions lookup list_lookup].
  rewrite align_up_1.
  exact (after_region _ _ 8 _ builtin_functions_begin_spec eq_refl eq_refl).
Qed.

(** C7: every [vmctx_*_begin] offset and [size_of_vmctx] is the offset of
    the corresponding array in the specified sequence of arrays, or the
    panic of an overflow check exactly when that offset does not fit 32
    bits. *)
Theorem vmctx_begins_refine :
  [vmctx_signature_ids_begin; vmctx_imported_functions_begin o;
   vmctx_imported_tables_begin o; vmctx_imported_memories_begin o;
   vmctx_imported_globals_begin o; vmctx_tables_begin o; vmctx_memories_begin o;
   vmctx_globals_begin o; vmctx_builtin_functions_begin o; size_of_vmctx o]
  = map (λ k, fits32 (region_begin 0 (regions o) k)) (seq 0 10).
Proof.
  rewrite signature_ids_begin_spec, imported_functions_begin_spec,
    imported_tables_begin_spec, imported_memories_begin_spec,
    imported_globals_begin_spec, tables_begin_spec, memories_begin_spec,
    globals_begin_spec, builtin_functions_begin_spec, size_of_vmctx_spec.
  done.
Qed.

(** Arrays do not overlap: each one ends before the next begins. *)
Lemma region_order_gen base rs k1 k2 r :
  Forall (λ r, 0 ≤ r_count r ∧ 0 < r_size r ∧ 0 < r_align r) rs → 0 ≤ base →
  rs !! k1 = Some r → (k1 < k2)%nat →
  region_begin base rs k1 + r_count r * r_size r ≤ region_begin base rs k2.
Proof.
  intros Hrs. revert base k1 k2; induction Hrs as [|r0 rs (?&?&?) Hrs IH];
    intros base k1 k2 Hb Hk Hlt; [done|].
  destruct k2 as [|k2]; [lia|].
  pose proof (align_up_bounds base (r_align r0) ltac:(done)).
  destruct k1 as [|k1]; cbn in *; simplify_eq.
  - apply region_begin_nonneg_gen; [done|nia].
  - apply IH; [nia|done|lia].
Qed.

Lemma region_order k1 k2 r :
  regions o !! k1 = Some r → (k1 < k2)%nat →
  region_begin 0 (regions o) k1 + r_count r * r_size r ≤ region_begin 0 (regions o) k2.
Proof. intros. apply region_order_gen; [apply regions_nonneg|lia|done..]. Qed.

(** *** Elements

    [element k i] is the [i]-th element of the [k]-th array, with the
    accessor function that the code has for it. *)
Definition element_offset (k : nat) (i : Z) : res Z :=
  match k with
  | 0%nat => vmctx_vmshared_signature_id o i
  | 1%nat => vmctx_vmfunction_import o i
  | 2%nat => vmctx_vmtable_import o i
  | 3%nat => vmctx_vmmemory_import o i
  | 4%nat => vmctx_vmglobal_import o i
  | 5%nat => vmctx_vmtable_definition o i
  | 6%nat => vmctx_vmmemory_definition o i
  | 7%nat => vmctx_vmglobal_definition o i
  | _ => vmctx_builtin_function o i
  end.

Lemma region_in_layout k r :
  regions o !! k = Some r →
  0 ≤ region_begin 0 (regions o) k ∧ 0 ≤ r_count r ∧ 0 < r_size r ∧
  region_begin 0 (regions o) k + r_count r * r_size r ≤ layout_size o.
Proof.
  intros Hr. pose proof regions_nonneg as Hall. rewrite Forall_lookup in Hall.
  destruct (Hall k r Hr) as (? & ? & ?). split_and!; [apply region_begin_nonneg|done..|].
  apply region_order; [done|]. apply lookup_lt_Some in Hr. exact Hr.
Qed.

Lemma accessor_spec begin size k r i :
  begin = fits32 (region_begin 0 (regions o) k) →
  regions o !! k = Some r → size = Ret (r_size r) → layout_size o < 2 ^ 32 →
  0 ≤ i < r_count r →
  after_array begin size i = Ret (region_begin 0 (regions o) k + i * r_size r).
Proof.
  intros -> Hr%region_in_layout -> Hl Hi. revert Hr Hl.
  generalize (layout_size o) (region_begin 0 (regions o) k). intros L b (? & ? & ? & ?) ?.
  rewrite after_array_fits by lia. apply fits32_Ret. split; [done|]. nia.
Qed.

Lemma checked_accessor_spec begin size k r i n :
  begin = fits32 (region_begin 0 (regions o) k) →
  regions o !! k = Some r → size = Ret (r_size r) → n = r_count r →
  layout_size o < 2 ^ 32 → 0 ≤ i < r_count r →
  (rassert (i <? n) ≫= λ _, after_array begin size i) =
  Ret (region_begin 0 (regions o) k + i * r_size r).
Proof.
  intros Hb Hr Hs -> Hl Hi. rewrite (proj2 (Z.ltb_lt i _)) by lia.
  cbn [rassert]. rewrite bind_Ret_l. by apply accessor_spec.
Qed.

Lemma element_offset_spec k r i :
  regions o !! k = Some r → layout_size o < 2 ^ 32 → 0 ≤ i < r_count r →
  element_offset k i = Ret (region_begin 0 (regions o) k + i * r_size r).
Proof.
  intros Hr Hl Hi.
  assert (H2 : op_mul 8 2 (pointer_size o) = Ret (2 * pointer_size o))
    by (apply u8_mul_ptr; lia).
  assert (H1 : op_mul 8 1 (pointer_size o) = Ret (pointer_size o))
    by (rewrite u8_mul_ptr by lia; by rewrite Z.mul_1_l).
  destruct k as [|[|[|[|[|[|[|[|[|k]]]]]]]]]; cbn [element_offset];
    [refine (checked_accessor_spec _ _ 0 r i _ signature_ids_begin_spec Hr _ _ Hl Hi)
    |refine (checked_accessor_spec _ _ 1 r i _ imported_functions_begin_spec Hr _ _ Hl Hi)
    |refine (checked_accessor_spec _ _ 2 r i _ imported_tables_begin_spec Hr _ _ Hl Hi)
    |refine (checked_accessor_spec _ _ 3 r i _ imported_memories_begin_spec Hr _ _ Hl Hi)
    |refine (checked_accessor_spec _ _ 4 r i _ imported_globals_begin_spec Hr _ _ Hl Hi)
    |refine (checked_accessor_spec _ _ 5 r i _ tables_begin_spec Hr _ _ Hl Hi)
    |refine (checked_accessor_spec _ _ 6 r i _ memories_begin_spec Hr _ _ Hl Hi)
    |refine (checked_accessor_spec _ _ 7 r i _ globals_begin_spec Hr _ _ Hl Hi)
    |refine (accessor_spec _ _ 8 r i builtin_functions_begin_spec Hr _ Hl Hi)
    |apply lookup_lt_Some in Hr; cbn in Hr; lia];
    injection Hr as <-; first [exact H1 | exact H2 | reflexivity].
Qed.

(** C27: the elements of the nine arrays (every signature id, import,
    definition and builtin function pointer) lie inside the allocation of
    [size_of_vmctx] bytes and no two of them overlap; the accessors of valid
    indices do not panic. *)
Theorem elements_disjoint (n : Z) (k1 k2 : nat) (i1 i2 : Z) (r1 r2 : region)
    (Hn : size_of_vmctx o = Ret n)
    (Hr1 : regions o !! k1 = Some r1) (Hi1 : 0 ≤ i1 < r_count r1)
    (Hr2 : regions o !! k2 = Some r2) (Hi2 : 0 ≤ i2 < r_count r2)
    (Hne : (k1, i1) ≠ (k2, i2)) :
  ∃ a1 a2, element_offset k1 i1 = Ret a1 ∧ element_offset k2 i2 = Ret a2 ∧
    0 ≤ a1 ∧ a1 + r_size r1 ≤ n ∧
    (a1 + r_size r1 ≤ a2 ∨ a2 + r_size r2 ≤ a1).
Proof.
  rewrite size_of_vmctx_spec in Hn. apply fits32_Ret in Hn as [-> Hl].
  rewrite (element_offset_spec k1 r1 i1), (element_offset_spec k2 r2 i2) by done.
  do 2 eexists. split; [done|]. split; [done|].
  pose proof (region_in_layout _ _ Hr1) as H1. pose proof (region_in_layout _ _ Hr2) as H2.
  destruct (decide (k1 = k2)) as [->|Hk].
  { simplify_eq. assert (i1 ≠ i2) by congruence. revert H1. clear -Hi1 Hi2 H.
    generalize (region_begin 0 (regions o) k2) (layout_size o). intros. nia. }
  destruct (decide (k1 < k2)%nat) as [Hlt|Hlt].
  - pose proof (region_order _ _ _ Hr1 Hlt) as Ho. revert Ho H1 H2. clear -Hi1 Hi2.
    generalize (region_begin 0 (regions o) k1) (region_begin 0 (regions o) k2)
      (layout_size o). intros. nia.
  - assert (k2 < k1)%nat as Hgt by lia.
    pose proof (region_order _ _ _ Hr2 Hgt) as Ho. revert Ho H1 H2. clear -Hi1 Hi2.
    generalize (region_begin 0 (regions o) k1) (region_begin 0 (regions o) k2)
      (layout_size o). intros. nia.
Qed.

Lemma ptr_divides_16 : (pointer_size o | 16).
Proof. destruct Hwf as [[-> | ->] _ _ _ _ _ _ _ _]; [by exists 4 | by exists 2]. Qed.

Lemma pointer_arrays_begin k :
  (1 ≤ k ≤ 6)%nat →
  ∃ q, region_begin 0 (regions o) k = 4 * num_signature_ids o + q * pointer_size o.
Proof.
  intros Hk. destruct k as [|[|[|[|[|[|[|k]]]]]]]; try lia;
    cbn [region_begin regions r_align r_count r_size]; rewrite ?align_up_1.
  - exists 0. ring.
  - exists (2 * num_imported_functions o). ring.
  - eexists (2 * num_imported_functions o + 2 * num_imported_tables o). ring.
  - eexists (2 * (num_imported_functions o + num_imported_tables o
      + num_imported_memories o)). ring.
  - eexists (2 * (num_imported_functions o + num_imported_tables o
      + num_imported_memories o) + num_imported_globals o). ring.
  - eexists (2 * (num_imported_functions o + num_imported_tables o
      + num_imported_memories o + num_defined_tables o) + num_imported_globals o). ring.
Qed.

Lemma globals_begin_divides : (16 | region_begin 0 (regions o) 7).
Proof.
  rewrite (region_begin_S 0 (regions o) 6 _ eq_refl). cbn [lookup list_lookup regions r_align].
  apply align_up_divides.
Qed.

Lemma builtins_begin_divides : (pointer_size o | region_begin 0 (regions o) 8).
Proof.
  rewrite (region_begin_S 0 (regions o) 7 _ eq_refl).
  cbn [lookup list_lookup regions r_align r_count r_size]. rewrite align_up_1.
  apply Z.divide_add_r.
  - etrans; [apply ptr_divides_16 | apply globals_begin_divides].
  - apply Z.divide_mul_r, ptr_divides_16.
Qed.

Lemma pointer_array_size k r :
  regions o !! k = Some r → (1 ≤ k)%nat → (pointer_size o | r_size r).
Proof.
  intros Hr Hk. destruct k as [|[|[|[|[|[|[|[|[|k]]]]]]]]]; try lia; cbn in Hr;
    simplify_eq; cbn [r_size]; try apply Z.divide_factor_r; try done.
  apply ptr_divides_16.
Qed.

(** Alignment of the elements that hold pointers.  Globals are 16-byte
    aligned and the builtin function pointers are pointer-aligned, but the
    imports and the table and memory definitions follow the 4-byte signature
    ids without padding: they are pointer-aligned exactly when the signature
    ids fill whole pointers (with 8-byte pointers: when their number is
    even). *)
Theorem element_alignment (n a i : Z) (k : nat) (r : region)
    (Hn : size_of_vmctx o = Ret n) (Hk : (1 ≤ k)%nat)
    (Hr : regions o !! k = Some r) (Hi : 0 ≤ i < r_count r)
    (Ha : element_offset k i = Ret a) :
  (k = 7%nat → (16 | a)) ∧
  ((pointer_size o | a) ↔ (7 ≤ k)%nat ∨ (pointer_size o | 4 * num_signature_ids o)).
Proof.
  rewrite size_of_vmctx_spec in Hn. apply fits32_Ret in Hn as [-> Hl].
  rewrite (element_offset_spec k r i) in Ha by done.
  assert (a = region_begin 0 (regions o) k + i * r_size r) as -> by congruence.
  pose proof (pointer_array_size _ _ Hr Hk) as Hs. split.
  { intros ->. apply Z.divide_add_r; [apply globals_begin_divides|].
    apply Z.divide_mul_r. by injection Hr as <-. }
  apply (Z.divide_mul_r _ i) in Hs.
  destruct (decide (k ≤ 6)%nat) as [Hk6|Hk6].
  - destruct (pointer_arrays_begin k ltac:(lia)) as [q ->]. split.
    + intros Hd. right. eapply (Z.divide_add_cancel_r _ (q * pointer_size o)).
      { apply Z.divide_factor_r. }
      eapply (Z.divide_add_cancel_r _ (i * r_size r)); [done|].
      rewrite (Z.add_comm (q * _)), Z.add_comm. done.
    + intros [|Hd]; [lia|]. apply Z.divide_add_r; [|done].
      apply Z.divide_add_r; [done|apply Z.divide_factor_r].
  - split; [intros; left; lia|]. intros _. apply Z.divide_add_r; [|done].
    assert (k = 7 ∨ k = 8)%nat as [-> | ->].
    { apply lookup_lt_Some in Hr. change (length (regions o)) with 9%nat in Hr. lia. }
    + etrans; [apply ptr_divides_16 | apply globals_begin_divides].
    + apply builtins_begin_divides.
Qed.
End refinement.

(** ** [VMOffsets::new] *)

Lemma cast_to_u32_Ret x y : cast_to_u32 x = Ret y ↔ y = x ∧ 0 ≤ x < 2 ^ 32.
Proof. unfold cast_to_u32. by rewrite unwrap_Ret, try_from_u_Some. Qed.

Lemma VMOffsets_new_inv p m o :
  VMOffsets_new p m = Ret o →
  o = mkVMOffsets p (zlen (signatures m)) (zlen (imported_funcs m))
        (zlen (imported_tables m)) (zlen (imported_memories m)) (zlen (imported_globals m))
        (zlen (table_plans m)) (zlen (memory_plans m)) (zlen (globals m)) ∧
  (p = 4 ∨ p = 8 → wf_offsets o).
Proof.
  unfold VMOffsets_new. intros H.
  repeat (let a := fresh "a" in let E := fresh "E" in
          apply bind_Ret in H as (a & E & H); apply cast_to_u32_Ret in E as [-> ?]).
  injection H as <-. split; [done|]. intros Hp. by split.
Qed.

(** The counts in [num_defined_tables], [num_defined_memories] and
    [num_defined_globals] are those of the whole index space, imports
    included: the layout reserves a definition slot for every table, memory
    and global, also for the imported ones, whose slots no accessor of a
    defined entity reaches. *)
Theorem VMOffsets_new_counts (p : Z) (m : Module_) (o : VMOffsets)
    (Hnew : VMOffsets_new p m = Ret o) :
  num_defined_tables o = zlen (table_plans m) ∧
  num_defined_memories o = zlen (memory_plans m) ∧
  num_defined_globals o = zlen (globals m) ∧
  (∀ i, 0 ≤ i < zlen (table_plans m) →
     match defined_table_index m i with
     | Some d => d < num_defined_tables o - zlen (imported_tables m)
     | None => i < num_imported_tables o
     end) ∧
  (∀ i, 0 ≤ i < zlen (memory_plans m) →
     match defined_memory_index m i with
     | Some d => d < num_defined_memories o - zlen (imported_memories m)
     | None => i < num_imported_memories o
     end) ∧
  (∀ i, 0 ≤ i < zlen (globals m) →
     match defined_global_index m i with
     | Some d => d < num_defined_globals o - zlen (imported_globals m)
     | None => i < num_imported_globals o
     end).
Proof.
  apply VMOffsets_new_inv in Hnew as [-> _]. cbn.
  unfold defined_table_index, defined_memory_index, defined_global_index.
  split_and!; try done; intros i Hi; repeat case_match; simplify_eq; lia.
Qed.

(** ** Witnesses *)

Definition ex_offsets : VMOffsets := mkVMOffsets 8 3 2 1 0 1 2 1 3.

Lemma ex_offsets_wf : wf_offsets ex_offsets.
Proof. split; cbn; lia. Qed.

Lemma vmctx_begins_refine_witness :
  wf_offsets ex_offsets ∧
  [vmctx_signature_ids_begin; vmctx_imported_functions_begin ex_offsets;
   vmctx_imported_tables_begin ex_offsets; vmctx_imported_memories_begin ex_offsets;
   vmctx_imported_globals_begin ex_offsets; vmctx_tables_begin ex_offsets;
   vmctx_memories_begin ex_offsets; vmctx_globals_begin ex_offsets;
   vmctx_builtin_functions_begin ex_offsets; size_of_vmctx ex_offsets]
  = [Ret 0; Ret 12; Ret 44; Ret 60; Ret 60; Ret 68; Ret 100; Ret 128; Ret 176; Ret 208].
Proof.
  split; [exact ex_offsets_wf|].
  etrans; [apply (vmctx_begins_refine ex_offsets ex_offsets_wf)|vm_compute; reflexivity].
Defined.

Lemma elements_disjoint_witness :
  ∃ a1 a2, element_offset ex_offsets 1 1 = Ret a1 ∧ element_offset ex_offsets 7 2 = Ret a2 ∧
    a1 + 16 ≤ a2.
Proof.
  destruct (elements_disjoint ex_offsets ex_offsets_wf 208 1 7 1 2
    (mkRegion 2 16 1) (mkRegion 3 16 16)) as (a1 & a2 & H1 & H2 & H); try reflexivity;
    try (cbn; lia); try (intros; discriminate).
  exists a1, a2. split; [exact H1|]. split; [exact H2|].
  vm_compute in H1, H2. injection H1 as H1. injection H2 as H2. subst a1 a2. lia.
Defined.

(** Three signatures: the first imported function's pointers are at byte 12. *)
Lemma element_alignment_witness :
  vmctx_vmfunction_import ex_offsets 0 = Ret 12 ∧
  ((8 | 12) ↔ (7 ≤ 1)%nat ∨ (8 | 12)).
Proof.
  split; [reflexivity|].
  apply (element_alignment ex_offsets ex_offsets_wf 208 12 0 1 (mkRegion 2 16 1));
    try reflexivity; cbn; lia.
Defined.

Lemma VMOffsets_new_counts_witness :
  ∃ o, VMOffsets_new 8 (mkModule [] [] [] [("env", "mem")] [] [] []
         [mkMemoryPlan (mkMemory 1 None false) Dynamic 0] [] [] None []) = Ret o ∧
       num_imported_memories o = 1 ∧ num_defined_memories o = 1.
Proof.
  eexists. split; [vm_compute; reflexivity|]. split; [reflexivity|].
  eapply (VMOffsets_new_counts 8 (mkModule [] [] [] [("env", "mem")] [] [] []
    [mkMemoryPlan (mkMemory 1 None false) Dynamic 0] [] [] None [])).
  vm_compute. reflexivity.
Defined.
