(* ===== verification/Store.v ===== *)
(** * Byte-addressed memory

    The part of the Rust abstract machine that the runtime's raw pointers
    rely on: a store of bytes, slices of it, and integers in little-endian
    byte order (the target is little-endian). *)

From S2P Require Import Prelude.
Local Open Scope Z_scope.

(** A store maps every address to a byte. *)
Definition mem := Z → Z.

(** Two stores that hold the same bytes. *)
#[export] Instance mem_equiv : Equiv mem := pointwise_relation Z eq.
#[export] Instance mem_equivalence : Equivalence (≡@{mem}).
Proof. unfold equiv, mem_equiv. apply _. Qed.

Definition in_range (a n x : Z) : bool := (a <=? x) && (x <? a + n).

Lemma in_range_true a n x : in_range a n x = true ↔ a ≤ x < a + n.
Proof. unfold in_range. lia. Qed.
Lemma in_range_false a n x : in_range a n x = false ↔ ¬ (a ≤ x < a + n).
Proof. unfold in_range. lia. Qed.

(** [ptr::copy(bytes, a, len)]: write a sequence of bytes at [a]. *)
Definition store_bytes (m : mem) (a : Z) (bs : list Z) : mem := λ x,
  if in_range a (zlen bs) x then default 0 (zget bs (x - a)) else m x.

(** The bytes at [a..a+n]. *)
Definition load_bytes (m : mem) (a n : Z) : list Z :=
  map (λ i, m (a + i)) (seqZ 0 n).

(** [dst[..n].copy_from_slice(&src[..n])]. *)
Definition copy_bytes (m : mem) (dst src n : Z) : mem := λ x,
  if in_range dst n x then m (src + (x - dst)) else m x.

(** Little-endian encoding. *)
Fixpoint le_bytes (n : nat) (v : Z) : list Z :=
  match n with O => [] | S n => v mod 256 :: le_bytes n (v / 256) end.
Fixpoint le_val (bs : list Z) : Z :=
  match bs with [] => 0 | b :: bs => b + 256 * le_val bs end.

Definition store_le (m : mem) (a : Z) (n : nat) (v : Z) : mem :=
  store_bytes m a (le_bytes n v).
Definition load_le (m : mem) (a : Z) (n : nat) : Z :=
  le_val (load_bytes m a (Z.of_nat n)).

Lemma length_le_bytes n v : length (le_bytes n v) = n.
Proof. revert v; induction n; intros; cbn; auto. Qed.

Lemma zlen_le_bytes n v : zlen (le_bytes n v) = Z.of_nat n.
Proof. unfold zlen. by rewrite length_le_bytes. Qed.

Lemma le_val_bytes n v : le_val (le_bytes n v) = v mod 2 ^ (8 * Z.of_nat n).
Proof.
  revert v; induction n as [|n IH]; intros v; cbn [le_bytes le_val].
  - by rewrite Z.mod_1_r.
  - rewrite IH. replace (8 * Z.of_nat (S n)) with (8 + 8 * Z.of_nat n) by lia.
    rewrite Z.pow_add_r by lia. change (2 ^ 8) with 256.
    rewrite Z.rem_mul_r; [lia|lia|]. apply Z.pow_pos_nonneg; lia.
Qed.

Lemma length_load_bytes m a n : 0 ≤ n → zlen (load_bytes m a n) = n.
Proof. intros. unfold zlen, load_bytes. rewrite length_map, length_seqZ. lia. Qed.

Lemma load_bytes_lookup m a n i :
  0 ≤ i < n → load_bytes m a n !! Z.to_nat i = Some (m (a + i)).
Proof.
  intros. unfold load_bytes. rewrite list_lookup_fmap, lookup_seqZ_lt by lia.
  cbn. do 2 f_equal. lia.
Qed.

Lemma load_bytes_ext m m' a a' n :
  (∀ i, 0 ≤ i < n → m (a + i) = m' (a' + i)) → load_bytes m a n = load_bytes m' a' n.
Proof.
  intros H. unfold load_bytes. apply map_ext_in. intros i Hi.
  apply list_elem_of_In, elem_of_seqZ in Hi. apply H. lia.
Qed.

Lemma store_bytes_in m a bs i :
  0 ≤ i < zlen bs → store_bytes m a bs (a + i) = default 0 (zget bs i).
Proof.
  intros. unfold store_bytes. rewrite (proj2 (in_range_true _ _ _)) by lia.
  do 2 f_equal. lia.
Qed.

Lemma store_bytes_out m a bs x :
  ¬ (a ≤ x < a + zlen bs) → store_bytes m a bs x = m x.
Proof. intros. unfold store_bytes. by rewrite (proj2 (in_range_false _ _ _)). Qed.

Lemma load_store_same m a bs : load_bytes (store_bytes m a bs) a (zlen bs) = bs.
Proof.
  apply list_eq. intros i. destruct (decide (i < length bs)%nat) as [Hi|Hi].
  - replace i with (Z.to_nat (Z.of_nat i)) by lia.
    assert (0 ≤ Z.of_nat i < zlen bs) as Hi' by (unfold zlen; lia).
    rewrite load_bytes_lookup by done. rewrite store_bytes_in by done.
    apply zget_is_Some in Hi' as [x Hx]. rewrite Hx. cbn.
    unfold zget in Hx. by rewrite (proj2 (Z.leb_le 0 _)) in Hx by lia.
  - rewrite !lookup_ge_None_2; [done|lia|].
    unfold load_bytes. rewrite length_map, length_seqZ. unfold zlen. lia.
Qed.

Lemma load_store_disjoint m a bs a' n :
  a' + n ≤ a ∨ a + zlen bs ≤ a' →
  load_bytes (store_bytes m a bs) a' n = load_bytes m a' n.
Proof. intros. apply load_bytes_ext. intros. apply store_bytes_out. lia. Qed.

(** Reading back an integer that was written. *)
Lemma load_store_le_same m a n v :
  0 ≤ v < 2 ^ (8 * Z.of_nat n) → load_le (store_le m a n v) a n = v.
Proof.
  intros Hv. unfold load_le, store_le. rewrite <-(zlen_le_bytes n v).
  rewrite load_store_same, le_val_bytes. by apply Z.mod_small.
Qed.

Lemma load_store_le_disjoint m a n v a' n' :
  a' + Z.of_nat n' ≤ a ∨ a + Z.of_nat n ≤ a' →
  load_le (store_le m a n v) a' n' = load_le m a' n'.
Proof.
  intros. unfold load_le, store_le. f_equal. apply load_store_disjoint.
  rewrite zlen_le_bytes. lia.
Qed.

Lemma load_le_ext m m' a n :
  (∀ x, a ≤ x < a + Z.of_nat n → m x = m' x) → load_le m a n = load_le m' a n.
Proof. intros H. unfold load_le. f_equal. apply load_bytes_ext. intros. apply H. lia. Qed.

Lemma copy_bytes_in m dst src n i : 0 ≤ i < n → copy_bytes m dst src n (dst + i) = m (src + i).
Proof.
  intros. unfold copy_bytes. rewrite (proj2 (in_range_true _ _ _)) by lia.
  f_equal. lia.
Qed.

Lemma copy_bytes_out m dst src n x : ¬ (dst ≤ x < dst + n) → copy_bytes m dst src n x = m x.
Proof. intros. unfold copy_bytes. by rewrite (proj2 (in_range_false _ _ _)). Qed.

(** The operations respect equality of stores. *)
#[export] Instance store_bytes_proper : Proper ((≡) ==> (=) ==> (=) ==> (≡)) store_bytes.
Proof. intros m m' Hm a ? <- bs ? <- x. unfold store_bytes. case_match; auto. Qed.
#[export] Instance copy_bytes_proper :
  Proper ((≡) ==> (=) ==> (=) ==> (=) ==> (≡)) copy_bytes.
Proof. intros m m' Hm a ? <- b ? <- n ? <- x. unfold copy_bytes. case_match; auto. Qed.
#[export] Instance load_bytes_proper : Proper ((≡) ==> (=) ==> (=) ==> (=)) load_bytes.
Proof. intros m m' Hm a ? <- n ? <-. apply load_bytes_ext. intros. apply Hm. Qed.
