(* ===== verification/Registry.v ===== *)
(** * The registries shared by all instances

    Models [wasmtime-runtime/src/sig_registry.rs] (signatures are given small
    indices, so that an indirect call compares indices) and
    [wasmtime-runtime/src/trap_registry.rs] (the process-wide map from code
    addresses to trap descriptions, behind a lock). *)

From S2P Require Import Prelude Environ.
Local Open Scope Z_scope.

(** ** Signatures as keys of a [HashMap] *)

#[export] Instance ir_type_countable : Countable ir_type.
Proof.
  apply (inj_countable'
    (λ t, match t with I32 => 0 | I64 => 1 | F32 => 2 | F64 => 3 | I8X16 => 4
          | ir_other n => if 0 <=? n then 5 + n else n end : Z)
    (λ z, if z <? 0 then ir_other z else
          if z =? 0 then I32 else if z =? 1 then I64 else if z =? 2 then F32 else
          if z =? 3 then F64 else if z =? 4 then I8X16 else ir_other (z - 5))).
  intros [| | | | |n]; try done. destruct (Z.leb_spec 0 n).
  - rewrite (proj2 (Z.ltb_ge _ _)), !(proj2 (Z.eqb_neq _ _)) by lia. f_equal. lia.
  - by rewrite (proj2 (Z.ltb_lt _ _)).
Defined.

#[export] Instance ArgumentPurpose_countable : Countable ArgumentPurpose.
Proof.
  apply (inj_countable'
    (λ p, match p with Normal => inl true | VMContextArg => inl false | OtherPurpose n => inr n end)
    (λ s : bool + Z, match s with inl true => Normal | inl false => VMContextArg
                     | inr n => OtherPurpose n end)).
  by intros [].
Defined.

#[export] Instance AbiParam_countable : Countable AbiParam.
Proof.
  by apply (inj_countable' (λ p, (value_type p, purpose p)) (λ '(t, p), mkAbiParam t p)); intros [].
Defined.

#[export] Instance Signature_countable : Countable Signature.
Proof.
  apply (inj_countable' (λ s, (params s, returns s, call_conv s))
    (λ '(p, r, c), mkSignature p r c)).
  by intros [].
Defined.

(** ** [sig_registry.rs] *)

Record SignatureRegistry := mkSignatureRegistry { signature_hash : gmap Signature Z }.

Definition SignatureRegistry_new : SignatureRegistry := mkSignatureRegistry ∅.

(** [core::u32::MAX], reserved for [VMSharedSignatureIndex::default()]. *)
Definition default_signature_index : Z := 2 ^ 32 - 1.

(** The [debug_assert!] is checked, as in every build with debug assertions. *)
Definition register (self : SignatureRegistry) (sig : Signature)
    : res (SignatureRegistry * Z) :=
  let len := Z.of_nat (size (signature_hash self)) in
  match signature_hash self !! sig with
  | Some id => Ret (self, id)
  | None =>
      _ ← rassert (len <? default_signature_index);
      sig_id ← unwrap (try_from_u 32 len);
      Ret (mkSignatureRegistry (<[sig := sig_id]> (signature_hash self)), sig_id)
  end.

(** The registrations of a whole run, in order. *)
Fixpoint register_all (self : SignatureRegistry) (sigs : list Signature)
    : res (SignatureRegistry * list Z) :=
  match sigs with
  | [] => Ret (self, [])
  | sig :: sigs =>
      '(self1, id) ← register self sig;
      '(self2, ids) ← register_all self1 sigs;
      Ret (self2, id :: ids)
  end.

(** Distinct signatures have distinct indices, and the indices are
    [0 .. len - 1]. *)
Record registry_inv (self : SignatureRegistry) : Prop := {
  ri_inj : ∀ s1 s2 i, signature_hash self !! s1 = Some i →
    signature_hash self !! s2 = Some i → s1 = s2;
  ri_bound : ∀ s i, signature_hash self !! s = Some i →
    0 ≤ i < Z.of_nat (size (signature_hash self));
  ri_size : Z.of_nat (size (signature_hash self)) ≤ default_signature_index;
}.

Lemma registry_inv_new : registry_inv SignatureRegistry_new.
Proof. by split. Qed.

Lemma register_inv self sig self' id :
  registry_inv self → register self sig = Ret (self', id) →
  registry_inv self' ∧ signature_hash self ⊆ signature_hash self' ∧
  signature_hash self' !! sig = Some id.
Proof.
  intros [Hinj Hb Hs] H. unfold register in H.
  destruct (signature_hash self !! sig) as [i|] eqn:E; [by simplify_eq|].
  res_inv H. apply Z.ltb_lt in E0. apply try_from_u_Some in E1 as [-> _].
  split_and!; cbn; [|by apply insert_subseteq|by rewrite lookup_insert_eq].
  split; cbn; rewrite ?map_size_insert_None by done.
  - intros s1 s2 i H1 H2. apply lookup_insert_Some in H1 as [[-> <-]|[_ H1]];
      apply lookup_insert_Some in H2 as [[-> ?]|[_ H2]]; try done.
    + apply Hb in H2. lia.
    + apply Hb in H1. lia.
    + by eapply Hinj.
  - intros s i H1. apply lookup_insert_Some in H1 as [[-> <-]|[_ H1]]; [lia|].
    apply Hb in H1. lia.
  - lia.
Qed.

Lemma register_all_inv self sigs self' ids :
  registry_inv self → register_all self sigs = Ret (self', ids) →
  registry_inv self' ∧ signature_hash self ⊆ signature_hash self' ∧
  Forall2 (λ s i, signature_hash self' !! s = Some i) sigs ids.
Proof.
  revert self ids; induction sigs as [|s sigs IH]; intros self ids Hinv H; cbn in H.
  { by simplify_eq. }
  apply bind_Ret in H as ([self1 id] & E1 & H). apply bind_Ret in H as ([self2 ids'] & E2 & H).
  simplify_eq. apply register_inv in E1 as (Hinv1 & Hsub1 & Hs); [|done].
  apply IH in E2 as (Hinv2 & Hsub2 & Hf); [|done]. split_and!; [done|by etrans|].
  constructor; [|done]. by eapply lookup_weaken.
Qed.

(** C13: the indices that a registry hands out over any sequence of
    registrations decide signature equality: two registrations return the
    same index exactly when their signatures are equal, and no index is the
    one reserved for the default (null) function reference. *)
Theorem register_all_decides_equality (sigs : list Signature) (self : SignatureRegistry)
    (ids : list Z) (Hrun : register_all SignatureRegistry_new sigs = Ret (self, ids)) :
  ∀ a b sa sb ia ib, sigs !! a = Some sa → sigs !! b = Some sb →
    ids !! a = Some ia → ids !! b = Some ib →
    (ia = ib ↔ sa = sb) ∧ 0 ≤ ia < default_signature_index.
Proof.
  intros a b sa sb ia ib Ha Hb Hia Hib.
  apply register_all_inv in Hrun as ([Hinj Hbd Hs] & _ & Hf); [|apply registry_inv_new].
  pose proof (Forall2_lookup_lr _ _ _ _ _ _ Hf Ha Hia) as Hla.
  pose proof (Forall2_lookup_lr _ _ _ _ _ _ Hf Hb Hib) as Hlb. cbn in Hla, Hlb.
  split; [|apply Hbd in Hla; lia]. split; [intros ->; by eapply Hinj|intros ->; congruence].
Qed.

(** Registering never panics while fewer than [2^32 - 1] distinct signatures
    are known. *)
Lemma register_total self sig :
  registry_inv self → Z.of_nat (size (signature_hash self)) < default_signature_index →
  ∃ self' id, register self sig = Ret (self', id) ∧
    Z.of_nat (size (signature_hash self')) ≤ Z.of_nat (size (signature_hash self)) + 1.
Proof.
  intros [_ Hb _] Hlt. unfold register. destruct (signature_hash self !! sig) eqn:E.
  { do 2 eexists; split; [done|lia]. }
  rewrite (proj2 (Z.ltb_lt _ _)) by done. cbn [rassert]. rewrite bind_Ret_l.
  unfold try_from_u. unfold default_signature_index in Hlt.
  rewrite (proj2 (in_u_spec 32 _)) by lia. cbn. do 2 eexists; split; [done|]. cbn.
  rewrite map_size_insert_None by done. lia.
Qed.

(** A registry takes any sequence of fewer than [2^32] registrations
    without panicking. *)
Theorem register_all_total (sigs : list Signature) (Hlen : zlen sigs < 2 ^ 32) :
  ∃ self ids, register_all SignatureRegistry_new sigs = Ret (self, ids) ∧
    length ids = length sigs.
Proof.
  assert (Hgen : ∀ self, registry_inv self →
    Z.of_nat (size (signature_hash self)) + zlen sigs ≤ default_signature_index →
    ∃ self' ids, register_all self sigs = Ret (self', ids) ∧ length ids = length sigs).
  { clear Hlen. induction sigs as [|s sigs IH]; intros self Hinv Hle; cbn.
    { by do 2 eexists. }
    rewrite zlen_cons in Hle. pose proof (zlen_nonneg sigs).
    destruct (register_total self s) as (self1 & id & E & Hsz); [done|lia|].
    rewrite E, bind_Ret_l. apply register_inv in E as (Hinv1 & _ & _); [|done].
    destruct (IH self1) as (self2 & ids & -> & Hl); [done|lia|].
    do 2 eexists; split; [done|]. cbn. by f_equal. }
  apply (Hgen _ registry_inv_new). unfold default_signature_index.
  cbn [signature_hash SignatureRegistry_new]. rewrite map_size_empty. lia.
Qed.

Definition ex_sigs : list Signature :=
  [mkSignature [mkAbiParam I32 Normal] [] 0; mkSignature [] [] 0;
   mkSignature [mkAbiParam I32 Normal] [] 0].

Lemma register_all_decides_equality_witness :
  ∃ self, register_all SignatureRegistry_new ex_sigs = Ret (self, [0; 1; 0]) ∧
    (0 = 0 ↔ ex_sigs !! 0%nat = ex_sigs !! 2%nat).
Proof.
  eexists. split; [vm_compute; reflexivity|].
  destruct (register_all_decides_equality ex_sigs _ [0; 1; 0] eq_refl 0 2 _ _ 0 0
    eq_refl eq_refl eq_refl eq_refl) as [H _].
  split; [intros H0|intros _; reflexivity]. apply H in H0. reflexivity.
Defined.

Lemma register_all_total_witness :
  ∃ self ids, register_all SignatureRegistry_new ex_sigs = Ret (self, ids) ∧ length ids = 3%nat.
Proof. apply (register_all_total ex_sigs). vm_compute. reflexivity. Defined.

(** ** [trap_registry.rs] *)

Record TrapDescription := mkTrapDescription { source_loc : Z; trap_code : Z }.

(** The registry behind its [RwLock]: a panic while the write guard is held
    poisons the lock. *)
Record TrapRegistry := mkTrapRegistry {
  traps : gmap Z TrapDescription;
  poisoned : bool;
}.

Definition TrapRegistry_default : TrapRegistry := mkTrapRegistry ∅ false.

(** [register_trap]: the entry is inserted before the assertion is checked.
    The result is the state left behind, and the guard (its address) unless
    the call panics. *)
Definition register_trap (self : TrapRegistry) (address source_loc trap_code : Z)
    : TrapRegistry * res Z :=
  let entry := mkTrapDescription source_loc trap_code in
  let previous_trap := traps self !! address in
  (mkTrapRegistry (<[address := entry]> (traps self)) (poisoned self),
   match previous_trap with None => Ret address | Some _ => Panic end).

Definition deregister_trap (self : TrapRegistry) (address : Z) : TrapRegistry * res unit :=
  let removed := traps self !! address in
  (mkTrapRegistry (delete address (traps self)) (poisoned self),
   match removed with Some _ => Ret tt | None => Panic end).

Definition get_trap (self : TrapRegistry) (address : Z) : option TrapDescription :=
  traps self !! address.

(** [get_mut_trap_registry()], one operation under the write guard, and the
    guard's release. *)
Definition with_mut_trap_registry {A} (self : TrapRegistry)
    (op : TrapRegistry → TrapRegistry * res A) : TrapRegistry * res A :=
  if poisoned self then (self, Panic)
  else
    match op self with
    | (self', Ret a) => (self', Ret a)
    | (self', Panic) => (mkTrapRegistry (traps self') true, Panic)
    end.

(** [get_trap_registry().get_trap(address)] *)
Definition read_trap (self : TrapRegistry) (address : Z) : res (option TrapDescription) :=
  if poisoned self then Panic else Ret (get_trap self address).

(** [TrapRegistrationGuard::drop] *)
Definition guard_drop (self : TrapRegistry) (guard : Z) : TrapRegistry * res unit :=
  with_mut_trap_registry self (λ r, deregister_trap r guard).

(** The operations clients perform on the process-wide registry. *)
Inductive trap_op :=
| TrapRegister (address source_loc trap_code : Z)
| TrapGuardDrop (guard : Z).

Definition trap_step (self : TrapRegistry) (o : trap_op) : TrapRegistry * bool :=
  match o with
  | TrapRegister a l c =>
      let '(s, r) := with_mut_trap_registry self (λ r, register_trap r a l c) in (s, is_ret r)
  | TrapGuardDrop g => let '(s, r) := guard_drop self g in (s, is_ret r)
  end.

Definition trap_run (ops : list trap_op) : TrapRegistry :=
  fold_left (λ s o, fst (trap_step s o)) ops TrapRegistry_default.

(** What clients are to do: a guard is dropped once, and no address is
    registered while a guard for it is alive.  [live] are the addresses with
    a guard. *)
Fixpoint disciplined (live : gset Z) (ops : list trap_op) : Prop :=
  match ops with
  | [] => True
  | TrapRegister a _ _ :: ops => a ∉ live ∧ disciplined ({[ a ]} ∪ live) ops
  | TrapGuardDrop g :: ops => g ∈ live ∧ disciplined (live ∖ {[ g ]}) ops
  end.

(** The description of the latest registration of [a] that no drop
    follows. *)
Definition last_live (a : Z) (ops : list trap_op) : option TrapDescription :=
  fold_left (λ d o, match o with
    | TrapRegister b l c => if decide (a = b) then Some (mkTrapDescription l c) else d
    | TrapGuardDrop b => if decide (a = b) then None else d
    end) ops None.

Lemma trap_step_poisoned self o : poisoned self = true → trap_step self o = (self, false).
Proof.
  intros H. destruct o; unfold trap_step, guard_drop, with_mut_trap_registry; by rewrite H.
Qed.

Lemma trap_run_poisoned self ops :
  poisoned self = true → fold_left (λ s o, fst (trap_step s o)) ops self = self.
Proof.
  intros H. induction ops as [|o ops IH]; cbn; [done|]. by rewrite trap_step_poisoned.
Qed.

Lemma trap_run_spec ops : ∀ self,
  poisoned self = false →
  let self' := fold_left (λ s o, fst (trap_step s o)) ops self in
  if decide (poisoned self' = false) then
    disciplined (dom (traps self)) ops ∧
    ∀ a, traps self' !! a = fold_left (λ d o, match o with
      | TrapRegister b l c => if decide (a = b) then Some (mkTrapDescription l c) else d
      | TrapGuardDrop b => if decide (a = b) then None else d
      end) ops (traps self !! a)
  else ¬ disciplined (dom (traps self)) ops.
Proof.
  induction ops as [|o ops IH]; intros self Hp; [by rewrite decide_True|].
  cbn [fold_left disciplined]. destruct o as [a l c|g]; cbn [trap_step fst];
    unfold guard_drop, with_mut_trap_registry; rewrite Hp; cbn.
  - destruct (traps self !! a) as [d|] eqn:E; cbn.
    + rewrite trap_run_poisoned by done. rewrite decide_False by done.
      intros [Ha _]. apply Ha. by apply elem_of_dom_2 in E.
    + rewrite Hp. specialize (IH (mkTrapRegistry (<[a := mkTrapDescription l c]> (traps self)) false)
        eq_refl). cbn in IH. rewrite dom_insert_L in IH.
      assert (a ∉ dom (traps self)) by by apply not_elem_of_dom.
      case_decide; [|tauto]. destruct IH as [Hd Ht]. split; [done|]. intros b.
      rewrite Ht. f_equal. case_decide; simplify_map_eq; done.
  - destruct (traps self !! g) as [d|] eqn:E; cbn.
    + rewrite Hp. specialize (IH (mkTrapRegistry (delete g (traps self)) false) eq_refl).
      cbn in IH. rewrite dom_delete_L in IH.
      assert (g ∈ dom (traps self)) by (by apply elem_of_dom_2 in E).
      case_decide; [|tauto]. destruct IH as [Hd Ht]. split; [done|]. intros b.
      rewrite Ht. f_equal. case_decide; simplify_map_eq; done.
    + rewrite trap_run_poisoned by done. rewrite decide_False by done.
      intros [Ha _]. by apply not_elem_of_dom in E.
Qed.

(** The trap registry after any sequence of registrations and guard
    drops.  It is usable exactly when the sequence is disciplined (an address
    is registered only while no guard for it is alive, a guard is dropped
    once), and then a lookup returns the description of the latest
    registration whose guard is alive; after one undisciplined operation the
    lock is poisoned and every later lookup panics. *)
Theorem trap_registry_run (ops : list trap_op) (address : Z) :
  (disciplined ∅ ops ∧ read_trap (trap_run ops) address = Ret (last_live address ops)) ∨
  (¬ disciplined ∅ ops ∧ ∀ more, read_trap (trap_run (ops ++ more)) address = Panic).
Proof.
  pose proof (trap_run_spec ops TrapRegistry_default eq_refl) as H. cbn in H.
  rewrite dom_empty_L in H. fold (trap_run ops) in H. case_decide as E.
  - left. destruct H as [Hd Ht]. split; [done|]. unfold read_trap, get_trap.
    rewrite E. f_equal. rewrite Ht, lookup_empty. done.
  - right. split; [done|]. intros more. unfold trap_run in *. rewrite fold_left_app.
    apply not_false_is_true in E. rewrite trap_run_poisoned by done. unfold read_trap. by rewrite E.
Qed.
