(* ===== verification/TrapHandlers.v ===== *)
(** * Traps

    Models [wasmtime-runtime/src/traphandlers.rs] (the thread-local record of a trap
    and the stack of scopes to return to) with the C functions that it is built on
    ([signalhandlers/Trampolines.cpp], [HandleTrap] and the handler of Unix signals of
    [SignalHandlers.cpp]; a failed [assert] of C is a panic), and
    [signalhandlers.rs] (the installation of the handlers). *)

From S2P Require Import Prelude Environ Registry.
From stdpp Require Import pretty.
Local Open Scope Z_scope.

(** ** Trap codes *)

(** [ir::TrapCode]; the registry stores a code as its number, that of [User(x)]
    being [11 + x]. *)
Inductive TrapCode :=
| StackOverflow | HeapOutOfBounds | TableOutOfBounds | OutOfBounds | IndirectCallToNull
| BadSignature | IntegerOverflow | IntegerDivisionByZero | BadConversionToInteger
| UnreachableCodeReached | Interrupt | User (x : Z).

Definition trap_code_number (c : TrapCode) : Z :=
  match c with
  | StackOverflow => 0 | HeapOutOfBounds => 1 | TableOutOfBounds => 2 | OutOfBounds => 3
  | IndirectCallToNull => 4 | BadSignature => 5 | IntegerOverflow => 6
  | IntegerDivisionByZero => 7 | BadConversionToInteger => 8 | UnreachableCodeReached => 9
  | Interrupt => 10 | User x => 11 + x
  end.
Definition trap_code_of_number (n : Z) : TrapCode :=
  match n with
  | 0 => StackOverflow | 1 => HeapOutOfBounds | 2 => TableOutOfBounds | 3 => OutOfBounds
  | 4 => IndirectCallToNull | 5 => BadSignature | 6 => IntegerOverflow
  | 7 => IntegerDivisionByZero | 8 => BadConversionToInteger | 9 => UnreachableCodeReached
  | 10 => Interrupt | n => User (n - 11)
  end.

Definition trap_code_to_expected_string (trap_code : TrapCode) : string :=
  match trap_code with
  | StackOverflow => "call stack exhausted"
  | HeapOutOfBounds => "out of bounds memory access"
  | TableOutOfBounds => "undefined element"
  | OutOfBounds => "out of bounds"
  | IndirectCallToNull => "uninitialized element"
  | BadSignature => "indirect call type mismatch"
  | IntegerOverflow => "integer overflow"
  | IntegerDivisionByZero => "integer divide by zero"
  | BadConversionToInteger => "invalid conversion to integer"
  | UnreachableCodeReached => "unreachable"
  | Interrupt => "interrupt"
  | User x => ("user trap " +:+ pretty x)%string
  end.

(** ** The thread's state *)

Record thread := mkThread {
  RECORDED_TRAP : option TrapDescription;
  JMP_BUF : Z;
  sAlreadyHandlingTrap : bool;
}.
Definition set_handling (b : bool) (t : thread) : thread := mkThread (RECORDED_TRAP t) (JMP_BUF t) b.

Section traps.
(** The registry of the process, [SourceLoc::default()] and how a location is shown. *)
Context (registry : TrapRegistry) (default_loc : Z) (show_loc : Z → string).

Definition CheckIfTrapAtAddress (t : thread) (_pc : Z) : Z :=
  if JMP_BUF t =? 0 then 0 else 1.

(** The description that is recorded for a trap at [pc]. *)
Definition trap_at (pc : Z) : res TrapDescription :=
  r ← read_trap registry pc;
  Ret match r with
      | Some trap_desc => trap_desc
      | None => mkTrapDescription default_loc (trap_code_number StackOverflow)
      end.

Definition RecordTrap (t : thread) (pc : Z) : res thread :=
  trap_desc ← trap_at pc;
  match RECORDED_TRAP t with
  | Some _ => Panic
  | None => Ret (mkThread (Some trap_desc) (JMP_BUF t) (sAlreadyHandlingTrap t))
  end.

Definition EnterScope (t : thread) (ptr : Z) : thread * Z :=
  (mkThread (RECORDED_TRAP t) ptr (sAlreadyHandlingTrap t), JMP_BUF t).
Definition GetScope (t : thread) : Z := JMP_BUF t.
Definition LeaveScope (t : thread) (ptr : Z) : thread := mkThread (RECORDED_TRAP t) ptr (sAlreadyHandlingTrap t).

Definition message_of (trap_desc : TrapDescription) : string :=
  ("wasm trap: " +:+ trap_code_to_expected_string (trap_code_of_number (trap_code trap_desc)) +:+
   ", source location: " +:+ show_loc (source_loc trap_desc))%string.

Definition trap_message (t : thread) : res (thread * string) :=
  trap_desc ← unwrap (RECORDED_TRAP t);
  Ret (mkThread None (JMP_BUF t) (sAlreadyHandlingTrap t), message_of trap_desc).

(** ** Calls *)

(** How a piece of code ends: it returns, a [longjmp] leaves it, or the process gets a
    signal that nobody handles. *)
Inductive exit (A : Type) :=
| Returns (a : A)
| LongJmp (buf : Z)
| Killed.
#[global] Arguments Returns {A} a.
#[global] Arguments LongJmp {A} buf.
#[global] Arguments Killed {A}.

Definition Unwind {A} (t : thread) : exit A := LongJmp (GetScope t).

(** [HandleTrap] resets the flag itself, since [longjmp] runs no destructor. *)
Definition HandleTrap (t : thread) (pc : Z) : res (thread * exit bool) :=
  _ ← rassert (sAlreadyHandlingTrap t);
  if CheckIfTrapAtAddress t pc =? 0 then Ret (t, Returns false)
  else
    t ← RecordTrap t pc;
    let t := set_handling false t in
    Ret (t, Unwind t).

(** [WasmTrapHandler] on Unix: what the signal of an instruction at [pc] does.  A signal
    that is not handled is passed to the previous handler, here the default one. *)
Definition WasmTrapHandler (t : thread) (pc : Z) : res (thread * exit unit) :=
  if sAlreadyHandlingTrap t then Ret (t, Killed)
  else
    '(t, e) ← HandleTrap (set_handling true t) pc;
    match e with
    | Returns handled =>
        _ ← rassert (sAlreadyHandlingTrap t);
        Ret (set_handling false t, if (handled : bool) then Returns tt else Killed)
    | LongJmp b => Ret (t, LongJmp b)
    | Killed => Ret (t, Killed)
    end.

(** [WasmtimeCall] and [WasmtimeCallTrampoline], with a [jmp_buf] at [buf]. *)
Definition WasmtimeCall (buf : Z) (body : thread → res (thread * exit unit)) (t : thread)
    : res (thread * exit Z) :=
  let '(t, prev) := EnterScope t buf in
  '(t, e) ← body t;
  match e with
  | Returns _ => Ret (LeaveScope t prev, Returns 1)
  | LongJmp b => if b =? buf then Ret (LeaveScope t prev, Returns 0) else Ret (t, LongJmp b)
  | Killed => Ret (t, Killed)
  end.

Definition wasmtime_call (buf : Z) (body : thread → res (thread * exit unit)) (t : thread)
    : res (thread * exit (result unit string)) :=
  '(t, e) ← WasmtimeCall buf body t;
  match e with
  | Returns r =>
      if r =? 0 then '(t, message) ← trap_message t; Ret (t, Returns (Err message))
      else Ret (t, Returns (Ok tt))
  | LongJmp b => Ret (t, LongJmp b)
  | Killed => Ret (t, Killed)
  end.

(** ** Running code *)

(** What compiled code does that matters here: it returns, traps at an instruction, or
    calls the host, which calls compiled code in its turn and goes on with the
    result. *)
Inductive body :=
| Return
| TrapAt (pc : Z)
| CallBack (inner : body) (k : result unit string → body).

(** The [jmp_buf] of the [depth]-th call on the stack. *)
Context (buf_addr : nat → Z).

Fixpoint exec (depth : nat) (b : body) (t : thread) : res (thread * exit unit) :=
  match b with
  | Return => Ret (t, Returns tt)
  | TrapAt pc => WasmTrapHandler t pc
  | CallBack inner k =>
      '(t, e) ← wasmtime_call (buf_addr depth) (exec (S depth) inner) t;
      match e with
      | Returns r => exec depth (k r) t
      | LongJmp b => Ret (t, LongJmp b)
      | Killed => Ret (t, Killed)
      end
  end.

(** ** Delivery *)

(** What a piece of code is to do: the trap that ends it, if any. *)
Fixpoint meaning (b : body) : res (result unit string) :=
  match b with
  | Return => Ret (Ok tt)
  | TrapAt pc => d ← trap_at pc; Ret (Err (message_of d))
  | CallBack inner k => r ← meaning inner; meaning (k r)
  end.
End traps.

Section delivery.
Context (registry : TrapRegistry) (default_loc : Z) (show_loc : Z → string) (buf_addr : nat → Z).
Context (Hreg : poisoned registry = false) (Hbuf : ∀ n, buf_addr n ≠ 0).
(** No trap is recorded, and none is being handled. *)
Definition idle (t : thread) : Prop := RECORDED_TRAP t = None ∧ sAlreadyHandlingTrap t = false.
Set Default Proof Using "Type*".

Local Notation exec := (exec registry default_loc show_loc buf_addr).
Local Notation meaning := (meaning registry default_loc show_loc).
Local Notation wasmtime_call := (wasmtime_call show_loc).

Lemma trap_at_total pc : ∃ d, trap_at registry default_loc pc = Ret d.
Proof. unfold trap_at, read_trap. rewrite Hreg. by eexists. Qed.

(** Code that runs in the scope [t] with the result [r]. *)
Definition runs_to (f : thread → res (thread * exit unit)) (t : thread) (r : result unit string) : Prop :=
  match r with
  | Ok _ => f t = Ret (t, Returns tt)
  | Err message => ∃ d, message = message_of show_loc d ∧
      f t = Ret (mkThread (Some d) (JMP_BUF t) false, LongJmp (JMP_BUF t))
  end.

(** A call catches what its body does and leaves the thread as it was. *)
Lemma call_catches buf f t r :
  idle t → runs_to f (mkThread None buf false) r →
  wasmtime_call buf f t = Ret (t, Returns r).
Proof.
  intros [Ht Hh] Hf. unfold wasmtime_call, WasmtimeCall, EnterScope. rewrite Ht, Hh.
  destruct t as [rec jb h]; cbn in *; subst. destruct r as [[]|message]; cbn in Hf.
  - by rewrite Hf.
  - destruct Hf as (d & -> & ->). cbn. rewrite Z.eqb_refl. done.
Qed.

Lemma exec_meaning b depth t :
  idle t → JMP_BUF t ≠ 0 →
  ∃ r, meaning b = Ret r ∧ runs_to (exec depth b) t r.
Proof.
  revert depth t; induction b as [|pc|inner IHi k IHk]; intros depth t Ht Hj;
    cbn [TrapHandlers.meaning].
  - by exists (Ok tt).
  - destruct (trap_at_total pc) as [d E]. rewrite E. eexists. split; [done|]. exists d.
    split; [done|]. cbn. destruct Ht as [Ht Hh]. unfold WasmTrapHandler. rewrite Hh.
    unfold HandleTrap, CheckIfTrapAtAddress, RecordTrap. cbn.
    rewrite (proj2 (Z.eqb_neq _ _) Hj), E. cbn. by rewrite Ht.
  - destruct (IHi (S depth) (mkThread None (buf_addr depth) false) (conj eq_refl eq_refl) (Hbuf depth)) as (r & Hm & Hr).
    destruct (IHk r depth t Ht Hj) as (r' & Hm' & Hr'). exists r'. rewrite Hm. split; [done|].
    assert (exec depth (CallBack inner k) t = exec depth (k r) t) as E.
    { cbn [TrapHandlers.exec]. by rewrite (call_catches _ _ _ r Ht Hr). }
    unfold runs_to. by rewrite E.
Qed.

(** C11: every call of compiled code returns to its caller with the right result,
    however deeply calls from compiled code into the host and back are nested, as long as
    the lock of the trap registry is not poisoned: a call returns [Ok] when its code
    returns and the message of its trap (or of a stack overflow, for an address that is
    not registered) when it traps; the trap is delivered to the innermost call only, the
    handler is ready for the next one, no trap is ever recorded over another, none is
    missing when its message is asked for, and the thread's scope, record and flag are
    those from before the call. *)
Theorem traps_are_delivered (b : body) (depth : nat) (t : thread) (Ht : idle t) :
  ∃ r, meaning b = Ret r ∧
    wasmtime_call (buf_addr depth) (exec (S depth) b) t = Ret (t, Returns r).
Proof.
  destruct (exec_meaning b (S depth) (mkThread None (buf_addr depth) false) (conj eq_refl eq_refl) (Hbuf depth))
    as (r & Hm & Hr).
  exists r. split; [done|]. by apply call_catches.
Qed.
End delivery.

(** A callback traps, the code goes on, and traps itself at another instruction. *)
Definition ex_nested : body :=
  CallBack (CallBack (TrapAt 0x10) (λ r, match r with Err _ => Return | Ok _ => TrapAt 0x30 end))
    (λ r, match r with Ok _ => TrapAt 0x20 | Err _ => Return end).
Definition ex_registry : TrapRegistry :=
  mkTrapRegistry {[ 0x10 := mkTrapDescription 1 2; 0x20 := mkTrapDescription 2 9 ]} false.

Lemma traps_are_delivered_witness :
  wasmtime_call pretty 0x1000 (exec ex_registry 0 pretty (λ n, 0x1000 + Z.of_nat n) 1 ex_nested)
    (mkThread None 0 false) = Ret (mkThread None 0 false, Returns (Err "wasm trap: unreachable, source location: 2")).
Proof.
  destruct (traps_are_delivered ex_registry 0 pretty (λ n, 0x1000 + Z.of_nat n) eq_refl ltac:(intros k; cbv beta; lia)
    ex_nested 0 (mkThread None 0 false) (conj eq_refl eq_refl)) as (r & Hm & Hr).
  etrans; [exact Hr|]. injection Hm as <-. vm_compute. reflexivity.
Defined.

(** ** Installing the handlers ([signalhandlers.rs], other than macOS) *)

Record InstallState := mkInstallState { tried : bool; success : bool }.
Definition InstallState_new : InstallState := mkInstallState false false.

Record TrapContext := mkTrapContext {
  tried_to_install_signal_handlers : bool;
  have_signal_handlers : bool;
}.
Definition TrapContext_default : TrapContext := mkTrapContext false false.

(** [ensure] is the result of [EnsureEagerSignalHandlers]. *)
Definition wasmtime_init_eager (ensure : bool) (state : InstallState) : res InstallState :=
  if tried state then Ret state
  else
    _ ← rassert (negb (success state));
    Ret (mkInstallState true ensure).

(** [needs] is [instance.needs_signal_handlers()].  A panic leaves the context that it
    has reached. *)
Definition wasmtime_init_finish (state : InstallState) (needs : bool) (cx : TrapContext)
    : TrapContext * res unit :=
  let check cx :=
    if negb (have_signal_handlers cx) && needs then (cx, Panic) else (cx, Ret tt) in
  if negb (tried_to_install_signal_handlers cx) then
    let cx := mkTrapContext true (have_signal_handlers cx) in
    if have_signal_handlers cx then (cx, Panic)
    else if negb (tried state) then (cx, Panic)
    else if negb (success state) then (cx, Ret tt)
    else check (mkTrapContext true true)
  else check cx.

(** The first call on a thread whose process could not install the handlers returns
    also for an instance that needs them; only later calls panic. *)
Lemma first_init_finish_ignores_failure needs :
  wasmtime_init_finish (mkInstallState true false) needs TrapContext_default
  = (mkTrapContext true false, Ret tt) ∧
  snd (wasmtime_init_finish (mkInstallState true false) true (mkTrapContext true false)) = Panic.
Proof. done. Qed.

(** Where the installation has succeeded, a call that returns on a fresh thread leaves
    the handlers installed, and so do all later ones. *)
Lemma init_finish_installs needs :
  wasmtime_init_finish (mkInstallState true true) needs TrapContext_default
  = (mkTrapContext true true, Ret tt) ∧
  wasmtime_init_finish (mkInstallState true true) needs (mkTrapContext true true)
  = (mkTrapContext true true, Ret tt).
Proof. done. Qed.
