(* ===== verification/JitInt.v ===== *)
(** * The debugger's list of images

    Models [wasmtime-runtime/src/jit_int.rs]: the doubly linked list of code entries
    that a debugger walks, rooted in a static descriptor, and the notifications that
    it gets.  Entries are boxes, here cells of a heap at their addresses. *)

From S2P Require Import Prelude.
From stdpp Require Import gmap.
Local Open Scope Z_scope.

Record JITCodeEntry := mkJITCodeEntry {
  next_entry : Z;
  prev_entry : Z;
  symfile_addr : Z;
  symfile_size : Z;
}.

Definition JIT_NOACTION : Z := 0.
Definition JIT_REGISTER_FN : Z := 1.
Definition JIT_UNREGISTER_FN : Z := 2.

Record JITDescriptor := mkJITDescriptor {
  version : Z;
  action_flag : Z;
  relevant_entry : Z;
  first_entry : Z;
}.

(** The static descriptor, the boxes, and the calls of [__jit_debug_register_code]:
    the descriptor and the boxes that the debugger finds at each of them. *)
Record jit := mkJit {
  descriptor : JITDescriptor;
  boxes : gmap Z JITCodeEntry;
  notified : list (JITDescriptor * gmap Z JITCodeEntry);
}.

Definition jit_initial : jit := mkJit (mkJITDescriptor 1 JIT_NOACTION 0 0) ∅ [].

Definition set_first (j : jit) (a : Z) : jit :=
  let d := descriptor j in
  mkJit (mkJITDescriptor (version d) (action_flag d) (relevant_entry d) a) (boxes j) (notified j).
Definition set_action (j : jit) (flag entry : Z) : jit :=
  let d := descriptor j in
  mkJit (mkJITDescriptor (version d) flag entry (first_entry d)) (boxes j) (notified j).
Definition set_box (j : jit) (a : Z) (e : JITCodeEntry) : jit :=
  mkJit (descriptor j) (<[a := e]> (boxes j)) (notified j).
Definition free_box (j : jit) (a : Z) : jit :=
  mkJit (descriptor j) (delete a (boxes j)) (notified j).

Definition __jit_debug_register_code (j : jit) : jit :=
  mkJit (descriptor j) (boxes j) (notified j ++ [(descriptor j, boxes j)]).

(** [*entry]: there is no box behind a dangling pointer. *)
Definition deref (j : jit) (a : Z) : res JITCodeEntry := unwrap (boxes j !! a).
Definition set_prev (j : jit) (a p : Z) : res jit :=
  e ← deref j a;
  Ret (set_box j a (mkJITCodeEntry (next_entry e) p (symfile_addr e) (symfile_size e))).
Definition set_next (j : jit) (a n : Z) : res jit :=
  e ← deref j a;
  Ret (set_box j a (mkJITCodeEntry n (prev_entry e) (symfile_addr e) (symfile_size e))).

(** [entry] is the address of the new box. *)
Definition register_gdb_jit_image (j : jit) (entry : Z) (file_ptr file_len : Z) : res jit :=
  let first := first_entry (descriptor j) in
  let j := set_box j entry (mkJITCodeEntry first 0 file_ptr file_len) in
  j ← (if negb (first =? 0) then set_prev j first entry else Ret j);
  let j := set_first j entry in
  let j := set_action j JIT_REGISTER_FN entry in
  let j := __jit_debug_register_code j in
  Ret (set_action j JIT_NOACTION 0).

Definition unregister_gdb_jit_image (j : jit) (entry : Z) : res jit :=
  e ← deref j entry;
  j ← (if negb (prev_entry e =? 0) then set_next j (prev_entry e) (next_entry e)
       else Ret (set_first j (next_entry e)));
  e ← deref j entry;
  j ← (if negb (next_entry e =? 0) then set_prev j (next_entry e) (prev_entry e) else Ret j);
  let j := set_action j JIT_UNREGISTER_FN entry in
  let j := __jit_debug_register_code j in
  let j := set_action j JIT_NOACTION 0 in
  Ret (free_box j entry).

(** [GdbJitImageRegistration]: a registration, and its drop. *)
Record GdbJitImageRegistration := mkRegistration { reg_entry : Z; reg_file : Z * Z }.

Definition GdbJitImageRegistration_register (j : jit) (entry : Z) (file : Z * Z)
    : res (jit * GdbJitImageRegistration) :=
  j ← register_gdb_jit_image j entry file.1 file.2; Ret (j, mkRegistration entry file).
Definition GdbJitImageRegistration_drop (j : jit) (r : GdbJitImageRegistration) : res jit :=
  unregister_gdb_jit_image j (reg_entry r).

(** ** The list *)

(** The entry that a segment of the list starts with, or what follows it. *)
Definition first_of (l : list GdbJitImageRegistration) (next : Z) : Z :=
  from_option reg_entry next (head l).
Definition last_of (l : list GdbJitImageRegistration) (prev : Z) : Z :=
  from_option reg_entry prev (last l).

(** The boxes link the entries of [l], each a registration, between [prev] and
    [next]. *)
Fixpoint linked (h : gmap Z JITCodeEntry) (prev : Z) (l : list GdbJitImageRegistration) (next : Z)
    : Prop :=
  match l with
  | [] => True
  | r :: l =>
      h !! reg_entry r =
        Some (mkJITCodeEntry (first_of l next) prev (reg_file r).1 (reg_file r).2) ∧
      linked h (reg_entry r) l next
  end.

Record jit_list (j : jit) (l : list GdbJitImageRegistration) : Prop := {
  jl_first : first_entry (descriptor j) = first_of l 0;
  jl_linked : linked (boxes j) 0 l 0;
  jl_nodup : NoDup (map reg_entry l);
  jl_nonnull : Forall (λ r, reg_entry r ≠ 0) l;
  jl_dom : ∀ a, is_Some (boxes j !! a) ↔ a ∈ map reg_entry l;
  jl_idle : version (descriptor j) = 1 ∧ action_flag (descriptor j) = JIT_NOACTION ∧
    relevant_entry (descriptor j) = 0;
}.

(** What a debugger reads, following [next_entry] from a pointer. *)
Fixpoint walk (h : gmap Z JITCodeEntry) (fuel : nat) (a : Z) : option (list (Z * Z)) :=
  if a =? 0 then Some []
  else
    match fuel with
    | O => None
    | S fuel =>
        e ← h !! a;
        rest ← walk h fuel (next_entry e);
        Some ((symfile_addr e, symfile_size e) :: rest)
    end.

Lemma linked_walk h prev l fuel :
  linked h prev l 0 → Forall (λ r, reg_entry r ≠ 0) l → (length l ≤ fuel)%nat →
  walk h fuel (first_of l 0) = Some (map reg_file l).
Proof.
  revert prev fuel; induction l as [|r l IH]; intros prev fuel Hl Hn Hf; cbn.
  - by destruct fuel.
  - apply Forall_cons in Hn as [Hr Hn]. destruct Hl as [Hh Hl]. destruct fuel; [cbn in Hf; lia|].
    cbn [walk]. rewrite (proj2 (Z.eqb_neq _ _) Hr), Hh. cbn.
    rewrite (IH _ fuel Hl Hn) by (cbn in Hf; lia). cbn. by destruct r as [? []].
Qed.

Lemma first_of_app l1 l2 next : first_of (l1 ++ l2) next = first_of l1 (first_of l2 next).
Proof. by destruct l1. Qed.
Lemma last_of_snoc l r prev : last_of (l ++ [r]) prev = reg_entry r.
Proof. unfold last_of. by rewrite last_snoc. Qed.
Lemma last_of_cons r l prev : last_of (r :: l) prev = last_of l (reg_entry r).
Proof. unfold last_of. rewrite last_cons. by destruct (last l). Qed.

Lemma linked_app h prev l1 l2 next :
  linked h prev (l1 ++ l2) next ↔
  linked h prev l1 (first_of l2 next) ∧ linked h (last_of l1 prev) l2 next.
Proof.
  revert prev; induction l1 as [|r l1 IH]; intros prev; cbn [app linked]; [tauto|].
  rewrite IH, first_of_app, last_of_cons. tauto.
Qed.

(** A box that the segment does not use. *)
Lemma linked_ext h h' prev l next :
  (∀ r, r ∈ l → h' !! reg_entry r = h !! reg_entry r) → linked h prev l next → linked h' prev l next.
Proof.
  revert prev; induction l as [|r l IH]; intros prev Hh Hl; [done|]. destruct Hl as [Hr Hl].
  split; [rewrite Hh; [done|by left]|]. apply IH; [|done]. intros; apply Hh; by right.
Qed.
Lemma linked_insert h a e prev l next :
  a ∉ map reg_entry l → linked h prev l next → linked (<[a := e]> h) prev l next.
Proof.
  intros Ha. apply linked_ext. intros r Hr. apply lookup_insert_ne. intros ->.
  apply Ha. by apply list_elem_of_fmap_2.
Qed.
Lemma linked_delete h a prev l next :
  a ∉ map reg_entry l → linked h prev l next → linked (delete a h) prev l next.
Proof.
  intros Ha. apply linked_ext. intros r Hr. apply lookup_delete_ne. intros ->.
  apply Ha. by apply list_elem_of_fmap_2.
Qed.

(** Writing [prev_entry] of the first entry of a segment, if it has one, and
    [next_entry] of the last one. *)
Definition fix_prev (j : jit) (l : list GdbJitImageRegistration) (p : Z) : res jit :=
  if negb (first_of l 0 =? 0) then set_prev j (first_of l 0) p else Ret j.

Lemma fix_prev_spec j prev l p :
  linked (boxes j) prev l 0 → NoDup (map reg_entry l) → Forall (λ r, reg_entry r ≠ 0) l →
  ∃ j', fix_prev j l p = Ret j' ∧ descriptor j' = descriptor j ∧ notified j' = notified j ∧
    linked (boxes j') p l 0 ∧
    (∀ a, a ∉ map reg_entry l → boxes j' !! a = boxes j !! a) ∧
    (∀ a, is_Some (boxes j' !! a) ↔ is_Some (boxes j !! a)).
Proof.
  intros Hl Hnd Hn. unfold fix_prev. destruct l as [|r l]; cbn; [by exists j|].
  apply Forall_cons in Hn as [Hr Hn]. apply NoDup_cons in Hnd as [Hni Hnd]. destruct Hl as [Hh Hl].
  rewrite (proj2 (Z.eqb_neq _ _) Hr). cbn. unfold set_prev, deref. rewrite Hh. cbn.
  eexists. split; [done|]. split_and!; [done..| | | |]; cbn.
  - by rewrite lookup_insert_eq.
  - by apply linked_insert.
  - intros a Ha. apply lookup_insert_ne. intros <-. apply Ha. by left.
  - intros a. destruct (decide (a = reg_entry r)) as [->|]; [|by rewrite lookup_insert_ne].
    rewrite lookup_insert_eq, Hh. split; by eexists.
Qed.

Definition fix_next (j : jit) (l : list GdbJitImageRegistration) (n : Z) : res jit :=
  if negb (last_of l 0 =? 0) then set_next j (last_of l 0) n else Ret (set_first j n).

Lemma fix_next_spec j l next n :
  linked (boxes j) 0 l next → first_entry (descriptor j) = first_of l next →
  NoDup (map reg_entry l) → Forall (λ r, reg_entry r ≠ 0) l →
  ∃ j', fix_next j l n = Ret j' ∧ first_entry (descriptor j') = first_of l n ∧
    version (descriptor j') = version (descriptor j) ∧
    notified j' = notified j ∧ linked (boxes j') 0 l n ∧
    (∀ a, a ∉ map reg_entry l → boxes j' !! a = boxes j !! a) ∧
    (∀ a, is_Some (boxes j' !! a) ↔ is_Some (boxes j !! a)).
Proof.
  intros Hl Hf Hnd Hn. unfold fix_next.
  destruct l as [|r l _] using rev_ind; [by exists (set_first j n)|].
  rewrite last_of_snoc. apply Forall_app in Hn as [Hn [Hr _]%Forall_cons].
  rewrite map_app in Hnd. apply NoDup_app in Hnd as (Hnd & Hdis & _).
  apply linked_app in Hl as [Hl [Hh _]]. cbn in Hl.
  rewrite (proj2 (Z.eqb_neq _ _) Hr). cbn. unfold set_next, deref. rewrite Hh. cbn.
  eexists. split; [done|]. split_and!; cbn; [|done..| | |].
  - rewrite Hf, !first_of_app. done.
  - apply linked_app. split; [|split; [by rewrite lookup_insert_eq|done]]. cbn.
    apply linked_insert; [|done]. intros Hin. apply (Hdis _ Hin). by left.
  - intros a Ha. apply lookup_insert_ne. intros <-. apply Ha. rewrite map_app.
    apply elem_of_app. right. by left.
  - intros a. destruct (decide (a = reg_entry r)) as [->|]; [|by rewrite lookup_insert_ne].
    rewrite lookup_insert_eq, Hh. split; by eexists.
Qed.

(** What the debugger sees when it is notified: the action, the entry concerned, and
    the images of the list. *)
Definition view (n : JITDescriptor * gmap Z JITCodeEntry) : Z * Z * option (list (Z * Z)) :=
  (action_flag n.1, relevant_entry n.1, walk n.2 (size n.2) (first_entry n.1)).

Lemma jit_walk (h : gmap Z JITCodeEntry) l first :
  linked h 0 l 0 → NoDup (map reg_entry l) → Forall (λ r, reg_entry r ≠ 0) l →
  (∀ a, a ∈ map reg_entry l → is_Some (h !! a)) → first = first_of l 0 →
  walk h (size h) first = Some (map reg_file l).
Proof.
  intros Hl Hnd Hn Hd ->. eapply linked_walk; [done|done|].
  rewrite <-(length_map reg_entry), <-size_dom, <-(size_list_to_set (C := gset Z)) by done.
  apply subseteq_size. intros a Ha. apply elem_of_list_to_set in Ha. by apply elem_of_dom, Hd.
Qed.

(** Registering puts the image at the head of the list and notifies the debugger. *)
Lemma register_ok j l entry file :
  jit_list j l → entry ≠ 0 → boxes j !! entry = None →
  ∃ j', GdbJitImageRegistration_register j entry file = Ret (j', mkRegistration entry file) ∧
    jit_list j' (mkRegistration entry file :: l) ∧
    ∃ n, notified j' = notified j ++ [n] ∧
      view n = (JIT_REGISTER_FN, entry, Some (file :: map reg_file l)).
Proof.
  intros [Hf Hl Hnd Hn Hd Hi] He Hb.
  assert (entry ∉ map reg_entry l) as Hni by (intros Hin%Hd; rewrite Hb in Hin; by destruct Hin).
  unfold GdbJitImageRegistration_register, register_gdb_jit_image. rewrite Hf.
  set (j1 := set_box j entry _).
  destruct (fix_prev_spec j1 0 l entry) as (j2 & E & Hdesc & Hnot & Hl2 & Hb2 & Hd2); [|done..|].
  { by apply linked_insert. }
  unfold fix_prev in E. cbv zeta. rewrite E, !bind_Ret_l. eexists. split; [done|].
  assert (boxes j2 !! entry = Some (mkJITCodeEntry (first_of l 0) 0 file.1 file.2)) as Hb2e
    by (rewrite Hb2 by done; cbn; by rewrite lookup_insert_eq).
  assert (∀ a, is_Some (boxes j2 !! a) ↔ a ∈ map reg_entry (mkRegistration entry file :: l)) as Hd'.
  { intros a. rewrite Hd2. cbn. rewrite lookup_insert_is_Some, elem_of_cons, Hd.
    destruct (decide (entry = a)); naive_solver. }
  assert (NoDup (map reg_entry (mkRegistration entry file :: l))) as Hnd'
    by (cbn; by apply NoDup_cons).
  assert (Forall (λ r, reg_entry r ≠ 0) (mkRegistration entry file :: l)) as Hn' by (by constructor).
  split; [split; cbn; try done|].
  - destruct Hi as (Hv & _). by rewrite Hdesc.
  - eexists. split; [cbn; by rewrite Hnot|]. unfold view. cbn -[walk].
    rewrite (jit_walk _ (mkRegistration entry file :: l) entry); try done. intros a Ha. by apply Hd'.
Qed.

(** Dropping a registration takes its image out of the list, wherever it is, before
    the debugger is notified, and frees the box after that. *)
Lemma drop_ok j l1 r l2 :
  jit_list j (l1 ++ r :: l2) →
  ∃ j', GdbJitImageRegistration_drop j r = Ret j' ∧ jit_list j' (l1 ++ l2) ∧
    ∃ n, notified j' = notified j ++ [n] ∧
      view n = (JIT_UNREGISTER_FN, reg_entry r, Some (map reg_file (l1 ++ l2))).
Proof.
  intros [Hf Hl Hnd Hn Hd Hi]. apply linked_app in Hl as [Hl1 [Hr Hl2]]. cbn in Hl1, Hl2.
  rewrite first_of_app in Hf. cbn in Hf.
  apply Forall_app in Hn as [Hn1 [Hnr Hn2]%Forall_cons].
  rewrite map_app in Hnd. cbn in Hnd. pose proof Hnd as Hnd0.
  apply NoDup_app in Hnd as (Hnd1 & Hdis & [Hnr2 Hnd2]%NoDup_cons).
  assert (reg_entry r ∉ map reg_entry l1) as Hnr1 by (intros Hin; apply (Hdis _ Hin); by left).
  unfold GdbJitImageRegistration_drop, unregister_gdb_jit_image.
  rewrite (proj2 (unwrap_Ret _ _) Hr : deref j (reg_entry r) = _), bind_Ret_l.
  cbn [prev_entry next_entry].
  destruct (fix_next_spec j l1 (reg_entry r) (first_of l2 0) Hl1 Hf Hnd1 Hn1)
    as (j1 & E1 & Hf1 & Hv1 & Hno1 & Hl1' & Hb1 & Hd1).
  pose proof Hr as Hr1. rewrite <-(Hb1 _ Hnr1) in Hr1. unfold fix_next in E1.
  rewrite E1, bind_Ret_l, (proj2 (unwrap_Ret _ _) Hr1 : deref j1 (reg_entry r) = _), bind_Ret_l.
  cbn [prev_entry next_entry].
  destruct (fix_prev_spec j1 (reg_entry r) l2 (last_of l1 0)) as (j2 & E2 & Hds & Hno2 & Hl2' & Hb2 & Hd2);
    [|done..|].
  { eapply linked_ext; [|exact Hl2]. intros r' Hr'. apply Hb1. intros Hin. apply (Hdis _ Hin).
    right. by apply list_elem_of_fmap_2. }
  unfold fix_prev in E2. rewrite E2, bind_Ret_l. eexists. split; [done|].
  assert (linked (boxes j2) 0 (l1 ++ l2) 0) as Hlj2.
  { apply linked_app. split; [|done]. eapply linked_ext; [|exact Hl1']. intros r' Hr'. apply Hb2.
    intros Hin. apply (Hdis (reg_entry r')); [by apply list_elem_of_fmap_2|by right]. }
  assert (NoDup (map reg_entry (l1 ++ l2))) as Hnd'.
  { rewrite map_app. apply NoDup_app. split_and!; [done| |done]. intros a Ha Hin. apply (Hdis a Ha).
    by right. }
  assert (Forall (λ r, reg_entry r ≠ 0) (l1 ++ l2)) as Hn' by (by apply Forall_app).
  assert (reg_entry r ∉ map reg_entry (l1 ++ l2)) as Hnr'.
  { rewrite map_app, elem_of_app. tauto. }
  assert (first_entry (descriptor j2) = first_of (l1 ++ l2) 0) as Hfirst
    by (by rewrite Hds, Hf1, first_of_app).
  split; [split; cbn; try done|].
  - by apply linked_delete.
  - intros a. rewrite lookup_delete_is_Some, Hd2, Hd1, Hd, !map_app, !elem_of_app. cbn.
    rewrite elem_of_cons. rewrite map_app, elem_of_app in Hnr'. naive_solver.
  - destruct Hi as (Hv & _). by rewrite Hds, Hv1.
  - eexists. split; [cbn; by rewrite Hno2, Hno1|]. unfold view. cbn -[walk].
    rewrite (jit_walk _ (l1 ++ l2)); try done. intros a Ha. apply Hd2, Hd1, Hd.
    rewrite map_app, elem_of_app in Ha. rewrite map_app, elem_of_app. cbn. rewrite elem_of_cons. tauto.
Qed.

(** ** Runs *)

Inductive jit_op := RegisterImage (entry : Z) (file : Z * Z) | DropRegistration (r : GdbJitImageRegistration).

Definition jit_step (j : jit) (op : jit_op) : res jit :=
  match op with
  | RegisterImage entry file => '(j, _) ← GdbJitImageRegistration_register j entry file; Ret j
  | DropRegistration r => GdbJitImageRegistration_drop j r
  end.
Definition jit_run (ops : list jit_op) : res jit := foldM jit_step jit_initial ops.

(** What owners do: a new box is not the null pointer nor one that is in use, and a
    registration is dropped while it is alive.  From the registrations [l], the run
    leads to [l'] and notifies [ns]. *)
Inductive owners : list GdbJitImageRegistration → list jit_op →
    list (Z * Z * option (list (Z * Z))) → list GdbJitImageRegistration → Prop :=
| owners_nil l : owners l [] [] l
| owners_register l entry file ops ns l' :
    entry ≠ 0 → entry ∉ map reg_entry l → owners (mkRegistration entry file :: l) ops ns l' →
    owners l (RegisterImage entry file :: ops)
      ((JIT_REGISTER_FN, entry, Some (file :: map reg_file l)) :: ns) l'
| owners_drop l1 r l2 ops ns l' :
    owners (l1 ++ l2) ops ns l' →
    owners (l1 ++ r :: l2) (DropRegistration r :: ops)
      ((JIT_UNREGISTER_FN, reg_entry r, Some (map reg_file (l1 ++ l2))) :: ns) l'.

Lemma owners_run l ops ns l' j :
  owners l ops ns l' → jit_list j l →
  ∃ j', foldM jit_step j ops = Ret j' ∧ jit_list j' l' ∧ map view (notified j') = map view (notified j) ++ ns.
Proof.
  intros Ho. revert j. induction Ho as [l|l entry file ops ns l' He Hni Ho IH|l1 r l2 ops ns l' Ho IH]; intros j Hj.
  - exists j. split; [done|]. by rewrite app_nil_r.
  - destruct (register_ok j l entry file Hj He) as (j1 & E & Hj1 & n & Hn & Hv).
    { apply eq_None_not_Some. intros Hs%(jl_dom _ _ Hj). done. }
    destruct (IH j1 Hj1) as (j' & E' & Hj' & Hv'). exists j'. split; [|split; [done|]].
    + cbn. by rewrite E.
    + by rewrite Hv', Hn, map_app, <-app_assoc; cbn; rewrite Hv.
  - destruct (drop_ok j l1 r l2 Hj) as (j1 & E & Hj1 & n & Hn & Hv).
    destruct (IH j1 Hj1) as (j' & E' & Hj' & Hv'). exists j'. split; [|split; [done|]].
    + cbn. by rewrite E.
    + by rewrite Hv', Hn, map_app, <-app_assoc; cbn; rewrite Hv.
Qed.

Lemma jit_list_initial : jit_list jit_initial [].
Proof.
  split; cbn; try done; [apply NoDup_nil_2|]. intros a. split; [by intros [? [=]]|]. by intros ?%elem_of_nil.
Qed.

(** C21: the debugger's list of images is the list of the live registrations: over any
    run of registrations and drops by their owners, in any order, no dangling pointer
    is followed; the entries form a doubly linked list of exactly the live images, the
    latest first; and each notification finds the list with the new image in it, or
    without the dropped one. *)
Theorem debugger_sees_live_images (ops : list jit_op) ns (l : list GdbJitImageRegistration)
    (Ho : owners [] ops ns l) :
  ∃ j, jit_run ops = Ret j ∧ jit_list j l ∧ map view (notified j) = ns ∧
    walk (boxes j) (size (boxes j)) (first_entry (descriptor j)) = Some (map reg_file l).
Proof.
  destruct (owners_run _ _ _ _ _ Ho jit_list_initial) as (j & E & Hj & Hv).
  exists j. split; [exact E|]. split; [done|]. split; [done|]. destruct Hj.
  apply jit_walk; try done. intros a Ha. by apply jl_dom0.
Qed.

(** Three images, of which the middle one is dropped. *)
Lemma debugger_sees_live_images_witness :
  ∃ j, jit_run [RegisterImage 16 (100, 10); RegisterImage 32 (200, 20); RegisterImage 48 (300, 30);
      DropRegistration (mkRegistration 32 (200, 20))] = Ret j ∧
    walk (boxes j) (size (boxes j)) (first_entry (descriptor j)) = Some [(300, 30); (100, 10)].
Proof.
  assert (∃ ns, owners [] [RegisterImage 16 (100, 10); RegisterImage 32 (200, 20);
    RegisterImage 48 (300, 30); DropRegistration (mkRegistration 32 (200, 20))] ns
    [mkRegistration 48 (300, 30); mkRegistration 16 (100, 10)]) as [ns Ho].
  { eexists. repeat (apply owners_register; [done|set_solver|]).
    apply (owners_drop [mkRegistration 48 (300, 30)] _ [mkRegistration 16 (100, 10)]).
    apply owners_nil. }
  destruct (debugger_sees_live_images _ ns _ Ho) as (j & E & _ & _ & Hw).
  exists j. split; [exact E|exact Hw].
Defined.
