(* ===== verification/Memory.v ===== *)
(** * Page mappings and linear memories

    Models [wasmtime-runtime/src/mmap.rs] (the non-Windows code) and
    [wasmtime-runtime/src/memory.rs].  The kernel's [mmap], [mprotect]
    (through the [region] crate) and [munmap] are not part of the sources:
    they are the operations of the class [OS], and [OSLaws] states the
    documented behaviour that the runtime relies on. *)

From S2P Require Import Prelude Environ VMOffsets Store.
Local Open Scope Z_scope.

Definition WASM_PAGE_SIZE : Z := 0x10000.
Definition WASM_MAX_PAGES : Z := 0x10000.

Inductive prot := ProtNone | ReadWrite | ReadExecute.
#[export] Instance prot_eq_dec : EqDecision prot.
Proof. solve_decision. Defined.

(** The address space: bytes, and the protection of each mapped byte
    ([None]: not mapped). *)
Record world := mkWorld { w_mem : mem; w_prot : Z → option prot }.

Class OS := {
  page_size : Z;
  sys_mmap : world → Z → prot → world * option Z;
  sys_protect : world → Z → Z → prot → world * bool;
  sys_munmap : world → Z → Z → world * bool;
}.

(** What changes between two worlds stays inside [a, a + n). *)
Definition same_outside (a n : Z) (w w' : world) : Prop :=
  ∀ x, ¬ (a ≤ x < a + n) → w_mem w' x = w_mem w x ∧ w_prot w' x = w_prot w x.

Class OSLaws `{OS} : Prop := {
  (** The page size is a power of two that divides the wasm page size. *)
  page_size_pow2 : ∃ k, 0 ≤ k ≤ 16 ∧ page_size = 2 ^ k;
  (** An anonymous mapping is fresh, page-aligned, zero-filled. *)
  mmap_ok w n p w' a : 0 < n → sys_mmap w n p = (w', Some a) →
    0 < a ∧ a mod page_size = 0 ∧ a + n ≤ 2 ^ 64 ∧ same_outside a n w w' ∧
    ∀ x, a ≤ x < a + n →
      w_prot w x = None ∧ w_mem w' x = 0 ∧ w_prot w' x = Some p;
  mmap_fail w n p w' : sys_mmap w n p = (w', None) → w' = w;
  (** [mprotect] changes protections only. *)
  protect_mem w a n p w' b : sys_protect w a n p = (w', b) →
    same_outside a n w w' ∧ ∀ x, w_mem w' x = w_mem w x;
  protect_ok w a n p w' : sys_protect w a n p = (w', true) →
    ∀ x, a ≤ x < a + n → w_prot w' x = Some p;
  protect_range w a n p w' b x : sys_protect w a n p = (w', b) →
    w_prot w' x = w_prot w x ∨ w_prot w' x = Some p;
  (** [munmap] of a page-aligned range succeeds, and its addresses are not mapped then. *)
  munmap_ok w a n : 0 < n → a mod page_size = 0 →
    ∃ w', sys_munmap w a n = (w', true) ∧ same_outside a n w w' ∧
      ∀ x, a ≤ x < a + n → w_prot w' x = None;
}.

(** ** [mmap.rs] *)

(** [(size + (page_size - 1)) & !(page_size - 1)] on [usize]. *)
Definition round_up_to_page_size (size page_size : Z) : res Z :=
  p1 ← op_sub 64 page_size 1;
  s ← op_add 64 size p1;
  Ret (Z.land s (wrap_u 64 (Z.lnot p1))).

Record Mmap := mkMmap { mm_ptr : Z; mm_len : Z }.

Inductive os_error := OsError.

Section mmap.
Context `{OS}.
Set Default Proof Using "Type".

(** The dangling pointer of an empty [Vec<u8>]. *)
Definition Mmap_new : Mmap := mkMmap 1 0.

Definition make_accessible (w : world) (self : Mmap) (start len : Z)
    : res (world * result unit os_error) :=
  _ ← rassert (Z.land start (page_size - 1) =? 0);
  _ ← rassert (Z.land len (page_size - 1) =? 0);
  _ ← rassert (len <? mm_len self);
  _ ← rassert (start <? mm_len self - len);
  match sys_protect w (mm_ptr self + start) len ReadWrite with
  | (w', true) => Ret (w', Ok tt)
  | (w', false) => Ret (w', Err OsError)
  end.

(** [Drop for Mmap] *)
Definition Mmap_drop (w : world) (self : Mmap) : res world :=
  if mm_len self =? 0 then Ret w
  else
    let '(w', r) := sys_munmap w (mm_ptr self) (mm_len self) in
    _ ← rassert r; Ret w'.

Definition accessible_reserved (w : world) (accessible_size mapping_size : Z)
    : res (world * result Mmap os_error) :=
  _ ← rassert (accessible_size <=? mapping_size);
  _ ← rassert (Z.land mapping_size (page_size - 1) =? 0);
  _ ← rassert (Z.land accessible_size (page_size - 1) =? 0);
  if mapping_size =? 0 then Ret (w, Ok Mmap_new)
  else if accessible_size =? mapping_size then
    match sys_mmap w mapping_size ReadWrite with
    | (w', None) => Ret (w', Err OsError)
    | (w', Some ptr) => Ret (w', Ok (mkMmap ptr mapping_size))
    end
  else
    match sys_mmap w mapping_size ProtNone with
    | (w', None) => Ret (w', Err OsError)
    | (w', Some ptr) =>
        let result := mkMmap ptr mapping_size in
        if negb (accessible_size =? 0) then
          '(w'', r) ← make_accessible w' result 0 accessible_size;
          match r with
          | Ok _ => Ret (w'', Ok result)
          | Err e => w3 ← Mmap_drop w'' result; Ret (w3, Err e)
          end
        else Ret (w', Ok result)
    end.

Definition with_at_least (w : world) (size : Z) : res (world * result Mmap os_error) :=
  rounded_size ← round_up_to_page_size size page_size;
  accessible_reserved w rounded_size rounded_size.

(** ** [memory.rs] *)

Record LinearMemory := mkLinearMemory {
  lm_mmap : Mmap;
  lm_current : Z;
  lm_maximum : option Z;
  lm_offset_guard_size : Z;
  needs_signal_handlers : bool;
}.

Record VMMemoryDefinition := mkVMMemoryDefinition { md_base : Z; md_current_length : Z }.

Definition LinearMemory_new (w : world) (plan : MemoryPlan)
    : res (world * result LinearMemory os_error) :=
  let memory := plan_memory plan in
  _ ← rassert (mem_minimum memory <=? WASM_MAX_PAGES);
  _ ← rassert match mem_maximum memory with
              | None => true | Some m => m <=? WASM_MAX_PAGES end;
  let offset_guard_bytes := plan_offset_guard_size plan in
  let needs_signal_handlers := (0 <? offset_guard_bytes) ||
    match plan_style plan with Dynamic => false | Static _ => true end in
  minimum_pages ← match plan_style plan with
    | Dynamic => Ret (mem_minimum memory)
    | Static bound => _ ← rassert (mem_minimum memory <=? bound); Ret bound
    end;
  minimum_bytes ← unwrap (checked_mul 64 minimum_pages WASM_PAGE_SIZE);
  request_bytes ← unwrap (checked_add 64 minimum_bytes offset_guard_bytes);
  mapped_bytes ← op_mul 64 (mem_minimum memory) WASM_PAGE_SIZE;
  '(w', r) ← accessible_reserved w mapped_bytes request_bytes;
  match r with
  | Err e => Ret (w', Err e)
  | Ok mmap => Ret (w', Ok (mkLinearMemory mmap (mem_minimum memory) (mem_maximum memory)
                              offset_guard_bytes needs_signal_handlers))
  end.

Definition lm_size (self : LinearMemory) : Z := lm_current self.

Definition with_mmap_current (self : LinearMemory) (m : Mmap) (c : Z) : LinearMemory :=
  mkLinearMemory m c (lm_maximum self) (lm_offset_guard_size self)
    (needs_signal_handlers self).

(** [slice[..n]]: panics when [n] exceeds the slice's length. *)
Definition slice_to (len n : Z) : res unit := rassert (n <=? len).

Definition grow (w : world) (self : LinearMemory) (delta : Z)
    : res (world * LinearMemory * option Z) :=
  if delta =? 0 then Ret (w, self, Some (lm_current self)) else
  match checked_add 32 (lm_current self) delta with
  | None => Ret (w, self, None)
  | Some new_pages =>
      let prev_pages := lm_current self in
      if match lm_maximum self with Some maximum => maximum <? new_pages | None => false end
      then Ret (w, self, None)
      else if WASM_MAX_PAGES <=? new_pages then Ret (w, self, None)
      else
        delta_bytes ← op_mul 64 delta WASM_PAGE_SIZE;
        prev_bytes ← op_mul 64 prev_pages WASM_PAGE_SIZE;
        new_bytes ← op_mul 64 new_pages WASM_PAGE_SIZE;
        capacity ← op_sub 64 (mm_len (lm_mmap self)) (lm_offset_guard_size self);
        if capacity <? new_bytes then
          match checked_add 64 new_bytes (lm_offset_guard_size self) with
          | None => Ret (w, self, None)
          | Some request_bytes =>
              '(w', r) ← accessible_reserved w new_bytes request_bytes;
              match r with
              | Err _ => Ret (w', self, None)
              | Ok new_mmap =>
                  let copy_len := capacity in
                  _ ← slice_to (mm_len new_mmap) copy_len;
                  _ ← slice_to (mm_len (lm_mmap self)) copy_len;
                  let w'' := mkWorld (copy_bytes (w_mem w') (mm_ptr new_mmap)
                                        (mm_ptr (lm_mmap self)) copy_len) (w_prot w') in
                  w3 ← Mmap_drop w'' (lm_mmap self);
                  Ret (w3, with_mmap_current self new_mmap new_pages, Some prev_pages)
              end
          end
        else if 0 <? delta_bytes then
          '(w', r) ← make_accessible w (lm_mmap self) prev_bytes delta_bytes;
          match r with
          | Err _ => Ret (w', self, None)
          | Ok _ => Ret (w', with_mmap_current self (lm_mmap self) new_pages, Some prev_pages)
          end
        else Ret (w, with_mmap_current self (lm_mmap self) new_pages, Some prev_pages)
  end.

Definition vmmemory (self : LinearMemory) : res VMMemoryDefinition :=
  len ← op_mul 64 (lm_current self) WASM_PAGE_SIZE;
  Ret (mkVMMemoryDefinition (mm_ptr (lm_mmap self)) len).
End mmap.

(** ** Page arithmetic *)
Section page_arith.
Context `{OSLaws}.
Set Default Proof Using "Type*".

Lemma page_size_pos : 0 < page_size.
Proof. destruct page_size_pow2 as (k & Hk & ->). apply Z.pow_pos_nonneg; lia. Qed.

Lemma land_page x : Z.land x (page_size - 1) = x mod page_size.
Proof.
  destruct page_size_pow2 as (k & Hk & ->).
  rewrite <-Z.land_ones by lia. by rewrite Z.ones_equiv.
Qed.

Lemma land_page_0 x : (page_size | x) → (Z.land x (page_size - 1) =? 0) = true.
Proof.
  intros Hx. rewrite land_page, Z.eqb_eq. apply Z.mod_divide; [|done].
  pose proof page_size_pos. lia.
Qed.

Lemma page_divides_wasm : (page_size | WASM_PAGE_SIZE).
Proof.
  destruct page_size_pow2 as (k & Hk & ->). exists (2 ^ (16 - k)).
  rewrite <-Z.pow_add_r by lia. by replace (16 - k + k) with 16 by lia.
Qed.

Lemma page_divides_wasm_pages n : (page_size | n * WASM_PAGE_SIZE).
Proof. apply Z.divide_mul_r, page_divides_wasm. Qed.

Lemma round_up_outcome (size : Z)
    (Hs : 0 ≤ size) (Hov : size + (page_size - 1) < 2 ^ 64) :
  ∃ r, round_up_to_page_size size page_size = Ret r ∧
    (page_size | r) ∧ size ≤ r < size + page_size ∧
    ∀ r', (page_size | r') → size ≤ r' → r ≤ r'.
Proof.
  destruct page_size_pow2 as (k & Hk & Hp). pose proof page_size_pos as Hpos.
  assert (page_size ≤ 2 ^ 16) by (rewrite Hp; apply Z.pow_le_mono_r; lia).
  unfold round_up_to_page_size. rewrite op_sub_fits, bind_Ret_l, op_add_fits, bind_Ret_l by lia.
  set (s := size + (page_size - 1)) in *.
  assert (Hland : Z.land s (wrap_u 64 (Z.lnot (page_size - 1))) = s / page_size * page_size).
  { unfold wrap_u. rewrite <-Z.land_ones, (Z.land_comm (Z.lnot _)), Z.land_assoc by lia.
    rewrite Z.land_ones, (Z.mod_small s) by lia.
    rewrite <-Z.ldiff_land.
    assert (page_size - 1 = Z.ones k) as -> by (rewrite Z.ones_equiv, <-Hp; lia).
    rewrite Z.ldiff_ones_r by lia. rewrite Z.shiftr_div_pow2, Z.shiftl_mul_pow2 by lia.
    by rewrite Hp. }
  rewrite Hland. eexists; split; [done|].
  assert (page_size ≠ 0) as Hnz by lia. pose proof (Z.div_mod s page_size Hnz).
  pose proof (Z.mod_pos_bound s page_size Hpos).
  split; [apply Z.divide_factor_r|]. split; [nia|].
  intros r' [q ->] Hq. apply Z.mul_le_mono_nonneg_r; [lia|].
  assert (s / page_size < q + 1); [|lia]. apply Z.div_lt_upper_bound; [lia|]. subst s. nia.
Qed.

(** [round_up_to_page_size] gives the least multiple of the page size
    that is not below its argument, whenever the addition does not
    overflow. *)
Theorem round_up_to_page_size_spec (size : Z)
    (Hs : 0 ≤ size) (Hov : size + (page_size - 1) < 2 ^ 64) :
  ∃ r, round_up_to_page_size size page_size = Ret r ∧
    (page_size | r) ∧ size ≤ r < size + page_size ∧
    ∀ r', (page_size | r') → size ≤ r' → r ≤ r'.
Proof. exact (round_up_outcome size Hs Hov). Qed.
End page_arith.

(** ** Mappings *)

(** Bytes that were mapped keep their contents and protection. *)
Definition preserves (w w' : world) : Prop :=
  ∀ x, w_prot w x ≠ None → w_mem w' x = w_mem w x ∧ w_prot w' x = w_prot w x.

(** What was mapped keeps its contents, and the same addresses are mapped as before. *)
Definition restores (w w' : world) : Prop := preserves w w' ∧ ∀ x, w_prot w' x = w_prot w x.

(** [m] is a mapping that [w'] has and [w] had not, zero-filled, whose first
    [acc] bytes can be read and written. *)
Record fresh_mapping `{OS} (w w' : world) (m : Mmap) (acc : Z) : Prop := {
  fm_ptr : 0 < mm_ptr m;
  fm_end : mm_ptr m + mm_len m ≤ 2 ^ 64;
  fm_page : mm_len m = 0 ∨ mm_ptr m mod page_size = 0;
  fm_outside : same_outside (mm_ptr m) (mm_len m) w w';
  fm_inside : ∀ x, mm_ptr m ≤ x < mm_ptr m + mm_len m →
    w_prot w x = None ∧ w_mem w' x = 0 ∧ w_prot w' x ≠ None;
  fm_acc : ∀ x, mm_ptr m ≤ x < mm_ptr m + acc → w_prot w' x = Some ReadWrite;
}.

Section mapping_laws.
Context `{OSLaws}.
Set Default Proof Using "Type*".

Lemma same_outside_trans a n w1 w2 w3 :
  same_outside a n w1 w2 → same_outside a n w2 w3 → same_outside a n w1 w3.
Proof.
  intros H1 H2 x Hx. destruct (H1 x Hx) as [-> ->] || destruct (H1 x Hx) as [<- <-].
  by apply H2.
Qed.

Lemma fresh_preserves w w' m acc : fresh_mapping w w' m acc → preserves w w'.
Proof.
  intros [] x Hx. destruct (decide (mm_ptr m ≤ x < mm_ptr m + mm_len m)) as [Hi|Hi].
  - by apply fm_inside0 in Hi as (? & _).
  - by apply fm_outside0.
Qed.

Lemma make_accessible_spec w m start len :
  (page_size | start) → (page_size | len) → 0 ≤ start → 0 < len →
  start + len < mm_len m →
  ∃ w' r, make_accessible w m start len = Ret (w', r) ∧
    same_outside (mm_ptr m + start) len w w' ∧ (∀ x, w_mem w' x = w_mem w x) ∧
    (∀ x, w_prot w' x = w_prot w x ∨ w_prot w' x = Some ReadWrite) ∧
    (r = Ok tt → ∀ x, mm_ptr m + start ≤ x < mm_ptr m + start + len →
       w_prot w' x = Some ReadWrite).
Proof.
  intros. unfold make_accessible.
  rewrite !land_page_0, (proj2 (Z.ltb_lt len _)), (proj2 (Z.ltb_lt start _)) by (done || lia).
  cbn [rassert]. rewrite !bind_Ret_l.
  destruct (sys_protect w (mm_ptr m + start) len ReadWrite) as [w' [|]] eqn:E;
    do 2 eexists; (split; [done|]);
    destruct (protect_mem _ _ _ _ _ _ E) as [Hso Hm]; split_and!; try done;
    try (intros; by eapply protect_range).
  intros _. by eapply protect_ok.
Qed.

Lemma accessible_reserved_spec w acc map :
  (page_size | acc) → (page_size | map) → 0 ≤ acc ≤ map →
  ∃ w' r, accessible_reserved w acc map = Ret (w', r) ∧
    match r with
    | Err _ => restores w w'
    | Ok m => mm_len m = map ∧ fresh_mapping w w' m acc
    end.
Proof.
  intros Hpa Hpm Ham. unfold accessible_reserved.
  rewrite !land_page_0, (proj2 (Z.leb_le acc map)) by (done || lia).
  cbn [rassert]. rewrite !bind_Ret_l.
  destruct (Z.eqb_spec map 0) as [->|Hm0].
  { do 2 eexists; split; [done|]. split; [done|]. split; cbn; intros; try lia.
    by intros ?. }
  destruct (Z.eqb_spec acc map) as [->|Hne].
  { destruct (sys_mmap w map ReadWrite) as [w' [p|]] eqn:E.
    - do 2 eexists; split; [done|]. split; [done|].
      apply mmap_ok in E as (? & ? & ? & ? & Hin); [|lia].
      split; cbn; try done; [by right|..]; intros x Hx; apply Hin in Hx as (? & ? & Hp); [|done].
      by rewrite Hp.
    - apply mmap_fail in E as ->. do 2 eexists; split; [done|]. by split. }
  destruct (sys_mmap w map ProtNone) as [w1 [p|]] eqn:E.
  2:{ apply mmap_fail in E as ->. do 2 eexists; split; [done|]. by split. }
  apply mmap_ok in E as (? & ? & ? & Hso & Hin); [|lia].
  destruct (Z.eqb_spec acc 0) as [->|Ha0]; cbn [negb].
  { do 2 eexists; split; [done|]. split; [done|].
    split; cbn; try done; [by right|..]; intros x Hx; [|lia].
    apply Hin in Hx as (? & ? & Hp). by rewrite Hp. }
  destruct (make_accessible_spec w1 (mkMmap p map) 0 acc)
    as (w2 & r & -> & Hso2 & Hmem & Hrange & Hok);
    [apply Z.divide_0_r|done|lia|lia|cbn; lia|].
  cbn in Hso2, Hok. rewrite bind_Ret_l.
  assert (Hso12 : same_outside p map w w2).
  { eapply same_outside_trans; [done|]. intros x Hx. apply Hso2. lia. }
  destruct r as [[]|e].
  - do 2 eexists; split; [done|]. split; [done|].
    split; cbn; try done; [by right|..]; intros x Hx; [|apply Hok; [done|lia]].
    apply Hin in Hx as (? & ? & Hp). rewrite Hmem. split_and!; [done..|].
    destruct (Hrange x) as [-> | ->]; [by rewrite Hp|done].
  - unfold Mmap_drop. cbn. rewrite (proj2 (Z.eqb_neq map 0)) by done.
    destruct (munmap_ok w2 p map) as (w3 & -> & Hso3 & Hun); [lia|done|]. cbn.
    do 2 eexists; split; [done|].
    pose proof (same_outside_trans _ _ _ _ _ Hso12 Hso3) as Hs. split; intros x.
    + intros Hx. destruct (decide (p ≤ x < p + map)) as [Hi|Hi]; [|by apply Hs].
      by apply Hin in Hi as (? & _).
    + destruct (decide (p ≤ x < p + map)) as [Hi|Hi]; [|by apply Hs].
      rewrite (Hun x Hi). by apply Hin in Hi as (-> & _).
Qed.

Lemma with_at_least_total w size :
  0 ≤ size → size + (page_size - 1) < 2 ^ 64 →
  ∃ w' r, with_at_least w size = Ret (w', r) ∧
  match r with
  | Err _ => restores w w'
  | Ok m => size ≤ mm_len m ∧ fresh_mapping w w' m (mm_len m)
  end.
Proof.
  intros Hs Hov. unfold with_at_least.
  destruct (round_up_outcome size Hs Hov) as (n & -> & Hdiv & Hn & _). rewrite bind_Ret_l.
  destruct (accessible_reserved_spec w n n) as (w' & r & -> & Hr); [done..|lia|].
  exists w', r. split; [done|]. destruct r as [m|e]; [|done].
  destruct Hr as [Hlen Hf]. rewrite Hlen in *. split; [lia|done].
Qed.

Lemma with_at_least_spec w size w' r :
  0 ≤ size → with_at_least w size = Ret (w', r) →
  match r with
  | Err _ => preserves w w'
  | Ok m => size ≤ mm_len m ∧ fresh_mapping w w' m (mm_len m)
  end.
Proof.
  intros Hs E. assert (Hov : size + (page_size - 1) < 2 ^ 64).
  { unfold with_at_least, round_up_to_page_size in E. apply bind_Ret in E as (n & En & _).
    apply bind_Ret in En as (p1 & [-> _]%op_sub_Ret & En).
    apply bind_Ret in En as (s & [-> ?]%op_add_Ret & _). lia. }
  destruct (with_at_least_total w size Hs Hov) as (w1 & r1 & E1 & Hr).
  rewrite E1 in E. injection E as <- <-. destruct r1; [done|]. apply Hr.
Qed.

Lemma Mmap_drop_spec w m :
  0 ≤ mm_len m → (mm_len m = 0 ∨ mm_ptr m mod page_size = 0) →
  ∃ w', Mmap_drop w m = Ret w' ∧ same_outside (mm_ptr m) (mm_len m) w w' ∧
    ∀ x, mm_ptr m ≤ x < mm_ptr m + mm_len m → w_prot w' x = None.
Proof.
  intros Hl Hp. unfold Mmap_drop. destruct (Z.eqb_spec (mm_len m) 0) as [E|E].
  - eexists; split; [done|]. split; [by intros x Hx|lia].
  - destruct Hp as [|Hp]; [done|].
    destruct (munmap_ok w (mm_ptr m) (mm_len m)) as (w' & -> & Hso & Hun); [lia|done|].
    by eexists.
Qed.
End mapping_laws.

(** ** Linear memories *)

Definition lm_bytes (lm : LinearMemory) : Z := lm_current lm * WASM_PAGE_SIZE.
Definition lm_capacity (lm : LinearMemory) : Z :=
  mm_len (lm_mmap lm) - lm_offset_guard_size lm.
Notation lm_ptr lm := (mm_ptr (lm_mmap lm)).
Notation lm_len lm := (mm_len (lm_mmap lm)).

(** What every linear memory of the runtime satisfies: its pages are inside
    the mapping, before the guard; the current pages can be accessed; the
    reserved pages after them are still zero; and a memory with spare
    capacity has a maximum that the capacity covers. *)
Record lm_inv `{OS} (w : world) (lm : LinearMemory) : Prop := {
  li_current : 0 ≤ lm_current lm ≤ WASM_MAX_PAGES;
  li_guard : 0 ≤ lm_offset_guard_size lm ∧ (page_size | lm_offset_guard_size lm);
  li_capacity : lm_bytes lm ≤ lm_capacity lm;
  li_shape : lm_capacity lm = lm_bytes lm ∨
    ∃ M, lm_maximum lm = Some M ∧ M * WASM_PAGE_SIZE ≤ lm_capacity lm;
  li_ptr : 0 < lm_ptr lm ∧ lm_ptr lm + lm_len lm ≤ 2 ^ 64;
  li_page : lm_len lm = 0 ∨ lm_ptr lm mod page_size = 0;
  li_mapped : ∀ x, lm_ptr lm ≤ x < lm_ptr lm + lm_len lm → w_prot w x ≠ None;
  li_acc : ∀ x, lm_ptr lm ≤ x < lm_ptr lm + lm_bytes lm → w_prot w x = Some ReadWrite;
  li_zero : ∀ x, lm_ptr lm + lm_bytes lm ≤ x < lm_ptr lm + lm_capacity lm → w_mem w x = 0;
}.

(** The plans [MemoryPlan::for_memory] can draw up for valid memories with
    page-aligned guards. *)
Record plan_ok `{OS} (plan : MemoryPlan) : Prop := {
  po_min : 0 ≤ mem_minimum (plan_memory plan) ≤ WASM_MAX_PAGES;
  po_max : ∀ M, mem_maximum (plan_memory plan) = Some M → M ≤ WASM_MAX_PAGES;
  po_guard : 0 ≤ plan_offset_guard_size plan < 2 ^ 63 ∧
             (page_size | plan_offset_guard_size plan);
  po_style : match plan_style plan with
             | Dynamic => True
             | Static bound => mem_minimum (plan_memory plan) ≤ bound < 2 ^ 32 ∧
                 ∃ M, mem_maximum (plan_memory plan) = Some M ∧ M ≤ bound
             end;
}.

Section linear_memory.
Context `{OSLaws}.
Set Default Proof Using "Type*".

Lemma LinearMemory_new_outcome (w : world) (plan : MemoryPlan) (Hplan : plan_ok plan) :
  ∃ w' r, LinearMemory_new w plan = Ret (w', r) ∧ preserves w w' ∧
  match r with
  | Err _ => restores w w'
  | Ok lm =>
      lm_inv w' lm ∧ lm_current lm = mem_minimum (plan_memory plan) ∧
      lm_maximum lm = mem_maximum (plan_memory plan) ∧
      lm_offset_guard_size lm = plan_offset_guard_size plan ∧
      (∀ x, lm_ptr lm ≤ x < lm_ptr lm + lm_len lm → w_prot w x = None) ∧
      same_outside (lm_ptr lm) (lm_len lm) w w' ∧
      ∀ x, lm_ptr lm ≤ x < lm_ptr lm + lm_bytes lm → w_mem w' x = 0
  end.
Proof.
  destruct Hplan as [Hmin Hmax [Hg Hgp] Hst]. unfold LinearMemory_new, WASM_MAX_PAGES in *.
  set (mem := plan_memory plan) in *. set (g := plan_offset_guard_size plan) in *.
  rewrite (proj2 (Z.leb_le (mem_minimum mem) _)) by lia. cbn [rassert]. rewrite bind_Ret_l.
  replace (match mem_maximum mem with None => true | Some m => m <=? 65536 end) with true
    by (destruct (mem_maximum mem); [symmetry; apply Z.leb_le; auto|done]).
  cbn [rassert]. rewrite bind_Ret_l.
  set (pages := match plan_style plan with Dynamic => mem_minimum mem | Static b => b end).
  assert (Hpages : mem_minimum mem ≤ pages < 2 ^ 32).
  { subst pages. destruct (plan_style plan); [lia|]. destruct Hst; lia. }
  replace (match plan_style plan with
    | Dynamic => Ret (mem_minimum mem)
    | Static bound => rassert (mem_minimum mem <=? bound) ≫= λ _, Ret bound end)
    with (Ret pages).
  2:{ subst pages. destruct (plan_style plan); [done|].
      by rewrite (proj2 (Z.leb_le _ _)) by lia. }
  rewrite bind_Ret_l. unfold WASM_PAGE_SIZE in *.
  change (unwrap (checked_mul 64 ?a ?b)) with (op_mul 64 a b).
  change (unwrap (checked_add 64 ?a ?b)) with (op_add 64 a b).
  rewrite (op_mul_fits 64 pages), bind_Ret_l, op_add_fits, bind_Ret_l, op_mul_fits,
    bind_Ret_l by lia.
  destruct (accessible_reserved_spec w (mem_minimum mem * 65536) (pages * 65536 + g))
    as (w' & r & -> & Hr).
  { apply page_divides_wasm_pages. }
  { apply Z.divide_add_r; [apply page_divides_wasm_pages|done]. }
  { lia. }
  rewrite bind_Ret_l. destruct r as [m|e].
  2:{ do 2 eexists; split; [done|]. split; [apply Hr|done]. }
  destruct Hr as [Hlen Hf]. do 2 eexists; split; [done|].
  split; [by eapply fresh_preserves|]. destruct Hf.
  assert (Hin : ∀ x, mm_ptr m ≤ x < mm_ptr m + mm_len m → w_mem w' x = 0 ∧ w_prot w' x ≠ None)
    by (intros x Hx; by apply fm_inside0 in Hx as (? & ? & ?)).
  split; [|by split_and!; [..|intros x Hx; by apply fm_inside0 in Hx as (? & _)|done|
    intros x Hx; apply Hin; unfold lm_bytes, WASM_PAGE_SIZE in *; cbn in *; lia]].
  split; unfold lm_bytes, lm_capacity, WASM_PAGE_SIZE, WASM_MAX_PAGES; cbn; try done; try lia.
  - split; [lia|done].
  - subst pages. destruct (plan_style plan) as [|b]; [left; lia|right].
    destruct Hst as (? & M & HM & ?). exists M. split; [done|lia].
  - intros x Hx. by apply Hin.
  - intros x Hx. apply Hin. lia.
Qed.

(** A linear memory created from a valid plan does not panic; when the
    system grants the mapping, the memory has the plan's minimum of
    accessible pages, all zero, at addresses that were not mapped before,
    satisfies the invariant, and leaves every byte that was mapped before
    untouched; otherwise an error is returned
    and, again, nothing that was mapped has changed. *)
Theorem LinearMemory_new_spec (w : world) (plan : MemoryPlan) (Hplan : plan_ok plan) :
  ∃ w' r, LinearMemory_new w plan = Ret (w', r) ∧ preserves w w' ∧
  match r with
  | Err _ => restores w w'
  | Ok lm =>
      lm_inv w' lm ∧ lm_current lm = mem_minimum (plan_memory plan) ∧
      lm_maximum lm = mem_maximum (plan_memory plan) ∧
      lm_offset_guard_size lm = plan_offset_guard_size plan ∧
      (∀ x, lm_ptr lm ≤ x < lm_ptr lm + lm_len lm → w_prot w x = None) ∧
      same_outside (lm_ptr lm) (lm_len lm) w w' ∧
      ∀ x, lm_ptr lm ≤ x < lm_ptr lm + lm_bytes lm → w_mem w' x = 0
  end.
Proof. exact (LinearMemory_new_outcome w plan Hplan). Qed.

(** The outcome of a successful growth by [delta] pages. *)
Record grown (w : world) (lm : LinearMemory) (delta : Z) (w' : world) (lm' : LinearMemory)
    : Prop := {
  gr_inv : lm_inv w' lm';
  gr_current : lm_current lm' = lm_current lm + delta;
  gr_maximum : lm_maximum lm' = lm_maximum lm;
  gr_guard : lm_offset_guard_size lm' = lm_offset_guard_size lm;
  gr_old : ∀ i, 0 ≤ i < lm_bytes lm → w_mem w' (lm_ptr lm' + i) = w_mem w (lm_ptr lm + i);
  gr_new : ∀ i, lm_bytes lm ≤ i < lm_bytes lm' → w_mem w' (lm_ptr lm' + i) = 0;
  gr_frame : ∀ x, w_prot w x ≠ None → ¬ (lm_ptr lm ≤ x < lm_ptr lm + lm_len lm) →
    w_mem w' x = w_mem w x ∧ w_prot w' x = w_prot w x;
  gr_region : ∀ x, lm_ptr lm' ≤ x < lm_ptr lm' + lm_len lm' →
    w_prot w x = None ∨ lm_ptr lm ≤ x < lm_ptr lm + lm_len lm;
}.

(** A dynamic memory moves to a larger mapping. *)
Lemma grow_moves w lm m w1 delta :
  lm_inv w lm → 0 < delta → lm_current lm + delta < WASM_MAX_PAGES →
  let new_bytes := (lm_current lm + delta) * WASM_PAGE_SIZE in
  lm_capacity lm < new_bytes →
  mm_len m = new_bytes + lm_offset_guard_size lm → fresh_mapping w w1 m new_bytes →
  let w2 := mkWorld (copy_bytes (w_mem w1) (mm_ptr m) (lm_ptr lm) (lm_capacity lm)) (w_prot w1) in
  ∃ w3, Mmap_drop w2 (lm_mmap lm) = Ret w3 ∧
    grown w lm delta w3 (with_mmap_current lm m (lm_current lm + delta)).
Proof.
  intros Hinv Hd Hmax nb Hcap Hlen Hf w2. subst nb.
  destruct Hinv as [Hc [Hg Hgp] Hca Hsh [Hp0 Hp1] Hpg Hmap Hacc Hz], Hf.
  unfold WASM_MAX_PAGES in *.
  assert (Hdisj : ∀ x, mm_ptr m ≤ x < mm_ptr m + mm_len m →
                       ¬ (lm_ptr lm ≤ x < lm_ptr lm + lm_len lm)).
  { intros x Hx Hx'. apply fm_inside0 in Hx as (Hn & _). by apply (Hmap x). }
  unfold lm_bytes, lm_capacity, WASM_PAGE_SIZE in *.
  destruct (Mmap_drop_spec w2 (lm_mmap lm)) as (w3 & -> & Hso & _); [lia|done|].
  eexists; split; [done|].
  assert (Hnew : ∀ i, 0 ≤ i < mm_len m →
    w_mem w3 (mm_ptr m + i) = (if decide (i < lm_len lm - lm_offset_guard_size lm)
                               then w_mem w (lm_ptr lm + i) else 0) ∧
    w_prot w3 (mm_ptr m + i) = w_prot w1 (mm_ptr m + i)).
  { intros i Hi. destruct (Hso (mm_ptr m + i)) as [-> ->]; [apply Hdisj; lia|].
    subst w2. cbn. split; [|done]. case_decide as Hi2.
    - rewrite copy_bytes_in by lia. destruct (fm_outside0 (lm_ptr lm + i)) as [-> _]; [|done].
      intros Hx. eapply Hdisj; [exact Hx|lia].
    - rewrite copy_bytes_out by lia. apply fm_inside0. lia. }
  split; cbn; try done.
  - split; unfold lm_bytes, lm_capacity, WASM_PAGE_SIZE, WASM_MAX_PAGES; cbn; try done; try lia.
    + intros x Hx. destruct (Hnew (x - mm_ptr m)) as [_ Hpr]; [lia|].
      replace (mm_ptr m + (x - mm_ptr m)) with x in Hpr by lia. rewrite Hpr.
      by apply fm_inside0.
    + intros x Hx. destruct (Hnew (x - mm_ptr m)) as [_ Hpr]; [lia|].
      replace (mm_ptr m + (x - mm_ptr m)) with x in Hpr by lia. rewrite Hpr.
      apply fm_acc0. lia.
  - unfold lm_bytes, WASM_PAGE_SIZE. intros i Hi. destruct (Hnew i) as [-> _]; [lia|].
    case_decide; [done|lia].
  - unfold lm_bytes, WASM_PAGE_SIZE. cbn. intros i Hi. destruct (Hnew i) as [-> _]; [lia|].
    case_decide; [|done]. apply Hz. lia.
  - intros x Hx Hout. destruct (Hso x) as [-> ->]; [done|]. subst w2. cbn.
    assert (Hx2 : ¬ (mm_ptr m ≤ x < mm_ptr m + mm_len m)).
    { intros Hx2. by apply fm_inside0 in Hx2 as (? & _). }
    rewrite copy_bytes_out by lia. by apply fm_outside0.
  - intros x Hx. left. by apply fm_inside0.
Qed.

(** A static memory makes reserved pages accessible. *)
Lemma grow_in_place w lm delta :
  lm_inv w lm → 0 < delta → lm_current lm + delta < WASM_MAX_PAGES →
  (lm_current lm + delta) * WASM_PAGE_SIZE ≤ lm_capacity lm →
  (lm_current lm + delta) * WASM_PAGE_SIZE < lm_len lm →
  (∀ M, lm_maximum lm = Some M → lm_current lm + delta ≤ M) →
  ∃ w' r, make_accessible w (lm_mmap lm) (lm_bytes lm) (delta * WASM_PAGE_SIZE) = Ret (w', r) ∧
    match r with
    | Ok _ => grown w lm delta w' (with_mmap_current lm (lm_mmap lm) (lm_current lm + delta))
    | Err _ => lm_inv w' lm ∧ (∀ x, w_mem w' x = w_mem w x) ∧
        same_outside (lm_ptr lm) (lm_len lm) w w'
    end.
Proof.
  intros Hinv Hd Hmax Hcap Hlen Hm.
  destruct Hinv as [Hc [Hg Hgp] Hca Hsh [Hp0 Hp1] Hpg Hmap Hacc Hz].
  unfold WASM_MAX_PAGES, lm_bytes, lm_capacity in *.
  destruct (make_accessible_spec w (lm_mmap lm) (lm_current lm * WASM_PAGE_SIZE)
    (delta * WASM_PAGE_SIZE)) as (w' & r & -> & Hso & Hmem & Hrange & Hok);
    [apply page_divides_wasm_pages|apply page_divides_wasm_pages|unfold WASM_PAGE_SIZE in *; lia..|].
  assert (Hmapped : ∀ x, lm_ptr lm ≤ x < lm_ptr lm + lm_len lm → w_prot w' x ≠ None).
  { intros x Hx. destruct (Hrange x) as [-> | ->]; [by apply Hmap|done]. }
  assert (Hacc' : ∀ x, lm_ptr lm ≤ x < lm_ptr lm + lm_current lm * WASM_PAGE_SIZE →
    w_prot w' x = Some ReadWrite).
  { intros x Hx. destruct (Hrange x) as [-> | ->]; [by apply Hacc|done]. }
  unfold WASM_PAGE_SIZE in *. do 2 eexists; split; [done|]. destruct r as [[]|e].
  - specialize (Hok eq_refl).
    split; cbn; unfold lm_bytes, WASM_PAGE_SIZE; cbn; try done; try lia.
    + split; unfold lm_bytes, lm_capacity, WASM_PAGE_SIZE, WASM_MAX_PAGES; cbn; try done; try lia.
      * destruct Hsh as [Hsh|(M & HM & ?)]; [left; lia|]. right. eauto.
      * intros x Hx. destruct (decide (x < lm_ptr lm + lm_current lm * 65536));
          [apply Hacc'; lia|apply Hok; lia].
      * intros x Hx. rewrite Hmem. apply Hz. lia.
    + intros i Hi. rewrite Hmem. apply Hz. lia.
    + intros x Hx Hout. apply Hso. lia.
  - split_and!; [|done|].
    + split; unfold lm_bytes, lm_capacity, WASM_PAGE_SIZE, WASM_MAX_PAGES; try done.
      intros x Hx. rewrite Hmem. by apply Hz.
    + intros x Hx. apply Hso. lia.
Qed.

Lemma grow_outcome (w : world) (lm : LinearMemory) (delta : Z)
    (Hinv : lm_inv w lm) (Hguard : 0 < lm_offset_guard_size lm)
    (Hdelta : 0 ≤ delta < 2 ^ 32) :
  ∃ w' lm' r, grow w lm delta = Ret (w', lm', r) ∧
  match r with
  | Some prev =>
      prev = lm_current lm ∧ grown w lm delta w' lm' ∧
      (0 < delta → lm_current lm' < WASM_MAX_PAGES ∧
         ∀ M, lm_maximum lm = Some M → lm_current lm' ≤ M)
  | None =>
      lm' = lm ∧ lm_inv w' lm ∧
      (∀ x, w_prot w x ≠ None → w_mem w' x = w_mem w x) ∧
      (∀ x, w_prot w x ≠ None → ¬ (lm_ptr lm ≤ x < lm_ptr lm + lm_len lm) →
         w_prot w' x = w_prot w x)
  end.
Proof.
  unfold grow. destruct (Z.eqb_spec delta 0) as [->|Hd0].
  { do 3 eexists. split; [done|]. split; [done|]. split; [|lia].
    split; try done; rewrite ?Z.add_0_r; try done; [lia|auto]. }
  assert (Hnone : lm_inv w lm ∧ (∀ x, w_prot w x ≠ None → w_mem w x = w_mem w x) ∧
    (∀ x, w_prot w x ≠ None → ¬ (lm_ptr lm ≤ x < lm_ptr lm + lm_len lm) →
       w_prot w x = w_prot w x)) by done.
  destruct (checked_add 32 (lm_current lm) delta) as [np|] eqn:Eadd;
    [|by do 3 eexists; split].
  apply checked_add_Some in Eadd as [-> Hr].
  destruct (match lm_maximum lm with Some m => m <? lm_current lm + delta | None => false end)
    eqn:Emax; [by do 3 eexists; split|].
  assert (HM : ∀ M, lm_maximum lm = Some M → lm_current lm + delta ≤ M).
  { intros M EM. rewrite EM in Emax. lia. }
  destruct (Z.leb_spec WASM_MAX_PAGES (lm_current lm + delta)) as [|Hmp];
    [by do 3 eexists; split|].
  pose proof Hinv as [Hc [Hg Hgp] Hca Hsh [Hp0 Hp1] Hpg Hmap Hacc Hz].
  assert (Hb : 0 ≤ lm_current lm * WASM_PAGE_SIZE ∧
    0 ≤ delta * WASM_PAGE_SIZE < 2 ^ 64 ∧ 0 ≤ lm_current lm * WASM_PAGE_SIZE < 2 ^ 64 ∧
    0 ≤ (lm_current lm + delta) * WASM_PAGE_SIZE < 2 ^ 64)
    by (unfold WASM_MAX_PAGES, WASM_PAGE_SIZE in *; lia).
  rewrite (op_mul_fits 64 delta), bind_Ret_l, (op_mul_fits 64 (lm_current lm)), bind_Ret_l,
    op_mul_fits, bind_Ret_l, op_sub_fits, bind_Ret_l by (unfold lm_capacity, lm_bytes in *; lia).
  change (lm_len lm - lm_offset_guard_size lm) with (lm_capacity lm).
  destruct (Z.ltb_spec (lm_capacity lm) ((lm_current lm + delta) * WASM_PAGE_SIZE)) as [Hlt|Hge].
  - destruct (checked_add 64 _ (lm_offset_guard_size lm)) as [rb|] eqn:Erb;
      [|by do 3 eexists; split].
    apply checked_add_Some in Erb as [-> Hrb].
    destruct (accessible_reserved_spec w ((lm_current lm + delta) * WASM_PAGE_SIZE)
      ((lm_current lm + delta) * WASM_PAGE_SIZE + lm_offset_guard_size lm))
      as (w1 & r & -> & Hres).
    { apply page_divides_wasm_pages. }
    { apply Z.divide_add_r; [apply page_divides_wasm_pages|done]. }
    { unfold WASM_PAGE_SIZE in *. lia. }
    rewrite bind_Ret_l. destruct r as [m|e].
    + destruct Hres as [Hlen Hf]. unfold slice_to.
      rewrite (proj2 (Z.leb_le (lm_capacity lm) (mm_len m))) by lia.
      rewrite (proj2 (Z.leb_le (lm_capacity lm) (lm_len lm))) by (unfold lm_capacity; lia).
      cbn [rassert]. rewrite !bind_Ret_l.
      destruct (grow_moves w lm m w1 delta) as (w3 & -> & Hgr); try done; [lia|].
      rewrite bind_Ret_l. do 3 eexists; split; [done|]. split; [done|]. split; [done|].
      intros _. cbn. by split.
    + do 3 eexists; split; [done|]. split; [done|]. split_and!.
      * split; try done; intros x Hx.
        -- destruct Hres as [_ ->]. by apply Hmap.
        -- destruct Hres as [_ ->]. by apply Hacc.
        -- destruct Hres as [Hres _]. destruct (Hres x) as [-> _]; [|by apply Hz]. apply Hmap.
           unfold lm_capacity, lm_bytes, WASM_PAGE_SIZE in *. lia.
      * intros x Hx. by apply Hres.
      * intros x Hx _. apply Hres.
  - rewrite (proj2 (Z.ltb_lt 0 _)) by (unfold WASM_PAGE_SIZE; lia).
    destruct (grow_in_place w lm delta) as (w' & r & Hma & Hres); try done;
      [lia|unfold lm_capacity in *; lia|].
    unfold lm_bytes in Hma. rewrite Hma, bind_Ret_l. destruct r as [[]|e].
    + do 3 eexists; split; [done|]. split; [done|]. split; [done|]. cbn. intros _. by split.
    + destruct Hres as (Hi & Hm & Hso). do 3 eexists; split; [done|]. split_and!; try done.
      intros x Hx Hout. by apply Hso.
Qed.

(** The limits of a memory. *)
Definition over_limits (lm : LinearMemory) (delta : Z) : Prop :=
  let new_pages := lm_current lm + delta in
  2 ^ 32 ≤ new_pages ∨ (∃ M, lm_maximum lm = Some M ∧ M < new_pages) ∨ WASM_MAX_PAGES ≤ new_pages ∨
  lm_capacity lm < new_pages * WASM_PAGE_SIZE ∧
    2 ^ 64 ≤ new_pages * WASM_PAGE_SIZE + lm_offset_guard_size lm.

(** The system refuses the pages: a larger mapping or the access to its pages when the
    memory has to move, and otherwise the access to the reserved pages. *)
Definition refused (w : world) (lm : LinearMemory) (delta : Z) : Prop :=
  let new_bytes := (lm_current lm + delta) * WASM_PAGE_SIZE in
  if lm_capacity lm <? new_bytes then
    match sys_mmap w (new_bytes + lm_offset_guard_size lm) ProtNone with
    | (_, None) => True
    | (w', Some ptr) => (sys_protect w' ptr new_bytes ReadWrite).2 = false
    end
  else (sys_protect w (lm_ptr lm + lm_bytes lm) (delta * WASM_PAGE_SIZE) ReadWrite).2 = false.

Lemma make_accessible_Err w m start len w' r :
  make_accessible w m start len = Ret (w', r) →
  sys_protect w (mm_ptr m + start) len ReadWrite = (w', match r with Ok _ => true | Err _ => false end).
Proof.
  unfold make_accessible. intros E. do 4 (apply bind_Ret in E as ([] & _ & E)).
  destruct (sys_protect _ _ _ _) as [w1 [|]]; by injection E as <- <-.
Qed.

Lemma accessible_reserved_Err w acc map w' r :
  0 < acc < map → accessible_reserved w acc map = Ret (w', r) →
  match sys_mmap w map ProtNone with
  | (_, None) => ∃ e, r = Err e
  | (w1, Some ptr) => (sys_protect w1 ptr acc ReadWrite).2 = match r with Ok _ => true | Err _ => false end
  end.
Proof.
  intros Ha. unfold accessible_reserved. intros E. do 3 (apply bind_Ret in E as ([] & _ & E)).
  rewrite (proj2 (Z.eqb_neq map 0)), (proj2 (Z.eqb_neq acc map)), (proj2 (Z.eqb_neq acc 0)) in E by lia.
  destruct (sys_mmap w map ProtNone) as [w1 [ptr|]]; [|injection E as _ <-; by eexists].
  apply bind_Ret in E as ([w2 r2] & E2 & E). apply make_accessible_Err in E2. cbn in E2.
  rewrite Z.add_0_r in E2. rewrite E2. destruct r2 as [[]|e]; [by injection E as _ <-|].
  apply bind_Ret in E as (w3 & _ & E). by injection E as _ <-.
Qed.

Lemma grow_fails w lm delta w' lm' r :
  lm_inv w lm → 0 < lm_offset_guard_size lm → 0 ≤ delta < 2 ^ 32 → grow w lm delta = Ret (w', lm', r) →
  (r = None ↔ 0 < delta ∧ (over_limits lm delta ∨ refused w lm delta)) ∧
  (0 < delta → over_limits lm delta → w' = w) ∧
  (r = None → ∀ x, w_prot w x ≠ None →
     ¬ (lm_ptr lm + lm_bytes lm ≤ x < lm_ptr lm + (lm_current lm + delta) * WASM_PAGE_SIZE) →
     w_prot w' x = w_prot w x).
Proof.
  intros Hinv Hg Hd. unfold grow. destruct (Z.eqb_spec delta 0) as [->|Hd0].
  { intros [= <- <- <-]. split_and!; [|done..]. split; [done|lia]. }
  assert (∀ P : Prop, (w, lm, @None Z) = (w', lm', r) → over_limits lm delta →
    (r = None ↔ 0 < delta ∧ (over_limits lm delta ∨ P)) ∧ (0 < delta → over_limits lm delta → w' = w) ∧
    (r = None → ∀ x, w_prot w x ≠ None →
       ¬ (lm_ptr lm + lm_bytes lm ≤ x < lm_ptr lm + (lm_current lm + delta) * WASM_PAGE_SIZE) →
       w_prot w' x = w_prot w x)) as Hlimit.
  { intros P [= <- <- <-] Ho. split_and!; [|done..]. split; [|done]. intros _. split; [lia|by left]. }
  destruct Hinv as [Hc [_ Hgp] Hca _ _ _ _ _ _].
  destruct (checked_add 32 (lm_current lm) delta) as [np|] eqn:Eadd.
  2:{ intros [= E1 E2 E3]. apply Hlimit; [congruence|]. left. apply (checked_add_None 32); [done|lia]. }
  apply checked_add_Some in Eadd as [-> Hr].
  destruct (match lm_maximum lm with Some m => m <? lm_current lm + delta | None => false end) eqn:Emax.
  { intros [= E1 E2 E3]. apply Hlimit; [congruence|]. right. left. destruct (lm_maximum lm) as [M|]; [|done].
    exists M. split; [done|lia]. }
  destruct (Z.leb_spec WASM_MAX_PAGES (lm_current lm + delta)) as [|Hmp].
  { intros [= E1 E2 E3]. apply Hlimit; [congruence|]. by do 2 right; left. }
  set (nb := (lm_current lm + delta) * WASM_PAGE_SIZE).
  assert (0 < nb) as Hnb by (unfold nb, WASM_PAGE_SIZE; lia).
  intros E. do 3 (apply bind_Ret in E as (? & [-> _]%op_mul_Ret & E)). apply bind_Ret in E as (? & [-> _]%op_sub_Ret & E).
  fold nb in E. change (lm_len lm - lm_offset_guard_size lm) with (lm_capacity lm) in E.
  assert (∀ e : bool, (lm_capacity lm < nb → nb + lm_offset_guard_size lm < 2 ^ 64) →
    (refused w lm delta ↔ e = false) → (r = None ↔ e = false) →
    (r = None ↔ 0 < delta ∧ (over_limits lm delta ∨ refused w lm delta)) ∧
    (0 < delta → over_limits lm delta → w' = w)) as Hfree.
  { intros e Hcap Href Hre. assert (¬ over_limits lm delta) as Hno.
    { intros [Ho|[(M & HM & Ho)|[Ho|[Ho1 Ho2]]]]; [lia|rewrite HM in Emax; lia|lia|]. fold nb in Ho1, Ho2. lia. }
    split; [|done]. rewrite Hre, Href. split; [intros ->; split; [lia|by right]|]. by intros [_ [?|?]]. }
  unfold refused in *. fold nb in Hfree |- *. destruct (Z.ltb_spec (lm_capacity lm) nb) as [Hlt|Hge].
  - destruct (checked_add 64 nb (lm_offset_guard_size lm)) as [rb|] eqn:Erb.
    2:{ injection E as E1 E2 E3. apply Hlimit; [congruence|]. do 3 right. split; [done|].
        apply (checked_add_None 64); [done|lia]. }
    apply checked_add_Some in Erb as [-> Hrb]. apply bind_Ret in E as ([w1 r1] & E1 & E).
    assert (0 < nb < nb + lm_offset_guard_size lm) as Hsz by lia.
    pose proof (accessible_reserved_Err _ _ _ _ _ Hsz E1) as Hm.
    destruct (accessible_reserved_spec w nb (nb + lm_offset_guard_size lm)) as (w2 & r2 & E2 & Hres).
    { apply page_divides_wasm_pages. } { apply Z.divide_add_r; [apply page_divides_wasm_pages|done]. } { lia. }
    rewrite E1 in E2. injection E2 as <- <-.
    destruct (sys_mmap w _ ProtNone) as [w3 [ptr|]]; [destruct r1 as [m|e]|destruct Hm as [e ->]].
    + do 2 (apply bind_Ret in E as ([] & _ & E)). apply bind_Ret in E as (w4 & _ & E). injection E as <- <- <-.
      rewrite Hm in *. destruct (Hfree true) as [? ?]; [lia|done|done|]. by split_and!.
    + injection E as <- <- <-. rewrite Hm in *. destruct (Hfree false) as [? ?]; [lia|done|done|].
      split_and!; [done..|]. intros _ x _ _. apply Hres.
    + injection E as <- <- <-. destruct (Hfree false) as [? ?]; [lia|done|done|].
      split_and!; [done..|]. intros _ x _ _. apply Hres.
  - rewrite (proj2 (Z.ltb_lt 0 _)) in E by (unfold WASM_PAGE_SIZE; lia). apply bind_Ret in E as ([w1 r1] & E1 & E).
    apply make_accessible_Err in E1. unfold lm_bytes in *. rewrite E1 in Hfree |- *. destruct r1 as [[]|e]; injection E as <- <- <-.
    + destruct (Hfree true) as [? ?]; [lia|done|done|]. by split_and!.
    + destruct (Hfree false) as [? ?]; [lia|done|done|]. split_and!; [done..|]. intros _ x _ Hx.
      destruct (protect_mem _ _ _ _ _ _ E1) as [Hso _]. apply Hso. unfold nb in *. lia.
Qed.

(** C1: growing a memory that satisfies the invariant and has a guard never panics.
    [grow] returns [None] exactly if the new size exceeds a limit (32 bits, the declared
    maximum, [WASM_MAX_PAGES], or 64 bits with the guard) or the system refuses the
    pages.  Then the memory and every mapped byte are as they were, with their
    protections but for those of the refused pages; over a limit, nothing at all has
    changed.  Otherwise it returns the previous number of pages, the first bytes of the
    (possibly moved) memory are those it had, the added pages are accessible and zero,
    the invariant holds again, and no mapped byte outside the memory has changed. *)
Theorem grow_spec (w : world) (lm : LinearMemory) (delta : Z)
    (Hinv : lm_inv w lm) (Hguard : 0 < lm_offset_guard_size lm)
    (Hdelta : 0 ≤ delta < 2 ^ 32) :
  ∃ w' lm' r, grow w lm delta = Ret (w', lm', r) ∧
  (r = None ↔ 0 < delta ∧ (over_limits lm delta ∨ refused w lm delta)) ∧
  match r with
  | Some prev => prev = lm_current lm ∧ grown w lm delta w' lm'
  | None =>
      lm' = lm ∧ lm_inv w' lm ∧
      (∀ x, w_prot w x ≠ None → w_mem w' x = w_mem w x) ∧
      (∀ x, w_prot w x ≠ None →
         ¬ (lm_ptr lm + lm_bytes lm ≤ x < lm_ptr lm + (lm_current lm + delta) * WASM_PAGE_SIZE) →
         w_prot w' x = w_prot w x) ∧
      (over_limits lm delta → w' = w)
  end.
Proof.
  destruct (grow_outcome w lm delta Hinv Hguard Hdelta) as (w' & lm' & r & E & Hr).
  destruct (grow_fails w lm delta w' lm' r Hinv Hguard Hdelta E) as (Hn & Hw & Hp).
  exists w', lm', r. split_and!; [done|done|]. destruct r as [prev|]; [by destruct Hr as (? & ? & _)|].
  destruct Hr as (? & ? & ? & _). destruct (proj1 Hn eq_refl) as [Hd _]. split_and!; [done..|by apply Hp|auto].
Qed.

(** Without a guard, growing a static memory up to the very end of its
    reservation panics: [Mmap::make_accessible] asserts that the range ends
    strictly before the end of the mapping, although its documentation only
    asks for a range within the reserved memory. *)
Theorem grow_to_end_panics (w : world) (lm : LinearMemory) (delta : Z)
    (Hinv : lm_inv w lm) (Hguard : lm_offset_guard_size lm = 0) (Hdelta : 0 < delta)
    (Hmax : ∀ M, lm_maximum lm = Some M → lm_current lm + delta ≤ M)
    (Hlim : lm_current lm + delta < WASM_MAX_PAGES)
    (Hend : (lm_current lm + delta) * WASM_PAGE_SIZE = lm_len lm) :
  grow w lm delta = Panic.
Proof.
  destruct Hinv as [Hc _ Hca _ [Hp0 Hp1] _ _ _ _].
  unfold grow, lm_bytes, lm_capacity, WASM_MAX_PAGES, WASM_PAGE_SIZE in *.
  rewrite (proj2 (Z.eqb_neq delta 0)) by lia.
  replace (checked_add 32 (lm_current lm) delta) with (Some (lm_current lm + delta))
    by (symmetry; apply checked_add_Some; lia).
  replace (match lm_maximum lm with Some m => m <? lm_current lm + delta | None => false end)
    with false by (destruct (lm_maximum lm); [symmetry; apply Z.ltb_ge; auto|done]).
  rewrite (proj2 (Z.leb_gt _ _)) by lia.
  rewrite (op_mul_fits 64 delta), bind_Ret_l, (op_mul_fits 64 (lm_current lm)), bind_Ret_l,
    op_mul_fits, bind_Ret_l, op_sub_fits, bind_Ret_l by lia.
  rewrite (proj2 (Z.ltb_ge _ _)), (proj2 (Z.ltb_lt 0 _)) by lia.
  apply bind_Panic. left. unfold make_accessible.
  rewrite !land_page_0 by apply page_divides_wasm_pages. cbn [rassert]. rewrite !bind_Ret_l.
  destruct (delta * 65536 <? lm_len lm); [|done]. cbn [rassert]. rewrite bind_Ret_l.
  by rewrite (proj2 (Z.ltb_ge _ _)) by lia.
Qed.

(** The length that the runtime stores in a [VMMemoryDefinition] is the
    number of bytes of the memory's current pages, and compiled code, which
    reads it as a field of [size_of_vmmemory_definition_current_length]
    bytes, gets that number exactly when the memory is smaller than
    [WASM_MAX_PAGES]: a memory created with that many pages reads as
    empty. *)
Theorem vmmemory_length_as_read (w : world) (lm : LinearMemory) (n : Z)
    (Hinv : lm_inv w lm) (Hn : size_of_vmmemory_definition_current_length = Ret n) :
  ∃ d, vmmemory lm = Ret d ∧ md_base d = lm_ptr lm ∧ md_current_length d = lm_bytes lm ∧
    wrap_u (8 * n) (md_current_length d) =
      (if lm_current lm <? WASM_MAX_PAGES then lm_bytes lm else 0).
Proof.
  destruct Hinv as [Hc _ _ _ _ _ _ _ _]. injection Hn as <-.
  unfold vmmemory, lm_bytes, WASM_MAX_PAGES, WASM_PAGE_SIZE, wrap_u in *.
  rewrite op_mul_fits by lia. eexists; split; [done|]. cbn [md_base md_current_length].
  split_and!; [done..|]. destruct (Z.ltb_spec (lm_current lm) 65536).
  - apply Z.mod_small. lia.
  - replace (lm_current lm) with 65536 by lia. reflexivity.
Qed.
End linear_memory.

(** ** A concrete system, for the witnesses

    It hands out the first of eight fixed areas whose bytes are free. *)
Fixpoint free_from (w : world) (a : Z) (n : nat) : bool :=
  match n with
  | O => true
  | S n => match w_prot w a with None => free_from w (a + 1) n | Some _ => false end
  end.
Definition range_free (w : world) (a n : Z) : bool := free_from w a (Z.to_nat n).

Definition set_prot (w : world) (a n : Z) (p : option prot) : Z → option prot :=
  λ x, if in_range a n x then p else w_prot w x.

#[local] Definition toy_areas : list Z := map (λ k, k * 2 ^ 40) (seqZ 1 8).

#[local] Instance toy_os : OS := {|
  page_size := 4096;
  sys_mmap w n p :=
    match list_find (λ a, Is_true (range_free w a n && (a + n <=? 2 ^ 64))) toy_areas with
    | Some (_, a) =>
        (mkWorld (λ x, if in_range a n x then 0 else w_mem w x) (set_prot w a n (Some p)), Some a)
    | None => (w, None)
    end;
  sys_protect w a n p := (mkWorld (w_mem w) (set_prot w a n (Some p)), true);
  sys_munmap w a n := (mkWorld (w_mem w) (set_prot w a n None), true);
|}.

Lemma range_free_spec w a n x : range_free w a n = true → a ≤ x < a + n → w_prot w x = None.
Proof.
  unfold range_free. intros H Hx. assert (x < a + Z.of_nat (Z.to_nat n)) as Hx2 by lia.
  assert (a ≤ x) as Hx1 by lia. clear Hx. revert a H Hx1 Hx2.
  induction (Z.to_nat n) as [|k IH]; intros a Hf H1 H2; [lia|]. cbn in Hf.
  destruct (w_prot w a) eqn:E; [done|]. destruct (decide (x = a)) as [->|]; [done|].
  apply (IH (a + 1)); [done|lia..].
Qed.

#[local] Instance toy_laws : OSLaws.
Proof.
  split; cbn.
  - exists 12. split; [lia|done].
  - intros w n p w' a Hn E.
    destruct (list_find _ toy_areas) as [[j b]|] eqn:El; [|discriminate].
    injection E as <- <-. apply list_find_Some in El as (Hj & Hf & _).
    apply Is_true_true, andb_true_iff in Hf as [Hf He%Z.leb_le].
    assert (0 < b ∧ b mod 4096 = 0) as [Hb Hm].
    { apply list_elem_of_lookup_2 in Hj. unfold toy_areas in Hj. cbn in Hj.
      repeat (apply elem_of_cons in Hj as [->|Hj]; [split; [lia|reflexivity]|]).
      by apply elem_of_nil in Hj. }
    split_and!; [done..| |].
    + intros x Hx. cbn. unfold set_prot. by rewrite (proj2 (in_range_false _ _ _)).
    + intros x Hx. cbn. unfold set_prot. rewrite (proj2 (in_range_true _ _ _)) by done.
      split_and!; [|done..]. by eapply range_free_spec.
  - intros w n p w' E. destruct (list_find _ toy_areas) as [[j b]|]; [discriminate|].
    by injection E as <-.
  - intros w a n p w' b [= <- <-]. split; [|done]. intros x Hx. cbn. unfold set_prot.
    by rewrite (proj2 (in_range_false _ _ _)).
  - intros w a n p w' [= <-] x Hx. cbn. unfold set_prot.
    by rewrite (proj2 (in_range_true _ _ _)).
  - intros w a n p w' b x [= <- <-]. cbn. unfold set_prot. case_match; auto.
  - intros w a n Hn Ha. eexists; split; [done|]. split; intros x Hx; cbn; unfold set_prot.
    + by rewrite (proj2 (in_range_false _ _ _)).
    + by rewrite (proj2 (in_range_true _ _ _)).
Qed.

Definition toy_world : world := mkWorld (λ _, 0) (λ _, None).

(** A static memory of one page with room for three, at [2^40]. *)
Definition toy_prot (x : Z) : option prot :=
  if in_range (2 ^ 40) 0x10000 x then Some ReadWrite
  else if in_range (2 ^ 40) 0x40000 x then Some ProtNone else None.
Definition toy_lm (guard len : Z) : LinearMemory :=
  mkLinearMemory (mkMmap (2 ^ 40) len) 1 (Some 3) guard true.

Lemma toy_lm_inv guard :
  guard = 0 ∨ guard = 0x10000 →
  lm_inv (mkWorld (λ _, 0) toy_prot) (toy_lm guard (0x30000 + guard)).
Proof.
  intros Hg. split; unfold lm_bytes, lm_capacity, WASM_PAGE_SIZE, WASM_MAX_PAGES; cbn -[Z.pow].
  - lia.
  - split; [lia|]. destruct Hg as [-> | ->]; [apply Z.divide_0_r|by exists 16].
  - lia.
  - right. exists 3. split; [done|lia].
  - lia.
  - by right.
  - intros x Hx. unfold toy_prot. case_match; [done|].
    by rewrite (proj2 (in_range_true _ _ _)) by lia.
  - intros x Hx. unfold toy_prot. by rewrite (proj2 (in_range_true _ _ _)) by lia.
  - done.
Qed.

Lemma round_up_to_page_size_spec_witness :
  ∃ r, round_up_to_page_size 4097 4096 = Ret r ∧ r = 8192.
Proof.
  destruct (round_up_to_page_size_spec (H := toy_os) 4097) as (r & Hr & _); [lia|cbn; lia|].
  exists r. split; [exact Hr|]. vm_compute in Hr. congruence.
Defined.

Definition toy_plan : MemoryPlan :=
  mkMemoryPlan (mkMemory 1 (Some 3) false) (Static 3) 0x10000.

Lemma LinearMemory_new_spec_witness :
  ∃ w' r, LinearMemory_new toy_world toy_plan = Ret (w', r) ∧ preserves toy_world w'.
Proof.
  destruct (LinearMemory_new_spec toy_world toy_plan) as (w' & r & E & Hp & _).
  - split; cbn; [unfold WASM_MAX_PAGES; lia| | |].
    + intros M [= <-]. unfold WASM_MAX_PAGES. lia.
    + split; [lia|]. by exists 16.
    + split; [lia|]. exists 3. split; [reflexivity|lia].
  - exists w', r. split; [exact E|exact Hp].
Defined.

Lemma grow_spec_witness :
  ∃ w' lm' r, grow (mkWorld (λ _, 0) toy_prot) (toy_lm 0x10000 0x40000) 2
    = Ret (w', lm', r) ∧ r = Some 1 ∧ lm_current lm' = 3.
Proof.
  destruct (grow_spec (mkWorld (λ _, 0) toy_prot) (toy_lm 0x10000 0x40000) 2)
    as (w' & lm' & r & E & Hr).
  - apply (toy_lm_inv 0x10000). right. reflexivity.
  - cbn. lia.
  - lia.
  - exists w', lm', r. split; [exact E|].
    assert (match grow (mkWorld (λ _, 0) toy_prot) (toy_lm 0x10000 0x40000) 2 with
            | Ret (_, lm', r) => (r, lm_current lm') | Panic => (None, 0) end = (Some 1, 3))
      as Hv by (vm_compute; reflexivity).
    rewrite E in Hv. injection Hv as -> ->. split; reflexivity.
Defined.

Lemma grow_to_end_panics_witness :
  grow (mkWorld (λ _, 0) toy_prot) (toy_lm 0 0x30000) 2 = Panic.
Proof.
  apply (grow_to_end_panics (mkWorld (λ _, 0) toy_prot) (toy_lm 0 0x30000) 2);
    try reflexivity.
  - apply (toy_lm_inv 0). left. reflexivity.
  - intros M [= <-]. cbn. lia.
Defined.

Lemma vmmemory_length_as_read_witness :
  ∃ d, vmmemory (toy_lm 0 0x30000) = Ret d ∧ wrap_u 32 (md_current_length d) = 65536.
Proof.
  destruct (vmmemory_length_as_read (mkWorld (λ _, 0) toy_prot) (toy_lm 0 0x30000) 4)
    as (d & E & _ & _ & Hd); [apply (toy_lm_inv 0); left; reflexivity|reflexivity|].
  exists d. split; [exact E|exact Hd].
Defined.
