(* ===== verification/VMContext.v ===== *)
(** * The structures compiled code shares with the runtime

    Models [wasmtime-runtime/src/vmcontext.rs] (the [repr(C)] structures, at
    64-bit pointers) and the part of [wasmtime-runtime/src/instance.rs] that
    reads and writes them at the offsets of [VMOffsets]. *)

From S2P Require Import Prelude Environ VMOffsets Store Registry Memory.
Local Open Scope Z_scope.

(** ** Values with a C representation

    [encode] gives the bytes of a value, [decode] reads them back; padding
    bytes are written as zero and ignored when read. *)
Class ReprC (A : Type) := {
  size_of : Z;
  valid : A → Prop;
  encode : A → list Z;
  decode : list Z → A;
}.
Arguments size_of A {_}.

Class ReprCLaws (A : Type) `{ReprC A} : Prop := {
  size_of_pos : 0 < size_of A;
  encode_len (a : A) : valid a → zlen (encode a) = size_of A;
  decode_encode (a : A) : valid a → decode (encode a) = a;
}.

(** [*(ptr as *const A)] *)
Definition load_val {A} `{ReprC A} (m : mem) (ptr : Z) : A :=
  decode (load_bytes m ptr (size_of A)).
(** [ptr::write(ptr, a)] *)
Definition ptr_write {A} `{ReprC A} (m : mem) (ptr : Z) (a : A) : mem :=
  store_bytes m ptr (encode a).
(** [ptr::copy(src.as_ptr(), dst, src.len())] from a slice with the values
    [src]. *)
Definition ptr_copy {A} `{ReprC A} (m : mem) (dst : Z) (src : list A) : mem :=
  store_bytes m dst (concat (map encode src)).

(** ** The structures *)

Definition u64 (x : Z) : Prop := 0 ≤ x < 2 ^ 64.
Definition u32 (x : Z) : Prop := 0 ≤ x < 2 ^ 32.

(** The [n] bytes at offset [i] of a structure, as an integer. *)
Definition field (bs : list Z) (i n : nat) : Z := le_val (take n (drop i bs)).

Record VMFunctionImport := mkVMFunctionImport { fi_body : Z; fi_vmctx : Z }.
#[export] Instance VMFunctionImport_repr : ReprC VMFunctionImport := {|
  size_of := 16; valid s := u64 (fi_body s) ∧ u64 (fi_vmctx s);
  encode s := le_bytes 8 (fi_body s) ++ le_bytes 8 (fi_vmctx s);
  decode bs := mkVMFunctionImport (field bs 0 8) (field bs 8 8) |}.

Record VMTableImport := mkVMTableImport { ti_from : Z; ti_vmctx : Z }.
#[export] Instance VMTableImport_repr : ReprC VMTableImport := {|
  size_of := 16; valid s := u64 (ti_from s) ∧ u64 (ti_vmctx s);
  encode s := le_bytes 8 (ti_from s) ++ le_bytes 8 (ti_vmctx s);
  decode bs := mkVMTableImport (field bs 0 8) (field bs 8 8) |}.

Record VMMemoryImport := mkVMMemoryImport { mi_from : Z; mi_vmctx : Z }.
#[export] Instance VMMemoryImport_repr : ReprC VMMemoryImport := {|
  size_of := 16; valid s := u64 (mi_from s) ∧ u64 (mi_vmctx s);
  encode s := le_bytes 8 (mi_from s) ++ le_bytes 8 (mi_vmctx s);
  decode bs := mkVMMemoryImport (field bs 0 8) (field bs 8 8) |}.

Record VMGlobalImport := mkVMGlobalImport { gi_from : Z }.
#[export] Instance VMGlobalImport_repr : ReprC VMGlobalImport := {|
  size_of := 8; valid s := u64 (gi_from s); encode s := le_bytes 8 (gi_from s);
  decode bs := mkVMGlobalImport (field bs 0 8) |}.

#[export] Instance VMMemoryDefinition_repr : ReprC VMMemoryDefinition := {|
  size_of := 16; valid s := u64 (md_base s) ∧ u64 (md_current_length s);
  encode s := le_bytes 8 (md_base s) ++ le_bytes 8 (md_current_length s);
  decode bs := mkVMMemoryDefinition (field bs 0 8) (field bs 8 8) |}.

(** [current_elements] is a [u32], followed by four bytes of padding. *)
Record VMTableDefinition := mkVMTableDefinition { td_base : Z; td_current_elements : Z }.
#[export] Instance VMTableDefinition_repr : ReprC VMTableDefinition := {|
  size_of := 16; valid s := u64 (td_base s) ∧ u32 (td_current_elements s);
  encode s := le_bytes 8 (td_base s) ++ le_bytes 4 (td_current_elements s) ++ le_bytes 4 0;
  decode bs := mkVMTableDefinition (field bs 0 8) (field bs 8 4) |}.

Record VMGlobalDefinition := mkVMGlobalDefinition { storage : list Z }.
#[export] Instance VMGlobalDefinition_repr : ReprC VMGlobalDefinition := {|
  size_of := 16; valid s := length (storage s) = 16%nat; encode s := storage s;
  decode bs := mkVMGlobalDefinition bs |}.
Definition VMGlobalDefinition_new : VMGlobalDefinition := mkVMGlobalDefinition (replicate 16 0).

Record VMSharedSignatureIndex := mkVMSharedSignatureIndex { ssi : Z }.
#[export] Instance VMSharedSignatureIndex_repr : ReprC VMSharedSignatureIndex := {|
  size_of := 4; valid s := u32 (ssi s); encode s := le_bytes 4 (ssi s);
  decode bs := mkVMSharedSignatureIndex (field bs 0 4) |}.
Definition VMSharedSignatureIndex_default : VMSharedSignatureIndex :=
  mkVMSharedSignatureIndex default_signature_index.

Record VMCallerCheckedAnyfunc := mkVMCallerCheckedAnyfunc {
  func_ptr : Z;
  type_index : VMSharedSignatureIndex;
  af_vmctx : Z;
}.
#[export] Instance VMCallerCheckedAnyfunc_repr : ReprC VMCallerCheckedAnyfunc := {|
  size_of := 24; valid s := u64 (func_ptr s) ∧ u32 (ssi (type_index s)) ∧ u64 (af_vmctx s);
  encode s := le_bytes 8 (func_ptr s) ++ le_bytes 4 (ssi (type_index s)) ++ le_bytes 4 0
                ++ le_bytes 8 (af_vmctx s);
  decode bs := mkVMCallerCheckedAnyfunc (field bs 0 8) (mkVMSharedSignatureIndex (field bs 8 4))
                 (field bs 16 8) |}.
Definition VMCallerCheckedAnyfunc_default : VMCallerCheckedAnyfunc :=
  mkVMCallerCheckedAnyfunc 0 VMSharedSignatureIndex_default 0.

(** The addresses of the library calls, in the order of their indices. *)
Record VMBuiltinFunctionsArray := mkVMBuiltinFunctionsArray { ptrs : list Z }.
#[export] Instance VMBuiltinFunctionsArray_repr : ReprC VMBuiltinFunctionsArray := {|
  size_of := 8 * builtin_functions_total_number;
  valid s := zlen (ptrs s) = builtin_functions_total_number ∧ Forall u64 (ptrs s);
  encode s := concat (map (le_bytes 8) (ptrs s));
  decode bs := mkVMBuiltinFunctionsArray
    (map (λ i, field bs (8 * i) 8) (seq 0 (Z.to_nat builtin_functions_total_number))) |}.

(** [VMBuiltinFunctionsArray::initialized]: [ptrs[index] = address]. *)
Record libcalls := mkLibcalls {
  wasmtime_memory32_grow_addr : Z;
  wasmtime_imported_memory32_grow_addr : Z;
  wasmtime_memory32_size_addr : Z;
  wasmtime_imported_memory32_size_addr : Z;
}.
Definition VMBuiltinFunctionsArray_initialized (l : libcalls) : res VMBuiltinFunctionsArray :=
  let p := replicate (Z.to_nat builtin_functions_total_number) 0 in
  p ← zset p get_memory32_grow_index (wasmtime_memory32_grow_addr l);
  p ← zset p get_imported_memory32_grow_index (wasmtime_imported_memory32_grow_addr l);
  p ← zset p get_memory32_size_index (wasmtime_memory32_size_addr l);
  p ← zset p get_imported_memory32_size_index (wasmtime_imported_memory32_size_addr l);
  Ret (mkVMBuiltinFunctionsArray p).

(** ** The laws of the representations *)

Lemma field_at b1 n v b2 i :
  i = length b1 → 0 ≤ v < 2 ^ (8 * Z.of_nat n) →
  field (b1 ++ le_bytes n v ++ b2) i n = v.
Proof.
  intros -> Hv. unfold field. rewrite drop_app_length, take_app_length' by (by rewrite length_le_bytes).
  rewrite le_val_bytes. by apply Z.mod_small.
Qed.

Lemma field_first n v b2 : 0 ≤ v < 2 ^ (8 * Z.of_nat n) → field (le_bytes n v ++ b2) 0 n = v.
Proof. apply (field_at [] n v b2 0). done. Qed.
Lemma field_last b1 n v i :
  i = length b1 → 0 ≤ v < 2 ^ (8 * Z.of_nat n) → field (b1 ++ le_bytes n v) i n = v.
Proof. intros. rewrite <-(app_nil_r (le_bytes n v)). by apply field_at. Qed.
Lemma field_only n v : 0 ≤ v < 2 ^ (8 * Z.of_nat n) → field (le_bytes n v) 0 n = v.
Proof. apply (field_last [] n v 0). done. Qed.

Ltac solve_repr :=
  split; [done|intros []; cbn; intros; unfold zlen; cbn; lia|];
  intros []; cbn -[field le_bytes]; unfold u64, u32; intros; destruct_and?; f_equal;
  (apply field_first || apply field_last || apply field_only || apply field_at);
  cbn; done || lia.

#[export] Instance VMFunctionImport_laws : ReprCLaws VMFunctionImport.
Proof. solve_repr. Qed.
#[export] Instance VMTableImport_laws : ReprCLaws VMTableImport.
Proof. solve_repr. Qed.
#[export] Instance VMMemoryImport_laws : ReprCLaws VMMemoryImport.
Proof. solve_repr. Qed.
#[export] Instance VMGlobalImport_laws : ReprCLaws VMGlobalImport.
Proof. solve_repr. Qed.
#[export] Instance VMMemoryDefinition_laws : ReprCLaws VMMemoryDefinition.
Proof. solve_repr. Qed.
#[export] Instance VMTableDefinition_laws : ReprCLaws VMTableDefinition.
Proof. solve_repr. Qed.
#[export] Instance VMSharedSignatureIndex_laws : ReprCLaws VMSharedSignatureIndex.
Proof. solve_repr. Qed.
#[export] Instance VMGlobalDefinition_laws : ReprCLaws VMGlobalDefinition.
Proof. split; [done|intros [s] H; unfold zlen; cbn in *; lia|by intros []]. Qed.
#[export] Instance VMCallerCheckedAnyfunc_laws : ReprCLaws VMCallerCheckedAnyfunc.
Proof.
  split; [done|intros []; cbn; intros; unfold zlen; cbn; lia|].
  intros [f [t] v]; cbn -[field le_bytes]; unfold u64, u32; intros (? & ? & ?).
  f_equal; [by apply field_first|f_equal; by apply field_at|].
  rewrite !app_assoc. by apply field_last.
Qed.
#[export] Instance VMBuiltinFunctionsArray_laws : ReprCLaws VMBuiltinFunctionsArray.
Proof.
  assert (Hlen : ∀ l : list Z, zlen l = 4 → ∃ a b c d, l = [a; b; c; d]).
  { intros [|a [|b [|c [|d [|]]]]]; unfold zlen; cbn; intros; try lia. by eauto. }
  split; [done| |].
  - intros [l] [Hl _]. apply Hlen in Hl as (a & b & c & d & E). cbn in E. subst. done.
  - intros [l] [Hl Hv]. apply Hlen in Hl as (a & b & c & d & E). cbn in E. subst.
    cbn in Hv. rewrite !Forall_cons in Hv. unfold u64 in Hv. destruct_and!.
    cbn -[field le_bytes]. f_equal.
    change (Z.to_nat builtin_functions_total_number) with 4%nat. cbn -[field le_bytes]. f_equal; [by apply field_first|].
    f_equal; [by apply field_at|]. rewrite (app_assoc (le_bytes 8 a)).
    f_equal; [by apply field_at|]. rewrite (app_assoc (_ ++ _) (le_bytes 8 c)).
    f_equal. by apply field_at.
Qed.

(** ** Arrays of values in memory *)

Lemma load_store_sub m a b1 b2 b3 :
  load_bytes (store_bytes m a (b1 ++ b2 ++ b3)) (a + zlen b1) (zlen b2) = b2.
Proof.
  etrans; [|apply (load_store_same m (a + zlen b1) b2)]. apply load_bytes_ext. intros i Hi.
  pose proof (zlen_nonneg b1). pose proof (zlen_nonneg b3).
  rewrite store_bytes_in by done. rewrite <-Z.add_assoc, store_bytes_in by (rewrite !zlen_app; lia).
  rewrite zget_app_r by lia. rewrite zget_app_l by lia. do 2 f_equal. lia.
Qed.

Section arrays.
Context {A} `{ReprCLaws A}.
Set Default Proof Using "Type*".

Lemma zlen_encodes (l : list A) :
  Forall valid l → zlen (concat (map encode l)) = zlen l * size_of A.
Proof.
  induction 1 as [|x l Hx _ IH]; [done|]. cbn. rewrite zlen_app, IH, zlen_cons, encode_len by done.
  lia.
Qed.

Lemma load_ptr_copy m dst (l : list A) i v :
  Forall valid l → zget l i = Some v →
  load_bytes (ptr_copy m dst l) (dst + i * size_of A) (size_of A) = encode v.
Proof.
  intros Hl Hi. unfold zget in Hi. destruct (Z.leb_spec 0 i); [|done].
  apply list_elem_of_split_length in Hi as (l1 & l2 & -> & Hlen).
  apply Forall_app in Hl as [Hl1 [Hv Hl2]%Forall_cons]. unfold ptr_copy.
  rewrite map_app, concat_app. cbn [map concat].
  replace (i * size_of A) with (zlen (concat (map encode l1)))
    by (rewrite zlen_encodes by done; unfold zlen; rewrite <-Hlen, Z2Nat.id by done; done).
  rewrite <-(encode_len v) by done. apply load_store_sub.
Qed.

Lemma load_ptr_write m p (v : A) : valid v → load_val (ptr_write m p v) p = v.
Proof.
  intros Hv. unfold load_val, ptr_write. rewrite <-(encode_len v) by done.
  rewrite load_store_same. by apply decode_encode.
Qed.

Lemma load_val_ext m m' p :
  (∀ x, p ≤ x < p + size_of A → m x = m' x) → load_val (A := A) m p = load_val m' p.
Proof. intros Hx. unfold load_val. f_equal. apply load_bytes_ext. intros. apply Hx. lia. Qed.
End arrays.

(** Several stores, each to its own range. *)
Definition stores (m : mem) (l : list (Z * list Z)) : mem :=
  fold_left (λ m '(a, bs), store_bytes m a bs) l m.

(** The ranges follow one another. *)
Definition in_sequence (l : list (Z * list Z)) : Prop :=
  ∀ i j a bs a' bs', (i < j)%nat → l !! i = Some (a, bs) → l !! j = Some (a', bs') →
    a + zlen bs ≤ a'.

Lemma stores_out l m x :
  (∀ a bs, (a, bs) ∈ l → ¬ (a ≤ x < a + zlen bs)) → stores m l x = m x.
Proof.
  revert m; induction l as [|[a bs] l IH]; intros m Hx; [done|].
  change (stores (store_bytes m a bs) l x = m x).
  rewrite (IH (store_bytes m a bs)); [|intros; apply Hx; by right].
  apply store_bytes_out, Hx. by left.
Qed.

Lemma stores_in l m k a bs x :
  in_sequence l → l !! k = Some (a, bs) → a ≤ x < a + zlen bs →
  stores m l x = store_bytes (λ _, 0) a bs x.
Proof.
  revert m k; induction l as [|[a0 bs0] l IH]; intros m k Hseq Hk Hx; [done|].
  change (stores (store_bytes m a0 bs0) l x = store_bytes (λ _, 0) a bs x).
  destruct k as [|k]; cbn in Hk; simplify_eq.
  - rewrite (stores_out l).
    + unfold store_bytes. by rewrite (proj2 (in_range_true _ _ _)).
    + intros a' bs' [j Hj]%list_elem_of_lookup. specialize (Hseq 0%nat (S j) _ _ _ _ ltac:(lia) eq_refl Hj).
      lia.
  - apply (IH (store_bytes m a0 bs0) k); [|done..]. intros i j a1 b1 a2 b2 Hij Hi Hj.
    apply (Hseq (S i) (S j) a1 b1 a2 b2); [lia|done..].
Qed.

(** ** Access at the offsets of [VMOffsets] ([instance.rs])

    [vmctx] is the address of the instance's [VMContext] field. *)
Section access.
Context (m : mem) (vmctx : Z) (offsets : VMOffsets).

Definition signature_id (index : Z) : res VMSharedSignatureIndex :=
  off ← vmctx_vmshared_signature_id offsets index; Ret (load_val m (vmctx + off)).
Definition imported_function (index : Z) : res VMFunctionImport :=
  off ← vmctx_vmfunction_import offsets index; Ret (load_val m (vmctx + off)).
Definition imported_table (index : Z) : res VMTableImport :=
  off ← vmctx_vmtable_import offsets index; Ret (load_val m (vmctx + off)).
Definition imported_memory (index : Z) : res VMMemoryImport :=
  off ← vmctx_vmmemory_import offsets index; Ret (load_val m (vmctx + off)).
Definition imported_global (index : Z) : res VMGlobalImport :=
  off ← vmctx_vmglobal_import offsets index; Ret (load_val m (vmctx + off)).
Definition table (index : Z) : res VMTableDefinition :=
  off ← vmctx_vmtable_definition offsets index; Ret (load_val m (vmctx + off)).
Definition memory (index : Z) : res VMMemoryDefinition :=
  off ← vmctx_vmmemory_definition offsets index; Ret (load_val m (vmctx + off)).
Definition global (index : Z) : res VMGlobalDefinition :=
  off ← vmctx_vmglobal_definition offsets index; Ret (load_val m (vmctx + off)).

(** The [_mut] accessors return the address. *)
Definition table_mut (index : Z) : res Z :=
  off ← vmctx_vmtable_definition offsets index; Ret (vmctx + off).
Definition memory_mut (index : Z) : res Z :=
  off ← vmctx_vmmemory_definition offsets index; Ret (vmctx + off).
Definition global_mut (index : Z) : res Z :=
  off ← vmctx_vmglobal_definition offsets index; Ret (vmctx + off).

(** The addresses of the arrays. *)
Definition signature_ids_ptr : res Z := b ← vmctx_signature_ids_begin; Ret (vmctx + b).
Definition imported_functions_ptr : res Z :=
  b ← vmctx_imported_functions_begin offsets; Ret (vmctx + b).
Definition imported_tables_ptr : res Z :=
  b ← vmctx_imported_tables_begin offsets; Ret (vmctx + b).
Definition imported_memories_ptr : res Z :=
  b ← vmctx_imported_memories_begin offsets; Ret (vmctx + b).
Definition imported_globals_ptr : res Z :=
  b ← vmctx_imported_globals_begin offsets; Ret (vmctx + b).
Definition tables_ptr : res Z := b ← vmctx_tables_begin offsets; Ret (vmctx + b).
Definition memories_ptr : res Z := b ← vmctx_memories_begin offsets; Ret (vmctx + b).
Definition globals_ptr : res Z := b ← vmctx_globals_begin offsets; Ret (vmctx + b).
Definition builtin_functions_ptr : res Z :=
  b ← vmctx_builtin_functions_begin offsets; Ret (vmctx + b).
End access.

(** What [InstanceHandle::new] copies into the context. *)
Record vmctx_contents := mkVmctxContents {
  c_signatures : list VMSharedSignatureIndex;
  c_functions : list VMFunctionImport;
  c_imported_tables : list VMTableImport;
  c_imported_memories : list VMMemoryImport;
  c_imported_globals : list VMGlobalImport;
  c_tables : list VMTableDefinition;
  c_memories : list VMMemoryDefinition;
  c_globals : list VMGlobalDefinition;
  c_builtins : VMBuiltinFunctionsArray;
}.

(** The [unsafe] block of [InstanceHandle::new] that fills the context. *)
Definition fill_vmctx (m : mem) (vmctx : Z) (o : VMOffsets) (c : vmctx_contents) : res mem :=
  p ← signature_ids_ptr vmctx; let m := ptr_copy m p (c_signatures c) in
  p ← imported_functions_ptr vmctx o; let m := ptr_copy m p (c_functions c) in
  p ← imported_tables_ptr vmctx o; let m := ptr_copy m p (c_imported_tables c) in
  p ← imported_memories_ptr vmctx o; let m := ptr_copy m p (c_imported_memories c) in
  p ← imported_globals_ptr vmctx o; let m := ptr_copy m p (c_imported_globals c) in
  p ← tables_ptr vmctx o; let m := ptr_copy m p (c_tables c) in
  p ← memories_ptr vmctx o; let m := ptr_copy m p (c_memories c) in
  p ← globals_ptr vmctx o; let m := ptr_copy m p (c_globals c) in
  p ← builtin_functions_ptr vmctx o; Ret (ptr_write m p (c_builtins c)).

(** The contents have values in range, and no array is longer than the
    offsets provide for. *)
Record contents_ok (o : VMOffsets) (c : vmctx_contents) : Prop := {
  co_valid : Forall valid (c_signatures c) ∧ Forall valid (c_functions c) ∧
    Forall valid (c_imported_tables c) ∧ Forall valid (c_imported_memories c) ∧
    Forall valid (c_imported_globals c) ∧ Forall valid (c_tables c) ∧
    Forall valid (c_memories c) ∧ Forall valid (c_globals c) ∧ valid (c_builtins c);
  co_len : zlen (c_signatures c) ≤ num_signature_ids o ∧
    zlen (c_functions c) ≤ num_imported_functions o ∧
    zlen (c_imported_tables c) ≤ num_imported_tables o ∧
    zlen (c_imported_memories c) ≤ num_imported_memories o ∧
    zlen (c_imported_globals c) ≤ num_imported_globals o ∧
    zlen (c_tables c) ≤ num_defined_tables o ∧ zlen (c_memories c) ≤ num_defined_memories o ∧
    zlen (c_globals c) ≤ num_defined_globals o;
}.

(** What the accessors of the runtime read from the context at [vmctx]. *)
Record holds (m' : mem) (vmctx : Z) (o : VMOffsets) (c : vmctx_contents) : Prop := {
  h_signatures i v : zget (c_signatures c) i = Some v → signature_id m' vmctx o i = Ret v;
  h_functions i v : zget (c_functions c) i = Some v → imported_function m' vmctx o i = Ret v;
  h_imported_tables i v : zget (c_imported_tables c) i = Some v → imported_table m' vmctx o i = Ret v;
  h_imported_memories i v :
    zget (c_imported_memories c) i = Some v → imported_memory m' vmctx o i = Ret v;
  h_imported_globals i v :
    zget (c_imported_globals c) i = Some v → imported_global m' vmctx o i = Ret v;
  h_tables i v : zget (c_tables c) i = Some v → table m' vmctx o i = Ret v;
  h_memories i v : zget (c_memories c) i = Some v → memory m' vmctx o i = Ret v;
  h_globals i v : zget (c_globals c) i = Some v → global m' vmctx o i = Ret v;
  h_builtins i v : zget (ptrs (c_builtins c)) i = Some v →
    ∃ off, vmctx_builtin_function o i = Ret off ∧ load_le m' (vmctx + off) 8 = v;
}.

(** The bytes of the [k]-th array. *)
Definition array_bytes (c : vmctx_contents) : list (list Z) :=
  [concat (map encode (c_signatures c)); concat (map encode (c_functions c));
   concat (map encode (c_imported_tables c)); concat (map encode (c_imported_memories c));
   concat (map encode (c_imported_globals c)); concat (map encode (c_tables c));
   concat (map encode (c_memories c)); concat (map encode (c_globals c));
   encode (c_builtins c)].

Definition array_stores (o : VMOffsets) (vmctx : Z) (c : vmctx_contents) : list (Z * list Z) :=
  imap (λ k bs, (vmctx + region_begin 0 (regions o) k, bs)) (array_bytes c).

Section readback.
Context (o : VMOffsets) (Hwf : wf_offsets o) (Hp : pointer_size o = 8).
Context (n : Z) (Hsize : size_of_vmctx o = Ret n).
Context (vmctx : Z) (c : vmctx_contents) (Hok : contents_ok o c).
Set Default Proof Using "Type*".

Lemma layout_fits : n = layout_size o ∧ layout_size o < 2 ^ 32.
Proof. rewrite size_of_vmctx_spec in Hsize by done. by apply fits32_Ret in Hsize. Qed.

Lemma begin_fits k :
  (k < 9)%nat → fits32 (region_begin 0 (regions o) k) = Ret (region_begin 0 (regions o) k).
Proof.
  intros Hk. apply fits32_Ret. split; [done|]. destruct layout_fits as [_ Hl].
  assert (is_Some (regions o !! k)) as [r Hr] by (apply lookup_lt_is_Some_2; done).
  destruct (region_in_layout o Hwf k r Hr) as (? & ? & ? & ?). nia.
Qed.

Lemma fill_vmctx_stores m : fill_vmctx m vmctx o c = Ret (stores m (array_stores o vmctx c)).
Proof.
  unfold fill_vmctx, signature_ids_ptr, imported_functions_ptr, imported_tables_ptr,
    imported_memories_ptr, imported_globals_ptr, tables_ptr, memories_ptr, globals_ptr,
    builtin_functions_ptr.
  rewrite (signature_ids_begin_spec o), imported_functions_begin_spec, imported_tables_begin_spec,
    imported_memories_begin_spec, imported_globals_begin_spec, tables_begin_spec,
    memories_begin_spec, globals_begin_spec, builtin_functions_begin_spec by done.
  rewrite !begin_fits by lia. reflexivity.
Qed.

Lemma array_bytes_fit k bs r :
  array_bytes c !! k = Some bs → regions o !! k = Some r → zlen bs ≤ r_count r * r_size r.
Proof.
  destruct Hok as [Hv Hl]. destruct_and! Hv. destruct_and! Hl.
  intros Hk Hr. unfold array_bytes, regions in *.
  destruct k as [|[|[|[|[|[|[|[|[|k]]]]]]]]]; cbn [lookup list_lookup] in Hk, Hr; simplify_eq;
    rewrite ?zlen_encodes by done; cbn [size_of r_count r_size VMSharedSignatureIndex_repr
      VMFunctionImport_repr VMTableImport_repr VMMemoryImport_repr VMGlobalImport_repr
      VMTableDefinition_repr VMMemoryDefinition_repr VMGlobalDefinition_repr]; try lia.
  rewrite encode_len, Hp by done. done.
Qed.

Lemma array_stores_lookup k a bs :
  array_stores o vmctx c !! k = Some (a, bs) ↔
  a = vmctx + region_begin 0 (regions o) k ∧ array_bytes c !! k = Some bs.
Proof.
  unfold array_stores. rewrite list_lookup_imap.
  destruct (array_bytes c !! k); cbn; naive_solver.
Qed.

Lemma array_bytes_region k bs :
  array_bytes c !! k = Some bs → ∃ r, regions o !! k = Some r.
Proof. intros Hk%lookup_lt_Some. apply lookup_lt_is_Some_2. exact Hk. Qed.

Lemma array_stores_seq : in_sequence (array_stores o vmctx c).
Proof.
  intros i j a bs a' bs' Hij [-> Hi]%array_stores_lookup [-> Hj]%array_stores_lookup.
  destruct (array_bytes_region _ _ Hi) as [r Hr].
  pose proof (array_bytes_fit _ _ _ Hi Hr). pose proof (region_order o Hwf i j r Hr Hij). lia.
Qed.

(** The [i]-th value of the [k]-th array is found at its element offset. *)
Lemma stores_element {A} `{ReprCLaws A} m k r (l : list A) i v :
  array_bytes c !! k = Some (concat (map encode l)) → Forall valid l →
  regions o !! k = Some r → r_size r = size_of A → zget l i = Some v →
  ∃ off, element_offset o k i = Ret off ∧
    load_bytes (stores m (array_stores o vmctx c)) (vmctx + off) (size_of A) = encode v.
Proof.
  intros Hk Hl Hr Hs Hi. pose proof (zget_Some_lt _ _ _ Hi) as Hlt.
  pose proof (array_bytes_fit _ _ _ Hk Hr) as Hfit. rewrite zlen_encodes, Hs in Hfit by done.
  pose proof (@size_of_pos A _ _) as Hsp. destruct layout_fits as [_ Hlay].
  rewrite (element_offset_spec o Hwf k r i) by (done || nia). eexists; split; [done|].
  rewrite <-(load_ptr_copy (λ _, 0) (vmctx + region_begin 0 (regions o) k) l i v) by done.
  rewrite Z.add_assoc, Hs. apply load_bytes_ext. intros x Hx.
  apply (stores_in _ m k); [apply array_stores_seq|by apply array_stores_lookup|].
  rewrite zlen_encodes by done. nia.
Qed.

Lemma stores_builtins m i p :
  zget (ptrs (c_builtins c)) i = Some p →
  ∃ off, vmctx_builtin_function o i = Ret off ∧
    load_le (stores m (array_stores o vmctx c)) (vmctx + off) 8 = p.
Proof.
  intros Hi. destruct Hok as [Hv _]. destruct Hv as (_ & _ & _ & _ & _ & _ & _ & _ & Hv).
  destruct Hv as [Hlen Hv]. pose proof (zget_Some_lt _ _ _ Hi) as Hlt. rewrite Hlen in Hlt.
  destruct layout_fits as [_ Hlay].
  rewrite (element_offset_spec o Hwf 8 _ i eq_refl Hlay Hlt : vmctx_builtin_function o i = _).
  eexists; split; [done|]. cbn [r_size]. rewrite Hp.
  assert (Hbs : encode (c_builtins c) = concat (map (λ z, le_bytes 8 z) (ptrs (c_builtins c)))) by done.
  set (l := map mkVMGlobalImport (ptrs (c_builtins c))).
  assert (Henc : encode (c_builtins c) = concat (map encode l)).
  { rewrite Hbs. unfold l. by rewrite map_map. }
  assert (Hl : Forall valid l) by (unfold l; apply Forall_map; exact Hv).
  assert (Hget : zget l i = Some (mkVMGlobalImport p)).
  { unfold zget, l in *. case_match; [|done]. rewrite list_lookup_fmap, Hi. done. }
  pose proof (load_ptr_copy (λ _, 0) (vmctx + region_begin 0 (regions o) 8) l i _ Hl Hget) as Hload.
  apply (f_equal le_val) in Hload. unfold ptr_copy in Hload. rewrite <-Henc in Hload.
  assert (Hp64 : u64 p).
  { by eapply zget_Forall. }
  cbn [encode VMGlobalImport_repr gi_from] in Hload. rewrite le_val_bytes, Z.mod_small in Hload by done.
  rewrite <-Hload.
  unfold load_le. f_equal. rewrite Z.add_assoc. apply load_bytes_ext. intros x Hx.
  change (size_of VMGlobalImport) with 8.
  apply (stores_in _ m 8%nat); [apply array_stores_seq|by apply array_stores_lookup|].
  rewrite Henc, zlen_encodes by done. change (size_of VMGlobalImport) with 8.
  replace (zlen l) with 4 by (unfold l, zlen in *; rewrite length_map, Hlen; done).
  unfold builtin_functions_total_number in *. cbn in Hx. lia.
Qed.

Ltac read_array m k Hsize Hget :=
  let off := fresh "off" in let Ho := fresh "Ho" in let Hl := fresh "Hl" in
  destruct (stores_element m k _ _ _ _ eq_refl ltac:(done) eq_refl Hsize Hget)
    as (off & Ho & Hl);
  cbn [element_offset] in Ho; rewrite Ho, bind_Ret_l; unfold load_val; rewrite Hl;
  f_equal; apply decode_encode; by eapply zget_Forall.

Lemma stores_frame m x :
  ¬ (vmctx ≤ x < vmctx + n) → stores m (array_stores o vmctx c) x = m x.
Proof.
  intros Hx. apply stores_out. intros a bs [k [-> Hk]%array_stores_lookup]%list_elem_of_lookup.
  destruct (array_bytes_region _ _ Hk) as [r Hr]. pose proof (array_bytes_fit _ _ _ Hk Hr).
  destruct (region_in_layout o Hwf k r Hr) as (? & ? & ? & ?). destruct layout_fits as [-> _].
  lia.
Qed.

Lemma fill_vmctx_holds m :
  ∃ m', fill_vmctx m vmctx o c = Ret m' ∧ holds m' vmctx o c ∧
    ∀ x, ¬ (vmctx ≤ x < vmctx + n) → m' x = m x.
Proof.
  eexists. split; [apply fill_vmctx_stores|]. pose proof Hok as [Hv _]. destruct_and! Hv.
  assert (H2p : 2 * pointer_size o = 16) by (rewrite Hp; done).
  split; [|intros; by apply stores_frame].
  split; [..|intros i v Hi; by apply stores_builtins]; intros i v Hi; unfold signature_id, imported_function, imported_table, imported_memory,
      imported_global, table, memory, global.
  - read_array m 0%nat (eq_refl 4) Hi.
  - read_array m 1%nat H2p Hi.
  - read_array m 2%nat H2p Hi.
  - read_array m 3%nat H2p Hi.
  - read_array m 4%nat Hp Hi.
  - read_array m 5%nat H2p Hi.
  - read_array m 6%nat H2p Hi.
  - read_array m 7%nat (eq_refl 16) Hi.
Qed.

(** C22: after [InstanceHandle::new] has filled a context, every accessor of
    the runtime returns, for every index, exactly the value that was copied
    for it -- signature ids, the four kinds of imports, the table, memory
    and global definitions and the library calls -- and no byte outside the
    [size_of_vmctx] bytes of the context has changed. *)
Theorem fill_vmctx_readback (m : mem) :
  ∃ m', fill_vmctx m vmctx o c = Ret m' ∧
  (∀ i v, zget (c_signatures c) i = Some v → signature_id m' vmctx o i = Ret v) ∧
  (∀ i v, zget (c_functions c) i = Some v → imported_function m' vmctx o i = Ret v) ∧
  (∀ i v, zget (c_imported_tables c) i = Some v → imported_table m' vmctx o i = Ret v) ∧
  (∀ i v, zget (c_imported_memories c) i = Some v → imported_memory m' vmctx o i = Ret v) ∧
  (∀ i v, zget (c_imported_globals c) i = Some v → imported_global m' vmctx o i = Ret v) ∧
  (∀ i v, zget (c_tables c) i = Some v → table m' vmctx o i = Ret v) ∧
  (∀ i v, zget (c_memories c) i = Some v → memory m' vmctx o i = Ret v) ∧
  (∀ i v, zget (c_globals c) i = Some v → global m' vmctx o i = Ret v) ∧
  (∀ i v, zget (ptrs (c_builtins c)) i = Some v →
     ∃ off, vmctx_builtin_function o i = Ret off ∧ load_le m' (vmctx + off) 8 = v) ∧
  (∀ x, ¬ (vmctx ≤ x < vmctx + n) → m' x = m x).
Proof.
  destruct (fill_vmctx_holds m) as (m' & E & [] & Hf). exists m'. by split_and!.
Qed.

(** *** The view of compiled code

    Compiled code loads single fields, at the offsets that [VMOffsets] has
    for them. *)
Lemma field_load m p k i w :
  Z.of_nat i + Z.of_nat w ≤ k → field (load_bytes m p k) i w = load_le m (p + Z.of_nat i) w.
Proof.
  intros Hk. unfold field, load_le. f_equal. apply list_eq. intros j.
  destruct (decide (j < w)%nat) as [Hj|Hj].
  - rewrite lookup_take_lt, lookup_drop by done.
    replace (i + j)%nat with (Z.to_nat (Z.of_nat (i + j))) by lia.
    rewrite load_bytes_lookup by lia. replace j with (Z.to_nat (Z.of_nat j)) at 2 by lia.
    rewrite load_bytes_lookup by lia. do 2 f_equal. lia.
  - rewrite lookup_take_ge by lia. symmetry. apply lookup_ge_None_2.
    unfold load_bytes. rewrite length_map, length_seqZ. lia.
Qed.

Lemma element_field {A} `{ReprCLaws A} m k r (l : list A) i v f w :
  array_bytes c !! k = Some (concat (map encode l)) → Forall valid l →
  regions o !! k = Some r → r_size r = size_of A → zget l i = Some v →
  Z.of_nat f + Z.of_nat w ≤ size_of A →
  ∃ off, field_of (element_offset o k i) (Ret (Z.of_nat f)) = Ret off ∧
    load_le (stores m (array_stores o vmctx c)) (vmctx + off) w =
    field (load_bytes (stores m (array_stores o vmctx c)) (vmctx + off - Z.of_nat f) (size_of A)) f w ∧
    load_bytes (stores m (array_stores o vmctx c)) (vmctx + off - Z.of_nat f) (size_of A)
      = encode v ∧ decode (encode v) = v.
Proof.
  intros Hk Hl Hr Hs Hi Hf. pose proof (zget_Some_lt _ _ _ Hi) as Hlt.
  destruct (stores_element m k r l i v Hk Hl Hr Hs Hi) as (off & Ho & Hv).
  pose proof (array_bytes_fit _ _ _ Hk Hr) as Hfit. rewrite zlen_encodes in Hfit by done.
  destruct layout_fits as [_ Hlay]. destruct (region_in_layout o Hwf k r Hr) as (Hb & Hc & _ & Hin).
  pose proof (@size_of_pos A _ _) as Hsp.
  assert (off = region_begin 0 (regions o) k + i * r_size r) as ->.
  { apply (inj (@Ret Z)). rewrite <-Ho. apply element_offset_spec; done || nia. }
  revert Hb Hin Ho Hv. generalize (region_begin 0 (regions o) k) as b.
  intros b Hb Hin Ho Hv. unfold field_of. rewrite Ho, !bind_Ret_l, Hs.
  assert (0 ≤ b + i * size_of A + Z.of_nat f < 2 ^ 32) as Hrange by nia.
  unfold checked_add. rewrite (proj2 (in_u_spec 32 _) Hrange). eexists; split; [done|].
  replace (vmctx + (b + i * size_of A + Z.of_nat f) - Z.of_nat f)
    with (vmctx + (b + i * r_size r)) by (rewrite Hs; lia).
  split_and!; [|exact Hv|].
  - rewrite field_load by done. f_equal. rewrite Hs. lia.
  - apply decode_encode. by eapply zget_Forall.
Qed.

Lemma memory_length_read m i v :
  2 * pointer_size o = 16 → zget (c_memories c) i = Some v →
  ∃ off, field_of (vmctx_vmmemory_definition o i) (Ret (Z.of_nat 8)) = Ret off ∧
    load_le (stores m (array_stores o vmctx c)) (vmctx + off) 4 = wrap_u 32 (md_current_length v).
Proof.
  intros H2p Hi. pose proof Hok as [Hv _]. destruct_and! Hv.
  destruct (element_field m 6 _ _ _ _ 8 4 eq_refl ltac:(done) eq_refl H2p Hi ltac:(cbn; lia))
    as (off & Ho & Hl & He & _).
  cbn [element_offset] in Ho. rewrite Ho. eexists; split; [done|]. rewrite Hl, He.
  exact (le_val_bytes 4 (md_current_length v)).
Qed.

Ltac read_field m k Hsize Hget f w :=
  let off := fresh "off" in let Ho := fresh "Ho" in let Hl := fresh "Hl" in
  destruct (element_field m k _ _ _ _ f w eq_refl ltac:(done) eq_refl Hsize Hget ltac:(cbn; lia))
    as (off & Ho & Hl & He & Hd);
  cbn [element_offset] in Ho; rewrite Ho; eexists; split; [done|];
  rewrite <-Hd, <-He; exact Hl.

(** The fields of an element of a table, at the offsets of [VMOffsets]. *)
Lemma anyfunc_offsets_read (m : mem) (p : Z) (f : VMCallerCheckedAnyfunc) :
  valid f →
  let reads off w v := ∃ a, off = Ret a ∧ load_le (ptr_write m p f) (p + a) w = v in
  reads (vmcaller_checked_anyfunc_func_ptr o) 8%nat (func_ptr f) ∧
  reads (vmcaller_checked_anyfunc_type_index o) 4%nat (ssi (type_index f)) ∧
  reads (vmcaller_checked_anyfunc_vmctx o) 8%nat (af_vmctx f).
Proof.
  intros Hf. cbv zeta. unfold vmcaller_checked_anyfunc_func_ptr, vmcaller_checked_anyfunc_type_index,
    vmcaller_checked_anyfunc_vmctx. rewrite Hp.
  pose proof (load_ptr_write m p f Hf) as E. unfold load_val in E. cbn in E.
  rewrite !field_load in E by (cbn; lia). destruct f as [fp [ti] vm]. injection E as E1 E2 E3.
  split_and!; eexists; (split; [reflexivity|done]).
Qed.

(** C33: what compiled code reads from a filled context: at each field offset
    that [VMOffsets] computes, the field of the structure that was copied
    there -- the signature ids, the body and context of an imported function,
    the pointers of imported tables, memories and globals with the contexts
    of the tables and memories, the base and element count of a table, and
    the base of a memory.  Of the length of a memory, a [usize], compiled
    code loads the low 32 bits only: the length where it is below 2^32, but 0
    for a memory of 65536 pages.  The offsets for the elements of tables read
    the three fields of an element that has been written. *)
Theorem compiled_code_reads (m : mem) :
  ∃ m', fill_vmctx m vmctx o c = Ret m' ∧
  let reads off w v := ∃ a, off = Ret a ∧ load_le m' (vmctx + a) w = v in
  (∀ i v, zget (c_signatures c) i = Some v → reads (vmctx_vmshared_signature_id o i) 4%nat (ssi v)) ∧
  (∀ i v, zget (c_functions c) i = Some v →
     reads (vmctx_vmfunction_import_body o i) 8%nat (fi_body v) ∧
     reads (vmctx_vmfunction_import_vmctx o i) 8%nat (fi_vmctx v)) ∧
  (∀ i v, zget (c_imported_tables c) i = Some v →
     reads (vmctx_vmtable_import_from o i) 8%nat (ti_from v) ∧
     reads (field_of (vmctx_vmtable_import o i) (vmtable_import_vmctx o)) 8%nat (ti_vmctx v)) ∧
  (∀ i v, zget (c_imported_memories c) i = Some v →
     reads (vmctx_vmmemory_import_from o i) 8%nat (mi_from v) ∧
     reads (vmctx_vmmemory_import_vmctx o i) 8%nat (mi_vmctx v)) ∧
  (∀ i v, zget (c_imported_globals c) i = Some v →
     reads (vmctx_vmglobal_import_from o i) 8%nat (gi_from v)) ∧
  (∀ i v, zget (c_tables c) i = Some v →
     reads (vmctx_vmtable_definition_base o i) 8%nat (td_base v) ∧
     reads (vmctx_vmtable_definition_current_elements o i) 4%nat (td_current_elements v)) ∧
  (∀ i v, zget (c_memories c) i = Some v →
     reads (vmctx_vmmemory_definition_base o i) 8%nat (md_base v) ∧
     reads (vmctx_vmmemory_definition_current_length o i) 4%nat
       (wrap_u 32 (md_current_length v)) ∧
     (reads (vmctx_vmmemory_definition_current_length o i) 4%nat (md_current_length v) ↔
        md_current_length v < 2 ^ 32)) ∧
  (∀ m p f, valid f →
     let reads off w v := ∃ a, off = Ret a ∧ load_le (ptr_write m p f) (p + a) w = v in
     reads (vmcaller_checked_anyfunc_func_ptr o) 8%nat (func_ptr f) ∧
     reads (vmcaller_checked_anyfunc_type_index o) 4%nat (ssi (type_index f)) ∧
     reads (vmcaller_checked_anyfunc_vmctx o) 8%nat (af_vmctx f)).
Proof.
  eexists. split; [apply fill_vmctx_stores|]. cbv zeta. pose proof Hok as [Hv _]. destruct_and! Hv.
  assert (H2p : 2 * pointer_size o = 16) by (rewrite Hp; done).
  unfold vmctx_vmfunction_import_body, vmctx_vmfunction_import_vmctx, vmctx_vmtable_import_from,
    vmctx_vmmemory_import_from, vmctx_vmmemory_import_vmctx, vmctx_vmglobal_import_from,
    vmctx_vmtable_definition_base, vmctx_vmtable_definition_current_elements,
    vmctx_vmmemory_definition_base, vmctx_vmmemory_definition_current_length,
    vmfunction_import_body, vmfunction_import_vmctx, vmtable_import_from, vmtable_import_vmctx,
    vmmemory_import_from, vmmemory_import_vmctx, vmglobal_import_from,
    vmtable_definition_base, vmtable_definition_current_elements,
    vmmemory_definition_base, vmmemory_definition_current_length.
  rewrite Hp. change (op_mul 8 0 8) with (Ret (Z.of_nat 0)).
  change (op_mul 8 1 8) with (Ret (Z.of_nat 8)).
  split_and!; [intros i v Hi; split_and?..|by apply anyfunc_offsets_read].
  - destruct (stores_element m 0 _ _ _ _ eq_refl ltac:(done) eq_refl (eq_refl 4) Hi) as (off & Ho & Hl).
    cbn [element_offset] in Ho. rewrite Ho. eexists; split; [done|]. unfold load_le.
    change (Z.of_nat 4) with (size_of VMSharedSignatureIndex). rewrite Hl.
    transitivity (ssi v mod 2 ^ 32); [exact (le_val_bytes 4 (ssi v))|]. apply Z.mod_small.
    by apply (zget_Forall _ _ _ _ H Hi).
  - read_field m 1%nat H2p Hi 0%nat 8%nat.
  - read_field m 1%nat H2p Hi 8%nat 8%nat.
  - read_field m 2%nat H2p Hi 0%nat 8%nat.
  - read_field m 2%nat H2p Hi 8%nat 8%nat.
  - read_field m 3%nat H2p Hi 0%nat 8%nat.
  - read_field m 3%nat H2p Hi 8%nat 8%nat.
  - read_field m 4%nat Hp Hi 0%nat 8%nat.
  - read_field m 5%nat H2p Hi 0%nat 8%nat.
  - read_field m 5%nat H2p Hi 8%nat 4%nat.
  - read_field m 6%nat H2p Hi 0%nat 8%nat.
  - destruct (memory_length_read m i v H2p Hi) as (off & -> & E). by exists off.
  - destruct (memory_length_read m i v H2p Hi) as (off & -> & E).
    assert (Hv : 0 ≤ md_current_length v) by (eapply (zget_Forall _ _ _ _ H5) in Hi; apply Hi).
    split.
    + intros (a & [= <-] & E'). rewrite E in E'. rewrite <-E'. apply Z.mod_pos_bound. lia.
    + intros Hlt. exists off. split; [done|]. rewrite E. apply Z.mod_small. lia.
Qed.
End readback.

Definition ex_contents : vmctx_contents := mkVmctxContents
  (map mkVMSharedSignatureIndex [5; 7; 0])
  [mkVMFunctionImport 0x1000 0x2000; mkVMFunctionImport 0x1100 0x2000]
  [mkVMTableImport 0x3000 0x2000] [] [mkVMGlobalImport 0x3100]
  [mkVMTableDefinition 0x4000 10; mkVMTableDefinition 0x4100 0]
  [mkVMMemoryDefinition 0x5000 65536]
  [VMGlobalDefinition_new; mkVMGlobalDefinition (seqZ 1 16)]
  (mkVMBuiltinFunctionsArray [0x10; 0x20; 0x30; 0x40]).

Lemma ex_contents_ok : contents_ok ex_offsets ex_contents.
Proof.
  split; cbn; unfold zlen; cbn; [|lia].
  split_and!; repeat constructor; cbn; unfold u64, u32; lia.
Qed.

Lemma fill_vmctx_readback_witness :
  ∃ m', fill_vmctx (λ _, 0) 0x9000 ex_offsets ex_contents = Ret m' ∧
    memory m' 0x9000 ex_offsets 0 = Ret (mkVMMemoryDefinition 0x5000 65536) ∧
    imported_function m' 0x9000 ex_offsets 1 = Ret (mkVMFunctionImport 0x1100 0x2000).
Proof.
  destruct (fill_vmctx_readback ex_offsets ex_offsets_wf eq_refl 208 eq_refl 0x9000 ex_contents
    ex_contents_ok (λ _, 0)) as (m' & E & _ & Hf & _ & _ & _ & _ & Hm & _).
  exists m'. split; [exact E|]. split; [apply Hm; reflexivity|apply Hf; reflexivity].
Defined.

Lemma compiled_code_reads_witness :
  ∃ m' a, fill_vmctx (λ _, 0) 0x9000 ex_offsets ex_contents = Ret m' ∧
    vmctx_vmfunction_import_vmctx ex_offsets 1 = Ret a ∧ load_le m' (0x9000 + a) 8 = 0x2000.
Proof.
  destruct (compiled_code_reads ex_offsets ex_offsets_wf eq_refl 208 eq_refl 0x9000 ex_contents
    ex_contents_ok (λ _, 0)) as (m' & E & _ & Hf & _).
  destruct (Hf 1 _ eq_refl) as [_ (a & Ha & Hv)].
  exists m', a. split; [exact E|]. split; [exact Ha|exact Hv].
Defined.
