(* ===== verification/Table.v ===== *)
(** * Tables

    Models [wasmtime-runtime/src/table.rs].  The elements are the values of
    the table's [Vec]; the address of the [Vec]'s buffer is chosen by the
    allocator and is an argument of the operations that (re)allocate. *)

From S2P Require Import Prelude Environ VMOffsets Store Registry Memory VMContext.
Local Open Scope Z_scope.

Record TableInstance := mkTableInstance {
  vec_ptr : Z;
  vec : list VMCallerCheckedAnyfunc;
  tb_maximum : option Z;
}.

Definition Table_new (ptr : Z) (plan : TablePlan) : res TableInstance :=
  _ ← match table_ty (plan_table plan) with
      | Func => Ret tt
      | Val _ => Panic
      end;
  match table_style plan with
  | CallerChecksSignature =>
      len ← unwrap (try_from_u 64 (table_minimum (plan_table plan)));
      Ret (mkTableInstance ptr (replicate (Z.to_nat len) VMCallerCheckedAnyfunc_default)
             (table_maximum (plan_table plan)))
  end.

Definition table_size (self : TableInstance) : res Z := unwrap (try_from_u 32 (zlen (vec self))).

(** [Vec::resize] *)
Definition resize {A} (l : list A) (new_len : Z) (x : A) : list A :=
  take (Z.to_nat new_len) l ++ replicate (Z.to_nat (new_len - zlen l)) x.

Definition Table_grow (ptr : Z) (self : TableInstance) (delta : Z)
    : res (TableInstance * option Z) :=
  size ← table_size self;
  match checked_add 32 size delta with
  | None => Ret (self, None)
  | Some len =>
      if match tb_maximum self with Some max => max <? len | None => false end
      then Ret (self, None)
      else
        new_len ← unwrap (try_from_u 64 len);
        Ret (mkTableInstance ptr (resize (vec self) new_len VMCallerCheckedAnyfunc_default)
               (tb_maximum self), Some len)
  end.

Definition Table_get (self : TableInstance) (index : Z) : option VMCallerCheckedAnyfunc :=
  zget (vec self) index.

(** Writing through the reference that [get_mut] returns. *)
Definition Table_set (self : TableInstance) (index : Z) (v : VMCallerCheckedAnyfunc)
    : option TableInstance :=
  match zset (vec self) index v with
  | Ret l => Some (mkTableInstance (vec_ptr self) l (tb_maximum self))
  | Panic => None
  end.

Definition vmtable (self : TableInstance) : res VMTableDefinition :=
  len ← unwrap (try_from_u 32 (zlen (vec self)));
  Ret (mkVMTableDefinition (vec_ptr self) len).

(** ** What a table promises *)

Record table_inv (t : TableInstance) : Prop := {
  tbi_len : zlen (vec t) < 2 ^ 32;
  tbi_max : ∀ M, tb_maximum t = Some M → zlen (vec t) ≤ M;
  tbi_ptr : u64 (vec_ptr t);
}.

Lemma zlen_replicate {A} n (x : A) : 0 ≤ n → zlen (replicate (Z.to_nat n) x) = n.
Proof. intros. unfold zlen. rewrite length_replicate. lia. Qed.

Lemma zlen_resize {A} (l : list A) n x : 0 ≤ n → zlen (resize l n x) = n.
Proof. intros. unfold resize, zlen. rewrite length_app, length_take, length_replicate. lia. Qed.

Lemma zget_resize {A} (l : list A) n x i :
  zlen l ≤ n → zget (resize l n x) i =
    if decide (i < zlen l) then zget l i else if decide (i < n) then Some x else None.
Proof.
  intros Hn. unfold resize. rewrite take_ge by (unfold zlen in Hn; lia).
  case_decide as Hi; [by rewrite zget_app_l|]. rewrite zget_app_r by lia.
  unfold zget. pose proof (zlen_nonneg l). rewrite (proj2 (Z.leb_le 0 _)) by lia.
  case_decide; [apply lookup_replicate_2; lia|].
  apply lookup_ge_None_2. rewrite length_replicate. lia.
Qed.

Lemma table_size_fits t : table_inv t → table_size t = Ret (zlen (vec t)).
Proof.
  intros [H _ _]. unfold table_size, try_from_u. pose proof (zlen_nonneg (vec t)).
  by rewrite (proj2 (in_u_spec 32 _)) by lia.
Qed.

Lemma Table_new_inv ptr plan t :
  u64 ptr → 0 ≤ table_minimum (plan_table plan) < 2 ^ 32 →
  (∀ M, table_maximum (plan_table plan) = Some M → table_minimum (plan_table plan) ≤ M) →
  Table_new ptr plan = Ret t → table_inv t.
Proof.
  intros Hp Hm HM H. unfold Table_new in H. destruct (table_ty _); [|done].
  cbn [mbind res_mbind] in H. destruct (table_style plan). res_inv H.
  apply try_from_u_Some in E as [-> ?]. split; cbn; rewrite ?zlen_replicate by lia; auto. lia.
Qed.

(** Growing a table that satisfies the invariant never panics.  It fails,
    leaving the table as it was, exactly when the new length does not fit 32
    bits or exceeds the maximum; otherwise it returns the new length, every
    old element is still at its index, every new element is the null
    function reference, whose signature index no registered signature has,
    and the invariant holds again. *)
Theorem Table_grow_spec (ptr : Z) (t : TableInstance) (delta : Z)
    (Hinv : table_inv t) (Hptr : u64 ptr) (Hdelta : 0 ≤ delta < 2 ^ 32) :
  ∃ t' r, Table_grow ptr t delta = Ret (t', r) ∧ table_inv t' ∧
  match r with
  | None => t' = t ∧ (2 ^ 32 ≤ zlen (vec t) + delta ∨
      ∃ M, tb_maximum t = Some M ∧ M < zlen (vec t) + delta)
  | Some n => n = zlen (vec t) + delta ∧ n < 2 ^ 32 ∧
      (∀ M, tb_maximum t = Some M → n ≤ M) ∧ zlen (vec t') = n ∧
      ∀ i, 0 ≤ i < n → Table_get t' i =
        if decide (i < zlen (vec t)) then Table_get t i else Some VMCallerCheckedAnyfunc_default
  end.
Proof.
  pose proof (zlen_nonneg (vec t)) as Hl. pose proof Hinv as [Hlen Hmax Hp].
  unfold Table_grow. rewrite table_size_fits, bind_Ret_l by done.
  unfold checked_add. destruct (in_u 32 _) eqn:E.
  2:{ apply in_u_false in E. do 2 eexists. split; [done|]. split_and!; [done..|left; lia]. }
  apply in_u_spec in E. destruct (match tb_maximum t with Some _ => _ | None => _ end) eqn:EM.
  { destruct (tb_maximum t) as [M|] eqn:EM2; [|done]. apply Z.ltb_lt in EM.
    do 2 eexists. split; [done|]. split_and!; [done..|right; by exists M]. }
  assert (HM : ∀ M, tb_maximum t = Some M → zlen (vec t) + delta ≤ M).
  { intros M HM. rewrite HM in EM. lia. }
  unfold try_from_u. rewrite (proj2 (in_u_spec 64 _)) by lia. cbn [unwrap mbind res_mbind].
  do 2 eexists. split; [done|]. split.
  { split; cbn; rewrite ?zlen_resize by lia; try done. lia. }
  split_and!; [done|lia|done|apply zlen_resize; lia|]. intros i Hi. unfold Table_get. cbn [vec].
  rewrite zget_resize by lia. case_decide; [done|]. by rewrite decide_True by lia.
Qed.

Lemma Table_grow_spec_witness :
  ∃ t' r, Table_grow 64 (mkTableInstance 32 [VMCallerCheckedAnyfunc_default] (Some 3)) 2
    = Ret (t', r) ∧ r = Some 3.
Proof.
  destruct (Table_grow_spec 64 (mkTableInstance 32 [VMCallerCheckedAnyfunc_default] (Some 3)) 2)
    as (t' & r & E & _).
  - split; [vm_compute; reflexivity|intros M [= <-]; vm_compute; discriminate|
      split; [cbn; lia|vm_compute; reflexivity]].
  - split; [lia|reflexivity].
  - lia.
  - exists t', r. split; [exact E|]. vm_compute in E. congruence.
Defined.
