(* ===== verification/Instance.v ===== *)
(** * Instances

    Models [wasmtime-runtime/src/instance.rs], [imports.rs], [export.rs] and
    the memory library calls of [libcalls.rs].  An [Instance] is a structure
    at an address: its Rust fields are a record in the map [rt_insts], and the
    context that follows them is the bytes of the address space that
    [VMContext.v] describes.  Pointers to other instances are addresses, so
    that an imported memory or table is shared with the instance that
    defines it. *)

From S2P Require Import TrapHandlers.
From S2P Require Import Prelude Environ ModuleEnv VMOffsets Store Registry Memory VMContext Table.
Local Open Scope Z_scope.

(** [export.rs] *)
Inductive RtExport :=
| RtFunction (address vmctx : Z) (signature : Signature)
| RtTable (definition vmctx : Z) (table : TablePlan)
| RtMemory (definition vmctx : Z) (memory : MemoryPlan)
| RtGlobal (definition vmctx : Z) (global : Global).

(** [imports.rs]; instance handles are the addresses of their instances. *)
Record Imports := mkImports {
  im_dependencies : gset Z;
  im_functions : list VMFunctionImport;
  im_tables : list VMTableImport;
  im_memories : list VMMemoryImport;
  im_globals : list VMGlobalImport;
}.

Definition Imports_none : Imports := mkImports ∅ [] [] [] [].

Inductive InstantiationError :=
| Resource
| Link (what : string)
| StartTrap (what : string).

(** The fields of [Instance], less [host_state] and [dbg_jit_registration],
    which the runtime only stores.  [global_exports] names a shared map. *)
Record Instance := mkInstance {
  refcount : Z;
  dependencies : gset Z;
  inst_mmap : Mmap;
  module : Module_;
  offsets : VMOffsets;
  global_exports : Z;
  memories : list LinearMemory;
  tables : list TableInstance;
  finished_functions : list Z;
}.

Definition set_refcount (i : Instance) (n : Z) : Instance :=
  mkInstance n (dependencies i) (inst_mmap i) (module i) (offsets i) (global_exports i)
    (memories i) (tables i) (finished_functions i).
Definition set_memories (i : Instance) (l : list LinearMemory) : Instance :=
  mkInstance (refcount i) (dependencies i) (inst_mmap i) (module i) (offsets i) (global_exports i)
    l (tables i) (finished_functions i).
Definition set_tables (i : Instance) (l : list TableInstance) : Instance :=
  mkInstance (refcount i) (dependencies i) (inst_mmap i) (module i) (offsets i) (global_exports i)
    (memories i) l (finished_functions i).

(** The signal handlers: what [EnsureEagerSignalHandlers] gives, the state of the
    installation and the thread's [TRAP_CONTEXT]. *)
Record handlers := mkHandlers {
  h_ensure : bool;
  h_eager : InstallState;
  h_context : TrapContext;
}.
Definition handlers_new : handlers := mkHandlers true InstallState_new TrapContext_default.

(** The state of the process. *)
Record rt := mkRt {
  rt_world : world;
  rt_insts : gmap Z Instance;
  rt_exports : gmap Z (gmap string (option RtExport));
  rt_handlers : handlers;
}.

Definition rt_mem (σ : rt) : mem := w_mem (rt_world σ).
Definition with_world (σ : rt) (w : world) : rt := mkRt w (rt_insts σ) (rt_exports σ) (rt_handlers σ).
Definition with_mem (σ : rt) (m : mem) : rt :=
  with_world σ (mkWorld m (w_prot (rt_world σ))).
Definition with_inst (σ : rt) (a : Z) (i : Instance) : rt :=
  mkRt (rt_world σ) (<[a := i]> (rt_insts σ)) (rt_exports σ) (rt_handlers σ).
Definition with_exports (σ : rt) (k : Z) (e : gmap string (option RtExport)) : rt :=
  mkRt (rt_world σ) (rt_insts σ) (<[k := e]> (rt_exports σ)) (rt_handlers σ).
Definition with_handlers (σ : rt) (h : handlers) : rt :=
  mkRt (rt_world σ) (rt_insts σ) (rt_exports σ) h.

(** [size_of::<Instance>()] and [offset_of!(Instance, vmctx)]; the zero-sized
    [vmctx] is the last field of a [repr(C)] structure. *)
Class InstanceLayout := {
  instance_size : Z;
  vmctx_offset : Z;
}.
Class InstanceLayoutLaws `{InstanceLayout} : Prop := {
  vmctx_offset_bounds : 0 ≤ vmctx_offset ≤ instance_size;
  instance_size_small : instance_size < 2 ^ 32;
}.

Section instance.
Context `{OS} `{InstanceLayout}.

(** The instance at an address; there is none behind a dangling pointer. *)
Definition get_instance (σ : rt) (a : Z) : res Instance := unwrap (rt_insts σ !! a).

(** [Instance::vmctx_ptr] and [VMContext::instance]. *)
Definition vmctx_ptr (a : Z) : Z := a + vmctx_offset.
Definition instance_of_vmctx (vmctx : Z) : Z := vmctx - vmctx_offset.

(** ** Exports *)

Definition lookup_by_declaration (m : mem) (module : Module_) (vmctx : Z) (offsets : VMOffsets)
    (finished_functions : list Z) (export : Export) : res RtExport :=
  match export with
  | ExportFunction index =>
      f ← zindex (functions module) index;
      signature ← zindex (signatures module) f;
      match defined_func_index module index with
      | Some def_index =>
          address ← zindex finished_functions def_index;
          Ret (RtFunction address vmctx signature)
      | None =>
          import ← imported_function m vmctx offsets index;
          Ret (RtFunction (fi_body import) (fi_vmctx import) signature)
      end
  | ExportTable index =>
      '(definition, vmctx) ← match defined_table_index module index with
        | Some def_index => p ← table_mut vmctx offsets def_index; Ret (p, vmctx)
        | None =>
            import ← imported_table m vmctx offsets index;
            Ret (ti_from import, ti_vmctx import)
        end;
      plan ← zindex (table_plans module) index;
      Ret (RtTable definition vmctx plan)
  | ExportMemory index =>
      '(definition, vmctx) ← match defined_memory_index module index with
        | Some def_index => p ← memory_mut vmctx offsets def_index; Ret (p, vmctx)
        | None =>
            import ← imported_memory m vmctx offsets index;
            Ret (mi_from import, mi_vmctx import)
        end;
      plan ← zindex (memory_plans module) index;
      Ret (RtMemory definition vmctx plan)
  | ExportGlobal index =>
      definition ← match defined_global_index module index with
        | Some def_index => global_mut vmctx offsets def_index
        | None => import ← imported_global m vmctx offsets index; Ret (gi_from import)
        end;
      g ← zindex (globals module) index;
      Ret (RtGlobal definition vmctx g)
  end.

(** [Instance::lookup] *)
Definition inst_lookup (σ : rt) (a : Z) (field : string) : res (option RtExport) :=
  i ← get_instance σ a;
  match imap_get (exports (module i)) field with
  | None => Ret None
  | Some export =>
      e ← lookup_by_declaration (rt_mem σ) (module i) (vmctx_ptr a) (offsets i)
            (finished_functions i) export;
      Ret (Some e)
  end.

(** [Instance::lookup_global_export] *)
Definition lookup_global_export (σ : rt) (a : Z) (field : string) : res (option RtExport) :=
  i ← get_instance σ a;
  map ← unwrap (rt_exports σ !! global_exports i);
  match map !! field with
  | Some (Some export) => Ret (Some export)
  | _ => Ret None
  end.

(** ** Memories *)

(** The index of the definition at the address [memory]. *)
Definition inst_memory_index (i : Instance) (a memory : Z) : res Z :=
  begin ← memories_ptr (vmctx_ptr a) (offsets i);
  d ← op_sub 64 memory begin;
  let index := d / size_of VMMemoryDefinition in
  _ ← rassert (index <? zlen (memories i));
  Ret index.

Definition inst_table_index (i : Instance) (a table : Z) : res Z :=
  begin ← tables_ptr (vmctx_ptr a) (offsets i);
  d ← op_sub 64 table begin;
  let index := d / size_of VMTableDefinition in
  _ ← rassert (index <? zlen (tables i));
  Ret index.

Definition inst_needs_signal_handlers (i : Instance) : bool :=
  existsb needs_signal_handlers (memories i).

Definition memory_grow (σ : rt) (a memory_index delta : Z) : res (rt * option Z) :=
  i ← get_instance σ a;
  lm ← zindex (memories i) memory_index;
  '(w, lm', result) ← grow (rt_world σ) lm delta;
  ms ← zset (memories i) memory_index lm';
  let i' := set_memories i ms in
  let σ' := with_inst (with_world σ w) a i' in
  p ← memory_mut (vmctx_ptr a) (offsets i') memory_index;
  lm'' ← zindex (memories i') memory_index;
  d ← vmmemory lm'';
  Ret (with_mem σ' (ptr_write (rt_mem σ') p d), result).

(** The instance and the index of the memory behind an import. *)
Definition imported_memory_target (σ : rt) (a memory_index : Z) : res (Z * Z) :=
  i ← get_instance σ a;
  import ← imported_memory (rt_mem σ) (vmctx_ptr a) (offsets i) memory_index;
  let foreign := instance_of_vmctx (mi_vmctx import) in
  fi ← get_instance σ foreign;
  foreign_index ← inst_memory_index fi foreign (mi_from import);
  Ret (foreign, foreign_index).

Definition imported_memory_grow (σ : rt) (a memory_index delta : Z) : res (rt * option Z) :=
  '(foreign, foreign_index) ← imported_memory_target σ a memory_index;
  memory_grow σ foreign foreign_index delta.

Definition memory_size (σ : rt) (a memory_index : Z) : res Z :=
  i ← get_instance σ a;
  lm ← zindex (memories i) memory_index;
  Ret (lm_size lm).

Definition imported_memory_size (σ : rt) (a memory_index : Z) : res Z :=
  '(foreign, foreign_index) ← imported_memory_target σ a memory_index;
  memory_size σ foreign foreign_index.

(** [libcalls.rs]: failure is [u32::max_value()]. *)
Definition wasmtime_memory32_grow (σ : rt) (vmctx delta memory_index : Z) : res (rt * Z) :=
  '(σ', r) ← memory_grow σ (instance_of_vmctx vmctx) memory_index delta;
  Ret (σ', default (2 ^ 32 - 1) r).
Definition wasmtime_imported_memory32_grow (σ : rt) (vmctx delta memory_index : Z)
    : res (rt * Z) :=
  '(σ', r) ← imported_memory_grow σ (instance_of_vmctx vmctx) memory_index delta;
  Ret (σ', default (2 ^ 32 - 1) r).
Definition wasmtime_memory32_size (σ : rt) (vmctx memory_index : Z) : res Z :=
  memory_size σ (instance_of_vmctx vmctx) memory_index.
Definition wasmtime_imported_memory32_size (σ : rt) (vmctx memory_index : Z) : res Z :=
  imported_memory_size σ (instance_of_vmctx vmctx) memory_index.

(** ** Tables; [ptr] is the address the allocator chose. *)
Definition table_grow (σ : rt) (a ptr table_index delta : Z) : res (rt * option Z) :=
  i ← get_instance σ a;
  t ← zindex (tables i) table_index;
  '(t', result) ← Table_grow ptr t delta;
  ts ← zset (tables i) table_index t';
  let i' := set_tables i ts in
  let σ' := with_inst σ a i' in
  p ← table_mut (vmctx_ptr a) (offsets i') table_index;
  t'' ← zindex (tables i') table_index;
  d ← vmtable t'';
  Ret (with_mem σ' (ptr_write (rt_mem σ') p d), result).

Definition table_get (σ : rt) (a table_index index : Z) : res (option VMCallerCheckedAnyfunc) :=
  i ← get_instance σ a;
  t ← zindex (tables i) table_index;
  Ret (Table_get t index).

(** ** Initializers *)

(** The address of a global, defined or imported. *)
Definition global_address (m : mem) (module : Module_) (vmctx : Z) (offsets : VMOffsets)
    (base : Z) : res Z :=
  match defined_global_index module base with
  | Some def_index => global_mut vmctx offsets def_index
  | None => import ← imported_global m vmctx offsets base; Ret (gi_from import)
  end.

(** [get_memory_init_start] and [get_table_init_start]. *)
Definition init_start (σ : rt) (a : Z) (offset : Z) (base : option Z) : res Z :=
  match base with
  | None => Ret offset
  | Some base =>
      i ← get_instance σ a;
      global ← global_address (rt_mem σ) (module i) (vmctx_ptr a) (offsets i) base;
      op_add 64 offset (load_le (rt_mem σ) global 4)
  end.

Definition get_memory_init_start (σ : rt) (a : Z) (init : DataInitializer) : res Z :=
  init_start σ a (dl_offset (di_location init)) (dl_base (di_location init)).
Definition get_table_init_start (σ : rt) (a : Z) (init : TableElements) : res Z :=
  init_start σ a (te_offset init) (te_base init).

(** The base and the length of the memory that an initializer writes. *)
Definition get_memory_slice (σ : rt) (a : Z) (init : DataInitializer) : res VMMemoryDefinition :=
  i ← get_instance σ a;
  match defined_memory_index (module i) (dl_memory_index (di_location init)) with
  | Some defined_memory_index =>
      memory (rt_mem σ) (vmctx_ptr a) (offsets i) defined_memory_index
  | None =>
      '(foreign, foreign_index) ← imported_memory_target σ a (dl_memory_index (di_location init));
      fi ← get_instance σ foreign;
      memory (rt_mem σ) (vmctx_ptr foreign) (offsets fi) foreign_index
  end.

(** [slice.get_mut(start..start + len).is_some()] *)
Definition range_fits (slice_len start len : Z) : res bool :=
  end_ ← op_add 64 start len;
  Ret ((start <=? end_) && (end_ <=? slice_len)).

Fixpoint check_memory_init_bounds (σ : rt) (a : Z) (inits : list DataInitializer)
    : res (result unit InstantiationError) :=
  match inits with
  | [] => Ret (Ok tt)
  | init :: inits =>
      start ← get_memory_init_start σ a init;
      mem_slice ← get_memory_slice σ a init;
      fits ← range_fits (md_current_length mem_slice) start (zlen (di_data init));
      if negb fits then Ret (Err (Link "data segment does not fit"))
      else check_memory_init_bounds σ a inits
  end.

(** The instance and the index of the table that an initializer writes. *)
Definition get_table_slice (σ : rt) (a : Z) (init : TableElements) : res (Z * Z * TableInstance) :=
  i ← get_instance σ a;
  match defined_table_index (module i) (te_table_index init) with
  | Some index => t ← zindex (tables i) index; Ret (a, index, t)
  | None =>
      import ← imported_table (rt_mem σ) (vmctx_ptr a) (offsets i) (te_table_index init);
      let foreign := instance_of_vmctx (ti_vmctx import) in
      fi ← get_instance σ foreign;
      foreign_index ← inst_table_index fi foreign (ti_from import);
      t ← zindex (tables fi) foreign_index;
      Ret (foreign, foreign_index, t)
  end.

Fixpoint check_table_init_bounds (σ : rt) (a : Z) (inits : list TableElements)
    : res (result unit InstantiationError) :=
  match inits with
  | [] => Ret (Ok tt)
  | init :: inits =>
      start ← get_table_init_start σ a init;
      '(_, _, t) ← get_table_slice σ a init;
      fits ← range_fits (zlen (vec t)) start (zlen (te_elements init));
      if negb fits then Ret (Err (Link "elements segment does not fit"))
      else check_table_init_bounds σ a inits
  end.

(** The function reference that an element segment stores for [func_idx]. *)
Definition table_element (σ : rt) (a func_idx : Z) : res VMCallerCheckedAnyfunc :=
  i ← get_instance σ a;
  callee_sig ← zindex (functions (module i)) func_idx;
  '(callee_ptr, callee_vmctx) ← match defined_func_index (module i) func_idx with
    | Some index => p ← zindex (finished_functions i) index; Ret (p, vmctx_ptr a)
    | None =>
        f ← imported_function (rt_mem σ) (vmctx_ptr a) (offsets i) func_idx;
        Ret (fi_body f, fi_vmctx f)
    end;
  type_index ← signature_id (rt_mem σ) (vmctx_ptr a) (offsets i) callee_sig;
  Ret (mkVMCallerCheckedAnyfunc callee_ptr type_index callee_vmctx).

Definition set_table_slot (σ : rt) (a index slot : Z) (v : VMCallerCheckedAnyfunc) : res rt :=
  i ← get_instance σ a;
  t ← zindex (tables i) index;
  l ← zset (vec t) slot v;
  ts ← zset (tables i) index (mkTableInstance (vec_ptr t) l (tb_maximum t));
  Ret (with_inst σ a (set_tables i ts)).

Definition initialize_table (σ : rt) (a : Z) (init : TableElements) : res rt :=
  start ← get_table_init_start σ a init;
  '(owner, index, t) ← get_table_slice σ a init;
  fits ← range_fits (zlen (vec t)) start (zlen (te_elements init));
  _ ← rassert fits;
  foldM (λ σ '(k, func_idx),
    v ← table_element σ a func_idx;
    set_table_slot σ owner index (start + Z.of_nat k) v)
    σ (imap pair (te_elements init)).

Definition initialize_tables (σ : rt) (a : Z) : res rt :=
  i ← get_instance σ a;
  foldM (λ σ init, initialize_table σ a init) σ (table_elements (module i)).

Definition initialize_memory (σ : rt) (a : Z) (init : DataInitializer) : res rt :=
  start ← get_memory_init_start σ a init;
  mem_slice ← get_memory_slice σ a init;
  fits ← range_fits (md_current_length mem_slice) start (zlen (di_data init));
  _ ← rassert fits;
  Ret (with_mem σ (store_bytes (rt_mem σ) (md_base mem_slice + start) (di_data init))).

Definition initialize_memories (σ : rt) (a : Z) (inits : list DataInitializer) : res rt :=
  foldM (λ σ init, initialize_memory σ a init) σ inits.

(** One iteration of the loop of [initialize_globals]. *)
Definition initialize_global (σ : rt) (a index : Z) (g : Global) : res rt :=
  i ← get_instance σ a;
  def_index ← unwrap (defined_global_index (module i) index);
  to ← global_mut (vmctx_ptr a) (offsets i) def_index;
  let m := rt_mem σ in
  match initializer g with
  | I32Const x => Ret (with_mem σ (store_le m to 4 x))
  | I64Const x => Ret (with_mem σ (store_le m to 8 x))
  | F32Const x => Ret (with_mem σ (store_le m to 4 x))
  | F64Const x => Ret (with_mem σ (store_le m to 8 x))
  | V128Const x => Ret (with_mem σ (store_bytes m to x))
  | GetGlobal x =>
      from ← global_address m (module i) (vmctx_ptr a) (offsets i) x;
      Ret (with_mem σ (copy_bytes m to from (size_of VMGlobalDefinition)))
  | ImportInit => Panic
  end.

Definition initialize_globals (σ : rt) (a : Z) : res rt :=
  i ← get_instance σ a;
  let num_imports := length (imported_globals (module i)) in
  foldM (λ σ '(index, g), initialize_global σ a (Z.of_nat index) g) σ
    (drop num_imports (imap pair (globals (module i)))).

(** Collecting the exports of an instance in the map shared by the instances
    of a context: a name exported twice is withdrawn. *)
Definition collect_export (σ : rt) (a : Z) (e : string * Export) : res rt :=
  i ← get_instance σ a;
  map ← unwrap (rt_exports σ !! global_exports i);
  match map !! e.1 with
  | None =>
      v ← lookup_by_declaration (rt_mem σ) (module i) (vmctx_ptr a) (offsets i)
            (finished_functions i) e.2;
      Ret (with_exports σ (global_exports i) (<[e.1 := Some v]> map))
  | Some _ => Ret (with_exports σ (global_exports i) (<[e.1 := None]> map))
  end.

Definition collect_exports (σ : rt) (a : Z) : res rt :=
  i ← get_instance σ a;
  foldM (λ σ e, collect_export σ a e) σ (exports (module i)).

(** ** Handles *)

(** [Clone for InstanceHandle] and [InstanceHandle::from_vmctx]. *)
Definition handle_clone (σ : rt) (a : Z) : res rt :=
  i ← get_instance σ a;
  n ← op_add 64 (refcount i) 1;
  Ret (with_inst σ a (set_refcount i n)).

Definition from_vmctx (σ : rt) (vmctx : Z) : res (rt * Z) :=
  let a := instance_of_vmctx vmctx in
  σ' ← handle_clone σ a; Ret (σ', a).

(** [Drop for InstanceHandle]: the last handle drops the instance's fields --
    the handles of its dependencies among them -- and unmaps it.  The fuel
    bounds the chain of instances that are freed in turn. *)
Fixpoint handle_drop (fuel : nat) (σ : rt) (a : Z) : res rt :=
  match fuel with
  | O => Panic
  | S fuel =>
      i ← get_instance σ a;
      n ← op_sub 64 (refcount i) 1;
      let σ := with_inst σ a (set_refcount i n) in
      if n =? 0 then
        σ ← foldM (handle_drop fuel) σ (elements (dependencies i));
        w ← foldM Mmap_drop (rt_world σ) (map lm_mmap (memories i));
        w ← Mmap_drop w (inst_mmap i);
        Ret (mkRt w (delete a (rt_insts σ)) (rt_exports σ) (rt_handlers σ))
      else Ret σ
  end.

Definition drop_handles (σ : rt) (hs : gset Z) : res rt :=
  foldM (handle_drop (S (size (rt_insts σ)))) σ (elements hs).

(** ** Instantiation *)

(** [v[n..]] *)
Definition slice_from {A} (l : list A) (n : Z) : res (list A) :=
  _ ← rassert (n <=? zlen l); Ret (drop (Z.to_nat n) l).

(** [table_ptr k] is the buffer that the allocator returns for the [k]-th
    table. *)
Definition create_tables (table_ptr : nat → Z) (module : Module_) : res (list TableInstance) :=
  let num_imports := zlen (imported_tables module) in
  _ ← op_sub 64 (zlen (table_plans module)) num_imports;
  plans ← slice_from (table_plans module) num_imports;
  mapR (λ '(k, plan), Table_new (table_ptr k) plan) (imap pair plans).

(** An error drops the memories that were already created. *)
Fixpoint create_memories_loop (w : world) (done : list LinearMemory) (plans : list MemoryPlan)
    : res (world * result (list LinearMemory) InstantiationError) :=
  match plans with
  | [] => Ret (w, Ok done)
  | plan :: plans =>
      '(w, r) ← LinearMemory_new w plan;
      match r with
      | Ok lm => create_memories_loop w (done ++ [lm]) plans
      | Err _ => w ← foldM Mmap_drop w (map lm_mmap done); Ret (w, Err Resource)
      end
  end.

Definition create_memories (w : world) (module : Module_)
    : res (world * result (list LinearMemory) InstantiationError) :=
  let num_imports := zlen (imported_memories module) in
  _ ← op_sub 64 (zlen (memory_plans module)) num_imports;
  plans ← slice_from (memory_plans module) num_imports;
  create_memories_loop w [] plans.

Definition create_globals (module : Module_) : res (list VMGlobalDefinition) :=
  let num_imports := zlen (imported_globals module) in
  _ ← op_sub 64 (zlen (globals module)) num_imports;
  gs ← slice_from (globals module) num_imports;
  Ret (map (λ _, VMGlobalDefinition_new) gs).

Section instantiate.
(** [wasmtime_call] enters compiled code. *)
Context (wasmtime_call : rt → Z → Z → res (rt * result unit string)).
Context (builtins : libcalls).

Definition invoke_function (σ : rt) (a index : Z) : res (rt * result unit InstantiationError) :=
  i ← get_instance σ a;
  '(callee_address, callee_vmctx) ← match defined_func_index (module i) index with
    | Some defined_index =>
        body ← zindex (finished_functions i) defined_index; Ret (body, vmctx_ptr a)
    | None =>
        _ ← rassert (index <? zlen (imported_funcs (module i)));
        import ← imported_function (rt_mem σ) (vmctx_ptr a) (offsets i) index;
        Ret (fi_body import, fi_vmctx import)
    end;
  '(σ', r) ← wasmtime_call σ callee_vmctx callee_address;
  Ret (σ', match r with Ok _ => Ok tt | Err e => Err (StartTrap e) end).

(** The compatibility entry points: an exported function without parameters
    (but for the context) or results. *)
Definition invoke_export (σ : rt) (a : Z) (e : Export) : res (rt * result unit InstantiationError) :=
  i ← get_instance σ a;
  match e with
  | ExportFunction func_index =>
      f ← zindex (functions (module i)) func_index;
      sig ← zindex (signatures (module i)) f;
      if (zlen (params sig) =? 1) && match returns sig with [] => true | _ => false end
      then invoke_function σ a func_index
      else Ret (σ, Ok tt)
  | _ => Ret (σ, Ok tt)
  end.

Definition invoke_start_function (σ : rt) (a : Z) : res (rt * result unit InstantiationError) :=
  i ← get_instance σ a;
  match start_func (module i) with
  | Some start_index => invoke_function σ a start_index
  | None =>
      match imap_get (exports (module i)) "_start" with
      | Some start_export => invoke_export σ a start_export
      | None =>
          match imap_get (exports (module i)) "main" with
          | Some main_export => invoke_export σ a main_export
          | None => Ret (σ, Ok tt)
          end
      end
  end.

(** [wasmtime_init_eager] and [wasmtime_init_finish], which panic when an instance needs
    handlers that could not be installed. *)
Definition init_signal_handlers (σ : rt) (a : Z) : res rt :=
  i ← get_instance σ a;
  let h := rt_handlers σ in
  eager ← wasmtime_init_eager (h_ensure h) (h_eager h);
  let '(cx, r) := wasmtime_init_finish eager (inst_needs_signal_handlers i) (h_context h) in
  _ ← r;
  Ret (with_handlers σ (mkHandlers (h_ensure h) eager cx)).

(** The steps of [InstanceHandle::new] once the instance is in place. *)
Definition initialize_instance (σ : rt) (a : Z) (data_initializers : list DataInitializer)
    : res (rt * result unit InstantiationError) :=
  i ← get_instance σ a;
  r ← check_table_init_bounds σ a (table_elements (module i));
  match r with
  | Err e => Ret (σ, Err e)
  | Ok _ =>
      r ← check_memory_init_bounds σ a data_initializers;
      match r with
      | Err e => Ret (σ, Err e)
      | Ok _ =>
          σ ← initialize_tables σ a;
          σ ← initialize_memories σ a data_initializers;
          σ ← initialize_globals σ a;
          σ ← collect_exports σ a;
          σ ← init_signal_handlers σ a;
          invoke_start_function σ a
      end
  end.

Definition InstanceHandle_new (σ : rt) (table_ptr : nat → Z) (module : Module_)
    (global_exports : Z) (finished_functions : list Z) (imports : Imports)
    (data_initializers : list DataInitializer)
    (vmshared_signatures : list VMSharedSignatureIndex)
    : res (rt * result Z InstantiationError) :=
  tables ← create_tables table_ptr module;
  '(w, r) ← create_memories (rt_world σ) module;
  match r with
  | Err e => σ ← drop_handles (with_world σ w) (im_dependencies imports); Ret (σ, Err e)
  | Ok memories =>
      vmctx_tables ← mapR vmtable tables;
      vmctx_memories ← mapR vmmemory memories;
      vmctx_globals ← create_globals module;
      offsets ← VMOffsets_new 8 module;
      vmctx_size ← size_of_vmctx offsets;
      size ← unwrap (checked_add 64 instance_size vmctx_size);
      '(w, r) ← with_at_least w size;
      match r with
      | Err _ =>
          w ← foldM Mmap_drop w (map lm_mmap memories);
          σ ← drop_handles (with_world σ w) (im_dependencies imports);
          Ret (σ, Err Resource)
      | Ok instance_mmap =>
          let a := mm_ptr instance_mmap in
          let i := mkInstance 1 (im_dependencies imports) instance_mmap module offsets
                     global_exports memories tables finished_functions in
          let σ := with_inst (with_world σ w) a i in
          builtin ← VMBuiltinFunctionsArray_initialized builtins;
          m ← fill_vmctx (rt_mem σ) (vmctx_ptr a) offsets
                (mkVmctxContents vmshared_signatures (im_functions imports) (im_tables imports)
                   (im_memories imports) (im_globals imports) vmctx_tables vmctx_memories
                   vmctx_globals builtin);
          '(σ, r) ← initialize_instance (with_mem σ m) a data_initializers;
          match r with
          | Err e => Ret (σ, Err e)
          | Ok _ => Ret (σ, Ok a)
          end
      end
  end.
End instantiate.
End instance.
