(* ===== verification/InstanceProofs.v ===== *)
(** * Correctness of instances

    The invariant of the runtime's state (every instance's context describes
    its current memories and tables; mappings do not overlap), and what the
    operations of [Instance.v] guarantee on states that satisfy it. *)

From S2P Require Import Prelude Environ ModuleEnv VMOffsets Store Registry Memory VMContext.
From S2P Require Import Table Instance.
Local Open Scope Z_scope.

(** ** The invariant *)

Notation in_mmap m x := (mm_ptr m ≤ x < mm_ptr m + mm_len m).

Section invariant.
Context `{OS} `{InstanceLayout}.

(** An instance whose structure and context are in place and current. *)
Record inst_ok (σ : rt) (a : Z) (i : Instance) : Prop := {
  io_offsets : VMOffsets_new 8 (module i) = Ret (offsets i);
  io_size : ∃ n, size_of_vmctx (offsets i) = Ret n ∧ instance_size + n ≤ mm_len (inst_mmap i);
  io_addr : mm_ptr (inst_mmap i) = a ∧ 0 < a ∧ a + mm_len (inst_mmap i) ≤ 2 ^ 64;
  io_mapped : ∀ x, in_mmap (inst_mmap i) x → w_prot (rt_world σ) x ≠ None;
  io_nmem : zlen (imported_memories (module i)) + zlen (memories i) = zlen (memory_plans (module i));
  io_ntab : zlen (imported_tables (module i)) + zlen (tables i) = zlen (table_plans (module i));
  io_memories : ∀ k lm, zget (memories i) k = Some lm → lm_inv (rt_world σ) lm ∧
    ∃ d, vmmemory lm = Ret d ∧ memory (rt_mem σ) (vmctx_ptr a) (offsets i) k = Ret d;
  io_tables : ∀ k t, zget (tables i) k = Some t → table_inv t ∧
    ∃ d, vmtable t = Ret d ∧ table (rt_mem σ) (vmctx_ptr a) (offsets i) k = Ret d;
}.

(** [own] says who a byte belongs to: the instance at [a], or the [k]-th
    memory that it defines. *)
Definition owned (own : Z → option (Z * option Z)) (a : Z) (i : Instance) : Prop :=
  (∀ x, in_mmap (inst_mmap i) x → own x = Some (a, None)) ∧
  ∀ k lm, zget (memories i) k = Some lm → ∀ x, in_mmap (lm_mmap lm) x → own x = Some (a, Some k).

Definition rt_inv (σ : rt) : Prop :=
  ∃ own, ∀ a i, rt_insts σ !! a = Some i → inst_ok σ a i ∧ owned own a i.
End invariant.

(** ** Slots of a context *)
Section slots.
Context `{OS} `{InstanceLayoutLaws}.
Set Default Proof Using "Type*".

Lemma inst_ok_offsets σ a i :
  inst_ok σ a i → wf_offsets (offsets i) ∧ pointer_size (offsets i) = 8 ∧
  layout_size (offsets i) < 2 ^ 32 ∧
  vmctx_offset + layout_size (offsets i) ≤ mm_len (inst_mmap i) ∧
  num_defined_memories (offsets i) = zlen (memory_plans (module i)) ∧
  num_defined_tables (offsets i) = zlen (table_plans (module i)).
Proof.
  intros [Ho (n & Hn & Hlen) _ _ _ _ _ _]. pose proof vmctx_offset_bounds.
  apply VMOffsets_new_inv in Ho as [Ho Hwf]. specialize (Hwf (or_intror eq_refl)).
  rewrite size_of_vmctx_spec in Hn by done. apply fits32_Ret in Hn as [-> Hn].
  split_and!; [done|by rewrite Ho|done|lia|by rewrite Ho|by rewrite Ho].
Qed.

(** The [j]-th element of the [κ]-th array lies inside the instance. *)
Lemma inst_slot σ a i κ r j :
  inst_ok σ a i → regions (offsets i) !! κ = Some r → 0 ≤ j < r_count r →
  ∃ off, element_offset (offsets i) κ j = Ret off ∧
    ∀ x, vmctx_ptr a + off ≤ x < vmctx_ptr a + off + r_size r → in_mmap (inst_mmap i) x.
Proof.
  intros Hi Hr Hj. pose proof (inst_ok_offsets _ _ _ Hi) as (Hwf & _ & Hl & Hlen & _).
  eexists. split; [by apply element_offset_spec|]. destruct Hi as [_ _ [Ha _] _ _ _ _ _].
  destruct (region_in_layout _ Hwf _ _ Hr) as (Hb & Hc & Hs & Hin).
  pose proof vmctx_offset_bounds. revert Hb Hin.
  generalize (region_begin 0 (regions (offsets i)) κ) as b. unfold vmctx_ptr. rewrite Ha.
  intros b Hb Hin x Hx. nia.
Qed.

(** Different slots do not overlap. *)
Lemma slots_disjoint o κ1 κ2 r1 r2 j1 j2 off1 off2 :
  wf_offsets o → layout_size o < 2 ^ 32 →
  regions o !! κ1 = Some r1 → regions o !! κ2 = Some r2 →
  0 ≤ j1 < r_count r1 → 0 ≤ j2 < r_count r2 → κ1 ≠ κ2 ∨ j1 ≠ j2 →
  element_offset o κ1 j1 = Ret off1 → element_offset o κ2 j2 = Ret off2 →
  off1 + r_size r1 ≤ off2 ∨ off2 + r_size r2 ≤ off1.
Proof.
  intros Hwf Hl Hr1 Hr2 Hj1 Hj2 Hne.
  rewrite (element_offset_spec o Hwf κ1 r1), (element_offset_spec o Hwf κ2 r2) by done.
  intros <-%(inj Ret) <-%(inj Ret).
  destruct (region_in_layout _ Hwf _ _ Hr1) as (_ & _ & Hs1 & _).
  destruct (region_in_layout _ Hwf _ _ Hr2) as (_ & _ & Hs2 & _).
  destruct (lt_eq_lt_dec κ1 κ2) as [[Hlt| ->]|Hlt].
  - pose proof (region_order _ Hwf _ _ _ Hr1 Hlt) as Ho. revert Ho.
    generalize (region_begin 0 (regions o) κ1), (region_begin 0 (regions o) κ2). intros. nia.
  - assert (r1 = r2) as -> by congruence. destruct Hne as [|Hne]; [done|].
    generalize (region_begin 0 (regions o) κ2). intros b. nia.
  - pose proof (region_order _ Hwf _ _ _ Hr2 Hlt) as Ho. revert Ho.
    generalize (region_begin 0 (regions o) κ1), (region_begin 0 (regions o) κ2). intros. nia.
Qed.

(** A definition is read from the bytes of the instance only. *)
Lemma memory_ext σ a i m m' k :
  inst_ok σ a i → 0 ≤ k < zlen (memories i) →
  (∀ x, in_mmap (inst_mmap i) x → m' x = m x) →
  memory m' (vmctx_ptr a) (offsets i) k = memory m (vmctx_ptr a) (offsets i) k.
Proof.
  intros Hi Hk Hm. pose proof (inst_ok_offsets _ _ _ Hi) as (Hwf & Hp & _ & _ & Hn & _).
  pose proof (zlen_nonneg (imported_memories (module i))). pose proof (io_nmem _ _ _ Hi).
  destruct (inst_slot σ a i 6 _ k Hi eq_refl) as (off & He & Hin); [cbn; lia|].
  unfold memory. cbn [element_offset] in He. rewrite He, !bind_Ret_l. f_equal.
  apply load_val_ext. intros x Hx. apply Hm, Hin. cbn [r_size]. rewrite Hp. exact Hx.
Qed.

Lemma table_ext σ a i m m' k :
  inst_ok σ a i → 0 ≤ k < zlen (tables i) →
  (∀ x, in_mmap (inst_mmap i) x → m' x = m x) →
  table m' (vmctx_ptr a) (offsets i) k = table m (vmctx_ptr a) (offsets i) k.
Proof.
  intros Hi Hk Hm. pose proof (inst_ok_offsets _ _ _ Hi) as (Hwf & Hp & _ & _ & _ & Hn).
  pose proof (zlen_nonneg (imported_tables (module i))). pose proof (io_ntab _ _ _ Hi).
  destruct (inst_slot σ a i 5 _ k Hi eq_refl) as (off & He & Hin); [cbn; lia|].
  unfold table. cbn [element_offset] in He. rewrite He, !bind_Ret_l. f_equal.
  apply load_val_ext. intros x Hx. apply Hm, Hin. cbn [r_size]. rewrite Hp. exact Hx.
Qed.
End slots.

(** ** Growing memories *)
Section grow_memory.
Context `{OSLaws} `{InstanceLayoutLaws}.
Set Default Proof Using "Type*".

Lemma lm_inv_frame w w' lm :
  lm_inv w lm →
  (∀ x, in_mmap (lm_mmap lm) x → w_mem w' x = w_mem w x ∧ w_prot w' x = w_prot w x) →
  lm_inv w' lm.
Proof.
  intros [? [? ?] Hc ? ? ? Hm Ha Hz] Hf. unfold lm_capacity in *.
  split; try done; intros x Hx.
  - destruct (Hf x) as [_ ->]; [done|]. by apply Hm.
  - destruct (Hf x) as [_ ->]; [lia|]. by apply Ha.
  - destruct (Hf x) as [-> _]; [unfold lm_bytes, lm_capacity, WASM_PAGE_SIZE in *; lia|]. by apply Hz.
Qed.

Lemma inst_ok_frame σ σ' a i :
  inst_ok σ a i →
  (∀ x, in_mmap (inst_mmap i) x → rt_mem σ' x = rt_mem σ x ∧
     w_prot (rt_world σ') x = w_prot (rt_world σ) x) →
  (∀ k lm, zget (memories i) k = Some lm → lm_inv (rt_world σ') lm) →
  inst_ok σ' a i.
Proof.
  intros Hi Hf Hlm. pose proof Hi as [Ho Hs Ha Hm Hnm Hnt Hms Hts]. split; try done.
  - intros x Hx. destruct (Hf x Hx) as [_ ->]. by apply Hm.
  - intros k lm Hk. split; [by eapply Hlm|]. destruct (Hms k lm Hk) as (_ & d & Hd & Hr).
    exists d. split; [done|]. rewrite <-Hr. apply (memory_ext σ a i); [done|by eapply zget_Some_lt|].
    intros x Hx. by apply Hf.
  - intros k t Hk. destruct (Hts k t Hk) as (Ht & d & Hd & Hr). split; [done|].
    exists d. split; [done|]. rewrite <-Hr. apply (table_ext σ a i); [done|by eapply zget_Some_lt|].
    intros x Hx. by apply Hf.
Qed.

(** What [LinearMemory::grow] does to the world, whether it succeeds or
    not. *)
Record grow_effect (w : world) (lm : LinearMemory) (delta : Z) (w' : world) (lm' : LinearMemory)
    (r : option Z) : Prop := {
  ge_inv : lm_inv w' lm';
  ge_guard : lm_offset_guard_size lm' = lm_offset_guard_size lm;
  ge_frame : ∀ x, w_prot w x ≠ None → ¬ in_mmap (lm_mmap lm) x →
    w_mem w' x = w_mem w x ∧ w_prot w' x = w_prot w x;
  ge_region : ∀ x, in_mmap (lm_mmap lm') x → w_prot w x = None ∨ in_mmap (lm_mmap lm) x;
  ge_old : ∀ x, 0 ≤ x < lm_bytes lm →
    w_mem w' (mm_ptr (lm_mmap lm') + x) = w_mem w (mm_ptr (lm_mmap lm) + x);
  ge_new : ∀ x, lm_bytes lm ≤ x < lm_bytes lm' → w_mem w' (mm_ptr (lm_mmap lm') + x) = 0;
  ge_result : match r with
    | Some prev => prev = lm_current lm ∧ lm_current lm' = lm_current lm + delta
    | None => lm' = lm
    end;
}.

Lemma grow_effect_holds w lm delta :
  lm_inv w lm → 0 < lm_offset_guard_size lm → 0 ≤ delta < 2 ^ 32 →
  ∃ w' lm' r, grow w lm delta = Ret (w', lm', r) ∧ grow_effect w lm delta w' lm' r.
Proof.
  intros Hi Hg Hd. destruct (grow_outcome w lm delta Hi Hg Hd) as (w' & lm' & r & E & Hr).
  exists w', lm', r. split; [done|]. destruct r as [prev|].
  - destruct Hr as (-> & [] & _). by split.
  - destruct Hr as (-> & Hi' & Hm & Hp). split; try done.
    + intros x Hx Hout. split; [by apply Hm|by apply Hp].
    + intros x Hx. by right.
    + intros x Hx. apply Hm. destruct Hi as [? [? ?] Hc ? ? ? Hmap ? ?]. apply Hmap.
      unfold lm_bytes, lm_capacity, WASM_PAGE_SIZE in *. lia.
    + intros x Hx. lia.
Qed.

Lemma vmmemory_valid w lm :
  lm_inv w lm → 0 < lm_offset_guard_size lm →
  ∃ d, vmmemory lm = Ret d ∧ valid d.
Proof.
  intros [Hc [Hg _] Hcap _ [Hp Hl] _ _ _ _] Hg'. unfold vmmemory.
  unfold lm_bytes, lm_capacity, WASM_PAGE_SIZE, WASM_MAX_PAGES in *.
  rewrite op_mul_fits, bind_Ret_l by lia. eexists; split; [done|].
  split; unfold u64; cbn [md_base md_current_length]; lia.
Qed.


(** Everything mapped that is neither the memory nor the slot of its
    definition stays as it was. *)
Lemma grow_write_frame w lm delta w' lm' r p (d : VMMemoryDefinition) x :
  grow_effect w lm delta w' lm' r → valid d →
  w_prot w x ≠ None → ¬ in_mmap (lm_mmap lm) x → ¬ (p ≤ x < p + 16) →
  ptr_write (w_mem w') p d x = w_mem w x ∧ w_prot w' x = w_prot w x.
Proof.
  intros He Hd Hx Hout Hp. destruct (ge_frame _ _ _ _ _ _ He x Hx Hout) as [<- Hpr].
  split; [|done]. apply store_bytes_out. by rewrite encode_len.
Qed.

(** Writing one slot of a context leaves the other slots alone. *)
Lemma other_slot σ a i κw rw kw offw κ r k (m' : mem) :
  inst_ok σ a i → regions (offsets i) !! κw = Some rw → 0 ≤ kw < r_count rw →
  element_offset (offsets i) κw kw = Ret offw →
  regions (offsets i) !! κ = Some r → 0 ≤ k < r_count r → κw ≠ κ ∨ kw ≠ k →
  (∀ x, in_mmap (inst_mmap i) x →
     ¬ (vmctx_ptr a + offw ≤ x < vmctx_ptr a + offw + r_size rw) → m' x = rt_mem σ x) →
  ∃ off, element_offset (offsets i) κ k = Ret off ∧
    ∀ x, vmctx_ptr a + off ≤ x < vmctx_ptr a + off + r_size r → m' x = rt_mem σ x.
Proof.
  intros Hi Hrw Hkw Hoffw Hr Hk Hne Hm.
  pose proof (inst_ok_offsets _ _ _ Hi) as (Hwf & _ & Hlay & _ & _ & _).
  destruct (inst_slot σ a i κ r k Hi Hr Hk) as (off & Hoff & Hin).
  exists off. split; [done|]. intros x Hx.
  pose proof (slots_disjoint _ κw κ rw r kw k offw off Hwf Hlay Hrw Hr Hkw Hk Hne Hoffw Hoff).
  apply Hm; [by apply Hin|lia].
Qed.

(** The instance whose memory has grown. *)
Lemma inst_ok_grown σ σ' a i k lm delta w' lm' r d off own :
  inst_ok σ a i → owned own a i → zget (memories i) k = Some lm →
  grow_effect (rt_world σ) lm delta w' lm' r → vmmemory lm' = Ret d → valid d →
  element_offset (offsets i) 6 k = Ret off →
  rt_world σ' = mkWorld (ptr_write (w_mem w') (vmctx_ptr a + off) d) (w_prot w') →
  inst_ok σ' a (set_memories i (<[Z.to_nat k := lm']> (memories i))) ∧
  memory (rt_mem σ') (vmctx_ptr a) (offsets i) k = Ret d.
Proof.
  intros Hi [Hown Hownm] Hk He Hd Hv Hoff Hw. pose proof (zget_Some_lt _ _ _ Hk) as Hlt.
  pose proof Hi as [Ho Hs Ha Hm Hnm Hnt Hms Hts].
  pose proof (inst_ok_offsets _ _ _ Hi) as (Hwf & Hptr & Hlay & _ & Hn & Hnt').
  pose proof (zlen_nonneg (imported_memories (module i))).
  pose proof (zlen_nonneg (imported_tables (module i))).
  destruct (inst_slot σ a i 6 _ k Hi eq_refl) as (off' & Ho' & Hin); [cbn; lia|].
  assert (off' = off) as -> by congruence. cbn [r_size] in Hin. rewrite Hptr in Hin. cbn in Hin.
  assert (Hslot : ∀ x, in_mmap (inst_mmap i) x → ¬ in_mmap (lm_mmap lm) x).
  { intros x Hx Hx'. apply Hown in Hx. apply (Hownm k lm Hk) in Hx'. congruence. }
  assert (Hfr : ∀ x, w_prot (rt_world σ) x ≠ None → ¬ in_mmap (lm_mmap lm) x →
    ¬ (vmctx_ptr a + off ≤ x < vmctx_ptr a + off + 16) →
    rt_mem σ' x = rt_mem σ x ∧ w_prot (rt_world σ') x = w_prot (rt_world σ) x).
  { intros x Hx1 Hx2 Hx3. unfold rt_mem. rewrite Hw. cbn. by eapply grow_write_frame. }
  assert (Hins : ∀ x, in_mmap (inst_mmap i) x →
    ¬ (vmctx_ptr a + off ≤ x < vmctx_ptr a + off + 2 * pointer_size (offsets i)) →
    rt_mem σ' x = rt_mem σ x).
  { intros x Hx Hx'. rewrite Hptr in Hx'. apply Hfr; auto. }
  assert (Hread : memory (rt_mem σ') (vmctx_ptr a) (offsets i) k = Ret d).
  { unfold memory. cbn [element_offset] in Hoff. rewrite Hoff, bind_Ret_l.
    unfold rt_mem. rewrite Hw. f_equal. by apply load_ptr_write. }
  split; [|done]. split; cbn; try done.
  - intros x Hx. rewrite Hw. cbn. destruct (ge_frame _ _ _ _ _ _ He x) as [_ ->]; auto.
  - by rewrite zlen_insert.
  - intros k' lm2 Hk2. rewrite zget_insert in Hk2 by done. case_decide as Ek; simplify_eq.
    + split; [|by exists d]. apply (lm_inv_frame w'); [apply He|]. intros x Hx.
      rewrite Hw. cbn. split; [|done]. apply store_bytes_out. rewrite encode_len by done.
      intros Hx2. apply Hin in Hx2. destruct (ge_region _ _ _ _ _ _ He x Hx) as [Hno|Hin2].
      * by apply (Hm x).
      * by apply (Hslot x).
    + destruct (Hms k' lm2 Hk2) as (Hlm2 & d2 & Hd2 & Hr2). split.
      * apply (lm_inv_frame (rt_world σ)); [done|]. intros x Hx. apply Hfr.
        -- by apply Hlm2.
        -- intros Hx'. apply (Hownm _ _ Hk2) in Hx. apply (Hownm _ _ Hk) in Hx'. congruence.
        -- intros Hx'%Hin. apply Hown in Hx'. apply (Hownm _ _ Hk2) in Hx. congruence.
      * exists d2. split; [done|]. rewrite <-Hr2. pose proof (zget_Some_lt _ _ _ Hk2) as Hlt2.
        destruct (other_slot σ a i 6 _ k off 6 _ k' (rt_mem σ') Hi eq_refl ltac:(cbn; lia) Hoff
          eq_refl ltac:(cbn; lia) ltac:(by right) Hins) as (off2 & Ho2 & Hin2).
        cbn [r_size] in Hin2. rewrite Hptr in Hin2.
        unfold memory. cbn [element_offset] in Ho2. rewrite Ho2, !bind_Ret_l. f_equal.
        by apply load_val_ext.
  - intros k' t Hk2. destruct (Hts k' t Hk2) as (Ht & d2 & Hd2 & Hr2). split; [done|].
    exists d2. split; [done|]. rewrite <-Hr2. pose proof (zget_Some_lt _ _ _ Hk2) as Hlt2.
    destruct (other_slot σ a i 6 _ k off 5 _ k' (rt_mem σ') Hi eq_refl ltac:(cbn; lia) Hoff
      eq_refl ltac:(cbn; lia) ltac:(by left) Hins) as (off2 & Ho2 & Hin2).
    cbn [r_size] in Hin2. rewrite Hptr in Hin2.
    unfold table. cbn [element_offset] in Ho2. rewrite Ho2, !bind_Ret_l. f_equal.
    by apply load_val_ext.
Qed.

Lemma memory_index_in_range σ a i k :
  inst_ok σ a i → 0 ≤ k < zlen (memories i) →
  0 ≤ k < num_defined_memories (offsets i).
Proof.
  intros Hi Hk. pose proof (inst_ok_offsets _ _ _ Hi) as (_ & _ & _ & _ & -> & _).
  pose proof (zlen_nonneg (imported_memories (module i))). pose proof (io_nmem _ _ _ Hi). lia.
Qed.

(** The outcome of growing the [k]-th memory of the instance at [a]. *)
Record memory_grown (σ : rt) (a k delta : Z) (i : Instance) (lm : LinearMemory)
    (σ' : rt) (r : option Z) (lm' : LinearMemory) : Prop := {
  mg_inv : rt_inv σ';
  mg_insts : rt_insts σ' =
    <[a := set_memories i (<[Z.to_nat k := lm']> (memories i))]> (rt_insts σ);
  mg_exports : rt_exports σ' = rt_exports σ;
  mg_old : ∀ x, 0 ≤ x < lm_bytes lm →
    rt_mem σ' (mm_ptr (lm_mmap lm') + x) = rt_mem σ (mm_ptr (lm_mmap lm) + x);
  mg_new : ∀ x, lm_bytes lm ≤ x < lm_bytes lm' → rt_mem σ' (mm_ptr (lm_mmap lm') + x) = 0;
  mg_current : ∃ d, vmmemory lm' = Ret d ∧
    memory (rt_mem σ') (vmctx_ptr a) (offsets i) k = Ret d;
  mg_others : ∀ b j k' lm2, rt_insts σ !! b = Some j → zget (memories j) k' = Some lm2 →
    (b, k') ≠ (a, k) → ∀ x, in_mmap (lm_mmap lm2) x → rt_mem σ' x = rt_mem σ x;
  mg_result : match r with
    | Some prev => prev = lm_current lm ∧ lm_current lm' = lm_current lm + delta
    | None => lm' = lm
    end;
}.

Lemma grow_effect_sizes w lm delta w' lm' r :
  lm_inv w lm → 0 ≤ delta → grow_effect w lm delta w' lm' r →
  0 ≤ lm_bytes lm ∧ lm_bytes lm ≤ mm_len (lm_mmap lm') ∧ lm_bytes lm' ≤ mm_len (lm_mmap lm').
Proof.
  intros [Hc _ _ _ _ _ _ _ _] Hd [[Hc' [Hg' _] Hcap' _ _ _ _ _ _] _ _ _ _ _ Hr].
  assert (lm_current lm ≤ lm_current lm') by (destruct r; [lia|by subst]).
  unfold lm_bytes, lm_capacity, WASM_PAGE_SIZE in *. lia.
Qed.

(** The invariant of the whole state after one memory has moved. *)
Lemma rt_inv_grown σ σ' own a i k lm lm' :
  (∀ a i, rt_insts σ !! a = Some i → inst_ok σ a i ∧ owned own a i) →
  rt_insts σ !! a = Some i → zget (memories i) k = Some lm →
  rt_insts σ' = <[a := set_memories i (<[Z.to_nat k := lm']> (memories i))]> (rt_insts σ) →
  inst_ok σ' a (set_memories i (<[Z.to_nat k := lm']> (memories i))) →
  (∀ x, w_prot (rt_world σ) x ≠ None → ¬ in_mmap (lm_mmap lm) x → ¬ in_mmap (inst_mmap i) x →
    rt_mem σ' x = rt_mem σ x ∧ w_prot (rt_world σ') x = w_prot (rt_world σ) x) →
  (∀ x, in_mmap (lm_mmap lm') x → own x = Some (a, Some k) ∨ w_prot (rt_world σ) x = None) →
  rt_inv σ'.
Proof.
  intros Hinv Ha Hk Hins Hi' Hfr Hnew. destruct (Hinv a i Ha) as [Hi [Hown Hownm]].
  pose proof (zget_Some_lt _ _ _ Hk) as Hlt.
  exists (λ x, if in_range (mm_ptr (lm_mmap lm')) (mm_len (lm_mmap lm')) x
               then Some (a, Some k) else own x).
  assert (Hkeep : ∀ x o, own x = Some o → o ≠ (a, Some k) → w_prot (rt_world σ) x ≠ None →
    (if in_range (mm_ptr (lm_mmap lm')) (mm_len (lm_mmap lm')) x
     then Some (a, Some k) else own x) = Some o).
  { intros x o Ho Hne Hp. destruct (in_range _ _ x) eqn:E; [|done].
    apply in_range_true, Hnew in E as [|]; congruence. }
  intros b j Hb. rewrite Hins in Hb. apply lookup_insert_Some in Hb as [[<- <-]|[Hne Hb]].
  - split; [done|]. split; cbn.
    + intros x Hx. apply Hkeep; [by apply Hown|congruence|by apply (io_mapped _ _ _ Hi)].
    + intros k' lm2 Hk2 x Hx. rewrite zget_insert in Hk2 by done. case_decide; simplify_eq.
      * by rewrite (proj2 (in_range_true _ _ _)).
      * apply Hkeep; [by apply (Hownm k' lm2)|congruence|].
        destruct (io_memories _ _ _ Hi k' lm2 Hk2) as [Hl _]. by apply Hl.
  - destruct (Hinv b j Hb) as [Hj [Hj1 Hj2]].
    assert (Hmapm : ∀ k' lm2, zget (memories j) k' = Some lm2 → ∀ x, in_mmap (lm_mmap lm2) x →
      w_prot (rt_world σ) x ≠ None).
    { intros k' lm2 Hk2 x Hx. destruct (io_memories _ _ _ Hj k' lm2 Hk2) as [Hl _]. by apply Hl. }
    assert (Hfrj : ∀ x o, own x = Some (b, o) → w_prot (rt_world σ) x ≠ None →
      rt_mem σ' x = rt_mem σ x ∧ w_prot (rt_world σ') x = w_prot (rt_world σ) x).
    { intros x o Ho Hp. apply Hfr; [done|..]; intros Hx.
      - pose proof (Hownm k lm Hk x Hx). congruence.
      - pose proof (Hown x Hx). congruence. }
    split.
    + apply (inst_ok_frame σ); [done|..].
      * intros x Hx. apply (Hfrj x None); [by apply Hj1|by apply (io_mapped _ _ _ Hj)].
      * intros k' lm2 Hk2. destruct (io_memories _ _ _ Hj k' lm2 Hk2) as [Hl _].
        apply (lm_inv_frame (rt_world σ)); [done|]. intros x Hx.
        apply (Hfrj x (Some k')); [by apply (Hj2 k' lm2)|by eapply Hmapm].
    + split.
      * intros x Hx. apply Hkeep; [by apply Hj1|congruence|by apply (io_mapped _ _ _ Hj)].
      * intros k' lm2 Hk2 x Hx. apply Hkeep; [by apply (Hj2 k' lm2)|congruence|by eapply Hmapm].
Qed.

Lemma memory_grow_outcome σ a i k lm delta :
  rt_inv σ → rt_insts σ !! a = Some i → zget (memories i) k = Some lm →
  0 < lm_offset_guard_size lm → 0 ≤ delta < 2 ^ 32 →
  ∃ σ' r lm', memory_grow σ a k delta = Ret (σ', r) ∧ memory_grown σ a k delta i lm σ' r lm'.
Proof.
  intros [own Hinv] Ha Hk Hg Hdelta. destruct (Hinv a i Ha) as [Hi [Hown Hownm]].
  pose proof (zget_Some_lt _ _ _ Hk) as Hlt. pose proof (memory_index_in_range _ _ _ _ Hi Hlt) as Hkn.
  pose proof (inst_ok_offsets _ _ _ Hi) as (_ & Hptr & _).
  destruct (io_memories _ _ _ Hi k lm Hk) as [Hlm _].
  destruct (grow_effect_holds (rt_world σ) lm delta Hlm Hg Hdelta) as (w' & lm' & r & Eg & He).
  destruct (vmmemory_valid w' lm') as (d & Hd & Hv); [apply He|rewrite (ge_guard _ _ _ _ _ _ He); done|].
  destruct (inst_slot σ a i 6 _ k Hi eq_refl Hkn) as (off & Hoff & Hin).
  cbn [r_size] in Hin. rewrite Hptr in Hin. cbn in Hin.
  eexists _, r, lm'. split.
  { unfold memory_grow, get_instance. rewrite Ha. cbn [unwrap]. rewrite bind_Ret_l.
    rewrite (proj2 (zindex_Ret _ _ _) Hk), bind_Ret_l, Eg, bind_Ret_l, zset_Ret, bind_Ret_l by done.
    cbn [offsets set_memories memories]. unfold memory_mut. cbn [element_offset] in Hoff.
    rewrite Hoff, !bind_Ret_l. unfold zindex. rewrite zget_insert, decide_True by done.
    cbn [unwrap]. rewrite bind_Ret_l, Hd, bind_Ret_l. reflexivity. }
  set (σ' := with_mem _ _). assert (Hw : rt_world σ' =
    mkWorld (ptr_write (w_mem w') (vmctx_ptr a + off) d) (w_prot w')) by done.
  assert (Hfr : ∀ x, w_prot (rt_world σ) x ≠ None → ¬ in_mmap (lm_mmap lm) x →
    ¬ in_mmap (inst_mmap i) x →
    rt_mem σ' x = rt_mem σ x ∧ w_prot (rt_world σ') x = w_prot (rt_world σ) x).
  { intros x Hx1 Hx2 Hx3. unfold rt_mem. rewrite Hw. cbn [w_mem w_prot].
    eapply grow_write_frame; eauto. }
  destruct (inst_ok_grown σ σ' a i k lm delta w' lm' r d off own Hi (conj Hown Hownm) Hk He Hd Hv
    Hoff Hw) as [Hi' Hread].
  assert (Hnew : ∀ x, in_mmap (lm_mmap lm') x → own x = Some (a, Some k) ∨
                   w_prot (rt_world σ) x = None).
  { intros x Hx. destruct (ge_region _ _ _ _ _ _ He x Hx) as [|Hx']; [by right|left; eauto]. }
  assert (Hskip : ∀ x, in_mmap (lm_mmap lm') x → ptr_write (w_mem w') (vmctx_ptr a + off) d x = w_mem w' x).
  { intros x Hx. apply store_bytes_out. rewrite encode_len by done. intros Hx2%Hin.
    destruct (Hnew x Hx) as [Hx3|Hx3]; [rewrite (Hown x Hx2) in Hx3; congruence|].
    by apply (io_mapped _ _ _ Hi x). }
  assert (Hlm' : 0 ≤ lm_bytes lm ∧ lm_bytes lm ≤ mm_len (lm_mmap lm') ∧
                 lm_bytes lm' ≤ mm_len (lm_mmap lm')).
  { exact (grow_effect_sizes _ _ delta _ _ _ Hlm ltac:(lia) He). }
  split; try done.
  - eapply (rt_inv_grown σ σ' own); eauto.
  - intros x Hx. unfold rt_mem. rewrite Hw. cbn [w_mem]. rewrite Hskip by lia.
    by apply (ge_old _ _ _ _ _ _ He).
  - intros x Hx. unfold rt_mem. rewrite Hw. cbn [w_mem].
    rewrite Hskip by lia. by apply (ge_new _ _ _ _ _ _ He).
  - by exists d.
  - intros b j k' lm2 Hb Hk' Hne x Hx. destruct (Hinv b j Hb) as [Hj [_ Hj2]].
    pose proof (Hj2 k' lm2 Hk' x Hx) as Hox. apply Hfr.
    + destruct (io_memories _ _ _ Hj k' lm2 Hk') as [Hl _]. by apply Hl.
    + intros Hx'. pose proof (Hownm _ _ Hk x Hx'). congruence.
    + intros Hx'. pose proof (Hown x Hx'). congruence.
  - apply He.
Qed.

(** C14: growing a memory on a state that satisfies the invariant.  The library
    call that compiled code makes returns the previous number of pages, or
    [2^32 - 1] when the memory cannot grow and is left as it was.  Either
    way the invariant holds again: the context's definition of the memory
    has its current base and length, the old contents are at the start of
    the (possibly moved) memory, new pages are zero, and no other memory of
    any instance has changed. *)
Theorem memory32_grow_spec (σ : rt) (a k delta : Z) (i : Instance) (lm : LinearMemory)
    (Hinv : rt_inv σ) (Ha : rt_insts σ !! a = Some i) (Hk : zget (memories i) k = Some lm)
    (Hguard : 0 < lm_offset_guard_size lm) (Hdelta : 0 ≤ delta < 2 ^ 32) :
  ∃ σ' n r lm', wasmtime_memory32_grow σ (vmctx_ptr a) delta k = Ret (σ', n) ∧
    n = default (2 ^ 32 - 1) r ∧ memory_grown σ a k delta i lm σ' r lm'.
Proof.
  destruct (memory_grow_outcome σ a i k lm delta Hinv Ha Hk Hguard Hdelta)
    as (σ' & r & lm' & E & Hg).
  unfold wasmtime_memory32_grow, instance_of_vmctx, vmctx_ptr. rewrite Z.add_simpl_r, E, bind_Ret_l.
  by exists σ', (default (2 ^ 32 - 1) r), r, lm'.
Qed.

(** The address of a definition determines its index. *)
Lemma slot_index σ a i κ r k :
  inst_ok σ a i → regions (offsets i) !! κ = Some r → r_size r = 16 → 0 ≤ k < r_count r →
  ∃ b off, fits32 (region_begin 0 (regions (offsets i)) κ) = Ret b ∧
    element_offset (offsets i) κ k = Ret off ∧
    op_sub 64 (vmctx_ptr a + off) (vmctx_ptr a + b) = Ret (k * 16).
Proof.
  intros Hi Hr Hs Hk. pose proof (inst_ok_offsets _ _ _ Hi) as (Hwf & _ & Hlay & _ & _ & _).
  destruct (region_in_layout _ Hwf κ r Hr) as (Hb & _ & _ & Hin).
  rewrite (element_offset_spec _ Hwf κ r k Hr Hlay Hk), Hs in *. revert Hb Hin.
  generalize (region_begin 0 (regions (offsets i)) κ) as b. intros b Hb Hin.
  exists b, (b + k * 16). split; [apply fits32_Ret; nia|]. split; [done|].
  rewrite op_sub_fits by nia. f_equal. lia.
Qed.

Lemma memory_index_of_definition σ a i k :
  inst_ok σ a i → 0 ≤ k < zlen (memories i) →
  ∃ p, memory_mut (vmctx_ptr a) (offsets i) k = Ret p ∧ inst_memory_index i a p = Ret k.
Proof.
  intros Hi Hk. pose proof (inst_ok_offsets _ _ _ Hi) as (Hwf & Hptr & _).
  destruct (slot_index σ a i 6 _ k Hi eq_refl) as (b & off & Hb & Hoff & Hsub);
    [cbn [r_size]; by rewrite Hptr|by eapply memory_index_in_range|].
  unfold memory_mut, inst_memory_index, memories_ptr. cbn [element_offset] in Hoff.
  rewrite Hoff, memories_begin_spec, Hb, !bind_Ret_l by done. eexists; split; [done|].
  rewrite !bind_Ret_l, Hsub, bind_Ret_l. change (size_of VMMemoryDefinition) with 16.
  rewrite Z.div_mul by done. by rewrite (proj2 (Z.ltb_lt _ _)) by lia.
Qed.

Lemma table_index_of_definition σ a i k :
  inst_ok σ a i → 0 ≤ k < zlen (tables i) →
  ∃ p, table_mut (vmctx_ptr a) (offsets i) k = Ret p ∧ inst_table_index i a p = Ret k.
Proof.
  intros Hi Hk. pose proof (inst_ok_offsets _ _ _ Hi) as (Hwf & Hptr & _ & _ & _ & Hn).
  pose proof (zlen_nonneg (imported_tables (module i))). pose proof (io_ntab _ _ _ Hi).
  destruct (slot_index σ a i 5 _ k Hi eq_refl) as (b & off & Hb & Hoff & Hsub);
    [cbn [r_size]; by rewrite Hptr|cbn [r_count]; lia|].
  unfold table_mut, inst_table_index, tables_ptr. cbn [element_offset] in Hoff.
  rewrite Hoff, tables_begin_spec, Hb, !bind_Ret_l by done. eexists; split; [done|].
  rewrite !bind_Ret_l, Hsub, bind_Ret_l. change (size_of VMTableDefinition) with 16.
  rewrite Z.div_mul by done. by rewrite (proj2 (Z.ltb_lt _ _)) by lia.
Qed.

(** C29: importing a memory.  When a context imports what another instance
    exports under some name, and that is the memory with defined index [k],
    then growing the import is growing that memory of the exporting
    instance -- in every state, with the same result -- and the size seen
    through the import is its current number of pages. *)
Theorem imported_memory_is_shared (σ : rt) (a b k n delta : Z) (i j : Instance)
    (lm : LinearMemory) (field : string) (index definition vmctx : Z) (plan : MemoryPlan)
    (Hinv : rt_inv σ) (Ha : rt_insts σ !! a = Some i) (Hb : rt_insts σ !! b = Some j)
    (Hexp : imap_get (exports (module j)) field = Some (ExportMemory index))
    (Hdef : defined_memory_index (module j) index = Some k)
    (Hk : zget (memories j) k = Some lm)
    (Hlook : inst_lookup σ b field = Ret (Some (RtMemory definition vmctx plan)))
    (Himp : imported_memory (rt_mem σ) (vmctx_ptr a) (offsets i) n =
            Ret (mkVMMemoryImport definition vmctx)) :
  imported_memory_grow σ a n delta = memory_grow σ b k delta ∧
  wasmtime_imported_memory32_size σ (vmctx_ptr a) n = Ret (lm_current lm).
Proof.
  destruct Hinv as [own Hinv]. destruct (Hinv b j Hb) as [Hj _].
  destruct (memory_index_of_definition σ b j k Hj) as (p & Hp & Hidx); [by eapply zget_Some_lt|].
  unfold inst_lookup, get_instance in Hlook. rewrite Hb in Hlook. cbn [unwrap] in Hlook.
  rewrite bind_Ret_l, Hexp in Hlook. cbn [lookup_by_declaration] in Hlook.
  rewrite Hdef, Hp, !bind_Ret_l in Hlook. res_inv Hlook.
  assert (Htarget : imported_memory_target σ a n = Ret (b, k)).
  { unfold imported_memory_target, get_instance. rewrite Ha. cbn [unwrap].
    rewrite bind_Ret_l, Himp, bind_Ret_l. cbn [mi_vmctx mi_from].
    unfold instance_of_vmctx, vmctx_ptr. rewrite Z.add_simpl_r, Hb. cbn [unwrap].
    by rewrite bind_Ret_l, Hidx. }
  unfold imported_memory_grow, wasmtime_imported_memory32_size, imported_memory_size.
  unfold instance_of_vmctx at 1, vmctx_ptr at 1. rewrite Z.add_simpl_r, Htarget, !bind_Ret_l.
  split; [done|]. unfold memory_size, get_instance. rewrite Hb. cbn [unwrap].
  by rewrite bind_Ret_l, (proj2 (zindex_Ret _ _ _) Hk).
Qed.
End grow_memory.

(** ** Data segments *)
Section data_segments.
Context `{OSLaws} `{InstanceLayoutLaws}.
Set Default Proof Using "Type*".

(** [x] is a byte of the current pages of some instance's memory. *)
Definition in_linear (σ : rt) (x : Z) : Prop :=
  ∃ b j k lm, rt_insts σ !! b = Some j ∧ zget (memories j) k = Some lm ∧
    mm_ptr (lm_mmap lm) ≤ x < mm_ptr (lm_mmap lm) + lm_bytes lm.

(** The states differ in the contents of linear memories only. *)
Record same_but_linear (σ σ' : rt) : Prop := {
  sl_insts : rt_insts σ' = rt_insts σ;
  sl_exports : rt_exports σ' = rt_exports σ;
  sl_prot : w_prot (rt_world σ') = w_prot (rt_world σ);
  sl_mem : ∀ x, ¬ in_linear σ x → rt_mem σ' x = rt_mem σ x;
}.

Lemma pages_in_mapping w lm x :
  lm_inv w lm → mm_ptr (lm_mmap lm) ≤ x < mm_ptr (lm_mmap lm) + lm_bytes lm →
  in_mmap (lm_mmap lm) x.
Proof. intros [_ [Hg _] Hc _ _ _ _ _ _] Hx. unfold lm_capacity in Hc. lia. Qed.

(** The owner of a byte that is in some memory's pages. *)
Lemma in_linear_owner σ own x :
  (∀ a i, rt_insts σ !! a = Some i → inst_ok σ a i ∧ owned own a i) → in_linear σ x →
  ∃ b j k lm, rt_insts σ !! b = Some j ∧ zget (memories j) k = Some lm ∧
    own x = Some (b, Some k) ∧ x < mm_ptr (lm_mmap lm) + lm_bytes lm.
Proof.
  intros Hinv (b & j & k & lm & Hb & Hk & Hx). destruct (Hinv b j Hb) as [Hj [_ Ho]].
  destruct (io_memories _ _ _ Hj k lm Hk) as [Hl _]. exists b, j, k, lm.
  split_and!; [done..| |lia]. apply (Ho k lm Hk). by eapply pages_in_mapping.
Qed.

Lemma inst_not_linear σ a i x :
  rt_inv σ → rt_insts σ !! a = Some i → in_mmap (inst_mmap i) x → ¬ in_linear σ x.
Proof.
  intros [own Hinv] Ha Hx Hl. destruct (Hinv a i Ha) as [_ [Ho _]].
  destruct (in_linear_owner σ own x Hinv Hl) as (b & j & k & lm & _ & _ & Hox & _).
  specialize (Ho x Hx). congruence.
Qed.

(** Reserved pages are in no memory's current pages. *)
Lemma reserved_not_linear σ b j k lm x :
  rt_inv σ → rt_insts σ !! b = Some j → zget (memories j) k = Some lm →
  mm_ptr (lm_mmap lm) + lm_bytes lm ≤ x < mm_ptr (lm_mmap lm) + lm_capacity lm → ¬ in_linear σ x.
Proof.
  intros [own Hinv] Hb Hk Hx Hl. destruct (Hinv b j Hb) as [Hj [_ Ho]].
  destruct (io_memories _ _ _ Hj k lm Hk) as [[Hc [Hg _] _ _ _ _ _ _ _] _].
  destruct (in_linear_owner σ own x Hinv Hl) as (b' & j' & k' & lm' & Hb' & Hk' & Hox & Hlt).
  assert (own x = Some (b, Some k)) as Hox2.
  { apply (Ho k lm Hk). unfold lm_capacity, lm_bytes, WASM_PAGE_SIZE in *. lia. }
  simplify_eq. lia.
Qed.

(** An access to a context reads bytes of its instance only. *)
Lemma slot_agree {A} `{ReprC A} σ σ' a i κ r n :
  rt_inv σ → same_but_linear σ σ' → rt_insts σ !! a = Some i →
  regions (offsets i) !! κ = Some r → 0 ≤ n < r_count r → r_size r = size_of A →
  (element_offset (offsets i) κ n ≫= λ off, Ret (load_val (A := A) (rt_mem σ') (vmctx_ptr a + off))) =
  (element_offset (offsets i) κ n ≫= λ off, Ret (load_val (A := A) (rt_mem σ) (vmctx_ptr a + off))).
Proof.
  intros Hinv Hs Ha Hr Hn Hsz. pose proof Hinv as [own Hinv'].
  destruct (Hinv' a i Ha) as [Hi _]. destruct (inst_slot σ a i κ r n Hi Hr Hn) as (off & -> & Hin).
  rewrite !bind_Ret_l. unfold load_val. do 2 f_equal. apply load_bytes_ext. intros x Hx.
  apply (sl_mem _ _ Hs). eapply inst_not_linear; [done..|]. apply Hin. lia.
Qed.

(** The counts of a context's arrays. *)
Lemma inst_counts σ a i :
  inst_ok σ a i →
  num_imported_memories (offsets i) = zlen (imported_memories (module i)) ∧
  num_imported_globals (offsets i) = zlen (imported_globals (module i)) ∧
  num_imported_tables (offsets i) = zlen (imported_tables (module i)) ∧
  num_imported_functions (offsets i) = zlen (imported_funcs (module i)).
Proof. intros [Ho _ _ _ _ _ _ _]. apply VMOffsets_new_inv in Ho as [-> _]. done. Qed.

Lemma imported_memory_agree σ σ' a i n :
  rt_inv σ → same_but_linear σ σ' → rt_insts σ !! a = Some i →
  0 ≤ n < zlen (imported_memories (module i)) →
  imported_memory (rt_mem σ') (vmctx_ptr a) (offsets i) n =
  imported_memory (rt_mem σ) (vmctx_ptr a) (offsets i) n.
Proof.
  intros Hinv Hs Ha Hn. pose proof Hinv as [own Hinv']. destruct (Hinv' a i Ha) as [Hi _].
  destruct (inst_counts _ _ _ Hi) as (Hc & _). rewrite <-Hc in Hn. destruct (inst_ok_offsets _ _ _ Hi) as (_ & Hp & _).
  apply (slot_agree (A := VMMemoryImport) σ σ' a i 3 _ n Hinv Hs Ha eq_refl Hn). cbn. lia.
Qed.

Lemma imported_global_agree σ σ' a i n :
  rt_inv σ → same_but_linear σ σ' → rt_insts σ !! a = Some i →
  0 ≤ n < zlen (imported_globals (module i)) →
  imported_global (rt_mem σ') (vmctx_ptr a) (offsets i) n =
  imported_global (rt_mem σ) (vmctx_ptr a) (offsets i) n.
Proof.
  intros Hinv Hs Ha Hn. pose proof Hinv as [own Hinv']. destruct (Hinv' a i Ha) as [Hi _].
  destruct (inst_counts _ _ _ Hi) as (_ & Hc & _). rewrite <-Hc in Hn.
  destruct (inst_ok_offsets _ _ _ Hi) as (_ & Hp & _).
  apply (slot_agree (A := VMGlobalImport) σ σ' a i 4 _ n Hinv Hs Ha eq_refl Hn). cbn. lia.
Qed.

(** The slice of the memory [k] of an instance. *)
Lemma memory_slice_linear σ a i k d :
  rt_inv σ → rt_insts σ !! a = Some i → 0 ≤ k < zlen (memories i) →
  memory (rt_mem σ) (vmctx_ptr a) (offsets i) k = Ret d →
  ∀ x, md_base d ≤ x < md_base d + md_current_length d → in_linear σ x.
Proof.
  intros [own Hinv] Ha Hk Hd x Hx. destruct (Hinv a i Ha) as [Hi _].
  apply zget_is_Some in Hk as [lm Hk]. destruct (io_memories _ _ _ Hi k lm Hk) as (Hl & d' & Hd' & Hr).
  assert (d' = d) as -> by congruence. exists a, i, k, lm.
  split; [done|]. split; [done|].
  destruct Hl as [Hc [Hg _] Hcap _ _ _ _ _ _].
  unfold lm_bytes, lm_capacity, WASM_PAGE_SIZE, WASM_MAX_PAGES in *.
  unfold vmmemory, WASM_PAGE_SIZE in Hd'. rewrite op_mul_fits in Hd' by lia. cbn in Hd'.
  simplify_eq. done.
Qed.

(** What an initializer needs: indices in the index spaces, an offset of 32
    bits, and, for an offset relative to a global, a global that is not
    stored in a linear memory. *)
Record init_wf (σ : rt) (a : Z) (i : Instance) (init : DataInitializer) : Prop := {
  iw_memory : 0 ≤ dl_memory_index (di_location init) < zlen (memory_plans (module i));
  iw_offset : 0 ≤ dl_offset (di_location init);
  iw_base : ∀ base, dl_base (di_location init) = Some base →
    0 ≤ base ∧ ∃ p, global_address (rt_mem σ) (module i) (vmctx_ptr a) (offsets i) base = Ret p ∧
      ∀ x, p ≤ x < p + 4 → ¬ in_linear σ x ∧ 0 ≤ rt_mem σ x < 256;
}.

Lemma global_address_agree σ σ' a i base :
  rt_inv σ → same_but_linear σ σ' → rt_insts σ !! a = Some i → 0 ≤ base →
  global_address (rt_mem σ') (module i) (vmctx_ptr a) (offsets i) base =
  global_address (rt_mem σ) (module i) (vmctx_ptr a) (offsets i) base.
Proof.
  intros Hinv Hs Ha Hb. unfold global_address, defined_global_index, is_imported_global.
  destruct (Z.ltb_spec base (zlen (imported_globals (module i)))); [|done].
  by rewrite (imported_global_agree σ σ') by done.
Qed.

Lemma init_start_agree σ σ' a i init :
  rt_inv σ → same_but_linear σ σ' → rt_insts σ !! a = Some i → init_wf σ a i init →
  get_memory_init_start σ' a init = get_memory_init_start σ a init.
Proof.
  intros Hinv Hs Ha [_ _ Hbase]. unfold get_memory_init_start, init_start, get_instance.
  destruct (dl_base (di_location init)) as [base|]; [|done].
  destruct (Hbase base eq_refl) as (Hb & p & Hp & Hx).
  rewrite (sl_insts _ _ Hs), Ha. cbn [unwrap]. rewrite !bind_Ret_l.
  rewrite (global_address_agree σ σ'), Hp, !bind_Ret_l by done. f_equal.
  apply load_le_ext. intros x Hx'. apply (sl_mem _ _ Hs), Hx. lia.
Qed.

Lemma inst_memory_index_bound i a p k :
  inst_memory_index i a p = Ret k → 0 ≤ k < zlen (memories i).
Proof.
  unfold inst_memory_index. intros E. apply bind_Ret in E as (b & _ & E).
  apply bind_Ret in E as (d & Hd & E). apply bind_Ret in E as ([] & Ha & E).
  apply op_sub_Ret in Hd as [-> Hd]. apply rassert_Ret, Z.ltb_lt in Ha.
  injection E as <-. split; [|done]. apply Z.div_pos; cbn; lia.
Qed.

Lemma get_memory_slice_agree σ σ' a i init :
  rt_inv σ → same_but_linear σ σ' → rt_insts σ !! a = Some i → init_wf σ a i init →
  get_memory_slice σ' a init = get_memory_slice σ a init ∧
  ∀ d, get_memory_slice σ a init = Ret d →
    ∀ x, md_base d ≤ x < md_base d + md_current_length d → in_linear σ x.
Proof.
  intros Hinv Hs Ha [Hm _ _]. unfold get_memory_slice, imported_memory_target, get_instance.
  rewrite (sl_insts _ _ Hs), Ha. cbn [unwrap]. rewrite !bind_Ret_l.
  pose proof Hinv as [own Hinv']. set (n := dl_memory_index (di_location init)) in *.
  assert (Hread : ∀ b j k, rt_insts σ !! b = Some j → 0 ≤ k < zlen (memories j) →
    memory (rt_mem σ') (vmctx_ptr b) (offsets j) k = memory (rt_mem σ) (vmctx_ptr b) (offsets j) k).
  { intros b j k Hb Hk. destruct (Hinv' b j Hb) as [Hj _]. apply (memory_ext σ b j); [done..|].
    intros x Hx. apply (sl_mem _ _ Hs). by eapply inst_not_linear. }
  unfold defined_memory_index.
  destruct (Z.ltb_spec n (zlen (imported_memories (module i)))) as [Hn|Hn].
  - rewrite (imported_memory_agree σ σ' a i n) by (done || lia).
    destruct (imported_memory (rt_mem σ) (vmctx_ptr a) (offsets i) n) as [imp|]; [|done].
    rewrite !bind_Ret_l. set (b := instance_of_vmctx (mi_vmctx imp)).
    destruct (rt_insts σ !! b) as [j|] eqn:Hb; [|done]. cbn [unwrap]. rewrite !bind_Ret_l.
    destruct (inst_memory_index j b (mi_from imp)) as [k|] eqn:Ek; [|done]. rewrite !bind_Ret_l.
    rewrite Hb. cbn [unwrap]. rewrite !bind_Ret_l.
    assert (Hk : 0 ≤ k < zlen (memories j)) by by eapply inst_memory_index_bound.
    split; [by apply Hread|]. intros d Hd. by eapply (memory_slice_linear σ b j k).
  - destruct (Hinv' a i Ha) as [Hi _]. pose proof (io_nmem _ _ _ Hi).
    split; [apply Hread; [done|lia]|]. intros d Hd. eapply (memory_slice_linear σ a i); [done..| |done]. lia.
Qed.

(** One segment: the state after it differs in a linear memory only. *)
Lemma initialize_memory_step σ a i init σ1 start d :
  rt_inv σ → same_but_linear σ σ1 → rt_insts σ !! a = Some i → init_wf σ a i init →
  get_memory_init_start σ a init = Ret start → get_memory_slice σ a init = Ret d →
  range_fits (md_current_length d) start (zlen (di_data init)) = Ret true →
  ∃ σ2, initialize_memory σ1 a init = Ret σ2 ∧ same_but_linear σ σ2 ∧
    rt_mem σ2 = store_bytes (rt_mem σ1) (md_base d + start) (di_data init) ∧
    0 ≤ start ∧ start + zlen (di_data init) ≤ md_current_length d.
Proof.
  intros Hinv Hs Ha Hwf Est Esl Hfit.
  destruct (get_memory_slice_agree σ σ1 a i init Hinv Hs Ha Hwf) as [Hsl Hlin].
  assert (Hst0 : 0 ≤ start).
  { unfold get_memory_init_start, init_start in Est. destruct Hwf as [_ ? _].
    destruct (dl_base _); [|by simplify_eq].
    apply bind_Ret in Est as (i' & _ & Est). apply bind_Ret in Est as (g & _ & Est).
    apply op_add_Ret in Est as [-> ?]. lia. }
  unfold initialize_memory. rewrite (init_start_agree σ σ1 a i), Est, bind_Ret_l by done.
  rewrite Hsl, Esl, bind_Ret_l, Hfit, bind_Ret_l. cbn [rassert]. rewrite bind_Ret_l.
  unfold range_fits in Hfit. apply bind_Ret in Hfit as (e & [-> _]%op_add_Ret & Hfit).
  injection Hfit as Hfit. apply andb_true_iff in Hfit as [Hle1%Z.leb_le Hle2%Z.leb_le].
  eexists; split; [done|]. split_and!; [|done|done|lia]. destruct Hs as [Hs1 Hs2 Hs3 Hs4].
  split; cbn; try done. intros x Hx. unfold rt_mem. cbn. rewrite store_bytes_out; [by apply Hs4|].
  intros Hx'. apply Hx. apply (Hlin d Esl). lia.
Qed.

(** The stores that the segments amount to: data at the memory's base plus
    the segment's start, both as computed before any segment is written. *)
Definition segment_store (σ : rt) (a : Z) (init : DataInitializer) (s : Z * list Z) : Prop :=
  ∃ start d, get_memory_init_start σ a init = Ret start ∧ get_memory_slice σ a init = Ret d ∧
    s = (md_base d + start, di_data init) ∧
    0 ≤ start ∧ start + zlen (di_data init) ≤ md_current_length d.

Lemma initialize_memories_run σ a i inits σ1 :
  rt_inv σ → same_but_linear σ σ1 → rt_insts σ !! a = Some i → Forall (init_wf σ a i) inits →
  check_memory_init_bounds σ a inits = Ret (Ok tt) →
  ∃ σ' ss, initialize_memories σ1 a inits = Ret σ' ∧ same_but_linear σ σ' ∧
    Forall2 (segment_store σ a) inits ss ∧ rt_mem σ' = stores (rt_mem σ1) ss.
Proof.
  intros Hinv Hs Ha Hwf. revert σ1 Hs.
  induction Hwf as [|init inits Hw _ IH]; intros σ1 Hs Hc; cbn in Hc.
  { exists σ1, []. by repeat split; try apply Hs. }
  apply bind_Ret in Hc as (start & Est & Hc). apply bind_Ret in Hc as (d & Esl & Hc).
  apply bind_Ret in Hc as (fits & Hfit & Hc). destruct fits; [|done]. cbn in Hc.
  destruct (initialize_memory_step σ a i init σ1 start d Hinv Hs Ha Hw Est Esl Hfit)
    as (σ2 & E & Hs2 & Hm & Hst & Hend).
  destruct (IH σ2 Hs2 Hc) as (σ' & ss & E' & Hs' & Hss & Hm').
  exists σ', ((md_base d + start, di_data init) :: ss). unfold initialize_memories in *. cbn [foldM].
  rewrite E, bind_Ret_l. split_and!; [done|done| |].
  - constructor; [|done]. by exists start, d.
  - rewrite Hm', Hm. done.
Qed.

(** The invariant does not depend on the contents of linear memories. *)
Lemma rt_inv_linear σ σ' : rt_inv σ → same_but_linear σ σ' → rt_inv σ'.
Proof.
  intros Hinv Hs. pose proof Hinv as [own Hinv']. exists own. intros b j Hb.
  rewrite (sl_insts _ _ Hs) in Hb. destruct (Hinv' b j Hb) as [Hj Ho]. split; [|done].
  apply (inst_ok_frame σ); [done|..].
  - intros x Hx. rewrite (sl_prot _ _ Hs). split; [|done]. apply (sl_mem _ _ Hs).
    by eapply inst_not_linear.
  - intros k lm Hk. destruct (io_memories _ _ _ Hj k lm Hk) as [Hl _]. pose proof Hl as [].
    split; try done; rewrite ?(sl_prot _ _ Hs); try done; intros x Hx.
    etrans; [apply (sl_mem _ _ Hs); by eapply reserved_not_linear|by apply Hl].
Qed.

(** C17: data segments.  Once [check_memory_init_bounds] has accepted the
    segments of an instance, [initialize_memories] writes all of them
    without panicking -- the bounds it computes while it writes are the ones
    that were checked, although earlier segments have changed memory in
    between.  The resulting memory is the old one with the segments' bytes
    stored in order, each inside its memory, nothing outside linear
    memories has changed, and the invariant holds. *)
Theorem checked_segments_apply (σ : rt) (a : Z) (i : Instance) (inits : list DataInitializer)
    (Hinv : rt_inv σ) (Ha : rt_insts σ !! a = Some i) (Hwf : Forall (init_wf σ a i) inits)
    (Hcheck : check_memory_init_bounds σ a inits = Ret (Ok tt)) :
  ∃ σ' ss, initialize_memories σ a inits = Ret σ' ∧
    Forall2 (segment_store σ a) inits ss ∧ rt_mem σ' = stores (rt_mem σ) ss ∧
    same_but_linear σ σ' ∧ rt_inv σ'.
Proof.
  destruct (initialize_memories_run σ a i inits σ Hinv) as (σ' & ss & ? & ? & ? & ?);
    [by split|done..|]. exists σ', ss. split_and!; try done. by eapply rt_inv_linear.
Qed.
End data_segments.

(** ** A concrete state, for the witnesses

    One instance at [2^41] defines and exports the memory of [Memory.v]'s
    examples; another, at [2^42], imports it. *)
Section example.
#[local] Existing Instance toy_os.
#[local] Existing Instance toy_laws.
#[local] Instance ex_layout : InstanceLayout := {| instance_size := 256; vmctx_offset := 256 |}.
#[local] Instance ex_layout_laws : InstanceLayoutLaws.
Proof. split; cbn; lia. Qed.

Definition ex_exporter : Module_ :=
  mkModule [] [] [] [] [] [] [] [toy_plan] [] [("mem", ExportMemory 0)] None [].
Definition ex_importer : Module_ :=
  mkModule [] [] [] [("env", "mem")] [] [] [] [toy_plan] [] [] None [].

Definition ex_lm : LinearMemory := toy_lm 0x10000 0x40000.
Definition ex_b : Z := 2 ^ 41.
Definition ex_a : Z := 2 ^ 42.
Definition ex_inst_b : Instance :=
  mkInstance 2 ∅ (mkMmap ex_b 4096) ex_exporter
    (res_val ex_offsets (VMOffsets_new 8 ex_exporter)) 0 [ex_lm] [] [].
Definition ex_inst_a : Instance :=
  mkInstance 1 {[ ex_b ]} (mkMmap ex_a 4096) ex_importer
    (res_val ex_offsets (VMOffsets_new 8 ex_importer)) 0 [] [] [].

Definition ex_stores : list (Z * list Z) :=
  [(ex_b + 256, encode (mkVMMemoryDefinition (2 ^ 40) 65536));
   (ex_a + 256, encode (mkVMMemoryImport (ex_b + 256) (ex_b + 256)))].
Definition ex_prot (x : Z) : option prot :=
  if in_range ex_b 4096 x then Some ReadWrite
  else if in_range ex_a 4096 x then Some ReadWrite else toy_prot x.
Definition ex_rt : rt :=
  mkRt (mkWorld (stores (λ _, 0) ex_stores) ex_prot)
    {[ ex_b := ex_inst_b; ex_a := ex_inst_a ]} {[ 0 := ∅ ]} handlers_new.

Definition ex_own (x : Z) : option (Z * option Z) :=
  if in_range ex_b 4096 x then Some (ex_b, None)
  else if in_range ex_a 4096 x then Some (ex_a, None)
  else if in_range (2 ^ 40) 0x40000 x then Some (ex_b, Some 0) else None.

Lemma ex_rt_inv : rt_inv ex_rt.
Proof.
  exists ex_own. intros a i Hi. cbn [rt_insts ex_rt] in Hi.
  apply lookup_insert_Some in Hi as [[<- <-]|[_ Hi]].
  - split.
    + split; [reflexivity|exists 48; split; [reflexivity|cbn; lia]|cbn; unfold ex_b; lia|..].
      * intros x Hx. cbn in Hx |- *. unfold ex_prot. by rewrite (proj2 (in_range_true _ _ _)) by lia.
      * reflexivity.
      * reflexivity.
      * intros k lm [-> ->]%zget_singleton. split; [|eexists; split; vm_compute; reflexivity].
        assert (Ht := toy_lm_inv 0x10000 (or_intror eq_refl)). destruct Ht as [? ? ? ? ? ? Hm Ha Hz].
        split; try done.
        -- intros x Hx. cbn in Hx |- *. unfold ex_prot. case_match; [done|]. case_match; [done|].
           by apply Hm.
        -- intros x Hx. pose proof (Ha x Hx) as Hp. cbn in Hx, Hp |- *. unfold ex_prot.
           case_match; [done|]. case_match; [done|]. done.
        -- intros x Hx. cbn in Hx. change (w_mem (rt_world ex_rt) x) with (stores (λ _, 0) ex_stores x).
           apply stores_out. unfold ex_stores, ex_a, ex_b. intros p bs Hin.
           unfold lm_bytes, lm_capacity, WASM_PAGE_SIZE in Hx. cbn in Hx.
           apply elem_of_cons in Hin as [[= -> ->]|Hin]; [lia|].
           apply list_elem_of_singleton in Hin as [= -> ->]. lia.
      * by intros k t []%zget_nil.
    + split.
      * intros x Hx. cbn in Hx. unfold ex_own. by rewrite (proj2 (in_range_true _ _ _)) by lia.
      * intros k lm [-> ->]%zget_singleton x Hx. cbn in Hx. unfold ex_own, ex_b, ex_a.
        rewrite !(proj2 (in_range_false _ _ _)) by lia. by rewrite (proj2 (in_range_true _ _ _)) by lia.
  - apply lookup_singleton_Some in Hi as [<- <-]. split.
    + split; [reflexivity|exists 64; split; [reflexivity|cbn; lia]|cbn; unfold ex_a; lia|..].
      * intros x Hx. cbn in Hx |- *. unfold ex_prot. case_match; [done|].
        by rewrite (proj2 (in_range_true _ _ _)) by lia.
      * reflexivity.
      * reflexivity.
      * by intros k lm []%zget_nil.
      * by intros k t []%zget_nil.
    + split.
      * intros x Hx. cbn in Hx. unfold ex_own. unfold ex_a, ex_b in *.
        rewrite (proj2 (in_range_false _ _ _)) by lia. by rewrite (proj2 (in_range_true _ _ _)) by lia.
      * by intros k lm []%zget_nil.
Qed.

Lemma memory32_grow_spec_witness :
  ∃ σ' n r lm', wasmtime_memory32_grow ex_rt (vmctx_ptr ex_b) 2 0 = Ret (σ', n) ∧
    n = default (2 ^ 32 - 1) r ∧ memory_grown ex_rt ex_b 0 2 ex_inst_b ex_lm σ' r lm'.
Proof.
  apply (memory32_grow_spec ex_rt ex_b 0 2 ex_inst_b ex_lm);
    [apply ex_rt_inv|reflexivity|reflexivity|reflexivity|lia].
Defined.

Lemma imported_memory_is_shared_witness :
  imported_memory_grow ex_rt ex_a 0 2 = memory_grow ex_rt ex_b 0 2 ∧
  wasmtime_imported_memory32_size ex_rt (vmctx_ptr ex_a) 0 = Ret 1.
Proof.
  apply (imported_memory_is_shared ex_rt ex_a ex_b 0 0 2 ex_inst_a ex_inst_b ex_lm "mem" 0
    (ex_b + 256) (ex_b + 256) toy_plan);
    [apply ex_rt_inv|vm_compute; reflexivity..].
Defined.

Definition ex_data : list DataInitializer :=
  [mkDataInitializer (mkDataInitializerLocation 0 None 10) [1; 2; 3];
   mkDataInitializer (mkDataInitializerLocation 0 None 11) [9]].

Lemma checked_segments_apply_witness :
  ∃ σ' ss, initialize_memories ex_rt ex_a ex_data = Ret σ' ∧
    rt_mem σ' = stores (rt_mem ex_rt) ss ∧ same_but_linear ex_rt σ'.
Proof.
  destruct (checked_segments_apply ex_rt ex_a ex_inst_a ex_data)
    as (σ' & ss & E & _ & Hm & Hs & _).
  - apply ex_rt_inv.
  - reflexivity.
  - apply Forall_cons; split; [|apply Forall_singleton]; (split; cbn;
      [split; [lia|reflexivity]|lia|intros base Hb; discriminate Hb]).
  - vm_compute. reflexivity.
  - exists σ', ss. split; [exact E|]. split; [exact Hm|exact Hs].
Defined.
End example.
