(* ===== verification/Instantiate.v ===== *)
(** * Correctness of instantiation

    [InstanceHandle::new] ([Instance.InstanceHandle_new]): the new instance
    is placed beside the existing ones, its context describes its memories
    and tables and holds its imports, and an error changes nothing that
    existed before. *)

From S2P Require Import Prelude Environ ModuleEnv VMOffsets Store Registry Memory VMContext.
From S2P Require Import Table Instance InstanceProofs.
Local Open Scope Z_scope.

Lemma preserves_refl w : preserves w w.
Proof. by intros x _. Qed.

Lemma preserves_trans w1 w2 w3 : preserves w1 w2 → preserves w2 w3 → preserves w1 w3.
Proof.
  intros H1 H2 x Hx. destruct (H1 x Hx) as [Hm Hp]. destruct (H2 x) as [Hm' Hp']; [by rewrite Hp|].
  split; congruence.
Qed.

(** ** Creating the memories *)
Section memories.
Context `{OSLaws}.
Set Default Proof Using "Type*".

(** Memories that were created since the world was [w0]. *)
Record fresh_memories (w0 w : world) (l : list LinearMemory) : Prop := {
  fm_old : preserves w0 w;
  fm_inv : ∀ k lm, zget l k = Some lm → lm_inv w lm ∧ 0 < lm_offset_guard_size lm;
  fm_new : ∀ k lm x, zget l k = Some lm → in_mmap (lm_mmap lm) x → w_prot w0 x = None;
  fm_disjoint : ∀ k1 k2 lm1 lm2 x, zget l k1 = Some lm1 → zget l k2 = Some lm2 →
    in_mmap (lm_mmap lm1) x → in_mmap (lm_mmap lm2) x → k1 = k2;
  fm_rest : ∀ x, (∀ k lm, zget l k = Some lm → ¬ in_mmap (lm_mmap lm) x) → w_prot w x = w_prot w0 x;
}.

Lemma fresh_memories_nil w : fresh_memories w w [].
Proof. split; [apply preserves_refl|..|done]; intros *; rewrite ?zget_nil; intros Hk; by apply zget_nil in Hk. Qed.

Lemma lm_inv_preserves w w' lm : lm_inv w lm → preserves w w' → lm_inv w' lm.
Proof.
  intros Hi Hp. apply (lm_inv_frame w); [done|]. intros x Hx. apply Hp. by apply Hi.
Qed.

Lemma zget_snoc {A} (l : list A) x k y :
  zget (l ++ [x]) k = Some y → zget l k = Some y ∨ k = zlen l ∧ y = x.
Proof.
  intros Hk. destruct (decide (k < zlen l)); [left; by rewrite zget_app_l in Hk|right].
  rewrite zget_app_r in Hk by lia. pose proof (zget_Some_lt _ _ _ Hk) as Hlt.
  unfold zlen in Hlt. cbn in Hlt. assert (k = zlen l) as -> by (unfold zlen; lia).
  rewrite Z.sub_diag in Hk. by injection Hk as <-.
Qed.

Lemma fresh_memories_snoc w0 w w' l lm :
  fresh_memories w0 w l → preserves w w' → lm_inv w' lm → 0 < lm_offset_guard_size lm →
  (∀ x, in_mmap (lm_mmap lm) x → w_prot w x = None) →
  same_outside (mm_ptr (lm_mmap lm)) (mm_len (lm_mmap lm)) w w' → fresh_memories w0 w' (l ++ [lm]).
Proof.
  intros [Hold Hinv Hnew Hd Hrest] Hp Hlm Hg Hfresh Hout.
  assert (Hw0 : ∀ x, in_mmap (lm_mmap lm) x → w_prot w0 x = None).
  { intros x Hx. destruct (w_prot w0 x) eqn:E; [|done].
    destruct (Hold x) as [_ Hpx]; [by rewrite E|]. rewrite (Hfresh x Hx), E in Hpx. done. }
  assert (Hsep : ∀ k lm1 x, zget l k = Some lm1 → in_mmap (lm_mmap lm1) x →
    in_mmap (lm_mmap lm) x → False).
  { intros k lm1 x Hk Hx Hx'. destruct (Hinv k lm1 Hk) as [Hi _].
    by apply (li_mapped _ _ Hi x Hx), Hfresh. }
  split.
  - by eapply preserves_trans.
  - intros k lm1 [Hk|[-> ->]]%zget_snoc; [|done].
    destruct (Hinv k lm1 Hk). split; [by eapply lm_inv_preserves|done].
  - intros k lm1 x [Hk|[-> ->]]%zget_snoc; [by eapply Hnew|apply Hw0].
  - intros k1 k2 lm1 lm2 x [Hk1|[-> ->]]%zget_snoc [Hk2|[-> ->]]%zget_snoc Hx1 Hx2;
      [by eapply Hd|exfalso; by eapply Hsep..|done].
  - intros x Hx. rewrite (proj2 (Hout x (Hx _ _ (zget_snoc_last l lm)))). apply Hrest.
    intros k lm1 Hk. apply (Hx k). by apply zget_app_Some_l.
Qed.

Lemma drop_mappings_restores w0 l : ∀ w,
  preserves w0 w →
  (∀ m, m ∈ l → 0 ≤ mm_len m ∧ (mm_len m = 0 ∨ mm_ptr m mod page_size = 0) ∧
     ∀ x, in_mmap m x → w_prot w0 x = None) →
  (∀ x, (∀ m, m ∈ l → ¬ in_mmap m x) → w_prot w x = w_prot w0 x) →
  ∃ w', foldM Mmap_drop w l = Ret w' ∧ restores w0 w'.
Proof.
  induction l as [|m l IH]; intros w Hp Hl Hrest; cbn [foldM].
  { exists w. split; [done|]. split; [done|]. intros x. apply Hrest. intros m Hm. by apply elem_of_nil in Hm. }
  destruct (Hl m) as (Hlen & Hpg & Hx); [left|].
  destruct (Mmap_drop_spec w m Hlen Hpg) as (w1 & -> & Hso & Hun). rewrite bind_Ret_l.
  apply IH; [|intros; apply Hl; by right|].
  - intros x Hxp. destruct (Hp x Hxp) as [<- <-]. apply Hso. intros Hin. by apply Hxp, Hx.
  - intros x Hno. destruct (decide (in_mmap m x)) as [Hin|Hin]; [by rewrite (Hun x Hin), (Hx x Hin)|].
    rewrite (proj2 (Hso x Hin)). apply Hrest. intros m' [->|Hm']%elem_of_cons; [done|by apply Hno].
Qed.

Lemma drop_memories w0 w l :
  fresh_memories w0 w l →
  ∃ w', foldM Mmap_drop w (map lm_mmap l) = Ret w' ∧ restores w0 w'.
Proof.
  intros [Hold Hinv Hnew _ Hrest]. apply drop_mappings_restores; [done|..].
  - intros m (lm & -> & [k Hk]%elem_of_zget)%list_elem_of_fmap.
    destruct (Hinv k lm Hk) as [[Hc [Hg _] Hcap _ _ Hpg _ _ _] _]. split_and!; [|done|intros x; by eapply Hnew].
    unfold lm_bytes, lm_capacity, WASM_PAGE_SIZE in *. lia.
  - intros x Hx. apply Hrest. intros k lm Hk. apply Hx. apply list_elem_of_fmap. exists lm. split; [done|by eapply zget_elem_of].
Qed.

(** Failing to get one more mapping keeps the memories. *)
Lemma fresh_memories_restores w0 w w' l : fresh_memories w0 w l → restores w w' → fresh_memories w0 w' l.
Proof.
  intros [Hold Hinv Hnew Hd Hrest] [Hp Hr]. split; [by eapply preserves_trans| |done..|intros x Hx; rewrite Hr; by apply Hrest].
  intros k lm Hk. destruct (Hinv k lm Hk). split; [by eapply lm_inv_preserves|done].
Qed.

Definition guarded_plan (plan : MemoryPlan) : Prop :=
  plan_ok plan ∧ 0 < plan_offset_guard_size plan.

Lemma create_memories_loop_spec w0 plans : ∀ w done,
  fresh_memories w0 w done → Forall guarded_plan plans →
  ∃ w' r, create_memories_loop w done plans = Ret (w', r) ∧
  match r with
  | Err e => e = Resource ∧ restores w0 w'
  | Ok l => zlen l = zlen done + zlen plans ∧ fresh_memories w0 w' l
  end.
Proof.
  induction plans as [|plan plans IH]; intros w done Hf Hpl; cbn [create_memories_loop].
  { exists w, (Ok done). split; [done|]. split; [unfold zlen; cbn; lia|done]. }
  apply Forall_cons in Hpl as [[Hplan Hguard] Hpl].
  destruct (LinearMemory_new_outcome w plan Hplan) as (w1 & r & -> & Hp & Hr).
  rewrite bind_Ret_l. destruct r as [lm|e].
  - destruct Hr as (Hi & _ & _ & Hg & Hfresh & Hout & _).
    destruct (IH w1 (done ++ [lm])) as (w' & r & -> & Hr); [|done|].
    { eapply fresh_memories_snoc; [done..|lia|done|done]. }
    exists w', r. split; [done|]. destruct r; [|done]. destruct Hr as [Hl ?]. split; [|done].
    rewrite Hl, zlen_app, zlen_cons. unfold zlen. cbn. lia.
  - destruct (drop_memories w0 w1 done) as (w' & -> & Hp'); [by eapply fresh_memories_restores|].
    rewrite bind_Ret_l. by exists w', (Err Resource).
Qed.
End memories.

(** ** Placing the instance *)

Record table_plan_ok (plan : TablePlan) : Prop := {
  tp_ty : table_ty (plan_table plan) = Func;
  tp_min : 0 ≤ table_minimum (plan_table plan) < 2 ^ 32;
  tp_max : ∀ M, table_maximum (plan_table plan) = Some M → table_minimum (plan_table plan) ≤ M;
}.

Lemma slice_from_spec {A} (l : list A) n :
  0 ≤ n ≤ zlen l → slice_from l n = Ret (drop (Z.to_nat n) l) ∧ zlen (drop (Z.to_nat n) l) = zlen l - n.
Proof.
  intros Hn. unfold slice_from. rewrite (proj2 (Z.leb_le _ _)) by lia. split; [done|].
  unfold zlen in *. rewrite length_drop. lia.
Qed.

Lemma create_tables_spec table_ptr m :
  (∀ k, u64 (table_ptr k)) → zlen (imported_tables m) ≤ zlen (table_plans m) < 2 ^ 64 →
  Forall table_plan_ok (table_plans m) →
  ∃ ts, create_tables table_ptr m = Ret ts ∧
    zlen (imported_tables m) + zlen ts = zlen (table_plans m) ∧ Forall table_inv ts.
Proof.
  intros Hptr Hn Hpl. unfold create_tables. pose proof (zlen_nonneg (imported_tables m)).
  rewrite op_sub_fits, bind_Ret_l by lia.
  destruct (slice_from_spec (table_plans m) (zlen (imported_tables m))) as [-> Hlen]; [lia|].
  rewrite bind_Ret_l. set (ps := drop _ _) in *.
  assert (Hps : Forall table_plan_ok ps) by by apply Forall_drop.
  assert (Hin : ∀ k p, (k, p) ∈ imap pair ps → table_plan_ok p).
  { intros k p Hk. rewrite Forall_forall in Hps. apply Hps.
    apply list_elem_of_lookup in Hk as [i Hi]. rewrite list_lookup_imap in Hi.
    apply fmap_Some in Hi as (q & Hq & [= -> ->]). by eapply list_elem_of_lookup_2. }
  destruct (mapR_total (λ '(k, plan), Table_new (table_ptr k) plan) (imap pair ps)) as [ts Ets].
  { intros [k p] [Hty Hmin _]%Hin. unfold Table_new. rewrite Hty. cbn [mbind res_mbind].
    destruct (table_style p). unfold try_from_u. rewrite (proj2 (in_u_spec 64 _)) by lia.
    by eexists. }
  exists ts. split; [done|]. split.
  - apply mapR_zlen in Ets. unfold zlen in *. rewrite length_imap in Ets. lia.
  - apply (mapR_Forall _ _ _ _ Ets). intros [k p] t [Hty Hmin Hmax]%Hin Ht.
    by apply (Table_new_inv (table_ptr k) p).
Qed.

Lemma vmtable_valid t : table_inv t → ∃ d, vmtable t = Ret d ∧ valid d.
Proof.
  intros [Hl _ Hp]. unfold vmtable, try_from_u. pose proof (zlen_nonneg (vec t)).
  rewrite (proj2 (in_u_spec 32 _)) by lia. eexists; split; [done|]. split; [done|]. cbn. unfold u32. lia.
Qed.

Lemma builtins_valid l b :
  VMBuiltinFunctionsArray_initialized l = Ret b →
  u64 (wasmtime_memory32_grow_addr l) → u64 (wasmtime_imported_memory32_grow_addr l) →
  u64 (wasmtime_memory32_size_addr l) → u64 (wasmtime_imported_memory32_size_addr l) → valid b.
Proof.
  intros E H1 H2 H3 H4. vm_compute in E. injection E as <-. split; [done|].
  repeat (apply Forall_cons; split; [assumption|]). constructor.
Qed.

Section instantiate.
Context `{OSLaws} `{InstanceLayoutLaws}.
Context (wasmtime_call : rt → Z → Z → res (rt * result unit string)) (builtins : libcalls).
Context (table_ptr : nat → Z) (m : Module_) (gexp : Z) (ff : list Z) (im : Imports).
Context (inits : list DataInitializer) (sigs : list VMSharedSignatureIndex).
Set Default Proof Using "Type*".

(** What [InstanceHandle::new] may expect of its arguments: index spaces with
    the imports first, plans for valid limits, a context whose size fits 32
    bits, one import structure for each declared import. *)
Record instantiable : Prop := {
  is_tables : zlen (imported_tables m) ≤ zlen (table_plans m) ∧ Forall table_plan_ok (table_plans m);
  is_memories : zlen (imported_memories m) ≤ zlen (memory_plans m) ∧
    Forall guarded_plan (memory_plans m);
  is_globals : zlen (imported_globals m) ≤ zlen (globals m);
  is_layout : ∃ o n, VMOffsets_new 8 m = Ret o ∧ size_of_vmctx o = Ret n;
  is_table_ptr : ∀ k, u64 (table_ptr k);
  is_counts : zlen sigs = zlen (signatures m) ∧ zlen (im_functions im) = zlen (imported_funcs m) ∧
    zlen (im_tables im) = zlen (imported_tables m) ∧
    zlen (im_memories im) = zlen (imported_memories m) ∧
    zlen (im_globals im) = zlen (imported_globals m);
  is_valid : Forall valid sigs ∧ Forall valid (im_functions im) ∧ Forall valid (im_tables im) ∧
    Forall valid (im_memories im) ∧ Forall valid (im_globals im);
  is_builtins : ∃ b, VMBuiltinFunctionsArray_initialized builtins = Ret b ∧ valid b;
}.

(** The state with the new instance [i] at [a]. *)
Record placed (σ σ1 : rt) (a : Z) (i : Instance) : Prop := {
  pl_fresh : rt_insts σ !! a = None;
  pl_insts : rt_insts σ1 = <[a := i]> (rt_insts σ);
  pl_exports : rt_exports σ1 = rt_exports σ;
  pl_handlers : rt_handlers σ1 = rt_handlers σ;
  pl_old : preserves (rt_world σ) (rt_world σ1);
  pl_inv : rt_inv σ1;
  pl_fields : refcount i = 1 ∧ module i = m ∧ dependencies i = im_dependencies im ∧
    finished_functions i = ff ∧ global_exports i = gexp;
  pl_signatures : ∀ k v, zget sigs k = Some v →
    signature_id (rt_mem σ1) (vmctx_ptr a) (offsets i) k = Ret v;
  pl_functions : ∀ k v, zget (im_functions im) k = Some v →
    imported_function (rt_mem σ1) (vmctx_ptr a) (offsets i) k = Ret v;
  pl_tables : ∀ k v, zget (im_tables im) k = Some v →
    imported_table (rt_mem σ1) (vmctx_ptr a) (offsets i) k = Ret v;
  pl_memories : ∀ k v, zget (im_memories im) k = Some v →
    imported_memory (rt_mem σ1) (vmctx_ptr a) (offsets i) k = Ret v;
  pl_globals : ∀ k v, zget (im_globals im) k = Some v →
    imported_global (rt_mem σ1) (vmctx_ptr a) (offsets i) k = Ret v;
}.

(** *** The invariant with one more instance *)

Definition owner (own : Z → option (Z * option Z)) (a : Z) (i : Instance) (x : Z)
    : option (Z * option Z) :=
  if decide (in_mmap (inst_mmap i) x) then Some (a, None)
  else match list_find (λ lm, in_mmap (lm_mmap lm) x) (memories i) with
       | Some (k, _) => Some (a, Some (Z.of_nat k))
       | None => own x
       end.

Lemma rt_inv_place σ σ1 a i :
  rt_inv σ → rt_insts σ !! a = None → rt_insts σ1 = <[a := i]> (rt_insts σ) →
  preserves (rt_world σ) (rt_world σ1) → inst_ok σ1 a i →
  (∀ x, in_mmap (inst_mmap i) x → w_prot (rt_world σ) x = None) →
  (∀ k lm x, zget (memories i) k = Some lm → in_mmap (lm_mmap lm) x →
     w_prot (rt_world σ) x = None ∧ ¬ in_mmap (inst_mmap i) x) →
  (∀ k1 k2 lm1 lm2 x, zget (memories i) k1 = Some lm1 → zget (memories i) k2 = Some lm2 →
    in_mmap (lm_mmap lm1) x → in_mmap (lm_mmap lm2) x → k1 = k2) →
  rt_inv σ1.
Proof.
  intros [own Hinv] Hfresh Hins Hpres Hi Hmap Hmems Hdis. exists (owner own a i). intros b j Hb.
  assert (Hold : ∀ x, w_prot (rt_world σ) x ≠ None → owner own a i x = own x).
  { intros x Hx. unfold owner. rewrite decide_False by (intros ?; by apply Hx, Hmap).
    destruct (list_find _ _) as [[k lm]|] eqn:E; [|done]. exfalso.
    apply list_find_Some in E as (Hk & Hin & _). apply Hx.
    apply (Hmems (Z.of_nat k) lm x); [|done]. unfold zget.
    rewrite (proj2 (Z.leb_le 0 _)) by lia. by rewrite Nat2Z.id. }
  rewrite Hins in Hb. apply lookup_insert_Some in Hb as [[<- <-]|[Hne Hb]].
  - split; [done|]. split; unfold owner.
    + intros x Hx. by rewrite decide_True.
    + intros k lm Hk x Hx. destruct (Hmems k lm x Hk Hx) as [_ Hno]. rewrite decide_False by done.
      destruct (list_find _ _) as [[k' lm']|] eqn:E.
      * apply list_find_Some in E as (Hk' & Hin & _). do 2 f_equal. f_equal.
        eapply (Hdis (Z.of_nat k') k lm' lm x); [|done..]. unfold zget.
        rewrite (proj2 (Z.leb_le 0 _)) by lia. by rewrite Nat2Z.id.
      * exfalso. rewrite list_find_None in E. rewrite Forall_forall in E.
        apply (E lm); [by eapply zget_elem_of|done].
  - destruct (Hinv b j Hb) as [Hj [Ho Hom]]. pose proof Hj as [_ _ _ Hmp _ _ Hms _]. split.
    + apply (inst_ok_frame σ); [done| |].
      * intros x Hx. by apply Hpres, Hmp.
      * intros k lm Hk. destruct (Hms k lm Hk) as [Hlm _]. by eapply lm_inv_preserves.
    + split.
      * intros x Hx. rewrite Hold by (by apply Hmp). by apply Ho.
      * intros k lm Hk x Hx. destruct (Hms k lm Hk) as [Hlm _].
        rewrite Hold by (by apply Hlm). by eapply Hom.
Qed.
(** *** The context of the new instance *)

Definition contents (ts : list VMTableDefinition) (ms : list VMMemoryDefinition)
    (gs : list VMGlobalDefinition) (b : VMBuiltinFunctionsArray) : vmctx_contents :=
  mkVmctxContents sigs (im_functions im) (im_tables im) (im_memories im) (im_globals im) ts ms gs b.

Lemma contents_fit o ts ms gs b :
  instantiable → VMOffsets_new 8 m = Ret o → valid b →
  zlen (imported_tables m) + zlen ts = zlen (table_plans m) → Forall valid ts →
  zlen (imported_memories m) + zlen ms = zlen (memory_plans m) → Forall valid ms →
  zlen gs ≤ zlen (globals m) → Forall valid gs →
  contents_ok o (contents ts ms gs b).
Proof.
  intros [_ _ _ _ _ Hc Hv _] [-> _]%VMOffsets_new_inv Hb Ht Htv Hm Hmv Hg Hgv.
  pose proof (zlen_nonneg (imported_tables m)). pose proof (zlen_nonneg (imported_memories m)).
  destruct Hv as (? & ? & ? & ? & ?). split; [cbn -[valid]; by split_and!|cbn; lia].
Qed.

Lemma create_globals_spec :
  instantiable → zlen (globals m) < 2 ^ 64 →
  ∃ gs, create_globals m = Ret gs ∧ zlen gs ≤ zlen (globals m) ∧ Forall valid gs.
Proof.
  intros [_ _ Hg _ _ _ _ _] Hn. unfold create_globals. pose proof (zlen_nonneg (imported_globals m)).
  rewrite op_sub_fits, bind_Ret_l by lia.
  destruct (slice_from_spec (globals m) (zlen (imported_globals m))) as [-> Hlen]; [lia|].
  rewrite bind_Ret_l. eexists; split; [done|]. split.
  - unfold zlen in *. rewrite length_map. lia.
  - apply Forall_map, Forall_forall. by intros g _.
Qed.

Lemma definitions_total {A B} `{ReprC B} (f : A → res B) (P : A → Prop) l :
  (∀ a, P a → ∃ d, f a = Ret d ∧ valid d) → Forall P l →
  ∃ ds, mapR f l = Ret ds ∧ zlen ds = zlen l ∧ Forall valid ds ∧
    ∀ k a, zget l k = Some a → ∃ d, zget ds k = Some d ∧ f a = Ret d.
Proof.
  intros Hf Hl. rewrite Forall_forall in Hl.
  destruct (mapR_total f l) as [ds E].
  { intros a (d & Hd & _)%Hl%Hf. by exists d. }
  exists ds. split_and!; [done|by eapply mapR_zlen| |intros; by eapply mapR_zget].
  apply (mapR_Forall _ _ _ _ E). intros a b (d & Hd & Hv)%Hl%Hf Hb.
  rewrite Hd in Hb. by injection Hb as <-.
Qed.

(** The instance satisfies the invariant once its context is filled. *)
Lemma new_inst_ok w0 w2 w3 n o ts ms td md gs b (mm : Mmap) m' σ1 :
  let a := mm_ptr mm in
  let i := mkInstance 1 (im_dependencies im) mm m o gexp ms ts ff in
  VMOffsets_new 8 m = Ret o → size_of_vmctx o = Ret n → instance_size + n ≤ mm_len mm →
  fresh_memories w0 w2 ms → fresh_mapping w2 w3 mm (mm_len mm) →
  zlen (imported_memories m) + zlen ms = zlen (memory_plans m) →
  zlen (imported_tables m) + zlen ts = zlen (table_plans m) → Forall table_inv ts →
  (∀ k t, zget ts k = Some t → ∃ d, zget td k = Some d ∧ vmtable t = Ret d) →
  (∀ k lm, zget ms k = Some lm → ∃ d, zget md k = Some d ∧ vmmemory lm = Ret d) →
  holds m' (vmctx_ptr a) o (contents td md gs b) →
  rt_world σ1 = mkWorld m' (w_prot w3) → preserves w2 (rt_world σ1) →
  inst_ok σ1 a i.
Proof.
  intros a i Ho Hn Hlen Hms [Hp He _ Hout Hin _] Hnm Hnt Hts Htd Hmd Hh Hw Hpres.
  split; cbn; try done.
  - by exists n.
  - intros x Hx. rewrite Hw. cbn. by apply Hin in Hx as (_ & _ & ?).
  - intros k lm Hk. split; [eapply lm_inv_preserves; [apply (fm_inv _ _ _ Hms k lm Hk)|done]|].
    destruct (Hmd k lm Hk) as (d & Hd & Hv). exists d. split; [done|].
    unfold rt_mem. rewrite Hw. by apply (h_memories _ _ _ _ Hh).
  - intros k t Hk. split; [by eapply zget_Forall|].
    destruct (Htd k t Hk) as (d & Hd & Hv). exists d. split; [done|].
    unfold rt_mem. rewrite Hw. by apply (h_tables _ _ _ _ Hh).
Qed.
Notation new σ := (InstanceHandle_new wasmtime_call builtins σ table_ptr m gexp ff im inits sigs).

(** The address of a new mapping is not that of an instance. *)
Lemma fresh_address σ x :
  rt_inv σ → w_prot (rt_world σ) x = None → rt_insts σ !! x = None.
Proof.
  intros [own Hinv] Hx. destruct (rt_insts σ !! x) as [j|] eqn:E; [|done]. exfalso.
  destruct (Hinv x j E) as [[_ (n & Hn & Hl) [Ha _] Hm _ _ _ _] _]. apply (Hm x); [|done].
  pose proof (inst_ok_offsets σ x j (proj1 (Hinv x j E))) as (Hwf & Hp & _).
  rewrite size_of_vmctx_spec in Hn by done. apply fits32_Ret in Hn as [-> _].
  destruct (region_in_layout _ Hwf 8 _ eq_refl) as (Hb & _ & _ & Hin).
  cbn [r_count r_size] in Hin. unfold builtin_functions_total_number in Hin.
  pose proof vmctx_offset_bounds. rewrite Ha. revert Hb Hin.
  generalize (region_begin 0 (regions (offsets j)) 8). lia.
Qed.

(** The last step: the instance is mapped and its context filled. *)
Lemma fill_places σ w2 w3 o n ts ms td md gs b (mm : Mmap) :
  let a := mm_ptr mm in
  let i := mkInstance 1 (im_dependencies im) mm m o gexp ms ts ff in
  instantiable → rt_inv σ → VMOffsets_new 8 m = Ret o → size_of_vmctx o = Ret n →
  instance_size + n ≤ mm_len mm → fresh_memories (rt_world σ) w2 ms →
  fresh_mapping w2 w3 mm (mm_len mm) →
  zlen (imported_memories m) + zlen ms = zlen (memory_plans m) →
  zlen (imported_tables m) + zlen ts = zlen (table_plans m) → Forall table_inv ts →
  (∀ k t, zget ts k = Some t → ∃ d, zget td k = Some d ∧ vmtable t = Ret d) →
  (∀ k lm, zget ms k = Some lm → ∃ d, zget md k = Some d ∧ vmmemory lm = Ret d) →
  contents_ok o (contents td md gs b) →
  ∃ m', fill_vmctx (w_mem w3) (vmctx_ptr a) o (contents td md gs b) = Ret m' ∧
    placed σ (with_mem (with_inst (with_world σ w3) a i) m') a i.
Proof.
  intros a i Hins Hinv Ho Hn Hlen Hms Hmm Hnm Hnt Hts Htd Hmd Hco.
  destruct (VMOffsets_new_inv _ _ _ Ho) as [Ho' Hwf]. specialize (Hwf (or_intror eq_refl)).
  destruct (fill_vmctx_holds o Hwf ltac:(by rewrite Ho') n Hn (vmctx_ptr a) _ Hco (w_mem w3))
    as (m' & Hfill & Hh & Hframe).
  exists m'. split; [done|]. pose proof Hmm as [Hp He _ Hout Hin _]. pose proof vmctx_offset_bounds.
  set (σ1 := with_mem (with_inst (with_world σ w3) a i) m').
  assert (Hpres : preserves w2 (rt_world σ1)).
  { intros x Hx. assert (¬ in_mmap mm x) by (intros (Hno & _)%Hin; done).
    destruct (fresh_preserves _ _ _ _ Hmm x Hx) as [<- <-]. split; [|done].
    apply Hframe. unfold vmctx_ptr, a. lia. }
  assert (Hold : ∀ x, in_mmap mm x → w_prot (rt_world σ) x = None).
  { intros x (Hx & _)%Hin. destruct (w_prot (rt_world σ) x) eqn:E; [|done].
    destruct (fm_old _ _ _ Hms x) as [_ Hpx]; [by rewrite E|]. congruence. }
  assert (Hok : inst_ok σ1 a i) by (by eapply (new_inst_ok (rt_world σ) w2 w3)).
  assert (Hpo : preserves (rt_world σ) (rt_world σ1)).
  { eapply preserves_trans; [apply Hms|done]. }
  assert (Hfresh : rt_insts σ !! a = None).
  { apply fresh_address; [done|]. apply Hold. unfold a.
    rewrite size_of_vmctx_spec in Hn by done. apply fits32_Ret in Hn as [-> _].
    destruct (region_in_layout _ Hwf 8 _ eq_refl) as (Hb & _ & _ & Hlay).
    cbn [r_count r_size] in Hlay. unfold builtin_functions_total_number in Hlay.
    assert (pointer_size o = 8) as Hps by (by rewrite Ho'). rewrite Hps in Hlay.
    revert Hb Hlay. generalize (region_begin 0 (regions o) 8). lia. }
  split; try done; [|exact (h_signatures _ _ _ _ Hh)|exact (h_functions _ _ _ _ Hh)
    |exact (h_imported_tables _ _ _ _ Hh)|exact (h_imported_memories _ _ _ _ Hh)
    |exact (h_imported_globals _ _ _ _ Hh)].
  eapply (rt_inv_place σ σ1 a i); [done..| |apply Hms].
  intros k lm x Hk Hx. split; [by eapply (fm_new _ _ _ Hms)|]. intros (Hno & _)%Hin.
  destruct (fm_inv _ _ _ Hms k lm Hk) as [Hlm _]. by apply (li_mapped _ _ Hlm x Hx).
Qed.
Lemma create_memories_spec w :
  instantiable → zlen (memory_plans m) < 2 ^ 64 →
  ∃ w' r, create_memories w m = Ret (w', r) ∧
  match r with
  | Err e => e = Resource ∧ restores w w'
  | Ok l => zlen (imported_memories m) + zlen l = zlen (memory_plans m) ∧ fresh_memories w w' l
  end.
Proof.
  intros [_ [Hn Hpl] _ _ _ _ _ _] Hlt. unfold create_memories.
  pose proof (zlen_nonneg (imported_memories m)). rewrite op_sub_fits, bind_Ret_l by lia.
  destruct (slice_from_spec (memory_plans m) (zlen (imported_memories m))) as [-> Hlen]; [lia|].
  rewrite bind_Ret_l.
  destruct (create_memories_loop_spec w (drop (Z.to_nat (zlen (imported_memories m))) (memory_plans m))
    w [] (fresh_memories_nil w)) as (w' & r & -> & Hr); [by apply Forall_drop|].
  exists w', r. split; [done|]. destruct r; [|done]. destruct Hr as [Hl ?]. split; [|done].
  unfold zlen in *. cbn in Hl. lia.
Qed.

(** The outcome of [InstanceHandle::new] up to its initialization. *)
Lemma instance_placed σ :
  rt_inv σ → instantiable →
  (∃ w', restores (rt_world σ) w' ∧ new σ =
     (σ' ← drop_handles (with_world σ w') (im_dependencies im); Ret (σ', Err Resource))) ∨
  (∃ σ1 a i, placed σ σ1 a i ∧ new σ =
     ('(σ', r) ← initialize_instance wasmtime_call σ1 a inits;
      match r with Err e => Ret (σ', Err e) | Ok _ => Ret (σ', Ok a) end)).
Proof.
  intros Hinv Hins. pose proof Hins as [[Ht Htp] _ _ (o & n & Ho & Hn) Hptr _ _ (b & Hb & Hbv)].
  destruct (VMOffsets_new_inv _ _ _ Ho) as [Ho' Hwf]. specialize (Hwf (or_intror eq_refl)).
  assert (Hcounts : zlen (table_plans m) < 2 ^ 64 ∧ zlen (memory_plans m) < 2 ^ 64 ∧
    zlen (globals m) < 2 ^ 64).
  { destruct Hwf. rewrite Ho' in *. cbn in *. unfold u32 in *. lia. }
  destruct Hcounts as (Hct & Hcm & Hcg). unfold InstanceHandle_new.
  destruct (create_tables_spec table_ptr m Hptr (conj Ht Hct) Htp) as (ts & -> & Hnt & Hts).
  rewrite bind_Ret_l.
  destruct (create_memories_spec (rt_world σ) Hins Hcm) as (w2 & r & -> & Hr). rewrite bind_Ret_l.
  destruct r as [ms|e]; [|destruct Hr as [-> Hp]; left; by exists w2]. destruct Hr as [Hnm Hms].
  destruct (definitions_total vmtable _ ts vmtable_valid Hts) as (td & -> & Htl & Htv & Htd).
  rewrite bind_Ret_l.
  destruct (definitions_total vmmemory (λ lm, lm_inv w2 lm ∧ 0 < lm_offset_guard_size lm) ms)
    as (md & -> & Hml & Hmv & Hmd).
  { intros lm [? ?]. by eapply vmmemory_valid. }
  { apply Forall_forall. intros lm [k Hk]%elem_of_zget. by eapply (fm_inv _ _ _ Hms). }
  rewrite bind_Ret_l. destruct (create_globals_spec Hins Hcg) as (gs & -> & Hgl & Hgv).
  rewrite bind_Ret_l, Ho, bind_Ret_l, Hn, bind_Ret_l.
  assert (0 ≤ n < 2 ^ 32) as Hn'.
  { rewrite size_of_vmctx_spec in Hn by done. apply fits32_Ret in Hn as [-> ?]. split; [|done].
    apply region_begin_nonneg. done. }
  pose proof vmctx_offset_bounds. pose proof instance_size_small.
  change (unwrap (checked_add 64 ?x ?y)) with (op_add 64 x y). rewrite op_add_fits, bind_Ret_l by lia.
  assert (page_size ≤ 2 ^ 16) as Hpg.
  { destruct page_size_pow2 as (k & Hk & ->). apply Z.pow_le_mono_r; lia. }
  destruct (with_at_least_total w2 (instance_size + n)) as (w3 & r & -> & Hr); [lia..|].
  rewrite bind_Ret_l. destruct r as [mm|e].
  - destruct Hr as [Hlen Hmm]. rewrite Hb, bind_Ret_l. right.
    destruct (fill_places σ w2 w3 o n ts ms td md gs b mm) as (m' & Hfill & Hpl); try done.
    { by apply contents_fit; rewrite ?Htl, ?Hml. }
    exists (with_mem (with_inst (with_world σ w3) (mm_ptr mm)
      (mkInstance 1 (im_dependencies im) mm m o gexp ms ts ff)) m'). do 2 eexists. split; [done|].
    unfold contents in Hfill.
    change (rt_mem (with_inst (with_world σ w3) _ _)) with (w_mem w3). by rewrite Hfill, bind_Ret_l.
  - destruct (drop_memories (rt_world σ) w3 ms) as (w4 & -> & Hp); [by eapply fresh_memories_restores|].
    rewrite bind_Ret_l. left. by exists w4.
Qed.

Lemma invoke_start_error σ a σ' e :
  invoke_start_function wasmtime_call σ a = Ret (σ', Err e) → ∃ s, e = StartTrap s.
Proof.
  assert (Hf : ∀ index, invoke_function wasmtime_call σ a index = Ret (σ', Err e) → ∃ s, e = StartTrap s).
  { intros index E. unfold invoke_function in E. apply bind_Ret in E as (i & _ & E).
    apply bind_Ret in E as ([? ?] & _ & E). apply bind_Ret in E as ([? r] & _ & E).
    destruct r; simplify_eq. by eexists. }
  assert (He : ∀ x, invoke_export wasmtime_call σ a x = Ret (σ', Err e) → ∃ s, e = StartTrap s).
  { intros x E. unfold invoke_export in E. apply bind_Ret in E as (i & _ & E).
    destruct x; try done. apply bind_Ret in E as (f & _ & E). apply bind_Ret in E as (sg & _ & E).
    case_match; [by eapply Hf|done]. }
  unfold invoke_start_function. intros E. apply bind_Ret in E as (i & _ & E).
  repeat case_match; first [discriminate E|by eapply Hf|by eapply He].
Qed.

Lemma initialize_link_error σ a σ' s :
  initialize_instance wasmtime_call σ a inits = Ret (σ', Err (Link s)) → σ' = σ.
Proof.
  unfold initialize_instance. intros E. apply bind_Ret in E as (i & _ & E).
  apply bind_Ret in E as (r & _ & E). destruct r; [|by injection E as <-].
  apply bind_Ret in E as (r & _ & E). destruct r; [|by injection E as <-].
  apply bind_Ret in E as (σ2 & _ & E). apply bind_Ret in E as (σ3 & _ & E).
  apply bind_Ret in E as (σ4 & _ & E). apply bind_Ret in E as (σ5 & _ & E).
  apply bind_Ret in E as (σ6 & _ & E).
  apply invoke_start_error in E as [? E]. done.
Qed.

(** C18: instantiation.  On a state that satisfies the invariant and with
    well-formed arguments, [InstanceHandle::new] either gets no memory from
    the system -- then it drops its dependencies and returns a resource error,
    with exactly the addresses mapped that were mapped before, and their bytes
    and protections unchanged -- or it places the instance: at an address where none was,
    with its context describing its memories and tables and holding the
    imports and signature ids in the order of their index spaces, the other
    instances and every byte mapped before as they were, and the invariant
    of the whole state intact; what remains is the initialization of that
    instance, the installation of the signal handlers included. *)
Theorem InstanceHandle_new_places (σ : rt) (Hinv : rt_inv σ) (Hins : instantiable) :
  (∃ w', restores (rt_world σ) w' ∧ new σ =
     (σ' ← drop_handles (with_world σ w') (im_dependencies im); Ret (σ', Err Resource))) ∨
  (∃ σ1 a i, placed σ σ1 a i ∧ new σ =
     ('(σ', r) ← initialize_instance wasmtime_call σ1 a inits;
      match r with Err e => Ret (σ', Err e) | Ok _ => Ret (σ', Ok a) end)).
Proof. by apply instance_placed. Qed.

(** C20: a link error is atomic: when a segment does not fit, no segment has
    been applied.  The final state is the one with the instance just placed:
    every byte that was mapped before, every other instance and the export
    maps are unchanged.  The instance itself stays, with a reference count
    of one that no handle accounts for. *)
Theorem link_error_is_atomic (σ σ' : rt) (s : string) (Hinv : rt_inv σ) (Hins : instantiable)
    (Hnew : new σ = Ret (σ', Err (Link s))) :
  ∃ a i, placed σ σ' a i.
Proof.
  destruct (instance_placed σ Hinv Hins) as [(w' & _ & E)|(σ1 & a & i & Hpl & E)];
    rewrite E in Hnew; apply bind_Ret in Hnew.
  - by destruct Hnew as (? & _ & ?).
  - destruct Hnew as ([σ2 r] & Hi & Hr). exists a, i. destruct r as [|e]; [done|].
    injection Hr as -> ->. apply initialize_link_error in Hi as ->. done.
Qed.
End instantiate.

(** ** A concrete instantiation, for the witnesses

    In the state of [InstanceProofs.v], a module that imports the memory of
    the first instance is instantiated; its second data segment does not
    fit. *)
Section example.
#[local] Existing Instance toy_os.
#[local] Existing Instance toy_laws.
#[local] Existing Instance ex_layout.
#[local] Existing Instance ex_layout_laws.

Definition ex_builtins : libcalls := mkLibcalls 0x10 0x20 0x30 0x40.
Definition ex_imports : Imports :=
  mkImports ∅ [] [] [mkVMMemoryImport (ex_b + 256) (ex_b + 256)] [].
Definition ex_segments : list DataInitializer :=
  [mkDataInitializer (mkDataInitializerLocation 0 None 0) [7];
   mkDataInitializer (mkDataInitializerLocation 0 None 65535) [1; 2]].
Definition ex_call (σ : rt) (_ _ : Z) : res (rt * result unit string) := Ret (σ, Ok tt).

Lemma ex_instantiable : instantiable ex_builtins (λ _, 0x1000) ex_importer ex_imports [].
Proof.
  split; cbn.
  - by split; [reflexivity|constructor].
  - split; [reflexivity|]. apply Forall_singleton. split; [|cbn; lia].
    split; cbn; unfold WASM_MAX_PAGES; [lia|by intros M [= <-]| |].
    + split; [lia|]. by exists 16.
    + split; [lia|]. exists 3. by split.
  - reflexivity.
  - do 2 eexists. split; reflexivity.
  - intros _. unfold u64. lia.
  - by split_and!.
  - split_and!; repeat constructor; cbn; unfold u64, ex_b; lia.
  - eexists. split; [reflexivity|]. cbn. split; [reflexivity|]. repeat constructor; unfold u64; lia.
Qed.

Notation ex_new inits :=
  (InstanceHandle_new ex_call ex_builtins ex_rt (λ _, 0x1000) ex_importer 0 [] ex_imports inits []).

Definition created (r : res (rt * result Z InstantiationError)) : bool :=
  match r with Ret (_, Ok _) => true | _ => false end.

Lemma not_created (d : res rt) e : created (σ' ← d; Ret (σ', Err e)) = false.
Proof. by destruct d. Qed.

Lemma InstanceHandle_new_places_witness :
  created (ex_new []) = true ∧ ∃ σ1 a i, placed ex_importer 0 [] ex_imports [] ex_rt σ1 a i.
Proof.
  assert (created (ex_new []) = true) as Hc by (vm_compute; reflexivity). split; [exact Hc|].
  destruct (InstanceHandle_new_places ex_call ex_builtins (λ _, 0x1000) ex_importer 0 [] ex_imports
    [] [] ex_rt ex_rt_inv ex_instantiable) as [(w' & _ & E)|(σ1 & a & i & Hpl & _)]; [|by exists σ1, a, i].
  rewrite E, not_created in Hc. discriminate Hc.
Defined.

Definition link_error_of (r : res (rt * result Z InstantiationError)) : option string :=
  match r with Ret (_, Err (Link s)) => Some s | _ => None end.
Example ex_new_error : link_error_of (ex_new ex_segments) = Some "data segment does not fit".
Proof. vm_compute. reflexivity. Qed.

Lemma link_error_is_atomic_witness :
  ∃ σ' a i, ex_new ex_segments = Ret (σ', Err (Link "data segment does not fit")) ∧
    placed ex_importer 0 [] ex_imports [] ex_rt σ' a i ∧ refcount i = 1.
Proof.
  pose proof ex_new_error as Hs.
  destruct (ex_new ex_segments) as [[σ' [x|[|s|s]]]|] eqn:E; try discriminate Hs.
  injection Hs as ->.
  destruct (link_error_is_atomic ex_call ex_builtins (λ _, 0x1000) ex_importer 0 [] ex_imports
    ex_segments [] ex_rt σ' "data segment does not fit" ex_rt_inv ex_instantiable E) as (a & i & Hpl).
  exists σ', a, i. split; [reflexivity|]. split; [exact Hpl|]. apply Hpl.
Defined.
End example.
