(* ===== verification/Link.v ===== *)
(** * Linking

    Models [wasmtime-jit/src/link.rs] (resolving a module's imports, checking
    their types, applying relocations), [resolver.rs] and [namespace.rs]. *)

From S2P Require Import Prelude Environ ModuleEnv VMOffsets Store Registry Memory VMContext.
From S2P Require Import Table Instance.
Local Open Scope Z_scope.

(** ** Type compatibility *)

Definition is_global_compatible (exported imported : Global) : res bool :=
  _ ← match initializer imported with ImportInit => Ret tt | _ => Panic end;
  Ret (bool_decide (global_ty exported = global_ty imported) &&
       bool_decide (mutability imported = mutability exported)).

Definition is_table_element_type_compatible (exported_type imported_type : TableElementType)
    : bool :=
  match exported_type, imported_type with
  | Func, Func => true
  | Func, _ => false
  | Val exported_val_ty, Val imported_val_ty => bool_decide (exported_val_ty = imported_val_ty)
  | Val _, _ => false
  end.

(** [imported_maximum.is_none() || (!exported_maximum.is_none() && imported >= exported)] *)
Definition maximum_compatible (exported imported : option Z) : bool :=
  match imported with
  | None => true
  | Some i => match exported with None => false | Some e => e <=? i end
  end.

Definition is_table_compatible (exported imported : TablePlan) : bool :=
  let e := plan_table exported in
  let i := plan_table imported in
  is_table_element_type_compatible (table_ty e) (table_ty i) &&
  (table_minimum i <=? table_minimum e) &&
  maximum_compatible (table_maximum e) (table_maximum i).

Definition is_memory_compatible (exported imported : MemoryPlan) : bool :=
  let e := plan_memory exported in
  let i := plan_memory imported in
  (mem_minimum i <=? mem_minimum e) &&
  maximum_compatible (mem_maximum e) (mem_maximum i) &&
  Bool.eqb (mem_shared e) (mem_shared i).

(** The assertions that follow the compatibility check of a memory import. *)
Definition memory_sanity (memory import_memory : MemoryPlan) : res unit :=
  _ ← match plan_style memory, plan_style import_memory with
      | Static bound, Static import_bound => rassert (import_bound <=? bound)
      | _, _ => Ret tt
      end;
  rassert (plan_offset_guard_size import_memory <=? plan_offset_guard_size memory).

(** ** Resolving imports *)

(** The trait [Resolver]; the resolvers do not change when they resolve. *)
Class Resolver (R : Type) := resolve : R → rt → string → string → res (option RtExport).

Inductive NullResolver := mkNullResolver.
#[export] Instance NullResolver_resolver : Resolver NullResolver := λ _ _ _ _, Ret None.

(** [namespace.rs]: a map from names to instance handles. *)
Record Namespace := mkNamespace { names : gmap string Z }.
Definition Namespace_new : Namespace := mkNamespace ∅.
Definition get_named_instance (self : Namespace) (name : string) : option Z :=
  names self !! name.

Inductive LinkError :=
| IncompatibleSignature (module field : string)
| IncompatibleType (module field : string)
| IncompatibleKind (module field : string)
| UnknownImport (module field : string).

(** ** Relocations ([compilation.rs] and [relocate]) *)

Inductive LibCall :=
| CeilF32 | FloorF32 | TruncF32 | NearestF32 | CeilF64 | FloorF64 | TruncF64 | NearestF64
| Probestack | OtherLibCall (n : Z).

Inductive RelocationTarget :=
| UserFunc (index : Z)
| TargetLibCall (libcall : LibCall)
| Memory32Grow
| ImportedMemory32Grow
| Memory32Size
| ImportedMemory32Size
| JumpTable (func_index jt : Z).

Inductive Reloc := Abs8 | X86PCRelRodata4 | OtherReloc (n : Z).

Record Relocation := mkRelocation {
  reloc : Reloc;
  reloc_target : RelocationTarget;
  reloc_offset : Z;
  reloc_addend : Z;
}.

Section relocate.
(** [allocated_functions]: address and length of each body; [jt_offsets]: the
    offsets of each function's jump tables; the addresses of the library
    calls. *)
Context (module : Module_) (allocated_functions : list (Z * Z)) (jt_offsets : list (list Z)).
Context (builtins : libcalls) (libcall_address : LibCall → Z).

Definition target_func_address (target : RelocationTarget) : res Z :=
  match target with
  | UserFunc index =>
      match defined_func_index module index with
      | Some f => fatptr ← zindex allocated_functions f; Ret fatptr.1
      | None => Panic
      end
  | Memory32Grow => Ret (wasmtime_memory32_grow_addr builtins)
  | Memory32Size => Ret (wasmtime_memory32_size_addr builtins)
  | ImportedMemory32Grow => Ret (wasmtime_imported_memory32_grow_addr builtins)
  | ImportedMemory32Size => Ret (wasmtime_imported_memory32_size_addr builtins)
  | TargetLibCall (OtherLibCall _) => Panic
  | TargetLibCall libcall => Ret (libcall_address libcall)
  | JumpTable func_index jt =>
      match defined_func_index module func_index with
      | Some f =>
          ofs ← unwrap (zget jt_offsets f);
          offset ← unwrap (zget ofs jt);
          fatptr ← zindex allocated_functions f;
          op_add 64 fatptr.1 offset
      | None => Panic
      end
  end.

(** One relocation of the [i]-th function (64-bit target). *)
Definition apply_relocation (i : Z) (m : mem) (r : Relocation) : res mem :=
  target ← target_func_address (reloc_target r);
  body ← zindex allocated_functions i;
  match reloc r with
  | Abs8 =>
      let reloc_address := body.1 + reloc_offset r in
      reloc_abs ← unwrap (checked_add 64 target (wrap_u 64 (reloc_addend r)));
      Ret (store_le m reloc_address 8 reloc_abs)
  | X86PCRelRodata4 => Ret m
  | OtherReloc _ => Panic
  end.

Definition relocate (m : mem) (relocations : list (list Relocation)) : res mem :=
  foldM (λ m '(i, function_relocs), foldM (apply_relocation (Z.of_nat i)) m function_relocs)
    m (imap pair relocations).
End relocate.

Section link.
Context `{OS} `{InstanceLayout}.

#[export] Instance Namespace_resolver : Resolver Namespace := λ self σ name field,
  match names self !! name with
  | Some instance => inst_lookup σ instance field
  | None => Ret None
  end.

(** [name_instance]: the handle that the name had before is dropped. *)
Definition name_instance (σ : rt) (self : Namespace) (name : string) (instance : Z)
    : res (rt * Namespace) :=
  let self' := mkNamespace (<[name := instance]> (names self)) in
  match names self !! name with
  | Some old => σ' ← handle_drop (S (size (rt_insts σ))) σ old; Ret (σ', self')
  | None => Ret (σ, self')
  end.

Context {R} `{Resolver R} (resolver : R).

(** [dependencies.insert(InstanceHandle::from_vmctx(vmctx))]: a handle that
    the set already has is dropped again. *)
Definition add_dependency (σ : rt) (deps : gset Z) (vmctx : Z) : res (rt * gset Z) :=
  '(σ', a) ← from_vmctx σ vmctx;
  if bool_decide (a ∈ deps) then
    σ'' ← handle_drop (S (size (rt_insts σ'))) σ' a; Ret (σ'', deps)
  else Ret (σ', {[ a ]} ∪ deps).

(** The loop over one kind of imports.  [accept index module field export]
    checks the resolved export, and gives the import structure and the
    context that the importing instance is to keep alive. *)
Fixpoint link_loop {X} (accept : Z → string → string → RtExport → res (result (X * Z) LinkError))
    (σ : rt) (deps : gset Z) (index : Z) (imports : list (string * string))
    : res (rt * gset Z * result (list X) LinkError) :=
  match imports with
  | [] => Ret (σ, deps, Ok [])
  | (module_name, field) :: imports =>
      export ← resolve resolver σ module_name field;
      match export with
      | None => Ret (σ, deps, Err (UnknownImport module_name field))
      | Some export_value =>
          r ← accept index module_name field export_value;
          match r with
          | Err e => Ret (σ, deps, Err e)
          | Ok (x, vmctx) =>
              '(σ, deps) ← add_dependency σ deps vmctx;
              '(σ, deps, r) ← link_loop accept σ deps (index + 1) imports;
              Ret (σ, deps, match r with Ok xs => Ok (x :: xs) | Err e => Err e end)
          end
      end
  end.

Definition accept_function (module : Module_) (index : Z) (module_name field : string)
    (export_value : RtExport) : res (result (VMFunctionImport * Z) LinkError) :=
  match export_value with
  | RtFunction address vmctx signature =>
      f ← zindex (functions module) index;
      import_signature ← zindex (signatures module) f;
      if bool_decide (signature ≠ import_signature)
      then Ret (Err (IncompatibleSignature module_name field))
      else Ret (Ok (mkVMFunctionImport address vmctx, vmctx))
  | _ => Ret (Err (IncompatibleKind module_name field))
  end.

Definition accept_table (module : Module_) (index : Z) (module_name field : string)
    (export_value : RtExport) : res (result (VMTableImport * Z) LinkError) :=
  match export_value with
  | RtTable definition vmctx table =>
      import_table ← zindex (table_plans module) index;
      if negb (is_table_compatible table import_table)
      then Ret (Err (IncompatibleType module_name field))
      else Ret (Ok (mkVMTableImport definition vmctx, vmctx))
  | _ => Ret (Err (IncompatibleKind module_name field))
  end.

Definition accept_memory (module : Module_) (index : Z) (module_name field : string)
    (export_value : RtExport) : res (result (VMMemoryImport * Z) LinkError) :=
  match export_value with
  | RtMemory definition vmctx memory =>
      import_memory ← zindex (memory_plans module) index;
      if negb (is_memory_compatible memory import_memory)
      then Ret (Err (IncompatibleType module_name field))
      else
        _ ← memory_sanity memory import_memory;
        Ret (Ok (mkVMMemoryImport definition vmctx, vmctx))
  | _ => Ret (Err (IncompatibleKind module_name field))
  end.

Definition accept_global (module : Module_) (index : Z) (module_name field : string)
    (export_value : RtExport) : res (result (VMGlobalImport * Z) LinkError) :=
  match export_value with
  | RtGlobal definition vmctx global =>
      imported_global ← zindex (globals module) index;
      ok ← is_global_compatible global imported_global;
      if negb ok
      then Ret (Err (IncompatibleType module_name field))
      else Ret (Ok (mkVMGlobalImport definition, vmctx))
  | _ => Ret (Err (IncompatibleKind module_name field))
  end.

(** [link_module]; an early return drops the handles collected so far. *)
Definition link_module (σ : rt) (module : Module_) (allocated_functions : list (Z * Z))
    (jt_offsets : list (list Z)) (builtins : libcalls) (libcall_address : LibCall → Z)
    (relocations : list (list Relocation)) : res (rt * result Imports LinkError) :=
  let fail σ deps e := σ ← drop_handles σ deps; Ret (σ, Err e) in
  '(σ, deps, r) ← link_loop (accept_function module) σ ∅ 0 (imported_funcs module);
  match r with Err e => fail σ deps e | Ok function_imports =>
  '(σ, deps, r) ← link_loop (accept_table module) σ deps 0 (imported_tables module);
  match r with Err e => fail σ deps e | Ok table_imports =>
  '(σ, deps, r) ← link_loop (accept_memory module) σ deps 0 (imported_memories module);
  match r with Err e => fail σ deps e | Ok memory_imports =>
  '(σ, deps, r) ← link_loop (accept_global module) σ deps 0 (imported_globals module);
  match r with Err e => fail σ deps e | Ok global_imports =>
  m ← relocate module allocated_functions jt_offsets builtins libcall_address (rt_mem σ) relocations;
  Ret (with_mem σ m, Ok (mkImports deps function_imports table_imports memory_imports global_imports))
  end end end end.
End link.
