(* ===== verification/LinkProofs.v ===== *)
(** * Correctness of linking

    What [Link.v] guarantees: imports are resolved to compatible exports, the
    handles on the instances they come from are accounted for, and relocation
    writes the addresses of its targets. *)

From S2P Require Import Prelude Environ ModuleEnv VMOffsets Store Registry Memory VMContext.
From S2P Require Import Table Instance InstanceProofs Link.
Local Open Scope Z_scope.

(** ** Memory imports and the guards compiled code relies on *)

Lemma plan_cases m t p :
  MemoryPlan_for_memory m t = Ret p → plan_memory p = m ∧
  ((∃ M, mem_maximum m = Some M ∧ M ≤ static_memory_bound t ∧
      plan_style p = Static (static_memory_bound t) ∧
      plan_offset_guard_size p = static_memory_offset_guard_size t) ∨
   (plan_style p = Dynamic ∧ plan_offset_guard_size p = dynamic_memory_offset_guard_size t ∧
      ∀ M, mem_maximum m = Some M → static_memory_bound t < M)).
Proof.
  unfold MemoryPlan_for_memory, MemoryStyle_for_memory. intros E.
  apply bind_Ret in E as ([st g] & E & [= <-]). cbn. split; [done|].
  destruct (mem_maximum m) as [M|]; [|right; by simplify_eq].
  destruct (Z.leb_spec M (static_memory_bound t)); [left|right]; res_inv E.
  - by exists M.
  - split_and!; [done..|]. intros M' [= <-]. lia.
Qed.

(** For memories planned with the same tunables, whose static guard is at
    least as large as the dynamic one, a memory import that passes the type
    check always has the guard and the static bound that the importing
    module was compiled for: the linker's assertions cannot fail. *)
Theorem compatible_memory_is_guarded (t : Tunables) (em im : Memory) (e i : MemoryPlan)
    (Hguard : dynamic_memory_offset_guard_size t ≤ static_memory_offset_guard_size t)
    (He : MemoryPlan_for_memory em t = Ret e) (Hi : MemoryPlan_for_memory im t = Ret i)
    (Hc : is_memory_compatible e i = true) :
  memory_sanity e i = Ret tt.
Proof.
  apply plan_cases in He as [<- He], Hi as [<- Hi].
  unfold is_memory_compatible, maximum_compatible, memory_sanity, rassert in *.
  destruct Hi as [(iM & HiM & HiB & Hs & Hg)|(Hs & Hg & HiB)], He as [(eM & HeM & HeB & Hs' & Hg')|(Hs' & Hg' & HeB)];
    rewrite Hs, Hs', Hg, Hg'; cbn.
  - rewrite (proj2 (Z.leb_le _ _)) by lia. cbn. by rewrite (proj2 (Z.leb_le _ _)) by lia.
  - rewrite HiM in Hc. destruct (mem_maximum (plan_memory e)) as [eM|]; [|lia].
    specialize (HeB eM eq_refl). lia.
  - by rewrite (proj2 (Z.leb_le _ _)) by lia.
  - by rewrite (proj2 (Z.leb_le _ _)) by lia.
Qed.

Lemma compatible_memory_is_guarded_witness :
  memory_sanity (mkMemoryPlan (mkMemory 2 (Some 5) false) (Static 0x10000) 0x80000000)
    (mkMemoryPlan (mkMemory 1 None false) Dynamic 0x10000) = Ret tt.
Proof.
  apply (compatible_memory_is_guarded Tunables_default (mkMemory 2 (Some 5) false)
    (mkMemory 1 None false)); vm_compute; try reflexivity. discriminate.
Defined.

(** ** Handles *)

(** Every reference count of [insts] is one higher for the instances in
    [deps]. *)
Definition bump (deps : gset Z) (insts : gmap Z Instance) : gmap Z Instance :=
  map_imap (λ a i, Some (if decide (a ∈ deps) then set_refcount i (refcount i + 1) else i)) insts.

(** [σ] is [σ0] with one more handle for each of [deps]. *)
Record linked (σ0 : rt) (deps : gset Z) (σ : rt) : Prop := {
  lk_world : rt_world σ = rt_world σ0;
  lk_exports : rt_exports σ = rt_exports σ0;
  lk_handlers : rt_handlers σ = rt_handlers σ0;
  lk_insts : rt_insts σ = bump deps (rt_insts σ0);
}.

(** Counts of live instances, far from overflow. *)
Definition counts_ok (σ : rt) : Prop :=
  ∀ a i, rt_insts σ !! a = Some i → 0 < refcount i < 2 ^ 64 - 2.

Lemma lookup_bump deps insts a :
  bump deps insts !! a =
  (λ i, if decide (a ∈ deps) then set_refcount i (refcount i + 1) else i) <$> insts !! a.
Proof. unfold bump. rewrite map_lookup_imap. by destruct (insts !! a). Qed.

Lemma bump_empty insts : bump ∅ insts = insts.
Proof. apply map_eq. intros a. rewrite lookup_bump. by destruct (insts !! a). Qed.

Lemma linked_refl σ : linked σ ∅ σ.
Proof. split; [done..|]. by rewrite bump_empty. Qed.

Lemma set_refcount_same i : set_refcount i (refcount i) = i.
Proof. by destruct i. Qed.
Lemma set_refcount_twice i m n : set_refcount (set_refcount i m) n = set_refcount i n.
Proof. done. Qed.

Section handles.
Context `{OS} `{InstanceLayout}.

Lemma handle_clone_spec σ a i n :
  rt_insts σ !! a = Some i → 0 ≤ refcount i → refcount i + 1 < 2 ^ 64 → n = refcount i + 1 →
  handle_clone σ a = Ret (with_inst σ a (set_refcount i n)).
Proof.
  intros Ha Hr0 Hr1 ->. unfold handle_clone, get_instance. rewrite Ha. cbn [unwrap].
  by rewrite bind_Ret_l, op_add_fits by lia.
Qed.

Lemma handle_drop_spec fuel σ a i :
  rt_insts σ !! a = Some i → 1 < refcount i < 2 ^ 64 →
  handle_drop (S fuel) σ a = Ret (with_inst σ a (set_refcount i (refcount i - 1))).
Proof.
  intros Ha Hr. cbn [handle_drop]. unfold get_instance. rewrite Ha. cbn [unwrap].
  rewrite bind_Ret_l, op_sub_fits, bind_Ret_l by lia.
  by rewrite (proj2 (Z.eqb_neq _ 0)) by lia.
Qed.

Lemma add_dependency_spec σ0 deps σ vmctx σ' deps' :
  counts_ok σ0 → linked σ0 deps σ → add_dependency σ deps vmctx = Ret (σ', deps') →
  linked σ0 deps' σ' ∧ deps' = {[ instance_of_vmctx vmctx ]} ∪ deps.
Proof.
  intros Hc [Hw He Hh Hi] E. unfold add_dependency, from_vmctx in E.
  set (a := instance_of_vmctx vmctx) in *. apply bind_Ret in E as ([σ1 a1] & E1 & E).
  apply bind_Ret in E1 as (σ2 & E1 & [= <- <-]).
  destruct (rt_insts σ0 !! a) as [i|] eqn:Ha.
  2:{ unfold handle_clone, get_instance in E1. rewrite Hi, lookup_bump, Ha in E1. done. }
  pose proof (Hc a i Ha) as Hr. case_bool_decide as Hd.
  - assert (Hla : rt_insts σ !! a = Some (set_refcount i (refcount i + 1))).
    { rewrite Hi, lookup_bump, Ha. cbn. by rewrite decide_True. }
    rewrite (handle_clone_spec _ _ _ (refcount i + 2) Hla) in E1 by (cbn; lia).
    apply (inj Ret) in E1 as <-. rewrite set_refcount_twice in E.
    erewrite handle_drop_spec in E; [|apply lookup_insert_eq|cbn; lia]. cbn in E. simplify_eq.
    split; [|set_solver]. split; cbn; [done..|]. rewrite Hi. apply map_eq. intros b.

    destruct (decide (a = b)) as [<-|Hne].
    + rewrite lookup_insert_eq, lookup_bump, Ha. cbn. rewrite decide_True by done.
      do 2 f_equal. lia.
    + by rewrite !lookup_insert_ne by done.
  - assert (Hla : rt_insts σ !! a = Some i).
    { rewrite Hi, lookup_bump, Ha. cbn. by rewrite decide_False. }
    rewrite (handle_clone_spec _ _ _ (refcount i + 1) Hla) in E1 by lia.
    apply (inj Ret) in E1 as <-. simplify_eq. split; [|done]. split; cbn; [done..|].
    rewrite Hi. apply map_eq. intros b. destruct (decide (a = b)) as [<-|Hne].
    + rewrite lookup_insert_eq, lookup_bump, Ha. cbn. by rewrite decide_True by set_solver.
    + rewrite lookup_insert_ne, !lookup_bump by done.
      destruct (rt_insts σ0 !! b); cbn; [|done]. f_equal. by do 2 case_decide; set_solver.
Qed.

(** Dropping the handles that were added restores the state. *)
Lemma drop_handles_spec σ0 deps σ :
  counts_ok σ0 → linked σ0 deps σ → (∀ a, a ∈ deps → is_Some (rt_insts σ0 !! a)) →
  drop_handles σ deps = Ret σ0.
Proof.
  intros Hc Hl Hdom. unfold drop_handles.
  assert (Hgen : ∀ l σ deps, NoDup l → list_to_set l = deps → linked σ0 deps σ →
    (∀ a, a ∈ deps → is_Some (rt_insts σ0 !! a)) → ∀ fuel, foldM (handle_drop (S fuel)) σ l = Ret σ0).
  { clear - Hc. induction l as [|a l IH]; intros σ deps Hnd Hls [Hw He Hh Hi] Hdom fuel; cbn [foldM].
    { cbn in Hls. subst. rewrite bump_empty in Hi. destruct σ, σ0; cbn in *. by subst. }
    apply NoDup_cons in Hnd as [Hna Hnd]. cbn in Hls. subst deps.
    destruct (Hdom a) as [i Ha]; [set_solver|]. pose proof (Hc a i Ha).
    rewrite (handle_drop_spec fuel σ a (set_refcount i (refcount i + 1)));
      [|rewrite Hi, lookup_bump, Ha; cbn; by rewrite decide_True by set_solver|cbn; lia].
    rewrite bind_Ret_l. apply (IH _ (list_to_set l)); [done..| |set_solver].
    split; cbn; [done..|]. rewrite Hi. apply map_eq. intros b. destruct (decide (a = b)) as [<-|Hne].
    - rewrite lookup_insert_eq, lookup_bump, Ha. cbn.
      rewrite decide_False by (by rewrite elem_of_list_to_set).
      rewrite set_refcount_twice. f_equal. replace (_ + 1 - 1) with (refcount i) by lia.
      apply set_refcount_same.
    - rewrite lookup_insert_ne, !lookup_bump by done.
      destruct (rt_insts σ0 !! b); cbn; [|done]. f_equal. by do 2 case_decide; set_solver. }
  eapply Hgen; [apply NoDup_elements|apply list_to_set_elements_L|done..].
Qed.
End handles.

(** ** Resolution *)

(** Resolving does not depend on reference counts. *)
Class ResolverLaws {R} `{Resolver R} : Prop :=
  resolve_linked (r : R) σ0 deps σ name field :
    linked σ0 deps σ → resolve r σ name field = resolve r σ0 name field.

#[export] Instance NullResolver_laws : ResolverLaws (R := NullResolver).
Proof. done. Qed.

#[export] Instance Namespace_laws `{OS} `{InstanceLayout} : ResolverLaws (R := Namespace).
Proof.
  intros r σ0 deps σ name field [Hw _ _ Hi]. unfold resolve, Namespace_resolver.
  destruct (names r !! name) as [a|]; [|done]. unfold inst_lookup, get_instance, rt_mem.
  rewrite Hw, Hi, lookup_bump. destruct (rt_insts σ0 !! a) as [i|]; [|done]. cbn.
  by case_decide.
Qed.

Section resolution.
Context `{OS} `{InstanceLayout} {R} `{ResolverLaws R} (resolver : R).
Set Default Proof Using "Type*".

(** [x] is what the [n]-th import of the list resolves to. *)
Definition resolved {X} (accept : Z → string → string → RtExport → res (result (X * Z) LinkError))
    (σ : rt) (deps : gset Z) (n : Z) (name : string * string) (x : X) : Prop :=
  ∃ e vmctx, resolve resolver σ name.1 name.2 = Ret (Some e) ∧
    accept n name.1 name.2 e = Ret (Ok (x, vmctx)) ∧ instance_of_vmctx vmctx ∈ deps.

(** The result of a loop, over the imports from [index] on. *)
Fixpoint all_resolved {X} accept σ deps (index : Z) (names : list (string * string)) (xs : list X)
    : Prop :=
  match names, xs with
  | [], [] => True
  | name :: names, x :: xs =>
      resolved accept σ deps index name x ∧ all_resolved accept σ deps (index + 1) names xs
  | _, _ => False
  end.

Lemma resolved_mono {X} accept σ deps deps' n name (x : X) :
  deps ⊆ deps' → resolved accept σ deps n name x → resolved accept σ deps' n name x.
Proof. intros Hd (e & v & ? & ? & ?). exists e, v. split_and!; [done..|set_solver]. Qed.

Lemma all_resolved_mono {X} accept σ deps deps' n names (xs : list X) :
  deps ⊆ deps' → all_resolved accept σ deps n names xs → all_resolved accept σ deps' n names xs.
Proof.
  intros Hd. revert n xs; induction names as [|nm names IH]; intros n [|x xs]; cbn; try done.
  intros [? ?]. split; [by eapply resolved_mono|by apply IH].
Qed.

Lemma link_loop_spec {X} accept σ0 imports : ∀ σ deps index σ' deps' (r : result (list X) LinkError),
  counts_ok σ0 → linked σ0 deps σ → (∀ a, a ∈ deps → is_Some (rt_insts σ0 !! a)) →
  link_loop resolver accept σ deps index imports = Ret (σ', deps', r) →
  linked σ0 deps' σ' ∧ deps ⊆ deps' ∧ (∀ a, a ∈ deps' → is_Some (rt_insts σ0 !! a)) ∧
  match r with Ok xs => all_resolved accept σ0 deps' index imports xs | Err _ => True end.
Proof.
  induction imports as [|[name field] imports IH]; intros σ deps index σ' deps' r Hc Hl Hd E;
    cbn [link_loop] in E.
  { by simplify_eq. }
  apply bind_Ret in E as (ex & Ex & E). destruct ex as [ex|]; [|by simplify_eq].
  apply bind_Ret in E as (acc & Ea & E). destruct acc as [[x vmctx]|e]; [|by simplify_eq].
  apply bind_Ret in E as ([σ1 deps1] & E1 & E). apply bind_Ret in E as ([[σ2 deps2] r2] & E2 & E).
  assert (Hv : is_Some (rt_insts σ0 !! instance_of_vmctx vmctx)).
  { unfold add_dependency, from_vmctx, handle_clone, get_instance in E1.
    rewrite (lk_insts _ _ _ Hl), lookup_bump in E1.
    destruct (rt_insts σ0 !! instance_of_vmctx vmctx); [done|discriminate]. }
  apply (add_dependency_spec σ0) in E1 as [Hl1 ->]; [|done..].
  apply IH in E2 as (Hl2 & Hsub & Hd2 & Hr2); [|done..|set_solver]. simplify_eq.
  split_and!; [done|set_solver|done|]. destruct r2 as [xs|]; [|done]. cbn. split; [|done].
  exists ex, vmctx. cbn. split_and!; [|done|set_solver].
  by rewrite <-(resolve_linked resolver σ0 deps σ).
Qed.

Lemma all_resolved_lookup {X} accept σ deps names : ∀ index (xs : list X) n name,
  all_resolved accept σ deps index names xs → zget names n = Some name →
  ∃ x, zget xs n = Some x ∧ resolved accept σ deps (index + n) name x.
Proof.
  induction names as [|nm names IH]; intros index [|x xs] n name Hall Hn; try done;
    try by apply zget_nil in Hn.
  destruct Hall as [Hx Hall]. pose proof (zget_Some_lt _ _ _ Hn) as Hlt.
  destruct (decide (n = 0)) as [->|Hn0].
  - exists x. injection Hn as <-. split; [done|]. by rewrite Z.add_0_r.
  - rewrite zget_cons in Hn by lia.
    destruct (IH (index + 1) xs (n - 1) name Hall Hn) as (y & Hy & Hr).
    exists y. rewrite zget_cons by lia. split; [done|].
    by replace (index + n) with (index + 1 + (n - 1)) by lia.
Qed.

Section link_module.
Context (module : Module_) (allocated_functions : list (Z * Z)) (jt_offsets : list (list Z)).
Context (builtins : libcalls) (libcall_address : LibCall → Z) (relocations : list (list Relocation)).
Notation link σ := (link_module resolver σ module allocated_functions jt_offsets builtins
                      libcall_address relocations).

(** The imports of a linked module, kind by kind. *)
Record imports_linked (σ : rt) (im : Imports) : Prop := {
  il_functions : ∀ n name, zget (imported_funcs module) n = Some name →
    ∃ address vmctx f sig, resolve resolver σ name.1 name.2 = Ret (Some (RtFunction address vmctx sig)) ∧
      zget (functions module) n = Some f ∧ zget (signatures module) f = Some sig ∧
      zget (im_functions im) n = Some (mkVMFunctionImport address vmctx) ∧
      instance_of_vmctx vmctx ∈ im_dependencies im;
  il_tables : ∀ n name, zget (imported_tables module) n = Some name →
    ∃ definition vmctx e i, resolve resolver σ name.1 name.2 = Ret (Some (RtTable definition vmctx e)) ∧
      zget (table_plans module) n = Some i ∧ is_table_compatible e i = true ∧
      zget (im_tables im) n = Some (mkVMTableImport definition vmctx) ∧
      instance_of_vmctx vmctx ∈ im_dependencies im;
  il_memories : ∀ n name, zget (imported_memories module) n = Some name →
    ∃ definition vmctx e i, resolve resolver σ name.1 name.2 = Ret (Some (RtMemory definition vmctx e)) ∧
      zget (memory_plans module) n = Some i ∧ is_memory_compatible e i = true ∧
      memory_sanity e i = Ret tt ∧
      zget (im_memories im) n = Some (mkVMMemoryImport definition vmctx) ∧
      instance_of_vmctx vmctx ∈ im_dependencies im;
  il_globals : ∀ n name, zget (imported_globals module) n = Some name →
    ∃ definition vmctx e i, resolve resolver σ name.1 name.2 = Ret (Some (RtGlobal definition vmctx e)) ∧
      zget (globals module) n = Some i ∧ is_global_compatible e i = Ret true ∧
      zget (im_globals im) n = Some (mkVMGlobalImport definition) ∧
      instance_of_vmctx vmctx ∈ im_dependencies im;
}.

Lemma link_module_run σ σ' r :
  counts_ok σ → link σ = Ret (σ', r) →
  match r with
  | Err _ => σ' = σ
  | Ok im =>
      (all_resolved (accept_function module) σ (im_dependencies im) 0 (imported_funcs module)
         (im_functions im) ∧
       all_resolved (accept_table module) σ (im_dependencies im) 0 (imported_tables module)
         (im_tables im) ∧
       all_resolved (accept_memory module) σ (im_dependencies im) 0 (imported_memories module)
         (im_memories im) ∧
       all_resolved (accept_global module) σ (im_dependencies im) 0 (imported_globals module)
         (im_globals im)) ∧
      rt_insts σ' = bump (im_dependencies im) (rt_insts σ) ∧ rt_exports σ' = rt_exports σ ∧
      relocate module allocated_functions jt_offsets builtins libcall_address (rt_mem σ)
        relocations = Ret (rt_mem σ')
  end.
Proof.
  intros Hc E. unfold link_module in E.
  apply bind_Ret in E as ([[σ1 d1] r1] & E1 & E).
  apply (link_loop_spec (accept_function module) σ) in E1 as (L1 & S1 & D1 & R1); [|done|apply linked_refl|set_solver].
  destruct r1 as [fs|e].
  2:{ rewrite (drop_handles_spec σ) in E by done. by simplify_eq/=. }
  apply bind_Ret in E as ([[σ2 d2] r2] & E2 & E).
  apply (link_loop_spec (accept_table module) σ) in E2 as (L2 & S2 & D2 & R2); [|done..].
  destruct r2 as [ts|e].
  2:{ rewrite (drop_handles_spec σ) in E by done. by simplify_eq/=. }
  apply bind_Ret in E as ([[σ3 d3] r3] & E3 & E).
  apply (link_loop_spec (accept_memory module) σ) in E3 as (L3 & S3 & D3 & R3); [|done..].
  destruct r3 as [ms|e].
  2:{ rewrite (drop_handles_spec σ) in E by done. by simplify_eq/=. }
  apply bind_Ret in E as ([[σ4 d4] r4] & E4 & E).
  apply (link_loop_spec (accept_global module) σ) in E4 as (L4 & S4 & D4 & R4); [|done..].
  destruct r4 as [gs|e].
  2:{ rewrite (drop_handles_spec σ) in E by done. by simplify_eq/=. }
  apply bind_Ret in E as (m & Em & E). simplify_eq. cbn. destruct L4 as [Hw He Hh Hi].
  split_and!; [..|done|done|].
  - eapply all_resolved_mono; [|done]. set_solver.
  - eapply all_resolved_mono; [|done]. set_solver.
  - eapply all_resolved_mono; [|done]. set_solver.
  - done.
  - unfold rt_mem in Em |- *. by rewrite <-Hw.
Qed.

(** C24: a failed link leaves nothing behind: whatever import is missing or
    incompatible, after the error the state is exactly the one before the
    link -- in particular every handle taken on the way is released. *)
Theorem link_module_error_restores (σ σ' : rt) (e : LinkError)
    (Hcounts : counts_ok σ) (Hlink : link σ = Ret (σ', Err e)) :
  σ' = σ.
Proof. exact (link_module_run σ σ' (Err e) Hcounts Hlink). Qed.

(** C12: a successful link.  Every import, of each of the four kinds, has been
    resolved to an export of its kind whose type is compatible with the
    declaration; the import structures hold the export's addresses in the
    order of the declarations; the instances behind them are dependencies;
    each dependency has exactly one more handle, however many imports it
    provides, and the only memory that changes is what relocation writes. *)
Theorem link_module_resolves (σ σ' : rt) (im : Imports)
    (Hcounts : counts_ok σ) (Hlink : link σ = Ret (σ', Ok im)) :
  imports_linked σ im ∧
  (∀ a, rt_insts σ' !! a = (λ i, if decide (a ∈ im_dependencies im)
     then set_refcount i (refcount i + 1) else i) <$> rt_insts σ !! a) ∧
  rt_exports σ' = rt_exports σ ∧
  relocate module allocated_functions jt_offsets builtins libcall_address (rt_mem σ)
    relocations = Ret (rt_mem σ').
Proof.
  destruct (link_module_run σ σ' (Ok im) Hcounts Hlink) as ((Hf & Ht & Hm & Hg) & Hi & He & Hr).
  split_and!; [|intros a; by rewrite Hi, lookup_bump|done|done]. split; intros n name Hn.
  - destruct (all_resolved_lookup _ _ _ _ 0 _ n name Hf Hn) as (x & Hx & e & v & Hres & Hacc & Hd).
    destruct e as [ad vm sg| | |]; cbn in Hacc; try done.
    apply bind_Ret in Hacc as (f & Hfn%zindex_Ret & Hacc).
    apply bind_Ret in Hacc as (s & Hs%zindex_Ret & Hacc). case_bool_decide as Hsig; [done|].
    simplify_eq. by exists ad, v, f, s.
  - destruct (all_resolved_lookup _ _ _ _ 0 _ n name Ht Hn) as (x & Hx & e & v & Hres & Hacc & Hd).
    destruct e as [|de vm pl| |]; cbn in Hacc; try done.
    apply bind_Ret in Hacc as (t & Hp%zindex_Ret & Hacc).
    destruct (is_table_compatible _ _) eqn:Ec; [|done]. cbn in Hacc. simplify_eq.
    by exists de, v, pl, t.
  - destruct (all_resolved_lookup _ _ _ _ 0 _ n name Hm Hn) as (x & Hx & e & v & Hres & Hacc & Hd).
    destruct e as [| |de vm pl|]; cbn in Hacc; try done.
    apply bind_Ret in Hacc as (t & Hp%zindex_Ret & Hacc).
    destruct (is_memory_compatible _ _) eqn:Ec; [|done]. cbn in Hacc.
    apply bind_Ret in Hacc as ([] & Hs & Hacc). simplify_eq. by exists de, v, pl, t.
  - destruct (all_resolved_lookup _ _ _ _ 0 _ n name Hg Hn) as (x & Hx & e & v & Hres & Hacc & Hd).
    destruct e as [| | |de vm pl]; cbn in Hacc; try done.
    apply bind_Ret in Hacc as (t & Hp%zindex_Ret & Hacc).
    apply bind_Ret in Hacc as ([] & Hs & Hacc); [|done]. cbn in Hacc. simplify_eq.
    by exists de, v, pl, t.
Qed.
End link_module.
End resolution.

(** ** Relocations *)
Section relocations.
Context (module : Module_) (allocated_functions : list (Z * Z)) (jt_offsets : list (list Z)).
Context (builtins : libcalls) (libcall_address : LibCall → Z).
Notation apply_reloc := (apply_relocation module allocated_functions jt_offsets builtins
                           libcall_address).
Notation target := (target_func_address module allocated_functions jt_offsets builtins
                      libcall_address).

(** All relocations with the function each belongs to, in the order in which
    they are applied. *)
Definition flat (index : nat) (relocations : list (list Relocation)) : list (Z * Relocation) :=
  concat (imap (λ i rs, map (pair (Z.of_nat (index + i))) rs) relocations).

(** [s] is what the relocation [r] of function [i] stores, if anything. *)
Definition reloc_store (ir : Z * Relocation) (s : list (Z * list Z)) : Prop :=
  ∃ t body, target (reloc_target ir.2) = Ret t ∧ zget allocated_functions ir.1 = Some body ∧
  match reloc ir.2 with
  | Abs8 => t + wrap_u 64 (reloc_addend ir.2) < 2 ^ 64 ∧
      s = [(body.1 + reloc_offset ir.2, le_bytes 8 (t + wrap_u 64 (reloc_addend ir.2)))]
  | X86PCRelRodata4 => s = []
  | OtherReloc _ => False
  end.

Lemma apply_reloc_store i m r m' :
  apply_reloc i m r = Ret m' → ∃ s, reloc_store (i, r) s ∧ m' = stores m s.
Proof.
  unfold apply_relocation. intros E. apply bind_Ret in E as (t & Et & E).
  apply bind_Ret in E as (body & Eb%zindex_Ret & E). destruct (reloc r) eqn:Er; [| |done].
  - apply bind_Ret in E as (v & Ev%unwrap_Ret%checked_add_Some & E). destruct Ev as [-> Hv].
    injection E as <-. exists [(body.1 + reloc_offset r, le_bytes 8 (t + wrap_u 64 (reloc_addend r)))].
    split; [|done]. exists t, body. cbn -[le_bytes]. rewrite Er. split_and!; try done. lia.
  - injection E as <-. exists []. split; [|done]. exists t, body. cbn. by rewrite Er.
Qed.

Lemma stores_app m l1 l2 : stores m (l1 ++ l2) = stores (stores m l1) l2.
Proof. apply fold_left_app. Qed.

Lemma relocs_stores i rs m m' :
  foldM (apply_reloc i) m rs = Ret m' →
  ∃ ss, Forall2 reloc_store (map (pair i) rs) ss ∧ m' = stores m (concat ss).
Proof.
  revert m; induction rs as [|r rs IH]; intros m E; cbn in E.
  { injection E as <-. exists []. split; [constructor|done]. }
  apply bind_Ret in E as (m1 & E1 & E). apply apply_reloc_store in E1 as (s & Hs & ->).
  apply IH in E as (ss & Hss & ->). exists (s :: ss). split; [by constructor|].
  cbn [concat]. by rewrite stores_app.
Qed.

Lemma relocate_stores m relocations m' :
  relocate module allocated_functions jt_offsets builtins libcall_address m relocations = Ret m' →
  ∃ ss, Forall2 reloc_store (flat 0 relocations) ss ∧ m' = stores m (concat ss).
Proof.
  unfold relocate, flat. assert (Hgen : ∀ k m,
    foldM (λ m '(i, rs), foldM (apply_reloc (Z.of_nat i)) m rs) m
      (imap (λ i rs, ((k + i)%nat, rs)) relocations) = Ret m' →
    ∃ ss, Forall2 reloc_store (concat (imap (λ i rs, map (pair (Z.of_nat (k + i))) rs) relocations)) ss
      ∧ m' = stores m (concat ss)); [|apply (Hgen 0%nat)].
  induction relocations as [|rs rss IH]; intros k m1 E; cbn in E |- *.
  { injection E as <-. exists []. split; [constructor|done]. }
  apply bind_Ret in E as (m2 & E1 & E). rewrite Nat.add_0_r in *.
  apply relocs_stores in E1 as (ss1 & Hss1 & ->).
  rewrite (imap_ext _ (λ i rs, ((S k + i)%nat, rs))) in E by (intros; cbn; f_equal; lia).
  rewrite (imap_ext _ (λ i rs, map (pair (Z.of_nat (S k + i))) rs) rss)
    by (intros; cbn; do 2 f_equal; lia).
  apply IH in E as (ss2 & Hss2 & ->). exists (ss1 ++ ss2).
  split; [by apply Forall2_app|]. by rewrite concat_app, stores_app.
Qed.

(** What relocation does to memory: each absolute relocation stores its
    target's address plus the addend, without overflow, in eight bytes at
    its offset in its function's body; the relocations are applied in the
    order of functions and of the records of each; and no other byte
    changes. *)
Theorem relocate_stores_targets (m m' : mem) (relocations : list (list Relocation))
    (Hrun : relocate module allocated_functions jt_offsets builtins libcall_address m relocations
            = Ret m') :
  ∃ ss, Forall2 reloc_store (flat 0 relocations) ss ∧ m' = stores m (concat ss) ∧
    ∀ x, (∀ i r body, (i, r) ∈ flat 0 relocations → reloc r = Abs8 →
            zget allocated_functions i = Some body →
            ¬ (body.1 + reloc_offset r ≤ x < body.1 + reloc_offset r + 8)) → m' x = m x.
Proof.
  destruct (relocate_stores m relocations m' Hrun) as (ss & Hss & ->).
  exists ss. split_and!; [done..|]. intros x Hx. apply stores_out. intros a bs Hin.
  apply list_elem_of_In, in_concat in Hin as (s & Hs & Hin). apply list_elem_of_In in Hs, Hin.
  apply list_elem_of_lookup in Hs as (k & Hs).
  destruct (Forall2_lookup_r _ _ _ _ _ Hss Hs) as ([i r] & Hir & t & body & Ht & Hb & Hm).
  apply list_elem_of_lookup_2 in Hir. cbn -[le_bytes] in Hm. destruct (reloc r) eqn:Er; [| |done].
  - destruct Hm as [_ ->]. apply list_elem_of_singleton, pair_equal_spec in Hin as [-> ->].
    rewrite zlen_le_bytes. by apply (Hx i r body).
  - subst s. by apply elem_of_nil in Hin.
Qed.

(** A negative addend is not subtracted: converted to [u64] it makes the
    checked addition overflow, so the relocation panics whenever the result
    would be an address at all. *)
Theorem negative_addend_panics (i t : Z) (m : mem) (r : Relocation)
    (Habs : reloc r = Abs8) (Ht : target (reloc_target r) = Ret t)
    (Haddend : - 2 ^ 63 ≤ reloc_addend r < 0) (Hpos : 0 ≤ t + reloc_addend r) :
  apply_reloc i m r = Panic.
Proof.
  unfold apply_relocation. rewrite Ht, bind_Ret_l, Habs. apply bind_Panic.
  destruct (zindex allocated_functions i) as [body|]; [right|by left]. eexists; split; [done|].
  apply bind_Panic. left. unfold checked_add, wrap_u.
  rewrite <-(Z.mod_add _ 1) by done. rewrite Z.mod_small by lia.
  by rewrite (proj2 (in_u_false 64 _)) by lia.
Qed.
End relocations.

(** ** Witnesses: the state of [InstanceProofs.v] *)
Section example.
#[local] Existing Instance toy_os.
#[local] Existing Instance ex_layout.

Definition ex_namespace : Namespace := mkNamespace {[ "env" := ex_b ]}.
Definition ex_libcalls : libcalls := mkLibcalls 16 32 48 64.
Definition ex_relocations : list (list Relocation) :=
  [[mkRelocation Abs8 Memory32Grow 2 0]].

Lemma ex_counts : counts_ok ex_rt.
Proof.
  intros a i Ha. cbn [rt_insts ex_rt] in Ha. apply lookup_insert_Some in Ha as [[<- <-]|[_ Ha]]; [cbn; lia|].
  apply lookup_singleton_Some in Ha as [<- <-]. cbn. lia.
Qed.

Lemma link_module_error_restores_witness :
  ∃ σ' e, link_module mkNullResolver ex_rt ex_importer [] [] ex_libcalls (λ _, 0) [] = Ret (σ', Err e) ∧
    σ' = ex_rt.
Proof.
  eexists. exists (UnknownImport "env" "mem"). split; [reflexivity|].
  apply (link_module_error_restores mkNullResolver ex_importer [] [] ex_libcalls (λ _, 0) [] ex_rt _
    (UnknownImport "env" "mem")); [apply ex_counts|reflexivity].
Defined.

Definition ex_linked : res (rt * result Imports LinkError) :=
  link_module ex_namespace ex_rt ex_importer [(2 ^ 50, 64)] [] ex_libcalls (λ _, 0) ex_relocations.

Lemma link_module_resolves_witness :
  ∃ σ' im, ex_linked = Ret (σ', Ok im) ∧ imports_linked ex_namespace ex_importer ex_rt im.
Proof.
  destruct ex_linked as [[σ' r]|] eqn:E.
  - destruct r as [im|e].
    + exists σ', im. split; [reflexivity|].
      apply (link_module_resolves ex_namespace ex_importer [(2 ^ 50, 64)] [] ex_libcalls (λ _, 0)
        ex_relocations ex_rt σ' im); [apply ex_counts|exact E].
    + assert (match ex_linked with Ret (_, Ok _) => true | _ => false end = true) as Hok
        by (vm_compute; reflexivity).
      rewrite E in Hok. discriminate Hok.
  - assert (is_ret ex_linked = true) as Hok by (vm_compute; reflexivity).
    rewrite E in Hok. discriminate Hok.
Defined.

Lemma relocate_stores_targets_witness :
  ∃ m', relocate ex_importer [(2 ^ 50, 64)] [] ex_libcalls (λ _, 0) (λ _, 0) ex_relocations = Ret m' ∧
    m' 0 = 0.
Proof.
  eexists. split; [reflexivity|].
  destruct (relocate_stores_targets ex_importer [(2 ^ 50, 64)] [] ex_libcalls (λ _, 0) (λ _, 0) _
    ex_relocations eq_refl) as (ss & _ & _ & Hx).
  apply Hx. intros i r body Hin _ Hb.
  apply list_elem_of_singleton in Hin. injection Hin as -> ->.
  injection Hb as <-. cbn. lia.
Defined.

Lemma negative_addend_panics_witness :
  apply_relocation ex_importer [(2 ^ 50, 64)] [] ex_libcalls (λ _, 0) 0 (λ _, 0)
    (mkRelocation Abs8 Memory32Grow 2 (-4)) = Panic.
Proof.
  apply (negative_addend_panics ex_importer [(2 ^ 50, 64)] [] ex_libcalls (λ _, 0) 0 16);
    try reflexivity; cbn; lia.
Defined.
End example.
