(* ===== verification/FuncEnviron.v ===== *)
(** * Code for accesses to the context

    Models [wasmtime-environ/src/func_environ.rs]: for each WebAssembly construct
    that needs the runtime's structures, the callbacks emit instructions of
    Cranelift's intermediate language.  A function is the record of the entities
    that the callbacks create in it and the list of its instructions; the class
    [Cranelift] has the documented meaning of the instructions that they use, on
    64-bit addresses. *)

From S2P Require Import Prelude Environ ModuleEnv VMOffsets Store Registry TrapHandlers Memory VMContext.
Local Open Scope Z_scope.

(** ** The intermediate language *)

(** [ExternalName::user] *)
Record ExternalName := mkUserName { en_namespace : Z; en_index : Z }.

Inductive GlobalValueData :=
| GVVMContext
| GVLoad (base offset : Z) (global_type : ir_type) (readonly : bool).

Record TableData := mkTableData {
  t_base_gv : Z;
  t_min_size : Z;
  t_bound_gv : Z;
  t_element_size : Z;
  t_index_type : ir_type;
}.

Inductive HeapStyle :=
| HeapDynamic (bound_gv : Z)
| HeapStatic (bound : Z).
Record HeapData := mkHeapData {
  h_base : Z;
  h_min_size : Z;
  h_offset_guard_size : Z;
  h_style : HeapStyle;
  h_index_type : ir_type;
}.

Record ExtFuncData := mkExtFuncData { ef_name : ExternalName; ef_signature : Z; ef_colocated : bool }.

(** [GlobalVariable::Memory] *)
Record GlobalVariable := mkGlobalVariable { gvar_gv : Z; gvar_offset : Z; gvar_ty : ir_type }.

(** An instruction with the numbers of the values it defines and uses. *)
Inductive inst :=
| IGlobalValue (dst gv : Z)
| ILoad (dst : Z) (ty : ir_type) (readonly : bool) (addr offset : Z)
| ITableAddr (dst table index offset : Z)
| ITrapz (v : Z) (code : TrapCode)
| IIcmpEq (dst x y : Z)
| IIconst (dst : Z) (n : Z)
| ICall (dsts : list Z) (callee : Z) (args : list Z)
| ICallIndirect (dsts : list Z) (sig addr : Z) (args : list Z).

(** Entities and values are numbered from zero; [special_param] is the parameter
    with the purpose [VMContext]. *)
Record Function := mkFunction {
  global_values : list GlobalValueData;
  func_tables : list TableData;
  heaps : list HeapData;
  sigs : list Signature;
  ext_funcs : list ExtFuncData;
  insts : list inst;
  num_values : Z;
  special_param : option Z;
}.
Implicit Types f : Function.

Definition create_global_value f (d : GlobalValueData) : Function * Z :=
  (mkFunction (global_values f ++ [d]) (func_tables f) (heaps f) (sigs f) (ext_funcs f) (insts f)
     (num_values f) (special_param f), zlen (global_values f)).
Definition create_table f (d : TableData) : Function * Z :=
  (mkFunction (global_values f) (func_tables f ++ [d]) (heaps f) (sigs f) (ext_funcs f) (insts f)
     (num_values f) (special_param f), zlen (func_tables f)).
Definition create_heap f (d : HeapData) : Function * Z :=
  (mkFunction (global_values f) (func_tables f) (heaps f ++ [d]) (sigs f) (ext_funcs f) (insts f)
     (num_values f) (special_param f), zlen (heaps f)).
Definition import_signature f (d : Signature) : Function * Z :=
  (mkFunction (global_values f) (func_tables f) (heaps f) (sigs f ++ [d]) (ext_funcs f) (insts f)
     (num_values f) (special_param f), zlen (sigs f)).
Definition import_function f (d : ExtFuncData) : Function * Z :=
  (mkFunction (global_values f) (func_tables f) (heaps f) (sigs f) (ext_funcs f ++ [d]) (insts f)
     (num_values f) (special_param f), zlen (ext_funcs f)).

(** [pos.ins()]: an instruction with [n] new values after the others. *)
Definition ins f (n : Z) (i : Z → inst) : Function * Z :=
  (mkFunction (global_values f) (func_tables f) (heaps f) (sigs f) (ext_funcs f)
     (insts f ++ [i (num_values f)]) (num_values f + n) (special_param f), num_values f).

(** The values of a call by its signature. *)
Definition ins_call f (sig : Z) (i : list Z → inst) : res (Function * list Z) :=
  s ← zindex (sigs f) sig;
  let dsts := seqZ (num_values f) (zlen (returns s)) in
  Ret (fst (ins f (zlen (returns s)) (λ _, i dsts)), dsts).

(** ** What instructions do *)

Definition type_bytes (t : ir_type) : nat :=
  match t with I32 | F32 => 4%nat | I64 | F64 => 8%nat | I8X16 => 16%nat | ir_other n => Z.to_nat n end.

(** The address of an access. *)
Definition addr64 (a : Z) : Z := wrap_u 64 a.

(** How the run of a list of instructions ends: with a trap, with a call of an
    address or of a function, or after the last one with its values. *)
Inductive outcome :=
| Trapped (code : TrapCode)
| CallsAddress (sig addr : Z) (args : list Z)
| CallsFunction (callee : Z) (args : list Z)
| Finished (vals : gmap Z Z).

(** What the development relies on of Cranelift: the documented meaning of a global
    value (of one that is loaded, its base is created before it) and of each
    instruction, given the memory, the address of the context and the function. *)
Class Cranelift := {
  gv_eval : mem → Z → Function → Z → option Z;
  run : mem → Z → Function → gmap Z Z → list inst → option outcome;
}.

Class CraneliftLaws `{Cranelift} : Prop := {
  gv_eval_vmctx m c f g :
    zget (global_values f) g = Some GVVMContext → gv_eval m c f g = Some c;
  gv_eval_load m c f g base offset ty ro a :
    zget (global_values f) g = Some (GVLoad base offset ty ro) → base < g →
    gv_eval m c f base = Some a →
    gv_eval m c f g = Some (load_le m (addr64 (a + offset)) (type_bytes ty));
  run_nil m c f vals : run m c f vals [] = Some (Finished vals);
  run_global_value m c f vals dst gv code :
    run m c f vals (IGlobalValue dst gv :: code) =
    (v ← gv_eval m c f gv; run m c f (<[dst := v]> vals) code);
  run_load m c f vals dst ty ro addr offset code :
    run m c f vals (ILoad dst ty ro addr offset :: code) =
    (a ← vals !! addr;
     run m c f (<[dst := load_le m (addr64 (a + offset)) (type_bytes ty)]> vals) code);
  run_table_addr m c f vals dst table index offset code :
    run m c f vals (ITableAddr dst table index offset :: code) =
    (t ← zget (func_tables f) table;
     i ← vals !! index;
     bound ← gv_eval m c f (t_bound_gv t);
     base ← gv_eval m c f (t_base_gv t);
     if bound <=? i then Some (Trapped TableOutOfBounds)
     else run m c f (<[dst := addr64 (base + i * t_element_size t + offset)]> vals) code);
  run_trapz m c f vals v t code :
    run m c f vals (ITrapz v t :: code) =
    (x ← vals !! v; if x =? 0 then Some (Trapped t) else run m c f vals code);
  run_icmp_eq m c f vals dst x y code :
    run m c f vals (IIcmpEq dst x y :: code) =
    (a ← vals !! x; b ← vals !! y; run m c f (<[dst := if a =? b then 1 else 0]> vals) code);
  run_iconst m c f vals dst n code :
    run m c f vals (IIconst dst n :: code) = run m c f (<[dst := wrap_u 32 n]> vals) code;
  run_call m c f vals dsts callee args code :
    run m c f vals (ICall dsts callee args :: code) =
    (l ← mapM (λ v, vals !! v) args; Some (CallsFunction callee l));
  run_call_indirect m c f vals dsts sig addr args code :
    run m c f vals (ICallIndirect dsts sig addr args :: code) =
    (a ← vals !! addr; l ← mapM (λ v, vals !! v) args; Some (CallsAddress sig a l));
}.

(** An interpreter with these laws. *)
Section exec.
Context (m : mem) (vmctx : Z) (f : Function).

Fixpoint gv_value (fuel : nat) (gv : Z) : option Z :=
  match fuel with
  | O => None
  | S fuel =>
      d ← zget (global_values f) gv;
      match d with
      | GVVMContext => Some vmctx
      | GVLoad base offset ty _ =>
          if base <? gv then
            b ← gv_value fuel base; Some (load_le m (addr64 (b + offset)) (type_bytes ty))
          else None
      end
  end.
Definition exec_gv (gv : Z) : option Z := gv_value (S (Z.to_nat gv)) gv.

Fixpoint exec (vals : gmap Z Z) (code : list inst) : option outcome :=
  match code with
  | [] => Some (Finished vals)
  | IGlobalValue dst gv :: rest => v ← exec_gv gv; exec (<[dst := v]> vals) rest
  | ILoad dst ty _ addr offset :: rest =>
      a ← vals !! addr;
      exec (<[dst := load_le m (addr64 (a + offset)) (type_bytes ty)]> vals) rest
  | ITableAddr dst table index offset :: rest =>
      t ← zget (func_tables f) table;
      i ← vals !! index;
      bound ← exec_gv (t_bound_gv t);
      base ← exec_gv (t_base_gv t);
      if bound <=? i then Some (Trapped TableOutOfBounds)
      else exec (<[dst := addr64 (base + i * t_element_size t + offset)]> vals) rest
  | ITrapz v c :: rest =>
      x ← vals !! v; if x =? 0 then Some (Trapped c) else exec vals rest
  | IIcmpEq dst x y :: rest =>
      a ← vals !! x; b ← vals !! y; exec (<[dst := if a =? b then 1 else 0]> vals) rest
  | IIconst dst n :: rest => exec (<[dst := wrap_u 32 n]> vals) rest
  | ICall _ callee args :: _ =>
      l ← mapM (λ v, vals !! v) args; Some (CallsFunction callee l)
  | ICallIndirect _ sig addr args :: _ =>
      a ← vals !! addr; l ← mapM (λ v, vals !! v) args; Some (CallsAddress sig a l)
  end.

Lemma gv_value_neg n gv : gv < 0 → gv_value n gv = None.
Proof.
  intros Hg. destruct n; [done|]. cbn. unfold zget.
  by rewrite (proj2 (Z.leb_gt 0 gv)) by done.
Qed.

Lemma gv_value_fuel n n' gv :
  (Z.to_nat gv < n)%nat → (Z.to_nat gv < n')%nat → gv_value n gv = gv_value n' gv.
Proof.
  revert n' gv; induction n as [|n IH]; intros [|n'] gv Hn Hn'; try lia. cbn.
  destruct (zget (global_values f) gv) as [[|base off ty ro]|] eqn:E; [done| |done]. cbn.
  apply zget_Some_lt in E. destruct (Z.ltb_spec base gv); [|done].
  destruct (Z.ltb_spec base 0); [by rewrite !gv_value_neg by done|].
  rewrite (IH n'); [done|lia..].
Qed.
End exec.

Definition interpreter : Cranelift := {| gv_eval := exec_gv; run := exec |}.
Lemma interpreter_laws : @CraneliftLaws interpreter.
Proof.
  split; try done; cbn -[exec_gv].
  - intros m c f g Hg. unfold exec_gv. cbn. by rewrite Hg.
  - intros m c f g base off ty ro a Hg Hb Ha. unfold exec_gv in *.
    destruct (Z.ltb_spec base 0); [by rewrite gv_value_neg in Ha|].
    change (gv_value m c f (S (Z.to_nat g)) g) with
      (d ← zget (global_values f) g;
       match d with
       | GVVMContext => Some c
       | GVLoad base offset ty _ =>
           if base <? g then
             b ← gv_value m c f (Z.to_nat g) base;
             Some (load_le m (addr64 (b + offset)) (type_bytes ty))
           else None
       end).
    rewrite Hg. cbn -[gv_value]. rewrite (proj2 (Z.ltb_lt _ _)) by done. apply zget_Some_lt in Hg.
    rewrite (gv_value_fuel m c f (Z.to_nat g) (S (Z.to_nat base))), Ha by lia. done.
Qed.

(** ** Names *)

Definition get_func_name (func_index : Z) : ExternalName := mkUserName 0 func_index.
Definition get_memory32_grow_name : ExternalName := mkUserName 1 0.
Definition get_imported_memory32_grow_name : ExternalName := mkUserName 1 1.
Definition get_memory32_size_name : ExternalName := mkUserName 1 2.
Definition get_imported_memory32_size_name : ExternalName := mkUserName 1 3.

(** ** The environment of a function *)

Section func_environ.
Context (abi_special : ir_type → ArgumentPurpose → AbiParam) (abi_new : ir_type → AbiParam).

Record FuncEnvironment := mkFuncEnvironment {
  pointer_type : ir_type;
  default_call_conv : Z;
  fe_module : Module_;
  fe_vmctx : option Z;
  memory32_size_sig : option Z;
  memory_grow_sig : option Z;
  fe_offsets : VMOffsets;
}.
Implicit Types fe : FuncEnvironment.

(** For a target with 64-bit pointers. *)
Definition FuncEnvironment_new (call_conv : Z) (module : Module_) : res FuncEnvironment :=
  offsets ← VMOffsets_new 8 module;
  Ret (mkFuncEnvironment I64 call_conv module None None None offsets).

Definition set_fe_vmctx fe v := mkFuncEnvironment (pointer_type fe) (default_call_conv fe)
  (fe_module fe) v (memory32_size_sig fe) (memory_grow_sig fe) (fe_offsets fe).
Definition set_size_sig fe v := mkFuncEnvironment (pointer_type fe) (default_call_conv fe)
  (fe_module fe) (fe_vmctx fe) v (memory_grow_sig fe) (fe_offsets fe).
Definition set_grow_sig fe v := mkFuncEnvironment (pointer_type fe) (default_call_conv fe)
  (fe_module fe) (fe_vmctx fe) (memory32_size_sig fe) v (fe_offsets fe).

(** [FuncEnvironment::vmctx] *)
Definition get_vmctx fe f : FuncEnvironment * Function * Z :=
  match fe_vmctx fe with
  | Some v => (fe, f, v)
  | None => let '(f, v) := create_global_value f GVVMContext in (set_fe_vmctx fe (Some v), f, v)
  end.

(** [i32::try_from(offset).unwrap()] *)
Definition offset32 (r : res Z) : res Z := o ← r; unwrap (try_from_u 31 o).

Definition get_memory_grow_sig fe f : FuncEnvironment * Function * Z :=
  let '(f, sig) := match memory_grow_sig fe with
    | Some sig => (f, sig)
    | None => import_signature f
        (mkSignature [abi_special (pointer_type fe) VMContextArg; abi_new I32; abi_new I32]
           [abi_new I32] (default_call_conv fe))
    end in
  (set_grow_sig fe (Some sig), f, sig).

Definition get_memory_grow_func fe f (index : Z) : res (FuncEnvironment * Function * (Z * Z * Z)) :=
  if is_imported_memory (fe_module fe) index then
    let '(fe, f, sig) := get_memory_grow_sig fe f in
    Ret (fe, f, (sig, index, get_imported_memory32_grow_index))
  else
    let '(fe, f, sig) := get_memory_grow_sig fe f in
    def_index ← unwrap (defined_memory_index (fe_module fe) index);
    Ret (fe, f, (sig, def_index, get_memory32_grow_index)).

Definition get_memory32_size_sig fe f : FuncEnvironment * Function * Z :=
  let '(f, sig) := match memory32_size_sig fe with
    | Some sig => (f, sig)
    | None => import_signature f
        (mkSignature [abi_special (pointer_type fe) VMContextArg; abi_new I32] [abi_new I32]
           (default_call_conv fe))
    end in
  (set_size_sig fe (Some sig), f, sig).

Definition get_memory_size_func fe f (index : Z) : res (FuncEnvironment * Function * (Z * Z * Z)) :=
  if is_imported_memory (fe_module fe) index then
    let '(fe, f, sig) := get_memory32_size_sig fe f in
    Ret (fe, f, (sig, index, get_imported_memory32_size_index))
  else
    let '(fe, f, sig) := get_memory32_size_sig fe f in
    def_index ← unwrap (defined_memory_index (fe_module fe) index);
    Ret (fe, f, (sig, def_index, get_memory32_size_index)).

Definition translate_load_builtin_function_address fe f (callee_func_idx : Z)
    : res (FuncEnvironment * Function * (Z * Z)) :=
  let '(fe, f, vmctx) := get_vmctx fe f in
  let '(f, base) := ins f 1 (λ d, IGlobalValue d vmctx) in
  body_offset ← offset32 (vmctx_builtin_function (fe_offsets fe) callee_func_idx);
  let '(f, func_addr) := ins f 1 (λ d, ILoad d (pointer_type fe) true base body_offset) in
  Ret (fe, f, (base, func_addr)).

(** ** Tables, heaps and globals *)

(** [Type::int(u16::from(size) * 8).unwrap()] for a size in bytes. *)
Definition type_int (bits : Z) : option ir_type :=
  if bits =? 32 then Some I32 else if bits =? 64 then Some I64 else None.
Definition int_type_of_size (size : res Z) : res ir_type :=
  s ← size; bits ← op_mul 16 s 8; unwrap (type_int bits).
Definition type_of_vmtable_definition_current_elements : res ir_type :=
  int_type_of_size size_of_vmtable_definition_current_elements.
Definition type_of_vmmemory_definition_current_length : res ir_type :=
  int_type_of_size size_of_vmmemory_definition_current_length.

Definition make_table fe f (index : Z) : res (FuncEnvironment * Function * Z) :=
  let '(fe, f, vmctx) := get_vmctx fe f in
  let o := fe_offsets fe in
  '(f, ptr, base_offset, current_elements_offset) ←
    match defined_table_index (fe_module fe) index with
    | Some def_index =>
        base_offset ← offset32 (vmctx_vmtable_definition_base o def_index);
        current_elements_offset ←
          offset32 (vmctx_vmtable_definition_current_elements o def_index);
        Ret (f, vmctx, base_offset, current_elements_offset)
    | None =>
        from_offset ← offset32 (vmctx_vmtable_import_from o index);
        let '(f, table) := create_global_value f (GVLoad vmctx from_offset (pointer_type fe) true) in
        base_offset ← vmtable_definition_base o;
        current_elements_offset ← vmtable_definition_current_elements o;
        Ret (f, table, base_offset, current_elements_offset)
    end;
  let '(f, base_gv) := create_global_value f (GVLoad ptr base_offset (pointer_type fe) false) in
  bound_type ← type_of_vmtable_definition_current_elements;
  let '(f, bound_gv) :=
    create_global_value f (GVLoad ptr current_elements_offset bound_type false) in
  plan ← zindex (table_plans (fe_module fe)) index;
  element_size ← match table_style plan with
    | CallerChecksSignature => size_of_vmcaller_checked_anyfunc o
    end;
  let '(f, t) := create_table f (mkTableData base_gv 0 bound_gv element_size I32) in
  Ret (fe, f, t).

Definition make_heap fe f (index : Z) : res (FuncEnvironment * Function * Z) :=
  let '(fe, f, vmctx) := get_vmctx fe f in
  let o := fe_offsets fe in
  '(f, ptr, base_offset, current_length_offset) ←
    match defined_memory_index (fe_module fe) index with
    | Some def_index =>
        base_offset ← offset32 (vmctx_vmmemory_definition_base o def_index);
        current_length_offset ←
          offset32 (vmctx_vmmemory_definition_current_length o def_index);
        Ret (f, vmctx, base_offset, current_length_offset)
    | None =>
        from_offset ← offset32 (vmctx_vmmemory_import_from o index);
        let '(f, memory) := create_global_value f (GVLoad vmctx from_offset (pointer_type fe) true) in
        base_offset ← vmmemory_definition_base o;
        current_length_offset ← vmmemory_definition_current_length o;
        Ret (f, memory, base_offset, current_length_offset)
    end;
  plan ← zindex (memory_plans (fe_module fe)) index;
  '(f, heap_style, readonly_base) ←
    match plan_style plan with
    | Dynamic =>
        bound_type ← type_of_vmmemory_definition_current_length;
        let '(f, heap_bound) :=
          create_global_value f (GVLoad ptr current_length_offset bound_type false) in
        Ret (f, HeapDynamic heap_bound, false)
    | Static bound =>
        b ← op_mul 64 bound WASM_PAGE_SIZE;
        Ret (f, HeapStatic b, true)
    end;
  let '(f, heap_base) :=
    create_global_value f (GVLoad ptr base_offset (pointer_type fe) readonly_base) in
  let '(f, h) :=
    create_heap f (mkHeapData heap_base 0 (plan_offset_guard_size plan) heap_style I32) in
  Ret (fe, f, h).

Definition make_global fe f (index : Z) : res (FuncEnvironment * Function * GlobalVariable) :=
  let '(fe, f, vmctx) := get_vmctx fe f in
  '(f, ptr, offset) ←
    match defined_global_index (fe_module fe) index with
    | Some def_index =>
        offset ← offset32 (vmctx_vmglobal_definition (fe_offsets fe) def_index);
        Ret (f, vmctx, offset)
    | None =>
        from_offset ← offset32 (vmctx_vmglobal_import_from (fe_offsets fe) index);
        let '(f, global) := create_global_value f (GVLoad vmctx from_offset (pointer_type fe) true) in
        Ret (f, global, 0)
    end;
  g ← zindex (globals (fe_module fe)) index;
  Ret (fe, f, mkGlobalVariable ptr offset (global_ty g)).

(** ** Calls *)

Definition make_indirect_sig fe f (index : Z) : res (Function * Z) :=
  s ← zindex (signatures (fe_module fe)) index; Ret (import_signature f s).

Definition make_direct_func fe f (index : Z) : res (Function * Z) :=
  sigidx ← zindex (functions (fe_module fe)) index;
  s ← zindex (signatures (fe_module fe)) sigidx;
  let '(f, signature) := import_signature f s in
  Ret (import_function f (mkExtFuncData (get_func_name index) signature false)).

Definition translate_call_indirect fe f (table_index table sig_index sig_ref callee : Z)
    (call_args : list Z) : res (FuncEnvironment * Function * list Z) :=
  let o := fe_offsets fe in
  let '(f, table_entry_addr) := ins f 1 (λ d, ITableAddr d table callee 0) in
  func_ptr_offset ← vmcaller_checked_anyfunc_func_ptr o;
  let '(f, func_addr) :=
    ins f 1 (λ d, ILoad d (pointer_type fe) false table_entry_addr func_ptr_offset) in
  let '(f, _) := ins f 0 (λ _, ITrapz func_addr IndirectCallToNull) in
  plan ← zindex (table_plans (fe_module fe)) table_index;
  '(fe, f) ← match table_style plan with
    | CallerChecksSignature =>
        sig_id_type ← int_type_of_size size_of_vmshared_signature_index;
        let '(fe, f, vmctx) := get_vmctx fe f in
        let '(f, base) := ins f 1 (λ d, IGlobalValue d vmctx) in
        offset ← offset32 (vmctx_vmshared_signature_id o sig_index);
        let '(f, caller_sig_id) := ins f 1 (λ d, ILoad d sig_id_type true base offset) in
        type_index_offset ← vmcaller_checked_anyfunc_type_index o;
        let '(f, callee_sig_id) :=
          ins f 1 (λ d, ILoad d sig_id_type false table_entry_addr type_index_offset) in
        let '(f, cmp) := ins f 1 (λ d, IIcmpEq d callee_sig_id caller_sig_id) in
        let '(f, _) := ins f 0 (λ _, ITrapz cmp BadSignature) in
        Ret (fe, f)
    end;
  vmctx_off ← vmcaller_checked_anyfunc_vmctx o;
  let '(f, vmctx) := ins f 1 (λ d, ILoad d (pointer_type fe) false table_entry_addr vmctx_off) in
  let real_call_args := vmctx :: call_args in
  '(f, dsts) ← ins_call f sig_ref (λ ds, ICallIndirect ds sig_ref func_addr real_call_args);
  Ret (fe, f, dsts).

Definition translate_call fe f (callee_index callee : Z) (call_args : list Z)
    : res (FuncEnvironment * Function * list Z) :=
  e ← zindex (ext_funcs f) callee;
  if negb (is_imported_function (fe_module fe) callee_index) then
    v ← unwrap (special_param f);
    '(f, dsts) ← ins_call f (ef_signature e) (λ ds, ICall ds callee (v :: call_args));
    Ret (fe, f, dsts)
  else
    let sig_ref := ef_signature e in
    let '(fe, f, vmctx) := get_vmctx fe f in
    let '(f, base) := ins f 1 (λ d, IGlobalValue d vmctx) in
    body_offset ← offset32 (vmctx_vmfunction_import_body (fe_offsets fe) callee_index);
    let '(f, func_addr) := ins f 1 (λ d, ILoad d (pointer_type fe) false base body_offset) in
    vmctx_offset ← offset32 (vmctx_vmfunction_import_vmctx (fe_offsets fe) callee_index);
    let '(f, vmctx) := ins f 1 (λ d, ILoad d (pointer_type fe) false base vmctx_offset) in
    '(f, dsts) ← ins_call f sig_ref (λ ds, ICallIndirect ds sig_ref func_addr (vmctx :: call_args));
    Ret (fe, f, dsts).

(** ** Library calls *)

Definition translate_memory_grow fe f (index _heap val : Z)
    : res (FuncEnvironment * Function * Z) :=
  '(fe, f, (func_sig, index_arg, func_idx)) ← get_memory_grow_func fe f index;
  let '(f, memory_index) := ins f 1 (λ d, IIconst d index_arg) in
  '(fe, f, (vmctx, func_addr)) ← translate_load_builtin_function_address fe f func_idx;
  '(f, dsts) ← ins_call f func_sig
    (λ ds, ICallIndirect ds func_sig func_addr [vmctx; val; memory_index]);
  r ← unwrap (hd_error dsts);
  Ret (fe, f, r).

Definition translate_memory_size fe f (index _heap : Z) : res (FuncEnvironment * Function * Z) :=
  '(fe, f, (func_sig, index_arg, func_idx)) ← get_memory_size_func fe f index;
  let '(f, memory_index) := ins f 1 (λ d, IIconst d index_arg) in
  '(fe, f, (vmctx, func_addr)) ← translate_load_builtin_function_address fe f func_idx;
  '(f, dsts) ← ins_call f func_sig (λ ds, ICallIndirect ds func_sig func_addr [vmctx; memory_index]);
  r ← unwrap (hd_error dsts);
  Ret (fe, f, r).
End func_environ.

(** ** [lightbeam::ModuleContext]

    The same facts for the other compiler, with the indices as [u32]. *)
Module Lightbeam.
Section module_context.
Context (fe : FuncEnvironment).
Let m := fe_module fe.
Let o := fe_offsets fe.

Definition func_index (defined_func_index : Z) : Z := Environ.func_index m defined_func_index.
Definition defined_func_index (func_index : Z) : option Z := Environ.defined_func_index m func_index.
Definition defined_global_index (global_index : Z) : option Z :=
  Environ.defined_global_index m global_index.
Definition global_type (global_index : Z) : res ir_type :=
  g ← zindex (globals m) global_index; Ret (global_ty g).
Definition func_type_index (func_idx : Z) : res Z := zindex (functions m) func_idx.
Definition signature (index : Z) : res Signature := zindex (signatures m) index.
Definition defined_table_index (table_index : Z) : option Z :=
  Environ.defined_table_index m table_index.
Definition defined_memory_index (memory_index : Z) : option Z :=
  Environ.defined_memory_index m memory_index.
Definition vmctx_vmfunction_import_body (index : Z) : res Z := VMOffsets.vmctx_vmfunction_import_body o index.
Definition vmctx_vmfunction_import_vmctx (index : Z) : res Z := VMOffsets.vmctx_vmfunction_import_vmctx o index.
Definition vmctx_vmglobal_import_from (index : Z) : res Z := VMOffsets.vmctx_vmglobal_import_from o index.
Definition vmctx_vmglobal_definition (index : Z) : res Z := VMOffsets.vmctx_vmglobal_definition o index.
Definition vmctx_vmmemory_import_from (index : Z) : res Z := VMOffsets.vmctx_vmmemory_import_from o index.
Definition vmctx_vmmemory_definition (index : Z) : res Z := VMOffsets.vmctx_vmmemory_definition o index.
Definition vmctx_vmmemory_definition_base (index : Z) : res Z := VMOffsets.vmctx_vmmemory_definition_base o index.
Definition vmctx_vmmemory_definition_current_length (index : Z) : res Z := VMOffsets.vmctx_vmmemory_definition_current_length o index.
Definition vmmemory_definition_base : res Z := VMOffsets.vmmemory_definition_base o.
Definition vmmemory_definition_current_length : res Z := VMOffsets.vmmemory_definition_current_length o.
Definition vmctx_vmtable_import_from (index : Z) : res Z := VMOffsets.vmctx_vmtable_import_from o index.
Definition vmctx_vmtable_definition (index : Z) : res Z := VMOffsets.vmctx_vmtable_definition o index.
Definition vmctx_vmtable_definition_base (index : Z) : res Z := VMOffsets.vmctx_vmtable_definition_base o index.
Definition vmctx_vmtable_definition_current_elements (index : Z) : res Z := VMOffsets.vmctx_vmtable_definition_current_elements o index.
Definition vmtable_definition_base : res Z := VMOffsets.vmtable_definition_base o.
Definition vmtable_definition_current_elements : res Z := VMOffsets.vmtable_definition_current_elements o.
Definition vmcaller_checked_anyfunc_type_index : res Z := VMOffsets.vmcaller_checked_anyfunc_type_index o.
Definition vmcaller_checked_anyfunc_func_ptr : res Z := VMOffsets.vmcaller_checked_anyfunc_func_ptr o.
Definition vmcaller_checked_anyfunc_vmctx : res Z := VMOffsets.vmcaller_checked_anyfunc_vmctx o.
Definition size_of_vmcaller_checked_anyfunc : res Z := VMOffsets.size_of_vmcaller_checked_anyfunc o.
Definition vmctx_vmshared_signature_id (index : Z) : res Z := VMOffsets.vmctx_vmshared_signature_id o index.
End module_context.
End Lightbeam.
