(* ===== verification/FuncEnvironProofs.v ===== *)
(** * What the emitted code does

    The code of [FuncEnviron.v], run against the context that the runtime lays out
    ([VMContext.v]): it reads the definitions that the accessors of the runtime
    read, and an indirect call reaches a function only after its three checks. *)

From S2P Require Import Prelude Environ ModuleEnv VMOffsets Store Registry TrapHandlers Memory VMContext FuncEnviron.
Local Open Scope Z_scope.

(** ** Growing functions *)

Record extends (f f' : Function) : Prop := {
  ext_gv : global_values f `prefix_of` global_values f';
  ext_tables : func_tables f `prefix_of` func_tables f';
  ext_sigs : sigs f `prefix_of` sigs f';
  ext_ext_funcs : ext_funcs f `prefix_of` ext_funcs f';
  ext_insts : insts f `prefix_of` insts f';
  ext_values : num_values f ≤ num_values f';
}.

#[export] Instance extends_preorder : PreOrder extends.
Proof.
  split; [intros f; split; done || lia|]. intros f g h [] []; split; first [lia | etrans; eassumption].
Qed.

Lemma zget_prefix {A} (l l' : list A) i x : l `prefix_of` l' → zget l i = Some x → zget l' i = Some x.
Proof.
  intros [k ->] Hi. rewrite zget_app_l; [done|]. apply zget_Some_lt in Hi. lia.
Qed.

Lemma zget_last {A} (l : list A) x : zget (l ++ [x]) (zlen l) = Some x.
Proof. rewrite zget_app_r by lia. by rewrite Z.sub_diag. Qed.

Lemma zlen_snoc {A} (l : list A) x : zlen (l ++ [x]) = zlen l + 1.
Proof. by rewrite zlen_app. Qed.

Ltac solve_extends :=
  split; cbn; first [done | lia | repeat first [reflexivity | apply prefix_app_r]].

Lemma create_global_value_extends f d : extends f (fst (create_global_value f d)).
Proof. solve_extends. Qed.
Lemma create_table_extends f d : extends f (fst (create_table f d)).
Proof. solve_extends. Qed.
Lemma import_signature_extends f d : extends f (fst (import_signature f d)).
Proof. solve_extends. Qed.
Lemma ins_extends f n i : 0 ≤ n → extends f (fst (ins f n i)).
Proof. solve_extends. Qed.

(** The environment of a function: the offsets are those of the module, and the
    global value of the context is one. *)
Record fe_ok (fe : FuncEnvironment) (f : Function) : Prop := {
  fo_ptr : pointer_type fe = I64;
  fo_offsets : VMOffsets_new 8 (fe_module fe) = Ret (fe_offsets fe);
  fo_vmctx v : fe_vmctx fe = Some v → zget (global_values f) v = Some GVVMContext;
  fo_sigs sig : memory_grow_sig fe = Some sig ∨ memory32_size_sig fe = Some sig →
    ∃ s, zget (sigs f) sig = Some s ∧ zlen (returns s) = 1;
}.

Lemma fe_ok_new call_conv module fe f :
  FuncEnvironment_new call_conv module = Ret fe → fe_ok fe f.
Proof.
  unfold FuncEnvironment_new. intros (o & Ho & [= <-])%bind_Ret. split; naive_solver.
Qed.

Lemma fe_ok_extends fe f f' : extends f f' → fe_ok fe f → fe_ok fe f'.
Proof.
  intros He [H1 H2 Hv Hs]. split; [done..| |].
  - intros v E. eapply zget_prefix; [apply He|auto].
  - intros sig E. destruct (Hs sig E) as (s & Hg & Hr). exists s. split; [|done].
    eapply zget_prefix; [apply He|done].
Qed.

Lemma fe_ok_set_vmctx fe f f' v :
  fe_ok fe f → extends f f' → zget (global_values f') v = Some GVVMContext →
  fe_ok (set_fe_vmctx fe (Some v)) f'.
Proof.
  intros Hok He Hv. destruct (fe_ok_extends _ _ _ He Hok) as [? ? _ Hs].
  split; [done..| |exact Hs]. by intros ? [= <-].
Qed.

(** What the callbacks do to a function: they add global values and instructions,
    which define [k] values. *)
Definition emit f (gvs : list GlobalValueData) (code : list inst) (k : Z) : Function :=
  mkFunction (global_values f ++ gvs) (func_tables f) (heaps f) (sigs f) (ext_funcs f)
    (insts f ++ code) (num_values f + k) (special_param f).

Lemma emit_0 f : emit f [] [] 0 = f.
Proof. unfold emit. rewrite !app_nil_r, Z.add_0_r. by destruct f. Qed.
Lemma emit_gv f d : emit f [d] [] 0 = fst (create_global_value f d).
Proof. unfold emit. by rewrite app_nil_r, Z.add_0_r. Qed.
Lemma emit_extends f gvs code k : 0 ≤ k → extends f (emit f gvs code k).
Proof. intros. solve_extends. Qed.

Lemma ins_emit f gvs code k n i :
  ins (emit f gvs code k) n i =
  (emit f gvs (code ++ [i (num_values f + k)]) (k + n), num_values f + k).
Proof. unfold ins, emit. cbn. by rewrite <-!app_assoc, Z.add_assoc. Qed.

Lemma ins_call_emit f gvs code k sig s i :
  zget (sigs f) sig = Some s →
  ∃ dsts, zlen dsts = zlen (returns s) ∧
    ins_call (emit f gvs code k) sig i =
    Ret (emit f gvs (code ++ [i dsts]) (k + zlen (returns s)), dsts).
Proof.
  intros Hs. unfold ins_call. cbn [sigs emit]. rewrite (proj2 (zindex_Ret _ _ _) Hs), bind_Ret_l.
  eexists. rewrite ins_emit. split; [|done]. unfold zlen. rewrite length_seqZ. lia.
Qed.

(** [get_vmctx] creates the global value of the context once. *)
Lemma get_vmctx_emit fe f gvs code k :
  fe_ok fe (emit f gvs code k) →
  ∃ v gvs', get_vmctx fe (emit f gvs code k) =
    (set_fe_vmctx fe (Some v), emit f (gvs ++ gvs') code k, v) ∧
    zget (global_values f ++ gvs ++ gvs') v = Some GVVMContext.
Proof.
  intros Hok. unfold get_vmctx. destruct (fe_vmctx fe) as [v|] eqn:E.
  - exists v, []. rewrite app_nil_r. destruct fe; cbn in *. subst. split; [done|].
    by apply Hok.
  - exists (zlen (global_values f ++ gvs)), [GVVMContext]. rewrite app_assoc.
    split; [|apply zget_last]. unfold emit. cbn. by rewrite app_assoc.
Qed.

Lemma get_vmctx_spec fe f :
  fe_ok fe f →
  ∃ v gvs, get_vmctx fe f = (set_fe_vmctx fe (Some v), emit f gvs [] 0, v) ∧
    zget (global_values f ++ gvs) v = Some GVVMContext.
Proof.
  intros Hok. rewrite <-(emit_0 f) in Hok. destruct (get_vmctx_emit _ _ _ _ _ Hok) as (v & gvs & H).
  rewrite emit_0 in H. by exists v, gvs.
Qed.

(** ** Addresses in the context *)

(** The address of the definition of a table and of a memory, defined or imported;
    the runtime's accessors read it there. *)
Definition table_address (m : mem) (module : Module_) (vmctx : Z) (o : VMOffsets) (index : Z) : res Z :=
  match defined_table_index module index with
  | Some def_index => table_mut vmctx o def_index
  | None => import ← imported_table m vmctx o index; Ret (ti_from import)
  end.
Definition memory_address (m : mem) (module : Module_) (vmctx : Z) (o : VMOffsets) (index : Z) : res Z :=
  match defined_memory_index module index with
  | Some def_index => memory_mut vmctx o def_index
  | None => import ← imported_memory m vmctx o index; Ret (mi_from import)
  end.

Lemma addr64_id x : 0 ≤ x < 2 ^ 64 → addr64 x = x.
Proof. intros. by apply Z.mod_small. Qed.

Section context.
Context (module : Module_) (o : VMOffsets) (Hnew : VMOffsets_new 8 module = Ret o).
Context (n : Z) (Hsize : size_of_vmctx o = Ret n) (Hn : n ≤ 2 ^ 31).
Set Default Proof Using "Type*".

Lemma ctx_wf : wf_offsets o ∧ pointer_size o = 8 ∧ n = layout_size o.
Proof.
  apply VMOffsets_new_inv in Hnew as [E Hw]. split_and!; [by apply Hw; right|by subst|].
  rewrite size_of_vmctx_spec in Hsize by (by apply Hw; right). apply fits32_Ret in Hsize. tauto.
Qed.

(** An element of an array of the context, and a field of it: the offset fits the
    instruction, and lies in the context. *)
Lemma access k r i fld :
  regions o !! k = Some r → 0 ≤ i < r_count r → 0 ≤ fld < r_size r →
  ∃ off, element_offset o k i = Ret off ∧ 0 ≤ off ∧ off + r_size r ≤ n ∧
    offset32 (element_offset o k i) = Ret off ∧
    offset32 (field_of (element_offset o k i) (Ret fld)) = Ret (off + fld).
Proof.
  intros Hr Hi Hf. destruct ctx_wf as (Hwf & Hp & ->).
  destruct (region_in_layout o Hwf k r Hr) as (Hb & Hc & Hs & Hl).
  eexists. rewrite (element_offset_spec o Hwf k r i Hr) by lia. split; [done|].
  revert Hb Hl. generalize (region_begin 0 (regions o) k) as b. intros b Hb Hl.
  assert (0 ≤ b + i * r_size r ∧ b + i * r_size r + r_size r ≤ layout_size o) as [? ?] by nia.
  unfold offset32, field_of. rewrite !bind_Ret_l. split_and!; [done..| |].
  - apply unwrap_Ret, try_from_u_Some. lia.
  - apply bind_Ret. eexists. split; [|apply unwrap_Ret, try_from_u_Some; split; [done|lia]].
    apply unwrap_Ret, checked_add_Some. lia.
Qed.

(** The counts that the accessors check are those of the module. *)
Lemma counts : num_signature_ids o = zlen (signatures module) ∧
  num_imported_functions o = zlen (imported_funcs module) ∧
  num_imported_tables o = zlen (imported_tables module) ∧
  num_imported_memories o = zlen (imported_memories module) ∧
  num_imported_globals o = zlen (imported_globals module) ∧
  num_defined_tables o = zlen (table_plans module) ∧
  num_defined_memories o = zlen (memory_plans module) ∧
  num_defined_globals o = zlen (globals module).
Proof. apply VMOffsets_new_inv in Hnew as [-> _]. done. Qed.

Lemma ptr_mul k : 0 ≤ k ≤ 3 → op_mul 8 k (pointer_size o) = Ret (k * 8).
Proof. intros. destruct ctx_wf as (_ & -> & _). apply op_mul_fits. lia. Qed.

(** ** Running the code *)
Context `{CraneliftLaws}.
Context (m : mem) (vmctx : Z) (Hvm : 0 ≤ vmctx ∧ vmctx + n ≤ 2 ^ 64).

(** The global value [ptr] plus the offset [off] is the address [p]. *)
Definition points (f : Function) (ptr off p : Z) : Prop :=
  ∃ a, a + off = p ∧ ∀ f', extends f f' → gv_eval m vmctx f' ptr = Some a.

Lemma points_vmctx f v off :
  zget (global_values f) v = Some GVVMContext → points f v off (vmctx + off).
Proof.
  intros Hv. exists vmctx. split; [done|]. intros f' He. apply gv_eval_vmctx.
  eapply zget_prefix; [apply He|done].
Qed.

Lemma points_load f v off ro a :
  zget (global_values f) v = Some GVVMContext → 0 ≤ off → off + 8 ≤ n →
  let '(f', ptr) := create_global_value f (GVLoad v off I64 ro) in
  points f' ptr a (load_le m (vmctx + off) 8 + a).
Proof.
  intros Hv Ho1 Ho2. cbn. eexists. split; [done|]. intros f' He.
  erewrite gv_eval_load with (base := v) (a := vmctx); cycle 1.
  - eapply zget_prefix; [apply He|]. apply zget_last.
  - apply zget_Some_lt in Hv. lia.
  - apply gv_eval_vmctx. eapply zget_prefix; [apply He|]. cbn.
    rewrite zget_app_l; [done|]. apply zget_Some_lt in Hv. lia.
  - rewrite addr64_id by lia. done.
Qed.

Lemma points_extends f f' ptr off p : extends f f' → points f ptr off p → points f' ptr off p.
Proof. intros He (a & Ha & Hp). exists a. split; [done|]. intros f'' ?. apply Hp. by etrans. Qed.

(** The value of a field that is loaded from a pointer. *)
Lemma loaded f f' ptr off p g ty ro :
  points f ptr off p → extends f f' → 0 ≤ p < 2 ^ 64 → ptr < g →
  zget (global_values f') g = Some (GVLoad ptr off ty ro) →
  ∀ f'', extends f' f'' → gv_eval m vmctx f'' g = Some (load_le m p (type_bytes ty)).
Proof.
  intros (a & <- & Ha) He Hp Hlt Hg f'' He'.
  erewrite gv_eval_load; [by rewrite addr64_id| |exact Hlt|apply Ha; by etrans].
  eapply zget_prefix; [apply He'|done].
Qed.

(** ** Tables *)

(** The table entity [t] stands for the table [index]: its global values are the
    fields of the definition. *)
Definition table_ok (f : Function) (t index : Z) : Prop :=
  ∃ d, zget (func_tables f) t = Some d ∧ t_element_size d = size_of VMCallerCheckedAnyfunc ∧
  ∀ p, table_address m module vmctx o index = Ret p → 0 ≤ p → p + 16 ≤ 2 ^ 64 →
  ∀ f', extends f f' →
    gv_eval m vmctx f' (t_base_gv d) = Some (td_base (load_val m p)) ∧
    gv_eval m vmctx f' (t_bound_gv d) = Some (td_current_elements (load_val m p)).

Lemma table_ok_extends f f' t index : extends f f' → table_ok f t index → table_ok f' t index.
Proof.
  intros He (d & Hd & Hs & Hg). exists d. split; [eapply zget_prefix; [apply He|done]|].
  split; [done|]. intros p Hp Hlo Hhi f'' He'. eapply Hg; [done..|by etrans].
Qed.

Lemma table_fields p :
  td_base (load_val m p) = load_le m p 8 ∧
  td_current_elements (load_val m p) = load_le m (p + 8) 4.
Proof. unfold load_val. cbn -[field load_bytes]. rewrite !field_load, Z.add_0_r by lia. done. Qed.

(** The two loads that follow the pointer to the definition. *)
Lemma table_globals f1 f2 ptr o1 o2 index t g :
  (∀ p, table_address m module vmctx o index = Ret p → points f1 ptr o1 p ∧ points f1 ptr o2 (p + 8)) →
  extends f1 f2 → zget (func_tables f2) t = Some g →
  zget (global_values f2) (t_base_gv g) = Some (GVLoad ptr o1 I64 false) → ptr < t_base_gv g →
  zget (global_values f2) (t_bound_gv g) = Some (GVLoad ptr o2 I32 false) → ptr < t_bound_gv g →
  t_element_size g = size_of VMCallerCheckedAnyfunc →
  table_ok f2 t index.
Proof.
  intros Hp He Ht Hb1 Hb2 Hc1 Hc2 Hs. exists g. split; [done|]. split; [done|].
  intros p Hpa Hlo Hhi f' He'. destruct (Hp p Hpa) as [Hp1 Hp2], (table_fields p) as [-> ->].
  split; [apply (loaded f1 f2 ptr o1 p _ I64 false)|apply (loaded f1 f2 ptr o2 (p + 8) _ I32 false)];
    done || lia.
Qed.

(** The pointer to the definition of an entity, defined (an element of the array
    [kd]) or imported (an element of [ki], whose first field is the pointer), and
    the offsets of the two fields of the definition. *)
Lemma locate kd ki rd ri def index f v :
  regions o !! kd = Some rd → regions o !! ki = Some ri → r_size rd = 16 → 8 ≤ r_size ri →
  match def with Some d => 0 ≤ d < r_count rd | None => 0 ≤ index < r_count ri end →
  zget (global_values f) v = Some GVVMContext →
  ∃ gvs ptr o1 o2,
    match def with
    | Some d =>
        b ← offset32 (field_of (element_offset o kd d) (Ret 0));
        l ← offset32 (field_of (element_offset o kd d) (Ret 8));
        Ret (f, v, b, l)
    | None =>
        from_offset ← offset32 (field_of (element_offset o ki index) (Ret 0));
        let '(f, e) := create_global_value f (GVLoad v from_offset I64 true) in
        b ← Ret 0; l ← Ret 8; Ret (f, e, b, l)
    end = Ret (emit f gvs [] 0, ptr, o1, o2) ∧
    ptr < zlen (global_values f ++ gvs) ∧
    ∀ p, match def with
         | Some d => off ← element_offset o kd d; Ret (vmctx + off)
         | None => off ← element_offset o ki index; Ret (load_le m (vmctx + off) 8)
         end = Ret p →
      points (emit f gvs [] 0) ptr o1 p ∧ points (emit f gvs [] 0) ptr o2 (p + 8).
Proof.
  intros Hd Hi Hd16 Hi8 Hb Hv. destruct def as [d|].
  - destruct (access kd rd d 0 Hd Hb) as (off & E & Hoff & Hin & _ & E0); [lia|].
    destruct (access kd rd d 8 Hd Hb) as (off' & E' & _ & _ & _ & E8); [lia|].
    assert (off' = off) as -> by congruence. rewrite E0, E8, E, !bind_Ret_l.
    exists [], v, (off + 0), (off + 8). rewrite emit_0, app_nil_r.
    split; [done|]. split; [by eapply zget_Some_lt|]. intros p [= <-].
    rewrite <-Z.add_assoc. rewrite <-(Z.add_0_r off) at 2.
    split; apply points_vmctx; done.
  - destruct (access ki ri index 0 Hi Hb) as (off & E & Hoff & Hin & _ & E0); [lia|].
    rewrite Z.add_0_r in E0. rewrite E0, E, !bind_Ret_l.
    exists [GVLoad v off I64 true], (zlen (global_values f)), 0, 8.
    rewrite emit_gv. split; [done|]. split; [rewrite zlen_snoc; lia|]. intros p [= <-].
    rewrite <-(Z.add_0_r (load_le _ _ _)) at 1.
    split; (apply (points_load f v off true); [done|lia..]).
Qed.

(** [make_table] returns an entity for the table. *)
Lemma make_table_ok fe f index :
  fe_ok fe f → fe_module fe = module → fe_offsets fe = o → 0 ≤ index < zlen (table_plans module) →
  ∃ fe' f' t, make_table fe f index = Ret (fe', f', t) ∧ fe_ok fe' f' ∧ extends f f' ∧
    fe_module fe' = module ∧ fe_offsets fe' = o ∧
    insts f' = insts f ∧ num_values f' = num_values f ∧ table_ok f' t index.
Proof.
  intros Hok Hm Ho Hi. destruct (get_vmctx_spec fe f Hok) as (v & gvs & Hg & Hv).
  destruct counts as (_ & _ & Hit & _ & _ & Hdt & _), ctx_wf as (_ & Hp8 & _).
  destruct (zget_is_Some (table_plans module) index Hi) as [plan Hplan].
  apply zindex_Ret in Hplan. pose proof (zlen_nonneg (imported_tables module)) as Hnn.
  unfold make_table. rewrite Hg.
  cbn [set_fe_vmctx pointer_type fe_offsets fe_module]. rewrite Hm, Ho, (fo_ptr _ _ Hok).
  unfold vmctx_vmtable_definition_base, vmctx_vmtable_definition_current_elements,
    vmctx_vmtable_import_from, vmtable_definition_base, vmtable_definition_current_elements,
    vmtable_import_from, size_of_vmcaller_checked_anyfunc.
  rewrite (ptr_mul 0), (ptr_mul 1), (ptr_mul 3) by lia.
  change (0 * 8) with 0. change (1 * 8) with 8. change (3 * 8) with 24.
  destruct (locate 5 2 _ _ (defined_table_index module index) index (emit f gvs [] 0) v eq_refl eq_refl)
    as (gvs2 & ptr & o1 & o2 & E & Hptr & Hpts); [cbn [r_size]; lia..| |done|].
  { unfold defined_table_index. cbn [r_count].
    destruct (Z.ltb_spec index (zlen (imported_tables module))); lia. }
  cbn [element_offset] in E. rewrite E, bind_Ret_l.
  cbn -[zindex defined_table_index]. rewrite Hplan. cbn -[defined_table_index].
  destruct (table_style plan). cbn -[defined_table_index]. do 3 eexists. split; [reflexivity|].
  assert (extends f (emit (emit f gvs [] 0) gvs2 [] 0)) as He
    by (etrans; by apply emit_extends).
  set (f3 := mkFunction _ _ _ _ _ _ _ _).
  assert (extends (emit (emit f gvs [] 0) gvs2 [] 0) f3) as He3 by solve_extends.
  split_and!; try done.
  - eapply fe_ok_set_vmctx; [exact Hok|by etrans|]. eapply zget_prefix; [|exact Hv].
    cbn. rewrite <-!app_assoc. rewrite (app_assoc (global_values f)). by eexists.
  - by etrans.
  - cbn. by rewrite !app_nil_r.
  - cbn. lia.
  - eapply (table_globals _ f3 ptr o1 o2 index); [|exact He3|apply zget_last|..]; cbn.
    + intros p Hp. apply Hpts. rewrite <-Hp. unfold table_address, table_mut, imported_table.
      destruct (defined_table_index module index) as [d|]; cbn [element_offset]; [done|].
      destruct (vmctx_vmtable_import o index); [|done..]. rewrite !bind_Ret_l. do 2 f_equal.
    + rewrite zget_app_l; [apply zget_last|]. rewrite zlen_snoc. lia.
    + exact Hptr.
    + apply zget_last.
    + rewrite zlen_snoc. cbn in Hptr. lia.
    + done.
Qed.

(** ** Indirect calls *)

(** What an indirect call does in the WebAssembly specification, on the table that
    the definition [td] describes: the three checks, then the call of the
    element's function with the element's context. *)
Definition checked_call (td : VMTableDefinition) (caller_sig_id : VMSharedSignatureIndex)
    (sig_ref i : Z) (args : list Z) : outcome :=
  if td_current_elements td <=? i then Trapped TableOutOfBounds
  else
    let e := load_val (A := VMCallerCheckedAnyfunc) m
      (td_base td + i * size_of VMCallerCheckedAnyfunc) in
    if func_ptr e =? 0 then Trapped IndirectCallToNull
    else if negb (ssi (type_index e) =? ssi caller_sig_id) then Trapped BadSignature
    else CallsAddress sig_ref (func_ptr e) (af_vmctx e :: args).

Lemma anyfunc_fields p :
  let e := load_val (A := VMCallerCheckedAnyfunc) m p in
  func_ptr e = load_le m p 8 ∧ ssi (type_index e) = load_le m (p + 8) 4 ∧
  af_vmctx e = load_le m (p + 16) 8.
Proof. unfold load_val. cbn -[field load_bytes]. rewrite !field_load, Z.add_0_r by lia. done. Qed.

Lemma mapM_fresh (vals : gmap Z Z) k x args :
  Forall (λ v, v < k) args →
  mapM (λ v, <[k := x]> vals !! v) args = mapM (λ v, vals !! v) args.
Proof.
  induction 1 as [|v args Hv _ IH]; [done|]. cbn. rewrite lookup_insert_ne by lia. by rewrite IH.
Qed.

Lemma mapM_snoc (g : Z → option Z) l x ys y :
  mapM g l = Some ys → g x = Some y → mapM g (l ++ [x]) = Some (ys ++ [y]).
Proof.
  revert ys; induction l as [|a l IH]; cbn; intros ys Hl Hx.
  - injection Hl as <-. by rewrite Hx.
  - destruct (g a) as [b|]; [|done]. cbn in *. destruct (mapM g l) as [bs|]; [|done].
    cbn in *. injection Hl as <-. by rewrite (IH bs).
Qed.

Lemma Forall_lt_le (k k' : Z) args : k ≤ k' → Forall (λ v, v < k) args → Forall (λ v, v < k') args.
Proof. intros. eapply Forall_impl; [done|]. cbn. lia. Qed.

Ltac run_step :=
  rewrite ?run_global_value, ?run_load, ?run_table_addr, ?run_trapz, ?run_icmp_eq, ?run_iconst,
    ?run_call, ?run_call_indirect;
  repeat first [rewrite lookup_insert_eq | rewrite lookup_insert_ne by lia];
  cbn [mbind option_bind].


(** The code of an indirect call, with the numbers of its values. *)
Lemma indirect_code_runs f x0 x1 x2 x3 x4 x5 x6 ti t v off callee sig_ref dsts args vals i l p caller si :
  callee < x0 → x0 < x1 → x1 < x2 → x2 < x3 → x3 < x4 → x4 < x5 → x5 < x6 →
  Forall (λ v, v < x0) args → table_ok f t ti → gv_eval m vmctx f v = Some vmctx →
  vmctx_vmshared_signature_id o si = Ret off → 0 ≤ off → off + 4 ≤ n →
  vals !! callee = Some i → 0 ≤ i → mapM (λ v, vals !! v) args = Some l →
  table_address m module vmctx o ti = Ret p → 0 ≤ p → p + 16 ≤ 2 ^ 64 →
  let td := load_val (A := VMTableDefinition) m p in
  0 ≤ td_base td → td_base td + td_current_elements td * size_of VMCallerCheckedAnyfunc ≤ 2 ^ 64 →
  signature_id m vmctx o si = Ret caller →
  run m vmctx f vals
    [ITableAddr x0 t callee 0; ILoad x1 I64 false x0 0; ITrapz x1 IndirectCallToNull;
     IGlobalValue x2 v; ILoad x3 I32 true x2 off; ILoad x4 I32 false x0 8; IIcmpEq x5 x4 x3;
     ITrapz x5 BadSignature; ILoad x6 I64 false x0 16; ICallIndirect dsts sig_ref x1 (x6 :: args)]
  = Some (checked_call td caller sig_ref i l).
Proof.
  intros H1 H2 H3 H4 H5 H6 H7 Hargs (d & Hd & Hsz & Ht) Hv Hsig Hoff Hin Hi Hi0 Hl Hp Hp0 Hp1 td
    Htd0 Htd1 Hcaller.
  destruct (Ht p Hp Hp0 Hp1 f ltac:(done)) as [Hbase Hbound].
  change (size_of VMCallerCheckedAnyfunc) with 24 in *.
  rewrite run_table_addr, Hd. cbn [mbind option_bind]. rewrite Hi. cbn [mbind option_bind].
  rewrite Hbound, Hbase, Hsz. cbn [mbind option_bind]. fold td. unfold checked_call.
  change (size_of VMCallerCheckedAnyfunc) with 24.
  destruct (Z.leb_spec (td_current_elements td) i) as [|Hlt]; [done|].
  set (a := td_base td + i * 24). assert (0 ≤ a ∧ a + 24 ≤ 2 ^ 64) as [Ha0 Ha1] by (subst a; nia).
  rewrite Z.add_0_r, addr64_id by lia. cbv zeta. destruct (anyfunc_fields a) as (-> & -> & ->).
  run_step. rewrite Z.add_0_r, addr64_id by lia. run_step. cbn [type_bytes].
  destruct (Z.eqb_spec (load_le m a 8) 0) as [|Hnz]; [done|].
  run_step. rewrite Hv. cbn [mbind option_bind]. run_step. run_step. run_step. run_step.
  rewrite !addr64_id by lia. cbn [type_bytes].
  assert (ssi caller = load_le m (vmctx + off) 4) as ->.
  { unfold signature_id in Hcaller. rewrite Hsig, bind_Ret_l in Hcaller. injection Hcaller as <-.
    unfold load_val. cbn -[field load_bytes]. rewrite field_load, Z.add_0_r by lia. done. }
  destruct (Z.eqb_spec (load_le m (a + 8) 4) (load_le m (vmctx + off) 4)); cbn [Z.eqb negb]; [|done].
  run_step. run_step. rewrite addr64_id by lia.
  cbn [mapM]. run_step.
  rewrite !mapM_fresh by (eapply Forall_lt_le; [|done]; lia). rewrite Hl. done.
Qed.

Lemma call_indirect_ok fe f ti t si s sig_ref callee args :
  fe_ok fe f → fe_module fe = module → fe_offsets fe = o → 0 ≤ ti < zlen (table_plans module) →
  table_ok f t ti → 0 ≤ si < zlen (signatures module) → zget (sigs f) sig_ref = Some s →
  callee < num_values f → Forall (λ v, v < num_values f) args →
  ∃ fe' f' dsts code, translate_call_indirect fe f ti t si sig_ref callee args = Ret (fe', f', dsts) ∧
    fe_ok fe' f' ∧ extends f f' ∧ zlen dsts = zlen (returns s) ∧ insts f' = insts f ++ code ∧
    ∀ f'' vals i l p caller,
      extends f' f'' → vals !! callee = Some i → 0 ≤ i → mapM (λ v, vals !! v) args = Some l →
      table_address m module vmctx o ti = Ret p → 0 ≤ p → p + 16 ≤ 2 ^ 64 →
      let td := load_val (A := VMTableDefinition) m p in
      0 ≤ td_base td →
      td_base td + td_current_elements td * size_of VMCallerCheckedAnyfunc ≤ 2 ^ 64 →
      signature_id m vmctx o si = Ret caller →
      run m vmctx f'' vals code = Some (checked_call td caller sig_ref i l).
Proof.
  intros Hok Hm Ho Hti Ht Hsi Hs Hcallee Hargs.
  destruct counts as (Hns & _), ctx_wf as (_ & Hp8 & _).
  destruct (zget_is_Some (table_plans module) ti Hti) as [plan Hplan]. apply zindex_Ret in Hplan.
  destruct (access 0 _ si 0 eq_refl) as (off & E & Hoff & Hin & E0 & _);
    [cbn [r_count r_size]; lia..|]. cbn [element_offset r_size] in *.
  unfold translate_call_indirect, vmcaller_checked_anyfunc_func_ptr, 
    vmcaller_checked_anyfunc_type_index, vmcaller_checked_anyfunc_vmctx.
  replace (ins f) with (ins (emit f [] [] 0)) by (by rewrite emit_0). rewrite ins_emit, Ho, Hm, (fo_ptr _ _ Hok), (ptr_mul 0), (ptr_mul 1), (ptr_mul 2),
    bind_Ret_l, !ins_emit, Hplan, bind_Ret_l by lia. destruct (table_style plan).
  cbn [app]. change (int_type_of_size _) with (Ret I32). rewrite bind_Ret_l.
  edestruct (get_vmctx_emit fe f) as (v & gvs & Hg & Hv); [|rewrite Hg].
  { eapply fe_ok_extends; [|done]. by apply emit_extends. }
  rewrite ins_emit, E0, bind_Ret_l, ins_emit, bind_Ret_l, !ins_emit, !bind_Ret_l, ins_emit. cbn [app].
  edestruct (ins_call_emit f) as (dsts & Hd & ->); [done|]. rewrite bind_Ret_l.
  do 4 eexists. split; [done|]. pose proof (zlen_nonneg (returns s)) as Hret.
  split_and!; [|apply emit_extends; lia|done|done|].
  { eapply fe_ok_set_vmctx; [exact Hok|apply emit_extends; lia|exact Hv]. }
  intros f'' vals i l p caller He Hi Hi0 Hl Hp Hp0 Hp1 Htd0 Htd1 Hcaller.
  cbn [app set_fe_vmctx pointer_type]. rewrite (fo_ptr _ _ Hok).
  eapply indirect_code_runs; try done; try lia.
  - eapply Forall_lt_le; [|done]. lia.
  - eapply table_ok_extends; [|done]. etrans; [|exact He]. apply emit_extends. lia.
  - apply gv_eval_vmctx. eapply zget_prefix; [apply He|exact Hv].
Qed.

(** ** Calls of the library and of imported functions *)

(** The load of a pointer from the context, as the code of these calls does it. *)
Lemma context_load_runs f v x y off ro vals code :
  gv_eval m vmctx f v = Some vmctx → 0 ≤ off → off + 8 ≤ n →
  run m vmctx f vals (IGlobalValue x v :: ILoad y I64 ro x off :: code) =
  run m vmctx f (<[y := load_le m (vmctx + off) 8]> (<[x := vmctx]> vals)) code.
Proof.
  intros Hv H1 H2. rewrite run_global_value, Hv. cbn [mbind option_bind]. run_step.
  by rewrite addr64_id by lia.
Qed.

(** Emitting a library call: the address of the function [b] of the array. *)
Lemma builtin_address_ok fe f gvs code k b :
  fe_ok fe (emit f gvs code k) → fe_offsets fe = o → 0 ≤ b < builtin_functions_total_number →
  ∃ v gvs' off, vmctx_builtin_function o b = Ret off ∧ 0 ≤ off ∧ off + 8 ≤ n ∧
    zget (global_values f ++ gvs ++ gvs') v = Some GVVMContext ∧
    translate_load_builtin_function_address fe (emit f gvs code k) b =
    Ret (set_fe_vmctx fe (Some v),
         emit f (gvs ++ gvs')
           (code ++ [IGlobalValue (num_values f + k) v;
                     ILoad (num_values f + (k + 1)) I64 true (num_values f + k) off]) (k + 1 + 1),
         (num_values f + k, num_values f + (k + 1))).
Proof.
  intros Hok Ho Hb. destruct (get_vmctx_emit _ _ _ _ _ Hok) as (v & gvs' & Hg & Hv).
  destruct ctx_wf as (_ & Hp8 & _).
  destruct (access 8 _ b 0 eq_refl) as (off & E & Hoff & Hin & E0 & _); [cbn [r_count r_size]; lia..|].
  cbn [element_offset r_size] in *. exists v, gvs', off. split_and!; [done..|lia|done|].
  unfold translate_load_builtin_function_address. rewrite Hg, ins_emit. cbn [set_fe_vmctx fe_offsets].
  rewrite Ho, E0, bind_Ret_l, ins_emit, <-app_assoc. cbn [set_fe_vmctx pointer_type].
  by rewrite (fo_ptr _ _ Hok).
Qed.

Context (abi_special : ir_type → ArgumentPurpose → AbiParam) (abi_new : ir_type → AbiParam).

(** The signature of a library call is created once. *)
Definition sig_step fe f fe' f' (sig : Z) : Prop :=
  fe_ok fe' f' ∧ extends f f' ∧ fe_module fe' = fe_module fe ∧ fe_offsets fe' = fe_offsets fe ∧
  insts f' = insts f ∧ num_values f' = num_values f ∧
  ∃ s, zget (sigs f') sig = Some s ∧ zlen (returns s) = 1.

Lemma sig_step_import fe f fe' s :
  fe_ok fe f → zlen (returns s) = 1 → pointer_type fe' = pointer_type fe →
  fe_module fe' = fe_module fe → fe_offsets fe' = fe_offsets fe → fe_vmctx fe' = fe_vmctx fe →
  (∀ g, memory_grow_sig fe' = Some g ∨ memory32_size_sig fe' = Some g →
     g = zlen (sigs f) ∨ memory_grow_sig fe = Some g ∨ memory32_size_sig fe = Some g) →
  sig_step fe f fe' (fst (import_signature f s)) (zlen (sigs f)).
Proof.
  intros Hok Hr Hp Hm Ho Hv Hs. pose proof (import_signature_extends f s) as He.
  destruct (fe_ok_extends _ _ _ He Hok) as [Hp' Ho' Hv' Hs'].
  split_and!; try done; [|exists s; split; [apply zget_last|done]].
  split; [congruence..| |].
  - rewrite Hv. exact Hv'.
  - intros g [->|Hg]%Hs; [exists s; split; [apply zget_last|done]|by apply Hs'].
Qed.

Lemma sig_step_same fe f fe' sig :
  fe_ok fe f → memory_grow_sig fe = Some sig ∨ memory32_size_sig fe = Some sig → fe' = fe →
  sig_step fe f fe' f sig.
Proof. intros Hok Hs ->. split_and!; try done. by apply (fo_sigs _ _ Hok). Qed.

Lemma get_memory_grow_sig_ok fe f :
  fe_ok fe f → ∃ fe' f' sig, get_memory_grow_sig abi_special abi_new fe f = (fe', f', sig) ∧
    sig_step fe f fe' f' sig.
Proof.
  intros Hok. unfold get_memory_grow_sig. destruct (memory_grow_sig fe) as [sig|] eqn:E.
  - do 3 eexists. split; [done|]. apply sig_step_same; [done|by left|].
    destruct fe; cbn in *; by subst.
  - do 3 eexists. split; [done|]. apply sig_step_import; try done. intros g [[= <-]|?]; auto.
Qed.
Lemma get_memory32_size_sig_ok fe f :
  fe_ok fe f → ∃ fe' f' sig, get_memory32_size_sig abi_special abi_new fe f = (fe', f', sig) ∧
    sig_step fe f fe' f' sig.
Proof.
  intros Hok. unfold get_memory32_size_sig. destruct (memory32_size_sig fe) as [sig|] eqn:E.
  - do 3 eexists. split; [done|]. apply sig_step_same; [done|by right|].
    destruct fe; cbn in *; by subst.
  - do 3 eexists. split; [done|]. apply sig_step_import; try done. intros g [?|[= <-]]; auto.
Qed.

(** The library call for a memory, and the index that it is given. *)
Definition grow_target (index : Z) : Z * Z :=
  if is_imported_memory module index then (index, get_imported_memory32_grow_index)
  else (index - zlen (imported_memories module), get_memory32_grow_index).
Definition size_target (index : Z) : Z * Z :=
  if is_imported_memory module index then (index, get_imported_memory32_size_index)
  else (index - zlen (imported_memories module), get_memory32_size_index).

Lemma get_memory_grow_func_ok fe f index :
  fe_ok fe f → fe_module fe = module → ∃ fe' f' sig,
    get_memory_grow_func abi_special abi_new fe f index =
      Ret (fe', f', (sig, fst (grow_target index), snd (grow_target index))) ∧
    sig_step fe f fe' f' sig.
Proof.
  intros Hok Hm. unfold get_memory_grow_func, grow_target. rewrite Hm.
  destruct (get_memory_grow_sig_ok fe f Hok) as (fe' & f' & sig & -> & Hs).
  pose proof Hs as (_ & _ & Hm' & _). exists fe', f', sig. split; [|done].
  unfold is_imported_memory, defined_memory_index. rewrite Hm', Hm.
  by destruct (index <? _).
Qed.
Lemma get_memory_size_func_ok fe f index :
  fe_ok fe f → fe_module fe = module → ∃ fe' f' sig,
    get_memory_size_func abi_special abi_new fe f index =
      Ret (fe', f', (sig, fst (size_target index), snd (size_target index))) ∧
    sig_step fe f fe' f' sig.
Proof.
  intros Hok Hm. unfold get_memory_size_func, size_target. rewrite Hm.
  destruct (get_memory32_size_sig_ok fe f Hok) as (fe' & f' & sig & -> & Hs).
  pose proof Hs as (_ & _ & Hm' & _). exists fe', f', sig. split; [|done].
  unfold is_imported_memory, defined_memory_index. rewrite Hm', Hm.
  by destruct (index <? _).
Qed.

(** The code of a library call, run: the call of the address in the context with
    the context first. *)
Lemma library_code_runs f v x0 x1 x2 off ro idx sig dsts vals l args :
  gv_eval m vmctx f v = Some vmctx → 0 ≤ off → off + 8 ≤ n → 0 ≤ idx < 2 ^ 32 →
  x0 < x1 → x1 < x2 → Forall (λ v, v < x0) args → mapM (λ v, vals !! v) args = Some l →
  run m vmctx f vals
    [IIconst x0 idx; IGlobalValue x1 v; ILoad x2 I64 ro x1 off;
     ICallIndirect dsts sig x2 (x1 :: args ++ [x0])] =
  Some (CallsAddress sig (load_le m (vmctx + off) 8) (vmctx :: l ++ [idx])).
Proof.
  intros Hv H1 H2 Hidx H3 H4 Hargs Hl. rewrite run_iconst, context_load_runs by done.
  unfold wrap_u. rewrite Z.mod_small by done. run_step. cbn [mapM]. run_step.
  erewrite mapM_snoc; [done| |run_step; done].
  by rewrite !mapM_fresh by (eapply Forall_lt_le; [|done]; lia).
Qed.

(** The part that [translate_memory_grow] and [translate_memory_size] share. *)
Lemma library_call_ok fe f sig s b idx args :
  fe_ok fe f → fe_offsets fe = o → zget (sigs f) sig = Some s → zlen (returns s) = 1 →
  0 ≤ b < builtin_functions_total_number → 0 ≤ idx < 2 ^ 32 → Forall (λ v, v < num_values f) args →
  ∃ fe' f' r code off,
    (let '(f, memory_index) := ins f 1 (λ d, IIconst d idx) in
     '(fe, f, (vmctx, func_addr)) ← translate_load_builtin_function_address fe f b;
     '(f, dsts) ← ins_call f sig
       (λ ds, ICallIndirect ds sig func_addr (vmctx :: args ++ [memory_index]));
     r ← unwrap (hd_error dsts);
     Ret (fe, f, r)) = Ret (fe', f', r) ∧
    fe_ok fe' f' ∧ extends f f' ∧ insts f' = insts f ++ code ∧
    vmctx_builtin_function o b = Ret off ∧
    ∀ f'' vals l, extends f' f'' → mapM (λ v, vals !! v) args = Some l →
      run m vmctx f'' vals code =
      Some (CallsAddress sig (load_le m (vmctx + off) 8) (vmctx :: l ++ [idx])).
Proof.
  intros Hok Ho Hsig Hr Hb Hidx Hargs.
  replace (ins f) with (ins (emit f [] [] 0)) by (by rewrite emit_0). rewrite ins_emit. cbn [app].
  edestruct (builtin_address_ok fe f) as (v & gvs & off & Hoff & H1 & H2 & Hv & ->);
    [eapply fe_ok_extends; [|exact Hok]; apply emit_extends; lia|done|done|].
  rewrite bind_Ret_l. edestruct (ins_call_emit f) as (dsts & Hd & ->); [exact Hsig|].
  rewrite bind_Ret_l. rewrite Hr in *. destruct dsts as [|r dsts]; [done|].
  cbn [hd_error unwrap]. rewrite bind_Ret_l. do 5 eexists. split; [done|].
  split_and!; [|by apply emit_extends|done|exact Hoff|].
  { eapply fe_ok_set_vmctx; [exact Hok|by apply emit_extends|exact Hv]. }
  intros f'' vals l He Hl. cbn [app].
  eapply library_code_runs; try done; try lia.
  - apply gv_eval_vmctx. eapply zget_prefix; [apply He|exact Hv].
  - eapply Forall_lt_le; [|done]. lia.
Qed.

Lemma target_range index :
  0 ≤ index < zlen (memory_plans module) →
  0 ≤ fst (grow_target index) < 2 ^ 32 ∧ 0 ≤ fst (size_target index) < 2 ^ 32 ∧
  0 ≤ snd (grow_target index) < builtin_functions_total_number ∧
  0 ≤ snd (size_target index) < builtin_functions_total_number.
Proof.
  intros Hi. unfold grow_target, size_target, is_imported_memory.
  destruct counts as (_ & _ & _ & Him & _ & _ & Hdm & _), ctx_wf as [[] _].
  pose proof (zlen_nonneg (imported_memories module)).
  destruct (Z.ltb_spec index (zlen (imported_memories module))); cbn; split_and!; done || lia.
Qed.

(** [memory.grow] and [memory.size]: the library function of the memory is called
    with the context, the delta and the index of the memory. *)
Lemma memory_grow_ok fe f index heap val :
  fe_ok fe f → fe_module fe = module → fe_offsets fe = o →
  0 ≤ index < zlen (memory_plans module) → val < num_values f →
  ∃ fe' f' r code off sig,
    translate_memory_grow abi_special abi_new fe f index heap val = Ret (fe', f', r) ∧
    fe_ok fe' f' ∧ extends f f' ∧ insts f' = insts f ++ code ∧
    vmctx_builtin_function o (snd (grow_target index)) = Ret off ∧
    ∀ f'' vals delta, extends f' f'' → vals !! val = Some delta →
      run m vmctx f'' vals code =
      Some (CallsAddress sig (load_le m (vmctx + off) 8) [vmctx; delta; fst (grow_target index)]).
Proof.
  intros Hok Hm Ho Hi Hval.
  destruct (get_memory_grow_func_ok fe f index Hok Hm) as (fe1 & f1 & sig & E & Hs).
  destruct Hs as (Hok1 & He1 & Hm1 & Ho1 & Hin1 & Hn1 & s & Hsig & Hr).
  destruct (target_range index Hi) as (Hg1 & _ & Hg2 & _).
  unfold translate_memory_grow. rewrite E, bind_Ret_l.
  destruct (library_call_ok fe1 f1 sig s _ _ [val] Hok1 ltac:(congruence) Hsig Hr Hg2 Hg1)
    as (fe' & f' & r & code & off & E' & Hok' & He' & Hin' & Hoff & Hrun); [repeat constructor; lia|].
  cbn [app] in E'. rewrite E'. exists fe', f', r, code, off, sig. split_and!; try done.
  - by etrans.
  - by rewrite Hin', Hin1.
  - intros f'' vals delta He Hd. apply (Hrun f'' vals [delta]); [done|]. cbn. by rewrite Hd.
Qed.

Lemma memory_size_ok fe f index heap :
  fe_ok fe f → fe_module fe = module → fe_offsets fe = o →
  0 ≤ index < zlen (memory_plans module) →
  ∃ fe' f' r code off sig,
    translate_memory_size abi_special abi_new fe f index heap = Ret (fe', f', r) ∧
    fe_ok fe' f' ∧ extends f f' ∧ insts f' = insts f ++ code ∧
    vmctx_builtin_function o (snd (size_target index)) = Ret off ∧
    ∀ f'' vals, extends f' f'' →
      run m vmctx f'' vals code =
      Some (CallsAddress sig (load_le m (vmctx + off) 8) [vmctx; fst (size_target index)]).
Proof.
  intros Hok Hm Ho Hi.
  destruct (get_memory_size_func_ok fe f index Hok Hm) as (fe1 & f1 & sig & E & Hs).
  destruct Hs as (Hok1 & He1 & Hm1 & Ho1 & Hin1 & Hn1 & s & Hsig & Hr).
  destruct (target_range index Hi) as (_ & Hg1 & _ & Hg2).
  unfold translate_memory_size. rewrite E, bind_Ret_l.
  destruct (library_call_ok fe1 f1 sig s _ _ [] Hok1 ltac:(congruence) Hsig Hr Hg2 Hg1 ltac:(done))
    as (fe' & f' & r & code & off & E' & Hok' & He' & Hin' & Hoff & Hrun).
  cbn [app] in E'. rewrite E'. exists fe', f', r, code, off, sig. split_and!; try done.
  - by etrans.
  - by rewrite Hin', Hin1.
  - intros f'' vals He. by apply (Hrun f'' vals []).
Qed.

(** ** Direct calls *)

(** A call of a defined function passes the context on; that of an imported one
    calls the address and passes the context that the import has. *)
Lemma translate_call_ok fe f func_index callee e s args :
  fe_ok fe f → fe_module fe = module → fe_offsets fe = o → 0 ≤ func_index →
  zget (ext_funcs f) callee = Some e → zget (sigs f) (ef_signature e) = Some s →
  Forall (λ v, v < num_values f) args → is_Some (special_param f) →
  ∃ fe' f' dsts code, translate_call fe f func_index callee args = Ret (fe', f', dsts) ∧
    fe_ok fe' f' ∧ extends f f' ∧ insts f' = insts f ++ code ∧ zlen dsts = zlen (returns s) ∧
    ∀ f'' vals l own, extends f' f'' → mapM (λ v, vals !! v) args = Some l →
      (∀ v, special_param f = Some v → vals !! v = Some own) →
      if is_imported_function module func_index then
        ∀ import, imported_function m vmctx o func_index = Ret import →
          run m vmctx f'' vals code =
          Some (CallsAddress (ef_signature e) (fi_body import) (fi_vmctx import :: l))
      else run m vmctx f'' vals code = Some (CallsFunction callee (own :: l)).
Proof.
  intros Hok Hm Ho Hi He Hs Hargs [v Hv]. unfold translate_call.
  rewrite (proj2 (zindex_Ret _ _ _) He), bind_Ret_l, Hm.
  pose proof (zlen_nonneg (returns s)) as Hr.
  destruct (is_imported_function module func_index) eqn:Himp; cbn [negb].
  - destruct (get_vmctx_spec fe f Hok) as (g & gvs & Hg & Hgv). rewrite Hg, ins_emit.
    cbn [set_fe_vmctx fe_offsets pointer_type]. rewrite Ho, (fo_ptr _ _ Hok).
    unfold is_imported_function in Himp. apply Z.ltb_lt in Himp.
    destruct counts as (_ & Hif & _), ctx_wf as (_ & Hp8 & _).
    destruct (access 1 _ func_index 0 eq_refl) as (off & E & Hoff & Hin & _ & E0);
      [cbn [r_count r_size]; lia..|].
    destruct (access 1 _ func_index 8 eq_refl) as (off' & E' & _ & _ & _ & E8);
      [cbn [r_count r_size]; lia..|].
    assert (off' = off) as -> by congruence. clear E'. cbn [element_offset r_size] in *.
    unfold vmctx_vmfunction_import_body, vmctx_vmfunction_import_vmctx, vmfunction_import_body,
      vmfunction_import_vmctx. rewrite (ptr_mul 0), (ptr_mul 1) by lia.
    change (0 * 8) with 0. change (1 * 8) with 8.
    rewrite E0, bind_Ret_l, ins_emit, E8, bind_Ret_l, ins_emit. cbn [app].
    edestruct (ins_call_emit f) as (dsts & Hd & ->); [exact Hs|]. rewrite bind_Ret_l.
    do 4 eexists. split; [done|]. split_and!; [|apply emit_extends; lia|done|done|].
    { eapply fe_ok_set_vmctx; [exact Hok|apply emit_extends; lia|exact Hgv]. }
    intros f'' vals l own Hf Hl _ import Hi'. cbn [app].
    unfold imported_function in Hi'. rewrite E, bind_Ret_l in Hi'. injection Hi' as <-.
    rewrite context_load_runs; [|apply gv_eval_vmctx; eapply zget_prefix; [apply Hf|exact Hgv]|lia..].
    run_step. rewrite addr64_id by lia. run_step. cbn [mapM]. run_step.
    rewrite !mapM_fresh by (eapply Forall_lt_le; [|done]; lia). rewrite Hl. cbn [mbind option_bind].
    unfold load_val. cbn -[field load_bytes load_le Z.add]. rewrite !field_load by lia.
    cbn -[load_le Z.add]. by rewrite Z.add_0_r, <-!Z.add_assoc, Z.add_0_r.
  - rewrite Hv. cbn [unwrap]. rewrite bind_Ret_l.
    replace (ins_call f) with (ins_call (emit f [] [] 0)) by (by rewrite emit_0).
    edestruct (ins_call_emit f) as (dsts & Hd & ->); [exact Hs|]. rewrite bind_Ret_l.
    do 4 eexists. split; [done|]. split_and!; [|apply emit_extends; lia|done|done|].
    { eapply fe_ok_extends; [|exact Hok]. apply emit_extends. lia. }
    intros f'' vals l own Hf Hl Hown. cbn [app]. run_step. cbn [mapM].
    rewrite (Hown v eq_refl), Hl. done.
Qed.

(** ** Heaps and globals *)

(** The part of [make_heap] that finds the definition. *)
Lemma locate_memory fe f index :
  fe_ok fe f → fe_module fe = module → fe_offsets fe = o → 0 ≤ index < zlen (memory_plans module) →
  ∃ v f1 f2 ptr o1 o2, get_vmctx fe f = (set_fe_vmctx fe (Some v), f1, v) ∧
    match defined_memory_index module index with
    | Some def_index =>
        base_offset ← offset32 (vmctx_vmmemory_definition_base o def_index);
        current_length_offset ← offset32 (vmctx_vmmemory_definition_current_length o def_index);
        Ret (f1, v, base_offset, current_length_offset)
    | None =>
        from_offset ← offset32 (vmctx_vmmemory_import_from o index);
        let '(f, memory) := create_global_value f1 (GVLoad v from_offset I64 true) in
        base_offset ← vmmemory_definition_base o;
        current_length_offset ← vmmemory_definition_current_length o;
        Ret (f, memory, base_offset, current_length_offset)
    end = Ret (f2, ptr, o1, o2) ∧
    fe_ok (set_fe_vmctx fe (Some v)) f2 ∧ extends f f2 ∧ insts f2 = insts f ∧
    ptr < zlen (global_values f2) ∧
    ∀ p, memory_address m module vmctx o index = Ret p →
      points f2 ptr o1 p ∧ points f2 ptr o2 (p + 8).
Proof.
  intros Hok Hm Ho Hi. destruct (get_vmctx_spec fe f Hok) as (v & gvs & Hg & Hv).
  destruct counts as (_ & _ & _ & Him & _ & _ & Hdm & _), ctx_wf as (_ & Hp8 & _).
  pose proof (zlen_nonneg (imported_memories module)) as Hnn.
  unfold vmctx_vmmemory_definition_base, vmctx_vmmemory_definition_current_length,
    vmctx_vmmemory_import_from, vmmemory_definition_base, vmmemory_definition_current_length,
    vmmemory_import_from.
  rewrite (ptr_mul 0), (ptr_mul 1) by lia. change (0 * 8) with 0. change (1 * 8) with 8.
  destruct (locate 6 3 _ _ (defined_memory_index module index) index (emit f gvs [] 0) v eq_refl eq_refl)
    as (gvs2 & ptr & o1 & o2 & E & Hptr & Hpts); [cbn [r_size]; lia..| |done|].
  { unfold defined_memory_index. cbn [r_count].
    destruct (Z.ltb_spec index (zlen (imported_memories module))); lia. }
  assert (extends f (emit (emit f gvs [] 0) gvs2 [] 0)) as He by (etrans; by apply emit_extends).
  do 6 eexists. split_and!; [exact Hg|exact E| |exact He|cbn; by rewrite !app_nil_r|exact Hptr|].
  - eapply fe_ok_set_vmctx; [exact Hok|exact He|].
    by eapply zget_prefix; [apply (emit_extends (emit f gvs [] 0) gvs2 [] 0)|exact Hv].
  - intros p Hp. apply Hpts. rewrite <-Hp. unfold memory_address, memory_mut, imported_memory.
    destruct (defined_memory_index module index) as [d|]; cbn [element_offset]; [done|].
    destruct (vmctx_vmmemory_import o index); [|done..]. rewrite !bind_Ret_l. by do 2 f_equal.
Qed.

(** The heap that stands for a memory: its base is that of the definition, its bound
    the four low bytes of the length or, for a static memory, the reserved size. *)
Lemma make_heap_ok fe f index plan :
  fe_ok fe f → fe_module fe = module → fe_offsets fe = o →
  zget (memory_plans module) index = Some plan →
  match plan_style plan with Static b => 0 ≤ b < 2 ^ 32 | Dynamic => True end →
  ∃ fe' f' h d, make_heap fe f index = Ret (fe', f', h) ∧ fe_ok fe' f' ∧ extends f f' ∧
    insts f' = insts f ∧ zget (heaps f') h = Some d ∧
    h_offset_guard_size d = plan_offset_guard_size plan ∧
    ∀ p, memory_address m module vmctx o index = Ret p → 0 ≤ p → p + 16 ≤ 2 ^ 64 →
    ∀ f'', extends f' f'' →
      gv_eval m vmctx f'' (h_base d) = Some (md_base (load_val m p)) ∧
      match h_style d, plan_style plan with
      | HeapDynamic g, Dynamic => gv_eval m vmctx f'' g = Some (load_le m (p + 8) 4)
      | HeapStatic b, Static bound => b = bound * WASM_PAGE_SIZE
      | _, _ => False
      end.
Proof.
  intros Hok Hm Ho Hplan Hst. pose proof (zget_Some_lt _ _ _ Hplan) as Hi. apply zindex_Ret in Hplan.
  destruct (locate_memory fe f index Hok Hm Ho Hi)
    as (v & f1 & f2 & ptr & o1 & o2 & Hg & E & Hok2 & He & Hin & Hptr & Hpts).
  unfold make_heap. rewrite Hg.
  cbn [set_fe_vmctx pointer_type fe_offsets fe_module]. rewrite Hm, Ho, (fo_ptr _ _ Hok).
  rewrite E, bind_Ret_l, Hplan, bind_Ret_l. clear E Hg.
  assert (∀ p, md_base (load_val m p) = load_le m p 8) as Hmd.
  { intros p. unfold load_val. cbn -[field load_bytes]. by rewrite field_load, Z.add_0_r by lia. }
  destruct (plan_style plan) as [|bound] eqn:Estyle.
  - change type_of_vmmemory_definition_current_length with (Ret I32). rewrite bind_Ret_l.
    cbn [create_global_value create_heap mbind res_mbind].
    do 4 eexists. split; [done|]. set (f3 := mkFunction _ _ _ _ _ _ _ _).
    assert (extends f2 f3) as He3 by solve_extends.
    split_and!; [by eapply fe_ok_extends|by etrans|done|apply zget_last|done|].
    intros p Hp Hp0 Hp1 f'' He''. rewrite Hmd. destruct (Hpts p Hp) as [Hb Hl]. cbn.
    split; [apply (loaded f2 f3 ptr o1 p _ I64 false)|apply (loaded f2 f3 ptr o2 (p + 8) _ I32 false)];
      try done; try lia; cbn.
    + rewrite zlen_snoc. lia.
    + apply zget_last.
    + rewrite zget_app_l by (rewrite zlen_snoc; lia). apply zget_last.
  - rewrite op_mul_fits by (unfold WASM_PAGE_SIZE; lia).
    cbn [create_global_value create_heap mbind res_mbind].
    do 4 eexists. split; [done|]. set (f3 := mkFunction _ _ _ _ _ _ _ _).
    assert (extends f2 f3) as He3 by solve_extends.
    split_and!; [by eapply fe_ok_extends|by etrans|done|apply zget_last|done|].
    intros p Hp Hp0 Hp1 f'' He''. rewrite Hmd. destruct (Hpts p Hp) as [Hb _].
    split; [|done]. apply (loaded f2 f3 ptr o1 p _ I64 true); try done; try lia. apply zget_last.
Qed.

(** A global is accessed at its address. *)
Lemma make_global_ok fe f index g :
  fe_ok fe f → fe_module fe = module → fe_offsets fe = o → zget (globals module) index = Some g →
  ∃ fe' f' gv, make_global fe f index = Ret (fe', f', gv) ∧ fe_ok fe' f' ∧ extends f f' ∧
    insts f' = insts f ∧ gvar_ty gv = global_ty g ∧
    ∀ p, match defined_global_index module index with
         | Some def_index => global_mut vmctx o def_index
         | None => import ← imported_global m vmctx o index; Ret (gi_from import)
         end = Ret p →
      ∀ f'', extends f' f'' → ∃ a, gv_eval m vmctx f'' (gvar_gv gv) = Some a ∧ a + gvar_offset gv = p.
Proof.
  intros Hok Hm Ho Hgl. pose proof (zget_Some_lt _ _ _ Hgl) as Hi. apply zindex_Ret in Hgl.
  destruct (get_vmctx_spec fe f Hok) as (v & gvs & Hg & Hv).
  destruct counts as (_ & _ & _ & _ & Hig & _ & _ & Hdg), ctx_wf as (_ & Hp8 & _).
  pose proof (zlen_nonneg (imported_globals module)) as Hnn. unfold make_global. rewrite Hg.
  cbn [set_fe_vmctx pointer_type fe_offsets fe_module]. rewrite Hm, Ho, (fo_ptr _ _ Hok).
  unfold defined_global_index. destruct (Z.ltb_spec index (zlen (imported_globals module))).
  - destruct (access 4 _ index 0 eq_refl) as (off & E & Hoff & Hin & _ & E0); [cbn [r_count r_size]; lia..|].
    unfold vmctx_vmglobal_import_from, vmglobal_import_from. rewrite (ptr_mul 0) by lia.
    change (0 * 8) with 0.
    cbn [element_offset r_size] in *. rewrite E0, Z.add_0_r, bind_Ret_l.
    cbn -[imported_global zindex]. rewrite Hgl. cbn -[imported_global].
    do 3 eexists. split; [done|]. set (f3 := mkFunction _ _ _ _ _ _ _ _).
    assert (extends f f3) as He3 by solve_extends.
    split_and!; [|done|cbn; by rewrite app_nil_r|done|].
    { eapply fe_ok_set_vmctx; [exact Hok|exact He3|]. eapply zget_prefix; [|exact Hv].
      by apply prefix_app_r. }
    intros p Hp f'' He. unfold imported_global in Hp. rewrite E, !bind_Ret_l in Hp. injection Hp as <-.
    destruct (points_load (emit f gvs [] 0) v off true 0 Hv Hoff ltac:(lia)) as (a & Ha & Hpt).
    exists a. split; [by apply Hpt|]. etrans; [exact Ha|]. rewrite Z.add_0_r.
    unfold load_val. cbn -[field load_bytes load_le]. by rewrite field_load, Z.add_0_r by lia.
  - destruct (access 7 _ (index - zlen (imported_globals module)) 0 eq_refl)
      as (off & E & Hoff & Hin & E0 & _); [cbn [r_count r_size]; lia..|].
    cbn [element_offset] in *. rewrite E0, !bind_Ret_l, Hgl, bind_Ret_l. do 3 eexists. split; [done|].
    split_and!; [|by apply emit_extends|cbn; by rewrite app_nil_r|done|].
    { eapply fe_ok_set_vmctx; [exact Hok|by apply emit_extends|exact Hv]. }
    intros p Hp f'' He. unfold global_mut in Hp. rewrite E, bind_Ret_l in Hp. injection Hp as <-.
    exists vmctx. split; [|done]. apply gv_eval_vmctx. eapply zget_prefix; [apply He|exact Hv].
Qed.
End context.

(** ** The contract of the emitted code *)

(** A context of the module at [vmctx]: its offsets fit the instructions, and it lies
    in the address space. *)
Record code_context (module : Module_) (o : VMOffsets) (n vmctx : Z) : Prop := {
  cc_offsets : VMOffsets_new 8 module = Ret o;
  cc_size : size_of_vmctx o = Ret n;
  cc_fits : n ≤ 2 ^ 31;
  cc_range : 0 ≤ vmctx ∧ vmctx + n ≤ 2 ^ 64;
}.

(** An environment for functions of the module. *)
Definition env_of (module : Module_) (o : VMOffsets) fe f : Prop :=
  fe_ok fe f ∧ fe_module fe = module ∧ fe_offsets fe = o.

Section contract.
Context `{CraneliftLaws} (module : Module_) (o : VMOffsets) (n : Z) (m : mem) (vmctx : Z).
Context (Hc : code_context module o n vmctx).
Set Default Proof Using "Type*".

(** C10: an indirect call traps or reaches the function of a table element with the
    caller's signature: the code that [make_table] and [translate_call_indirect] emit,
    run in any function that contains it, on the index [i] traps for the table's bounds
    exactly when [i] is not below the number of elements that the runtime keeps in the
    table's definition (of a defined or an imported table), traps on a null element,
    traps when the element's signature is not the one registered for the call, and
    otherwise calls the element's function with the element's own context. *)
Theorem call_indirect_checked fe f ti
    (Henv : env_of module o fe f) (Hti : 0 ≤ ti < zlen (table_plans module)) :
  ∃ fe1 f1 t, make_table fe f ti = Ret (fe1, f1, t) ∧ env_of module o fe1 f1 ∧ extends f f1 ∧
  ∀ fe2 f2 si s sig_ref callee args,
    env_of module o fe2 f2 → extends f1 f2 → 0 ≤ si < zlen (signatures module) →
    zget (sigs f2) sig_ref = Some s → callee < num_values f2 →
    Forall (λ v, v < num_values f2) args →
    ∃ fe3 f3 dsts code,
      translate_call_indirect fe2 f2 ti t si sig_ref callee args = Ret (fe3, f3, dsts) ∧
      extends f2 f3 ∧ zlen dsts = zlen (returns s) ∧ insts f3 = insts f2 ++ code ∧
      ∀ f4 vals i l p caller,
        extends f3 f4 → vals !! callee = Some i → 0 ≤ i → mapM (λ v, vals !! v) args = Some l →
        table_address m module vmctx o ti = Ret p → 0 ≤ p → p + 16 ≤ 2 ^ 64 →
        let td := load_val (A := VMTableDefinition) m p in
        0 ≤ td_base td →
        td_base td + td_current_elements td * size_of VMCallerCheckedAnyfunc ≤ 2 ^ 64 →
        signature_id m vmctx o si = Ret caller →
        run m vmctx f4 vals code = Some (checked_call m td caller sig_ref i l).
Proof.
  destruct Hc as [H1 H2 H3 H4], Henv as (Hok & Hm & Ho).
  destruct (make_table_ok module o H1 n H2 H3 m vmctx H4 fe f ti Hok Hm Ho Hti)
    as (fe1 & f1 & t & E & Hok1 & He1 & Hm1 & Ho1 & _ & _ & Ht).
  exists fe1, f1, t. split_and!; try done.
  intros fe2 f2 si s sig_ref callee args (Hok2 & Hm2 & Ho2) He2 Hsi Hs Hcallee Hargs.
  assert (table_ok module o m vmctx f2 t ti) by (by eapply table_ok_extends).
  destruct (call_indirect_ok module o H1 n H2 H3 m vmctx H4 fe2 f2 ti t si s sig_ref callee args)
    as (fe3 & f3 & dsts & code & E3 & _ & He3 & Hd & Hin & Hrun); try done.
  exists fe3, f3, dsts, code. done.
Qed.

(** [memory.grow] and [memory.size] reach the library function of their memory: in
    a context that holds the initialized array of library functions, the emitted code
    calls, for an imported memory, the function for imported ones with the memory's
    index, and for a defined one the other function with the index among the defined
    memories, in both cases with the context (and the delta) as arguments. *)
Lemma library_calls_reach abi_special abi_new fe f index heap val c l
    (Henv : env_of module o fe f) (Hi : 0 ≤ index < zlen (memory_plans module))
    (Hval : val < num_values f) (Hh : holds m vmctx o c)
    (Hl : VMBuiltinFunctionsArray_initialized l = Ret (c_builtins c)) :
  let imported := is_imported_memory module index in
  let arg := if imported then index else index - zlen (imported_memories module) in
  (∃ fe' f' r code sig,
    translate_memory_grow abi_special abi_new fe f index heap val = Ret (fe', f', r) ∧
    fe_ok fe' f' ∧ extends f f' ∧ insts f' = insts f ++ code ∧
    ∀ f'' vals delta, extends f' f'' → vals !! val = Some delta →
      run m vmctx f'' vals code = Some (CallsAddress sig
        (if imported then wasmtime_imported_memory32_grow_addr l else wasmtime_memory32_grow_addr l)
        [vmctx; delta; arg])) ∧
  (∃ fe' f' r code sig,
    translate_memory_size abi_special abi_new fe f index heap = Ret (fe', f', r) ∧
    fe_ok fe' f' ∧ extends f f' ∧ insts f' = insts f ++ code ∧
    ∀ f'' vals, extends f' f'' →
      run m vmctx f'' vals code = Some (CallsAddress sig
        (if imported then wasmtime_imported_memory32_size_addr l else wasmtime_memory32_size_addr l)
        [vmctx; arg])).
Proof.
  destruct Hc as [H1 H2 H3 H4], Henv as (Hok & Hm & Ho). cbv zeta.
  injection Hl as Hl. 
  assert (∀ b off v, vmctx_builtin_function o b = Ret off → zget (ptrs (c_builtins c)) b = Some v →
    load_le m (vmctx + off) 8 = v) as Hload.
  { intros b off v Hoff Hb. destruct (h_builtins _ _ _ _ Hh b v Hb) as (off' & E & <-). congruence. }
  rewrite <-Hl in Hload. 
  destruct (memory_grow_ok module o H1 n H2 H3 m vmctx H4 abi_special abi_new fe f index heap val)
    as (fe1 & f1 & r1 & code1 & off1 & sig1 & E1 & Hok1 & He1 & Hin1 & Hoff1 & Hrun1); try done.
  destruct (memory_size_ok module o H1 n H2 H3 m vmctx H4 abi_special abi_new fe f index heap)
    as (fe2 & f2 & r2 & code2 & off2 & sig2 & E2 & Hok2 & He2 & Hin2 & Hoff2 & Hrun2); try done.
  unfold grow_target, size_target in *.
  split; [exists fe1, f1, r1, code1, sig1|exists fe2, f2, r2, code2, sig2]; split_and!; try done.
  - intros f'' vals delta He Hd. rewrite (Hrun1 f'' vals delta He Hd).
    destruct (is_imported_memory module index); by rewrite (Hload _ off1 _ Hoff1 eq_refl).
  - intros f'' vals He. rewrite (Hrun2 f'' vals He).
    destruct (is_imported_memory module index); by rewrite (Hload _ off2 _ Hoff2 eq_refl).
Qed.

(** C25: direct calls: a call of a defined function names the function and passes on the
    caller's context; a call of an imported one goes to the address that the import has
    in the context, with the context of the instance that defines the function. *)
Theorem direct_call_reaches fe f func_index
    (Henv : env_of module o fe f) (Hf : 0 ≤ func_index < zlen (functions module))
    (Hsigs : Forall (λ i, 0 ≤ i < zlen (signatures module)) (functions module))
    (Hparam : is_Some (special_param f)) :
  ∃ f1 callee, make_direct_func fe f func_index = Ret (f1, callee) ∧ extends f f1 ∧
  ∀ fe2 f2 args, env_of module o fe2 f2 → extends f1 f2 → special_param f2 = special_param f →
    Forall (λ v, v < num_values f2) args →
    ∃ fe3 f3 dsts code,
      translate_call fe2 f2 func_index callee args = Ret (fe3, f3, dsts) ∧
      extends f2 f3 ∧ insts f3 = insts f2 ++ code ∧
      ∀ f4 vals l own, extends f3 f4 → mapM (λ v, vals !! v) args = Some l →
        (∀ v, special_param f = Some v → vals !! v = Some own) →
        if is_imported_function module func_index then
          ∀ import, imported_function m vmctx o func_index = Ret import → ∃ sig,
            run m vmctx f4 vals code =
            Some (CallsAddress sig (fi_body import) (fi_vmctx import :: l))
        else run m vmctx f4 vals code = Some (CallsFunction callee (own :: l)) ∧
          ef_name <$> zget (ext_funcs f4) callee = Some (get_func_name func_index).
Proof.
  destruct Hc as [H1 H2 H3 H4], Henv as (Hok & Hm & Ho). unfold make_direct_func.
  destruct (zget_is_Some _ _ Hf) as [sigidx Hsi]. pose proof (zget_Forall _ _ _ _ Hsigs Hsi) as Hr.
  destruct (zget_is_Some _ _ Hr) as [s Hs]. rewrite Hm.
  rewrite (proj2 (zindex_Ret _ _ _) Hsi), bind_Ret_l, (proj2 (zindex_Ret _ _ _) Hs), bind_Ret_l.
  do 2 eexists. split; [done|]. split; [solve_extends|].
  intros fe2 f2 args (Hok2 & Hm2 & Ho2) He Hsp Hargs.
  assert (zget (ext_funcs f2) (zlen (ext_funcs f)) =
    Some (mkExtFuncData (get_func_name func_index) (zlen (sigs f)) false)) as Hef
    by (eapply zget_prefix; [apply He|apply zget_last]).
  destruct (translate_call_ok module o H1 n H2 H3 m vmctx H4 fe2 f2 func_index
    (zlen (ext_funcs f)) (mkExtFuncData (get_func_name func_index) (zlen (sigs f)) false) s args)
    as (fe3 & f3 & dsts & code & E3 & _ & He3 & Hin & _ & Hrun); try done; [lia| |by rewrite Hsp|].
  { eapply zget_prefix; [apply He|apply zget_last]. }
  exists fe3, f3, dsts, code. split_and!; try done. intros f4 vals l own He4 Hl Hown.
  rewrite <-Hsp in Hown. specialize (Hrun f4 vals l own He4 Hl Hown).
  destruct (is_imported_function module func_index).
  - intros import Hi. eexists. by apply Hrun.
  - split; [done|]. cbn [ext_funcs].
    rewrite (zget_prefix (ext_funcs f2) (ext_funcs f4) _ _ ltac:(etrans;
      [apply (ext_ext_funcs _ _ He3)|apply (ext_ext_funcs _ _ He4)]) Hef). done.
Qed.

(** The heap that compiled code uses for a memory: its base is the base of the
    memory's definition, its guard size that of the plan; the bound of a static heap is
    the size that the plan reserves, and that of a dynamic one is read from the
    definition, as the four low bytes of the length. *)
Theorem heap_of_memory fe f index plan
    (Henv : env_of module o fe f) (Hplan : zget (memory_plans module) index = Some plan)
    (Hst : match plan_style plan with Static b => 0 ≤ b < 2 ^ 32 | Dynamic => True end) :
  ∃ fe' f' h d, make_heap fe f index = Ret (fe', f', h) ∧ fe_ok fe' f' ∧ extends f f' ∧
    insts f' = insts f ∧ zget (heaps f') h = Some d ∧
    h_offset_guard_size d = plan_offset_guard_size plan ∧
    ∀ p, memory_address m module vmctx o index = Ret p → 0 ≤ p → p + 16 ≤ 2 ^ 64 →
    ∀ f'', extends f' f'' →
      gv_eval m vmctx f'' (h_base d) = Some (md_base (load_val m p)) ∧
      match h_style d, plan_style plan with
      | HeapDynamic g, Dynamic => gv_eval m vmctx f'' g = Some (load_le m (p + 8) 4)
      | HeapStatic b, Static bound => b = bound * WASM_PAGE_SIZE
      | _, _ => False
      end.
Proof.
  destruct Hc as [H1 H2 H3 H4], Henv as (Hok & Hm & Ho).
  by apply (make_heap_ok module o H1 n H2 H3 m vmctx H4).
Qed.
End contract.

(** ** Examples *)

(** A module with an imported function, a function, a table and two memories. *)
Definition fx_sig : Signature := mkSignature [] [] 0.
Definition fx_module : Module_ :=
  mkModule [fx_sig] [("env", "f")] [] [] [] [0; 0]
    [mkTablePlan (mkTable Func 1 None) CallerChecksSignature]
    [mkMemoryPlan (mkMemory 1 None false) Dynamic 65536;
     mkMemoryPlan (mkMemory 1 None false) (Static 65536) 65536] [] [] None [].
Definition fx_offsets : VMOffsets := mkVMOffsets 8 1 1 0 0 0 1 2 0.
Definition fx_fe : FuncEnvironment := mkFuncEnvironment I64 0 fx_module None None None fx_offsets.
(** A function with its context as the value 0 and two more values. *)
Definition fx_func : Function := mkFunction [] [] [] [fx_sig] [] [] 3 (Some 0).
Definition fx_libcalls : libcalls := mkLibcalls 0x10 0x20 0x30 0x40.
Definition fx_contents : vmctx_contents := mkVmctxContents
  [mkVMSharedSignatureIndex 7] [mkVMFunctionImport 0x5000 0x6000] [] [] []
  [mkVMTableDefinition 0x2000 1] [mkVMMemoryDefinition 0x10000 65536; mkVMMemoryDefinition 0x90000 65536] []
  (mkVMBuiltinFunctionsArray [0x10; 0x20; 0x30; 0x40]).
Definition fx_mem : mem :=
  ptr_write (stores (λ _, 0) (array_stores fx_offsets 0x1000 fx_contents)) 0x2000
    (mkVMCallerCheckedAnyfunc 0x3000 (mkVMSharedSignatureIndex 7) 0x4000).

Lemma fx_context : code_context fx_module fx_offsets 112 0x1000.
Proof. split; [reflexivity|reflexivity|lia|lia]. Qed.
Lemma fx_env f : env_of fx_module fx_offsets fx_fe f.
Proof.
  split_and!; [|done..]. split; [done..| |]; intros ?; cbn; [done|]. by intros [|].
Qed.
Lemma fx_contents_ok : contents_ok fx_offsets fx_contents.
Proof.
  split; cbn; unfold zlen; cbn; [|lia].
  split_and!; repeat constructor; cbn; unfold u64, u32; lia.
Qed.

(** Element 0 is called with its context, index 1 is out of bounds. *)
Lemma call_indirect_checked_witness :
  ∃ fe1 f1 t fe2 f2 dsts code,
    make_table fx_fe fx_func 0 = Ret (fe1, f1, t) ∧
    translate_call_indirect fe1 f1 0 t 0 0 1 [2] = Ret (fe2, f2, dsts) ∧
    @run interpreter fx_mem 0x1000 f2 {[1 := 0; 2 := 5]} code =
      Some (CallsAddress 0 0x3000 [0x4000; 5]) ∧
    @run interpreter fx_mem 0x1000 f2 {[1 := 1; 2 := 5]} code = Some (Trapped TableOutOfBounds).
Proof.
  destruct (@call_indirect_checked interpreter interpreter_laws _ _ _ fx_mem _ fx_context fx_fe fx_func
    0 (fx_env _) ltac:(done)) as (fe1 & f1 & t & E1 & He & Hx & Hcall).
  injection E1 as <- <- <-.
  edestruct (Hcall _ _ 0 fx_sig 0 1 [2] He) as (fe3 & f3 & dsts & code & E3 & Hx3 & _ & Hin & Hrun);
    [done|done|done|done|by repeat constructor|].
  do 7 eexists. split; [reflexivity|]. split; [exact E3|].
  pose proof (Hrun f3 {[1 := 0; 2 := 5]} 0 [5] (0x1000 + 20) (mkVMSharedSignatureIndex 7)
    ltac:(done) ltac:(reflexivity) ltac:(done) ltac:(reflexivity) ltac:(by vm_compute) ltac:(done)
    ltac:(done) ltac:(by vm_compute) ltac:(by vm_compute) ltac:(by vm_compute)) as H0.
  pose proof (Hrun f3 {[1 := 1; 2 := 5]} 1 [5] (0x1000 + 20) (mkVMSharedSignatureIndex 7)
    ltac:(done) ltac:(reflexivity) ltac:(done) ltac:(reflexivity) ltac:(by vm_compute) ltac:(done)
    ltac:(done) ltac:(by vm_compute) ltac:(by vm_compute) ltac:(by vm_compute)) as H1.
  split; [rewrite H0|rewrite H1]; vm_compute; reflexivity.
Defined.

(** The second memory is defined: its library function is the first of the array. *)
Lemma library_calls_reach_witness :
  ∃ m fe' f' r code sig,
    fill_vmctx (λ _, 0) 0x1000 fx_offsets fx_contents = Ret m ∧
    translate_memory_grow mkAbiParam (λ t, mkAbiParam t Normal) fx_fe fx_func 1 0 2 = Ret (fe', f', r) ∧
    @run interpreter m 0x1000 f' {[2 := 3]} code = Some (CallsAddress sig 0x10 [0x1000; 3; 1]).
Proof.
  destruct (fill_vmctx_holds fx_offsets ltac:(split; cbn; lia) eq_refl 112 eq_refl 0x1000 fx_contents
    fx_contents_ok (λ _, 0)) as (m & E & Hh & _).
  destruct (@library_calls_reach interpreter interpreter_laws _ _ _ m _ fx_context
    mkAbiParam (λ t, mkAbiParam t Normal) fx_fe fx_func 1 0 2 fx_contents fx_libcalls (fx_env _)
    ltac:(done) ltac:(done) Hh eq_refl) as [(fe' & f' & r & code & sig & Eg & _ & _ & _ & Hrun) _].
  exists m, fe', f', r, code, sig. split; [exact E|]. split; [exact Eg|]. by apply Hrun.
Defined.

(** The imported function is reached at its address, the other one by its name. *)
Lemma direct_call_reaches_witness :
  ∃ f1 callee fe2 f2 dsts code sig,
    make_direct_func fx_fe fx_func 0 = Ret (f1, callee) ∧
    translate_call fx_fe f1 0 callee [2] = Ret (fe2, f2, dsts) ∧
    @run interpreter fx_mem 0x1000 f2 {[0 := 0x1000; 2 := 3]} code =
      Some (CallsAddress sig 0x5000 [0x6000; 3]).
Proof.
  destruct (@direct_call_reaches interpreter interpreter_laws _ _ _ fx_mem _ fx_context fx_fe fx_func 0
    (fx_env _) ltac:(done) ltac:(by repeat constructor) ltac:(by eexists)) as (f1 & callee & E & Hx & Hcall).
  destruct (Hcall fx_fe f1 [2]) as (fe2 & f2 & dsts & code & E2 & _ & _ & Hrun);
    [injection E as <- <-; apply fx_env|done|by injection E as <- <-
    |injection E as <- <-; by repeat constructor|].
  destruct (Hrun f2 {[0 := 0x1000; 2 := 3]} [3] 0x1000 ltac:(done) ltac:(reflexivity)
    ltac:(by intros ? [= <-]) (mkVMFunctionImport 0x5000 0x6000)) as [sig Hr]; [by vm_compute|].
  exists f1, callee, fe2, f2, dsts, code, sig. split; [exact E|]. split; [exact E2|exact Hr].
Defined.

Lemma heap_of_memory_witness :
  ∃ fe' f' h d, make_heap fx_fe fx_func 1 = Ret (fe', f', h) ∧ zget (heaps f') h = Some d ∧
    @gv_eval interpreter fx_mem 0x1000 f' (h_base d) = Some 0x90000 ∧
    h_style d = HeapStatic (2 ^ 32).
Proof.
  destruct (@heap_of_memory interpreter interpreter_laws _ _ _ fx_mem _ fx_context fx_fe fx_func 1 _
    (fx_env _) eq_refl ltac:(done)) as (fe' & f' & h & d & E & _ & _ & _ & Hd & _ & Hrun).
  destruct (Hrun (0x1000 + 52) ltac:(by vm_compute) ltac:(done) ltac:(done) f' ltac:(done)) as [Hb Hs].
  exists fe', f', h, d. split; [exact E|]. split; [exact Hd|]. split.
  - etrans; [exact Hb|]. by vm_compute.
  - cbn in Hs. destruct (h_style d); [done|]. by subst.
Defined.
