(* ===== verification/CodeMemory.v ===== *)
(** * Memory for compiled code

    Models [wasmtime-jit/src/code_memory.rs]: a bump allocator over page
    mappings, whose pages are made executable (and read-only) when they are
    published. *)

From S2P Require Import Prelude Environ VMOffsets Store Registry Memory VMContext.
Local Open Scope Z_scope.

Record CodeMemory := mkCodeMemory {
  current : Mmap;
  mmaps : list Mmap;
  position : Z;
  published : nat;
}.

Definition CodeMemory_new : CodeMemory := mkCodeMemory Mmap_new [] 0 0.

Section code_memory.
Context `{OS}.

(** [allocate] returns the address of the slice. *)
Definition allocate (w : world) (self : CodeMemory) (size : Z)
    : res (world * CodeMemory * result Z os_error) :=
  left ← op_sub 64 (mm_len (current self)) (position self);
  '(w, self, r) ←
    (if left <? size then
       '(w, r) ← with_at_least w (Z.max 0x10000 size);
       match r with
       | Err e => Ret (w, self, Err e)
       | Ok m => Ret (w, mkCodeMemory m (mmaps self ++ [current self]) 0 (published self), Ok tt)
       end
     else Ret (w, self, Ok tt));
  match r with
  | Err e => Ret (w, self, Err e)
  | Ok _ =>
      let old_position := position self in
      new_position ← op_add 64 old_position size;
      _ ← rassert (new_position <=? mm_len (current self));
      Ret (w, mkCodeMemory (current self) (mmaps self) new_position (published self),
           Ok (mm_ptr (current self) + old_position))
  end.

(** The slices of bodies are (address, bytes) pairs. *)
Definition allocate_copy_of_byte_slice (w : world) (self : CodeMemory) (slice : list Z)
    : res (world * CodeMemory * result (Z * list Z) os_error) :=
  '(w, self, r) ← allocate w self (zlen slice);
  match r with
  | Err e => Ret (w, self, Err e)
  | Ok new => Ret (mkWorld (store_bytes (w_mem w) new slice) (w_prot w), self, Ok (new, slice))
  end.

(** The loop of [allocate_copy_of_byte_slices]: [tail] is what is left of the
    block. *)
Fixpoint copy_slices (m : mem) (tail : Z) (slices : list (list Z)) : mem * list (Z * list Z) :=
  match slices with
  | [] => (m, [])
  | slice :: slices =>
      let m := store_bytes m tail slice in
      let '(m, result) := copy_slices m (tail + zlen slice) slices in
      (m, (tail, slice) :: result)
  end.

Definition allocate_copy_of_byte_slices (w : world) (self : CodeMemory) (slices : list (list Z))
    : res (world * CodeMemory * result (list (Z * list Z)) os_error) :=
  total_len ← foldM (λ acc slice, op_add 64 acc (zlen slice)) 0 slices;
  '(w, self, r) ← allocate w self total_len;
  match r with
  | Err e => Ret (w, self, Err e)
  | Ok new =>
      let '(m, result) := copy_slices (w_mem w) new slices in
      Ret (mkWorld m (w_prot w), self, Ok result)
  end.

Definition protect_executable (w : world) (m : Mmap) : res world :=
  if negb (mm_len m =? 0) then
    match sys_protect w (mm_ptr m) (mm_len m) ReadExecute with
    | (w', true) => Ret w'
    | (_, false) => Panic
    end
  else Ret w.

Definition publish (w : world) (self : CodeMemory) : res (world * CodeMemory) :=
  let all := mmaps self ++ [current self] in
  w' ← foldM protect_executable w (drop (published self) all);
  Ret (w', mkCodeMemory Mmap_new all 0 (length all)).

(** Runs of a compiler's requests. *)
Inductive code_op := CopySlice (slice : list Z) | CopySlices (slices : list (list Z)) | Publish.

Definition code_step (st : world * CodeMemory) (op : code_op)
    : res (world * CodeMemory * list (Z * list Z)) :=
  let '(w, self) := st in
  match op with
  | CopySlice slice =>
      '(w, self, r) ← allocate_copy_of_byte_slice w self slice;
      Ret (w, self, match r with Ok b => [b] | Err _ => [] end)
  | CopySlices slices =>
      '(w, self, r) ← allocate_copy_of_byte_slices w self slices;
      Ret (w, self, match r with Ok bs => bs | Err _ => [] end)
  | Publish => '(w, self) ← publish w self; Ret (w, self, [])
  end.

(** The bodies handed out by a sequence of requests, in order. *)
Fixpoint code_run (st : world * CodeMemory) (ops : list code_op)
    : res (world * CodeMemory * list (Z * list Z)) :=
  match ops with
  | [] => Ret (st.1, st.2, [])
  | op :: ops =>
      '(w, self, bs) ← code_step st op;
      '(w, self, bs') ← code_run (w, self) ops;
      Ret (w, self, bs ++ bs')
  end.
End code_memory.

(** ** Invariant *)

Notation in_mmap m x := (mm_ptr m ≤ x < mm_ptr m + mm_len m).

(** The bytes of the block [b] are intact. *)
Definition intact (w : world) (b : Z * list Z) : Prop :=
  load_bytes (w_mem w) b.1 (zlen b.2) = b.2.

Definition block_in (m : Mmap) (len : Z) (b : Z * list Z) : Prop :=
  mm_ptr m ≤ b.1 ∧ b.1 + zlen b.2 ≤ mm_ptr m + len.

(** [pub] are the published blocks, [open] the others. *)
Record cm_inv `{OS} (w : world) (cm : CodeMemory) (pub open : list (Z * list Z)) : Prop := {
  ci_position : 0 ≤ position cm ≤ mm_len (current cm);
  ci_published : (published cm ≤ length (mmaps cm))%nat;
  ci_disjoint : ∀ i j mi mj x, (mmaps cm ++ [current cm]) !! i = Some mi →
    (mmaps cm ++ [current cm]) !! j = Some mj → in_mmap mi x → in_mmap mj x → i = j;
  ci_mapped : ∀ m x, m ∈ mmaps cm ++ [current cm] → in_mmap m x → w_prot w x ≠ None;
  ci_executable : ∀ i m x, mmaps cm !! i = Some m → (i < published cm)%nat → in_mmap m x →
    w_prot w x = Some ReadExecute;
  ci_pub : ∀ b, b ∈ pub → intact w b ∧
    ∃ i m, mmaps cm !! i = Some m ∧ (i < published cm)%nat ∧ block_in m (mm_len m) b;
  ci_open : ∀ b, b ∈ open → intact w b ∧
    ((∃ m, m ∈ mmaps cm ∧ block_in m (mm_len m) b) ∨ block_in (current cm) (position cm) b);
}.

Section code_memory_laws.
Context `{OSLaws}.
Set Default Proof Using "Type*".

Lemma intact_frame w w' b :
  intact w b → (∀ x, b.1 ≤ x < b.1 + zlen b.2 → w_mem w' x = w_mem w x) → intact w' b.
Proof. intros Hi Hx. unfold intact in *. rewrite <-Hi at 2. apply load_bytes_ext. intros. apply Hx. lia. Qed.

Lemma block_in_mmap m len b x :
  block_in m len b → len ≤ mm_len m → b.1 ≤ x < b.1 + zlen b.2 → in_mmap m x.
Proof. unfold block_in. lia. Qed.

Lemma open_block_mapped w cm pub open b x :
  cm_inv w cm pub open → b ∈ open → b.1 ≤ x < b.1 + zlen b.2 → w_prot w x ≠ None.
Proof.
  intros Hc Hb Hx. destruct (ci_open _ _ _ _ Hc b Hb) as [_ [(m & Hm & Hin)|Hin]].
  - apply (ci_mapped _ _ _ _ Hc m); [set_solver|]. by eapply block_in_mmap.
  - apply (ci_mapped _ _ _ _ Hc (current cm)); [set_solver|]. eapply block_in_mmap; [done| |done].
    apply Hc.
Qed.

Lemma pub_block_mapped w cm pub open b x :
  cm_inv w cm pub open → b ∈ pub → b.1 ≤ x < b.1 + zlen b.2 → w_prot w x ≠ None.
Proof.
  intros Hc Hb Hx. destruct (ci_pub _ _ _ _ Hc b Hb) as [_ (i & m & Hm & _ & Hin)].
  apply (ci_mapped _ _ _ _ Hc m); [apply list_elem_of_lookup_2 in Hm; set_solver|].
  by eapply block_in_mmap.
Qed.

(** A world that keeps what was mapped keeps the invariant. *)
Lemma cm_inv_preserves w w' cm pub open :
  cm_inv w cm pub open → preserves w w' → cm_inv w' cm pub open.
Proof.
  intros Hc Hp. pose proof Hc as [? ? ? Hm He Hpu Ho]. split; try done.
  - intros m x Hin Hx. destruct (Hp x) as [_ ->]; by eapply Hm.
  - intros i m x Hi Hlt Hx. destruct (Hp x) as [_ ->]; [|by eapply He].
    eapply Hm; [|done]. apply list_elem_of_lookup_2 in Hi. set_solver.
  - intros b Hb. destruct (Hpu b Hb) as [Hi Hin]. split; [|done].
    eapply intact_frame; [done|]. intros x Hx. apply Hp. by eapply pub_block_mapped.
  - intros b Hb. destruct (Ho b Hb) as [Hi Hin]. split; [|done].
    eapply intact_frame; [done|]. intros x Hx. apply Hp. by eapply open_block_mapped.
Qed.

(** Moving on to a fresh mapping. *)
Lemma cm_inv_fresh w w' cm pub open m :
  cm_inv w cm pub open → fresh_mapping w w' m (mm_len m) → 0 ≤ mm_len m →
  cm_inv w' (mkCodeMemory m (mmaps cm ++ [current cm]) 0 (published cm)) pub open.
Proof.
  intros Hc Hf Hl. pose proof (cm_inv_preserves w w' cm pub open Hc (fresh_preserves _ _ _ _ Hf)) as Hc'.
  pose proof Hc' as [Hpos Hpub Hd Hm He Hpu Ho]. destruct Hf as [_ _ _ _ Hin _].
  assert (Hnew : ∀ i mi x, (mmaps cm ++ [current cm]) !! i = Some mi → in_mmap mi x → in_mmap m x → False).
  { intros i mi x Hi Hx Hx'. apply Hin in Hx' as (Hn & _). apply list_elem_of_lookup_2 in Hi.
    by apply (ci_mapped _ _ _ _ Hc mi x Hi Hx). }
  split; cbn [current mmaps position published].
  - lia.
  - rewrite length_app. lia.
  - intros i j mi mj x Hi Hj Hxi Hxj. apply lookup_snoc_Some in Hi, Hj.
    destruct Hi as [[_ Hi]|[-> <-]], Hj as [[_ Hj]|[-> <-]]; [by eapply Hd|..|done];
      exfalso; by eapply Hnew.
  - intros m' x Hm' Hx. apply elem_of_app in Hm' as [Hm'|Hm'%list_elem_of_singleton].
    + by eapply Hm.
    + subst m'. by apply Hin in Hx as (_ & _ & ?).
  - intros i m' x Hi Hlt Hx. rewrite lookup_app_l in Hi by lia. by eapply He.
  - intros b Hb. destruct (Hpu b Hb) as [Hi (i & m' & Hm' & Hlt & Hbl)]. split; [done|].
    exists i, m'. split_and!; [by apply lookup_app_l_Some|done|done].
  - intros b Hb. destruct (Ho b Hb) as [Hi [(m' & Hm' & Hbl)|Hbl]]; (split; [done|]); left.
    + exists m'. split; [set_solver|done].
    + exists (current cm). split; [set_solver|]. unfold block_in in *. lia.
Qed.

(** [allocate] moves the position past a range that no block uses. *)
Lemma allocate_spec w cm pub open size w' cm' r :
  cm_inv w cm pub open → 0 ≤ size → allocate w cm size = Ret (w', cm', r) →
  preserves w w' ∧ cm_inv w' cm' pub open ∧
  match r with
  | Err _ => True
  | Ok p => mm_ptr (current cm') ≤ p ∧ p + size = mm_ptr (current cm') + position cm' ∧
      ∀ b, b ∈ open → (∃ m, m ∈ mmaps cm' ∧ block_in m (mm_len m) b) ∨
                      block_in (current cm') (p - mm_ptr (current cm')) b
  end.
Proof.
  intros Hc Hs E. unfold allocate in E. apply bind_Ret in E as (left & [-> Hleft]%op_sub_Ret & E).
  apply bind_Ret in E as ([[w1 cm1] r1] & E1 & E).
  assert (Hmid : preserves w w1 ∧ cm_inv w1 cm1 pub open ∧
    (r1 = Ok tt → size ≤ mm_len (current cm1) - position cm1)).
  { destruct (Z.ltb_spec (mm_len (current cm) - position cm) size).
    - apply bind_Ret in E1 as ([w2 r2] & E2 & E1).
      apply with_at_least_spec in E2; [|lia]. destruct r2 as [m|e]; simplify_eq.
      + destruct E2 as [Hm Hf]. split_and!; [by eapply fresh_preserves| |intros _; cbn; lia].
        apply (cm_inv_fresh w); [done..|lia].
      + split_and!; [done|by eapply cm_inv_preserves|done].
    - simplify_eq. split_and!; [by intros x|done|intros _; lia]. }
  destruct Hmid as (Hp & Hc1 & Hfit). destruct r1 as [[]|e]; [|by simplify_eq].
  specialize (Hfit eq_refl). apply bind_Ret in E as (np & [-> Hnp]%op_add_Ret & E).
  apply bind_Ret in E as ([] & Hle & E). simplify_eq. cbn [current mmaps position published].
  pose proof Hc1 as [Hpos ? ? ? ? ? Ho]. split_and!; [done| |lia|lia|].
  - split; cbn [current mmaps position published]; try done; [lia|].
    intros b Hb. destruct (Ho b Hb) as [Hi [Hbl|Hbl]]; (split; [done|]); [by left|right].
    unfold block_in in *. lia.
  - intros b Hb. destruct (Ho b Hb) as [_ [Hbl|Hbl]]; [by left|right]. unfold block_in in *. lia.
Qed.

(** Filling the range that was just allocated. *)
Lemma cm_inv_write w cm pub open lo m' new :
  cm_inv w cm pub open →
  mm_ptr (current cm) ≤ lo →
  (∀ b, b ∈ open → (∃ m, m ∈ mmaps cm ∧ block_in m (mm_len m) b) ∨
                   block_in (current cm) (lo - mm_ptr (current cm)) b) →
  (∀ x, ¬ (lo ≤ x < mm_ptr (current cm) + position cm) → m' x = w_mem w x) →
  (∀ b, b ∈ new → intact (mkWorld m' (w_prot w)) b ∧ block_in (current cm) (position cm) b) →
  cm_inv (mkWorld m' (w_prot w)) cm pub (open ++ new).
Proof.
  intros Hc Hlo Hopen Hm' Hnew. pose proof Hc as [Hpos Hpub Hd Hm He Hpu Ho].
  assert (Hold : ∀ i m b, mmaps cm !! i = Some m → block_in m (mm_len m) b → intact w b →
    intact (mkWorld m' (w_prot w)) b).
  { intros i m b Hi Hbl Hin. eapply intact_frame; [done|]. cbn. intros x Hx. apply Hm'. intros Hx'.
    assert (i = length (mmaps cm)) as ->.
    { apply (Hd i (length (mmaps cm)) m (current cm) x).
      - by apply lookup_app_l_Some.
      - by apply list_lookup_middle.
      - by eapply block_in_mmap.
      - lia. }
    apply lookup_lt_Some in Hi. lia. }
  split; try done.
  - intros b Hb. destruct (Hpu b Hb) as [Hi (i & m & Hm2 & Hlt & Hbl)]. split; [by eapply Hold|eauto].
  - intros b [Hb|Hb]%elem_of_app.
    + destruct (Ho b Hb) as [Hi Hwhere]. split; [|done].
      destruct (Hopen b Hb) as [(m & Hm2 & Hbl)|Hbl].
      * apply list_elem_of_lookup in Hm2 as [j Hj]. by eapply Hold.
      * eapply intact_frame; [done|]. cbn. intros x Hx. apply Hm'. unfold block_in in Hbl. lia.
    + destruct (Hnew b Hb) as [? ?]. split; [done|by right].
Qed.

Lemma copy_slices_spec slices : ∀ m tail m' bs,
  copy_slices m tail slices = (m', bs) →
  (∀ x, ¬ (tail ≤ x < tail + zlen (concat slices)) → m' x = m x) ∧
  (∀ b, b ∈ bs → tail ≤ b.1 ∧ b.1 + zlen b.2 ≤ tail + zlen (concat slices) ∧
     load_bytes m' b.1 (zlen b.2) = b.2) ∧ map snd bs = slices.
Proof.
  induction slices as [|sl slices IH]; intros m tail m' bs E; cbn in E.
  { simplify_eq. split_and!; [done|by intros b ?%elem_of_nil|done]. }
  destruct (copy_slices (store_bytes m tail sl) (tail + zlen sl) slices) as [m1 bs1] eqn:E1.
  simplify_eq. apply IH in E1 as (Hf & Hb & Hs). cbn [concat]. rewrite zlen_app.
  pose proof (zlen_nonneg sl). pose proof (zlen_nonneg (concat slices)). split_and!.
  - intros x Hx. rewrite Hf by lia. apply store_bytes_out. lia.
  - intros b [->|Hin]%elem_of_cons; cbn.
    + split_and!; [lia|lia|]. rewrite <-(load_store_same m tail sl) at 2. apply load_bytes_ext.
      intros x Hx. apply Hf. lia.
    + destruct (Hb b Hin) as (? & ? & ?). split_and!; [lia|lia|done].
  - cbn. by f_equal.
Qed.

Lemma total_len_spec (slices : list (list Z)) n :
  foldM (λ acc slice, op_add 64 acc (zlen slice)) 0 slices = Ret n → n = zlen (concat slices).
Proof.
  assert (Hgen : ∀ a n, foldM (λ acc slice, op_add 64 acc (zlen slice)) a slices = Ret n →
    n = a + zlen (concat slices)); [|by intros E%Hgen].
  induction slices as [|sl slices IH]; intros a n' E; cbn in E; [injection E as <-; unfold zlen; cbn; lia|].
  apply bind_Ret in E as (b & [-> _]%op_add_Ret & E). apply IH in E as ->.
  cbn [concat]. rewrite zlen_app. lia.
Qed.

Lemma protect_all_spec l : ∀ w w',
  foldM protect_executable w l = Ret w' →
  (∀ x, w_mem w' x = w_mem w x) ∧
  (∀ x, w_prot w' x = w_prot w x ∨ w_prot w' x = Some ReadExecute) ∧
  (∀ m x, m ∈ l → in_mmap m x → w_prot w' x = Some ReadExecute) ∧
  (∀ x, (∀ m, m ∈ l → ¬ in_mmap m x) → w_prot w' x = w_prot w x).
Proof.
  induction l as [|m l IH]; intros w w' E; cbn in E.
  { simplify_eq. split_and!; [done|by left|by intros m x ?%elem_of_nil|done]. }
  apply bind_Ret in E as (w1 & E1 & E). apply IH in E as (Hm & Hr & Hp & Hout).
  assert (H1 : (∀ x, w_mem w1 x = w_mem w x) ∧
    (∀ x, w_prot w1 x = w_prot w x ∨ w_prot w1 x = Some ReadExecute) ∧
    (∀ x, in_mmap m x → w_prot w1 x = Some ReadExecute) ∧
    (∀ x, ¬ in_mmap m x → w_prot w1 x = w_prot w x)).
  { unfold protect_executable in E1. destruct (Z.eqb_spec (mm_len m) 0) as [E0|E0]; cbn in E1.
    { simplify_eq. split_and!; [done|by left|intros; lia|done]. }
    destruct (sys_protect w (mm_ptr m) (mm_len m) ReadExecute) as [w2 [|]] eqn:Es; simplify_eq.
    destruct (protect_mem _ _ _ _ _ _ Es) as [Hso Hmem]. split_and!; [done|..].
    - intros x. by eapply protect_range.
    - by eapply protect_ok.
    - intros x Hx. by apply Hso. }
  destruct H1 as (Hm1 & Hr1 & Hp1 & Ho1). split_and!.
  - intros x. by rewrite Hm, Hm1.
  - intros x. destruct (Hr x) as [->|]; [apply Hr1|by right].
  - intros m' x [->|Hin]%elem_of_cons Hx; [|by eapply Hp].
    destruct (Hr x) as [->|]; [by apply Hp1|done].
  - intros x Hx. rewrite Hout, Ho1; [done|..].
    + apply Hx. by left.
    + intros m' Hin. apply Hx. by right.
Qed.

Lemma publish_spec w cm pub open w' cm' :
  cm_inv w cm pub open → publish w cm = Ret (w', cm') → cm_inv w' cm' (pub ++ open) [].
Proof.
  intros Hc E. unfold publish in E. apply bind_Ret in E as (w1 & E1 & E). simplify_eq.
  apply protect_all_spec in E1 as (Hmem & Hr & Hp & _).
  pose proof Hc as [Hpos Hpub Hd Hm He Hpu Ho]. set (all := mmaps cm ++ [current cm]) in *.
  assert (Hex : ∀ i m x, all !! i = Some m → in_mmap m x → w_prot w' x = Some ReadExecute).
  { intros i m x Hi Hx. destruct (decide (i < published cm)%nat) as [Hlt|Hge].
    - destruct (Hr x) as [->|]; [|done]. eapply (He i m); [|done..].
      unfold all in Hi. by rewrite lookup_app_l in Hi by lia.
    - apply (Hp m x); [|done]. apply list_elem_of_lookup. exists (i - published cm)%nat.
      rewrite lookup_drop. by replace (published cm + (i - published cm))%nat with i by lia. }
  assert (Hint : ∀ b, intact w b → intact w' b) by (intros b Hb; eapply intact_frame; eauto).
  assert (Hin : ∀ m, m ∈ all → ∃ i, all !! i = Some m ∧ (i < length all)%nat).
  { intros m [i Hi]%list_elem_of_lookup. exists i. split; [done|]. by eapply lookup_lt_Some. }
  split; cbn [current mmaps position published].
  - done.
  - lia.
  - intros i j mi mj x Hi Hj Hxi Hxj. apply lookup_snoc_Some in Hi, Hj.
    destruct Hi as [[_ Hi]|[-> <-]], Hj as [[_ Hj]|[-> <-]];
      [by eapply Hd|cbn in *; lia|cbn in *; lia|done].
  - intros m x [Hm'|Hm'%list_elem_of_singleton]%elem_of_app Hx; [|subst; cbn in Hx; lia].
    destruct (Hin m Hm') as (i & Hi & _). by rewrite (Hex i m x).
  - intros i m x Hi _ Hx. by eapply Hex.
  - intros b [Hb|Hb]%elem_of_app.
    + destruct (Hpu b Hb) as [Hi (i & m & Hm2 & Hlt & Hbl)]. split; [by apply Hint|].
      exists i, m. split_and!; [by apply lookup_app_l_Some| |done]. unfold all.
      rewrite length_app. lia.
    + destruct (Ho b Hb) as [Hi Hwhere]. split; [by apply Hint|].
      assert (∃ m, m ∈ all ∧ block_in m (mm_len m) b) as (m & Hm2 & Hbl).
      { destruct Hwhere as [(m & ? & ?)|Hbl]; [exists m; unfold all; split; [set_solver|done]|].
        exists (current cm). split; [unfold all; set_solver|]. unfold block_in in *. lia. }
      destruct (Hin m Hm2) as (i & ? & ?). by exists i, m.
  - by intros b ?%elem_of_nil.
Qed.

Lemma code_step_spec w cm pub open op w' cm' bs :
  cm_inv w cm pub open → code_step (w, cm) op = Ret (w', cm', bs) →
  match op with
  | Publish => cm_inv w' cm' (pub ++ open) []
  | _ => cm_inv w' cm' pub (open ++ bs)
  end.
Proof.
  intros Hc E. destruct op as [slice|slices|]; cbn in E.
  - apply bind_Ret in E as ([[w1 cm1] r1] & E1 & E). unfold allocate_copy_of_byte_slice in E1.
    apply bind_Ret in E1 as ([[w2 cm2] r2] & E2 & E1).
    apply (allocate_spec _ _ pub open) in E2 as (Hp & Hc2 & Hr); [|done|apply zlen_nonneg].
    destruct r2 as [p|e]; simplify_eq; [|by rewrite app_nil_r]. destruct Hr as (Hlo & Hhi & Ho).
    apply (cm_inv_write _ _ _ _ p); [done..| |].
    + intros x Hx. apply store_bytes_out. lia.
    + intros b ->%list_elem_of_singleton. split; [apply load_store_same|]. unfold block_in. cbn. lia.
  - apply bind_Ret in E as ([[w1 cm1] r1] & E1 & E). unfold allocate_copy_of_byte_slices in E1.
    apply bind_Ret in E1 as (n & ->%total_len_spec & E1).
    apply bind_Ret in E1 as ([[w2 cm2] r2] & E2 & E1).
    apply (allocate_spec _ _ pub open) in E2 as (Hp & Hc2 & Hr); [|done|apply zlen_nonneg].
    destruct r2 as [p|e]; [|simplify_eq; by rewrite app_nil_r]. destruct Hr as (Hlo & Hhi & Ho).
    destruct (copy_slices (w_mem w2) p slices) as [m' bs'] eqn:Ec. simplify_eq.
    apply copy_slices_spec in Ec as (Hf & Hb & _). apply (cm_inv_write _ _ _ _ p); [done..| |].
    + intros x Hx. apply Hf. lia.
    + intros b Hin. destruct (Hb b Hin) as (? & ? & ?). split; [done|]. unfold block_in. lia.
  - apply bind_Ret in E as ([w1 cm1] & E1 & E). simplify_eq. by eapply publish_spec.
Qed.

(** Published blocks stay published. *)
Lemma code_run_spec ops : ∀ w cm pub open w' cm' bs,
  cm_inv w cm pub open → code_run (w, cm) ops = Ret (w', cm', bs) →
  ∃ pub' open', cm_inv w' cm' pub' open' ∧ pub ⊆ pub' ∧ pub ++ open ++ bs ⊆ pub' ++ open' ∧
    (Publish ∈ ops → pub ++ open ⊆ pub').
Proof.
  induction ops as [|op ops IH]; intros w cm pub open w' cm' bs Hc E; cbn [code_run] in E.
  { simplify_eq/=. exists pub, open. rewrite app_nil_r. split_and!; [done..|by intros ?%elem_of_nil]. }
  apply bind_Ret in E as ([[w1 cm1] bs1] & E1 & E). apply bind_Ret in E as ([[w2 cm2] bs2] & E2 & E).
  simplify_eq. pose proof (code_step_spec _ _ _ _ _ _ _ _ Hc E1) as Hs.
  destruct op as [slice|slices|].
  1-2: apply (IH _ _ pub (open ++ bs1)) in E2 as (pub' & open' & Hc' & H1' & H2' & H3'); [|done];
    exists pub', open'; split_and!; [done|done|by rewrite <-app_assoc in H2'|];
    intros [|Hin]%elem_of_cons; [done|]; specialize (H3' Hin); set_solver.
  apply (IH _ _ (pub ++ open) []) in E2 as (pub' & open' & Hc' & H1' & H2' & H3'); [|done].
  assert (bs1 = []) as ->.
  { cbn in E1. apply bind_Ret in E1 as ([? ?] & _ & E1). by simplify_eq. }
  exists pub', open'. split_and!; [done|set_solver|by rewrite app_assoc|done].
Qed.

Lemma cm_inv_new w : cm_inv w CodeMemory_new [] [].
Proof.
  split; cbn.
  - lia.
  - lia.
  - intros i j mi mj x [-> <-]%list_lookup_singleton_Some. cbn. lia.
  - intros m x ->%list_elem_of_singleton. cbn. lia.
  - done.
  - by intros b ?%elem_of_nil.
  - by intros b ?%elem_of_nil.
Qed.

(** C31: code memory over any sequence of requests.  Every body ever handed
    out still holds exactly the bytes that were copied into it -- no later
    allocation, growth or publication overwrites it -- and bodies that were
    handed out before a publication are on pages that are executable and not
    writable, however many requests follow. *)
Theorem code_memory_keeps_bodies (w w1 w2 : world) (cm1 cm2 : CodeMemory)
    (ops1 ops2 : list code_op) (bs1 bs2 : list (Z * list Z))
    (Hrun1 : code_run (w, CodeMemory_new) ops1 = Ret (w1, cm1, bs1))
    (Hrun2 : code_run (w1, cm1) ops2 = Ret (w2, cm2, bs2)) :
  (∀ b, b ∈ bs1 ++ bs2 → load_bytes (w_mem w2) b.1 (zlen b.2) = b.2) ∧
  (Publish ∈ ops2 → ∀ b x, b ∈ bs1 → b.1 ≤ x < b.1 + zlen b.2 →
     w_prot w2 x = Some ReadExecute).
Proof.
  apply (code_run_spec _ _ _ _ _ _ _ _ (cm_inv_new w)) in Hrun1
    as (pub1 & open1 & Hc1 & _ & Hsub1 & _). cbn in Hsub1.
  apply (code_run_spec _ _ _ _ _ _ _ _ Hc1) in Hrun2 as (pub2 & open2 & Hc2 & Hs & Hsub2 & Hp).
  split.
  - intros b Hb. assert (b ∈ pub2 ++ open2) as [Hin|Hin]%elem_of_app by set_solver.
    + by apply (ci_pub _ _ _ _ Hc2).
    + by apply (ci_open _ _ _ _ Hc2).
  - intros Hpub b x Hb Hx. assert (Hin : b ∈ pub2) by (specialize (Hp Hpub); set_solver).
    destruct (ci_pub _ _ _ _ Hc2 b Hin) as [_ (i & m & Hm & Hlt & Hbl)].
    eapply (ci_executable _ _ _ _ Hc2); [done..|]. by eapply block_in_mmap.
Qed.
End code_memory_laws.

Section example.
#[local] Existing Instance toy_os.
#[local] Existing Instance toy_laws.

Definition ex_code_ops : list code_op := [CopySlice [1; 2; 3]; CopySlices [[4]; []; [5; 6]]].
Definition ex_blocks (r : res (world * CodeMemory * list (Z * list Z))) : list (Z * list Z) :=
  match r with Ret (_, _, bs) => bs | Panic => [] end.

Lemma ex_publish w cm : ∃ w' cm', code_run (w, cm) [Publish] = Ret (w', cm', []).
Proof.
  cbn. unfold publish. generalize (drop (published cm) (mmaps cm ++ [current cm])). intros l.
  assert (∃ w', foldM protect_executable w l = Ret w') as [w' ->].
  { revert w. induction l as [|m l IH]; intros w; [by eexists|]. cbn [foldM].
    assert (∃ w1, protect_executable w m = Ret w1) as [w1 ->].
    { unfold protect_executable. destruct (mm_len m =? 0); cbn; by eexists. }
    cbn. apply IH. }
  by do 2 eexists.
Qed.

Lemma code_memory_keeps_bodies_witness :
  ∃ w1 cm1 bs1 w2 cm2 bs2,
    code_run (toy_world, CodeMemory_new) ex_code_ops = Ret (w1, cm1, bs1) ∧
    code_run (w1, cm1) [Publish] = Ret (w2, cm2, bs2) ∧
    bs1 = [(2 ^ 40, [1; 2; 3]); (2 ^ 40 + 3, [4]); (2 ^ 40 + 4, []); (2 ^ 40 + 4, [5; 6])] ∧
    w_prot w2 (2 ^ 40) = Some ReadExecute.
Proof.
  assert (Hbs : ex_blocks (code_run (toy_world, CodeMemory_new) ex_code_ops) =
    [(2 ^ 40, [1; 2; 3]); (2 ^ 40 + 3, [4]); (2 ^ 40 + 4, []); (2 ^ 40 + 4, [5; 6])])
    by (vm_compute; reflexivity).
  destruct (code_run (toy_world, CodeMemory_new) ex_code_ops) as [[[w1 cm1] bs1]|] eqn:E1;
    [|discriminate Hbs].
  destruct (ex_publish w1 cm1) as (w2 & cm2 & E2).
  exists w1, cm1, bs1, w2, cm2, []. split; [reflexivity|]. split; [exact E2|].
  cbn in Hbs. split; [exact Hbs|].
  destruct (code_memory_keeps_bodies toy_world w1 w2 cm1 cm2 ex_code_ops [Publish] bs1 [] E1 E2)
    as [_ Hp].
  apply (Hp ltac:(left) (2 ^ 40, [1; 2; 3])); [rewrite Hbs; left|unfold zlen; cbn; lia].
Defined.
End example.
