(* ===== verification/Jit.v ===== *)
(** * The compiler driver

    Models [wasmtime-jit/src/compiler.rs] and [instantiate.rs], with the results of
    compilation of [wasmtime-environ/src/compilation.rs]: a compiler owns code memory,
    the registrations of its traps, its trampolines and the registry of signatures;
    compiling a module allocates its functions, registers their traps, links its imports
    and makes the code executable. *)

From S2P Require Import Prelude Environ ModuleEnv VMOffsets Store Registry Memory VMContext.
From S2P Require Import Table Instance Link CodeMemory JitInt.
Local Open Scope Z_scope.

(** ** [compilation.rs] *)

Record CodeAndJTOffsets := mkCodeAndJTOffsets { cj_body : list Z; cj_jt_offsets : list Z }.

Record Compilation := mkCompilation { compiled_functions : list CodeAndJTOffsets }.

Definition Compilation_new (functions : list CodeAndJTOffsets) : Compilation :=
  mkCompilation functions.

(** [buffer[range].to_vec()] *)
Definition buffer_range (buffer : list Z) (range : Z * Z) : res (list Z) :=
  _ ← rassert (range.1 <=? range.2);
  _ ← rassert (range.2 <=? zlen buffer);
  Ret (take (Z.to_nat (range.2 - range.1)) (drop (Z.to_nat range.1) buffer)).
Definition Compilation_from_buffer (buffer : list Z) (functions : list (Z * Z * list Z))
    : res Compilation :=
  l ← mapR (λ '(range, jt_offsets), b ← buffer_range buffer range; Ret (mkCodeAndJTOffsets b jt_offsets))
        functions;
  Ret (Compilation_new l).

Definition Compilation_get (self : Compilation) (func : Z) : res CodeAndJTOffsets :=
  zindex (compiled_functions self) func.
Definition Compilation_len (self : Compilation) : Z := zlen (compiled_functions self).
Definition get_jt_offsets (self : Compilation) : list (list Z) :=
  map cj_jt_offsets (compiled_functions self).

Record TrapInformation := mkTrapInformation {
  tr_code_offset : Z;
  tr_source_loc : Z;
  tr_trap_code : Z;
}.

Inductive CompileError := CompileWasm (e : string) | CompileCodegen (e : string) | DebugInfoNotSupported.

(** [instantiate.rs] *)
Inductive SetupError :=
| SetupValidate (e : string)
| SetupCompile (e : CompileError)
| SetupInstantiate (e : InstantiationError)
| SetupDebugInfo (e : string).

(** ** The compilers and the tools that the driver calls *)

Inductive CompilationStrategy := Auto | CraneliftStrategy | LightbeamStrategy.

(** What [compile_module] of a back end returns, less what only the debug information
    needs, which is [ci_debug]. *)
Record CompiledInfo := mkCompiledInfo {
  ci_compilation : Compilation;
  ci_relocations : list (list Relocation);
  ci_debug : Z;
  ci_traps : list (list TrapInformation);
}.

Inductive callee_arg := ArgLoad (ty : ir_type) (offset : Z) | ArgVmctx.

(** The function that [make_trampoline] builds: the values that it passes to the
    callee, and where it stores the callee's results. *)
Record trampoline := mkTrampoline {
  tr_callee : Z;
  tr_signature : Signature;
  tr_args : list callee_arg;
  tr_stores : list Z;
}.

(** Parsing and validating a module, the back ends, the emission of a trampoline and of
    the image for the debugger. *)
Class JitTools := {
  parse_module : list Z → result (list event) string;
  cranelift_compile_module : Module_ → list FunctionBodyData → bool → res (result CompiledInfo CompileError);
  lightbeam_compile_module : Module_ → list FunctionBodyData → bool → res (result CompiledInfo CompileError);
  compile_and_emit : trampoline → result (list Z) string;
  (** [read_debuginfo] of wasmtime-debug, which panics on sections that it cannot read *)
  read_debuginfo : list Z → res (list Z);
  (** panics when there are no functions, among others *)
  emit_debugsections_image : list Z → Z → Z → list (Z * Z) → res (result (list Z) string);
}.

Record Compiler := mkCompiler {
  c_windows : bool;
  code_memory : CodeMemory;
  trap_registration_guards : list Z;
  trampoline_park : gmap Z Z;
  c_registry : SignatureRegistry;
  strategy : CompilationStrategy;
}.

Section compiler.
Context `{OS} `{JitTools}.

Definition Compiler_new (windows : bool) (s : CompilationStrategy) : Compiler :=
  mkCompiler windows CodeMemory_new [] ∅ SignatureRegistry_new s.

Definition set_code_memory (c : Compiler) (cm : CodeMemory) : Compiler :=
  mkCompiler (c_windows c) cm (trap_registration_guards c) (trampoline_park c) (c_registry c) (strategy c).
Definition set_guards (c : Compiler) (g : list Z) : Compiler :=
  mkCompiler (c_windows c) (code_memory c) g (trampoline_park c) (c_registry c) (strategy c).
Definition set_park (c : Compiler) (p : gmap Z Z) : Compiler :=
  mkCompiler (c_windows c) (code_memory c) (trap_registration_guards c) p (c_registry c) (strategy c).
Definition set_registry (c : Compiler) (r : SignatureRegistry) : Compiler :=
  mkCompiler (c_windows c) (code_memory c) (trap_registration_guards c) (trampoline_park c) r (strategy c).

Definition tunables (c : Compiler) : Tunables := target_tunables (c_windows c).

(** [Drop for Compiler]: the guards deregister their traps, in order; the code memory
    goes after that. *)
Fixpoint drop_guards (registry : TrapRegistry) (guards : list Z) : TrapRegistry * res unit :=
  match guards with
  | [] => (registry, Ret tt)
  | g :: guards =>
      match guard_drop registry g with
      | (registry, Ret _) => drop_guards registry guards
      | (registry, Panic) => (registry, Panic)
      end
  end.
Definition Compiler_drop (registry : TrapRegistry) (c : Compiler) : TrapRegistry * res unit :=
  drop_guards registry (trap_registration_guards c).

(** ** Functions and traps *)

Definition allocate_functions (w : world) (cm : CodeMemory) (compilation : Compilation)
    : res (world * CodeMemory * result (list (Z * Z)) os_error) :=
  let bodies := map cj_body (compiled_functions compilation) in
  '(w, cm, r) ← allocate_copy_of_byte_slices w cm bodies;
  match r with
  | Err e => Ret (w, cm, Err e)
  | Ok fat_ptrs => Ret (w, cm, Ok (map (λ b, (b.1, zlen b.2)) fat_ptrs))
  end.

(** The traps with their addresses, in the order of the loops. *)
Definition trap_list (allocated_functions : list (Z * Z)) (traps : list (list TrapInformation))
    : list (Z * TrapInformation) :=
  concat (zip_with (λ f ts, map (λ t, (f.1 + tr_code_offset t, t)) ts) allocated_functions traps).

(** The body of the loops, under the registry's lock: [func_addr + offset] is a
    [usize]; a failed assertion poisons the lock. *)
Fixpoint register_list (registry : TrapRegistry) (guards : list Z) (l : list (Z * TrapInformation))
    : TrapRegistry * res (list Z) :=
  match l with
  | [] => (registry, Ret guards)
  | (trap_addr, t) :: l =>
      if trap_addr <? 2 ^ 64 then
        match register_trap registry trap_addr (tr_source_loc t) (tr_trap_code t) with
        | (registry, Ret guard) => register_list registry (guards ++ [guard]) l
        | (registry, Panic) => (mkTrapRegistry (traps registry) true, Panic)
        end
      else (mkTrapRegistry (traps registry) true, Panic)
  end.
Definition register_traps (registry : TrapRegistry) (allocated_functions : list (Z * Z))
    (traps : list (list TrapInformation)) (guards : list Z) : TrapRegistry * res (list Z) :=
  if poisoned registry then (registry, Panic)
  else register_list registry guards (trap_list allocated_functions traps).

(** The image for the debugger. *)
Definition debug_image (module : Module_) (info : CompiledInfo) (allocated_functions : list (Z * Z))
    (debug_data : option (list Z)) : res (result (option (list Z)) SetupError) :=
  match debug_data with
  | Some debug_data =>
      ofs ← VMOffsets_new 8 module;
      memory_offset ← vmctx_vmmemory_definition_base ofs 0;
      image ← emit_debugsections_image debug_data memory_offset (ci_debug info) allocated_functions;
      Ret match image with
          | Ok bytes => Ok (Some bytes)
          | Err e => Err (SetupDebugInfo e)
          end
  | None => Ret (Ok None)
  end.

(** [Compiler::compile] *)
Definition compile (w : world) (registry : TrapRegistry) (c : Compiler) (module : Module_)
    (function_body_inputs : list FunctionBodyData) (debug_data : option (list Z))
    : res (world * TrapRegistry * Compiler *
           result (list (Z * Z) * list (list Z) * list (list Relocation) * option (list Z)) SetupError) :=
  let debug := match debug_data with Some _ => true | None => false end in
  compiled ← match strategy c with
             | Auto | CraneliftStrategy => cranelift_compile_module module function_body_inputs debug
             | LightbeamStrategy => lightbeam_compile_module module function_body_inputs debug
             end;
  match compiled with
  | Err e => Ret (w, registry, c, Err (SetupCompile e))
  | Ok info =>
      '(w, cm, r) ← allocate_functions w (code_memory c) (ci_compilation info);
      let c := set_code_memory c cm in
      match r with
      | Err _ => Ret (w, registry, c, Err (SetupInstantiate Resource))
      | Ok allocated_functions =>
          '(registry, guards) ←
            (let '(registry, r) := register_traps registry allocated_functions (ci_traps info)
                                     (trap_registration_guards c) in
             guards ← r; Ret (registry, guards));
          let c := set_guards c guards in
          dbg ← debug_image module info allocated_functions debug_data;
          match dbg with
          | Err e => Ret (w, registry, c, Err e)
          | Ok dbg =>
              Ret (w, registry, c, Ok (allocated_functions, get_jt_offsets (ci_compilation info),
                                       ci_relocations info, dbg))
          end
      end
  end.

(** ** Trampolines *)

(** The arguments of the callee: the parameter [i] is in the slot [i - 1], since the
    context is not passed through the slots. *)
Definition trampoline_arg (value_size : Z) (ir : nat * AbiParam) : res callee_arg :=
  match purpose ir.2 with
  | Normal =>
      i ← op_sub 64 (Z.of_nat ir.1) 1;
      off ← op_mul 64 i value_size;
      Ret (ArgLoad (value_type ir.2) (wrap_s 32 off))
  | VMContextArg => Ret ArgVmctx
  | OtherPurpose _ => Panic
  end.
Definition trampoline_function (callee_address : Z) (signature : Signature) (value_size : Z)
    : res trampoline :=
  args ← mapR (trampoline_arg value_size) (imap pair (params signature));
  stores ← mapR (λ i, off ← op_mul 64 (Z.of_nat i) value_size; Ret (wrap_s 32 off))
             (seq 0 (length (returns signature)));
  Ret (mkTrampoline callee_address signature args stores).

Definition make_trampoline (w : world) (cm : CodeMemory) (callee_address : Z) (signature : Signature)
    (value_size : Z) : res (world * CodeMemory * result Z SetupError) :=
  t ← trampoline_function callee_address signature value_size;
  match compile_and_emit t with
  | Err e => Ret (w, cm, Err (SetupCompile (CompileCodegen e)))
  | Ok code_buf =>
      '(w, cm, r) ← allocate_copy_of_byte_slice w cm code_buf;
      match r with
      | Err _ => Ret (w, cm, Err (SetupInstantiate Resource))
      | Ok slice => Ret (w, cm, Ok slice.1)
      end
  end.

Definition get_trampoline (w : world) (c : Compiler) (callee_address : Z) (signature : Signature)
    (value_size : Z) : res (world * Compiler * result Z SetupError) :=
  match trampoline_park c !! callee_address with
  | Some body => Ret (w, c, Ok body)
  | None =>
      '(w, cm, r) ← make_trampoline w (code_memory c) callee_address signature value_size;
      let c := set_code_memory c cm in
      match r with
      | Err e => Ret (w, c, Err e)
      | Ok body => Ret (w, set_park c (<[callee_address := body]> (trampoline_park c)), Ok body)
      end
  end.

Definition publish_compiled_code (w : world) (c : Compiler) : res (world * Compiler) :=
  '(w, cm) ← publish w (code_memory c); Ret (w, set_code_memory c cm).

Definition get_published_trampoline (w : world) (c : Compiler) (callee_address : Z)
    (signature : Signature) (value_size : Z) : res (world * Compiler * result Z SetupError) :=
  '(w, c, r) ← get_trampoline w c callee_address signature value_size;
  match r with
  | Err e => Ret (w, c, Err e)
  | Ok result => '(w, c) ← publish_compiled_code w c; Ret (w, c, Ok result)
  end.
End compiler.

(** ** [instantiate.rs] *)

Record RawCompiledModule := mkRawCompiledModule {
  raw_module : Module_;
  raw_finished_functions : list Z;
  raw_imports : Imports;
  raw_data_initializers : list DataInitializer;
  raw_signatures : list VMSharedSignatureIndex;
  raw_dbg_jit_registration : option GdbJitImageRegistration;
}.

(** The data of an initializer, copied out of the module. *)
Record OwnedDataInitializer := mkOwnedDataInitializer {
  odi_location : DataInitializerLocation;
  odi_data : list Z;
}.
Definition OwnedDataInitializer_new (borrowed : DataInitializer) : OwnedDataInitializer :=
  mkOwnedDataInitializer (di_location borrowed) (di_data borrowed).

(** [global_exports] names the shared map. *)
Record CompiledModule := mkCompiledModule {
  cm_module : Module_;
  cm_finished_functions : list Z;
  cm_imports : Imports;
  cm_data_initializers : list OwnedDataInitializer;
  cm_signatures : list VMSharedSignatureIndex;
  cm_global_exports : Z;
  cm_dbg_jit_registration : option GdbJitImageRegistration;
}.

(** What instantiation changes: the process, the registry of traps, the debugger's list
    and the compiler. *)
Record jit_state := mkJitState {
  js_rt : rt;
  js_traps : TrapRegistry;
  js_jit : jit;
  js_compiler : Compiler;
}.

Section instantiate.
Context `{OS} `{InstanceLayout} `{JitTools} {R} `{Resolver R}.
Context (abi_special : ir_type → ArgumentPurpose → AbiParam).
(** The library functions, and what [link_module] reports. *)
Context (builtins : libcalls) (libcall_address : LibCall → Z) (show_link_error : LinkError → string).
(** Entering compiled code. *)
Context (wasmtime_call : rt → Z → Z → res (rt * result unit string)).

(** [RawCompiledModule::new]; [image_box] is the box and the buffer of the image. *)
Definition RawCompiledModule_new (st : jit_state) (data : list Z) (resolver : R) (debug_info : bool)
    (image_box : Z * Z) : res (jit_state * result RawCompiledModule SetupError) :=
  let σ := js_rt st in
  let c := js_compiler st in
  match parse_module data with
  | Err e => Ret (st, Err (SetupCompile (CompileWasm e)))
  | Ok events =>
      translation ← run abi_special I64 (ModuleEnvironment_new (tunables c)) events;
      debug_data ← (if debug_info then d ← read_debuginfo data; Ret (Some d) else Ret None);
      '(w, traps, c, r) ← compile (rt_world σ) (js_traps st) c (mt_module translation)
        (function_body_inputs translation) debug_data;
      let st := mkJitState (with_world σ w) traps (js_jit st) c in
      match r with
      | Err e => Ret (st, Err e)
      | Ok (allocated_functions, jt_offsets, relocations, dbg_image) =>
          '(σ, r) ← link_module resolver (js_rt st) (mt_module translation) allocated_functions jt_offsets
            builtins libcall_address relocations;
          let st := mkJitState σ traps (js_jit st) c in
          match r with
          | Err e => Ret (st, Err (SetupInstantiate (Instance.Link (show_link_error e))))
          | Ok imports =>
              let finished_functions := map fst allocated_functions in
              '(registry, ids) ← register_all (c_registry c) (signatures (mt_module translation));
              let c := set_registry c registry in
              '(w, c) ← publish_compiled_code (rt_world σ) c;
              let σ := with_world σ w in
              '(j, reg) ← match dbg_image with
                | Some img =>
                    '(j, reg) ← GdbJitImageRegistration_register (js_jit st) image_box.1
                      (image_box.2, zlen img);
                    Ret (j, Some reg)
                | None => Ret (js_jit st, None)
                end;
              Ret (mkJitState σ traps j c,
                   Ok (mkRawCompiledModule (mt_module translation) finished_functions imports
                         (data_initializers translation) (map mkVMSharedSignatureIndex ids) reg))
          end
      end
  end.

Definition from_parts (module : Module_) (global_exports : Z) (finished_functions : list Z)
    (imports : Imports) (data_initializers : list OwnedDataInitializer)
    (signatures : list VMSharedSignatureIndex) (dbg : option GdbJitImageRegistration)
    : CompiledModule :=
  mkCompiledModule module finished_functions imports data_initializers signatures global_exports dbg.

Definition CompiledModule_new (st : jit_state) (data : list Z) (resolver : R) (global_exports : Z)
    (debug_info : bool) (image_box : Z * Z) : res (jit_state * result CompiledModule SetupError) :=
  '(st, r) ← RawCompiledModule_new st data resolver debug_info image_box;
  match r with
  | Err e => Ret (st, Err e)
  | Ok raw =>
      Ret (st, Ok (from_parts (raw_module raw) global_exports (raw_finished_functions raw)
        (raw_imports raw) (map OwnedDataInitializer_new (raw_data_initializers raw))
        (raw_signatures raw) (raw_dbg_jit_registration raw)))
  end.

(** [CompiledModule::instantiate]: cloning the imports clones their handles. *)
Definition CompiledModule_instantiate (σ : rt) (table_ptr : nat → Z) (self : CompiledModule)
    : res (rt * result Z InstantiationError) :=
  let data_initializers :=
    map (λ init, mkDataInitializer (odi_location init) (odi_data init)) (cm_data_initializers self) in
  σ ← foldM handle_clone σ (elements (im_dependencies (cm_imports self)));
  InstanceHandle_new wasmtime_call builtins σ table_ptr (cm_module self) (cm_global_exports self)
    (cm_finished_functions self) (cm_imports self) data_initializers (cm_signatures self).

Definition instantiate (st : jit_state) (data : list Z) (resolver : R) (global_exports : Z)
    (debug_info : bool) (image_box : Z * Z) (table_ptr : nat → Z)
    : res (jit_state * result Z SetupError) :=
  '(st, r) ← RawCompiledModule_new st data resolver debug_info image_box;
  match r with
  | Err e => Ret (st, Err e)
  | Ok raw =>
      '(σ, r) ← InstanceHandle_new wasmtime_call builtins (js_rt st) table_ptr (raw_module raw)
        global_exports (raw_finished_functions raw) (raw_imports raw) (raw_data_initializers raw)
        (raw_signatures raw);
      let st := mkJitState σ (js_traps st) (js_jit st) (js_compiler st) in
      Ret (st, match r with Ok a => Ok a | Err e => Err (SetupInstantiate e) end)
  end.
End instantiate.
