(* ===== verification/JitProofs.v ===== *)
(** * Properties of the compiler driver

    The invariant of a compiler -- its code memory, the traps that it has registered and
    its signatures -- and what compiling a module does to it. *)

From S2P Require Import Prelude Environ ModuleEnv VMOffsets Store Registry Memory VMContext.
From S2P Require Import Table Instance Link CodeMemory JitInt Jit.
Local Open Scope Z_scope.

(** ** Where new code goes *)

Notation in_block b x := (b.1 ≤ x < b.1 + zlen b.2).

Section blocks.
Context `{OSLaws}.
Set Default Proof Using "Type*".

(** A mapping of the code memory is one that it had, or a fresh one. *)
Lemma allocate_mmaps w cm size w' cm' r :
  0 ≤ size → allocate w cm size = Ret (w', cm', r) →
  ∀ m, m ∈ mmaps cm' ++ [current cm'] →
    m ∈ mmaps cm ++ [current cm] ∨
    mm_ptr m + mm_len m ≤ 2 ^ 64 ∧ ∀ x, in_mmap m x → w_prot w x = None.
Proof.
  intros Hs E m Hm. unfold allocate in E. apply bind_Ret in E as (left & _ & E).
  apply bind_Ret in E as ([[w1 cm1] r1] & E1 & E).
  assert (m ∈ mmaps cm1 ++ [current cm1]) as Hm1.
  { destruct r1 as [[]|]; [|by simplify_eq]. apply bind_Ret in E as (np & _ & E).
    apply bind_Ret in E as ([] & _ & E). by simplify_eq. }
  destruct (left <? size); [|simplify_eq; by left].
  apply bind_Ret in E1 as ([w2 r2] & E2 & E1). apply with_at_least_spec in E2; [|lia].
  destruct r2 as [m2|e]; simplify_eq; [|by left]. cbn in Hm1. destruct E2 as [_ Hf].
  apply elem_of_app in Hm1 as [Hm1|Hm1%list_elem_of_singleton]; [by left|].
  subst m. right. split; [apply Hf|]. intros x Hx. by apply (fm_inside _ _ _ _ Hf x).
Qed.

(** The range that [allocate] returns is in no block. *)
Lemma allocate_fresh w cm pub open size w' cm' p b x :
  cm_inv w cm pub open → 0 ≤ size → allocate w cm size = Ret (w', cm', Ok p) →
  p ≤ x < p + size → b ∈ pub ++ open → ¬ in_block b x.
Proof.
  intros Hc Hs E Hx Hb Hin. destruct (allocate_spec _ _ _ _ _ _ _ _ Hc Hs E) as (_ & Hc' & Hlo & Hhi & Ho).
  pose proof Hc' as [Hpos _ Hd _ _ Hpu _].
  assert (in_mmap (current cm') x) as Hcur by lia.
  assert (∀ i m, mmaps cm' !! i = Some m → in_mmap m x → False) as Hother.
  { intros i m Hi Hm. apply lookup_lt_Some in Hi as Hlt.
    enough (i = length (mmaps cm')) by lia.
    eapply (Hd i (length (mmaps cm')) m (current cm') x); [by apply lookup_app_l_Some| |done|done].
    apply list_lookup_middle. done. }
  apply elem_of_app in Hb as [Hb|Hb].
  - destruct (Hpu b Hb) as (_ & i & m & Hi & _ & Hbl). eapply Hother; [exact Hi|].
    by eapply block_in_mmap.
  - destruct (Ho b Hb) as [(m & Hm & Hbl)|Hbl].
    + apply list_elem_of_lookup in Hm as [i Hi]. eapply Hother; [exact Hi|]. by eapply block_in_mmap.
    + unfold block_in in Hbl. lia.
Qed.

(** The slices are copied one after another. *)
Lemma copy_slices_order slices m tail m' bs :
  copy_slices m tail slices = (m', bs) →
  ∀ i j bi bj, (i < j)%nat → bs !! i = Some bi → bs !! j = Some bj → bi.1 + zlen bi.2 ≤ bj.1.
Proof.
  revert m tail m' bs; induction slices as [|sl slices IH]; intros m tail m' bs E; cbn in E.
  { by simplify_eq. }
  destruct (copy_slices _ _ slices) as [m1 bs1] eqn:E1. simplify_eq.
  intros i j bi bj Hij Hi Hj. destruct j as [|j]; [lia|]. cbn in Hj. destruct i as [|i]; cbn in Hi.
  - simplify_eq. apply copy_slices_spec in E1 as (_ & Hb & _).
    apply list_elem_of_lookup_2 in Hj. apply Hb in Hj. cbn. lia.
  - eapply (IH _ _ _ _ E1 i j); [lia|done|done].
Qed.

(** What [allocate_functions] returns: a block for each function, disjoint from each
    other, from the older blocks, and from what others have mapped. *)
Lemma allocate_functions_ok w cm pub open compilation w' cm' allocated :
  cm_inv w cm pub open → allocate_functions w cm compilation = Ret (w', cm', Ok allocated) →
  ∃ blocks, cm_inv w' cm' pub (open ++ blocks) ∧
    allocated = map (λ b, (b.1, zlen b.2)) blocks ∧
    map snd blocks = map cj_body (compiled_functions compilation) ∧
    (∀ i j bi bj x, blocks !! i = Some bi → blocks !! j = Some bj →
       in_block bi x → in_block bj x → i = j) ∧
    (∀ b b' x, b ∈ blocks → b' ∈ pub ++ open → in_block b x → in_block b' x → False) ∧
    (∀ x, w_prot w x ≠ None → w_prot w' x ≠ None) ∧
    (∀ m, m ∈ mmaps cm' ++ [current cm'] → m ∈ mmaps cm ++ [current cm] ∨
       mm_ptr m + mm_len m ≤ 2 ^ 64 ∧ ∀ x, in_mmap m x → w_prot w x = None) ∧
    (∀ b, b ∈ blocks → ∀ x, in_block b x → in_mmap (current cm') x).
Proof.
  intros Hc E. unfold allocate_functions in E. apply bind_Ret in E as ([[w1 cm1] r1] & E1 & E).
  destruct r1 as [blocks|]; simplify_eq. exists blocks.
  assert (code_step (w, cm) (CopySlices (map cj_body (compiled_functions compilation)))
    = Ret (w', cm', blocks)) as Hstep by (cbn; by rewrite E1).
  apply (code_step_spec _ _ _ _ _ _ _ _ Hc) in Hstep.
  unfold allocate_copy_of_byte_slices in E1. apply bind_Ret in E1 as (n & ->%total_len_spec & E1).
  apply bind_Ret in E1 as ([[w2 cm2] r2] & E2 & E1). destruct r2 as [p|]; [|done].
  destruct (copy_slices (w_mem w2) p _) as [m' bs] eqn:Ec. simplify_eq.
  pose proof (copy_slices_order _ _ _ _ _ Ec) as Hord.
  pose proof (copy_slices_spec _ _ _ _ _ Ec) as (_ & Hb & Hsnd).
  pose proof (zlen_nonneg (concat (map cj_body (compiled_functions compilation)))) as Hnn.
  destruct (allocate_spec _ _ _ _ _ _ _ _ Hc Hnn E2) as (Hpres & Hc2 & Hlo & Hhi & _).
  split_and!; try done.
  - intros i j bi bj x Hi Hj Hxi Hxj. destruct (Nat.lt_total i j) as [Hlt|[->|Hlt]]; [|done|].
    + pose proof (Hord i j bi bj Hlt Hi Hj). lia.
    + pose proof (Hord j i bj bi Hlt Hj Hi). lia.
  - intros b b' x Hin Hin' Hx Hx'. destruct (Hb b Hin) as (? & ? & _).
    by eapply (allocate_fresh w cm pub open _ _ _ p b' x Hc Hnn E2); [lia| |].
  - intros x Hx. cbn. destruct (Hpres x Hx) as [_ ->]. done.
  - apply (allocate_mmaps _ _ _ _ _ _ Hnn E2).
  - intros b Hin x Hx. destruct (Hb b Hin) as (? & ? & _). pose proof (ci_position _ _ _ _ Hc2). lia.
Qed.
End blocks.

(** ** Registering traps *)

Definition trap_desc (t : TrapInformation) : TrapDescription :=
  mkTrapDescription (tr_source_loc t) (tr_trap_code t).

Lemma register_list_ok registry guards l :
  NoDup (map fst l) → (∀ a, a ∈ map fst l → traps registry !! a = None ∧ a < 2 ^ 64) →
  ∃ registry', register_list registry guards l = (registry', Ret (guards ++ map fst l)) ∧
    poisoned registry' = poisoned registry ∧
    (∀ a t, (a, t) ∈ l → traps registry' !! a = Some (trap_desc t)) ∧
    (∀ a, a ∉ map fst l → traps registry' !! a = traps registry !! a).
Proof.
  revert registry guards; induction l as [|[a t] l IH]; intros registry guards Hnd Hfree; cbn.
  { exists registry. rewrite app_nil_r. split_and!; [done..|by intros ? ? ?%elem_of_nil|done]. }
  cbn in Hnd. apply NoDup_cons in Hnd as [Hni Hnd].
  destruct (Hfree a) as [Ha Hlt]; [by left|]. rewrite (proj2 (Z.ltb_lt _ _) Hlt), Ha.
  edestruct (IH (mkTrapRegistry (<[a := trap_desc t]> (traps registry)) (poisoned registry))
    (guards ++ [a]) Hnd) as (registry' & E & Hp & Hin & Hout).
  { intros a' Ha'. cbn. rewrite lookup_insert_ne by (by intros ->). apply Hfree. by right. }
  exists registry'. split; [etrans; [exact E|by rewrite <-app_assoc]|]. split; [done|]. split.
  - intros a' t' [[= -> ->]|Hin']%elem_of_cons; [|by apply Hin].
    rewrite Hout by done. apply lookup_insert_eq.
  - intros a' [Hne Hni']%not_elem_of_cons. rewrite Hout by done. by apply lookup_insert_ne.
Qed.

Lemma NoDup_concat_intro {A} (ls : list (list A)) :
  (∀ l, l ∈ ls → NoDup l) →
  (∀ i j li lj x, ls !! i = Some li → ls !! j = Some lj → x ∈ li → x ∈ lj → i = j) →
  NoDup (concat ls).
Proof.
  induction ls as [|l ls IH]; intros Hl Hd; cbn; [apply NoDup_nil_2|]. apply NoDup_app. split_and!.
  - apply Hl. by left.
  - intros x Hx Hin. apply list_elem_of_In, in_concat in Hin as (l' & Hl' & Hx').
    apply list_elem_of_In in Hl', Hx'. apply list_elem_of_lookup in Hl' as [j Hj].
    by specialize (Hd 0%nat (S j) l l' x eq_refl Hj Hx Hx').
  - apply IH; [intros; apply Hl; by right|]. intros i j li lj x Hi Hj Hx Hx'.
    specialize (Hd (S i) (S j) li lj x Hi Hj Hx Hx'). lia.
Qed.

(** The traps of a back end lie in the bodies, at distinct offsets. *)
Definition traps_ok (compilation : Compilation) (traps : list (list TrapInformation)) : Prop :=
  ∀ i f ts, compiled_functions compilation !! i = Some f → traps !! i = Some ts →
    NoDup (map tr_code_offset ts) ∧ Forall (λ t, 0 ≤ tr_code_offset t < zlen (cj_body f)) ts.

Lemma trap_list_elem allocated traps a t :
  (a, t) ∈ trap_list allocated traps ↔
  ∃ (i : nat) f ts, allocated !! i = Some f ∧ traps !! i = Some ts ∧ t ∈ ts ∧ a = f.1 + tr_code_offset t.
Proof.
  unfold trap_list. rewrite list_elem_of_In, in_concat. split.
  - intros (l & Hl & Hat). apply list_elem_of_In, list_elem_of_lookup in Hl as [i Hi].
    apply lookup_zip_with_Some in Hi as (f & ts & -> & Hf & Hts).
    apply list_elem_of_In, list_elem_of_fmap in Hat as (t' & [= -> ->] & Ht). by exists i, f, ts.
  - intros (i & f & ts & Hf & Hts & Ht & ->). eexists. split.
    + apply list_elem_of_In. eapply (list_elem_of_lookup_2 _ i). apply lookup_zip_with_Some.
      by exists f, ts.
    + apply list_elem_of_In. apply list_elem_of_fmap. by exists t.
Qed.

Lemma map_concat {A B} (f : A → B) ls : map f (concat ls) = concat (map (map f) ls).
Proof. induction ls; [done|]. cbn. rewrite map_app. by f_equal. Qed.

Section traps.
Context (compilation : Compilation) (ts : list (list TrapInformation)) (blocks : list (Z * list Z)).
Context (Hok : traps_ok compilation ts).
Context (Hsnd : map snd blocks = map cj_body (compiled_functions compilation)).
Context (Hdis : ∀ i j bi bj x, blocks !! i = Some bi → blocks !! j = Some bj →
  in_block bi x → in_block bj x → i = j).
Set Default Proof Using "Type*".
Let allocated := map (λ b, (b.1, zlen b.2)) blocks.

(** A trap lies in the block of its function. *)
Lemma trap_in_block i f (l : list TrapInformation) t :
  allocated !! i = Some f → ts !! i = Some l → t ∈ l →
  ∃ b, blocks !! i = Some b ∧ b.1 = f.1 ∧ in_block b (f.1 + tr_code_offset t).
Proof.
  intros Hf Hl Ht. subst allocated. rewrite list_lookup_fmap in Hf. apply fmap_Some in Hf as (b & Hb & ->).
  exists b. split; [done|]. split; [done|]. cbn.
  assert (map snd blocks !! i = Some b.2) as Hs by (rewrite list_lookup_fmap, Hb; done).
  rewrite Hsnd, list_lookup_fmap in Hs. apply fmap_Some in Hs as (g & Hg & Hgb).
  destruct (Hok i g l Hg Hl) as [_ Ho]. rewrite Forall_forall in Ho. specialize (Ho t Ht). cbn in Ho.
  rewrite Hgb. lia.
Qed.

Lemma trap_list_nodup : NoDup (map fst (trap_list allocated ts)).
Proof.
  unfold trap_list. rewrite map_concat. apply NoDup_concat_intro.
  - intros l Hl. apply list_elem_of_fmap in Hl as (l0 & -> & Hl0).
    apply list_elem_of_lookup in Hl0 as [i Hi].
    apply lookup_zip_with_Some in Hi as (f & tsi & -> & Hf & Hts). rewrite map_map. cbn.
    subst allocated. rewrite list_lookup_fmap in Hf. apply fmap_Some in Hf as (b & Hb & ->).
    assert (map snd blocks !! i = Some b.2) as Hs by (rewrite list_lookup_fmap, Hb; done).
    rewrite Hsnd, list_lookup_fmap in Hs. apply fmap_Some in Hs as (g & Hg & Hgb).
    destruct (Hok i g tsi Hg Hts) as [Hnd _].
    rewrite <-(map_map tr_code_offset (λ o, b.1 + o)). apply NoDup_fmap_2; [|done].
    intros ? ? ?. lia.
  - intros i j li lj x Hi Hj Hx Hx'. rewrite list_lookup_fmap in Hi, Hj.
    apply fmap_Some in Hi as (l1 & Hi & ->), Hj as (l2 & Hj & ->).
    apply lookup_zip_with_Some in Hi as (f1 & ts1 & -> & Hf1 & Ht1).
    apply lookup_zip_with_Some in Hj as (f2 & ts2 & -> & Hf2 & Ht2).
    rewrite map_map in Hx, Hx'. apply list_elem_of_fmap in Hx as (t1 & -> & Hin1).
    apply list_elem_of_fmap in Hx' as (t2 & E & Hin2). cbn in E.
    destruct (trap_in_block i f1 ts1 t1 Hf1 Ht1 Hin1) as (b1 & Hb1 & _ & Hx1).
    destruct (trap_in_block j f2 ts2 t2 Hf2 Ht2 Hin2) as (b2 & Hb2 & _ & Hx2). cbn in E.
    rewrite <-E in Hx2. by eapply Hdis.
Qed.
End traps.

(** ** Dropping a compiler *)

Lemma drop_guards_ok registry guards :
  poisoned registry = false → NoDup guards → (∀ g, g ∈ guards → is_Some (traps registry !! g)) →
  ∃ registry', drop_guards registry guards = (registry', Ret tt) ∧ poisoned registry' = false ∧
    (∀ a, a ∈ guards → traps registry' !! a = None) ∧
    (∀ a, a ∉ guards → traps registry' !! a = traps registry !! a).
Proof.
  revert registry; induction guards as [|g guards IH]; intros registry Hp Hnd Hreg.
  { exists registry. split_and!; [done..|by intros ? ?%elem_of_nil|done]. }
  apply NoDup_cons in Hnd as [Hni Hnd]. destruct (Hreg g) as [d Hd]; [by left|]. cbn.
  unfold guard_drop, with_mut_trap_registry. rewrite Hp. cbn. rewrite Hd.
  destruct (IH (mkTrapRegistry (delete g (traps registry)) false)) as (registry' & E & Hp' & Hin & Hout);
    [done|done| |].
  { intros g' Hg'. cbn. rewrite lookup_delete_ne by (by intros ->). apply Hreg. by right. }
  exists registry'. split; [by rewrite Hp|]. split; [done|]. split.
  - intros a [->|Ha]%elem_of_cons; [|by apply Hin]. rewrite Hout by done. apply lookup_delete_eq.
  - intros a [Hne Hni']%not_elem_of_cons. rewrite Hout by done. by apply lookup_delete_ne.
Qed.

(** ** The invariant *)

(** A compiler with the blocks [pub] (published) and [open], in a process in which
    others have registered traps at the addresses [others], in memory of their own. *)
Record compiler_inv `{OS} (w : world) (registry : TrapRegistry) (c : Compiler)
    (pub open : list (Z * list Z)) (others : gset Z) : Prop := {
  ki_code : cm_inv w (code_memory c) pub open;
  ki_range : ∀ m, m ∈ mmaps (code_memory c) ++ [current (code_memory c)] → mm_ptr m + mm_len m ≤ 2 ^ 64;
  ki_sigs : registry_inv (c_registry c);
  ki_live : poisoned registry = false;
  ki_nodup : NoDup (trap_registration_guards c);
  ki_traps : ∀ a, is_Some (traps registry !! a) ↔ a ∈ trap_registration_guards c ∨ a ∈ others;
  ki_blocks : ∀ a, a ∈ trap_registration_guards c → ∃ b, b ∈ pub ++ open ∧ in_block b a;
  ki_others : ∀ a, a ∈ others → w_prot w a ≠ None ∧
    ∀ m, m ∈ mmaps (code_memory c) ++ [current (code_memory c)] → ¬ in_mmap m a;
}.

Section compiler_laws.
Context `{OSLaws} `{JitTools}.
Set Default Proof Using "Type*".

(** A block of the code memory lies in one of its mappings. *)
Lemma block_mmap w cm pub open b x :
  cm_inv w cm pub open → b ∈ pub ++ open → in_block b x →
  ∃ m, m ∈ mmaps cm ++ [current cm] ∧ in_mmap m x.
Proof.
  intros Hc Hb Hx. apply elem_of_app in Hb as [Hb|Hb].
  - destruct (ci_pub _ _ _ _ Hc b Hb) as (_ & i & m & Hi & _ & Hbl). exists m.
    split; [apply list_elem_of_lookup_2 in Hi; set_solver|by eapply block_in_mmap].
  - destruct (ci_open _ _ _ _ Hc b Hb) as (_ & [(m & Hm & Hbl)|Hbl]).
    + exists m. split; [set_solver|by eapply block_in_mmap].
    + exists (current cm). split; [set_solver|]. eapply block_in_mmap; [done|apply Hc|done].
Qed.

Lemma compiler_inv_new w windows s others registry :
  poisoned registry = false → (∀ a, is_Some (traps registry !! a) ↔ a ∈ others) →
  (∀ a, a ∈ others → w_prot w a ≠ None) →
  compiler_inv w registry (Compiler_new windows s) [] [] others.
Proof.
  intros Hp Ht Ho. split; cbn; try done.
  - apply cm_inv_new.
  - intros m ->%list_elem_of_singleton. cbn. lia.
  - apply NoDup_nil_2.
  - intros a. rewrite Ht. split; [by right|]. by intros [?%elem_of_nil|].
  - by intros a ?%elem_of_nil.
  - intros a Ha. split; [by apply Ho|]. intros m ->%list_elem_of_singleton. cbn. lia.
Qed.

(** Dropping a compiler leaves the traps of the others. *)
Lemma compiler_drop_ok w registry c pub open others :
  compiler_inv w registry c pub open others →
  ∃ registry', Compiler_drop registry c = (registry', Ret tt) ∧ poisoned registry' = false ∧
    ∀ a, traps registry' !! a = if decide (a ∈ others) then traps registry !! a else None.
Proof.
  intros [Hc _ _ Hp Hnd Ht Hb Ho].
  destruct (drop_guards_ok registry (trap_registration_guards c) Hp Hnd) as (registry' & E & Hp' & Hin & Hout).
  { intros g Hg. apply Ht. by left. }
  exists registry'. split; [done|]. split; [done|]. intros a.
  destruct (decide (a ∈ trap_registration_guards c)) as [Hg|Hg].
  - rewrite Hin by done. destruct (decide (a ∈ others)) as [Hoth|]; [|done].
    destruct (Hb a Hg) as (b & Hb' & Hx). destruct (block_mmap _ _ _ _ _ _ Hc Hb' Hx) as (m & Hm & Hxm).
    by destruct (proj2 (Ho a Hoth) m Hm Hxm).
  - rewrite Hout by done. destruct (decide (a ∈ others)) as [|Hno]; [done|].
    apply eq_None_not_Some. intros [|]%Ht; done.
Qed.

(** The functions have been allocated: registering their traps succeeds. *)
Lemma register_traps_ok w registry c pub open others compilation ts w' cm' allocated :
  compiler_inv w registry c pub open others →
  allocate_functions w (code_memory c) compilation = Ret (w', cm', Ok allocated) →
  traps_ok compilation ts →
  ∃ blocks registry' guards,
    register_traps registry allocated ts (trap_registration_guards c) = (registry', Ret guards) ∧
    allocated = map (λ b, (b.1, zlen b.2)) blocks ∧
    map snd blocks = map cj_body (compiled_functions compilation) ∧
    compiler_inv w' registry' (set_guards (set_code_memory c cm') guards) pub (open ++ blocks) others ∧
    (∀ a t, (a, t) ∈ trap_list allocated ts → traps registry' !! a = Some (trap_desc t)) ∧
    (∀ a d, traps registry !! a = Some d → traps registry' !! a = Some d).
Proof.
  intros [Hc Hr Hsg Hp Hnd Ht Hb Ho] E Hok.
  destruct (allocate_functions_ok _ _ _ _ _ _ _ _ Hc E)
    as (blocks & Hc' & -> & Hsnd & Hdis & Hold & Hprot & Hmm & Hcur).
  assert (∀ a t, (a, t) ∈ trap_list (map (λ b, (b.1, zlen b.2)) blocks) ts →
    ∃ b, b ∈ blocks ∧ in_block b a) as Hin.
  { intros a t (i & f & l & Hf & Hl & Htl & ->)%trap_list_elem.
    destruct (trap_in_block compilation ts blocks Hok Hsnd Hdis i f l t Hf Hl Htl) as (b & Hbi & _ & Hx).
    exists b. split; [by eapply list_elem_of_lookup_2|done]. }
  assert (∀ m, m ∈ mmaps cm' ++ [current cm'] → mm_ptr m + mm_len m ≤ 2 ^ 64) as Hr'.
  { intros m Hm. destruct (Hmm m Hm) as [Hm'|[Hm' _]]; [by apply Hr|done]. }
  assert (∀ a, a ∈ others → ∀ m, m ∈ mmaps cm' ++ [current cm'] → ¬ in_mmap m a) as Ho'.
  { intros a Ha m Hm Hx. destruct (Ho a Ha) as [Hpa Hna].
    destruct (Hmm m Hm) as [Hm'|[_ Hm']]; [by apply (Hna m)|by apply Hpa, Hm']. }
  assert (∀ a, a ∈ map fst (trap_list (map (λ b, (b.1, zlen b.2)) blocks) ts) →
    traps registry !! a = None ∧ a < 2 ^ 64) as Hfree.
  { intros a Ha. apply list_elem_of_fmap in Ha as ([a' t] & -> & Hat).
    destruct (Hin a' t Hat) as (b & Hbb & Hx). cbn. pose proof (Hcur b Hbb a' Hx) as Hxc. split.
    - apply eq_None_not_Some. intros [Hg|Hoth]%Ht.
      + destruct (Hb a' Hg) as (b' & Hb' & Hx'). by eapply Hold.
      + by apply (Ho' a' Hoth (current cm')); [set_solver|].
    - assert (current cm' ∈ mmaps cm' ++ [current cm']) as Hl%Hr' by set_solver. lia. }
  pose proof (trap_list_nodup compilation ts blocks Hok Hsnd Hdis) as Hndl.
  destruct (register_list_ok registry (trap_registration_guards c) _ Hndl Hfree)
    as (registry' & E' & Hp' & Hnew & Hout).
  exists blocks, registry'. eexists. unfold register_traps. rewrite Hp. split; [exact E'|].
  assert (∀ a, a ∈ trap_registration_guards c →
    a ∉ map fst (trap_list (map (λ b, (b.1, zlen b.2)) blocks) ts)) as Hsep.
  { intros a Ha Hina. destruct (Hfree a Hina) as [Hn _].
    assert (is_Some (traps registry !! a)) as [? Hs] by (apply Ht; by left). congruence. }
  split_and!; [done|done| |done|].
  - split; cbn; try done.
    + by rewrite Hp'.
    + apply NoDup_app. split_and!; [done| |done]. intros a Ha Hina. by apply (Hsep a Ha).
    + intros a. rewrite elem_of_app.
      destruct (decide (a ∈ map fst (trap_list (map (λ b, (b.1, zlen b.2)) blocks) ts))) as [Hi|Hi].
      * split; [tauto|]. intros _. apply list_elem_of_fmap in Hi as ([a' t] & -> & Hat). cbn.
        rewrite (Hnew a' t Hat). by eexists.
      * rewrite Hout, Ht by done. tauto.
    + intros a [Ha|Ha]%elem_of_app.
      * destruct (Hb a Ha) as (b & Hb' & Hx). exists b. set_solver.
      * apply list_elem_of_fmap in Ha as ([a' t] & -> & Hat). destruct (Hin a' t Hat) as (b & Hbb & Hx).
        exists b. set_solver.
    + intros a Ha. split; [by apply Hprot, Ho|by apply Ho'].
  - intros a d Hd. rewrite Hout; [done|]. intros Hina. destruct (Hfree a Hina) as [Hn _]. congruence.
Qed.

(** C15: compiling a module keeps a compiler sound: when the back end succeeds, with
    traps at distinct offsets in its functions, the code can be allocated and the image
    for the debugger, if it is wanted, can be asked for, [compile] returns, with an error
    only if that image could not be made; every function of the compilation has an
    address, where its bytes are, each of its traps is found in the process-wide registry
    at the address of the instruction, no other registration is lost (no address is
    registered twice, which would make the registry panic and poison its lock), and the
    compiler can be dropped at any time after that, which removes all its traps and leaves
    those of other compilers. *)
Theorem compile_registers_traps w registry c pub open others module inputs debug_data info w' cm' allocated dbg
    (Hinv : compiler_inv w registry c pub open others)
    (Hback : let debug := match debug_data with Some _ => true | None => false end in
             match strategy c with
             | Auto | CraneliftStrategy => cranelift_compile_module module inputs debug
             | LightbeamStrategy => lightbeam_compile_module module inputs debug
             end = Ret (Ok info))
    (Hok : traps_ok (ci_compilation info) (ci_traps info))
    (Halloc : allocate_functions w (code_memory c) (ci_compilation info) = Ret (w', cm', Ok allocated))
    (Hdbg : debug_image module info allocated debug_data = Ret dbg) :
  ∃ registry' c' blocks,
    compile w registry c module inputs debug_data = Ret (w', registry', c',
      match dbg with
      | Ok image => Ok (allocated, get_jt_offsets (ci_compilation info), ci_relocations info, image)
      | Err e => Err e
      end) ∧
    compiler_inv w' registry' c' pub (open ++ blocks) others ∧
    length allocated = length (compiled_functions (ci_compilation info)) ∧
    (∀ i f, compiled_functions (ci_compilation info) !! i = Some f →
       ∃ a, allocated !! i = Some (a, zlen (cj_body f)) ∧
         load_bytes (w_mem w') a (zlen (cj_body f)) = cj_body f ∧
         ∀ ts t, ci_traps info !! i = Some ts → t ∈ ts →
           read_trap registry' (a + tr_code_offset t) = Ret (Some (trap_desc t))) ∧
    (∀ a d, traps registry !! a = Some d → traps registry' !! a = Some d) ∧
    ∃ registry'', Compiler_drop registry' c' = (registry'', Ret tt) ∧
      ∀ a, traps registry'' !! a = if decide (a ∈ others) then traps registry !! a else None.
Proof.
  destruct (register_traps_ok _ _ _ _ _ _ _ _ _ _ _ Hinv Halloc Hok)
    as (blocks & registry' & guards & E & Hal & Hsnd & Hinv' & Hnew & Hkeep).
  exists registry', (set_guards (set_code_memory c cm') guards), blocks. unfold compile. cbn zeta in Hback.
  rewrite Hback, bind_Ret_l, Halloc, bind_Ret_l. cbn [set_code_memory trap_registration_guards]. rewrite E.
  cbn [mbind res_mbind]. rewrite Hdbg.
  split; [by destruct dbg|]. split; [done|]. split_and!; [| |done|].
  - rewrite Hal, length_map, <-(length_map snd), Hsnd. by rewrite length_map.
  - intros i f Hf. assert (map snd blocks !! i = Some (cj_body f)) as Hs by (by rewrite Hsnd, list_lookup_fmap, Hf).
    rewrite list_lookup_fmap in Hs. apply fmap_Some in Hs as (b & Hb & ->).
    assert (allocated !! i = Some (b.1, zlen b.2)) as Hi by (by rewrite Hal, list_lookup_fmap, Hb).
    exists b.1. split_and!; [done| |].
    + apply (ci_open _ _ _ _ (ki_code _ _ _ _ _ _ Hinv') b).
      apply elem_of_app. right. by eapply list_elem_of_lookup_2.
    + intros ts t Hts Ht. unfold read_trap. rewrite (ki_live _ _ _ _ _ _ Hinv'). unfold get_trap.
      f_equal. apply Hnew, trap_list_elem. by exists i, (b.1, zlen b.2), ts.
  - destruct (compiler_drop_ok _ _ _ _ _ _ Hinv') as (registry'' & E'' & _ & Hd).
    exists registry''. split; [done|]. intros a. rewrite Hd. destruct (decide (a ∈ others)) as [Ha|]; [|done].
    destruct (proj2 (ki_traps _ _ _ _ _ _ Hinv a) (or_intror Ha)) as [d Hda]. rewrite Hda. by apply Hkeep.
Qed.
End compiler_laws.

(** Two functions, one with a trap. *)
Definition jx_info : CompiledInfo :=
  mkCompiledInfo (Compilation_new [mkCodeAndJTOffsets [1; 2; 3] []; mkCodeAndJTOffsets [4; 5] []]) [] 0
    [[mkTrapInformation 1 77 9]; []].
Definition jx_tools : JitTools := {|
  parse_module _ := Err "no parser";
  cranelift_compile_module _ _ _ := Ret (Ok jx_info);
  lightbeam_compile_module _ _ _ := Ret (Err DebugInfoNotSupported);
  compile_and_emit _ := Ok [195];
  read_debuginfo d := Ret d;
  emit_debugsections_image _ _ _ _ := Ret (Err "no image") |}.

Definition jx_allocated {W C E} (r : res (W * C * result (list (Z * Z)) E)) : list (Z * Z) :=
  match r with Ret (_, _, Ok al) => al | _ => [] end.

Lemma jx_traps_ok : traps_ok (ci_compilation jx_info) (ci_traps jx_info).
Proof.
  intros [|[|i]] f ts Hf Hts; cbn in *; simplify_eq.
  - split; [apply NoDup_singleton|]. repeat constructor; unfold zlen; cbn; lia.
  - split; [apply NoDup_nil_2|constructor].
Qed.
Lemma jx_inv : @compiler_inv toy_os toy_world TrapRegistry_default (Compiler_new false Auto) [] [] ∅.
Proof.
  apply (compiler_inv_new (H := toy_os) (H0 := toy_laws)); [done| |set_solver].
  intros a. cbn. rewrite lookup_empty, elem_of_empty. split; [by intros []|done].
Qed.

Lemma compile_registers_traps_witness :
  ∃ w' registry' c', @compile toy_os jx_tools toy_world TrapRegistry_default (Compiler_new false Auto)
      Module_new [] None = Ret (w', registry', c', Ok ([(2 ^ 40, 3); (2 ^ 40 + 3, 2)], [[]; []], [], None)) ∧
    read_trap registry' (2 ^ 40 + 1) = Ret (Some (mkTrapDescription 77 9)).
Proof.
  assert (Hal : jx_allocated (@allocate_functions toy_os toy_world CodeMemory_new (ci_compilation jx_info))
    = [(2 ^ 40, 3); (2 ^ 40 + 3, 2)]) by (vm_compute; reflexivity).
  destruct (@allocate_functions toy_os toy_world CodeMemory_new (ci_compilation jx_info))
    as [[[w' cm'] [al|e]]|] eqn:E; cbn in Hal; [|discriminate..]. subst al.
  destruct (@compile_registers_traps toy_os toy_laws jx_tools toy_world TrapRegistry_default
    (Compiler_new false Auto) [] [] ∅ Module_new [] None jx_info w' cm' _ _
    jx_inv
    eq_refl jx_traps_ok E eq_refl) as (registry' & c' & blocks & Ec & _ & _ & Hf & _).
  exists w', registry', c'. split; [exact Ec|].
  destruct (Hf 0%nat _ eq_refl) as (a & [= <-] & _ & Ht).
  apply (Ht [mkTrapInformation 1 77 9] (mkTrapInformation 1 77 9)); [done|by left].
Defined.
