(* ===== verification/Action.v ===== *)
(** * Actions on instances

    Models [wasmtime-jit/src/action.rs] (calling an exported function with values,
    reading memories and globals from the outside) and [context.rs] (the embedding's
    context: a namespace of instances and a compiler). *)

From S2P Require Import Prelude Environ ModuleEnv VMOffsets Store Registry Memory VMContext.
From S2P Require Import Table Instance Link CodeMemory JitInt Jit.
From stdpp Require Import pretty.
Local Open Scope Z_scope.

(** ** Values *)

(** Integers are signed, floats their bits, vectors their bytes. *)
Inductive RuntimeValue :=
| RV_I32 (x : Z)
| RV_I64 (x : Z)
| RV_F32 (x : Z)
| RV_F64 (x : Z)
| RV_V128 (x : list Z).

Definition rv_type (v : RuntimeValue) : ir_type :=
  match v with
  | RV_I32 _ => I32 | RV_I64 _ => I64 | RV_F32 _ => F32 | RV_F64 _ => F64 | RV_V128 _ => I8X16
  end.

Definition unwrap_i32 (v : RuntimeValue) : res Z := match v with RV_I32 x => Ret x | _ => Panic end.
Definition unwrap_i64 (v : RuntimeValue) : res Z := match v with RV_I64 x => Ret x | _ => Panic end.
Definition unwrap_f32_bits (v : RuntimeValue) : res Z := match v with RV_F32 x => Ret x | _ => Panic end.
Definition unwrap_f64_bits (v : RuntimeValue) : res Z := match v with RV_F64 x => Ret x | _ => Panic end.

(** [{:?}] of a vector of bytes. *)
Fixpoint show_bytes (l : list Z) : string :=
  match l with
  | [] => ""
  | [x] => pretty x
  | x :: l => (pretty x +:+ ", " +:+ show_bytes l)%string
  end.
(** [Display for RuntimeValue] *)
Definition show_value (v : RuntimeValue) : string :=
  match v with
  | RV_I32 x => (pretty x +:+ ": i32")%string
  | RV_I64 x => (pretty x +:+ ": i64")%string
  | RV_F32 x => (pretty x +:+ ": f32")%string
  | RV_F64 x => (pretty x +:+ ": f64")%string
  | RV_V128 x => ("[" +:+ show_bytes x +:+ "]: v128")%string
  end.

(** The values that the fields of [RuntimeValue] can have. *)
Definition rv_ok (v : RuntimeValue) : Prop :=
  match v with
  | RV_I32 x => - 2 ^ 31 ≤ x < 2 ^ 31
  | RV_I64 x => - 2 ^ 63 ≤ x < 2 ^ 63
  | RV_F32 x => 0 ≤ x < 2 ^ 32
  | RV_F64 x => 0 ≤ x < 2 ^ 64
  | RV_V128 x => length x = 16%nat
  end.

(** ** Slots: [VMInvokeArgument], sixteen bytes *)

Notation slot := (list Z).
Definition VMInvokeArgument_new : slot := replicate 16 0.
Definition value_size : Z := 16.

(** [ptr::write] of a value at a slot: the bytes after it stay. *)
Definition value_bytes (v : RuntimeValue) : list Z :=
  match v with
  | RV_I32 x | RV_F32 x => le_bytes 4 x
  | RV_I64 x | RV_F64 x => le_bytes 8 x
  | RV_V128 x => x
  end.
Definition write_value (s : slot) (v : RuntimeValue) : slot :=
  value_bytes v ++ drop (length (value_bytes v)) s.

(** [ptr::read] by the type. *)
Definition read_value (s : slot) (ty : ir_type) : res RuntimeValue :=
  match ty with
  | I32 => Ret (RV_I32 (wrap_s 32 (le_val (take 4 s))))
  | I64 => Ret (RV_I64 (wrap_s 64 (le_val (take 8 s))))
  | F32 => Ret (RV_F32 (le_val (take 4 s)))
  | F64 => Ret (RV_F64 (le_val (take 8 s)))
  | I8X16 => Ret (RV_V128 (take 16 s))
  | ir_other _ => Panic
  end.

(** ** Invoking *)

Inductive ActionOutcome :=
| Returned (values : list RuntimeValue)
| Trapped (message : string).

Inductive ActionError :=
| ActionSetup (e : SetupError)
| ActionField (message : string)
| ActionKind (message : string)
| ActionType (message : string).

Definition quoted (before name after : string) : string :=
  (before +:+ String (Ascii.ascii_of_nat 34) name +:+ String (Ascii.ascii_of_nat 34) after)%string.

(** [assert_eq!(value.value_type(), signature.params[index + 1].value_type)] for each
    argument. *)
Definition check_args (signature : Signature) (args : list RuntimeValue) : res unit :=
  _ ← mapR (λ '(index, value),
        p ← zindex (params signature) (Z.of_nat index + 1);
        rassert (bool_decide (rv_type value = value_type p))) (imap pair args);
  Ret tt.

Definition store_args (values_vec : list slot) (args : list RuntimeValue) : res (list slot) :=
  foldM (λ v '(index, arg),
    s ← zindex v (Z.of_nat index); zset v (Z.of_nat index) (write_value s arg))
    values_vec (imap pair args).

Definition load_results (signature : Signature) (values_vec : list slot) : res (list RuntimeValue) :=
  mapR (λ '(index, abi_param),
    s ← zindex values_vec (Z.of_nat index); read_value s (value_type abi_param))
    (imap pair (returns signature)).

Section actions.
Context `{OS} `{InstanceLayout} `{JitTools}.
(** [wasmtime_call_trampoline]: enters the code at an address with a context and the
    slots, which it returns with the results. *)
Context (wasmtime_call_trampoline : rt → Z → Z → list slot → res (rt * result (list slot) string)).

Definition invoke (σ : rt) (compiler : Compiler) (instance : Z) (function_name : string)
    (args : list RuntimeValue) : res (rt * Compiler * result ActionOutcome ActionError) :=
  export ← inst_lookup σ instance function_name;
  match export with
  | None => Ret (σ, compiler, Err (ActionField (quoted "no export named " function_name "")))
  | Some (RtFunction address callee_vmctx signature) =>
      _ ← check_args signature args;
      n ← op_sub 64 (zlen (params signature)) 1;
      let values_vec := replicate (Z.to_nat (Z.max n (zlen (returns signature)))) VMInvokeArgument_new in
      values_vec ← store_args values_vec args;
      '(w, compiler, r) ← get_trampoline (rt_world σ) compiler address signature value_size;
      match r with
      | Err e => Ret (with_world σ w, compiler, Err (ActionSetup e))
      | Ok exec_code_buf =>
          '(w, compiler) ← publish_compiled_code w compiler;
          '(σ, r) ← wasmtime_call_trampoline (with_world σ w) callee_vmctx exec_code_buf values_vec;
          match r with
          | Err message => Ret (σ, compiler, Ok (Trapped message))
          | Ok values_vec =>
              values ← load_results signature values_vec;
              Ret (σ, compiler, Ok (Returned values))
          end
      end
  | Some _ =>
      Ret (σ, compiler, Err (ActionKind (quoted "exported item " function_name " is not a function")))
  end.

(** The slice [memory[start .. start + len]] of an exported memory. *)
Definition inspect_memory (σ : rt) (instance : Z) (memory_name : string) (start len : Z)
    : res (result (list Z) ActionError) :=
  export ← inst_lookup σ instance memory_name;
  match export with
  | None => Ret (Err (ActionField (quoted "no export named " memory_name "")))
  | Some (RtMemory definition _ _) =>
      let memory_def := load_val (A := VMMemoryDefinition) (rt_mem σ) definition in
      stop ← op_add 64 start len;
      _ ← rassert (stop <=? md_current_length memory_def);
      Ret (Ok (load_bytes (rt_mem σ) (md_base memory_def + start) len))
  | Some _ => Ret (Err (ActionKind (quoted "exported item " memory_name " is not a linear memory")))
  end.

(** [as_i32], [as_i64], [as_f32_bits] and [as_f64_bits] of the storage. *)
Definition get (show_type : ir_type → string) (σ : rt) (instance : Z) (global_name : string)
    : res (result RuntimeValue ActionError) :=
  export ← inst_lookup σ instance global_name;
  match export with
  | None => Ret (Err (ActionField (quoted "no export named " global_name "")))
  | Some (RtGlobal definition _ global) =>
      let s := storage (load_val (A := VMGlobalDefinition) (rt_mem σ) definition) in
      match global_ty global with
      | I32 => Ret (Ok (RV_I32 (wrap_s 32 (le_val (take 4 s)))))
      | I64 => Ret (Ok (RV_I64 (wrap_s 64 (le_val (take 8 s)))))
      | F32 => Ret (Ok (RV_F32 (le_val (take 4 s))))
      | F64 => Ret (Ok (RV_F64 (le_val (take 8 s))))
      | other =>
          Ret (Err (ActionType ("global with type " +:+ show_type other +:+ " not supported")%string))
      end
  | Some _ => Ret (Err (ActionKind (quoted "exported item " global_name " is not a global variable")))
  end.
End actions.

(** ** [context.rs] *)

Record Features := mkFeatures {
  threads : bool;
  reference_types : bool;
  simd : bool;
  bulk_memory : bool;
  multi_value : bool;
}.
Definition Features_default : Features := mkFeatures false false false false false.

(** [ValidatingParserConfig] *)
Record OperatorValidatorConfig := mkOperatorValidatorConfig {
  enable_threads : bool;
  enable_reference_types : bool;
  enable_simd : bool;
  enable_bulk_memory : bool;
  enable_multi_value : bool;
}.
Definition Features_into (f : Features) : OperatorValidatorConfig :=
  mkOperatorValidatorConfig (threads f) (reference_types f) (simd f) (bulk_memory f) (multi_value f).

(** The compiler of the context is in the [jit_state]; [ctx_global_exports] names the
    shared map. *)
Record Context_ := mkContext {
  ctx_namespace : Namespace;
  ctx_global_exports : Z;
  ctx_debug_info : bool;
  ctx_features : Features;
}.

Inductive ContextError := CtxInstance (instance_name : string) | CtxAction (e : ActionError).

(** [Display] for the errors. *)
Definition show_unknown_instance (instance_name : string) : string :=
  ("no instance " +:+ instance_name +:+ " present")%string.

Section context.
Context `{OS} `{InstanceLayout} `{JitTools}.
Context (abi_special : ir_type → ArgumentPurpose → AbiParam).
Context (builtins : libcalls) (libcall_address : LibCall → Z) (show_link_error : LinkError → string).
Context (wasmtime_call : rt → Z → Z → res (rt * result unit string)).
Context (wasmtime_call_trampoline : rt → Z → Z → list slot → res (rt * result (list slot) string)).
(** [wasmparser::validate] *)
Context (wasm_validate : list Z → OperatorValidatorConfig → result unit string).
Implicit Types (ctx : Context_) (st : jit_state).

Definition Context_new (global_exports : Z) : Context_ :=
  mkContext Namespace_new global_exports false Features_default.
Definition set_debug_info ctx (value : bool) : Context_ :=
  mkContext (ctx_namespace ctx) (ctx_global_exports ctx) value (ctx_features ctx).
Definition with_features ctx (features : Features) : Context_ :=
  mkContext (ctx_namespace ctx) (ctx_global_exports ctx) (ctx_debug_info ctx) features.
Definition with_namespace ctx (n : Namespace) : Context_ :=
  mkContext n (ctx_global_exports ctx) (ctx_debug_info ctx) (ctx_features ctx).
Definition with_rt st (σ : rt) : jit_state := mkJitState σ (js_traps st) (js_jit st) (js_compiler st).

Definition ctx_validate ctx (data : list Z) : result unit string :=
  match wasm_validate data (Features_into (ctx_features ctx)) with
  | Ok _ => Ok tt
  | Err e => Err ("module did not validate: " +:+ e)%string
  end.

Definition ctx_instantiate st ctx (data : list Z) (image_box : Z * Z) (table_ptr : nat → Z)
    : res (jit_state * result Z SetupError) :=
  match ctx_validate ctx data with
  | Err e => Ret (st, Err (SetupValidate e))
  | Ok _ =>
      instantiate abi_special builtins libcall_address show_link_error wasmtime_call st data
        (ctx_namespace ctx) (ctx_global_exports ctx) (ctx_debug_info ctx) image_box table_ptr
  end.

Definition ctx_get_instance ctx (instance_name : string) : result Z ContextError :=
  match get_named_instance (ctx_namespace ctx) instance_name with
  | Some a => Ok a
  | None => Err (CtxInstance instance_name)
  end.

(** [name_instance] takes the handle over. *)
Definition ctx_name_instance st ctx (name : string) (instance : Z) : res (jit_state * Context_) :=
  '(σ, n) ← name_instance (js_rt st) (ctx_namespace ctx) name instance;
  Ret (with_rt st σ, with_namespace ctx n).
Definition optionally_name_instance st ctx (name : option string) (instance : Z)
    : res (jit_state * Context_) :=
  match name with
  | Some name => ctx_name_instance st ctx name instance
  | None =>
      σ ← handle_drop (S (size (rt_insts (js_rt st)))) (js_rt st) instance;
      Ret (with_rt st σ, ctx)
  end.

Definition instantiate_module st ctx (instance_name : option string) (data : list Z)
    (image_box : Z * Z) (table_ptr : nat → Z)
    : res (jit_state * Context_ * result Z ActionError) :=
  '(st, r) ← ctx_instantiate st ctx data image_box table_ptr;
  match r with
  | Err e => Ret (st, ctx, Err (ActionSetup e))
  | Ok instance =>
      σ ← handle_clone (js_rt st) instance;
      '(st, ctx) ← optionally_name_instance (with_rt st σ) ctx instance_name instance;
      Ret (st, ctx, Ok instance)
  end.

Definition compile_module st ctx (data : list Z) (image_box : Z * Z)
    : res (jit_state * result CompiledModule SetupError) :=
  match ctx_validate ctx data with
  | Err e => Ret (st, Err (SetupValidate e))
  | Ok _ =>
      CompiledModule_new abi_special builtins libcall_address show_link_error st data
        (ctx_namespace ctx) (ctx_global_exports ctx) (ctx_debug_info ctx) image_box
  end.

Definition alias st ctx (name as_name : string) : res (jit_state * Context_ * result unit ContextError) :=
  match ctx_get_instance ctx name with
  | Err e => Ret (st, ctx, Err e)
  | Ok instance =>
      σ ← handle_clone (js_rt st) instance;
      '(st, ctx) ← ctx_name_instance (with_rt st σ) ctx as_name instance;
      Ret (st, ctx, Ok tt)
  end.

Definition ctx_invoke st (instance : Z) (field : string) (args : list RuntimeValue)
    : res (jit_state * result ActionOutcome ActionError) :=
  '(σ, c, r) ← invoke wasmtime_call_trampoline (js_rt st) (js_compiler st) instance field args;
  Ret (mkJitState σ (js_traps st) (js_jit st) c, r).

(** The handle is cloned for the call and dropped after it. *)
Definition invoke_named st ctx (instance_name field : string) (args : list RuntimeValue)
    : res (jit_state * result ActionOutcome ContextError) :=
  match ctx_get_instance ctx instance_name with
  | Err e => Ret (st, Err e)
  | Ok instance =>
      σ ← handle_clone (js_rt st) instance;
      '(st, r) ← ctx_invoke (with_rt st σ) instance field args;
      σ ← handle_drop (S (size (rt_insts (js_rt st)))) (js_rt st) instance;
      Ret (with_rt st σ, match r with Ok o => Ok o | Err e => Err (CtxAction e) end)
  end.

Definition ctx_get (show_type : ir_type → string) st (instance : Z) (field : string)
    : res (result ActionOutcome ActionError) :=
  r ← get show_type (js_rt st) instance field;
  Ret match r with Ok value => Ok (Returned [value]) | Err e => Err e end.

Definition ctx_inspect_memory st (instance : Z) (field_name : string) (start len : Z)
    : res (result (list Z) ActionError) :=
  inspect_memory (js_rt st) instance field_name start len.

Definition get_named (show_type : ir_type → string) st ctx (instance_name field : string)
    : res (jit_state * result ActionOutcome ContextError) :=
  match ctx_get_instance ctx instance_name with
  | Err e => Ret (st, Err e)
  | Ok instance =>
      σ ← handle_clone (js_rt st) instance;
      r ← ctx_get show_type (with_rt st σ) instance field;
      σ ← handle_drop (S (size (rt_insts σ))) σ instance;
      Ret (with_rt st σ, match r with Ok o => Ok o | Err e => Err (CtxAction e) end)
  end.
End context.
