(* ===== verification/ActionProofs.v ===== *)
(** * Calling exported functions

    An argument reaches the callee, and a result the caller, through the slots and the
    trampoline: what [invoke] of [Action.v] stores is what the trampoline of [Jit.v]
    loads. *)

From S2P Require Import Prelude Environ ModuleEnv VMOffsets Store Registry Memory VMContext.
From S2P Require Import Table Instance Link CodeMemory JitInt Jit JitProofs Action.
Local Open Scope Z_scope.

(** ** Slots *)

Definition supported (ty : ir_type) : Prop := match ty with ir_other _ => False | _ => True end.

Lemma value_bytes_length v : rv_ok v → (length (value_bytes v) ≤ 16)%nat.
Proof. destruct v; cbn -[le_bytes]; intros Hv; rewrite ?length_le_bytes; lia. Qed.

Lemma write_value_length s v : rv_ok v → length s = 16%nat → length (write_value s v) = 16%nat.
Proof.
  intros Hv Hs. unfold write_value. rewrite length_app, length_drop.
  pose proof (value_bytes_length v Hv). lia.
Qed.

Lemma wrap_s_id w x : 1 ≤ w → - 2 ^ (w - 1) ≤ x < 2 ^ (w - 1) → wrap_s w (x mod 2 ^ w) = x.
Proof.
  intros Hw Hx. unfold wrap_s. rewrite Z.mod_mod by lia.
  assert (2 ^ w = 2 * 2 ^ (w - 1)) as E by (rewrite <-Z.pow_succ_r by lia; f_equal; lia).
  destruct (decide (0 ≤ x)).
  - rewrite Z.mod_small by lia. by rewrite (proj2 (Z.ltb_lt _ _)) by lia.
  - assert (x mod 2 ^ w = x + 2 ^ w) as ->.
    { rewrite <-(Z.mod_small (x + 2 ^ w) (2 ^ w)) by lia.
      rewrite Z.add_mod, Z.mod_same, Z.add_0_r, Z.mod_mod by lia. done. }
    rewrite (proj2 (Z.ltb_ge _ _)) by lia. lia.
Qed.

(** What is written is read back. *)
Lemma read_write_value s v : rv_ok v → read_value (write_value s v) (rv_type v) = Ret v.
Proof.
  intros Hv. unfold write_value.
  destruct v as [x|x|x|x|x]; cbn -[le_bytes le_val] in *; rewrite take_app_length' by
    (rewrite ?length_le_bytes; done); rewrite ?le_val_bytes; do 2 f_equal;
    change (8 * Z.of_nat 4) with 32; change (8 * Z.of_nat 8) with 64;
    first [apply wrap_s_id; lia | apply Z.mod_small; lia | done].
Qed.

(** The zero value of a type, which is what a fresh slot reads as. *)
Definition zero_value (ty : ir_type) : RuntimeValue :=
  match ty with
  | I32 => RV_I32 0 | I64 => RV_I64 0 | F32 => RV_F32 0 | F64 => RV_F64 0
  | _ => RV_V128 (replicate 16 0)
  end.
Lemma read_zero ty : supported ty → read_value VMInvokeArgument_new ty = Ret (zero_value ty).
Proof. by destruct ty. Qed.

(** ** Storing a list of values in slots *)

(** Values stored in the first slots. *)
Lemma store_values_spec (l : list RuntimeValue) : ∀ k (slots : list slot),
  (k + length l ≤ length slots)%nat →
  foldM (λ v '(index, arg), s ← zindex v (Z.of_nat index); zset v (Z.of_nat index) (write_value s arg))
    slots (imap (λ i a, ((k + i)%nat, a)) l) =
  Ret (take k slots ++ zip_with write_value (drop k slots) l ++ drop (k + length l) slots).
Proof.
  induction l as [|v l IH]; intros k slots Hl; cbn [imap foldM zip_with length] in *.
  { rewrite Nat.add_0_r. destruct (drop k slots) eqn:E; cbn; rewrite <-E at 1; by rewrite take_drop. }
  destruct (lookup_lt_is_Some_2 slots k) as [s Hs]; [cbn in Hl; lia|].
  rewrite Nat.add_0_r.
  assert (zindex slots (Z.of_nat k) = Ret s) as ->.
  { apply zindex_Ret. unfold zget. rewrite (proj2 (Z.leb_le _ _)) by lia. by rewrite Nat2Z.id. }
  rewrite bind_Ret_l. unfold zset. rewrite (proj2 (Z.leb_le _ _)), (proj2 (Z.ltb_lt _ _)) by
    (unfold zlen; cbn in Hl; lia). cbn [andb]. rewrite bind_Ret_l, Nat2Z.id.
  rewrite (imap_ext _ (λ i a, ((S k + i)%nat, a))) by (intros; unfold compose; f_equal; lia).
  rewrite IH by (rewrite length_insert; cbn in Hl; lia).
  f_equal. rewrite (drop_S slots s k Hs).
  rewrite (take_S_r _ k (write_value s v)) by (apply list_lookup_insert_eq; cbn in Hl; lia).
  rewrite take_insert_ge, !drop_insert_lt by lia.
  rewrite <-app_assoc, Nat.add_succ_r. done.
Qed.

(** ** What a trampoline does *)

Inductive callee_value := CVmctx (vmctx : Z) | CValue (v : RuntimeValue).

(** The slot at a byte offset of the values; an offset that is not the start of a
    slot has none. *)
Definition slot_at (off : Z) : res Z :=
  _ ← rassert (off mod value_size =? 0); Ret (off / value_size).

(** The code of a trampoline, with [call_body] as the callee's. *)
Definition run_trampoline
    (call_body : rt → Z → list callee_value → res (rt * result (list RuntimeValue) string))
    (t : trampoline) (σ : rt) (vmctx : Z) (slots : list slot) : res (rt * result (list slot) string) :=
  args ← mapR (λ a, match a with
      | ArgVmctx => Ret (CVmctx vmctx)
      | ArgLoad ty off => i ← slot_at off; s ← zindex slots i; v ← read_value s ty; Ret (CValue v)
      end) (tr_args t);
  '(σ, r) ← call_body σ (tr_callee t) args;
  match r with
  | Err message => Ret (σ, Err message)
  | Ok values =>
      slots ← foldM (λ v '(off, x),
        i ← slot_at off; s ← zindex v i; zset v i (write_value s x))
        slots (zip (tr_stores t) values);
      Ret (σ, Ok slots)
  end.

(** Compiled code: where the bytes of a trampoline are in executable memory, entering
    them runs the trampoline. *)
Class CompiledCode `{JitTools} := {
  call_body : rt → Z → list callee_value → res (rt * result (list RuntimeValue) string);
  call_trampoline : rt → Z → Z → list slot → res (rt * result (list slot) string);
}.
Class CompiledCodeLaws `{CompiledCode} : Prop := {
  call_trampoline_runs t bytes σ vmctx code slots :
    compile_and_emit t = Ok bytes → load_bytes (rt_mem σ) code (zlen bytes) = bytes →
    (∀ x, code ≤ x < code + zlen bytes → w_prot (rt_world σ) x = Some ReadExecute) →
    call_trampoline σ vmctx code slots = run_trampoline call_body t σ vmctx slots;
}.

(** A signature as the module environment declares them: the context, then parameters
    and results of supported types, few enough for 32-bit offsets. *)
Record sig_ok (sig : Signature) (vm : AbiParam) (ps : list AbiParam) : Prop := {
  so_params : params sig = vm :: ps;
  so_vm : purpose vm = VMContextArg;
  so_normal : Forall (λ p, purpose p = Normal ∧ supported (value_type p)) ps;
  so_returns : Forall (λ p, supported (value_type p)) (returns sig);
  so_small : zlen ps < 2 ^ 27 ∧ zlen (returns sig) < 2 ^ 27;
}.

Lemma slot_offset i : 0 ≤ i < 2 ^ 27 → op_mul 64 i value_size = Ret (i * 16) ∧ wrap_s 32 (i * 16) = i * 16.
Proof.
  intros Hi. split; [apply op_mul_fits; unfold value_size; lia|].
  rewrite <-(Z.mod_small (i * 16) (2 ^ 32)) at 1 by lia. apply wrap_s_id; lia.
Qed.

Lemma mapR_imap {A B} (f : nat * A → res B) (g : nat → A → B) (l : list A) : ∀ k,
  (∀ i a, l !! i = Some a → f ((k + i)%nat, a) = Ret (g i a)) →
  mapR f (imap (λ i a, ((k + i)%nat, a)) l) = Ret (imap g l).
Proof.
  revert g; induction l as [|a l IH]; intros g k Hf; [done|]. cbn [imap mapR].
  rewrite (Hf 0%nat a eq_refl), bind_Ret_l.
  rewrite (imap_ext _ (λ i a, ((S k + i)%nat, a))) by (intros; unfold compose; f_equal; lia).
  rewrite (IH (g ∘ S)); [done|]. intros i b Hi. etrans; [|apply (Hf (S i) b Hi)]. do 2 f_equal. lia.
Qed.

(** The function that the trampoline of such a signature is. *)
Lemma trampoline_function_ok callee sig vm ps :
  sig_ok sig vm ps →
  trampoline_function callee sig value_size = Ret (mkTrampoline callee sig
    (ArgVmctx :: imap (λ i p, ArgLoad (value_type p) (Z.of_nat i * 16)) ps)
    (map (λ i, Z.of_nat i * 16) (seq 0 (length (returns sig))))).
Proof.
  intros [Hp Hvm Hn _ [Hs1 Hs2]]. unfold trampoline_function. rewrite Hp. cbn [imap mapR].
  assert (trampoline_arg value_size (0%nat, vm) = Ret ArgVmctx) as ->
    by (unfold trampoline_arg; cbn; by rewrite Hvm).
  rewrite bind_Ret_l.
  rewrite (imap_ext _ (λ i a, ((1 + i)%nat, a))) by done.
  rewrite (mapR_imap _ (λ i p, ArgLoad (value_type p) (Z.of_nat i * 16))).
  - rewrite !bind_Ret_l.
    assert (mapR (λ i, off ← op_mul 64 (Z.of_nat i) value_size; Ret (wrap_s 32 off))
      (seq 0 (length (returns sig))) = Ret (map (λ i, Z.of_nat i * 16) (seq 0 (length (returns sig))))) as ->;
      [|done].
    unfold zlen in Hs2. revert Hs2. generalize (length (returns sig)) as n. intros n Hn2.
    assert (∀ k m, (k + m ≤ n)%nat →
      mapR (λ i, off ← op_mul 64 (Z.of_nat i) value_size; Ret (wrap_s 32 off)) (seq k m)
      = Ret (map (λ i, Z.of_nat i * 16) (seq k m))) as Hgen; [|by apply Hgen].
    intros k m. revert k; induction m as [|m IH]; intros k Hk; [done|]. cbn [seq mapR map].
    destruct (slot_offset (Z.of_nat k)) as [E1 E2]; [lia|].
    rewrite E1, bind_Ret_l, E2, bind_Ret_l, IH by lia. done.
  - intros i p Hi. unfold trampoline_arg. cbn [fst snd]. rewrite Forall_lookup in Hn.
    destruct (Hn i p Hi) as [-> _]. apply lookup_lt_Some in Hi. unfold zlen in Hs1.
    rewrite op_sub_fits by lia. rewrite bind_Ret_l.
    replace (Z.of_nat (1 + i) - 1) with (Z.of_nat i) by lia.
    destruct (slot_offset (Z.of_nat i)) as [E1 E2]; [lia|]. by rewrite E1, bind_Ret_l, E2.
Qed.

(** ** Through the slots *)

(** The arguments that the callee gets: those given, then zeros. *)
Definition full_args (args : list RuntimeValue) (ps : list AbiParam) : list RuntimeValue :=
  imap (λ i p, default (zero_value (value_type p)) (args !! i)) ps.

Lemma full_args_id args ps : length args = length ps → full_args args ps = args.
Proof.
  intros Hl. apply list_eq. intros i. unfold full_args. rewrite list_lookup_imap.
  destruct (ps !! i) as [p|] eqn:E; cbn.
  - apply lookup_lt_Some in E. destruct (lookup_lt_is_Some_2 args i) as [a ->]; [lia|]. done.
  - apply lookup_ge_None in E. symmetry. apply lookup_ge_None. lia.
Qed.

(** Values of the types of the parameters, no more than there are. *)
Record values_for (vs : list RuntimeValue) (ps : list AbiParam) : Prop := {
  vf_len : (length vs ≤ length ps)%nat;
  vf_ok : Forall rv_ok vs;
  vf_ty i v p : vs !! i = Some v → ps !! i = Some p → rv_type v = value_type p;
}.

Lemma zindex_nat {A} (l : list A) i x : l !! i = Some x → zindex l (Z.of_nat i) = Ret x.
Proof.
  intros Hi. apply zindex_Ret. unfold zget. rewrite (proj2 (Z.leb_le _ _)) by lia. by rewrite Nat2Z.id.
Qed.

Lemma check_args_ok sig vm ps args :
  params sig = vm :: ps → values_for args ps → check_args sig args = Ret tt.
Proof.
  intros Hp [Hl _ Hty]. unfold check_args.
  rewrite (mapR_imap _ (λ _ _, tt) args 0); [done|]. intros i a Hi. cbn [Nat.add].
  destruct (lookup_lt_is_Some_2 ps i) as [p Hpi]; [apply lookup_lt_Some in Hi; lia|].
  replace (Z.of_nat i + 1) with (Z.of_nat (S i)) by lia.
  rewrite Hp, (zindex_nat (vm :: ps) (S i) p Hpi), bind_Ret_l.
  by rewrite bool_decide_eq_true_2 by (by eapply Hty).
Qed.

(** The slots with values stored in the first ones. *)
Definition stored (slots : list slot) (vs : list RuntimeValue) : list slot :=
  zip_with write_value slots vs ++ drop (length vs) slots.

Lemma stored_lookup slots vs i s :
  slots !! i = Some s →
  stored slots vs !! i = Some (from_option (write_value s) s (vs !! i)).
Proof.
  intros Hs. unfold stored. pose proof (lookup_lt_Some _ _ _ Hs) as Hlt.
  destruct (vs !! i) as [v|] eqn:Hv.
  - rewrite lookup_app_l by (rewrite length_zip_with; apply lookup_lt_Some in Hv; lia).
    apply lookup_zip_with_Some. by exists s, v.
  - apply lookup_ge_None in Hv. rewrite lookup_app_r by (rewrite length_zip_with; lia).
    rewrite length_zip_with, lookup_drop. etrans; [|exact Hs]. f_equal. lia.
Qed.

Lemma store_args_ok slots args :
  (length args ≤ length slots)%nat → store_args slots args = Ret (stored slots args).
Proof. intros Hl. exact (store_values_spec args 0 slots Hl). Qed.

Lemma foldM_map {A B C} (f : B → A → res B) (g : C → A) b l :
  foldM f b (map g l) = foldM (λ b x, f b (g x)) b l.
Proof. revert b; induction l as [|x l IH]; intros b; [done|]. cbn. destruct (f b (g x)); [apply IH|done]. Qed.
Lemma foldM_ext {A B} (f g : B → A → res B) b l : (∀ b x, f b x = g b x) → foldM f b l = foldM g b l.
Proof. intros E. revert b; induction l as [|x l IH]; intros b; [done|]. cbn. rewrite E. destruct (g b x); [apply IH|done]. Qed.

Lemma slot_at_start i : slot_at (i * 16) = Ret i.
Proof. unfold slot_at, value_size. by rewrite Z.mod_mul, Z.div_mul. Qed.

(** The stores of a trampoline. *)
Lemma store_results_ok slots (vals : list RuntimeValue) :
  (length vals ≤ length slots)%nat →
  foldM (λ v '(off, x), i ← slot_at off; s ← zindex v i; zset v i (write_value s x))
    slots (zip (map (λ i, Z.of_nat i * 16) (seq 0 (length vals))) vals) = Ret (stored slots vals).
Proof.
  intros Hl. rewrite <-(store_args_ok slots vals Hl). unfold store_args.
  assert (zip (map (λ i, Z.of_nat i * 16) (seq 0 (length vals))) vals =
    map (λ '(i, a), (Z.of_nat i * 16, a)) (imap pair vals)) as ->.
  { apply list_eq. intros i. rewrite list_lookup_fmap, list_lookup_imap.
    destruct (vals !! i) as [v|] eqn:E; cbn.
    - apply lookup_zip_with_Some. exists (Z.of_nat i * 16), v. split_and!; [done| |done].
      rewrite list_lookup_fmap, lookup_seq_lt by (by eapply lookup_lt_Some). done.
    - apply lookup_ge_None. rewrite length_zip_with. apply lookup_ge_None in E. lia. }
  rewrite foldM_map. apply foldM_ext. intros v [i x]. by rewrite slot_at_start, bind_Ret_l.
Qed.

(** The loads of a trampoline give the callee the values that were stored. *)
Lemma load_args_ok vmctx n args ps :
  values_for args ps → Forall (λ p, purpose p = Normal ∧ supported (value_type p)) ps →
  (length ps ≤ n)%nat →
  mapR (λ a, match a with
      | ArgVmctx => Ret (CVmctx vmctx)
      | ArgLoad ty off =>
          i ← slot_at off; s ← zindex (stored (replicate n VMInvokeArgument_new) args) i;
          v ← read_value s ty; Ret (CValue v)
      end) (ArgVmctx :: imap (λ i p, ArgLoad (value_type p) (Z.of_nat i * 16)) ps) =
  Ret (CVmctx vmctx :: map CValue (full_args args ps)).
Proof.
  intros [Hl Hok Hty] Hs Hn. cbn [mapR]. rewrite bind_Ret_l.
  assert (∀ k qs, drop k ps = qs →
    mapR (λ a, match a with
      | ArgVmctx => Ret (CVmctx vmctx)
      | ArgLoad ty off =>
          i ← slot_at off; s ← zindex (stored (replicate n VMInvokeArgument_new) args) i;
          v ← read_value s ty; Ret (CValue v)
      end) (imap (λ i p, ArgLoad (value_type p) (Z.of_nat (k + i) * 16)) qs) =
    Ret (map CValue (imap (λ i p, default (zero_value (value_type p)) (args !! (k + i)%nat)) qs))) as Hgen;
    [|pose proof (Hgen 0%nat ps eq_refl) as E; cbn [Nat.add] in E; rewrite E; done].
  intros k qs. revert k; induction qs as [|q qs IH]; intros k Hk; [done|]. cbn [imap mapR map].
  assert (ps !! k = Some q) as Hq.
  { rewrite <-(Nat.add_0_r k), <-lookup_drop, Hk. done. }
  rewrite Nat.add_0_r.
  rewrite slot_at_start, bind_Ret_l.
  assert (replicate n VMInvokeArgument_new !! k = Some VMInvokeArgument_new) as Hrep
    by (apply lookup_replicate_2; apply lookup_lt_Some in Hq; lia).
  rewrite (zindex_nat _ k _ (stored_lookup _ args k _ Hrep)), bind_Ret_l.
  assert (read_value (from_option (write_value VMInvokeArgument_new) VMInvokeArgument_new (args !! k))
    (value_type q) = Ret (default (zero_value (value_type q)) (args !! k))) as ->.
  { destruct (args !! k) as [a|] eqn:Ha; cbn [from_option].
    - rewrite <-(Hty k a q Ha Hq). apply read_write_value. rewrite Forall_lookup in Hok. by eapply Hok.
    - apply read_zero. rewrite Forall_lookup in Hs. by eapply Hs. }
  rewrite !bind_Ret_l.
  rewrite (imap_ext _ (λ i p, ArgLoad (value_type p) (Z.of_nat (S k + i) * 16)))
    by (intros; unfold compose; do 3 f_equal; lia).
  rewrite (IH (S k)); [|by rewrite <-Nat.add_1_r, <-drop_drop, Hk].
  rewrite bind_Ret_l. do 3 f_equal. apply imap_ext. intros i p Hp. unfold compose. do 2 f_equal. lia.
Qed.

(** The results that the caller reads are those that were stored. *)
Lemma load_results_ok sig slots vals :
  values_for vals (returns sig) → length vals = length (returns sig) → (length vals ≤ length slots)%nat →
  load_results sig (stored slots vals) = Ret vals.
Proof.
  intros [_ Hok Hty] Hlen Hl. unfold load_results.
  rewrite (mapR_imap _ (λ i p, default (zero_value (value_type p)) (vals !! i)) (returns sig) 0).
  - f_equal. by apply (full_args_id vals (returns sig)).
  - intros i p Hi. cbn [Nat.add].
    destruct (lookup_lt_is_Some_2 vals i) as [v Hv]; [apply lookup_lt_Some in Hi; lia|].
    destruct (lookup_lt_is_Some_2 slots i) as [s Hs]; [apply lookup_lt_Some in Hv; lia|].
    rewrite (zindex_nat _ i _ (stored_lookup _ vals i _ Hs)), bind_Ret_l, Hv. cbn [from_option default].
    rewrite <-(Hty i v p Hv Hi). apply read_write_value. rewrite Forall_lookup in Hok. by eapply Hok.
Qed.

(** ** The trampoline of a function *)

(** The trampolines that a compiler keeps: each is the code for the signature of its
    function, in the compiler's code memory. *)
Definition park_ok `{JitTools} (sig_of : Z → Signature) (c : Compiler) (blocks : list (Z * list Z)) : Prop :=
  ∀ callee code, trampoline_park c !! callee = Some code → ∃ t bytes,
    trampoline_function callee (sig_of callee) value_size = Ret t ∧ compile_and_emit t = Ok bytes ∧
    (code, bytes) ∈ blocks.

Section invoke.
Context `{OSLaws} `{InstanceLayout} `{CompiledCodeLaws} (sig_of : Z → Signature).
Set Default Proof Using "Type*".

(** [get_trampoline] returns the address of such code, and keeps it. *)
Lemma get_trampoline_ok w c pub open callee w' c' code :
  cm_inv w (code_memory c) pub open → park_ok sig_of c (pub ++ open) →
  get_trampoline w c callee (sig_of callee) value_size = Ret (w', c', Ok code) →
  ∃ open' t bytes, cm_inv w' (code_memory c') pub open' ∧ park_ok sig_of c' (pub ++ open') ∧
    trampoline_function callee (sig_of callee) value_size = Ret t ∧ compile_and_emit t = Ok bytes ∧
    (code, bytes) ∈ pub ++ open'.
Proof.
  intros Hc Hpark E. unfold get_trampoline in E. destruct (trampoline_park c !! callee) as [body|] eqn:Ep.
  { simplify_eq. destruct (Hpark _ _ Ep) as (t & bytes & ? & ? & ?). by exists open, t, bytes. }
  apply bind_Ret in E as ([[w1 cm1] r1] & E1 & E). unfold make_trampoline in E1.
  apply bind_Ret in E1 as (t & Et & E1). destruct (compile_and_emit t) as [bytes|e] eqn:Eb; [|by simplify_eq].
  apply bind_Ret in E1 as ([[w2 cm2] r2] & E2 & E1). destruct r2 as [[a bs]|]; simplify_eq.
  assert (bs = bytes) as -> by (unfold allocate_copy_of_byte_slice in E2;
    apply bind_Ret in E2 as ([[? ?] []] & _ & E2); by simplify_eq).
  assert (code_step (w, code_memory c) (CopySlice bytes) = Ret (w', cm1, [(code, bytes)])) as Hstep
    by (cbn; by rewrite E2).
  apply (code_step_spec _ _ _ _ _ _ _ _ Hc) in Hstep.
  exists (open ++ [(code, bytes)]), t, bytes. split_and!; try done; [|set_solver].
  intros callee' code' Hcc. cbn in Hcc. apply lookup_insert_Some in Hcc as [[<- <-]|[_ Hcc]].
  - exists t, bytes. split_and!; try done. set_solver.
  - destruct (Hpark _ _ Hcc) as (t' & b' & ? & ? & ?). exists t', b'. split_and!; try done. set_solver.
Qed.

(** C16: calling an exported function passes the arguments and returns the results: the
    values given are stored in the slots, and the trampoline -- made for the function's
    signature, or found among those made before -- loads them again and passes them,
    after the callee's context, to the function, with a zero for each argument that is
    missing; the results that the function returns are the values returned, and a trap
    is reported with its message. *)
Theorem invoke_passes_values σ compiler pub open instance name address vmctx vm ps args w1 c1 code w2 c2 σ' r
    (Hlookup : inst_lookup σ instance name = Ret (Some (RtFunction address vmctx (sig_of address))))
    (Hsig : sig_ok (sig_of address) vm ps) (Hargs : values_for args ps)
    (Hcode : cm_inv (rt_world σ) (code_memory compiler) pub open)
    (Hpark : park_ok sig_of compiler (pub ++ open))
    (Htramp : get_trampoline (rt_world σ) compiler address (sig_of address) value_size = Ret (w1, c1, Ok code))
    (Hpub : publish_compiled_code w1 c1 = Ret (w2, c2))
    (Hbody : call_body (with_world σ w2) address (CVmctx vmctx :: map CValue (full_args args ps)) = Ret (σ', r))
    (Hres : match r with
            | Ok vals => values_for vals (returns (sig_of address)) ∧
                length vals = length (returns (sig_of address))
            | Err _ => True
            end) :
  invoke call_trampoline σ compiler instance name args =
    Ret (σ', c2, Ok match r with Ok vals => Returned vals | Err message => Trapped message end).
Proof.
  destruct (get_trampoline_ok _ _ _ _ _ _ _ _ Hcode Hpark Htramp)
    as (open' & t & bytes & Hc1 & _ & Ht & Hemit & Hin).
  rewrite (trampoline_function_ok _ _ _ _ Hsig) in Ht. injection Ht as <-.
  pose proof Hpub as Hpub'. unfold publish_compiled_code in Hpub'.
  apply bind_Ret in Hpub' as ([w3 cm3] & Ep & Hpub'). injection Hpub' as -> <-.
  apply (publish_spec _ _ _ _ _ _ Hc1) in Ep.
  destruct (ci_pub _ _ _ _ Ep _ Hin) as (Hint & i & mm & Hmm & Hlt & Hbl).
  assert (∀ x, code ≤ x < code + zlen bytes → w_prot w2 x = Some ReadExecute) as Hexec.
  { intros x Hx. apply (ci_executable _ _ _ _ Ep i mm x Hmm Hlt). by eapply block_in_mmap. }
  unfold invoke. rewrite Hlookup, bind_Ret_l. pose proof Hsig as [Hps Hvm Hn Hr [Hs1 Hs2]].
  rewrite (check_args_ok _ _ _ _ Hps Hargs), bind_Ret_l.
  rewrite op_sub_fits by (rewrite Hps, zlen_cons; pose proof (zlen_nonneg ps); lia). rewrite bind_Ret_l.
  set (k := Z.to_nat _). assert (length ps ≤ k ∧ length (returns (sig_of address)) ≤ k)%nat as [Hk1 Hk2].
  { subst k. rewrite Hps, zlen_cons. unfold zlen. lia. }
  pose proof (vf_len _ _ Hargs) as Hla.
  rewrite store_args_ok by (rewrite length_replicate; lia). rewrite bind_Ret_l, Htramp, bind_Ret_l.
  rewrite Hpub, bind_Ret_l.
  rewrite (call_trampoline_runs _ bytes (with_world σ w2) vmctx code _ Hemit Hint Hexec).
  unfold run_trampoline. cbn [tr_args tr_callee tr_stores].
  rewrite (load_args_ok vmctx k args ps Hargs Hn Hk1), bind_Ret_l, Hbody, bind_Ret_l.
  destruct r as [vals|message]; [|done]. destruct Hres as [Hvals Hlen]. rewrite <-Hlen.
  assert (length vals ≤ length (stored (replicate k VMInvokeArgument_new) args))%nat as Hlv.
  { unfold stored. rewrite length_app, length_zip_with, length_drop, length_replicate. lia. }
  rewrite store_results_ok by done. rewrite !bind_Ret_l.
  by rewrite (load_results_ok _ _ _ Hvals Hlen Hlv).
Qed.
End invoke.

(** ** A module that adds

    Its function takes two arguments; the call gives it one. *)

#[local] Instance callee_arg_eq_dec : EqDecision callee_arg.
Proof. solve_decision. Defined.
#[local] Instance trampoline_eq_dec : EqDecision trampoline.
Proof. solve_decision. Defined.
#[local] Instance ex_add_layout : InstanceLayout := {| instance_size := 128; vmctx_offset := 128 |}.

Definition ex_add_sig : Signature :=
  mkSignature [mkAbiParam I64 VMContextArg; mkAbiParam I32 Normal; mkAbiParam I32 Normal]
    [mkAbiParam I32 Normal] 0.
Definition ex_add_module : Module_ :=
  mkModule [ex_add_sig] [] [] [] [] [0] [] [] [] [("add", ExportFunction 0)] None [].
Definition ex_add_trampoline : trampoline :=
  mkTrampoline 0x5000 ex_add_sig [ArgVmctx; ArgLoad I32 0; ArgLoad I32 16] [0].
Definition ex_add_rt : rt :=
  mkRt toy_world {[ 0x1000 :=
    mkInstance 1 ∅ (mkMmap 0x1000 0x1000) ex_add_module
      (mkVMOffsets 8 1 0 0 0 0 0 0 0) 0 [] [] [0x5000] ]} ∅ handlers_new.

Definition ex_add_body (σ : rt) (_ : Z) (args : list callee_value)
    : res (rt * result (list RuntimeValue) string) :=
  match args with
  | [CVmctx _; CValue (RV_I32 a); CValue (RV_I32 b)] => Ret (σ, Ok [RV_I32 (wrap_s 32 (a + b))])
  | _ => Panic
  end.

#[local] Instance ex_add_tools : JitTools := {|
  parse_module _ := Err "no parser";
  cranelift_compile_module _ _ _ := Ret (Err DebugInfoNotSupported);
  lightbeam_compile_module _ _ _ := Ret (Err DebugInfoNotSupported);
  compile_and_emit t := if decide (t = ex_add_trampoline) then Ok [195] else Err "another function";
  read_debuginfo d := Ret d;
  emit_debugsections_image _ _ _ _ := Ret (Err "no image") |}.
#[local] Instance ex_add_code : CompiledCode := {|
  call_body := ex_add_body;
  call_trampoline σ vmctx _ slots := run_trampoline ex_add_body ex_add_trampoline σ vmctx slots |}.
#[local] Instance ex_add_laws : CompiledCodeLaws.
Proof. split. cbn. intros t bytes σ vmctx code slots Ht _ _. by destruct (decide (t = _)) as [->|]. Qed.

Definition ex_code_of {W C E} (r : res (W * C * result Z E)) : option Z :=
  match r with Ret (_, _, Ok code) => Some code | _ => None end.

Lemma ex_add_sig_ok :
  sig_ok ex_add_sig (mkAbiParam I64 VMContextArg) [mkAbiParam I32 Normal; mkAbiParam I32 Normal].
Proof. split; [done|done|by repeat constructor|by repeat constructor|by vm_compute]. Qed.
Lemma ex_add_args : values_for [RV_I32 2] [mkAbiParam I32 Normal; mkAbiParam I32 Normal].
Proof.
  split; [cbn; lia|repeat constructor; cbn; lia|]. intros [|i] v p ? ?; cbn in *; by simplify_eq.
Qed.
Lemma ex_add_results : values_for [RV_I32 2] (returns ex_add_sig).
Proof.
  split; [cbn; lia|repeat constructor; cbn; lia|]. intros [|i] v p ? ?; cbn in *; by simplify_eq.
Qed.
Lemma ex_add_park : park_ok (λ _, ex_add_sig) (Compiler_new false Auto) ([] ++ []).
Proof. intros callee code Hc. cbn in Hc. by rewrite lookup_empty in Hc. Qed.
Lemma ex_publish_compiled w c : ∃ w' c', @publish_compiled_code toy_os w c = Ret (w', c').
Proof.
  destruct (ex_publish w (code_memory c)) as (w' & cm' & E). unfold code_run, code_step in E.
  unfold publish_compiled_code. destruct (publish w (code_memory c)) as [[w2 cm2]|]; [|done].
  rewrite bind_Ret_l. by do 2 eexists.
Qed.

Lemma invoke_passes_values_witness :
  ∃ σ' c', @invoke toy_os _ _ call_trampoline ex_add_rt (Compiler_new false Auto) 0x1000 "add" [RV_I32 2] =
    Ret (σ', c', Ok (Returned [RV_I32 2])).
Proof.
  assert (Hcode : ex_code_of (@get_trampoline toy_os _ toy_world (Compiler_new false Auto) 0x5000 ex_add_sig
    value_size) = Some (2 ^ 40)) by (vm_compute; reflexivity).
  destruct (@get_trampoline toy_os _ toy_world (Compiler_new false Auto) 0x5000 ex_add_sig value_size)
    as [[[w1 c1] [code|e]]|] eqn:Et; cbn in Hcode; [|discriminate..].
  destruct (ex_publish_compiled w1 c1) as (w2 & c2 & Ep2).
  exists (with_world ex_add_rt w2), c2.
  apply (@invoke_passes_values toy_os toy_laws _ _ _ ex_add_laws (λ _, ex_add_sig) ex_add_rt
    (Compiler_new false Auto) [] [] 0x1000 "add" 0x5000 0x1080 (mkAbiParam I64 VMContextArg)
    [mkAbiParam I32 Normal; mkAbiParam I32 Normal] [RV_I32 2] w1 c1 code w2 c2
    (with_world ex_add_rt w2) (Ok [RV_I32 2])).
  - vm_compute. reflexivity.
  - exact ex_add_sig_ok.
  - exact ex_add_args.
  - exact (@cm_inv_new toy_os toy_laws toy_world).
  - exact ex_add_park.
  - exact Et.
  - exact Ep2.
  - reflexivity.
  - exact (conj ex_add_results eq_refl).
Defined.
