(* ===== verification/CacheWorker.v ===== *)
(** * The cache worker

    Models [wasmtime-environ/src/cache/worker.rs] (with [fs_write_atomic] of
    [cache.rs]): the handlers of the background thread that counts the uses
    of cached modules, recompresses the ones that are used often, and keeps
    the cache directory within its limits.  The file system, the clock, TOML
    and zstd are not part of the sources: they are operations of the class
    [Env]. *)

From S2P Require Import Prelude.
From Stdlib Require Import Ascii.
From stdpp Require Import sorting.
Local Open Scope Z_scope.

(** ** Paths *)

(** A path is the list of its components. *)
Definition path := list string.

(** A name split at its last dot. *)
Fixpoint rsplit_dot (s : string) : option (string * string) :=
  match s with
  | EmptyString => None
  | String c s' =>
      match rsplit_dot s' with
      | Some (before, after) => Some (String c before, after)
      | None => if bool_decide (c = "."%char) then Some (EmptyString, s') else None
      end
  end.

(** [Path::file_stem] and [Path::extension] of a file name: a name that
    starts with its only dot has no extension. *)
Definition split_name (name : string) : string * option string :=
  if bool_decide (name = "..") then (name, None) else
  match rsplit_dot name with
  | Some (EmptyString, _) | None => (name, None)
  | Some (before, after) => (before, Some after)
  end.

Definition file_name (p : path) : option string := last p.
Definition file_stem (p : path) : option string := (λ n, (split_name n).1) <$> file_name p.
Definition extension (p : path) : option string := file_name p ≫= λ n, (split_name n).2.
Definition parent (p : path) : option path :=
  match p with [] => None | _ => Some (removelast p) end.
Definition with_file_name (p : path) (n : string) : path := removelast p ++ [n].
Definition with_extension (p : path) (ext : string) : path :=
  match file_stem p with
  | Some stem => with_file_name p (if bool_decide (ext = "") then stem else stem +:+ "." +:+ ext)
  | None => p
  end.

Fixpoint starts_with (prefix s : string) : bool :=
  match prefix, s with
  | EmptyString, _ => true
  | String a p, String b s => bool_decide (a = b) && starts_with p s
  | _, _ => false
  end.

(** ** The environment *)

Inductive io_error := IoError (code : Z).
Definition bytes := list Z.

(** [fs::Metadata]: the length, and [modified()]. *)
Record Metadata := mkMetadata { md_len : Z; md_modified : result Z io_error }.

Record ModuleCacheStatistics := mkStats { usages : Z; compression_level : Z }.

Class Env := {
  env : Type;
  now : env → Z;
  process_id : string;
  read_dir : env → path → result (list (result string io_error)) io_error;
  is_dir : env → path → bool;
  metadata : env → path → result Metadata io_error;
  fs_read : env → path → result bytes io_error;
  fs_write : env → path → bytes → env * result unit io_error;
  create_new : env → path → env * result unit io_error;
  write_all : env → path → bytes → env * result unit io_error;
  rename : env → path → path → env * result unit io_error;
  remove_file : env → path → env * result unit io_error;
  remove_dir_all : env → path → env * result unit io_error;
  toml_from_slice : bytes → option ModuleCacheStatistics;
  toml_to_string : ModuleCacheStatistics → option bytes;
  zstd_decode_all : bytes → option bytes;
  zstd_encode_all : bytes → Z → option bytes;
}.

(** The settings that the worker reads ([cache/config.rs]). *)
Record CacheConfig := mkCacheConfig {
  directory : path;
  baseline_compression_level : Z;
  optimized_compression_level : Z;
  optimized_compression_usage_counter_threshold : Z;
  cleanup_interval : Z;
  optimizing_compression_task_timeout : Z;
  allowed_clock_drift_for_files_from_future : Z;
  file_count_soft_limit : Z;
  files_total_size_soft_limit : Z;
  file_count_limit_percent_if_deleting : Z;
  files_total_size_limit_percent_if_deleting : Z;
}.

Inductive CacheEntry :=
| Recognized (p : path) (mtime size : Z)
| Unrecognized (p : path) (is_dir : bool).

Definition ModuleCacheStatistics_default (cfg : CacheConfig) : ModuleCacheStatistics :=
  mkStats 0 (baseline_compression_level cfg).

(** [SystemTime::checked_add]; seconds are an [i64]. *)
Definition time_checked_add (t d : Z) : option Z :=
  if t + d <? 2 ^ 63 * 10 ^ 9 then Some (t + d) else None.

Section worker.
Context `{Env} (cfg : CacheConfig).

(** ** Files *)

Definition fs_write_atomic (w : env) (p : path) (reason : string) (contents : bytes) : env * bool :=
  let lock_path := with_extension p ("wip-atomic-write-" +:+ reason) in
  let '(w, r) := create_new w lock_path in
  match r with
  | Err _ => (w, false)
  | Ok _ =>
      let '(w, r) := write_all w lock_path contents in
      match r with
      | Err _ => (w, false)
      | Ok _ =>
          let '(w, r) := rename w lock_path p in
          (w, match r with Ok _ => true | Err _ => false end)
      end
  end.

Definition read_stats_file (w : env) (p : path) : option ModuleCacheStatistics :=
  match fs_read w p with Ok bytes => toml_from_slice bytes | Err _ => None end.

Definition write_stats_file (w : env) (p : path) (stats : ModuleCacheStatistics) : env * bool :=
  match toml_to_string stats with
  | Some serialized => fs_write_atomic w p "stats" serialized
  | None => (w, false)
  end.

(** ** Locks *)

Definition is_fs_lock_expired (w : env) (p : path) (threshold allowed_future_drift : Z) : bool :=
  match metadata w p with
  | Err _ => true
  | Ok md =>
      match md_modified md with
      | Err _ => true
      | Ok mtime =>
          if mtime <=? now w then threshold <=? now w - mtime
          else allowed_future_drift <? mtime - now w
      end
  end.

(** The search for a lock of the same task: [None] when one is found, or a
    directory entry cannot be read. *)
Fixpoint no_live_lock (w : env) (dir_path : path) (stem : option string)
    (timeout allowed_future_drift : Z) (it : list (result string io_error)) : option unit :=
  match it with
  | [] => Some tt
  | Err _ :: _ => None
  | Ok name :: it =>
      let p := dir_path ++ [name] in
      if is_dir w p || negb (bool_decide (file_stem p = stem))
      then no_live_lock w dir_path stem timeout allowed_future_drift it
      else
        match extension p with
        | None => no_live_lock w dir_path stem timeout allowed_future_drift it
        | Some ext =>
            if starts_with "wip-" ext && negb (is_fs_lock_expired w p timeout allowed_future_drift)
            then None
            else no_live_lock w dir_path stem timeout allowed_future_drift it
        end
  end.

Definition acquire_task_fs_lock (w : env) (task_path : path) (timeout allowed_future_drift : Z)
    : res (env * option path) :=
  _ ← rassert (bool_decide (extension task_path = None));
  _ ← rassert (bool_decide (is_Some (file_stem task_path)));
  match parent task_path with
  | None => Ret (w, None)
  | Some dir_path =>
      match read_dir w dir_path with
      | Err _ => Ret (w, None)
      | Ok it =>
          match no_live_lock w dir_path (file_stem task_path) timeout allowed_future_drift it with
          | None => Ret (w, None)
          | Some _ =>
              let lock_path := with_extension task_path ("wip-" +:+ process_id) in
              let '(w, r) := create_new w lock_path in
              Ret (w, match r with Ok _ => Some lock_path | Err _ => None end)
          end
      end
  end.
(** ** Listing the cache *)

(** The iteration order of a [HashMap] and the result of an unstable sort are
    not specified. *)
Context (map_iter : gset path → list path).
Context (sort_unstable_by : (CacheEntry → CacheEntry → comparison) → list CacheEntry → list CacheEntry).

(** [entry.metadata().and_then(|m| m.modified())] *)
Definition mtime_of (w : env) (p : path) : option Z :=
  match metadata w p with
  | Ok md => match md_modified md with Ok t => Some t | Err _ => None end
  | Err _ => None
  end.

(** The entries for one module or statistics file of a directory. *)
Definition cache_file_entries (w : env) (cache_files : gset path) (p : path) : list CacheEntry :=
  match extension p with
  | Some _ =>
      if bool_decide (with_extension p "" ∈ cache_files) then [] else [Unrecognized p false]
  | None =>
      let stats_path := with_extension p "stats" in
      match metadata w p with
      | Err _ =>
          if bool_decide (stats_path ∈ cache_files)
          then [Unrecognized stats_path false; Unrecognized p false] else [Unrecognized p false]
      | Ok md =>
          let by_module failed :=
            match md_modified md with
            | Ok t => [Recognized p t (md_len md)]
            | Err _ => failed
            end in
          if bool_decide (stats_path ∈ cache_files) then
            match mtime_of w stats_path with
            | Some t => [Recognized p t (md_len md)]
            | None =>
                Unrecognized stats_path false ::
                by_module [Unrecognized stats_path false; Unrecognized p false]
            end
          else by_module [Unrecognized p false]
      end
  end.

(** One entry of a directory: what is pushed at once, and whether the file is
    kept aside as a module or statistics file. *)
Definition dir_entry (enter : option (path → list CacheEntry)) (w : env) (level : nat) (p : path)
    : list CacheEntry * bool :=
  match enter, is_dir w p with
  | Some enter_dir, true => (enter_dir p, false)
  | Some _, false =>
      if bool_decide (level = 0%nat) && bool_decide (file_stem p = Some ".cleanup") &&
         bool_decide (is_Some (extension p)) &&
         negb (is_fs_lock_expired w p (cleanup_interval cfg)
                 (allowed_clock_drift_for_files_from_future cfg))
      then ([], false) else ([Unrecognized p false], false)
  | None, false =>
      match extension p with
      | None => ([], true)
      | Some ext =>
          if bool_decide (ext = "stats") then ([], true)
          else if starts_with "wip-" ext &&
                  negb (is_fs_lock_expired w p (optimizing_compression_task_timeout cfg)
                          (allowed_clock_drift_for_files_from_future cfg))
          then ([], false) else ([Unrecognized p false], false)
      end
  | None, true => ([Unrecognized p true], false)
  end.

Fixpoint dir_loop (enter : option (path → list CacheEntry)) (w : env) (level : nat) (dir_path : path)
    (it : list (result string io_error)) : list CacheEntry * gset path :=
  match it with
  | [] => ([], ∅)
  | Err _ :: it => dir_loop enter w level dir_path it
  | Ok name :: it =>
      let p := dir_path ++ [name] in
      let '(pushed, aside) := dir_entry enter w level p in
      let '(vec, files) := dir_loop enter w level dir_path it in
      (pushed ++ vec, if aside : bool then {[ p ]} ∪ files else files)
  end.

(** [enter_dir]; [below] counts the levels below, so that the level is
    [2 - below]. *)
Fixpoint enter_dir (below : nat) (w : env) (dir_path : path) : list CacheEntry :=
  let enter := match below with O => None | S below => Some (enter_dir below w) end in
  match read_dir w dir_path with
  | Err _ => [Unrecognized dir_path true]
  | Ok it =>
      let '(vec, cache_files) := dir_loop enter w (2 - below) dir_path it in
      vec ++ (map_iter cache_files ≫= cache_file_entries w cache_files)
  end.

Definition list_cache_contents (w : env) : list CacheEntry := enter_dir 2 w (directory cfg).

(** ** Cleaning up *)

(** The comparison of the sort: younger files first. *)
Definition entry_cmp (future_tolerance : Z) (lhs rhs : CacheEntry) : comparison :=
  match lhs, rhs with
  | Recognized _ lhs_mt _, Recognized _ rhs_mt _ =>
      match future_tolerance <? lhs_mt, future_tolerance <? rhs_mt with
      | false, false => rhs_mt ?= lhs_mt
      | true, false => Gt
      | false, true => Lt
      | true, true => Eq
      end
  | Recognized _ _ _, Unrecognized _ _ => Lt
  | Unrecognized _ _, Recognized _ _ _ => Gt
  | Unrecognized _ _, Unrecognized _ _ => Eq
  end.

(** The loop that looks for the first item to delete. *)
Fixpoint find_cut (tsl fcl tsl_if_deleting fcl_if_deleting : Z) (idx total_size : Z)
    (if_deleting : option Z) (items : list CacheEntry) : res (option Z) :=
  match items with
  | [] => Ret None
  | Unrecognized _ _ :: _ => Ret (Some idx)
  | Recognized _ _ size :: items =>
      total_size ← op_add 64 total_size size;
      let if_deleting :=
        match if_deleting with
        | None =>
            if (tsl_if_deleting <? total_size) || (fcl_if_deleting <? idx + 1) then Some idx else None
        | Some _ => if_deleting
        end in
      if (tsl <? total_size) || (fcl <? idx + 1) then Ret if_deleting
      else find_cut tsl fcl tsl_if_deleting fcl_if_deleting (idx + 1) total_size if_deleting items
  end.

(** The items to delete, in order. *)
Definition items_to_delete (w : env) (contents : list CacheEntry) : res (list CacheEntry) :=
  future_tolerance ← unwrap (time_checked_add (now w) (allowed_clock_drift_for_files_from_future cfg));
  let cache_index := sort_unstable_by (entry_cmp future_tolerance) contents in
  t ← unwrap (checked_mul 64 (files_total_size_soft_limit cfg) (files_total_size_limit_percent_if_deleting cfg));
  f ← unwrap (checked_mul 64 (file_count_soft_limit cfg) (file_count_limit_percent_if_deleting cfg));
  start_delete_idx ← find_cut (files_total_size_soft_limit cfg) (file_count_soft_limit cfg)
    (t / 100) (f / 100) 0 0 None cache_index;
  Ret (match start_delete_idx with
       | Some idx => drop (Z.to_nat idx) cache_index
       | None => []
       end).

(** A removal that fails is logged. *)
Definition remove_item (w : env) (item : CacheEntry) : env :=
  match item with
  | Recognized p _ _ | Unrecognized p false => (remove_file w p).1
  | Unrecognized p true => (remove_dir_all w p).1
  end.

Definition cleanup (w : env) : res env :=
  items ← items_to_delete w (list_cache_contents w);
  Ret (fold_left remove_item items w).

(** ** The handlers *)

Definition stats_path_of (p : path) : res path :=
  filename ← unwrap (file_name p);
  Ret (with_file_name p (filename +:+ ".stats")).

Definition handle_on_cache_update (w : env) (p : path) : res env :=
  stats_path ← stats_path_of p;
  let stats := ModuleCacheStatistics_default cfg in
  usages ← op_add 64 (usages stats) 1;
  let '(w, _) := write_stats_file w stats_path (mkStats usages (compression_level stats)) in
  '(w, lock) ← acquire_task_fs_lock w (directory cfg ++ [".cleanup"]) (cleanup_interval cfg)
                 (allowed_clock_drift_for_files_from_future cfg);
  match lock with
  | None => Ret w
  | Some _ => cleanup w
  end.

(** The chain of closures that recompresses a file: [None] when a step
    fails. *)
Definition recompress (w : env) (p lock_path : path) (opt_compr_lvl : Z) : env * bool :=
  match fs_read w p with
  | Err _ => (w, false)
  | Ok compressed_cache_bytes =>
      match zstd_decode_all compressed_cache_bytes ≫= λ b, zstd_encode_all b opt_compr_lvl with
      | None => (w, false)
      | Some recompressed_cache_bytes =>
          let '(w, r) := fs_write w lock_path recompressed_cache_bytes in
          match r with
          | Err _ => (w, false)
          | Ok _ =>
              let '(w, r) := rename w lock_path p in
              match r with
              | Ok _ => (w, true)
              | Err _ => ((remove_file w lock_path).1, false)
              end
          end
      end
  end.

Definition handle_on_cache_get (w : env) (p : path) : res env :=
  stats_path ← stats_path_of p;
  let stats := default (ModuleCacheStatistics_default cfg) (read_stats_file w stats_path) in
  n ← op_add 64 (usages stats) 1;
  let stats := mkStats n (compression_level stats) in
  let '(w, written) := write_stats_file w stats_path stats in
  if negb written then Ret w else
  let opt_compr_lvl := optimized_compression_level cfg in
  if (opt_compr_lvl <=? compression_level stats) ||
     (usages stats <? optimized_compression_usage_counter_threshold cfg)
  then Ret w
  else
    '(w, lock) ← acquire_task_fs_lock w p (optimizing_compression_task_timeout cfg)
                   (allowed_clock_drift_for_files_from_future cfg);
    match lock with
    | None => Ret w
    | Some lock_path =>
        let '(w, renamed) := recompress w p lock_path opt_compr_lvl in
        if negb renamed then Ret w else
        match read_stats_file w stats_path with
        | None => Ret w
        | Some new_stats =>
            if opt_compr_lvl <=? compression_level new_stats then Ret w
            else Ret (write_stats_file w stats_path (mkStats (usages new_stats) opt_compr_lvl)).1
        end
    end.
End worker.

(** ** The clean-up policy *)

Definition is_recognized (e : CacheEntry) : bool :=
  match e with Recognized _ _ _ => true | Unrecognized _ _ => false end.
Definition entry_size (e : CacheEntry) : Z :=
  match e with Recognized _ _ size => size | Unrecognized _ _ => 0 end.
Fixpoint total (l : list CacheEntry) : Z :=
  match l with [] => 0 | e :: l => entry_size e + total l end.

Lemma total_app l k : total (l ++ k) = total l + total k.
Proof. induction l as [|e l IH]; cbn; lia. Qed.

#[export] Instance total_perm : Proper ((≡ₚ) ==> (=)) total.
Proof. intros l k Hp. induction Hp; cbn; lia. Qed.

Lemma total_nonneg l : Forall (λ e, 0 ≤ entry_size e) l → 0 ≤ total l.
Proof. induction 1; cbn; lia. Qed.

(** Comparisons that a sort accepts. *)
Definition consistent {A} (cmp : A → A → comparison) : Prop :=
  (∀ a b, cmp b a = CompOpp (cmp a b)) ∧
  (∀ a b c, cmp a b ≠ Gt → cmp b c ≠ Gt → cmp a c ≠ Gt).

Lemma entry_cmp_consistent ft : consistent (entry_cmp ft).
Proof.
  split.
  - intros [? m ?|] [? n ?|]; cbn; try done.
    destruct (ft <? m), (ft <? n); cbn; try done. apply Z.compare_antisym.
  - intros [? m ?|] [? n ?|] [? k ?|]; cbn; try done.
    destruct (Z.ltb_spec ft m), (Z.ltb_spec ft n), (Z.ltb_spec ft k); cbn; try done.
    pose proof (Z.compare_spec n m) as [|?|?]; pose proof (Z.compare_spec k n) as [|?|?];
      pose proof (Z.compare_spec k m) as [|?|?]; try done; lia.
Qed.

(** Recognized entries come first. *)
Lemma sorted_split ft l :
  StronglySorted (λ a b, entry_cmp ft a b ≠ Gt) l →
  ∃ recs unrecs, l = recs ++ unrecs ∧ Forall (λ e, is_recognized e = true) recs ∧
    Forall (λ e, is_recognized e = false) unrecs.
Proof.
  induction 1 as [|e l _ (recs & unrecs & -> & Hr & Hu) Hall]; [by exists [], []|].
  destruct e as [p t n|p d].
  - exists (Recognized p t n :: recs), unrecs. split_and!; [done|by constructor|done].
  - exists [], (Unrecognized p d :: recs ++ unrecs). split_and!; [done|constructor|].
    constructor; [done|]. apply Forall_app. split; [|done].
    apply Forall_app in Hall as [Hall _]. destruct recs as [|[p' t' n'|] recs]; [done| |].
    + apply Forall_cons in Hall as [Hc _]. by destruct Hc.
    + apply Forall_cons in Hr as [Hr _]. done.
Qed.

Section cut.
Context (tsl fcl td fd : Z) (Htd : 0 ≤ td ≤ tsl) (Hfd : 0 ≤ fd ≤ fcl).
Context (all unrecs : list CacheEntry) (Hunrec : Forall (λ e, is_recognized e = false) unrecs).
Context (Hrec : Forall (λ e, is_recognized e = true) all).
Context (Hsize : Forall (λ e, 0 ≤ entry_size e) all) (Htotal : total all < 2 ^ 64).
Set Default Proof Using "Type*".

(** The longest prefix within the limits that hold when deleting. *)
Definition best_cut (k : Z) : Prop :=
  0 ≤ k < zlen all ∧ total (take (Z.to_nat k) all) ≤ td ∧ k ≤ fd ∧
  (td < total (take (Z.to_nat (k + 1)) all) ∨ fd < k + 1).

Lemma find_cut_run recs : ∀ done if_deleting,
  all = done ++ recs → total done ≤ tsl → zlen done ≤ fcl →
  match if_deleting with
  | None => total done ≤ td ∧ zlen done ≤ fd
  | Some k => best_cut k
  end →
  ∃ r, find_cut tsl fcl td fd (zlen done) (total done) if_deleting (recs ++ unrecs) = Ret r ∧
  if decide (total all ≤ tsl ∧ zlen all ≤ fcl)
  then r = match unrecs with [] => None | _ => Some (zlen all) end
  else ∃ k, r = Some k ∧ best_cut k.
Proof.
  induction recs as [|e recs IH]; intros dn sd Hall Ht Hc Hsd.
  { rewrite app_nil_r in Hall. subst dn. cbn [app]. destruct unrecs as [|u us].
    - exists None. split; [done|]. by rewrite decide_True.
    - apply Forall_cons in Hunrec as [Hu _]. destruct u; [done|].
      eexists; split; [done|]. by rewrite decide_True. }
  assert (Hx : all = (dn ++ [e]) ++ recs) by by rewrite <-app_assoc.
  assert (Hrest : 0 ≤ total recs ∧ 0 ≤ entry_size e ∧ 0 ≤ total dn).
  { rewrite Hall, Forall_app, Forall_cons in Hsize. destruct Hsize as (H1 & H2 & H3).
    split_and!; [by apply total_nonneg|done|by apply total_nonneg]. }
  assert (Hat : total all = total dn + entry_size e + total recs) by (rewrite Hall, total_app; cbn; lia).
  assert (Hal : zlen all = zlen dn + 1 + zlen recs) by (rewrite Hall, zlen_app, zlen_cons; lia).
  pose proof (zlen_nonneg recs). pose proof (zlen_nonneg dn).
  assert (Hn : total (dn ++ [e]) = total dn + entry_size e) by (rewrite total_app; cbn; lia).
  assert (Hz : zlen (dn ++ [e]) = zlen dn + 1) by (rewrite zlen_app, zlen_cons; unfold zlen; cbn; lia).
  destruct e as [p t n|]; [|rewrite Hall, Forall_app, Forall_cons in Hrec; naive_solver].
  cbn [app find_cut entry_size] in *. rewrite op_add_fits, bind_Ret_l by lia.
  set (sd' := match sd with Some _ => sd | None => _ end).
  assert (Hsd' : match sd' with
    | None => total (dn ++ [Recognized p t n]) ≤ td ∧ zlen (dn ++ [Recognized p t n]) ≤ fd
    | Some k => best_cut k end).
  { subst sd'. destruct sd as [k|]; [done|]. rewrite Hn, Hz.
    destruct (Z.ltb_spec td (total dn + n)), (Z.ltb_spec fd (zlen dn + 1)); cbn [orb]; try lia;
      (split_and!; [lia|lia| |lia|];
       [rewrite Hall, take_app_length' by (unfold zlen; lia); lia|
        rewrite Hx, take_app_length' by (unfold zlen in *; lia); lia]). }
  destruct ((tsl <? total dn + n) || (fcl <? zlen dn + 1)) eqn:Elim.
  - exists sd'. split; [done|]. apply orb_true_iff in Elim. rewrite !Z.ltb_lt in Elim.
    rewrite decide_False by lia. destruct sd' as [k|]; [by exists k|]. lia.
  - apply orb_false_iff in Elim. rewrite !Z.ltb_ge in Elim. rewrite <-Hn, <-Hz.
    apply (IH (dn ++ [Recognized p t n]) sd' Hx); [lia|lia|done].
Qed.
End cut.

(** The limits that validation accepts and that the arithmetic can handle. *)
Record limits_ok (cfg : CacheConfig) : Prop := {
  lo_size : 0 ≤ files_total_size_soft_limit cfg;
  lo_count : 0 ≤ file_count_soft_limit cfg;
  lo_size_percent : 0 ≤ files_total_size_limit_percent_if_deleting cfg ≤ 100;
  lo_count_percent : 0 ≤ file_count_limit_percent_if_deleting cfg ≤ 100;
  lo_size_fits : files_total_size_soft_limit cfg * files_total_size_limit_percent_if_deleting cfg < 2 ^ 64;
  lo_count_fits : file_count_soft_limit cfg * file_count_limit_percent_if_deleting cfg < 2 ^ 64;
}.

Lemma percent_bound a p : 0 ≤ a → 0 ≤ p ≤ 100 → 0 ≤ a * p / 100 ≤ a.
Proof. intros Ha Hp. split; [apply Z.div_pos; nia|]. apply Z.div_le_upper_bound; nia. Qed.

Section policy.
Context `{Env} (cfg : CacheConfig).
Context (sort : (CacheEntry → CacheEntry → comparison) → list CacheEntry → list CacheEntry).
(** [slice::sort_unstable_by], for a comparison that is a total order. *)
Context (Hsort : ∀ cmp l, consistent cmp → sort cmp l ≡ₚ l ∧ StronglySorted (λ a b, cmp a b ≠ Gt) (sort cmp l)).
Set Default Proof Using "Type*".

Let tsl := files_total_size_soft_limit cfg.
Let fcl := file_count_soft_limit cfg.
Let td := tsl * files_total_size_limit_percent_if_deleting cfg / 100.
Let fd := fcl * file_count_limit_percent_if_deleting cfg / 100.

(** [a] is kept in preference to [b]: it was modified later, or [b] claims to be
    from after the latest plausible time [ft]; recognized entries precede
    the others. *)
Definition preferred (ft : Z) (a b : CacheEntry) : Prop :=
  match a, b with
  | Recognized _ ta _, Recognized _ tb _ => ft < tb ∨ tb ≤ ta ≤ ft
  | Unrecognized _ _, Recognized _ _ _ => False
  | _, Unrecognized _ _ => True
  end.

Lemma entry_cmp_preferred ft a b : entry_cmp ft a b ≠ Gt → preferred ft a b.
Proof.
  clear. destruct a as [p m s|p d], b as [q n t|q e]; cbn; try done.
  destruct (Z.ltb_spec ft m), (Z.ltb_spec ft n); try done; [by left..|].
  intros Hc. right. by pose proof (Z.compare_spec n m) as [| |].
Qed.

(** What is kept of the contents [l], and what is deleted, where [ft] is the
    latest plausible time; the deleted entries, too, are in the order of
    preference, so that the first of them is the next one to keep. *)
Record policy (ft : Z) (l kept deleted : list CacheEntry) : Prop := {
  po_perm : kept ++ deleted ≡ₚ l;
  po_kept : Forall (λ e, is_recognized e = true) kept;
  po_younger : ∀ a b, a ∈ kept → b ∈ deleted → preferred ft a b;
  po_order : StronglySorted (preferred ft) deleted;
  po_limits : let recs := filter (λ e, is_recognized e = true) l in
    if decide (total recs ≤ tsl ∧ zlen recs ≤ fcl) then kept ≡ₚ recs
    else total kept ≤ td ∧ zlen kept ≤ fd ∧
      ∃ e rest, deleted = e :: rest ∧ is_recognized e = true ∧
        (td < total kept + entry_size e ∨ fd < zlen kept + 1);
}.

Lemma filter_split (recs unrecs : list CacheEntry) :
  Forall (λ e, is_recognized e = true) recs → Forall (λ e, is_recognized e = false) unrecs →
  filter (λ e, is_recognized e = true) (recs ++ unrecs) = recs.
Proof.
  clear. intros Hr Hu. rewrite filter_app.
  assert (filter (λ e, is_recognized e = true) unrecs = []) as ->.
  { induction Hu as [|e unrecs He Hu IH]; [done|]. by rewrite filter_cons_False by congruence. }
  rewrite app_nil_r. induction Hr as [|e recs He Hr IH]; [done|].
  rewrite filter_cons_True by done. by f_equal.
Qed.

Lemma items_to_delete_outcome w l :
  limits_ok cfg → now w + allowed_clock_drift_for_files_from_future cfg < 2 ^ 63 * 10 ^ 9 →
  Forall (λ e, 0 ≤ entry_size e) l → total l < 2 ^ 64 →
  ∃ kept deleted, items_to_delete cfg sort w l = Ret deleted ∧
    policy (now w + allowed_clock_drift_for_files_from_future cfg) l kept deleted.
Proof.
  intros [Hs Hc Hsp Hcp Hsf Hcf] Htime Hsize Htotal. unfold items_to_delete, time_checked_add.
  rewrite (proj2 (Z.ltb_lt _ _) Htime). cbn [unwrap]. rewrite bind_Ret_l.
  set (ft := now w + _). cbv zeta. 
  change (unwrap (checked_mul 64 (files_total_size_soft_limit cfg) ?b)) with (op_mul 64 tsl b).
  change (unwrap (checked_mul 64 (file_count_soft_limit cfg) ?b)) with (op_mul 64 fcl b).
  rewrite (op_mul_fits 64 tsl), bind_Ret_l, (op_mul_fits 64 fcl), bind_Ret_l by (unfold tsl, fcl; nia).
  fold tsl fcl td fd.
  destruct (Hsort (entry_cmp ft) l (entry_cmp_consistent ft)) as [Hperm Hss].
  destruct (sorted_split ft _ Hss) as (recs & unrecs & Hsplit & Hr & Hu). rewrite Hsplit in *.
  assert (Htr : total recs < 2 ^ 64 ∧ Forall (λ e, 0 ≤ entry_size e) recs).
  { rewrite <-Hperm in Hsize. apply Forall_app in Hsize as [Hsr Hsu]. split; [|done].
    rewrite <-Hperm, total_app in Htotal. pose proof (total_nonneg _ Hsu). lia. }
  destruct Htr as [Htr Hsr].
  assert (Hrecs : filter (λ e, is_recognized e = true) l ≡ₚ recs).
  { rewrite <-Hperm. by rewrite filter_split. }
  assert (Htd : 0 ≤ td ≤ tsl) by (by apply percent_bound).
  assert (Hfd : 0 ≤ fd ≤ fcl) by (by apply percent_bound).
  destruct (find_cut_run tsl fcl td fd Htd Hfd recs unrecs Hu Hr Hsr Htr recs [] None) as (r & Hfc & Hres);
    [done|cbn; lia|unfold zlen; cbn; lia|unfold zlen; cbn; lia|].
  change (zlen (@nil CacheEntry)) with 0 in Hfc. cbn [total] in Hfc. rewrite Hfc, bind_Ret_l.
  assert (Hyounger : ∀ a b n, a ∈ take n (recs ++ unrecs) → b ∈ drop n (recs ++ unrecs) →
    preferred ft a b).
  { intros a b n Ha Hb. rewrite <-(take_drop n (recs ++ unrecs)) in Hss.
    apply entry_cmp_preferred.
    exact (StronglySorted_app_1_elem_of _ _ _ a b Hss Ha Hb). }
  assert (Horder : ∀ n, StronglySorted (preferred ft) (drop n (recs ++ unrecs))).
  { intros n. rewrite <-(take_drop n (recs ++ unrecs)) in Hss.
    apply StronglySorted_app_1_r in Hss.
    induction Hss as [|e l' _ IH Hall]; constructor; [done|].
    eapply Forall_impl; [exact Hall|]. intros b. apply entry_cmp_preferred. }
  assert (Hlim : total (filter (λ e, is_recognized e = true) l) = total recs ∧
    zlen (filter (λ e, is_recognized e = true) l) = zlen recs).
  { split; [by rewrite Hrecs|]. unfold zlen. by rewrite Hrecs. }
  destruct Hlim as [Hlt Hll].
  destruct (decide (total recs ≤ tsl ∧ zlen recs ≤ fcl)) as [Hin|Hout].
  - exists recs, unrecs. split.
    + f_equal. subst r. destruct unrecs; [done|]. unfold zlen. rewrite Nat2Z.id. apply drop_app_length.
    + split; [done|done| | |].
      * intros a b Ha Hb. apply (Hyounger a b (length recs));
          [by rewrite take_app_length|by rewrite drop_app_length].
      * specialize (Horder (length recs)). by rewrite drop_app_length in Horder.
      * cbv zeta. rewrite Hlt, Hll, decide_True by done. by symmetry.
  - destruct Hres as (k & -> & (Hk & Hkt & Hkf & Hkmax)).
    assert (Hkl : (Z.to_nat k < length recs)%nat) by (unfold zlen in Hk; lia).
    destruct (lookup_lt_is_Some_2 recs (Z.to_nat k) Hkl) as [e He].
    exists (take (Z.to_nat k) recs), (drop (Z.to_nat k) (recs ++ unrecs)). split; [done|].
    assert (Htake : take (Z.to_nat k) (recs ++ unrecs) = take (Z.to_nat k) recs)
      by (by rewrite take_app_le by lia).
    split.
    + rewrite <-Htake, take_drop. done.
    + by apply Forall_take.
    + intros a b Ha Hb. rewrite <-Htake in Ha. by eapply Hyounger.
    + apply Horder.
    + cbv zeta. rewrite Hlt, Hll, decide_False by done.
      assert (Hzk : zlen (take (Z.to_nat k) recs) = k) by (unfold zlen; rewrite length_take; lia).
      split; [done|]. split; [lia|]. exists e, (drop (S (Z.to_nat k)) (recs ++ unrecs)).
      split; [|split].
      * apply drop_S. by apply lookup_app_l_Some.
      * rewrite Forall_forall in Hr. apply Hr. by eapply list_elem_of_lookup_2.
      * rewrite Hzk. replace (Z.to_nat (k + 1)) with (S (Z.to_nat k)) in Hkmax by lia.
        rewrite (take_S_r _ _ _ He), total_app in Hkmax. cbn in Hkmax. lia.
Qed.
End policy.

Section policy_theorems.
Context `{Env} (cfg : CacheConfig).
Context (map_iter : gset path → list path).
Context (sort : (CacheEntry → CacheEntry → comparison) → list CacheEntry → list CacheEntry).

(** C26: the clean-up.  Whatever the directory contains, the worker deletes all
    unrecognized entries, and of the recognized files none as long as they
    are within the soft limits on total size and number; otherwise it keeps
    the files modified last (files from the far future count as oldest), as
    many as are within the given percentage of both limits: the next one
    would exceed one of them.  The removals are the only change. *)
Theorem cleanup_policy (w : env) (l := list_cache_contents cfg map_iter w)
    (ft := now w + allowed_clock_drift_for_files_from_future cfg)
    (Hsort : ∀ cmp l, consistent cmp →
       sort cmp l ≡ₚ l ∧ StronglySorted (λ a b, cmp a b ≠ Gt) (sort cmp l))
    (Hlimits : limits_ok cfg) (Htime : ft < 2 ^ 63 * 10 ^ 9)
    (Hsize : Forall (λ e, 0 ≤ entry_size e) l) (Htotal : total l < 2 ^ 64) :
  ∃ kept deleted, cleanup cfg map_iter sort w = Ret (fold_left remove_item deleted w) ∧
    policy cfg ft l kept deleted.
Proof.
  destruct (items_to_delete_outcome cfg sort Hsort w l Hlimits Htime Hsize Htotal)
    as (kept & deleted & E & Hp).
  exists kept, deleted. split; [|done]. unfold cleanup. fold l. by rewrite E.
Qed.

(** A soft limit whose product with its percentage does not fit 64 bits
    makes the clean-up panic. *)
Lemma cleanup_limit_overflow (w : env) :
  2 ^ 64 ≤ files_total_size_soft_limit cfg * files_total_size_limit_percent_if_deleting cfg →
  cleanup cfg map_iter sort w = Panic.
Proof.
  intros Hov. unfold cleanup, items_to_delete.
  destruct (unwrap (time_checked_add _ _)); [|done]. rewrite bind_Ret_l. cbv zeta.
  unfold checked_mul.
  destruct (in_u 64 (files_total_size_soft_limit cfg * files_total_size_limit_percent_if_deleting cfg))
    eqn:E; [|done]. apply in_u_spec in E. lia.
Qed.

(** *** Locks *)

(** A lock of the task [stem] that is not expired. *)
Definition live_lock (w : env) (dir_path : path) (stem : option string) (timeout drift : Z)
    (name : string) : bool :=
  let p := dir_path ++ [name] in
  negb (is_dir w p) && bool_decide (file_stem p = stem) &&
  match extension p with
  | Some ext => starts_with "wip-" ext && negb (is_fs_lock_expired w p timeout drift)
  | None => false
  end.

Lemma no_live_lock_cons w dir_path stem timeout drift name it :
  no_live_lock w dir_path stem timeout drift (Ok name :: it) =
  if live_lock w dir_path stem timeout drift name then None
  else no_live_lock w dir_path stem timeout drift it.
Proof.
  cbn [no_live_lock]. unfold live_lock.
  destruct (is_dir w _); [done|]. case_bool_decide; [|done]. by destruct (extension _).
Qed.

Lemma no_live_lock_spec w dir_path stem timeout drift it :
  no_live_lock w dir_path stem timeout drift it = Some tt ↔
  Forall (λ r, match r with
               | Ok name => live_lock w dir_path stem timeout drift name = false
               | Err _ => False
               end) it.
Proof.
  induction it as [|[name|e] it IH].
  - split; [constructor|done].
  - rewrite no_live_lock_cons, Forall_cons. destruct (live_lock _ _ _ _ _ _); [split; [done|by intros []]|].
    rewrite IH. tauto.
  - rewrite Forall_cons. split; [done|by intros []].
Qed.

(** Acquiring the lock of a task.  The lock is taken, by creating its
    file, exactly when the directory can be listed without errors, holds no
    unexpired lock of the task and the file can be created; in every other
    case nothing has been changed but by a failed creation. *)
Theorem acquire_task_fs_lock_spec (w : env) (dir : path) (task : string) (timeout drift : Z)
    (p := dir ++ [task]) (lock := with_extension p ("wip-" +:+ process_id))
    (Hext : extension p = None) :
  ∃ w' r, acquire_task_fs_lock w p timeout drift = Ret (w', r) ∧
    (r = Some lock ∨ r = None) ∧
    (r = Some lock ↔ ∃ it, read_dir w dir = Ok it ∧
       Forall (λ r, match r with
         | Ok name => live_lock w dir (file_stem p) timeout drift name = false
         | Err _ => False
         end) it ∧
       create_new w lock = (w', Ok tt)) ∧
    (r = None → w' = w ∨ ∃ e, create_new w lock = (w', Err e)).
Proof.
  unfold acquire_task_fs_lock.
  rewrite (bool_decide_eq_true_2 (extension p = None)) by done. cbn [rassert]. rewrite bind_Ret_l.
  assert (Hstem : is_Some (file_stem p)).
  { unfold file_stem, file_name, p. rewrite last_snoc. by eexists. }
  rewrite (bool_decide_eq_true_2 (is_Some _)) by done. cbn [rassert]. rewrite bind_Ret_l.
  assert (Hpar : parent p = Some dir).
  { unfold parent, p. rewrite removelast_last. by destruct dir. }
  rewrite Hpar. fold lock. destruct (read_dir w dir) as [it|e] eqn:Ed.
  2:{ exists w, None. split_and!; [done|by right|naive_solver|by left]. }
  destruct (no_live_lock w dir (file_stem p) timeout drift it) as [[]|] eqn:En.
  2:{ exists w, None. split_and!; [done|by right| |by left]. split; [done|].
      intros (it' & [= <-] & Hall & _). apply no_live_lock_spec in Hall. congruence. }
  rewrite no_live_lock_spec in En.
  destruct (create_new w lock) as [w' [[]|e]] eqn:Ec; exists w'; eexists; (split; [done|]).
  - split_and!; [by left| |done]. split; [|done]. intros _. by exists it.
  - split_and!; [by right| |by intros _; right; exists e]. split; [done|].
    intros (_ & _ & _ & Hc). congruence.
Qed.
End policy_theorems.

(** ** Listing *)
Section listing.
Context `{Env} (cfg : CacheConfig).

Lemma rsplit_dot_app s t : rsplit_dot t = None → rsplit_dot (s +:+ "." +:+ t) = Some (s, t).
Proof.
  intros Ht. induction s as [|c s IH].
  - change (rsplit_dot (String "." t) = Some ("", t)). cbn [rsplit_dot]. by rewrite Ht.
  - change (rsplit_dot (String c (s +:+ "." +:+ t)) = Some (String c s, t)). cbn [rsplit_dot].
    by rewrite IH.
Qed.

Lemma file_name_snoc (d : path) n : file_name (d ++ [n]) = Some n.
Proof. apply last_snoc. Qed.

(** A module file and its statistics file. *)
Lemma extension_stats (d : path) n :
  n ≠ "" → n ≠ ".." → extension (d ++ [n]) = None →
  with_extension (d ++ [n]) "stats" = d ++ [n +:+ ".stats"] ∧
  extension (d ++ [n +:+ ".stats"]) = Some "stats" ∧
  with_extension (d ++ [n +:+ ".stats"]) "" = d ++ [n].
Proof.
  intros Hne Hdd He.
  assert (Hn : split_name n = (n, None)).
  { unfold extension in He. rewrite file_name_snoc in He. cbn in He. unfold split_name in *.
    rewrite bool_decide_eq_false_2 in * by done.
    destruct (rsplit_dot n) as [[[|] ?]|]; [done|discriminate He|done]. }
  assert (Hs : split_name (n +:+ ".stats") = (n, Some "stats")).
  { unfold split_name. rewrite bool_decide_eq_false_2.
    - change ".stats" with ("." +:+ "stats"). rewrite (rsplit_dot_app n "stats" eq_refl).
      by destruct n.
    - destruct n as [|c [|c' n]]; [done|discriminate|by destruct n]. }
  unfold with_extension, file_stem, extension, with_file_name.
  rewrite !file_name_snoc, !removelast_last. cbn. rewrite Hn, Hs. by cbn.
Qed.

(** What the loop over a directory of the last level puts aside. *)
Lemma dir_loop_files w dir it p :
  p ∈ (dir_loop cfg None w 2 dir it).2 ↔
  ∃ name, Ok name ∈ it ∧ p = dir ++ [name] ∧ is_dir w p = false ∧
    (extension p = None ∨ extension p = Some "stats").
Proof.
  induction it as [|[name|e] it IH]; cbn [dir_loop]; [set_solver| |set_solver].
  set (q := dir ++ [name]). unfold dir_entry.
  assert (Hcons : (∃ name0, Ok name0 ∈ Ok name :: it ∧ p = dir ++ [name0] ∧ is_dir w p = false ∧
      (extension p = None ∨ extension p = Some "stats")) ↔
    (p = q ∧ is_dir w q = false ∧ (extension q = None ∨ extension q = Some "stats")) ∨
    p ∈ (dir_loop cfg None w 2 dir it).2).
  { rewrite IH. split.
    - intros (n & Hn & -> & Hd & He). apply elem_of_cons in Hn as [[= ->]|Hn]; [by left|right].
      by exists n.
    - intros [(-> & Hd & He)|(n & Hn & Hp & Hd & He)].
      + exists name. split; [left|done].
      + exists n. split; [by right|done]. }
  rewrite Hcons. clear Hcons IH. destruct (dir_loop cfg None w 2 dir it) as [vec files]. cbn [snd].
  destruct (is_dir w q) eqn:Ed; cbn [snd]; [split; [intros ?; by right|by intros [(_ & ? & _)|?]]|].
  destruct (extension q) as [ext|] eqn:Ee; cbn [snd].
  2:{ rewrite elem_of_union, elem_of_singleton. tauto. }
  case_bool_decide as Es; cbn [snd].
  { subst ext. rewrite elem_of_union, elem_of_singleton. tauto. }
  destruct (_ && _); cbn [snd]; (split; [intros ?; by right|intros [(_ & _ & [E|E])|?]; [done|congruence|done]]).
Qed.

(** What the loop pushes at once is neither a module nor a statistics file. *)
Lemma dir_loop_pushed w dir it e :
  e ∈ (dir_loop cfg None w 2 dir it).1 →
  ∃ p b, e = Unrecognized p b ∧
    (is_dir w p = false → extension p ≠ None ∧ extension p ≠ Some "stats").
Proof.
  induction it as [|[name|er] it IH]; cbn [dir_loop]; [set_solver| |set_solver].
  set (q := dir ++ [name]). unfold dir_entry.
  destruct (dir_loop cfg None w 2 dir it) as [vec files]. cbn [fst] in *.
  destruct (is_dir w q) eqn:Ed; cbn.
  { intros [->|He]%elem_of_cons; [|by apply IH]. exists q, true. split; [done|]. congruence. }
  destruct (extension q) as [ext|] eqn:Ee; cbn; [|done].
  case_bool_decide as Es; cbn; [done|]. destruct (_ && _); cbn; [done|].
  intros [->|He]%elem_of_cons; [|by apply IH]. exists q, false. split; [done|].
  intros _. rewrite Ee. split; [done|congruence].
Qed.

Context (map_iter : gset path → list path) (Hiter : ∀ s, map_iter s ≡ₚ elements s).
Set Default Proof Using "Type*".

Lemma enter_level2 w dir it e :
  read_dir w dir = Ok it →
  e ∈ enter_dir cfg map_iter 0 w dir ↔
  e ∈ (dir_loop cfg None w 2 dir it).1 ∨
  ∃ p, p ∈ (dir_loop cfg None w 2 dir it).2 ∧
    e ∈ cache_file_entries w (dir_loop cfg None w 2 dir it).2 p.
Proof.
  intros Hd. cbn [enter_dir]. rewrite Hd. change (2 - 0)%nat with 2%nat.
  destruct (dir_loop cfg None w 2 dir it) as [vec files]. cbn [fst snd].
  rewrite elem_of_app, list_elem_of_bind. setoid_rewrite Hiter. setoid_rewrite elem_of_elements.
  naive_solver.
Qed.

Section directory.
Context (w : env) (dir : path) (it : list (result string io_error)).
Context (Hdir : read_dir w dir = Ok it) (Hnames : ∀ n, Ok n ∈ it → n ≠ "" ∧ n ≠ "..").
Set Default Proof Using "All".
Notation files := (dir_loop cfg None w 2 dir it).2.

(** The module and statistics files of the directory. *)
Lemma files_spec p :
  p ∈ files →
  (extension p = Some "stats" ∧ is_dir w p = false) ∨
  ∃ n, p = dir ++ [n] ∧ is_dir w p = false ∧ extension p = None ∧
    with_extension p "stats" = dir ++ [n +:+ ".stats"] ∧
    extension (dir ++ [n +:+ ".stats"]) = Some "stats" ∧
    with_extension (dir ++ [n +:+ ".stats"]) "" = p.
Proof.
  intros (n & Hn & -> & Hd & [He|He])%dir_loop_files; [right|by left].
  destruct (Hnames n Hn) as [H1 H2]. exists n. split_and!; try done; by apply extension_stats.
Qed.

(** Which file an entry of the listing is about. *)
Lemma entry_about e :
  e ∈ enter_dir cfg map_iter 0 w dir →
  (∃ p b, e = Unrecognized p b ∧
     (is_dir w p = false → extension p ≠ None ∧ extension p ≠ Some "stats")) ∨
  (∃ p, p ∈ files ∧ e = Unrecognized p false ∧ extension p = Some "stats" ∧
     with_extension p "" ∉ files) ∨
  (∃ p, p ∈ files ∧ extension p = None ∧ e ∈ cache_file_entries w files p).
Proof.
  rewrite (enter_level2 w dir it e Hdir). intros [He|(p & Hp & He)].
  { left. by eapply dir_loop_pushed. }
  right. destruct (extension p) as [ext|] eqn:Ee; [left|right; by exists p]. exists p.
  destruct (files_spec p Hp) as [[Hx _]|(n & _ & _ & Hx & _)]; [|congruence].
  unfold cache_file_entries in He. rewrite Ee in He. case_bool_decide as Hm; [by apply elem_of_nil in He|].
  apply list_elem_of_singleton in He as ->. split_and!; [done|done|congruence|done].
Qed.

Definition entry_path (e : CacheEntry) : path :=
  match e with Recognized p _ _ | Unrecognized p _ => p end.

Lemma module_entries_about q n e :
  q = dir ++ [n] → extension q = None → with_extension q "stats" = dir ++ [n +:+ ".stats"] →
  e ∈ cache_file_entries w files q →
  entry_path e = q ∨ entry_path e = dir ++ [n +:+ ".stats"].
Proof.
  intros -> He Hs Hin. unfold cache_file_entries in Hin. rewrite He, Hs in Hin.
  repeat (case_match || case_bool_decide); set_unfold; naive_solver.
Qed.

(** The time that counts for the module [name]: that of its statistics file
    if there is one with a readable time, and its own otherwise. *)
Definition module_time (name : string) (t : Z) : Prop :=
  let stats := dir ++ [name +:+ ".stats"] in
  (stats ∈ files ∧ mtime_of w stats = Some t) ∨
  ((stats ∉ files ∨ mtime_of w stats = None) ∧ mtime_of w (dir ++ [name]) = Some t).

Lemma module_entries name md t :
  let p := dir ++ [name] in
  Ok name ∈ it → is_dir w p = false → extension p = None → metadata w p = Ok md →
  module_time name t →
  p ∈ files ∧
  cache_file_entries w files p =
    (if bool_decide (dir ++ [name +:+ ".stats"] ∈ files ∧ mtime_of w (dir ++ [name +:+ ".stats"]) = None)
     then [Unrecognized (dir ++ [name +:+ ".stats"]) false] else []) ++ [Recognized p t (md_len md)].
Proof.
  intros p Hin Hd He Hmd Ht.
  assert (Hp : p ∈ files) by (apply dir_loop_files; exists name; split_and!; auto).
  split; [done|]. destruct (Hnames name Hin) as [H1 H2].
  destruct (extension_stats dir name H1 H2 He) as (Hs & _ & _).
  unfold cache_file_entries. rewrite He. fold p in Hs. rewrite Hs, Hmd. unfold module_time in Ht.
  cbv zeta in Ht. fold p in Ht. set (st := dir ++ [name +:+ ".stats"]) in *.
  assert (Hown : ∀ t, mtime_of w p = Some t → md_modified md = Ok t).
  { intros t' Hm. unfold mtime_of in Hm. rewrite Hmd in Hm. by destruct (md_modified md); simplify_eq. }
  case_bool_decide as Hst.
  - destruct (mtime_of w st) as [t'|] eqn:Em.
    + rewrite bool_decide_eq_false_2 by naive_solver. destruct Ht as [[_ [= ->]]|[[]]]; done.
    + rewrite bool_decide_eq_true_2 by done. destruct Ht as [[_ ?]|[_ Hm]]; [done|].
      by rewrite (Hown t Hm).
  - rewrite bool_decide_eq_false_2 by naive_solver. destruct Ht as [[? _]|[_ Hm]]; [done|].
    by rewrite (Hown t Hm).
Qed.
End directory.

(** No module is lost to the listing.  In a directory of the last level, a
    module file (a file without extension) whose metadata can be read is
    listed exactly as recognized, with its length and the time of its last
    use, and never as an unrecognized entry, which would be deleted; nor is
    its statistics file as long as its time can be read. *)
Theorem module_is_recognized (w : env) (dir : path) (it : list (result string io_error))
    (name : string) (md : Metadata) (t : Z)
    (p := dir ++ [name]) (stats := dir ++ [name +:+ ".stats"])
    (l := enter_dir cfg map_iter 0 w dir)
    (Hdir : read_dir w dir = Ok it) (Hnames : ∀ n, Ok n ∈ it → n ≠ "" ∧ n ≠ "..")
    (Hin : Ok name ∈ it) (Hfile : is_dir w p = false) (Hext : extension p = None)
    (Hmd : metadata w p = Ok md) (Htime : module_time w dir it name t) :
  Recognized p t (md_len md) ∈ l ∧
  (∀ e, e ∈ l → entry_path e = p → e = Recognized p t (md_len md)) ∧
  (is_dir w stats = false → is_Some (mtime_of w stats) → ∀ e, e ∈ l → entry_path e ≠ stats).
Proof.
  destruct (module_entries w dir it Hdir Hnames name md t Hin Hfile Hext Hmd Htime) as [Hp Hent].
  fold p stats in Hp, Hent. destruct (Hnames name Hin) as [H1 H2].
  destruct (extension_stats dir name H1 H2 Hext) as (Hs & Hse & Hsw). fold p stats in Hs, Hse, Hsw.
  split_and!.
  - apply (enter_level2 w dir it _ Hdir). right. exists p. split; [done|]. rewrite Hent.
    apply elem_of_app. right. by apply list_elem_of_singleton.
  - intros e He Hpath. destruct (entry_about w dir it Hdir Hnames e He)
      as [(q & b & -> & Hq)|[(q & _ & -> & Hq & _)|(q & Hq & Hqe & He')]]; cbn in Hpath.
    + subst q. by destruct (Hq Hfile).
    + subst q. congruence.
    + destruct (files_spec w dir it Hdir Hnames q Hq) as [[? _]|(n & Hqn & _ & _ & Hqs & Hqse & _)];
        [congruence|].
      destruct (module_entries_about w dir it Hdir Hnames q n e Hqn Hqe Hqs He') as [Hpq|Hpq].
      * assert (q = p) as -> by congruence. rewrite Hent in He'.
        apply elem_of_app in He' as [He'|He']; [|by apply list_elem_of_singleton in He'].
        case_bool_decide; [|by apply elem_of_nil in He']. apply list_elem_of_singleton in He' as ->.
        cbn in Hpath. congruence.
      * congruence.
  - intros Hsf [ts Hts] e He Hpath. destruct (entry_about w dir it Hdir Hnames e He)
      as [(q & b & -> & Hq)|[(q & _ & -> & Hq & Hno)|(q & Hq & Hqe & He')]]; cbn in Hpath.
    + subst q. by destruct (Hq Hsf).
    + subst q. by rewrite Hsw in Hno.
    + destruct (files_spec w dir it Hdir Hnames q Hq) as [[? _]|(n & Hqn & _ & _ & Hqs & Hqse & Hqw)];
        [congruence|].
      destruct (module_entries_about w dir it Hdir Hnames q n e Hqn Hqe Hqs He') as [Hpq|Hpq]; [congruence|].
      assert (q = p) as ->. { rewrite <-Hqw, <-Hsw. congruence. }
      rewrite Hent in He'. apply elem_of_app in He' as [He'|He'].
      * rewrite bool_decide_eq_false_2 in He'; [by apply elem_of_nil in He'|].
        intros [_ ?]. congruence.
      * apply list_elem_of_singleton in He' as ->. cbn in Hpath. congruence.
Qed.
End listing.

(** ** A file system in memory, for the witnesses *)

Record toyfs := mkToyfs { tf_files : gmap path (bytes * Z); tf_now : Z }.

Definition toy_put (w : toyfs) (p : path) (b : bytes) : toyfs :=
  mkToyfs (<[p := (b, tf_now w)]> (tf_files w)) (tf_now w).
Definition toy_below (p q : path) : option string :=
  if bool_decide (take (length p) q = p) then q !! length p else None.

#[local] Instance toy_env : Env := {|
  env := toyfs;
  now := tf_now;
  process_id := "7";
  read_dir w p := Ok (map Ok (remove_dups (omap (λ f, toy_below p f.1) (map_to_list (tf_files w)))));
  is_dir w p := existsb (λ f, match toy_below p f.1 with Some _ => true | None => false end)
                  (map_to_list (tf_files w));
  metadata w p :=
    match tf_files w !! p with
    | Some (b, t) => Ok (mkMetadata (zlen b) (Ok t))
    | None => Err (IoError 2)
    end;
  fs_read w p := match tf_files w !! p with Some (b, _) => Ok b | None => Err (IoError 2) end;
  fs_write w p b := (toy_put w p b, Ok tt);
  create_new w p :=
    match tf_files w !! p with Some _ => (w, Err (IoError 17)) | None => (toy_put w p [], Ok tt) end;
  write_all w p b := (toy_put w p b, Ok tt);
  rename w p q :=
    match tf_files w !! p with
    | Some f => (mkToyfs (<[q := f]> (delete p (tf_files w))) (tf_now w), Ok tt)
    | None => (w, Err (IoError 2))
    end;
  remove_file w p := (mkToyfs (delete p (tf_files w)) (tf_now w), Ok tt);
  remove_dir_all w p :=
    (mkToyfs (filter (λ f, toy_below p f.1 = None) (tf_files w)) (tf_now w), Ok tt);
  toml_from_slice b := match b with [u; c] => Some (mkStats u c) | _ => None end;
  toml_to_string s := Some [usages s; compression_level s];
  zstd_decode_all b := Some b;
  zstd_encode_all b _ := Some b;
|}.

Definition toy_sort (cmp : CacheEntry → CacheEntry → comparison) : list CacheEntry → list CacheEntry :=
  merge_sort (λ a b, cmp a b ≠ Gt).

Lemma toy_sort_spec cmp l :
  consistent cmp → toy_sort cmp l ≡ₚ l ∧ StronglySorted (λ a b, cmp a b ≠ Gt) (toy_sort cmp l).
Proof.
  intros [Hopp Htrans]. split; [apply merge_sort_Permutation|]. apply StronglySorted_merge_sort.
  - intros a b c. apply Htrans.
  - intros a b. destruct (cmp a b) eqn:E; [left; congruence|left; congruence|right].
    by rewrite Hopp, E.
Qed.

Definition ex_dir : path := ["cache"; "host"; "v1"].
Definition ex_config : CacheConfig := mkCacheConfig ["cache"] 3 20 256 3600 1800 86400 2 100 50 50.
Definition ex_fs : @env toy_env :=
  mkToyfs {[ ["cache"; "host"; "v1"; "a"] := ([1; 2; 3], 900);
             ["cache"; "host"; "v1"; "a.stats"] := ([5; 3], 990);
             ["cache"; "host"; "v1"; "b"] := ([1; 2], 950);
             ["cache"; "host"; "v1"; "c"] := ([1], 800);
             ["cache"; "junk"] := ([], 1) ]} 1000.

Definition size_nonneg (e : CacheEntry) : bool := 0 <=? entry_size e.

Lemma cleanup_policy_witness :
  ∃ kept deleted, cleanup ex_config elements toy_sort ex_fs = Ret (fold_left remove_item deleted ex_fs) ∧
    policy ex_config 87400 (list_cache_contents ex_config elements ex_fs) kept deleted.
Proof.
  apply (cleanup_policy ex_config elements toy_sort ex_fs).
  - exact toy_sort_spec.
  - split; cbn; lia.
  - reflexivity.
  - assert (Hb : forallb size_nonneg (list_cache_contents ex_config elements ex_fs) = true)
      by (vm_compute; reflexivity).
    apply Forall_forall. intros e He. rewrite forallb_forall in Hb.
    apply Z.leb_le, Hb. by apply list_elem_of_In.
  - vm_compute. reflexivity.
Defined.

(** Over the limit of two files, the youngest one is left. *)
Example ex_cleanup :
  match cleanup ex_config elements toy_sort ex_fs with
  | Ret w => map fst (map_to_list (tf_files w))
  | Panic => []
  end = map fst (map_to_list ({[ ["cache"; "host"; "v1"; "a"] := tt;
                                 ["cache"; "host"; "v1"; "a.stats"] := tt ]} : gmap path unit)).
Proof. vm_compute. reflexivity. Qed.

Lemma acquire_task_fs_lock_spec_witness :
  ∃ w' r, acquire_task_fs_lock ex_fs (["cache"] ++ [".cleanup"]) 3600 86400 = Ret (w', r).
Proof.
  destruct (acquire_task_fs_lock_spec ex_fs ["cache"] ".cleanup" 3600 86400 eq_refl)
    as (w' & r & E & _).
  exists w', r. exact E.
Defined.

Definition ex_names : list string :=
  remove_dups (omap (λ f, toy_below ex_dir f.1) (map_to_list (tf_files ex_fs))).

Lemma module_is_recognized_witness :
  Recognized ["cache"; "host"; "v1"; "a"] 990 3 ∈ enter_dir ex_config elements 0 ex_fs ex_dir.
Proof.
  eapply (module_is_recognized ex_config elements (λ s, reflexivity _) ex_fs ex_dir
    (map Ok ex_names) "a" (mkMetadata 3 (Ok 900)) 990).
  - reflexivity.
  - assert (Hb : forallb (λ n, bool_decide (n ≠ "" ∧ n ≠ "..")) ex_names = true)
      by (vm_compute; reflexivity).
    intros n (n' & [= <-] & Hn)%list_elem_of_fmap. rewrite forallb_forall in Hb.
    apply list_elem_of_In, Hb in Hn. by apply bool_decide_eq_true in Hn.
  - apply list_elem_of_fmap. exists "a". split; [reflexivity|].
    apply (bool_decide_unpack _). vm_compute. exact I.
  - vm_compute. reflexivity.
  - vm_compute. reflexivity.
  - vm_compute. reflexivity.
  - left. split; [|vm_compute; reflexivity]. apply (bool_decide_unpack _). vm_compute. exact I.
Defined.
