(* ===== verification/CacheEntries.v ===== *)
(** * Entries of the compilation cache

    Models [wasmtime-environ/src/cache.rs]: where the compiled code of a
    module is kept, how it is read and written, and the events that are sent
    to the worker thread ([cache/worker.rs]).  SHA-256, base64, bincode and
    the rest of the file system are operations of the class [EntryEnv]. *)

From S2P Require Import Prelude Environ CacheWorker.
From Stdlib Require Import Ascii.
Local Open Scope Z_scope.

(** What the entries use besides the environment of the worker; [data] is the
    type [ModuleCacheData]. *)
Class EntryEnv `{Env} := {
  data : Type;
  create_dir_all : env → path → env * result unit io_error;
  serialize : data → option bytes;
  deserialize : bytes → option data;
  sha256 : list hash_item → bytes;
  base64_url_safe_no_pad : bytes → string;
  triple : string;
  git_rev : string;
  self_mtime : string;
}.

(** ** Events *)

Inductive CacheEvent := OnCacheGet (p : path) | OnCacheUpdate (p : path).

(** The channel to the worker thread: the events that wait, its capacity, and
    whether the thread is still there to receive. *)
Record Worker := mkWorker { wk_queue : list CacheEvent; wk_size : Z; wk_alive : bool }.

(** The size of the queue, from the configuration; [usize] has 64 bits. *)
Definition queue_size (worker_event_queue_size : Z) : Z :=
  if worker_event_queue_size <=? 2 ^ 64 - 1 then worker_event_queue_size else 2 ^ 64 - 1.

Section entries.
Context `{EntryEnv}.

(** ** Paths of entries *)

Record ModuleCacheEntryInner := mkInner { mod_cache_path : path; entry_config : CacheConfig }.
Definition ModuleCacheEntry := option ModuleCacheEntryInner.

Definition digest (module : Module_) (bodies : list FunctionBodyData) : bytes :=
  sha256 (hash_for_cache module bodies).

Definition compiler_dir (debug_assertions : bool) (compiler_name : string) : string :=
  if debug_assertions then compiler_name +:+ "-" +:+ git_rev +:+ "-" +:+ self_mtime
  else compiler_name +:+ "-" +:+ git_rev.

Definition mod_filename (hash : bytes) (generate_debug_info : bool) : string :=
  "mod-" +:+ base64_url_safe_no_pad hash +:+ (if generate_debug_info then ".d" else "").

Definition ModuleCacheEntryInner_new (debug_assertions : bool) (module : Module_)
    (bodies : list FunctionBodyData) (compiler_name : string) (generate_debug_info : bool)
    (cfg : CacheConfig) : ModuleCacheEntryInner :=
  mkInner (directory cfg ++
    [triple; compiler_dir debug_assertions compiler_name;
     mod_filename (digest module bodies) generate_debug_info]) cfg.

(** [ModuleCacheEntry::new]; [enabled] is the setting of the configuration. *)
Definition ModuleCacheEntry_new (enabled debug_assertions : bool) (module : Module_)
    (bodies : list FunctionBodyData) (compiler_name : string) (generate_debug_info : bool)
    (cfg : CacheConfig) : ModuleCacheEntry :=
  if enabled
  then Some (ModuleCacheEntryInner_new debug_assertions module bodies compiler_name
               generate_debug_info cfg)
  else None.

(** ** Reading and writing *)

Definition inner_get_data (w : env) (self : ModuleCacheEntryInner) : option data :=
  match fs_read w (mod_cache_path self) with
  | Err _ => None
  | Ok compressed_cache_bytes => zstd_decode_all compressed_cache_bytes ≫= deserialize
  end.

Definition inner_update_data (w : env) (self : ModuleCacheEntryInner) (d : data)
    : res (env * option unit) :=
  match serialize d with
  | None => Ret (w, None)
  | Some serialized_data =>
      match zstd_encode_all serialized_data (baseline_compression_level (entry_config self)) with
      | None => Ret (w, None)
      | Some compressed_data =>
          let '(w, written) := fs_write_atomic w (mod_cache_path self) "mod" compressed_data in
          if written then Ret (w, Some tt)
          else
            cache_dir ← unwrap (parent (mod_cache_path self));
            let '(w, r) := create_dir_all w cache_dir in
            match r with
            | Err _ => Ret (w, None)
            | Ok _ =>
                let '(w, written) := fs_write_atomic w (mod_cache_path self) "mod" compressed_data in
                Ret (w, if written then Some tt else None)
            end
      end
  end.

(** [Worker::send_cache_event]: the send succeeds if the thread is there and
    the queue has room; the event is lost otherwise.  (A queue of capacity
    zero refuses every event here, also when the thread waits for one.) *)
Definition send_cache_event (wk : Worker) (event : CacheEvent) : Worker :=
  if wk_alive wk && (zlen (wk_queue wk) <? wk_size wk)
  then mkWorker (wk_queue wk ++ [event]) (wk_size wk) (wk_alive wk) else wk.

Definition get_data (w : env) (wk : Worker) (self : ModuleCacheEntry) : Worker * option data :=
  match self with
  | None => (wk, None)
  | Some inner =>
      match inner_get_data w inner with
      | Some d => (send_cache_event wk (OnCacheGet (mod_cache_path inner)), Some d)
      | None => (wk, None)
      end
  end.

Definition update_data (w : env) (wk : Worker) (self : ModuleCacheEntry) (d : data)
    : res (env * Worker) :=
  match self with
  | None => Ret (w, wk)
  | Some inner =>
      '(w, r) ← inner_update_data w inner d;
      match r with
      | Some _ => Ret (w, send_cache_event wk (OnCacheUpdate (mod_cache_path inner)))
      | None => Ret (w, wk)
      end
  end.

(** ** The worker thread *)

Context (map_iter : gset path → list path).
Context (sort_unstable_by : (CacheEntry → CacheEntry → comparison) → list CacheEntry → list CacheEntry).

Definition handle_event (cfg : CacheConfig) (w : env) (event : CacheEvent) : res env :=
  match event with
  | OnCacheGet p => handle_on_cache_get cfg w p
  | OnCacheUpdate p => handle_on_cache_update cfg map_iter sort_unstable_by w p
  end.

(** One turn of the loop of [WorkerThread::run]: the first event is handled.
    A panic ends the thread, which closes the channel; it leaves the files in
    some state. *)
Inductive worker_step (cfg : CacheConfig) : env * Worker → env * Worker → Prop :=
| worker_handles w w' event queue size :
    handle_event cfg w event = Ret w' →
    worker_step cfg (w, mkWorker (event :: queue) size true) (w', mkWorker queue size true)
| worker_panics w w' event queue size :
    handle_event cfg w event = Panic →
    worker_step cfg (w, mkWorker (event :: queue) size true) (w', mkWorker [] size false).

End entries.

(** ** Properties *)

Section properties.
Context `{EntryEnv}.
(** Base64 for URLs has letters, digits, [-] and [_]. *)
Context (Hbase64 : ∀ b, rsplit_dot (base64_url_safe_no_pad b) = None).

Lemma split_mod_filename hash debug :
  split_name (mod_filename hash debug) =
    ("mod-" +:+ base64_url_safe_no_pad hash, if debug then Some "d" else None).
Proof using Hbase64.
  assert (Hd : rsplit_dot ("mod-" +:+ base64_url_safe_no_pad hash) = None).
  { change (rsplit_dot (String "m"%char (String "o"%char (String "d"%char (String "-"%char (base64_url_safe_no_pad hash))))) = None).
    cbn [rsplit_dot]. by rewrite Hbase64. }
  unfold split_name, mod_filename. destruct debug.
  - rewrite bool_decide_eq_false_2 by (intros E; discriminate E).
    assert (E : "mod-" +:+ base64_url_safe_no_pad hash +:+ ".d" =
      ("mod-" +:+ base64_url_safe_no_pad hash) +:+ "." +:+ "d") by reflexivity.
    rewrite E, (rsplit_dot_app _ "d" eq_refl). reflexivity.
  - assert (E : base64_url_safe_no_pad hash +:+ "" = base64_url_safe_no_pad hash).
    { generalize (base64_url_safe_no_pad hash). intros s. induction s as [|c s IH]; [done|].
      change (String c (s +:+ "") = String c s). by rewrite IH. }
    rewrite E. rewrite bool_decide_eq_false_2 by (intros E'; discriminate E'). by rewrite Hd.
Qed.

(** The extension and the directory of an entry. *)
Lemma entry_path_spec dbg module bodies name debug cfg
    (inner := ModuleCacheEntryInner_new dbg module bodies name debug cfg)
    (dir := directory cfg ++ [triple; compiler_dir dbg name])
    (file := mod_filename (digest module bodies) debug) :
  mod_cache_path inner = dir ++ [file] ∧ parent (mod_cache_path inner) = Some dir ∧
  extension (mod_cache_path inner) = if debug then Some "d" else None.
Proof using Hbase64.
  assert (Hp : mod_cache_path inner = dir ++ [file]).
  { unfold inner, dir, file. cbn. by rewrite <- app_assoc. }
  split_and!; [done| |].
  - rewrite Hp. unfold parent. rewrite removelast_last. by destruct dir.
  - rewrite Hp. unfold extension. rewrite file_name_snoc. cbn. unfold file. by rewrite split_mod_filename.
Qed.

(** *** Reading back *)

Section roundtrip.
(** bincode and zstd decode what they have encoded; a file that was created,
    written and renamed has the contents that were written. *)
Context (Hbincode : ∀ d b, serialize d = Some b → deserialize b = Some d)
  (Hzstd : ∀ b level c, zstd_encode_all b level = Some c → zstd_decode_all c = Some b)
  (Hfiles : ∀ w w1 w2 w3 lock p c, create_new w lock = (w1, Ok tt) →
     write_all w1 lock c = (w2, Ok tt) → rename w2 lock p = (w3, Ok tt) → fs_read w3 p = Ok c).

Lemma fs_write_atomic_read w p reason c w' :
  fs_write_atomic w p reason c = (w', true) → fs_read w' p = Ok c.
Proof using Hfiles.
  unfold fs_write_atomic. destruct (create_new _ _) as [w1 [[]|]] eqn:E1; [|done].
  destruct (write_all _ _ _) as [w2 [[]|]] eqn:E2; [|done].
  destruct (rename _ _ _) as [w3 [[]|]] eqn:E3; [|done]. intros [= <-]. by eapply Hfiles.
Qed.

(** C36: what is stored is found.  Storing compiled code under the path of a
    module never panics, whether or not its directory exists, and when it
    reports success, looking the module up returns that code and announces
    the use to the worker. *)
Theorem update_then_get (dbg debug : bool) (module : Module_) (bodies : list FunctionBodyData)
    (name : string) (cfg : CacheConfig) (w : env) (d : data)
    (inner := ModuleCacheEntryInner_new dbg module bodies name debug cfg) :
  ∃ w' r, inner_update_data w inner d = Ret (w', r) ∧
    (r = Some tt → ∀ wk, get_data w' wk (Some inner) =
       (send_cache_event wk (OnCacheGet (mod_cache_path inner)), Some d)).
Proof using Hbase64 Hbincode Hzstd Hfiles.
  destruct (entry_path_spec dbg module bodies name debug cfg) as (_ & Hpar & _). fold inner in Hpar.
  unfold inner_update_data. destruct (serialize d) as [b|] eqn:Eb; [|by exists w, None].
  destruct (zstd_encode_all _ _) as [c|] eqn:Ec; [|by exists w, None].
  assert (Hget : ∀ w', fs_read w' (mod_cache_path inner) = Ok c → ∀ wk, get_data w' wk (Some inner) =
    (send_cache_event wk (OnCacheGet (mod_cache_path inner)), Some d)).
  { intros w' Hr wk. unfold get_data, inner_get_data. rewrite Hr, (Hzstd _ _ _ Ec). cbn.
    by rewrite (Hbincode _ _ Eb). }
  destruct (fs_write_atomic w _ _ c) as [w1 []] eqn:E1.
  { exists w1, (Some tt). split; [done|]. intros _. by eapply Hget, fs_write_atomic_read. }
  rewrite Hpar. cbn [unwrap]. rewrite bind_Ret_l.
  destruct (create_dir_all w1 _) as [w2 [u|e]] eqn:E2; [|by exists w2, None].
  destruct (fs_write_atomic w2 _ _ c) as [w3 []] eqn:E3.
  - exists w3, (Some tt). split; [done|]. intros _. by eapply Hget, fs_write_atomic_read.
  - by exists w3, None.
Qed.
End roundtrip.

(** *** Entries with debug information *)

(** A file with the extension [d] is not recognized. *)
Lemma dir_loop_debug (cfg : CacheConfig) w dir it name :
  Ok name ∈ it → is_dir w (dir ++ [name]) = false → extension (dir ++ [name]) = Some "d" →
  Unrecognized (dir ++ [name]) false ∈ (dir_loop cfg None w 2 dir it).1.
Proof.
  intros Hin Hd He. induction it as [|[n|e] it IH]; [by apply elem_of_nil in Hin| |].
  - cbn [dir_loop]. destruct (dir_entry cfg None w 2 (dir ++ [n])) as [pushed aside] eqn:Ee.
    destruct (dir_loop cfg None w 2 dir it) as [vec files]. cbn [fst] in *. apply elem_of_app.
    apply elem_of_cons in Hin as [[= ->]|Hin]; [left|right; by apply IH].
    unfold dir_entry in Ee. rewrite Hd, He in Ee. cbn in Ee. injection Ee as <- _. left.
  - cbn [dir_loop]. apply IH. by apply elem_of_cons in Hin as [[=]|?].
Qed.

(** The state in which a use of an entry leads to its recompression. *)
Definition used_often (cfg : CacheConfig) (w : env) (p stats_path : path) : Prop :=
  let stats := default (ModuleCacheStatistics_default cfg) (read_stats_file w stats_path) in
  0 ≤ usages stats + 1 < 2 ^ 64 ∧
  optimized_compression_usage_counter_threshold cfg ≤ usages stats + 1 ∧
  compression_level stats < optimized_compression_level cfg ∧
  (write_stats_file w stats_path (mkStats (usages stats + 1) (compression_level stats))).2 = true.

(** Entries of modules that are compiled with debug information.  Their
    file names end in [.d], which the worker takes for an extension: in the
    listing of their directory they are unrecognized files, which the next
    clean-up deletes; and the use that should lead to their recompression
    makes the worker thread panic, after which it handles no further event. *)
Lemma debug_entries_are_lost (dbg : bool) (module : Module_) (bodies : list FunctionBodyData)
    (name : string) (cfg : CacheConfig) (w : env)
    (map_iter : gset path → list path) (Hiter : ∀ s, map_iter s ≡ₚ elements s)
    (sort : (CacheEntry → CacheEntry → comparison) → list CacheEntry → list CacheEntry)
    (p := mod_cache_path (ModuleCacheEntryInner_new dbg module bodies name true cfg))
    (dir := directory cfg ++ [triple; compiler_dir dbg name])
    (file := mod_filename (digest module bodies) true) :
  (∀ it, read_dir w dir = Ok it → Ok file ∈ it → is_dir w p = false →
     Unrecognized p false ∈ enter_dir cfg map_iter 0 w dir) ∧
  (used_often cfg w p (dir ++ [file +:+ ".stats"]) → ∀ queue size σ,
     worker_step map_iter sort cfg (w, mkWorker (OnCacheGet p :: queue) size true) σ →
     σ.2 = mkWorker [] size false ∧ ∀ σ', ¬ worker_step map_iter sort cfg σ σ').
Proof using Hbase64.
  destruct (entry_path_spec dbg module bodies name true cfg) as (Hp & _ & Hext).
  fold p dir file in Hp, Hext. split.
  - intros it Hd Hin Hf. apply (enter_level2 cfg map_iter Hiter w dir it _ Hd). left.
    rewrite Hp in *. by apply dir_loop_debug.
  - intros (Hu & Ht & Hl & Hw) queue size σ Hstep.
    assert (Hpanic : handle_event map_iter sort cfg w (OnCacheGet p) = Panic).
    { cbn [handle_event]. unfold handle_on_cache_get, stats_path_of. rewrite Hp, file_name_snoc.
      cbn [unwrap]. rewrite !bind_Ret_l. unfold with_file_name. rewrite removelast_last.
      rewrite op_add_fits by exact Hu. rewrite bind_Ret_l. cbn [usages compression_level].
      destruct (write_stats_file _ _ _) as [w1 ok]. cbn in Hw. subst ok. cbn [negb].
      rewrite (proj2 (Z.leb_gt _ _)), (proj2 (Z.ltb_ge _ _)) by lia. cbn [orb].
      unfold acquire_task_fs_lock. rewrite <- Hp, Hext.
      rewrite (bool_decide_eq_false_2 (Some "d" = None)) by done. reflexivity. }
    inversion Hstep; subst; [congruence|]. split; [done|]. intros σ' Hs. inversion Hs.
Qed.

(** Entries without debug information do not have that problem. *)
Lemma plain_entries_are_handled (cfg : CacheConfig) (w : env) (p : path) :
  extension p = None → is_Some (file_name p) →
  (∀ stats, read_stats_file w (with_file_name p (default "" (file_name p) +:+ ".stats")) = Some stats →
     0 ≤ usages stats + 1 < 2 ^ 64) →
  ∃ w', handle_on_cache_get cfg w p = Ret w'.
Proof.
  intros He [n Hn] Hu. unfold handle_on_cache_get, stats_path_of. rewrite Hn in *. cbn [unwrap default] in *.
  rewrite !bind_Ret_l. set (sp := with_file_name p (n +:+ ".stats")) in *.
  rewrite op_add_fits.
  2:{ destruct (read_stats_file w sp) as [st|] eqn:Es; [by apply Hu|cbn; lia]. }
  rewrite bind_Ret_l. destruct (write_stats_file _ _ _) as [w1 []]; [|by eexists]. cbn [negb].
  destruct (_ || _); [by eexists|].
  unfold acquire_task_fs_lock. rewrite He, (bool_decide_eq_true_2 (None = None)) by done. cbn [rassert].
  rewrite bind_Ret_l. unfold file_stem. rewrite Hn. cbn [fmap option_fmap option_map].
  rewrite bool_decide_eq_true_2 by (by eexists). cbn [rassert]. rewrite bind_Ret_l.
  repeat (case_match; rewrite ?bind_Ret_l); by eexists.
Qed.
End properties.

(** ** Examples, on the file system in memory *)

Definition toy_entry_env : @EntryEnv toy_env := {|
  data := bytes;
  create_dir_all := λ w _, (w, Ok tt);
  serialize := λ d, Some d;
  deserialize := λ b, Some b;
  sha256 := λ _, [7];
  base64_url_safe_no_pad := λ _, "Bw";
  triple := "host";
  git_rev := "1";
  self_mtime := "0";
|}.

Definition toy_module : Module_ := ex_module [].
Definition toy_inner (debug : bool) : ModuleCacheEntryInner :=
  @ModuleCacheEntryInner_new toy_env toy_entry_env false toy_module [] "v" debug ex_config.
Definition toy_empty : @env toy_env := mkToyfs ∅ 1000.

Lemma update_then_get_witness :
  ∃ w', @inner_update_data toy_env toy_entry_env toy_empty (toy_inner false) [1; 2; 3] = Ret (w', Some tt) ∧
    @get_data toy_env toy_entry_env w' (mkWorker [] 16 true) (Some (toy_inner false)) =
      (mkWorker [OnCacheGet ["cache"; "host"; "v-1"; "mod-Bw"]] 16 true, Some [1; 2; 3]).
Proof.
  destruct (@update_then_get toy_env toy_entry_env) with (dbg := false) (debug := false)
    (module := toy_module) (bodies := @nil FunctionBodyData) (name := "v") (cfg := ex_config)
    (w := toy_empty) (d := [1; 2; 3]) as (w' & r & E & Hget).
  - reflexivity.
  - intros d b [= <-]. reflexivity.
  - intros b level c [= <-]. reflexivity.
  - intros w w1 w2 w3 lock p c E1 E2 E3. cbn in E1, E2, E3 |- *.
    injection E2 as <-. unfold toy_put in E3. cbn [tf_files tf_now] in E3.
    rewrite lookup_insert_eq in E3. injection E3 as <-. cbn [tf_files]. by rewrite lookup_insert_eq.
  - assert (r = Some tt) as ->.
    { assert (Hr : match @inner_update_data toy_env toy_entry_env toy_empty (toy_inner false) [1; 2; 3] with
        | Ret (_, r) => r | Panic => None end = Some tt) by (vm_compute; reflexivity).
      unfold toy_inner in Hr. rewrite E in Hr. exact Hr. }
    exists w'. split; [exact E|]. rewrite (Hget eq_refl). vm_compute. reflexivity.
Defined.

(** A module with debug information that has been used 300 times. *)
Definition toy_used : @env toy_env :=
  mkToyfs {[ ["cache"; "host"; "v-1"; "mod-Bw.d"] := ([1; 2; 3], 900);
             ["cache"; "host"; "v-1"; "mod-Bw.d.stats"] := ([300; 3], 990) ]} 1000.

Lemma debug_entries_are_lost_witness :
  ∃ σ, @worker_step toy_env elements toy_sort ex_config
    (toy_used, mkWorker [OnCacheGet (mod_cache_path (toy_inner true))] 16 true) σ ∧
    σ.2 = mkWorker [] 16 false.
Proof.
  assert (Hstep : @worker_step toy_env elements toy_sort ex_config
    (toy_used, mkWorker [OnCacheGet (mod_cache_path (toy_inner true))] 16 true)
    (toy_used, mkWorker [] 16 false)).
  { apply worker_panics. vm_compute. reflexivity. }
  exists (toy_used, mkWorker [] 16 false). split; [exact Hstep|].
  refine (proj1 (proj2 (@debug_entries_are_lost toy_env toy_entry_env (λ _, eq_refl) false toy_module
    [] "v" ex_config toy_used elements (λ s, reflexivity _) toy_sort) _ [] 16 _ Hstep)).
  vm_compute. repeat split; congruence.
Defined.
