(* ===== verification/CacheConfigs.v ===== *)
(** * The configuration of the cache

    Models [wasmtime-environ/src/cache/config.rs]: the formats of durations,
    counts, sizes and percentages, and how a configuration is read, validated
    and completed with defaults.  The TOML parser, the directories of the
    user and the file system are operations of the class [ConfigEnv]. *)

From S2P Require Import Prelude CacheWorker.
From Stdlib Require Import Ascii.
Local Open Scope Z_scope.

(** ** Text *)

(** A [&str] is the list of its characters. *)
Definition text := list Z.

Fixpoint str (s : string) : text :=
  match s with EmptyString => [] | String c s => Z.of_nat (nat_of_ascii c) :: str s end.

(** [char::is_whitespace] *)
Definition is_whitespace (c : Z) : bool :=
  ((9 <=? c) && (c <=? 13)) || (c =? 32) || (c =? 133) || (c =? 160) || (c =? 5760) ||
  ((8192 <=? c) && (c <=? 8202)) || (c =? 8232) || (c =? 8233) || (c =? 8239) || (c =? 8287) ||
  (c =? 12288).

Fixpoint trim_start (t : text) : text :=
  match t with [] => [] | c :: t' => if is_whitespace c then trim_start t' else t end.
Definition trim (t : text) : text := rev (trim_start (rev (trim_start t))).

Definition is_digit (c : Z) : bool := (48 <=? c) && (c <=? 57).

(** [str::parse] into an unsigned integer of [w] bits, of a text without
    sign. *)
Fixpoint parse_digits (w acc : Z) (t : text) : option Z :=
  match t with
  | [] => Some acc
  | c :: t =>
      if is_digit c
      then x ← checked_mul w acc 10; x ← checked_add w x (c - 48); parse_digits w x t
      else None
  end.
Definition parse (w : Z) (t : text) : option Z :=
  match t with [] => None | _ => parse_digits w 0 t end.

Section deserializers.
(** [char::is_numeric] outside ASCII: the other Unicode numerals. *)
Context (other_numeric : Z → bool).

Definition is_numeric (c : Z) : bool :=
  if c <? 128 then is_digit c else other_numeric c.

(** [text.find(|c| !c.is_numeric())] and [split_at] *)
Fixpoint split_number (t : text) : text * text :=
  match t with
  | [] => ([], [])
  | c :: t' => if is_numeric c then let '(n, u) := split_number t' in (c :: n, u) else ([], t)
  end.

(** [generate_deserializer!]: an optional text; the body answers [None] for a
    value that is not accepted. *)
Definition deserializer (w : Z) (body : Z → text → res (option Z)) (t : option text)
    : res (result (option Z) unit) :=
  match t with
  | None => Ret (Ok None)
  | Some t =>
      let t := trim t in
      let '(num, unit_) := split_number t in
      d ← match parse w num with Some num => body num (trim unit_) | None => Ret None end;
      Ret (match d with Some v => Ok (Some v) | None => Err tt end)
  end.

(** A duration, in seconds. *)
Definition duration_body (num : Z) (unit_ : text) : res (option Z) :=
  if bool_decide (unit_ = str "s") then Ret (Some num)
  else if bool_decide (unit_ = str "m") then x ← op_mul 64 num 60; Ret (Some x)
  else if bool_decide (unit_ = str "h") then
    x ← op_mul 64 num 60; x ← op_mul 64 x 60; Ret (Some x)
  else if bool_decide (unit_ = str "d") then
    x ← op_mul 64 num 60; x ← op_mul 64 x 60; x ← op_mul 64 x 24; Ret (Some x)
  else Ret None.
Definition deserialize_duration := deserializer 64 duration_body.

Definition si_prefix_body (num : Z) (unit_ : text) : res (option Z) :=
  Ret (if bool_decide (unit_ = str "") then Some num
       else if bool_decide (unit_ = str "K") then checked_mul 64 num 1000
       else if bool_decide (unit_ = str "M") then checked_mul 64 num 1000000
       else if bool_decide (unit_ = str "G") then checked_mul 64 num 1000000000
       else if bool_decide (unit_ = str "T") then checked_mul 64 num 1000000000000
       else if bool_decide (unit_ = str "P") then checked_mul 64 num 1000000000000000
       else None).
Definition deserialize_si_prefix := deserializer 64 si_prefix_body.

Definition disk_space_body (num : Z) (unit_ : text) : res (option Z) :=
  Ret (if bool_decide (unit_ = str "") then Some num
       else if bool_decide (unit_ = str "K") then checked_mul 64 num 1000
       else if bool_decide (unit_ = str "Ki") then checked_mul 64 num (2 ^ 10)
       else if bool_decide (unit_ = str "M") then checked_mul 64 num 1000000
       else if bool_decide (unit_ = str "Mi") then checked_mul 64 num (2 ^ 20)
       else if bool_decide (unit_ = str "G") then checked_mul 64 num 1000000000
       else if bool_decide (unit_ = str "Gi") then checked_mul 64 num (2 ^ 30)
       else if bool_decide (unit_ = str "T") then checked_mul 64 num 1000000000000
       else if bool_decide (unit_ = str "Ti") then checked_mul 64 num (2 ^ 40)
       else if bool_decide (unit_ = str "P") then checked_mul 64 num 1000000000000000
       else if bool_decide (unit_ = str "Pi") then checked_mul 64 num (2 ^ 50)
       else None).
Definition deserialize_disk_space := deserializer 64 disk_space_body.

Definition percent_body (num : Z) (unit_ : text) : res (option Z) :=
  Ret (if bool_decide (unit_ = str "%") then Some num else None).
Definition deserialize_percent := deserializer 8 percent_body.
End deserializers.

(** ** The configuration *)

(** The settings besides the directory. *)
Inductive Setting :=
| WorkerEventQueueSize | BaselineCompressionLevel | OptimizedCompressionLevel
| OptimizedCompressionUsageCounterThreshold | CleanupInterval | OptimizingCompressionTaskTimeout
| AllowedClockDriftForFilesFromFuture | FileCountSoftLimit | FilesTotalSizeSoftLimit
| FileCountLimitPercentIfDeleting | FilesTotalSizeLimitPercentIfDeleting.

#[export] Instance Setting_eq_dec : EqDecision Setting.
Proof. solve_decision. Defined.
Definition setting_code (s : Setting) : nat :=
  match s with
  | WorkerEventQueueSize => 0 | BaselineCompressionLevel => 1 | OptimizedCompressionLevel => 2
  | OptimizedCompressionUsageCounterThreshold => 3 | CleanupInterval => 4
  | OptimizingCompressionTaskTimeout => 5 | AllowedClockDriftForFilesFromFuture => 6
  | FileCountSoftLimit => 7 | FilesTotalSizeSoftLimit => 8 | FileCountLimitPercentIfDeleting => 9
  | FilesTotalSizeLimitPercentIfDeleting => 10
  end.
Definition all_settings : list Setting :=
  [WorkerEventQueueSize; BaselineCompressionLevel; OptimizedCompressionLevel;
   OptimizedCompressionUsageCounterThreshold; CleanupInterval; OptimizingCompressionTaskTimeout;
   AllowedClockDriftForFilesFromFuture; FileCountSoftLimit; FilesTotalSizeSoftLimit;
   FileCountLimitPercentIfDeleting; FilesTotalSizeLimitPercentIfDeleting].
#[export] Instance Setting_countable : Countable Setting.
Proof. refine (inj_countable setting_code (λ n, all_settings !! n) _). by intros []. Defined.

(** [CacheConfig] of the source: its settings are optional until they have
    been validated; durations are seconds. *)
Record CacheConfigData := mkConfigData {
  errors : list string;
  enabled : bool;
  o_directory : option path;
  o_settings : gmap Setting Z;
}.

Definition new_cache_disabled : CacheConfigData := mkConfigData [] false None ∅.
Definition new_cache_enabled_template : CacheConfigData := mkConfigData [] true None ∅.
Definition new_cache_with_errors (e : list string) : CacheConfigData := mkConfigData e false None ∅.

(** [generate_setting_getter!]: a setting that is missing panics. *)
Definition getter (c : CacheConfigData) (s : Setting) : res Z := unwrap (o_settings c !! s).

(** What the worker reads of the configuration, with times in nanoseconds. *)
Definition settings (c : CacheConfigData) : res CacheConfig :=
  d ← unwrap (o_directory c);
  b ← getter c BaselineCompressionLevel;
  o ← getter c OptimizedCompressionLevel;
  u ← getter c OptimizedCompressionUsageCounterThreshold;
  i ← getter c CleanupInterval;
  t ← getter c OptimizingCompressionTaskTimeout;
  a ← getter c AllowedClockDriftForFilesFromFuture;
  n ← getter c FileCountSoftLimit;
  s ← getter c FilesTotalSizeSoftLimit;
  np ← getter c FileCountLimitPercentIfDeleting;
  sp ← getter c FilesTotalSizeLimitPercentIfDeleting;
  Ret (mkCacheConfig d b o u (i * 10 ^ 9) (t * 10 ^ 9) (a * 10 ^ 9) n s np sp).

(** What the TOML library passes to the visitors, in its order. *)
#[warnings="-register-all"]
Inductive toml :=
| TStr (t : text) | TInt (n : Z) | TBool (b : bool) | TTable (entries : list (string * toml)) | TOther.

(** What the configuration uses of the environment; an error is the text of
    its message, without the paths and values that the source formats into
    it. *)
Class ConfigEnv `{Env} := {
  project_dirs : option (path * path);   (* the directories for configuration and cache *)
  exists_ : env → path → bool;
  is_absolute : path → bool;
  mkdir_all : env → path → env * result unit string;
  canonicalize : env → path → result path string;
  parse_toml : bytes → result (list (string * toml)) string;
  path_of : text → path;
  other_numeric : Z → bool;              (* numerals outside ASCII *)
  zstd_default_compression_level : Z;
}.

(** [ZSTD_COMPRESSION_LEVELS.contains] *)
Definition zstd_level_ok (l : Z) : bool := (0 <=? l) && (l <=? 21).

Section config.
Context `{ConfigEnv}.

(** *** [#[derive(Deserialize)]] of [Config] and [CacheConfig] *)

Definition setting_key (s : Setting) : string :=
  match s with
  | WorkerEventQueueSize => "worker-event-queue-size"
  | BaselineCompressionLevel => "baseline-compression-level"
  | OptimizedCompressionLevel => "optimized-compression-level"
  | OptimizedCompressionUsageCounterThreshold => "optimized-compression-usage-counter-threshold"
  | CleanupInterval => "cleanup-interval"
  | OptimizingCompressionTaskTimeout => "optimizing-compression-task-timeout"
  | AllowedClockDriftForFilesFromFuture => "allowed-clock-drift-for-files-from-future"
  | FileCountSoftLimit => "file-count-soft-limit"
  | FilesTotalSizeSoftLimit => "files-total-size-soft-limit"
  | FileCountLimitPercentIfDeleting => "file-count-limit-percent-if-deleting"
  | FilesTotalSizeLimitPercentIfDeleting => "files-total-size-limit-percent-if-deleting"
  end.

(** [deserialize_with] of each setting; the compression levels are plain
    [i32]s. *)
Definition deserialize_with (s : Setting) : option (option text → res (result (option Z) unit)) :=
  match s with
  | BaselineCompressionLevel | OptimizedCompressionLevel => None
  | WorkerEventQueueSize | OptimizedCompressionUsageCounterThreshold | FileCountSoftLimit =>
      Some (deserialize_si_prefix other_numeric)
  | CleanupInterval | OptimizingCompressionTaskTimeout | AllowedClockDriftForFilesFromFuture =>
      Some (deserialize_duration other_numeric)
  | FilesTotalSizeSoftLimit => Some (deserialize_disk_space other_numeric)
  | FileCountLimitPercentIfDeleting | FilesTotalSizeLimitPercentIfDeleting =>
      Some (deserialize_percent other_numeric)
  end.

Definition deserialize_setting (s : Setting) (v : toml) : res (result (option Z) string) :=
  match deserialize_with s, v with
  | None, TInt n =>
      Ret (if (- 2 ^ 31 <=? n) && (n <? 2 ^ 31) then Ok (Some n) else Err "invalid value")
  | Some f, TStr t =>
      r ← f (Some t);
      Ret (match r with
           | Ok o => Ok o
           | Err _ => Err "Invalid value, please refer to the documentation"
           end)
  | _, _ => Ret (Err "invalid type")
  end.

(** The field that an entry of the table sets. *)
Definition deserialize_field (c : CacheConfigData) (key : string) (v : toml)
    : res (result CacheConfigData string) :=
  if bool_decide (key = "enabled") then
    Ret (match v with
         | TBool b => Ok (mkConfigData (errors c) b (o_directory c) (o_settings c))
         | _ => Err "invalid type"
         end)
  else if bool_decide (key = "directory") then
    Ret (match v with
         | TStr t => Ok (mkConfigData (errors c) (enabled c) (Some (path_of t)) (o_settings c))
         | _ => Err "invalid type"
         end)
  else
    match list_find (λ s, setting_key s = key) all_settings with
    | None => Ret (Err "unknown field")
    | Some (_, s) =>
        r ← deserialize_setting s v;
        Ret (match r with
             | Err e => Err e
             | Ok o => Ok (mkConfigData (errors c) (enabled c) (o_directory c)
                             (partial_alter (λ _, o) s (o_settings c)))
             end)
    end.

(** The entries of the table, after those with the keys [seen]. *)
Fixpoint deserialize_entries (seen : list string) (c : CacheConfigData) (entries : list (string * toml))
    : res (result CacheConfigData string) :=
  match entries with
  | [] => Ret (if bool_decide ("enabled" ∈ seen) then Ok c else Err "missing field `enabled`")
  | (key, v) :: entries =>
      if bool_decide (key ∈ seen) then Ret (Err "duplicate field") else
      r ← deserialize_field c key v;
      match r with
      | Err e => Ret (Err e)
      | Ok c => deserialize_entries (key :: seen) c entries
      end
  end.

Fixpoint deserialize_Config (cache : option CacheConfigData) (doc : list (string * toml))
    : res (result CacheConfigData string) :=
  match doc with
  | [] => Ret (match cache with Some c => Ok c | None => Err "missing field `cache`" end)
  | (key, v) :: doc =>
      if negb (bool_decide (key = "cache")) then Ret (Err "unknown field") else
      match cache, v with
      | Some _, _ => Ret (Err "duplicate field")
      | None, TTable entries =>
          r ← deserialize_entries [] new_cache_disabled entries;
          match r with Err e => Ret (Err e) | Ok c => deserialize_Config (Some c) doc end
      | None, _ => Ret (Err "invalid type")
      end
  end.

(** [toml::from_slice::<Config>] *)
Definition parse_config (b : bytes) : res (result CacheConfigData string) :=
  match parse_toml b with
  | Ok doc => deserialize_Config None doc
  | Err e => Ret (Err e)
  end.

(** *** Reading and validating *)

Definition default_config_path : result path string :=
  match project_dirs with
  | Some (config_dir, _) => Ok (config_dir ++ ["wasmtime-cache-config.toml"])
  | None => Err "Config file not specified and failed to get the default"
  end.

Definition load_and_parse_file (w : env) (config_file : option path)
    : res (result CacheConfigData string) :=
  let where_ :=
    match config_file with
    | None => match default_config_path with Ok p => Ok (p, false) | Err e => Err e end
    | Some p => Ok (p, true)
    end in
  match where_ with
  | Err e => Ret (Err e)
  | Ok (p, user_custom_file) =>
      if negb (exists_ w p) && negb user_custom_file then Ret (Ok new_cache_enabled_template)
      else
        match fs_read w p with
        | Ok bytes =>
            r ← parse_config bytes;
            Ret (match r with
                 | Ok config => Ok config
                 | Err e => Err ("Failed to parse config file, error: " +:+ e)
                 end)
        | Err _ => Ret (Err "Failed to read config file")
        end
  end.

Definition push_error (c : CacheConfigData) (e : string) : CacheConfigData :=
  mkConfigData (errors c ++ [e]) (enabled c) (o_directory c) (o_settings c).
Definition set_directory (c : CacheConfigData) (d : path) : CacheConfigData :=
  mkConfigData (errors c) (enabled c) (Some d) (o_settings c).

Definition validate_directory_or_default (w : env) (c : CacheConfigData) : env * CacheConfigData :=
  let dir :=
    match o_directory c with
    | Some d => Some d
    | None => match project_dirs with Some (_, cache_dir) => Some cache_dir | None => None end
    end in
  match dir with
  | None => (w, push_error c "Cache directory not specified and failed to get the default")
  | Some d =>
      let c := set_directory c d in
      if negb (is_absolute d) then (w, push_error c "Cache directory path has to be absolute")
      else
        let '(w, r) := mkdir_all w d in
        match r with
        | Err e => (w, push_error c ("Failed to create the cache directory, error: " +:+ e))
        | Ok _ =>
            match canonicalize w d with
            | Ok p => (w, set_directory c p)
            | Err e => (w, push_error c ("Failed to canonicalize the cache directory, error: " +:+ e))
            end
        end
  end.

(** [if self.s.is_none() { self.s = Some(d) }] *)
Definition or_default (c : CacheConfigData) (s : Setting) (d : Z) : CacheConfigData :=
  match o_settings c !! s with
  | Some _ => c
  | None => mkConfigData (errors c) (enabled c) (o_directory c) (<[s := d]> (o_settings c))
  end.

(** A small queue is only warned about. *)
Definition validate_worker_event_queue_size_or_default (c : CacheConfigData) : res CacheConfigData :=
  let c := or_default c WorkerEventQueueSize 16 in
  _ ← getter c WorkerEventQueueSize; Ret c.

Definition validate_baseline_compression_level_or_default (c : CacheConfigData) : res CacheConfigData :=
  let c := or_default c BaselineCompressionLevel zstd_default_compression_level in
  l ← getter c BaselineCompressionLevel;
  Ret (if zstd_level_ok l then c else push_error c "Invalid baseline compression level").

Definition validate_optimized_compression_level_or_default (c : CacheConfigData) : res CacheConfigData :=
  let c := or_default c OptimizedCompressionLevel 20 in
  opt_lvl ← getter c OptimizedCompressionLevel;
  base_lvl ← getter c BaselineCompressionLevel;
  let c := if zstd_level_ok opt_lvl then c else push_error c "Invalid optimized compression level" in
  Ret (if opt_lvl <? base_lvl
       then push_error c "Invalid optimized compression level is lower than baseline" else c).

Definition validate_optimized_compression_usage_counter_threshold_or_default (c : CacheConfigData) :=
  or_default c OptimizedCompressionUsageCounterThreshold 256.
Definition validate_cleanup_interval_or_default (c : CacheConfigData) :=
  or_default c CleanupInterval (60 * 60).
Definition validate_optimizing_compression_task_timeout_or_default (c : CacheConfigData) :=
  or_default c OptimizingCompressionTaskTimeout (30 * 60).
Definition validate_allowed_clock_drift_for_files_from_future_or_default (c : CacheConfigData) :=
  or_default c AllowedClockDriftForFilesFromFuture (60 * 60 * 24).
Definition validate_file_count_soft_limit_or_default (c : CacheConfigData) :=
  or_default c FileCountSoftLimit 65536.
Definition validate_files_total_size_soft_limit_or_default (c : CacheConfigData) :=
  or_default c FilesTotalSizeSoftLimit (1024 * 1024 * 512).

Definition validate_file_count_limit_percent_if_deleting_or_default (c : CacheConfigData)
    : res CacheConfigData :=
  let c := or_default c FileCountLimitPercentIfDeleting 70 in
  percent ← getter c FileCountLimitPercentIfDeleting;
  Ret (if 100 <? percent then push_error c "Invalid files count limit percent if deleting" else c).

Definition validate_files_total_size_limit_percent_if_deleting_or_default (c : CacheConfigData)
    : res CacheConfigData :=
  let c := or_default c FilesTotalSizeLimitPercentIfDeleting 70 in
  percent ← getter c FilesTotalSizeLimitPercentIfDeleting;
  Ret (if 100 <? percent
       then push_error c "Invalid files total size limit percent if deleting" else c).

Definition disable_if_any_error (c : CacheConfigData) : CacheConfigData :=
  match errors c with [] => c | e => new_cache_with_errors e end.

Definition from_file (w : env) (enabled_ : bool) (config_file : option path)
    : res (env * CacheConfigData) :=
  if negb enabled_ then Ret (w, new_cache_disabled) else
  loaded ← load_and_parse_file w config_file;
  match loaded with
  | Err err => Ret (w, new_cache_with_errors [err])
  | Ok config =>
      let '(w, config) := validate_directory_or_default w config in
      config ← validate_worker_event_queue_size_or_default config;
      config ← validate_baseline_compression_level_or_default config;
      config ← validate_optimized_compression_level_or_default config;
      let config := validate_optimized_compression_usage_counter_threshold_or_default config in
      let config := validate_cleanup_interval_or_default config in
      let config := validate_optimizing_compression_task_timeout_or_default config in
      let config := validate_allowed_clock_drift_for_files_from_future_or_default config in
      let config := validate_file_count_soft_limit_or_default config in
      let config := validate_files_total_size_soft_limit_or_default config in
      config ← validate_file_count_limit_percent_if_deleting_or_default config;
      config ← validate_files_total_size_limit_percent_if_deleting_or_default config;
      Ret (w, disable_if_any_error config)
  end.

(** ** Initialisation *)

(** The statics of the cache: whether [init] has been called, and the
    configuration once it is fixed. *)
Record CacheState := mkCacheState { init_called : bool; config : option CacheConfigData }.

Definition cache_config (g : CacheState) : CacheState * CacheConfigData :=
  match config g with
  | Some c => (g, c)
  | None => (mkCacheState (init_called g) (Some new_cache_disabled), new_cache_disabled)
  end.

(** [init]: the errors are returned; the worker is started when there are
    none and the cache is enabled. *)
Definition init (w : env) (g : CacheState) (enabled_ : bool) (config_file : option path)
    : res (env * CacheState * bool * list string) :=
  _ ← rassert (negb (init_called g));
  _ ← rassert (bool_decide (config g = None));
  '(w, conf) ← from_file w enabled_ config_file;
  let start_worker := match errors conf with [] => enabled conf | _ => false end in
  Ret (w, mkCacheState true (Some conf), start_worker, errors conf).

(** The contents of a new configuration file. *)
Definition config_template : bytes := str
"# Comment out certain settings to use default values.
# For more settings, please refer to the documentation:
# https://github.com/CraneStation/wasmtime/blob/master/CACHE_CONFIGURATION.md

[cache]
enabled = true
".

(** [create_new_config] *)
Definition create_new_config (w : env) (config_file : option path) : env * result path string :=
  let where_ := match config_file with None => default_config_path | Some p => Ok p end in
  match where_ with
  | Err e => (w, Err e)
  | Ok p =>
      if exists_ w p then (w, Err "Specified config file already exists!")
      else
        match parent p with
        | None => (w, Err "Invalid cache config path")
        | Some parent_dir =>
            let '(w, r) := mkdir_all w parent_dir in
            match r with
            | Err e => (w, Err ("Failed to create config directory, error: " +:+ e))
            | Ok _ =>
                let '(w, r) := fs_write w p config_template in
                (w, match r with
                    | Ok _ => Ok p
                    | Err _ => Err "Failed to flush config to the disk"
                    end)
            end
        end
  end.
End config.

(** ** Properties of the formats *)

(** The number that digits denote. *)
Definition digits_value (acc : Z) (ds : text) : Z := foldl (λ a c, a * 10 + (c - 48)) acc ds.

(** The units of the formats, with their factors. *)
Definition si_units : list (string * Z) :=
  [("", 1); ("K", 10 ^ 3); ("M", 10 ^ 6); ("G", 10 ^ 9); ("T", 10 ^ 12); ("P", 10 ^ 15)].
Definition disk_units : list (string * Z) :=
  si_units ++ [("Ki", 2 ^ 10); ("Mi", 2 ^ 20); ("Gi", 2 ^ 30); ("Ti", 2 ^ 40); ("Pi", 2 ^ 50)].
Definition duration_units : list (string * Z) :=
  [("s", 1); ("m", 60); ("h", 3600); ("d", 86400)].

(** Characters that neither begin a number nor are blank: the units. *)
Definition unit_chars (t : text) : Prop :=
  Forall (λ c, is_whitespace c = false ∧ is_digit c = false ∧ c < 128) t.

Lemma trim_start_blank ws t :
  Forall (λ c, is_whitespace c = true) ws → trim_start (ws ++ t) = trim_start t.
Proof. induction 1 as [|c ws E _ IH]; cbn; [done|]. by rewrite E. Qed.

(** A text that does not begin with a blank. *)
Definition inked (t : text) : Prop :=
  match t with c :: _ => is_whitespace c = false | [] => True end.

Lemma trim_start_id t : inked t → trim_start t = t.
Proof. destruct t; cbn; [done|]. by intros ->. Qed.

Lemma trim_spec ws1 t ws2 :
  Forall (λ c, is_whitespace c = true) ws1 → Forall (λ c, is_whitespace c = true) ws2 →
  inked t → inked (rev t) → trim (ws1 ++ t ++ ws2) = t.
Proof.
  intros H1 H2 Hh Hl. unfold trim. rewrite trim_start_blank by done. destruct t as [|c t].
  - cbn [app]. rewrite <- (app_nil_r ws2), trim_start_blank by done. done.
  - rewrite (trim_start_id ((c :: t) ++ ws2)) by done. rewrite rev_app_distr, trim_start_blank.
    2:{ by apply List.Forall_rev. }
    rewrite trim_start_id by done. apply rev_involutive.
Qed.

Lemma inked_app t1 t2 : t1 ≠ [] → inked t1 → inked (t1 ++ t2).
Proof. by destruct t1. Qed.

Lemma rev_not_nil (t : text) : t ≠ [] → rev t ≠ [].
Proof. intros Ht E. apply (f_equal (@rev Z)) in E. rewrite rev_involutive in E. done. Qed.

Lemma inked_Forall (P : Z → Prop) t :
  (∀ c, P c → is_whitespace c = false) → Forall P t → inked t ∧ inked (rev t).
Proof.
  intros HP Ht. split; [destruct Ht; cbn; auto|]. apply List.Forall_rev in Ht. destruct Ht; cbn; auto.
Qed.

Lemma digit_not_blank c : is_digit c = true → is_whitespace c = false.
Proof. unfold is_digit, is_whitespace. lia. Qed.

Lemma digits_value_mono acc ds :
  0 ≤ acc → Forall (λ c, is_digit c = true) ds → acc ≤ digits_value acc ds.
Proof.
  intros Ha H. revert acc Ha. induction H as [|c ds Hc _ IH]; intros acc Ha; cbn; [lia|].
  unfold is_digit in Hc. specialize (IH (acc * 10 + (c - 48)) ltac:(lia)). unfold digits_value in IH. lia.
Qed.

Lemma parse_digits_spec w acc ds :
  0 ≤ acc < 2 ^ w → Forall (λ c, is_digit c = true) ds →
  parse_digits w acc ds = if digits_value acc ds <? 2 ^ w then Some (digits_value acc ds) else None.
Proof.
  intros Ha H. revert acc Ha. induction H as [|c ds Hc Hds IH]; intros acc Ha.
  { cbn. by rewrite (proj2 (Z.ltb_lt _ _)) by lia. }
  cbn [parse_digits]. rewrite Hc. unfold is_digit in Hc.
  assert (Hm : 0 ≤ acc * 10 + (c - 48)) by lia.
  pose proof (digits_value_mono _ ds Hm Hds) as Hv.
  assert (E : digits_value acc (c :: ds) = digits_value (acc * 10 + (c - 48)) ds) by done. rewrite E.
  unfold checked_mul, checked_add.
  destruct (in_u w (acc * 10)) eqn:E1; cbn.
  - destruct (in_u w (acc * 10 + (c - 48))) eqn:E2; cbn.
    + apply IH. by apply in_u_spec.
    + apply in_u_false in E2. rewrite (proj2 (Z.ltb_ge _ _)) by lia. done.
  - apply in_u_false in E1. rewrite (proj2 (Z.ltb_ge _ _)) by lia. done.
Qed.

Section formats.
Context (other_numeric : Z → bool)
  (Hnumeric : ∀ c, is_whitespace c = true → other_numeric c = false).

Lemma split_number_spec ds t :
  Forall (λ c, is_digit c = true) ds →
  match t with c :: _ => is_numeric other_numeric c = false | [] => True end →
  split_number other_numeric (ds ++ t) = (ds, t).
Proof.
  intros Hd Ht. induction Hd as [|c ds Hc _ IH]; cbn.
  - destruct t as [|c t]; cbn; [done|]. by rewrite Ht.
  - assert (Hn : is_numeric other_numeric c = true).
    { unfold is_numeric. unfold is_digit in *. by rewrite (proj2 (Z.ltb_lt _ _)) by lia. }
    by rewrite Hn, IH.
Qed.

Lemma blank_not_numeric c : is_whitespace c = true → is_numeric other_numeric c = false.
Proof using Hnumeric.
  intros Hw. unfold is_numeric. destruct (c <? 128) eqn:E; [|by apply Hnumeric].
  destruct (is_digit c) eqn:Ed; [|done]. apply digit_not_blank in Ed. congruence.
Qed.

(** A number and a unit, with blanks around them. *)
Lemma trim_number ws1 ds ws2 u ws3 :
  ds ≠ [] → Forall (λ c, is_whitespace c = true) (ws1 ++ ws2 ++ ws3) →
  Forall (λ c, is_digit c = true) ds → unit_chars u →
  ∃ t, split_number other_numeric (trim (ws1 ++ ds ++ ws2 ++ u ++ ws3)) = (ds, t) ∧ trim t = u.
Proof using Hnumeric.
  intros Hne [H1 [H2 H3]%Forall_app]%Forall_app Hd Hu.
  destruct (inked_Forall _ ds digit_not_blank Hd) as [Id Rd].
  destruct (inked_Forall _ u (λ c, @proj1 _ _) Hu) as [Iu Ru].
  destruct (decide (u = [])) as [->|Hun].
  - exists []. split; [|done]. rewrite app_nil_l, trim_spec; [|done|by apply Forall_app|done..].
    rewrite <- (app_nil_r ds) at 1. by apply split_number_spec.
  - exists (ws2 ++ u). split.
    2:{ pose proof (trim_spec ws2 u [] H2 ltac:(done) Iu Ru) as E. by rewrite app_nil_r in E. }
    replace (ws1 ++ ds ++ ws2 ++ u ++ ws3) with (ws1 ++ (ds ++ ws2 ++ u) ++ ws3)
      by (by rewrite <- !app_assoc).
    rewrite trim_spec; [|done..|by apply inked_app|].
    2:{ rewrite app_assoc, rev_app_distr. apply inked_app; [by apply rev_not_nil|done]. }
    apply split_number_spec; [done|]. destruct H2 as [|c ws2 Hc _]; [|by apply blank_not_numeric].
    destruct Hu as [|c u [_ [Hc Hlt]] _]; [done|]. cbn. unfold is_numeric.
    by rewrite (proj2 (Z.ltb_lt _ _)) by done.
Qed.

Lemma deserializer_spec w body ws1 ds ws2 u ws3 :
  0 < w → ds ≠ [] →
  Forall (λ c, is_whitespace c = true) (ws1 ++ ws2 ++ ws3) → Forall (λ c, is_digit c = true) ds →
  unit_chars u →
  deserializer other_numeric w body (Some (ws1 ++ ds ++ ws2 ++ u ++ ws3)) =
    d ← if digits_value 0 ds <? 2 ^ w then body (digits_value 0 ds) u else Ret None;
    Ret (match d with Some v => Ok (Some v) | None => Err tt end).
Proof using Hnumeric.
  intros Hw Hne Hws Hd Hu. unfold deserializer.
  destruct (trim_number _ _ _ _ _ Hne Hws Hd Hu) as (t & -> & Ht). rewrite Ht.
  assert (Hp : parse w ds = if digits_value 0 ds <? 2 ^ w then Some (digits_value 0 ds) else None).
  { unfold parse. destruct ds; [done|]. apply parse_digits_spec; [|done].
    split; [lia|]. apply Z.pow_pos_nonneg; lia. }
  rewrite Hp. by destruct (_ <? _).
Qed.

(** What each format makes of a number [n] and a unit with the factor [k]. *)
Lemma units_are_units u k : (u, k) ∈ ("%", 1) :: disk_units ++ duration_units → unit_chars (str u) ∧ 1 ≤ k.
Proof using.
  intros Hu. cbn in Hu. repeat (apply elem_of_cons in Hu as [[= -> ->]|Hu]); [..|by apply elem_of_nil in Hu].
  all: split; [repeat constructor|lia].
Qed.

Definition fits_or_none (n k : Z) : option Z := if n * k <? 2 ^ 64 then Some (n * k) else None.

Lemma checked_mul_fits_or_none n k : 0 ≤ n → 0 ≤ k → checked_mul 64 n k = fits_or_none n k.
Proof using. intros. unfold checked_mul, in_u, fits_or_none. by rewrite (proj2 (Z.leb_le 0 _)) by lia. Qed.

Lemma fits_or_none_1 n : n < 2 ^ 64 → fits_or_none n 1 = Some n.
Proof using. intros. unfold fits_or_none. rewrite Z.mul_1_r. by rewrite (proj2 (Z.ltb_lt _ _)) by done. Qed.

Lemma si_prefix_units u k n :
  (u, k) ∈ si_units → 0 ≤ n < 2 ^ 64 → si_prefix_body n (str u) = Ret (fits_or_none n k).
Proof using.
  intros Hu Hn. repeat (apply elem_of_cons in Hu as [[= -> ->]|Hu]); [..|by apply elem_of_nil in Hu].
  { rewrite fits_or_none_1 by lia. done. }
  all: unfold si_prefix_body; cbn [str]; repeat (rewrite bool_decide_false by done); rewrite bool_decide_true by done; by rewrite checked_mul_fits_or_none by lia.
Qed.

Lemma disk_space_units u k n :
  (u, k) ∈ disk_units → 0 ≤ n < 2 ^ 64 → disk_space_body n (str u) = Ret (fits_or_none n k).
Proof using.
  intros Hu Hn. cbn [disk_units si_units app] in Hu.
  repeat (apply elem_of_cons in Hu as [[= -> ->]|Hu]); [..|by apply elem_of_nil in Hu].
  { rewrite fits_or_none_1 by lia. done. }
  all: unfold disk_space_body; repeat (rewrite bool_decide_false by done);
    rewrite bool_decide_true by done; by rewrite checked_mul_fits_or_none by lia.
Qed.

(** The unchecked products of the durations. *)
Lemma op_mul_chain n k1 k2 :
  0 ≤ n → 1 ≤ k1 → 1 ≤ k2 →
  (x ← (if n * k1 <? 2 ^ 64 then Ret (n * k1) else Panic); op_mul 64 x k2) =
    if n * (k1 * k2) <? 2 ^ 64 then Ret (n * (k1 * k2)) else Panic.
Proof using.
  intros. rewrite Z.mul_assoc. destruct (n * k1 <? 2 ^ 64) eqn:E.
  - rewrite bind_Ret_l. unfold op_mul. rewrite checked_mul_fits_or_none by lia. unfold fits_or_none.
    by case_match.
  - cbn [mbind res_mbind]. rewrite (proj2 (Z.ltb_ge _ _)); [done|]. nia.
Qed.

Lemma duration_units_spec u k n :
  (u, k) ∈ duration_units → 0 ≤ n < 2 ^ 64 →
  duration_body n (str u) = if n * k <? 2 ^ 64 then Ret (Some (n * k)) else Panic.
Proof using.
  intros Hu Hn. assert (E1 : op_mul 64 n 60 = if n * 60 <? 2 ^ 64 then Ret (n * 60) else Panic).
  { unfold op_mul. rewrite checked_mul_fits_or_none by lia. unfold fits_or_none. by case_match. }
  repeat (apply elem_of_cons in Hu as [[= -> ->]|Hu]); [..|by apply elem_of_nil in Hu].
  - rewrite Z.mul_1_r, (proj2 (Z.ltb_lt _ _)) by lia. done.
  - change (duration_body n (str "m")) with (x ← op_mul 64 n 60; Ret (Some x)). rewrite E1. by case_match.
  - change (duration_body n (str "h")) with (x ← op_mul 64 n 60; x ← op_mul 64 x 60; Ret (Some x)).
    pose proof (op_mul_chain n 60 60 ltac:(lia) ltac:(lia) ltac:(lia)) as E2. rewrite <- E1 in E2.
    change (60 * 60) with 3600 in E2. destruct (op_mul 64 n 60) as [x|]; cbn in E2 |- *.
    + rewrite E2. by case_match.
    + by case_match.
  - change (duration_body n (str "d")) with
      (x ← op_mul 64 n 60; x ← op_mul 64 x 60; x ← op_mul 64 x 24; Ret (Some x)).
    pose proof (op_mul_chain n 60 60 ltac:(lia) ltac:(lia) ltac:(lia)) as E2. rewrite <- E1 in E2.
    pose proof (op_mul_chain n 3600 24 ltac:(lia) ltac:(lia) ltac:(lia)) as E3.
    change (60 * 60) with 3600 in E2. change (3600 * 24) with 86400 in E3. rewrite <- E2 in E3.
    destruct (op_mul 64 n 60) as [x|]; cbn in E3 |- *; [|by case_match].
    destruct (op_mul 64 x 60) as [y|]; cbn in E3 |- *; [|by case_match].
    rewrite E3. by case_match.
Qed.

(** The formats of the settings.  A number in decimal digits and a unit,
    with any blanks before, between and after, is read as their product by
    the formats of counts, of sizes and of percentages when it fits, and
    refused otherwise; the format of durations panics when the number fits
    64 bits and the product does not. *)
Theorem formats_spec (ws1 ds ws2 ws3 : text) (u : string) (k : Z)
    (Hne : ds ≠ []) (Hws : Forall (λ c, is_whitespace c = true) (ws1 ++ ws2 ++ ws3))
    (Hds : Forall (λ c, is_digit c = true) ds)
    (t := Some (ws1 ++ ds ++ ws2 ++ str u ++ ws3)) (v := digits_value 0 ds * k) :
  ((u, k) ∈ si_units → deserialize_si_prefix other_numeric t =
     Ret (if v <? 2 ^ 64 then Ok (Some v) else Err tt)) ∧
  ((u, k) ∈ disk_units → deserialize_disk_space other_numeric t =
     Ret (if v <? 2 ^ 64 then Ok (Some v) else Err tt)) ∧
  ((u, k) = ("%", 1) → deserialize_percent other_numeric t =
     Ret (if v <? 2 ^ 8 then Ok (Some v) else Err tt)) ∧
  ((u, k) ∈ duration_units → deserialize_duration other_numeric t =
     if v <? 2 ^ 64 then Ret (Ok (Some v))
     else if digits_value 0 ds <? 2 ^ 64 then Panic else Ret (Err tt)).
Proof using Hnumeric.
  pose proof (digits_value_mono 0 ds ltac:(lia) Hds) as Hv0.
  assert (Hbig : (u, k) ∈ ("%", 1) :: disk_units ++ duration_units → (digits_value 0 ds <? 2 ^ 64) = false →
    (v <? 2 ^ 64) = false).
  { intros [_ Hk]%units_are_units Hb%Z.ltb_ge. apply Z.ltb_ge. unfold v. nia. }
  assert (Hspec : (u, k) ∈ ("%", 1) :: disk_units ++ duration_units → ∀ w body, 0 < w →
    deserializer other_numeric w body t =
      d ← if digits_value 0 ds <? 2 ^ w then body (digits_value 0 ds) (str u) else Ret None;
      Ret (match d with Some v => Ok (Some v) | None => Err tt end)).
  { intros [Hu _]%units_are_units w body Hw. by apply deserializer_spec. }
  assert (Hsi : (u, k) ∈ si_units → (u, k) ∈ ("%", 1) :: disk_units ++ duration_units).
  { intros Hu. right. apply elem_of_app. left. apply elem_of_app. by left. }
  assert (Hdu : (u, k) ∈ duration_units → (u, k) ∈ ("%", 1) :: disk_units ++ duration_units).
  { intros Hu. right. apply elem_of_app. by right. }
  assert (Hdi : (u, k) ∈ disk_units → (u, k) ∈ ("%", 1) :: disk_units ++ duration_units).
  { intros Hu. right. apply elem_of_app. by left. }
  split_and!; intros Hu.
  - unfold deserialize_si_prefix. rewrite (Hspec (Hsi Hu)) by lia.
    destruct (digits_value 0 ds <? 2 ^ 64) eqn:E; [|by rewrite (Hbig (Hsi Hu) eq_refl)].
    rewrite (si_prefix_units u k) by (done || lia). unfold fits_or_none, v. by destruct (digits_value 0 ds * k <? 2 ^ 64).
  - unfold deserialize_disk_space. rewrite (Hspec (Hdi Hu)) by lia.
    destruct (digits_value 0 ds <? 2 ^ 64) eqn:E; [|by rewrite (Hbig (Hdi Hu) eq_refl)].
    rewrite (disk_space_units u k) by (done || lia). unfold fits_or_none, v. by destruct (digits_value 0 ds * k <? 2 ^ 64).
  - unfold deserialize_percent. rewrite Hspec by (lia || by rewrite Hu; left).
    injection Hu as -> ->. unfold v. rewrite Z.mul_1_r. by destruct (digits_value 0 ds <? 2 ^ 8).
  - unfold deserialize_duration. rewrite (Hspec (Hdu Hu)) by lia.
    destruct (digits_value 0 ds <? 2 ^ 64) eqn:E; [|by rewrite (Hbig (Hdu Hu) eq_refl)].
    rewrite (duration_units_spec u k) by (done || lia). unfold v. by destruct (digits_value 0 ds * k <? 2 ^ 64).
Qed.
End formats.

(** ** Properties of the validation *)

Section validation.
Context `{ConfigEnv}.

(** The documented default of each setting. *)
Definition default_of (s : Setting) : Z :=
  match s with
  | WorkerEventQueueSize => 16
  | BaselineCompressionLevel => zstd_default_compression_level
  | OptimizedCompressionLevel => 20
  | OptimizedCompressionUsageCounterThreshold => 256
  | CleanupInterval => 3600
  | OptimizingCompressionTaskTimeout => 1800
  | AllowedClockDriftForFilesFromFuture => 86400
  | FileCountSoftLimit => 65536
  | FilesTotalSizeSoftLimit => 2 ^ 29
  | FileCountLimitPercentIfDeleting | FilesTotalSizeLimitPercentIfDeleting => 70
  end.

(** The value of a setting: what the file says, else the default. *)
Definition chosen (m : gmap Setting Z) (s : Setting) : Z := default (default_of s) (m !! s).

Definition chosen_ok (v : Setting → Z) : bool :=
  zstd_level_ok (v BaselineCompressionLevel) && zstd_level_ok (v OptimizedCompressionLevel) &&
  (v BaselineCompressionLevel <=? v OptimizedCompressionLevel) &&
  (v FileCountLimitPercentIfDeleting <=? 100) && (v FilesTotalSizeLimitPercentIfDeleting <=? 100).

(** What a validation does to the configuration: it completes one setting,
    and records an error unless [ok]. *)
Record validates (s : Setting) (ok : bool) (c c' : CacheConfigData) : Prop := {
  val_enabled : enabled c' = enabled c;
  val_directory : o_directory c' = o_directory c;
  val_settings : o_settings c' = <[s := chosen (o_settings c) s]> (o_settings c);
  val_errors : errors c' = [] ↔ errors c = [] ∧ ok = true;
}.

Lemma or_default_eq c s :
  or_default c s (default_of s) =
    mkConfigData (errors c) (enabled c) (o_directory c) (<[s := chosen (o_settings c) s]> (o_settings c)).
Proof.
  unfold or_default, chosen. destruct (o_settings c !! s) as [v|] eqn:E; [|done]. cbn.
  rewrite insert_id by done. by destruct c.
Qed.

Lemma validates_default c s : validates s true c (or_default c s (default_of s)).
Proof. rewrite or_default_eq. constructor; cbn; naive_solver. Qed.

Lemma validates_checked c s (ok : bool) e :
  validates s ok c (if ok then or_default c s (default_of s)
                    else push_error (or_default c s (default_of s)) e).
Proof.
  rewrite or_default_eq. destruct ok; constructor; cbn; try naive_solver.
  split; [intros []%app_one_not_nil|naive_solver].
Qed.

Lemma getter_default c s : getter (or_default c s (default_of s)) s = Ret (chosen (o_settings c) s).
Proof. rewrite or_default_eq. unfold getter. cbn. by rewrite lookup_insert_eq. Qed.

Lemma validate_baseline_spec c :
  ∃ c', validate_baseline_compression_level_or_default c = Ret c' ∧
    validates BaselineCompressionLevel (zstd_level_ok (chosen (o_settings c) BaselineCompressionLevel)) c c'.
Proof.
  unfold validate_baseline_compression_level_or_default.
  pose proof (getter_default c BaselineCompressionLevel) as E. cbn [default_of] in E.
  rewrite E, bind_Ret_l. eexists. split; [done|]. apply (validates_checked c BaselineCompressionLevel).
Qed.

Lemma validate_optimized_spec c base :
  o_settings c !! BaselineCompressionLevel = Some base →
  let lvl := chosen (o_settings c) OptimizedCompressionLevel in
  ∃ c', validate_optimized_compression_level_or_default c = Ret c' ∧
    validates OptimizedCompressionLevel (zstd_level_ok lvl && (base <=? lvl)) c c'.
Proof.
  intros Hb lvl. unfold validate_optimized_compression_level_or_default.
  pose proof (getter_default c OptimizedCompressionLevel) as E. cbn [default_of] in E.
  rewrite E, bind_Ret_l. fold lvl. pose proof (or_default_eq c OptimizedCompressionLevel) as Ed.
  cbn [default_of] in Ed. rewrite Ed. fold lvl. unfold getter. cbn [o_settings].
  rewrite lookup_insert_ne, Hb by done. cbn [unwrap]. rewrite bind_Ret_l. eexists. split; [done|].
  rewrite Z.leb_antisym. destruct (zstd_level_ok lvl), (lvl <? base); constructor; cbn; try naive_solver.
  all: split; [intros E2; by apply app_one_not_nil in E2|naive_solver].
Qed.

Lemma validate_percent_spec c s e :
  ∃ c', (percent ← getter (or_default c s (default_of s)) s;
         Ret (if 100 <? percent then push_error (or_default c s (default_of s)) e
              else or_default c s (default_of s))) = Ret c' ∧
    validates s (chosen (o_settings c) s <=? 100) c c'.
Proof.
  rewrite getter_default, bind_Ret_l. eexists. split; [done|]. rewrite Z.leb_antisym.
  pose proof (validates_checked c s (negb (100 <? chosen (o_settings c) s)) e) as Hv.
  by destruct (100 <? chosen (o_settings c) s).
Qed.

(** A sequence of validations. *)
Inductive validated : list (Setting * bool) → CacheConfigData → CacheConfigData → Prop :=
| validated_nil c : validated [] c c
| validated_cons s ok l c c1 c' :
    validates s ok c c1 → validated l c1 c' → validated ((s, ok) :: l) c c'.

Lemma chosen_ne s ok c c' s' :
  validates s ok c c' → s' ≠ s → chosen (o_settings c') s' = chosen (o_settings c) s'.
Proof. intros V Hne. unfold chosen. by rewrite (val_settings _ _ _ _ V), lookup_insert_ne. Qed.

Lemma validated_spec l c c' :
  NoDup l.*1 → validated l c c' →
  enabled c' = enabled c ∧ o_directory c' = o_directory c ∧
  (errors c' = [] ↔ errors c = [] ∧ forallb snd l = true) ∧
  ∀ s, o_settings c' !! s = if decide (s ∈ l.*1) then Some (chosen (o_settings c) s) else o_settings c !! s.
Proof.
  intros Hnd V. induction V as [c|s ok l c c1 c' V1 _ IH].
  { split_and!; [done..|cbn; naive_solver|done]. }
  cbn in Hnd. apply NoDup_cons in Hnd as [Hs Hnd]. destruct (IH Hnd) as (He & Hd & Herr & Hset).
  split_and!; [by rewrite He, (val_enabled _ _ _ _ V1)|by rewrite Hd, (val_directory _ _ _ _ V1)|..].
  { rewrite Herr, (val_errors _ _ _ _ V1). cbn. rewrite andb_true_iff. naive_solver. }
  intros s'. rewrite Hset. destruct (decide (s' = s)) as [->|Hne].
  - rewrite decide_False by done. rewrite decide_True by (cbn; by left).
    by rewrite (val_settings _ _ _ _ V1), lookup_insert_eq.
  - rewrite (chosen_ne _ _ _ _ _ V1 Hne), (val_settings _ _ _ _ V1), lookup_insert_ne by done.
    destruct (decide (s' ∈ l.*1)) as [Hin|Hin].
    + by rewrite decide_True by (cbn; by right).
    + rewrite decide_False; [done|]. cbn. by intros [?|?]%elem_of_cons.
Qed.

(** [from_file] after the file has been parsed and the directory validated. *)
Definition validate_settings (config : CacheConfigData) : res CacheConfigData :=
  config ← validate_worker_event_queue_size_or_default config;
  config ← validate_baseline_compression_level_or_default config;
  config ← validate_optimized_compression_level_or_default config;
  let config := validate_optimized_compression_usage_counter_threshold_or_default config in
  let config := validate_cleanup_interval_or_default config in
  let config := validate_optimizing_compression_task_timeout_or_default config in
  let config := validate_allowed_clock_drift_for_files_from_future_or_default config in
  let config := validate_file_count_soft_limit_or_default config in
  let config := validate_files_total_size_soft_limit_or_default config in
  config ← validate_file_count_limit_percent_if_deleting_or_default config;
  validate_files_total_size_limit_percent_if_deleting_or_default config.

Lemma validated_app l1 l2 c c1 c' : validated l1 c c1 → validated l2 c1 c' → validated (l1 ++ l2) c c'.
Proof. induction 1; cbn; [done|]. intros. econstructor; eauto. Qed.

Lemma chosen_validated l c c' s :
  validated l c c' → s ∉ l.*1 → chosen (o_settings c') s = chosen (o_settings c) s.
Proof.
  induction 1 as [|s' ok l c c1 c' V _ IH]; [done|]. cbn. intros [Hne Hs]%not_elem_of_cons.
  rewrite (IH Hs). by eapply chosen_ne.
Qed.

(** The validations of the queue and of the levels. *)
Lemma validate_levels_spec c (v := chosen (o_settings c)) :
  ∃ c', (config ← validate_worker_event_queue_size_or_default c;
         config ← validate_baseline_compression_level_or_default config;
         validate_optimized_compression_level_or_default config) = Ret c' ∧
    validated [(WorkerEventQueueSize, true);
      (BaselineCompressionLevel, zstd_level_ok (v BaselineCompressionLevel));
      (OptimizedCompressionLevel, zstd_level_ok (v OptimizedCompressionLevel) &&
         (v BaselineCompressionLevel <=? v OptimizedCompressionLevel))] c c'.
Proof.
  unfold validate_worker_event_queue_size_or_default.
  pose proof (getter_default c WorkerEventQueueSize) as E1. cbn [default_of] in E1. rewrite E1, !bind_Ret_l.
  pose proof (validates_default c WorkerEventQueueSize) as V1. cbn [default_of] in V1.
  set (c1 := or_default c WorkerEventQueueSize 16) in *.
  destruct (validate_baseline_spec c1) as (c2 & -> & V2). rewrite bind_Ret_l.
  rewrite (chosen_ne _ _ _ _ BaselineCompressionLevel V1) in V2 by done. fold v in V2.
  destruct (validate_optimized_spec c2 (v BaselineCompressionLevel)) as (c3 & -> & V3).
  { rewrite (val_settings _ _ _ _ V2), lookup_insert_eq. by rewrite (chosen_ne _ _ _ _ _ V1). }
  rewrite (chosen_ne _ _ _ _ _ V2), (chosen_ne _ _ _ _ _ V1) in V3 by done. fold v in V3.
  exists c3. split; [done|]. repeat (econstructor; [done|]). constructor.
Qed.

(** The settings that are only completed. *)
Lemma complete_spec c :
  validated [(OptimizedCompressionUsageCounterThreshold, true); (CleanupInterval, true);
     (OptimizingCompressionTaskTimeout, true); (AllowedClockDriftForFilesFromFuture, true);
     (FileCountSoftLimit, true); (FilesTotalSizeSoftLimit, true)] c
    (validate_files_total_size_soft_limit_or_default (validate_file_count_soft_limit_or_default
      (validate_allowed_clock_drift_for_files_from_future_or_default
        (validate_optimizing_compression_task_timeout_or_default
          (validate_cleanup_interval_or_default
            (validate_optimized_compression_usage_counter_threshold_or_default c)))))).
Proof. repeat (eapply validated_cons; [exact (validates_default _ _)|]). constructor. Qed.

Lemma validate_percents_spec c (v := chosen (o_settings c)) :
  ∃ c', (config ← validate_file_count_limit_percent_if_deleting_or_default c;
         validate_files_total_size_limit_percent_if_deleting_or_default config) = Ret c' ∧
    validated [(FileCountLimitPercentIfDeleting, v FileCountLimitPercentIfDeleting <=? 100);
      (FilesTotalSizeLimitPercentIfDeleting, v FilesTotalSizeLimitPercentIfDeleting <=? 100)] c c'.
Proof.
  destruct (validate_percent_spec c FileCountLimitPercentIfDeleting
    "Invalid files count limit percent if deleting") as (c1 & E1 & V1).
  destruct (validate_percent_spec c1 FilesTotalSizeLimitPercentIfDeleting
    "Invalid files total size limit percent if deleting") as (c2 & E2 & V2).
  exists c2. split.
  - transitivity (Ret c1 ≫= validate_files_total_size_limit_percent_if_deleting_or_default); [|exact E2].
    rewrite <- E1. done.
  - rewrite (chosen_ne _ _ _ _ _ V1) in V2 by done. repeat (econstructor; [done|]). constructor.
Qed.

Lemma validate_settings_spec c :
  ∃ c', validate_settings c = Ret c' ∧
    enabled c' = enabled c ∧ o_directory c' = o_directory c ∧
    (errors c' = [] ↔ errors c = [] ∧ chosen_ok (chosen (o_settings c)) = true) ∧
    ∀ s, o_settings c' !! s = Some (chosen (o_settings c) s).
Proof.
  destruct (validate_levels_spec c) as (c1 & E1 & V1).
  pose proof (complete_spec c1) as V2. set (c2 := validate_files_total_size_soft_limit_or_default _) in V2.
  destruct (validate_percents_spec c2) as (c3 & E3 & V3).
  assert (Hc : ∀ s, s ∈ [FileCountLimitPercentIfDeleting; FilesTotalSizeLimitPercentIfDeleting] →
    chosen (o_settings c2) s = chosen (o_settings c) s).
  { intros s Hs. rewrite (chosen_validated _ _ _ _ V2), (chosen_validated _ _ _ _ V1); [done|..];
      apply list_elem_of_In in Hs; destruct Hs as [<-|[<-|[]]]; by apply (bool_decide_unpack _). }
  rewrite !Hc in V3 by (by apply (bool_decide_unpack _)).
  pose proof (validated_app _ _ _ _ _ V1 (validated_app _ _ _ _ _ V2 V3)) as V. cbn [app] in V.
  exists c3. split.
  { unfold validate_settings. destruct (validate_worker_event_queue_size_or_default c) as [ca|]; [|done].
    rewrite bind_Ret_l in E1 |- *. destruct (validate_baseline_compression_level_or_default ca) as [cb|]; [|done].
    rewrite bind_Ret_l in E1 |- *. rewrite E1. exact E3. }
  apply validated_spec in V; [|by apply (bool_decide_unpack _)].
  destruct V as (He & Hd & Herr & Hset). split_and!; [done..| |].
  - rewrite Herr. unfold chosen_ok. cbn [forallb snd]. rewrite !andb_true_iff. clear. tauto.
  - intros s. rewrite Hset, decide_True; [done|]. destruct s; by apply (bool_decide_unpack _).
Qed.

(** *** What is read of the file *)

(** A text that the format of durations reads, whose product does not fit 64
    bits. *)
Definition duration_overflows (t : text) : Prop :=
  let '(num, unit_) := split_number other_numeric (trim t) in
  ∃ n u k, parse 64 num = Some n ∧ trim unit_ = str u ∧ (u, k) ∈ duration_units ∧ 2 ^ 64 ≤ n * k.

Lemma parse_digits_range w acc ds n : 0 ≤ acc < 2 ^ w → parse_digits w acc ds = Some n → 0 ≤ n < 2 ^ w.
Proof using.
  revert acc. induction ds as [|c ds IH]; intros acc Ha E; cbn in E; [by simplify_eq|].
  unfold checked_mul, checked_add in E. destruct (is_digit c); [|done].
  destruct (in_u w (acc * 10)); [|done]. cbn in E.
  destruct (in_u w (acc * 10 + (c - 48))) eqn:E2; [|done]. cbn in E.
  apply IH in E; [done|]. by apply in_u_spec.
Qed.

Lemma duration_body_Panic n u :
  duration_body n u = Panic → ∃ s k, u = str s ∧ (s, k) ∈ duration_units.
Proof using.
  unfold duration_body. intros E.
  assert (Hin : ∀ s k, bool_decide ((s, k) ∈ duration_units) = true → u = str s →
    ∃ s k, u = str s ∧ (s, k) ∈ duration_units) by (intros s k ?%bool_decide_eq_true ?; eauto).
  case_bool_decide; [by apply (Hin "s" 1)|]. case_bool_decide; [by apply (Hin "m" 60)|].
  case_bool_decide; [by apply (Hin "h" 3600)|]. case_bool_decide; [by apply (Hin "d" 86400)|done].
Qed.

Lemma deserialize_duration_Panic t :
  deserialize_duration other_numeric (Some t) = Panic ↔ duration_overflows t.
Proof using.
  unfold deserialize_duration, deserializer, duration_overflows. cbv zeta.
  destruct (split_number other_numeric (trim t)) as [num unit_]. destruct (parse 64 num) as [n|] eqn:Ep.
  2:{ split; [done|]. by intros (n & u & k & ? & _). }
  assert (Hn : 0 ≤ n < 2 ^ 64).
  { unfold parse in Ep. destruct num; [done|]. by apply parse_digits_range in Ep. }
  transitivity (duration_body n (trim unit_) = Panic).
  { destruct (duration_body n (trim unit_)) as [[?|]|]; cbn; split; done. }
  split.
  - intros E. destruct (duration_body_Panic _ _ E) as (u & k & Hu & Hk). rewrite Hu in E |- *.
    rewrite (duration_units_spec u k) in E by done. exists n, u, k. split_and!; [done..|].
    destruct (Z.ltb_spec (n * k) (2 ^ 64)); [done|lia].
  - intros (n' & u & k & [= <-] & -> & Hk & Hov). rewrite (duration_units_spec u k) by done.
    by rewrite (proj2 (Z.ltb_ge _ _)) by lia.
Qed.

Definition is_duration (s : Setting) : bool :=
  match s with
  | CleanupInterval | OptimizingCompressionTaskTimeout | AllowedClockDriftForFilesFromFuture => true
  | _ => false
  end.

(** An entry that makes the visitor panic. *)
Definition overflows (kv : string * toml) : Prop :=
  ∃ s t, is_duration s = true ∧ kv = (setting_key s, TStr t) ∧ duration_overflows t.

Lemma deserialize_setting_Panic s v :
  deserialize_setting s v = Panic ↔ is_duration s = true ∧ ∃ t, v = TStr t ∧ duration_overflows t.
Proof using.
  assert (Htot : ∀ w f t, (∀ n u, ∃ x, f n u = Ret x) → deserializer other_numeric w f (Some t) ≠ Panic).
  { intros w f t Hf. unfold deserializer. cbv zeta. destruct (split_number _ _) as [num u].
    destruct (parse w num) as [n|]; [|done]. by destruct (Hf n (trim u)) as [x ->]. }
  unfold deserialize_setting. split.
  - intros Ep. destruct v as [t| | | |]; [|by destruct (deserialize_with s)..].
    assert (E : ∃ f, deserialize_with s = Some f ∧ f (Some t) = Panic).
    { destruct (deserialize_with s) as [f|]; [|done]. exists f. by destruct (f (Some t)). }
    destruct E as (f & Ef & E). destruct s; simplify_eq/=;
      try (by apply Htot in E; [|intros; eexists]).
    all: split; [done|]; exists t; split; [done|]; by apply deserialize_duration_Panic.
  - intros [Hs (t & -> & Ho)]. apply deserialize_duration_Panic in Ho.
    destruct s; try done; cbn [deserialize_with]; by rewrite Ho.
Qed.

#[local] Instance setting_key_inj : Inj (=) (=) setting_key.
Proof using. by intros [] []. Qed.

Lemma find_setting s : ∃ i, list_find (λ s', setting_key s' = setting_key s) all_settings = Some (i, s).
Proof using. destruct s; eexists; vm_compute; reflexivity. Qed.

Lemma setting_key_other s : setting_key s ≠ "enabled" ∧ setting_key s ≠ "directory".
Proof using. by destruct s. Qed.

Lemma deserialize_field_setting c s v :
  deserialize_field c (setting_key s) v =
    (r ← deserialize_setting s v;
     Ret (match r with
          | Err e => Err e
          | Ok o => Ok (mkConfigData (errors c) (enabled c) (o_directory c)
                          (partial_alter (λ _, o) s (o_settings c)))
          end)).
Proof using.
  unfold deserialize_field. destruct (setting_key_other s) as [H1 H2].
  rewrite !bool_decide_false by done. by destruct (find_setting s) as [i ->].
Qed.

Lemma deserialize_field_Panic c kv : deserialize_field c kv.1 kv.2 = Panic ↔ overflows kv.
Proof using.
  split.
  - intros E. destruct kv as [key v]. cbn in E. pose proof E as E'. unfold deserialize_field in E.
    do 2 (case_bool_decide; [done|]). destruct (list_find _ all_settings) as [[i s]|] eqn:Ef; [|done].
    apply list_find_Some in Ef as (_ & <- & _). rewrite deserialize_field_setting in E'.
    destruct (deserialize_setting s v) eqn:Es; [done|].
    apply deserialize_setting_Panic in Es as [Hs (t & -> & Ho)]. by exists s, t.
  - intros (s & t & Hs & -> & Ho). cbn. rewrite deserialize_field_setting.
    by rewrite (proj2 (deserialize_setting_Panic s (TStr t))) by eauto.
Qed.

(** An entry that is accepted, whatever came before. *)
Definition accepted (kv : string * toml) : Prop :=
  ∃ c, deserialize_field new_cache_disabled kv.1 kv.2 = Ret (Ok c).

Lemma deserialize_field_Ok c c2 kv c' :
  deserialize_field c kv.1 kv.2 = Ret (Ok c') → ∃ c2', deserialize_field c2 kv.1 kv.2 = Ret (Ok c2').
Proof using.
  destruct kv as [key v]. cbn. unfold deserialize_field. repeat case_match; try done; eauto.
  destruct (deserialize_setting _ _) as [[o|e]|]; try done. cbn. eauto.
Qed.

(** The first entry that is refused is a duration that overflows. *)
Definition overflowing (seen : list string) (entries : list (string * toml)) : Prop :=
  ∃ pre kv post, entries = pre ++ kv :: post ∧ Forall accepted pre ∧ overflows kv ∧
    NoDup (pre.*1 ++ [kv.1]) ∧ (∀ k, k ∈ pre.*1 ++ [kv.1] → k ∉ seen).

Lemma deserialize_entries_Panic seen c entries :
  deserialize_entries seen c entries = Panic ↔ overflowing seen entries.
Proof using.
  revert seen c. induction entries as [|[key v] entries IH]; intros seen c; cbn [deserialize_entries].
  { split; [done|]. intros (pre & ? & ? & Hn & _). by destruct pre. }
  case_bool_decide as Hseen.
  { split; [done|]. intros (pre & kv & post & E & _ & _ & _ & Hk). exfalso.
    destruct pre as [|kv' pre]; simplify_eq/=; by eapply Hk; [left|]. }
  destruct (deserialize_field c key v) as [[c'|e]|] eqn:Ef; cbn.
  - rewrite IH. assert (Ha : accepted (key, v)) by (by eapply (deserialize_field_Ok c _ (key, v))).
    split.
    + intros (pre & kv & post & -> & Hpre & Ho & Hnd & Hk). exists ((key, v) :: pre), kv, post.
      split_and!; [done|by constructor|done| |].
      * cbn. apply NoDup_cons. split; [|done]. intros Hin. eapply Hk; [done|]. by left.
      * cbn. intros k [->|Hin]%elem_of_cons; [done|]. intros Hs. eapply Hk; [done|]. by right.
    + intros (pre & kv & post & E & Hpre & Ho & Hnd & Hk). destruct pre as [|kv' pre].
      { simplify_eq/=. apply (deserialize_field_Panic c) in Ho. cbn in Ho. congruence. }
      simplify_eq/=. apply Forall_cons in Hpre as [_ Hpre]. apply NoDup_cons in Hnd as [Hn Hnd].
      exists pre, kv, post. split_and!; [done..|]. intros k Hin [->|Hs]%elem_of_cons; [done|].
      eapply Hk; [|done]. by right.
  - split; [done|]. intros (pre & kv & post & E & Hpre & Ho & _ & _). exfalso.
    destruct pre as [|kv' pre]; simplify_eq/=.
    + apply (deserialize_field_Panic c) in Ho. cbn in Ho. congruence.
    + apply Forall_cons in Hpre as [[c' Ha] _].
      destruct (deserialize_field_Ok _ c (key, v) c' Ha) as [c2 E2]. cbn in E2. congruence.
  - split; [|done]. intros _. exists [], (key, v), entries.
    split_and!; [done|constructor|by apply (deserialize_field_Panic c (key, v))|apply NoDup_singleton|].
    by intros k ->%list_elem_of_singleton.
Qed.

(** [c] holds what the entries so far say. *)
Record so_far (entries : list (string * toml)) (c : CacheConfigData) : Prop := {
  sf_errors : errors c = [];
  sf_enabled : "enabled" ∈ entries.*1 → ("enabled", TBool (enabled c)) ∈ entries;
  sf_directory : match o_directory c with
    | Some d => ∃ t, ("directory", TStr t) ∈ entries ∧ d = path_of t
    | None => "directory" ∉ entries.*1
    end;
  sf_setting s v : (setting_key s, v) ∈ entries → deserialize_setting s v = Ret (Ok (o_settings c !! s));
  sf_no_setting s : setting_key s ∉ entries.*1 → o_settings c !! s = None;
}.

(** All of them, one of which turns the cache on or off. *)
Definition says (entries : list (string * toml)) (c : CacheConfigData) : Prop :=
  "enabled" ∈ entries.*1 ∧ so_far entries c.

Lemma so_far_setting pre c s v o :
  so_far pre c → setting_key s ∉ pre.*1 → deserialize_setting s v = Ret (Ok o) →
  so_far (pre ++ [(setting_key s, v)])
    (mkConfigData (errors c) (enabled c) (o_directory c) (partial_alter (λ _, o) s (o_settings c))).
Proof using.
  intros [Se Sn Sd Ss Sno] Hk Eo. destruct (setting_key_other s) as [Hne Hnd].
  split; cbn; rewrite ?fmap_app; cbn; [done|..].
  - rewrite elem_of_app, list_elem_of_singleton. intros [Hin|?]; [|done]. set_solver.
  - destruct (o_directory c); [|set_solver]. destruct Sd as (t & ? & ?). exists t. set_solver.
  - intros s' v' [Hin|Hin]%elem_of_app.
    + rewrite (Ss _ _ Hin). rewrite lookup_partial_alter_ne; [done|]. intros ->.
      apply Hk. by apply (list_elem_of_fmap_2 fst) in Hin.
    + apply list_elem_of_singleton in Hin. simplify_eq. by rewrite lookup_partial_alter_eq.
  - intros s' Hin. rewrite lookup_partial_alter_ne; [apply Sno; set_solver|]. intros ->. set_solver.
Qed.

Lemma so_far_field pre c key v c' :
  so_far pre c → key ∉ pre.*1 → deserialize_field c key v = Ret (Ok c') → so_far (pre ++ [(key, v)]) c'.
Proof using.
  intros Hsf Hk E. pose proof Hsf as [Se Sn Sd Ss Sno]. pose proof E as E'. unfold deserialize_field in E.
  assert (Hold : ∀ s v', (setting_key s, v') ∈ pre ++ [(key, v)] → key ≠ setting_key s →
    (setting_key s, v') ∈ pre).
  { intros s v' [?|?%list_elem_of_singleton]%elem_of_app ?; [done|]. by simplify_eq. }
  case_bool_decide as Hen; [|case_bool_decide as Hdir].
  - destruct v; simplify_eq. split; cbn; rewrite ?fmap_app; cbn; [done|set_solver|..].
    + destruct (o_directory c); [|set_solver]. destruct Sd as (t & ? & ?). exists t. set_solver.
    + intros s v' Hin. apply Ss. apply Hold; [done|]. by destruct (setting_key_other s).
    + intros s Hin. apply Sno. set_solver.
  - destruct v as [t| | | |]; simplify_eq. split; cbn; rewrite ?fmap_app; cbn; [done|set_solver|..].
    + exists t. set_solver.
    + intros s v' Hin. apply Ss. apply Hold; [done|]. by destruct (setting_key_other s).
    + intros s Hin. apply Sno. set_solver.
  - destruct (list_find _ all_settings) as [[i s]|] eqn:Ef; [|done].
    apply list_find_Some in Ef as (_ & <- & _). rewrite deserialize_field_setting in E'.
    destruct (deserialize_setting s v) as [[o|e]|] eqn:Es; try done. cbn in E'. simplify_eq.
    by apply so_far_setting.
Qed.

Lemma deserialize_entries_says entries : ∀ seen pre c c',
  (∀ k, k ∈ seen ↔ k ∈ pre.*1) → so_far pre c →
  deserialize_entries seen c entries = Ret (Ok c') → says (pre ++ entries) c'.
Proof using.
  induction entries as [|[key v] entries IH]; intros seen pre c c' Hs Hc E; cbn [deserialize_entries] in E.
  { rewrite app_nil_r. case_bool_decide as He; simplify_eq. split; [by apply Hs|done]. }
  case_bool_decide as Hseen; [done|].
  destruct (deserialize_field c key v) as [[c1|e]|] eqn:Ef; try done. cbn in E.
  rewrite Hs in Hseen. apply (IH _ (pre ++ [(key, v)])) in E.
  - by rewrite <-app_assoc in E.
  - intros k. rewrite fmap_app. cbn. set_solver.
  - by eapply so_far_field.
Qed.

(** The bytes of the file that is read: the given one, or the default one if
    it exists. *)
Definition source (w : env) (file : option path) (b : bytes) : Prop :=
  ∃ p, match file with
       | Some q => q = p
       | None => default_config_path = Ok p ∧ exists_ w p = true
       end ∧ fs_read w p = Ok b.

Lemma source_unique w file b1 b2 : source w file b1 → source w file b2 → b1 = b2.
Proof using. intros (p & H1 & R1) (q & H2 & R2). destruct file as [|]; [|destruct H1, H2]; congruence. Qed.

Lemma parse_config_Panic b :
  parse_config b = Panic ↔
    ∃ entries rest, parse_toml b = Ok (("cache", TTable entries) :: rest) ∧ overflowing [] entries.
Proof using.
  unfold parse_config. destruct (parse_toml b) as [doc|e]; [|split; [done|]; intros (?&?&?&_); congruence].
  destruct doc as [|[key v] doc]; cbn [deserialize_Config]; [split; [done|]; intros (?&?&?&_); congruence|].
  case_bool_decide as Hkey; [subst|split; [done|]; intros (?&?&?&_); congruence]. cbn [negb]. destruct v as [| | |entries|]; [split; [done|by intros (?&?&?&_)]..| |split; [done|by intros (?&?&?&_)]].
  transitivity (overflowing [] entries).
  - rewrite <-(deserialize_entries_Panic [] new_cache_disabled entries).
    destruct (deserialize_entries [] new_cache_disabled entries) as [[c|e]|]; cbn; [|done..].
    split; [|done]. destruct doc as [|[k ?] ?]; cbn; [done|]. by case_bool_decide.
  - split; [by exists entries, doc|]. by intros (? & ? & [= <- <-] & ?).
Qed.

Lemma parse_config_says b c :
  parse_config b = Ret (Ok c) → ∃ entries, parse_toml b = Ok [("cache", TTable entries)] ∧ says entries c.
Proof using.
  unfold parse_config. destruct (parse_toml b) as [doc|e]; [|done].
  destruct doc as [|[key v] doc]; cbn [deserialize_Config]; [done|].
  case_bool_decide as Hkey; [subst|done]. cbn [negb]. destruct v as [| | |entries|]; try done.
  destruct (deserialize_entries [] new_cache_disabled entries) as [[c1|e]|] eqn:E; try done. cbn.
  destruct doc as [|[k ?] ?]; cbn; [|by case_bool_decide]. intros [= ->].
  exists entries. split; [done|]. apply (deserialize_entries_says entries [] [] new_cache_disabled); [done| |done].
  split; cbn; [done|by intros ?%elem_of_nil|by intros ?%elem_of_nil|by intros ? ? ?%elem_of_nil|done].
Qed.

(** Either the file is read, or it is not parsed at all. *)
Lemma load_and_parse_file_cases w file :
  (∃ b, source w file b ∧ load_and_parse_file w file =
     (r ← parse_config b;
      Ret (match r with
           | Ok config => Ok config
           | Err e => Err ("Failed to parse config file, error: " +:+ e)
           end))) ∨
  (∀ b, ¬ source w file b) ∧
    (load_and_parse_file w file = Ret (Ok new_cache_enabled_template) ∧ file = None ∨
     ∃ e, load_and_parse_file w file = Ret (Err e)).
Proof using.
  unfold load_and_parse_file, source. cbv zeta. destruct file as [p|].
  - rewrite andb_false_r. destruct (fs_read w p) as [b|e] eqn:E; [left; by eauto|].
    right. split; [|by eauto]. intros b (q & <- & ?). congruence.
  - destruct default_config_path as [p|e].
    2:{ right. split; [|by eauto]. by intros b (q & [? _] & _). }
    rewrite andb_true_r. destruct (exists_ w p) eqn:Ex; cbn [negb].
    2:{ right. split; [|by eauto]. intros b (q & [[= <-] ?] & _). congruence. }
    destruct (fs_read w p) as [b|e] eqn:E; [left; by eauto 6|].
    right. split; [|by eauto]. intros b (q & [[= <-] _] & ?). congruence.
Qed.

(** Reading the file.  It panics exactly on a duration that overflows; what
    it returns holds what the file says, or is the template when there is no
    file. *)
Lemma load_and_parse_file_spec w file :
  (load_and_parse_file w file = Panic ↔
     ∃ b entries rest, source w file b ∧ parse_toml b = Ok (("cache", TTable entries) :: rest) ∧
       overflowing [] entries) ∧
  (∀ c, load_and_parse_file w file = Ret (Ok c) →
     (file = None ∧ c = new_cache_enabled_template) ∨
     ∃ b entries, source w file b ∧ parse_toml b = Ok [("cache", TTable entries)] ∧ says entries c).
Proof using.
  destruct (load_and_parse_file_cases w file) as [(b & Hb & ->)|[Hb [[-> ->]|[e ->]]]].
  2, 3: split; [|naive_solver]; split; [done|]; intros (b & ? & ? & Hs & _); by apply Hb in Hs.
  split.
  - transitivity (parse_config b = Panic); [by destruct (parse_config b) as [[]|]|].
    rewrite parse_config_Panic. split; [naive_solver|]. intros (b' & en & rest & Hs & ?).
    rewrite (source_unique _ _ _ _ Hs Hb) in *. eauto.
  - intros c E. right. exists b. destruct (parse_config b) as [[c1|]|] eqn:Ep; simplify_eq/=.
    destruct (parse_config_says _ _ Ep) as (en & ? & ?). eauto.
Qed.

Lemma from_file_parsed w file c0 :
  load_and_parse_file w file = Ret (Ok c0) →
  from_file w true file =
    let '(w', c) := validate_directory_or_default w c0 in
    c' ← validate_settings c; Ret (w', disable_if_any_error c').
Proof.
  intros E. unfold from_file, validate_settings. rewrite E. cbn [negb]. rewrite bind_Ret_l.
  destruct (validate_directory_or_default w c0) as [w' c].
  repeat match goal with |- context [mbind _ ?m] => destruct m; [rewrite ?bind_Ret_l; cbv zeta|done] end.
  done.
Qed.

Lemma validate_directory_settings w c0 w' c :
  validate_directory_or_default w c0 = (w', c) →
  enabled c = enabled c0 ∧ o_settings c = o_settings c0 ∧ (errors c = [] → is_Some (o_directory c)).
Proof.
  unfold validate_directory_or_default.
  intros E. repeat case_match; simplify_eq; cbn; split_and!; try done.
  all: intros E; try (by apply app_one_not_nil in E); eauto.
Qed.

Lemma from_file_returns w on file w' c :
  from_file w on file = Ret (w', c) → enabled c = true → errors c = [].
Proof.
  destruct on; [|by intros [= <- <-]]. unfold from_file. cbn [negb].
  destruct (load_and_parse_file w file) as [[c0|e]|]; cbn; [|by intros [= <- <-]|done].
  destruct (validate_directory_or_default w c0) as [w1 c1]. intros E. res_inv E.
  unfold disable_if_any_error. by destruct (errors _) eqn:Ee.
Qed.

(** The outcome of the validation. *)
Lemma validated_outcome w c0 w1 c1 (v := chosen (o_settings c0)) :
  validate_directory_or_default w c0 = (w1, c1) →
  ∃ c, (c' ← validate_settings c1; Ret (w1, disable_if_any_error c')) = Ret (w1, c) ∧
    (enabled c = true ↔ enabled c0 = true ∧ errors c1 = [] ∧ chosen_ok v = true) ∧
    (errors c = [] ↔ errors c1 = [] ∧ chosen_ok v = true) ∧
    (errors c = [] → (∀ s, getter c s = Ret (v s)) ∧ ∃ cfg, settings c = Ret cfg) ∧
    (errors c ≠ [] → c = new_cache_with_errors (errors c)).
Proof.
  intros Ed. destruct (validate_directory_settings _ _ _ _ Ed) as (He1 & Hs1 & Hd1).
  destruct (validate_settings_spec c1) as (c2 & -> & He2 & Hd2 & Herr & Hset). rewrite bind_Ret_l.
  rewrite Hs1 in Herr, Hset. exists (disable_if_any_error c2). split; [done|].
  unfold disable_if_any_error. destruct (errors c2) as [|e l] eqn:E2.
  - rewrite E2. apply proj1 in Herr. destruct (Herr eq_refl) as [H1 Hok].
    assert (Hg : ∀ s, getter c2 s = Ret (v s)).
    { intros s. unfold getter. by rewrite Hset. }
    split_and!; try done.
    + rewrite He2, He1. unfold v. tauto.
    + intros _. split; [done|]. unfold settings. destruct (Hd1 H1) as [d Hd]. rewrite Hd2, Hd. cbn [unwrap].
      rewrite !Hg. by eexists.
  - assert (Hno : ¬ (errors c1 = [] ∧ chosen_ok v = true)).
    { intros Hx. by apply Herr in Hx. }
    cbn. split_and!; try done. split; [done|]. tauto.
Qed.


(** The configuration is fixed by the first call: a later [init] panics, and
    [cache_config] goes on answering the same. *)
Lemma config_fixed w g on file w' g' b es w2 on2 file2 :
  init w g on file = Ret (w', g', b, es) →
  init w2 g' on2 file2 = Panic ∧ init w2 (cache_config g).1 on2 file2 = Panic ∧
  ∃ c, cache_config g' = (g', c) ∧ from_file w on file = Ret (w', c) ∧ es = errors c ∧
    (b = true ↔ enabled c = true).
Proof.
  unfold init. intros E. destruct (from_file w on file) as [[w1 c]|] eqn:Ef.
  2:{ by res_inv E. }
  pose proof (from_file_returns _ _ _ _ _ Ef) as Hon. res_inv E. split_and!; [done| |].
  - destruct g as [[] [?|]]; [done..|]. cbn. reflexivity.
  - eexists. split_and!; [done..|]. destruct (errors c) eqn:Ee; [done|]. split; [done|]. intros Hc. by specialize (Hon Hc).
Qed.
End validation.

(** ** Examples *)

Lemma formats_spec_witness :
  deserialize_disk_space (λ _, false) (Some (str " 512 Mi ")) = Ret (Ok (Some (2 ^ 29))) ∧
  deserialize_duration (λ _, false) (Some (str "213503982334602d")) = Panic.
Proof.
  split.
  - exact (proj1 (proj2 (formats_spec (λ _, false) (λ _ _, eq_refl) (str " ") (str "512") (str " ") (str " ")
      "Mi" (2 ^ 20) ltac:(done) ltac:(by apply (bool_decide_unpack _)) ltac:(by apply (bool_decide_unpack _))))
      ltac:(by apply (bool_decide_unpack _))).
  - exact (proj2 (proj2 (proj2 (formats_spec (λ _, false) (λ _ _, eq_refl) [] (str "213503982334602") [] []
      "d" 86400 ltac:(done) ltac:(by apply (bool_decide_unpack _)) ltac:(by apply (bool_decide_unpack _)))))
      ltac:(by apply (bool_decide_unpack _))).
Defined.

(** A file system with two configuration files; the TOML of the second one has
    a duration that is too long. *)
#[local] Existing Instance toy_env.
#[local] Instance toy_config_env : @ConfigEnv toy_env := {|
  project_dirs := Some (["etc"], ["cache"]);
  exists_ (w : @env toy_env) p := bool_decide (is_Some (tf_files w !! p));
  is_absolute _ := true;
  mkdir_all w _ := (w, Ok tt);
  canonicalize _ p := Ok p;
  parse_toml b :=
    Ok [("cache", TTable [("enabled", TBool true);
                          ("cleanup-interval", TStr (str (if bool_decide (b = []) then "2 h" else "213503982334602 d")))])];
  path_of _ := ["elsewhere"];
  other_numeric _ := false;
  zstd_default_compression_level := 3;
|}.

Definition ex_config_fs : @env toy_env :=
  mkToyfs {[ ["etc"; "wasmtime-cache-config.toml"] := ([], 0); ["long"] := ([1], 0) ]} 100.

