(* ===== verification/AddressTransform.v ===== *)
(** * From wasm addresses to generated code

    Models [wasmtime-debug/src/transform/address_transform.rs] and
    [wasmtime-environ/src/address_map.rs]: the lookup structure that maps
    source positions of a function to ranges of generated code, and the
    translation of addresses and address ranges for debug information. *)

From S2P Require Import Prelude.
Local Open Scope Z_scope.

(** ** Data *)

(** [address_map.rs] *)
Record InstructionAddressMap := mkInstructionAddressMap {
  srcloc : Z;
  code_offset : Z;
  code_len : Z;
}.
Record FunctionAddressMap := mkFunctionAddressMap {
  instructions : list InstructionAddressMap;
  start_srcloc : Z;
  end_srcloc : Z;
  body_offset : Z;
  body_len : Z;
}.

Record AddressMap := mkAddressMap { generated : Z; am_wasm : Z }.
Record FunctionMap := mkFunctionMap {
  fm_offset : Z;
  fm_len : Z;
  fm_wasm_start : Z;
  fm_wasm_end : Z;
  fm_addresses : list AddressMap;
}.
Record Position := mkPosition { wasm_pos : Z; pos_gen_start : Z; pos_gen_end : Z }.
Record Range := mkRange {
  wasm_start : Z;
  wasm_end : Z;
  gen_start : Z;
  gen_end : Z;
  positions : list Position;
}.
Record FuncLookup := mkFuncLookup { index : list (Z * list Z); ranges : list Range }.
Record FuncTransform := mkFuncTransform {
  ft_start : Z;
  ft_end : Z;
  ft_index : Z;
  ft_lookup : FuncLookup;
}.
Record AddressTransform := mkAddressTransform {
  at_map : list FunctionMap;
  at_func : list (Z * FuncTransform);
}.

(** ** Library code the file uses *)

(** A [BTreeMap] is the list of its entries in the order of the keys. *)
Fixpoint btree_insert {A} (l : list (Z * A)) (k : Z) (v : A) : list (Z * A) :=
  match l with
  | [] => [(k, v)]
  | (k', v') :: l =>
      if k <? k' then (k, v) :: (k', v') :: l
      else if k =? k' then (k, v) :: l
      else (k', v') :: btree_insert l k v
  end.

(** [slice.binary_search_by(|a| key(a).cmp(&x))]: which of several equal
    elements is found is not specified. *)
Class BinarySearch := { bsearch {A} : (A → Z) → list A → Z → result Z Z }.
Class BinarySearchLaws `{BinarySearch} : Prop := {
  bsearch_spec {A} (key : A → Z) (l : list A) (x : Z) :
    (∀ i j a b, i ≤ j → zget l i = Some a → zget l j = Some b → key a ≤ key b) →
    match bsearch key l x with
    | Ok i => ∃ a, zget l i = Some a ∧ key a = x
    | Err i => 0 ≤ i ≤ zlen l ∧
        ∀ j a, zget l j = Some a → (j < i → key a < x) ∧ (i ≤ j → x < key a)
    end;
}.

(** [SourceLoc::is_default] *)
Definition is_default (loc : Z) : bool := loc =? 2 ^ 32 - 1.

Definition get_wasm_code_offset (loc code_section_offset : Z) : Z :=
  wrap_u 32 (loc - wrap_u 32 code_section_offset).

(** ** Building the lookup of a function *)

(** The variables of the first loop of [build_function_lookup]. *)
Record build_state := mkBuildState {
  range_wasm_start : Z;
  range_gen_start : Z;
  last_wasm_pos : Z;
  b_ranges : list Range;
  ranges_index : list (Z * Z);
  current_range : list Position;
}.

Definition lookup_step (fn_start fn_end code_section_offset : Z) (st : build_state)
    (t : InstructionAddressMap) : res build_state :=
  if is_default (srcloc t) then Ret st else
  let offset := get_wasm_code_offset (srcloc t) code_section_offset in
  _ ← rassert ((fn_start <=? offset) && (offset <=? fn_end));
  let inst_gen_start := code_offset t in
  inst_gen_end ← op_add 64 (code_offset t) (code_len t);
  let st :=
    if offset <? last_wasm_pos st then
      mkBuildState offset inst_gen_start (last_wasm_pos st)
        (b_ranges st ++ [mkRange (range_wasm_start st) (last_wasm_pos st) (range_gen_start st)
                           inst_gen_start (current_range st)])
        (btree_insert (ranges_index st) (range_wasm_start st) (zlen (b_ranges st)))
        []
    else st in
  Ret (mkBuildState (range_wasm_start st) (range_gen_start st) offset (b_ranges st)
         (ranges_index st)
         (current_range st ++ [mkPosition offset inst_gen_start inst_gen_end])).

(** The variables of the second loop: active ranges, the index, and the last
    start position. *)
Definition index_step (ranges : list Range) (st : list Z * list (Z * list Z) * option Z)
    (e : Z * Z) : res (list Z * list (Z * list Z) * option Z) :=
  let '(active_ranges, index, last_wasm_pos) := st in
  let '(wasm_start, range_index) := e in
  if bool_decide (Some wasm_start = last_wasm_pos)
  then Ret (active_ranges ++ [range_index], index, last_wasm_pos)
  else
    let index := match last_wasm_pos with
                 | Some p => btree_insert index p active_ranges
                 | None => index
                 end in
    active_ranges ← foldM (λ acc r,
      range ← zindex ranges r;
      Ret (if wasm_end range <? wasm_start then acc else acc ++ [r])) [] active_ranges;
    Ret (active_ranges ++ [range_index], index, Some wasm_start).

Definition build_function_lookup (ft : FunctionAddressMap) (code_section_offset : Z)
    : res (Z * Z * FuncLookup) :=
  _ ← rassert (code_section_offset <=? start_srcloc ft);
  let fn_start := get_wasm_code_offset (start_srcloc ft) code_section_offset in
  let fn_end := get_wasm_code_offset (end_srcloc ft) code_section_offset in
  _ ← rassert (fn_start <=? fn_end);
  st ← foldM (lookup_step fn_start fn_end code_section_offset)
         (mkBuildState fn_start (body_offset ft) fn_start [] [] []) (instructions ft);
  last_gen_addr ← op_add 64 (body_offset ft) (body_len ft);
  let ranges_index := btree_insert (ranges_index st) (range_wasm_start st) (zlen (b_ranges st)) in
  let ranges := b_ranges st ++ [mkRange (range_wasm_start st) fn_end (range_gen_start st)
                                  last_gen_addr (current_range st)] in
  '(active_ranges, index, last_wasm_pos) ← foldM (index_step ranges) ([], [], None) ranges_index;
  last ← unwrap last_wasm_pos;
  Ret (fn_start, fn_end, mkFuncLookup (btree_insert index last active_ranges) ranges).

Definition build_function_addr_map (at_ : list FunctionAddressMap) (code_section_offset : Z)
    : list FunctionMap :=
  map (λ ft, mkFunctionMap (body_offset ft) (body_len ft)
    (get_wasm_code_offset (start_srcloc ft) code_section_offset)
    (get_wasm_code_offset (end_srcloc ft) code_section_offset)
    (omap (λ t, if is_default (srcloc t) then None
                else Some (mkAddressMap (code_offset t)
                             (get_wasm_code_offset (srcloc t) code_section_offset)))
       (instructions ft))) at_.

Definition AddressTransform_new (at_ : list FunctionAddressMap) (code_section_offset : Z)
    : res AddressTransform :=
  func ← foldM (λ func '(i, ft),
    '(fn_start, fn_end, lookup) ← build_function_lookup ft code_section_offset;
    Ret (btree_insert func fn_start (mkFuncTransform fn_start fn_end (Z.of_nat i) lookup)))
    [] (imap pair at_);
  Ret (mkAddressTransform (build_function_addr_map at_ code_section_offset) func).

(** ** Translation *)
Section translate.
Context `{BinarySearch}.

(** [TransformRangeIter::new] and [TransformRangeEndIter::new]: the indices of
    the ranges that are active at [addr]. *)
Definition active_at (func : FuncTransform) (addr : Z) : res (list Z) :=
  let idx := index (ft_lookup func) in
  match bsearch fst idx addr with
  | Ok i => e ← zindex idx i; Ret e.2
  | Err i => if 0 <? i then e ← zindex idx (i - 1); Ret e.2 else Panic
  end.

(** The address that [TransformRangeIter::next] computes for one range. *)
Definition range_iter_address (range : Range) (addr : Z) : res Z :=
  match bsearch wasm_pos (positions range) addr with
  | Ok i => p ← zindex (positions range) i; Ret (pos_gen_start p)
  | Err i =>
      if i =? 0 then Ret (gen_start range)
      else p ← zindex (positions range) (i - 1); Ret (pos_gen_end p)
  end.

(** [TransformRangeIter::next]: the item and the remaining indices. *)
Definition range_iter_next (ranges : list Range) (addr : Z) (indicies : list Z)
    : res (option (Z * Z) * list Z) :=
  match indicies with
  | [] => Ret (None, [])
  | range_index :: tail =>
      range ← zindex ranges range_index;
      address ← range_iter_address range addr;
      Ret (Some (address, range_index), tail)
  end.

Definition range_end_address (range : Range) (addr : Z) : res Z :=
  match bsearch wasm_pos (positions range) addr with
  | Ok i => p ← zindex (positions range) i; Ret (pos_gen_end p)
  | Err i =>
      if i =? zlen (positions range) then Ret (gen_end range)
      else p ← zindex (positions range) i; Ret (pos_gen_start p)
  end.

(** [TransformRangeEndIter::next]: the [continue] jumps back to the head of
    the loop before [self.indicies] is advanced.  [None]: the fuel is used
    up and the loop is still running. *)
Fixpoint range_end_iter_next (fuel : nat) (ranges : list Range) (addr : Z) (indicies : list Z)
    : res (option (option (Z * Z) * list Z)) :=
  match fuel with
  | O => Ret None
  | S fuel =>
      match indicies with
      | [] => Ret (Some (None, []))
      | range_index :: tail =>
          range ← zindex ranges range_index;
          if addr <=? wasm_start range then range_end_iter_next fuel ranges addr indicies
          else
            address ← range_end_address range addr;
            Ret (Some (Some (address, range_index), tail))
      end
  end.

Definition find_func (self : AddressTransform) (addr : Z) : res (option FuncTransform) :=
  let check (f : Z * FuncTransform) :=
    Ret (if ft_start f.2 <=? addr then Some f.2 else None) in
  match bsearch fst (at_func self) addr with
  | Ok i => f ← zindex (at_func self) i; check f
  | Err i => if 0 <? i then f ← zindex (at_func self) (i - 1); check f else Ret None
  end.

Definition find_func_index (self : AddressTransform) (addr : Z) : res (option Z) :=
  f ← find_func self addr; Ret (option_map ft_index f).

Definition translate_raw (self : AddressTransform) (addr : Z) : res (option (Z * Z)) :=
  if addr =? 0 then Ret None else
  f ← find_func self addr;
  match f with
  | None => Ret None
  | Some func =>
      if addr =? ft_end func then
        map ← zindex (at_map self) (ft_index func);
        Ret (Some (ft_index func, fm_len map))
      else
        indicies ← active_at func addr;
        '(first_result, _) ← range_iter_next (ranges (ft_lookup func)) addr indicies;
        Ret (option_map (λ '(address, _), (ft_index func, address)) first_result)
  end.

(** [write::Address::Symbol { symbol, addend: address as i64 }] *)
Definition translate (self : AddressTransform) (addr : Z) : res (option (Z * Z)) :=
  r ← translate_raw self addr;
  Ret (option_map (λ '(func_index, address), (func_index, wrap_s 64 address)) r).

Definition can_translate_address (self : AddressTransform) (addr : Z) : res bool :=
  r ← translate self addr; Ret (match r with Some _ => true | None => false end).

(** Collecting an iterator: [for_each] calls [next] until it returns [None].
    The starts form a map from range indices to addresses. *)
Fixpoint collect_starts (ranges : list Range) (addr : Z) (indicies : list Z) (starts : gmap Z Z)
    : res (gmap Z Z) :=
  match indicies with
  | [] => Ret starts
  | range_index :: tail =>
      range ← zindex ranges range_index;
      address ← range_iter_address range addr;
      collect_starts ranges addr tail (<[range_index := address]> starts)
  end.

(** [fuel] bounds every loop; [None]: some loop is still running. *)
Fixpoint collect_ends (fuel : nat) (ranges : list Range) (addr : Z) (indicies : list Z)
    (starts : gmap Z Z) (result : list (Z * Z)) : res (option (gmap Z Z * list (Z * Z))) :=
  match fuel with
  | O => Ret None
  | S fuel' =>
      n ← range_end_iter_next fuel ranges addr indicies;
      match n with
      | None => Ret None
      | Some (None, _) => Ret (Some (starts, result))
      | Some (Some (a, r), tail) =>
          match starts !! r with
          | Some range_start =>
              collect_ends fuel' ranges addr tail (delete r starts) (result ++ [(range_start, a)])
          | None =>
              range ← zindex ranges r;
              collect_ends fuel' ranges addr tail starts (result ++ [(gen_start range, a)])
          end
      end
  end.

(** The order in which a [HashMap] is iterated is not specified. *)
Context (hash_iter : gmap Z Z → list (Z * Z)).

Definition translate_ranges_raw (fuel : nat) (self : AddressTransform) (start end_ : Z)
    : res (option (option (Z * list (Z * Z)))) :=
  if start =? 0 then Ret (Some None) else
  f ← find_func self start;
  match f with
  | None => Ret (Some None)
  | Some func =>
      let ranges := ranges (ft_lookup func) in
      indicies ← active_at func start;
      starts ← collect_starts ranges start indicies ∅;
      end_indicies ← active_at func end_;
      r ← collect_ends fuel ranges end_ end_indicies starts [];
      match r with
      | None => Ret None
      | Some (starts, result) =>
          rest ← mapR (λ '(r, range_start), range ← zindex ranges r; Ret (range_start, gen_end range))
                   (hash_iter starts);
          Ret (Some (Some (ft_index func, result ++ rest)))
      end
  end.

Definition translate_ranges (fuel : nat) (self : AddressTransform) (start end_ : Z)
    : res (option (list (Z * Z * Z))) :=
  r ← translate_ranges_raw fuel self start end_;
  match r with
  | None => Ret None
  | Some None => Ret (Some [])
  | Some (Some (func_index, ranges)) =>
      l ← mapR (λ '(s, e), len ← op_sub 64 e s; Ret (func_index, wrap_s 64 s, len)) ranges;
      Ret (Some l)
  end.

Definition func_range (self : AddressTransform) (index : Z) : res (Z * Z) :=
  map ← zindex (at_map self) index;
  e ← op_add 64 (fm_offset map) (fm_len map);
  Ret (fm_offset map, e).

Definition func_source_range (self : AddressTransform) (index : Z) : res (Z * Z) :=
  map ← zindex (at_map self) index;
  Ret (fm_wasm_start map, fm_wasm_end map).

(** [convert_to_code_range] of a symbol address. *)
Definition convert_to_code_range (addend len : Z) : res (Z * Z) :=
  let start := wrap_u 64 addend in
  e ← op_add 64 start len; Ret (start, e).
End translate.
