(* ===== verification/AddressTransformProofs.v ===== *)
(** * Correctness of the address transform

    The lookup structure of [AddressTransform.v] against the list of mapped
    instructions: what an address is translated to, and when the iteration
    over ranges ends. *)

From S2P Require Import Prelude AddressTransform.
From stdpp Require Import sorting.
Local Open Scope Z_scope.

(** ** Sorted entries *)

Definition keys {A} (l : list (Z * A)) : list Z := map fst l.
Notation key_sorted l := (StronglySorted Z.lt (keys l)).

Lemma btree_insert_elem {A} (l : list (Z * A)) k v e :
  e ∈ btree_insert l k v → e = (k, v) ∨ e ∈ l.
Proof.
  induction l as [|[k' v'] l IH]; cbn; [set_solver|]. repeat case_match; set_solver.
Qed.

Lemma btree_insert_keys {A} (l : list (Z * A)) k v x :
  x ∈ keys (btree_insert l k v) ↔ x = k ∨ x ∈ keys l.
Proof.
  unfold keys. induction l as [|[k' v'] l IH]; cbn; [set_solver|].
  destruct (Z.ltb_spec k k'); [set_solver|]. destruct (Z.eqb_spec k k'); [set_solver|].
  cbn. set_solver.
Qed.

Lemma btree_insert_sorted {A} (l : list (Z * A)) k v :
  key_sorted l → key_sorted (btree_insert l k v).
Proof.
  induction l as [|[k' v'] l IH]; cbn; intros Hs; [repeat constructor|].
  apply StronglySorted_inv in Hs as [Hs Hall].
  destruct (Z.ltb_spec k k').
  - repeat constructor; cbn; try done. eapply Forall_impl; [done|]. cbn. lia.
  - destruct (Z.eqb_spec k k') as [->|Hne]; cbn; constructor; try done; [by apply IH|].
    apply Forall_forall. intros x Hx.
    apply (btree_insert_keys l k v) in Hx as [->|Hx]; [lia|]. rewrite Forall_forall in Hall. by apply Hall.
Qed.

Lemma btree_insert_last {A} (l : list (Z * A)) k v :
  (∀ x, x ∈ keys l → x < k) → btree_insert l k v = l ++ [(k, v)].
Proof.
  induction l as [|[k' v'] l IH]; cbn; intros Hx; [done|].
  assert (k' < k) by (apply Hx; left). rewrite (proj2 (Z.ltb_ge _ _)), (proj2 (Z.eqb_neq _ _)) by lia.
  rewrite IH; [done|]. intros x Hin. apply Hx. by right.
Qed.

Lemma sorted_zget_mono {A} (R : A → A → Prop) (l : list A) i j a b :
  StronglySorted R l → i < j → zget l i = Some a → zget l j = Some b → R a b.
Proof.
  intros Hs. revert i j. induction Hs as [|x l Hs IH Hall]; intros i j Hij Hi Hj.
  { by apply zget_nil in Hi. }
  pose proof (zget_Some_lt _ _ _ Hi). destruct (decide (i = 0)) as [->|Hne].
  - injection Hi as <-. rewrite zget_cons in Hj by lia. by eapply zget_Forall.
  - rewrite zget_cons in Hi, Hj by lia. by eapply (IH (i - 1) (j - 1)); [lia|..].
Qed.

(** ** The ranges of a function *)
Section ranges.
Context (code_section_offset : Z).
Notation offset_of t := (get_wasm_code_offset (srcloc t) code_section_offset).

(** The position that an instruction contributes. *)
Definition position_of (t : InstructionAddressMap) : option Position :=
  if is_default (srcloc t) then None
  else Some (mkPosition (offset_of t) (code_offset t) (code_offset t + code_len t)).

(** Positions in ascending order, all within the range. *)
Record range_ok (fn_start fn_end : Z) (r : Range) : Prop := {
  ro_sorted : StronglySorted Z.le (map wasm_pos (positions r));
  ro_inside : ∀ p, p ∈ positions r → wasm_start r ≤ wasm_pos p ≤ wasm_end r;
  ro_bounds : fn_start ≤ wasm_start r ∧ wasm_start r ≤ wasm_end r ∧ wasm_end r ≤ fn_end;
}.

(** The generated code of the ranges is contiguous, from [a] to [b]. *)
Fixpoint contiguous (a : Z) (rs : list Range) (b : Z) : Prop :=
  match rs with
  | [] => a = b
  | r :: rs => gen_start r = a ∧ contiguous (gen_end r) rs b
  end.

Lemma contiguous_app a rs r b :
  contiguous a rs (gen_start r) → gen_end r = b → contiguous a (rs ++ [r]) b.
Proof.
  revert a; induction rs as [|r0 rs IH]; intros a Hc Hb; cbn in *; [by subst|].
  destruct Hc as [? ?]. split; [done|]. by apply IH.
Qed.

(** Each entry of the index of starts names a range with that start. *)
Definition starts_ok (rs : list Range) (ri : list (Z * Z)) : Prop :=
  key_sorted ri ∧ (∀ k r, (k, r) ∈ ri → ∃ range, zget rs r = Some range ∧ wasm_start range = k).

Record build_inv (fn_start fn_end gen0 : Z) (done : list Position) (st : build_state) : Prop := {
  bi_positions : concat (map positions (b_ranges st)) ++ current_range st = done;
  bi_ranges : Forall (range_ok fn_start fn_end) (b_ranges st);
  bi_sorted : StronglySorted Z.le (map wasm_pos (current_range st));
  bi_inside : ∀ p, p ∈ current_range st → range_wasm_start st ≤ wasm_pos p ≤ last_wasm_pos st;
  bi_bounds : fn_start ≤ range_wasm_start st ∧ range_wasm_start st ≤ last_wasm_pos st ∧
    last_wasm_pos st ≤ fn_end;
  bi_gen : contiguous gen0 (b_ranges st) (range_gen_start st);
  bi_index : starts_ok (b_ranges st) (ranges_index st);
  bi_first : fn_start ∈ keys (ranges_index st) ∨
    b_ranges st = [] ∧ range_wasm_start st = fn_start;
}.

Lemma starts_ok_push rs ri r :
  starts_ok rs ri → starts_ok (rs ++ [r]) (btree_insert ri (wasm_start r) (zlen rs)).
Proof.
  intros [Hs He]. split; [by apply btree_insert_sorted|]. intros k i Hin.
  apply btree_insert_elem in Hin as [[= -> ->]|Hin].
  - exists r. split; [|done]. rewrite zget_app_r by lia. by rewrite Z.sub_diag.
  - destruct (He k i Hin) as (range & Hr & Hk). exists range. split; [|done].
    rewrite zget_app_l; [done|]. apply (zget_Some_lt _ _ _ Hr).
Qed.

Lemma lookup_step_inv fn_start fn_end gen0 done st t st' :
  build_inv fn_start fn_end gen0 done st →
  lookup_step fn_start fn_end code_section_offset st t = Ret st' →
  build_inv fn_start fn_end gen0 (done ++ omap position_of [t]) st'.
Proof.
  intros [Hpos Hrs Hso Hin Hb Hg Hix Hf] E. unfold lookup_step in E. cbn. unfold position_of.
  destruct (is_default (srcloc t)); [simplify_eq; by rewrite app_nil_r|].
  apply bind_Ret in E as ([] & Ha%rassert_Ret & E). apply bind_Ret in E as (e & [-> _]%op_add_Ret & E).
  apply (inj Ret) in E as <-. destruct (Z.ltb_spec (offset_of t) (last_wasm_pos st)) as [Hlt|Hge].
  - split; cbn; try lia.
    + rewrite map_app, concat_app. cbn. rewrite app_nil_r. by rewrite Hpos.
    + apply Forall_app. split; [done|]. apply Forall_singleton. split; cbn; [done|done|lia].
    + repeat constructor.
    + intros p ->%list_elem_of_singleton. cbn. lia.
    + by apply contiguous_app.
    + by apply (starts_ok_push _ _ (mkRange _ _ _ _ _)).
    + left. apply btree_insert_keys. destruct Hf as [|[_ ->]]; auto.
  - split; cbn; try lia; try done.
    + by rewrite app_assoc, Hpos.
    + rewrite map_app. cbn. apply StronglySorted_app_2; [|done|repeat constructor].
      intros x y Hx ->%list_elem_of_singleton. apply list_elem_of_fmap in Hx as (p & -> & Hp).
      apply Hin in Hp. lia.
    + intros p [Hp| ->%list_elem_of_singleton]%elem_of_app; cbn; [apply Hin in Hp|]; lia.
Qed.

Lemma lookup_loop_inv fn_start fn_end gen0 ts : ∀ done st st',
  build_inv fn_start fn_end gen0 done st →
  foldM (lookup_step fn_start fn_end code_section_offset) st ts = Ret st' →
  build_inv fn_start fn_end gen0 (done ++ omap position_of ts) st'.
Proof.
  induction ts as [|t ts IH]; intros done st st' Hi E; cbn [foldM] in E.
  { simplify_eq. cbn. by rewrite app_nil_r. }
  apply bind_Ret in E as (st1 & E1 & E). pose proof (lookup_step_inv _ _ _ _ _ _ _ Hi E1) as Hi1.
  apply (IH _ _ _ Hi1) in E. change (t :: ts) with ([t] ++ ts). by rewrite omap_app, app_assoc.
Qed.

(** *** The index *)

(** The entry at [k] lists ranges that start at or before [k], one of them
    exactly there. *)
Definition entry_ok (rs : list Range) (e : Z * list Z) : Prop :=
  (∀ r, r ∈ e.2 → ∃ range, zget rs r = Some range ∧ wasm_start range ≤ e.1) ∧
  (∃ r range, r ∈ e.2 ∧ zget rs r = Some range ∧ wasm_start range = e.1).

Record index_inv (rs : list Range) (ks : list Z) (st : list Z * list (Z * list Z) * option Z)
    : Prop := {
  ii_keys : keys st.1.2 ++ match st.2 with Some p => [p] | None => [] end = ks;
  ii_sorted : StronglySorted Z.lt ks;
  ii_entries : Forall (entry_ok rs) st.1.2;
  ii_active : match st.2 with
    | Some p => entry_ok rs (p, st.1.1)
    | None => st.1.1 = [] ∧ st.1.2 = []
    end;
}.

Lemma retain_spec rs ws l : ∀ acc,
  (∀ r, r ∈ l → ∃ range, zget rs r = Some range) →
  ∃ l', foldM (λ acc r, range ← zindex rs r; Ret (if wasm_end range <? ws then acc else acc ++ [r]))
          acc l = Ret (acc ++ l') ∧ l' ⊆ l.
Proof.
  induction l as [|r l IH]; intros acc Hl; cbn [foldM].
  { exists []. by rewrite app_nil_r. }
  destruct (Hl r) as [range Hr]; [left|]. rewrite (proj2 (zindex_Ret _ _ _) Hr), !bind_Ret_l.
  destruct (IH (if wasm_end range <? ws then acc else acc ++ [r])) as (l' & -> & Hs);
    [intros; apply Hl; by right|].
  case_match; [exists l'; split; [done|set_solver]|exists (r :: l')].
  split; [by rewrite <-app_assoc|set_solver].
Qed.

Lemma index_step_inv rs ks st k r :
  index_inv rs ks st → (∀ x, x ∈ ks → x < k) →
  (∃ range, zget rs r = Some range ∧ wasm_start range = k) →
  ∃ st', index_step rs st (k, r) = Ret st' ∧ index_inv rs (ks ++ [k]) st'.
Proof.
  destruct st as [[active idx] last]. intros [Hk Hso He Ha] Hlt (range & Hr & Hrk). cbn in *.
  assert (Hlast : ∀ p, last = Some p → p < k).
  { intros p ->. apply Hlt. rewrite <-Hk. set_solver. }
  rewrite bool_decide_eq_false_2 by (intros E; specialize (Hlast k (eq_sym E)); lia).
  destruct (retain_spec rs k active []) as (l' & Hret & Hsub).
  { intros x Hx. destruct last as [p|]; [|destruct Ha as [-> _]; set_solver].
    destruct (proj1 Ha x Hx) as (rg & ? & ?). by exists rg. }
  cbn in Hret. rewrite Hret, bind_Ret_l. eexists; split; [done|].
  assert (Hnew : entry_ok rs (k, l' ++ [r])).
  { split; cbn; [|exists r, range; set_solver]. intros x [Hx| ->%list_elem_of_singleton]%elem_of_app.
    - destruct last as [p|]; [|destruct Ha as [-> _]; set_solver].
      destruct (proj1 Ha x (Hsub x Hx)) as (rg & ? & ?). cbn in *. specialize (Hlast p eq_refl).
      exists rg. split; [done|lia].
    - exists range. split; [done|lia]. }
  assert (Hso' : StronglySorted Z.lt (ks ++ [k])).
  { apply StronglySorted_app_2; [|done|repeat constructor].
    intros x y Hx ->%list_elem_of_singleton. by apply Hlt. }
  destruct last as [p|].
  - rewrite btree_insert_last.
    2:{ intros x Hx. rewrite <-Hk in Hso. exact (StronglySorted_app_1_elem_of Z.lt (keys idx) [p] x p Hso Hx (list_elem_of_here _ _)). }
    split; cbn; [|done|apply Forall_app; split; [done|by apply Forall_singleton]|done].
    unfold keys in *. rewrite map_app. cbn. by rewrite Hk.
  - destruct Ha as [-> ->]. split; cbn in *; subst; done.
Qed.

Lemma index_loop_inv rs ri : ∀ ks st,
  index_inv rs ks st → StronglySorted Z.lt (ks ++ keys ri) →
  (∀ k r, (k, r) ∈ ri → ∃ range, zget rs r = Some range ∧ wasm_start range = k) →
  ∃ st', foldM (index_step rs) st ri = Ret st' ∧ index_inv rs (ks ++ keys ri) st'.
Proof.
  induction ri as [|[k r] ri IH]; intros ks st Hi Hs Hr; cbn [foldM keys map fst].
  { exists st. by rewrite app_nil_r. }
  destruct (index_step_inv rs ks st k r) as (st1 & -> & Hi1); [done|..].
  { intros x Hx. exact (StronglySorted_app_1_elem_of Z.lt ks _ x k Hs Hx (list_elem_of_here _ _)). }
  { apply Hr. left. }
  rewrite bind_Ret_l. destruct (IH (ks ++ [k]) st1 Hi1) as (st2 & -> & Hi2).
  { by rewrite <-app_assoc. }
  { intros k' r' Hin. apply Hr. by right. }
  exists st2. split; [done|]. by rewrite <-app_assoc in Hi2.
Qed.

(** What [build_function_lookup] promises. *)
Record lookup_ok (ft : FunctionAddressMap) (fn_start fn_end : Z) (l : FuncLookup) : Prop := {
  lo_positions : concat (map positions (ranges l)) = omap position_of (instructions ft);
  lo_ranges : Forall (range_ok fn_start fn_end) (ranges l);
  lo_gen : contiguous (body_offset ft) (ranges l) (body_offset ft + body_len ft);
  lo_sorted : key_sorted (index l);
  lo_entries : Forall (entry_ok (ranges l)) (index l);
  lo_first : fn_start ∈ keys (index l);
  lo_bounds : fn_start ≤ fn_end;
}.

Lemma build_function_lookup_ok ft fn_start fn_end l :
  build_function_lookup ft code_section_offset = Ret (fn_start, fn_end, l) →
  lookup_ok ft fn_start fn_end l.
Proof.
  unfold build_function_lookup. intros E. apply bind_Ret in E as ([] & _ & E).
  apply bind_Ret in E as ([] & Hfn%rassert_Ret%Z.leb_le & E).
  apply bind_Ret in E as (st & Est & E). apply bind_Ret in E as (ga & [-> _]%op_add_Ret & E).
  set (s0 := get_wasm_code_offset (start_srcloc ft) code_section_offset) in *.
  set (e0 := get_wasm_code_offset (end_srcloc ft) code_section_offset) in *.
  apply (lookup_loop_inv s0 e0 (body_offset ft) _ []) in Est.
  2:{ split; cbn; [done|constructor|constructor|set_solver|lia|done| |by right].
      split; [constructor|set_solver]. }
  destruct Est as [Hpos Hrs Hso Hin Hb Hg Hix Hf]. cbn in Hpos.
  set (lastr := mkRange (range_wasm_start st) e0 (range_gen_start st) _ (current_range st)) in *.
  pose proof (starts_ok_push _ _ lastr Hix) as [Hks Hke].
  destruct (index_loop_inv (b_ranges st ++ [lastr])
    (btree_insert (ranges_index st) (range_wasm_start st) (zlen (b_ranges st))) [] ([], [], None))
    as ([[active idx] last] & Eix & [Hk Hsorted He Ha]); [split; cbn; [done|constructor|constructor|done]|done..|].
  rewrite Eix, bind_Ret_l in E. cbn in Hk, Ha.
  apply bind_Ret in E as (p & Hp%unwrap_Ret & E). subst last. simplify_eq.
  rewrite <-Hk in Hsorted. rewrite btree_insert_last
    by (intros x Hx; exact (StronglySorted_app_1_elem_of Z.lt (keys idx) [p] x p Hsorted Hx (list_elem_of_here _ _))).
  assert (Hkeys : keys (idx ++ [(p, active)]) = keys idx ++ [p]) by (unfold keys; by rewrite map_app).
  split; cbn [index ranges].
  - rewrite map_app, concat_app. cbn. by rewrite app_nil_r.
  - apply Forall_app. split; [done|]. apply Forall_singleton. split; cbn; [done| |lia].
    intros q Hq. apply Hin in Hq. lia.
  - by apply contiguous_app.
  - by rewrite Hkeys.
  - apply Forall_app. split; [done|]. by apply Forall_singleton.
  - rewrite Hkeys. unfold keys. rewrite Hk. apply (btree_insert_keys (ranges_index st)). destruct Hf as [|[_ Hf]]; [by right|by left].
  - lia.
Qed.

(** The ranges that [build_function_lookup] builds.  Every instruction
    with a source location is in exactly one range, in the order of the
    generated code; the positions of a range ascend and lie between the
    range's wasm bounds, which lie between the function's; and the generated
    code of the ranges is contiguous, from the body's offset to its end. *)
Theorem build_function_lookup_ranges (ft : FunctionAddressMap) (fn_start fn_end : Z) (l : FuncLookup)
    (Hbuild : build_function_lookup ft code_section_offset = Ret (fn_start, fn_end, l)) :
  concat (map positions (ranges l)) = omap position_of (instructions ft) ∧
  Forall (range_ok fn_start fn_end) (ranges l) ∧
  contiguous (body_offset ft) (ranges l) (body_offset ft + body_len ft).
Proof. apply build_function_lookup_ok in Hbuild as []. done. Qed.
End ranges.

(** ** Translation *)

Lemma sorted_map_mono {A} (R : Z → Z → Prop) (f : A → Z) l :
  (∀ x y, R x y → x ≤ y) → StronglySorted R (map f l) →
  ∀ i j a b, i ≤ j → zget l i = Some a → zget l j = Some b → f a ≤ f b.
Proof.
  intros HR Hs i j a b Hij Ha Hb. destruct (decide (i = j)) as [->|Hne]; [simplify_eq; lia|].
  apply HR. eapply (sorted_zget_mono R (map f l) i j); [done|lia|..];
    rewrite zget_map; [by rewrite Ha|by rewrite Hb].
Qed.

(** *** The functions of a module *)

(** Each entry holds a function's lookup under the function's start. *)
Record funcs_ok (at_ : list FunctionAddressMap) (cso : Z) (l : list (Z * FuncTransform)) : Prop := {
  fo_sorted : key_sorted l;
  fo_funcs : ∀ k func, (k, func) ∈ l → k = ft_start func ∧
    ∃ ft, zget at_ (ft_index func) = Some ft ∧
      build_function_lookup ft cso = Ret (ft_start func, ft_end func, ft_lookup func);
}.

Lemma zget_imap_pair {A} (l : list A) n a : (n, a) ∈ imap pair l → zget l (Z.of_nat n) = Some a.
Proof.
  intros [i Hi]%list_elem_of_lookup. rewrite list_lookup_imap in Hi.
  apply fmap_Some in Hi as (b & Hb & [= -> ->]). unfold zget.
  rewrite (proj2 (Z.leb_le 0 _)) by lia. by rewrite Nat2Z.id.
Qed.

Lemma AddressTransform_new_ok at_ cso self :
  AddressTransform_new at_ cso = Ret self →
  at_map self = build_function_addr_map at_ cso ∧ funcs_ok at_ cso (at_func self).
Proof.
  unfold AddressTransform_new. intros (func & E & [= <-])%bind_Ret. split; [done|]. cbn.
  assert (Hz : ∀ i ft, (i, ft) ∈ imap pair at_ → zget at_ (Z.of_nat i) = Some ft)
    by (intros; by apply zget_imap_pair).
  assert (Hacc : funcs_ok at_ cso []) by (split; [constructor|set_solver]).
  revert E Hz Hacc. generalize (@nil (Z * FuncTransform)). generalize (imap pair at_).
  intros l. induction l as [|[i ft] l IH]; intros acc E Hz [Hs Hf]; cbn [foldM] in E.
  { by simplify_eq. }
  apply bind_Ret in E as (acc' & ([[fs fe] lk] & Hb & [= <-])%bind_Ret & E).
  apply (IH _ E); [intros; apply Hz; by right|]. split; [by apply btree_insert_sorted|].
  intros k f [[= -> ->]|Hin]%btree_insert_elem; [|by apply Hf].
  split; [done|]. exists ft. split; [apply Hz; left|done].
Qed.

Section translation.
Context `{BinarySearchLaws}.
Set Default Proof Using "Type*".

Lemma active_at_spec cso ft s e func addr :
  lookup_ok cso ft s e (ft_lookup func) → s ≤ addr →
  ∃ k l, active_at func addr = Ret l ∧ (k, l) ∈ index (ft_lookup func) ∧ k ≤ addr ∧
    (addr ∈ keys (index (ft_lookup func)) → k = addr) ∧
    (∀ k', k' ∈ keys (index (ft_lookup func)) → k' ≤ addr → k' ≤ k).
Proof.
  intros [_ _ _ Hso _ Hfirst _] Hs. unfold active_at.
  set (idx := index (ft_lookup func)) in *.
  assert (Hmono := sorted_map_mono Z.lt fst idx ltac:(lia) Hso).
  pose proof (bsearch_spec fst idx addr Hmono) as Hb. destruct (bsearch fst idx addr) as [i|i].
  - destruct Hb as ([k l] & Hi & Hk). cbn in Hk. rewrite (proj2 (zindex_Ret _ _ _) Hi), bind_Ret_l.
    exists k, l. split_and!; [done|by eapply zget_elem_of|lia..].
  - destruct Hb as [Hrange Hb].
    assert (Hnokey : ∀ x, x ∈ keys idx → x ≠ addr).
    { intros x Hx ->. apply list_elem_of_fmap in Hx as ([k l] & Hk & Hx). cbn in Hk.
      apply elem_of_zget in Hx as [j Hj]. destruct (Hb j _ Hj). cbn in *. lia. }
    assert (0 < i).
    { apply list_elem_of_fmap in Hfirst as ([k l] & Hk & Hx). cbn in Hk.
      apply elem_of_zget in Hx as [j Hj]. pose proof (zget_Some_lt _ _ _ Hj).
      destruct (Hb j _ Hj) as [_ Hge]. cbn in *. destruct (decide (i ≤ j)); [|lia].
      specialize (Hge ltac:(lia)). lia. }
    rewrite (proj2 (Z.ltb_lt 0 i)) by done.
    destruct (zget_is_Some idx (i - 1)) as [[k l] Hi]; [lia|].
    rewrite (proj2 (zindex_Ret _ _ _) Hi), bind_Ret_l. destruct (Hb _ _ Hi) as [Hlt _]. cbn in Hlt.
    exists k, l. split_and!; [done|by eapply zget_elem_of|lia|by intros Hin%Hnokey|].
    intros k' Hk' Hle. apply list_elem_of_fmap in Hk' as (e' & -> & [j Hj]%elem_of_zget).
    destruct (Hb _ _ Hj) as [_ Hge]. apply (Hmono j (i - 1) e' (k, l)); [|done..].
    destruct (decide (i ≤ j)); [specialize (Hge ltac:(lia)); lia|lia].
Qed.

(** The generated address [g] for the source address [addr] in a range: the
    start of an instruction at [addr]; failing that, the end of the last
    instruction before it; failing that, the start of the range. *)
Definition translates_in (r : Range) (addr g : Z) : Prop :=
  (∃ p, p ∈ positions r ∧ wasm_pos p = addr ∧ g = pos_gen_start p) ∨
  (∃ p, p ∈ positions r ∧ wasm_pos p < addr ∧ g = pos_gen_end p ∧
     ∀ q, q ∈ positions r → wasm_pos q ≤ wasm_pos p ∨ addr < wasm_pos q) ∨
  ((∀ p, p ∈ positions r → addr < wasm_pos p) ∧ g = gen_start r).

Lemma range_iter_address_spec s e r addr :
  range_ok s e r → ∃ g, range_iter_address r addr = Ret g ∧ translates_in r addr g.
Proof.
  intros [Hso _ _]. unfold range_iter_address.
  assert (Hmono := sorted_map_mono Z.le wasm_pos (positions r) ltac:(lia) Hso).
  pose proof (bsearch_spec wasm_pos (positions r) addr Hmono) as Hb.
  destruct (bsearch wasm_pos (positions r) addr) as [i|i].
  - destruct Hb as (p & Hi & Hk). rewrite (proj2 (zindex_Ret _ _ _) Hi), bind_Ret_l.
    eexists; split; [done|]. left. exists p. split_and!; [by eapply zget_elem_of|done..].
  - destruct Hb as [Hrange Hb]. destruct (Z.eqb_spec i 0) as [->|Hne].
    + eexists; split; [done|]. right. right. split; [|done]. intros p [j Hj]%elem_of_zget.
      pose proof (zget_Some_lt _ _ _ Hj). apply (Hb j p Hj). lia.
    + destruct (zget_is_Some (positions r) (i - 1)) as [p Hp]; [lia|].
      rewrite (proj2 (zindex_Ret _ _ _) Hp), bind_Ret_l. eexists; split; [done|]. right. left.
      exists p. split_and!; [by eapply zget_elem_of|apply (Hb _ _ Hp); lia|done|].
      intros q [j Hj]%elem_of_zget. destruct (decide (j < i)); [left|right; apply (Hb j q Hj); lia].
      by apply (Hmono j (i - 1)); [lia|..].
Qed.

Lemma range_end_address_total s e r addr :
  range_ok s e r → ∃ g, range_end_address r addr = Ret g.
Proof.
  intros [Hso _ _]. unfold range_end_address.
  assert (Hmono := sorted_map_mono Z.le wasm_pos (positions r) ltac:(lia) Hso).
  pose proof (bsearch_spec wasm_pos (positions r) addr Hmono) as Hb.
  destruct (bsearch wasm_pos (positions r) addr) as [i|i].
  - destruct Hb as (p & Hi & Hk). rewrite (proj2 (zindex_Ret _ _ _) Hi), bind_Ret_l. by eexists.
  - destruct Hb as [Hrange Hb]. destruct (Z.eqb_spec i (zlen (positions r))); [by eexists|].
    destruct (zget_is_Some (positions r) i) as [p Hp]; [lia|].
    rewrite (proj2 (zindex_Ret _ _ _) Hp), bind_Ret_l. by eexists.
Qed.

(** The function with the greatest start that is not above [addr]. *)
Lemma find_func_spec at_ cso self addr :
  funcs_ok at_ cso (at_func self) →
  (find_func self addr = Ret None ∧ ∀ k, k ∈ keys (at_func self) → addr < k) ∨
  (∃ func, find_func self addr = Ret (Some func) ∧ (ft_start func, func) ∈ at_func self ∧
     ft_start func ≤ addr ∧ ∀ k, k ∈ keys (at_func self) → k ≤ addr → k ≤ ft_start func).
Proof.
  intros [Hso Hf]. unfold find_func. set (l := at_func self) in *.
  assert (Hmono := sorted_map_mono Z.lt fst l ltac:(lia) Hso).
  pose proof (bsearch_spec fst l addr Hmono) as Hb. destruct (bsearch fst l addr) as [i|i].
  - right. destruct Hb as ([k func] & Hi & Hk). cbn in Hk. subst k.
    destruct (Hf _ _ (zget_elem_of _ _ _ Hi)) as [-> _].
    rewrite (proj2 (zindex_Ret _ _ _) Hi), bind_Ret_l. cbn. rewrite Z.leb_refl.
    exists func. split_and!; [done|by eapply zget_elem_of|lia|lia].
  - destruct Hb as [Hrange Hb]. destruct (Z.ltb_spec 0 i) as [Hi|Hi].
    + right. destruct (zget_is_Some l (i - 1)) as [[k func] Hget]; [lia|].
      destruct (Hf _ _ (zget_elem_of _ _ _ Hget)) as [-> _].
      destruct (Hb _ _ Hget) as [Hlt _]. cbn in Hlt.
      rewrite (proj2 (zindex_Ret _ _ _) Hget), bind_Ret_l. cbn.
      rewrite (proj2 (Z.leb_le (ft_start func) addr)) by lia.
      exists func. split_and!; [done|by eapply zget_elem_of|lia|].
      intros k Hk Hle. apply list_elem_of_fmap in Hk as (e & -> & [j Hj]%elem_of_zget).
      destruct (Hb _ _ Hj) as [_ Hge]. apply (Hmono j (i - 1) e (ft_start func, func)); [|done..].
      destruct (decide (i ≤ j)); [specialize (Hge ltac:(lia)); lia|lia].
    + left. split; [done|]. intros k Hk.
      apply list_elem_of_fmap in Hk as (e & -> & [j Hj]%elem_of_zget).
      pose proof (zget_Some_lt _ _ _ Hj). apply (Hb _ _ Hj). lia.
Qed.

(** The function that [find_func] finds, with its lookup. *)
Lemma find_func_Some at_ cso self addr func :
  AddressTransform_new at_ cso = Ret self → find_func self addr = Ret (Some func) →
  ft_start func ≤ addr ∧ ∃ ft, zget at_ (ft_index func) = Some ft ∧
    lookup_ok cso ft (ft_start func) (ft_end func) (ft_lookup func).
Proof.
  intros [_ Hok]%AddressTransform_new_ok Hfind.
  destruct (find_func_spec at_ cso self addr Hok) as [[E _]|(f & E & Hin & Hle & _)];
    rewrite Hfind in E; [done|]. apply Ret_inj in E as [= <-]. split; [done|].
  destruct (fo_funcs _ _ _ Hok _ _ Hin) as (_ & ft & Hz & Hb%build_function_lookup_ok). by exists ft.
Qed.

Lemma translate_raw_outcome (self : AddressTransform) (at_ : list FunctionAddressMap) (cso addr : Z)
    (Hnew : AddressTransform_new at_ cso = Ret self) (Hzero : addr ≠ 0) :
  (translate_raw self addr = Ret None ∧ ∀ k, k ∈ keys (at_func self) → addr < k) ∨
  (∃ func ft g, translate_raw self addr = Ret (Some (ft_index func, g)) ∧
     (ft_start func, func) ∈ at_func self ∧ zget at_ (ft_index func) = Some ft ∧
     build_function_lookup ft cso = Ret (ft_start func, ft_end func, ft_lookup func) ∧
     ft_start func ≤ addr ∧
     (∀ k, k ∈ keys (at_func self) → k ≤ addr → k ≤ ft_start func) ∧
     if decide (addr = ft_end func) then g = body_len ft
     else ∃ k i l r, (k, i :: l) ∈ index (ft_lookup func) ∧ k ≤ addr ∧
       (∀ k', k' ∈ keys (index (ft_lookup func)) → k' ≤ addr → k' ≤ k) ∧
       zget (ranges (ft_lookup func)) i = Some r ∧ wasm_start r ≤ addr ∧ translates_in r addr g).
Proof.
  apply AddressTransform_new_ok in Hnew as [Hmap Hok]. unfold translate_raw.
  rewrite (proj2 (Z.eqb_neq addr 0)) by done.
  destruct (find_func_spec at_ cso self addr Hok) as [[-> Hk]|(func & -> & Hin & Hle & Hmax)].
  { left. by rewrite bind_Ret_l. }
  right. rewrite bind_Ret_l. destruct (fo_funcs _ _ _ Hok _ _ Hin) as (_ & ft & Hz & Hb).
  apply build_function_lookup_ok in Hb as Hlk. destruct (decide (addr = ft_end func)) as [He|He].
  { exists func, ft, (body_len ft). rewrite (proj2 (Z.eqb_eq addr _)) by done.
    rewrite Hmap.
    assert (Hm : zget (build_function_addr_map at_ cso) (ft_index func) =
      option_map (λ ft, mkFunctionMap (body_offset ft) (body_len ft)
        (get_wasm_code_offset (start_srcloc ft) cso) (get_wasm_code_offset (end_srcloc ft) cso)
        (omap (λ t, if is_default (srcloc t) then None
                    else Some (mkAddressMap (code_offset t) (get_wasm_code_offset (srcloc t) cso)))
           (instructions ft))) (Some ft)) by (unfold build_function_addr_map; by rewrite zget_map, Hz).
    rewrite (proj2 (zindex_Ret _ _ _) Hm), bind_Ret_l. rewrite decide_True by done. split_and!; done. }
  destruct (active_at_spec cso ft _ _ func addr Hlk Hle) as (k & l & Ha & Hl & Hk & _ & Hkmax).
  destruct Hlk as [_ Hrs _ _ Hent _ _]. rewrite Forall_forall in Hent. rewrite Forall_forall in Hrs.
  destruct (Hent _ Hl) as [Hall (r0 & _ & Hr0 & _)]. cbn in Hall, Hr0.
  destruct l as [|r1 l]; [by apply elem_of_nil in Hr0|].
  destruct (Hall r1) as (r & Hr & Hws); [left|].
  destruct (range_iter_address_spec (ft_start func) (ft_end func) r addr) as (g & Hg & Ht).
  { apply Hrs. by eapply zget_elem_of. }
  exists func, ft, g. rewrite (proj2 (Z.eqb_neq addr _)) by done. rewrite Ha, bind_Ret_l.
  cbn [range_iter_next]. rewrite (proj2 (zindex_Ret _ _ _) Hr), bind_Ret_l, Hg, !bind_Ret_l.
  rewrite decide_False by done.
  split_and!; [done..|]. exists k, r1, l, r. split_and!; [done..|lia|done].
Qed.

(** C34: translating an address with the transform of a module.  [translate_raw]
    finds, among the functions of the transform, the one with the greatest
    start that is not above the address (none below every start), with the
    table that was built from that function's map; at the function's end it returns the
    length of its body; otherwise it takes the first of the ranges that are
    active at the greatest indexed position up to the address, which starts
    at or before the address, and returns the start of an
    instruction compiled from exactly that address if the range has one,
    otherwise the end of the code of the last instruction before it,
    otherwise the start of the range's code.  It never panics, whichever of
    several equal entries the binary searches find. *)
Theorem translate_raw_spec (self : AddressTransform) (at_ : list FunctionAddressMap) (cso addr : Z)
    (Hnew : AddressTransform_new at_ cso = Ret self) (Hzero : addr ≠ 0) :
  (translate_raw self addr = Ret None ∧ ∀ k, k ∈ keys (at_func self) → addr < k) ∨
  (∃ func ft g, translate_raw self addr = Ret (Some (ft_index func, g)) ∧
     (ft_start func, func) ∈ at_func self ∧ zget at_ (ft_index func) = Some ft ∧
     build_function_lookup ft cso = Ret (ft_start func, ft_end func, ft_lookup func) ∧
     ft_start func ≤ addr ∧
     (∀ k, k ∈ keys (at_func self) → k ≤ addr → k ≤ ft_start func) ∧
     if decide (addr = ft_end func) then g = body_len ft
     else ∃ k i l r, (k, i :: l) ∈ index (ft_lookup func) ∧ k ≤ addr ∧
       (∀ k', k' ∈ keys (index (ft_lookup func)) → k' ≤ addr → k' ≤ k) ∧
       zget (ranges (ft_lookup func)) i = Some r ∧ wasm_start r ≤ addr ∧ translates_in r addr g).
Proof. by apply (translate_raw_outcome self at_ cso). Qed.

(** Whether an address can be translated is always answered. *)
Lemma can_translate_address_total self at_ cso addr :
  AddressTransform_new at_ cso = Ret self → ∃ b, can_translate_address self addr = Ret b.
Proof.
  intros Hnew. unfold can_translate_address, translate. destruct (decide (addr = 0)) as [->|Hz].
  { unfold translate_raw. cbn. by eexists. }
  destruct (translate_raw_outcome self at_ cso addr Hnew Hz) as [[-> _]|(func & ft & g & -> & _)];
    rewrite !bind_Ret_l; by eexists.
Qed.

(** *** Ranges of addresses *)

Lemma collect_starts_total s e rs addr l : ∀ starts,
  Forall (range_ok s e) rs → (∀ r, r ∈ l → is_Some (zget rs r)) →
  (∀ r, r ∈ dom starts → is_Some (zget rs r)) →
  ∃ starts', collect_starts rs addr l starts = Ret starts' ∧
    (∀ r, r ∈ dom starts' → is_Some (zget rs r)).
Proof.
  induction l as [|r l IH]; intros starts Hrs Hl Hd; cbn [collect_starts]; [by exists starts|].
  destruct (Hl r) as [range Hr]; [left|]. rewrite (proj2 (zindex_Ret _ _ _) Hr), bind_Ret_l.
  destruct (range_iter_address_spec s e range addr) as (g & -> & _); [by eapply zget_Forall|].
  rewrite bind_Ret_l. apply IH; [done|set_solver|]. intros x. rewrite dom_insert. set_solver.
Qed.

Lemma range_end_iter_stuck fuel rs addr r l range :
  zget rs r = Some range → addr ≤ wasm_start range →
  range_end_iter_next fuel rs addr (r :: l) = Ret None.
Proof.
  intros Hr Hle. induction fuel as [|fuel IH]; cbn [range_end_iter_next]; [done|].
  rewrite (proj2 (zindex_Ret _ _ _) Hr), bind_Ret_l. by rewrite (proj2 (Z.leb_le _ _) Hle).
Qed.

Lemma range_end_iter_step s e fuel rs addr r l range :
  Forall (range_ok s e) rs → zget rs r = Some range → wasm_start range < addr →
  ∃ g, range_end_iter_next (S fuel) rs addr (r :: l) = Ret (Some (Some (g, r), l)).
Proof.
  intros Hrs Hr Hlt. cbn [range_end_iter_next]. rewrite (proj2 (zindex_Ret _ _ _) Hr), bind_Ret_l.
  rewrite (proj2 (Z.leb_gt _ _) Hlt).
  destruct (range_end_address_total s e range addr) as (g & ->); [by eapply zget_Forall|].
  exists g. by rewrite bind_Ret_l.
Qed.

Lemma collect_ends_diverges s e rs addr : ∀ fuel l starts result,
  Forall (range_ok s e) rs → (∀ r, r ∈ l → is_Some (zget rs r)) →
  (∃ r range, r ∈ l ∧ zget rs r = Some range ∧ addr ≤ wasm_start range) →
  collect_ends fuel rs addr l starts result = Ret None.
Proof.
  induction fuel as [|fuel IH]; intros l starts result Hrs Hl (r & range & Hin & Hr & Hle); [done|].
  destruct l as [|r1 l]; [by apply elem_of_nil in Hin|]. cbn [collect_ends].
  destruct (Hl r1) as [range1 Hr1]; [left|].
  destruct (decide (addr ≤ wasm_start range1)) as [Hle1|Hlt1].
  { by rewrite (range_end_iter_stuck (S fuel) rs addr r1 l range1 Hr1 Hle1). }
  destruct (range_end_iter_step s e fuel rs addr r1 l range1) as [g ->]; [done..|lia|].
  rewrite bind_Ret_l. apply elem_of_cons in Hin as [->|Hin]; [simplify_eq; lia|].
  rewrite (proj2 (zindex_Ret _ _ _) Hr1).
  case_match; rewrite ?bind_Ret_l; (apply IH; [done|set_solver|by exists r, range]).
Qed.

Lemma collect_ends_total s e rs addr : ∀ fuel l starts result,
  Forall (range_ok s e) rs → (length l < fuel)%nat →
  (∀ r, r ∈ l → ∃ range, zget rs r = Some range ∧ wasm_start range < addr) →
  ∃ starts' result', collect_ends fuel rs addr l starts result = Ret (Some (starts', result')) ∧
    dom starts' ⊆ dom starts ∧ length result' = (length result + length l)%nat.
Proof.
  induction fuel as [|fuel IH]; intros l starts result Hrs Hf Hl; [lia|]. cbn [collect_ends].
  destruct l as [|r1 l].
  { exists starts, result. cbn. split_and!; [done|done|lia]. }
  destruct (Hl r1) as (range1 & Hr1 & Hlt1); [left|].
  destruct (range_end_iter_step s e fuel rs addr r1 l range1) as [g ->]; [done..|].
  rewrite bind_Ret_l, (proj2 (zindex_Ret _ _ _) Hr1). cbn in Hf.
  case_match; rewrite ?bind_Ret_l.
  - destruct (IH l (delete r1 starts) (result ++ [(z, g)])) as (s' & r' & -> & Hd & Hn);
      [done|lia|set_solver|].
    exists s', r'. split_and!; [done|set_solver|rewrite Hn, length_app; cbn; lia].
  - destruct (IH l starts (result ++ [(gen_start range1, g)])) as (s' & r' & -> & Hd & Hn);
      [done|lia|set_solver|].
    exists s', r'. split_and!; [done|set_solver|rewrite Hn, length_app; cbn; lia].
Qed.

(** C35: [translate_ranges_raw] returns for an end address that is not the start
    of an indexed range, with as many steps of its loop as there are ranges
    active at the end; it does not panic and gives at least one range for
    each of them.  For an end address that is the start of an indexed range
    it does not return: [TransformRangeEndIter::next] meets a range that
    starts at the end address and retries it without advancing. *)
Theorem translate_ranges_raw_returns_iff (hash_iter : gmap Z Z → list (Z * Z))
    (self : AddressTransform) (at_ : list FunctionAddressMap) (cso start end_ : Z)
    (func : FuncTransform)
    (Hhash : ∀ m, hash_iter m ≡ₚ map_to_list m)
    (Hnew : AddressTransform_new at_ cso = Ret self)
    (Hfind : find_func self start = Ret (Some func))
    (Hzero : start ≠ 0) (Hend : ft_start func ≤ end_) :
  (end_ ∈ keys (index (ft_lookup func)) →
     ∀ fuel, translate_ranges_raw hash_iter fuel self start end_ = Ret None) ∧
  (end_ ∉ keys (index (ft_lookup func)) →
     ∃ active, active_at func end_ = Ret active ∧
     ∀ fuel, (length active < fuel)%nat →
     ∃ l, translate_ranges_raw hash_iter fuel self start end_ = Ret (Some (Some (ft_index func, l))) ∧
       (0 < length active ≤ length l)%nat).
Proof.
  destruct (find_func_Some at_ cso self start func Hnew Hfind) as (Hstart & ft & _ & Hok).
  destruct (active_at_spec cso ft _ _ func start Hok Hstart) as (k1 & l1 & Ha1 & Hin1 & _ & _).
  destruct (active_at_spec cso ft _ _ func end_ Hok Hend) as (k2 & l2 & Ha2 & Hin2 & Hk2 & Hkey & _).
  destruct Hok as [_ Hrs _ _ Hent _ _]. rewrite Forall_forall in Hent.
  destruct (Hent _ Hin1) as [Hall1 _]. destruct (Hent _ Hin2) as [Hall2 (r2 & rg2 & Hr2 & Hz2 & Hw2)].
  cbn in *. set (rs := ranges (ft_lookup func)) in *.
  destruct (collect_starts_total (ft_start func) (ft_end func) rs start l1 ∅) as (starts & Hst & Hdom);
    [done| |set_solver|].
  { intros r Hr. destruct (Hall1 r Hr) as (? & ? & _). by eexists. }
  assert (Hunf : ∀ fuel, translate_ranges_raw hash_iter fuel self start end_ =
    (r ← collect_ends fuel rs end_ l2 starts [];
     match r with
     | None => Ret None
     | Some (starts, result) =>
         rest ← mapR (λ '(r, range_start), range ← zindex rs r; Ret (range_start, gen_end range))
                  (hash_iter starts);
         Ret (Some (Some (ft_index func, result ++ rest)))
     end)).
  { intros fuel. unfold translate_ranges_raw. rewrite (proj2 (Z.eqb_neq start 0)) by done.
    rewrite Hfind, bind_Ret_l, Ha1, bind_Ret_l. fold rs. by rewrite Hst, bind_Ret_l, Ha2, bind_Ret_l. }
  split.
  - intros Hkin fuel. rewrite Hunf, (collect_ends_diverges (ft_start func) (ft_end func)); [done|done| |].
    + intros r Hr. destruct (Hall2 r Hr) as (? & ? & _). by eexists.
    + exists r2, rg2. specialize (Hkey Hkin). split_and!; [done..|lia].
  - intros Hknot. exists l2. split; [done|]. intros fuel Hf. rewrite Hunf.
    assert (k2 ≠ end_).
    { intros ->. apply Hknot. apply list_elem_of_fmap. by exists (end_, l2). }
    destruct (collect_ends_total (ft_start func) (ft_end func) rs end_ fuel l2 starts [])
      as (starts' & result' & -> & Hd & Hn); [done..| |].
    { intros r Hr. destruct (Hall2 r Hr) as (rg & ? & ?). exists rg. split; [done|lia]. }
    rewrite bind_Ret_l.
    destruct (mapR_total (λ '(r, range_start), range ← zindex rs r; Ret (range_start, gen_end range))
      (hash_iter starts')) as [rest ->].
    { intros [r g] Hin. rewrite Hhash in Hin. apply elem_of_map_to_list in Hin.
      destruct (Hdom r) as [rg Hrg]; [apply Hd; by eapply elem_of_dom_2|].
      rewrite (proj2 (zindex_Ret _ _ _) Hrg). by eexists. }
    rewrite bind_Ret_l. eexists; split; [done|]. rewrite length_app.
    destruct l2; [by apply elem_of_nil in Hr2|]. cbn in *. lia.
Qed.
End translation.

(** ** Instances *)

(** A search from the left. *)
Fixpoint scan {A} (key : A → Z) (l : list A) (x i : Z) : result Z Z :=
  match l with
  | [] => Err i
  | a :: l => if key a =? x then Ok i else if x <? key a then Err i else scan key l x (i + 1)
  end.
Definition scan_search : BinarySearch := {| bsearch _ key l x := scan key l x 0 |}.

Lemma scan_spec {A} (key : A → Z) (l : list A) (x : Z) : ∀ n,
  (∀ i j a b, i ≤ j → zget l i = Some a → zget l j = Some b → key a ≤ key b) →
  match scan key l x n with
  | Ok i => ∃ a, zget l (i - n) = Some a ∧ key a = x
  | Err i => 0 ≤ i - n ≤ zlen l ∧
      ∀ j a, zget l j = Some a → (j < i - n → key a < x) ∧ (i - n ≤ j → x < key a)
  end.
Proof.
  induction l as [|a l IH]; intros n Hm; cbn [scan].
  { rewrite Z.sub_diag. split; [done|]. intros j b Hj. by apply zget_nil in Hj. }
  destruct (Z.eqb_spec (key a) x) as [Hk|Hne]; [by exists a; rewrite Z.sub_diag|].
  destruct (Z.ltb_spec x (key a)) as [Hlt|Hge].
  { rewrite Z.sub_diag. split; [split; [done|apply zlen_nonneg]|]. intros j b Hj.
    pose proof (zget_Some_lt _ _ _ Hj). split; [lia|]. intros _.
    pose proof (Hm 0 j a b ltac:(lia) eq_refl Hj). lia. }
  assert (Hm' : ∀ i j b c, i ≤ j → zget l i = Some b → zget l j = Some c → key b ≤ key c).
  { intros i j b c Hij Hb Hc. pose proof (zget_Some_lt _ _ _ Hb).
    apply (Hm (i + 1) (j + 1)); [lia|rewrite zget_cons by lia..]; by rewrite Z.add_simpl_r. }
  specialize (IH (n + 1) Hm'). destruct (scan key l x (n + 1)) as [i|i].
  - destruct IH as (b & Hb & Hk). exists b. pose proof (zget_Some_lt _ _ _ Hb).
    rewrite zget_cons by lia. split; [|done]. by replace (i - n - 1) with (i - (n + 1)) by lia.
  - destruct IH as [Hr IH]. rewrite zlen_cons. split; [lia|]. intros j b Hj.
    pose proof (zget_Some_lt _ _ _ Hj). destruct (decide (j = 0)) as [->|Hj0].
    { injection Hj as <-. lia. }
    rewrite zget_cons in Hj by lia. destruct (IH _ _ Hj). split; lia.
Qed.

Lemma scan_search_laws : @BinarySearchLaws scan_search.
Proof.
  split. intros A key l x Hm. pose proof (scan_spec key l x 0 Hm) as Hs. cbn.
  destruct (scan key l x 0); by rewrite Z.sub_0_r in Hs.
Qed.

(** The functions of the unit tests of [address_transform.rs]. *)
Definition create_simple_func (wasm_offset : Z) : FunctionAddressMap :=
  mkFunctionAddressMap
    [mkInstructionAddressMap (wasm_offset + 2) 5 3; mkInstructionAddressMap (wasm_offset + 7) 15 8]
    wasm_offset (wasm_offset + 10) 0 30.
Definition create_two_ranges_func (wasm_offset : Z) : FunctionAddressMap :=
  mkFunctionAddressMap
    [mkInstructionAddressMap (wasm_offset + 2) 5 3; mkInstructionAddressMap (wasm_offset + 7) 15 8;
     mkInstructionAddressMap (wasm_offset + 2) 23 3]
    wasm_offset (wasm_offset + 10) 0 30.

Definition two_ranges_lookup : FuncLookup :=
  mkFuncLookup [(10, [0]); (12, [0; 1])]
    [mkRange 10 17 0 23 [mkPosition 12 5 8; mkPosition 17 15 23];
     mkRange 12 20 23 30 [mkPosition 12 23 26]].
Definition two_ranges_func : FuncTransform := mkFuncTransform 10 20 0 two_ranges_lookup.
Definition two_ranges_transform : AddressTransform :=
  mkAddressTransform
    [mkFunctionMap 0 30 10 20 [mkAddressMap 5 12; mkAddressMap 15 17; mkAddressMap 23 12]]
    [(10, two_ranges_func)].

Example test_build_function_lookup_two_ranges :
  build_function_lookup (create_two_ranges_func 11) 1 = Ret (10, 20, two_ranges_lookup).
Proof. vm_compute. reflexivity. Qed.

Example two_ranges_transform_new :
  AddressTransform_new [create_two_ranges_func 11] 1 = Ret two_ranges_transform.
Proof. vm_compute. reflexivity. Qed.

Example two_ranges_find : @find_func scan_search two_ranges_transform 10 = Ret (Some two_ranges_func).
Proof. vm_compute. reflexivity. Qed.

Example test_addr_translate :
  ∃ self, AddressTransform_new [create_simple_func 11] 1 = Ret self ∧
    map (@translate scan_search self) [10; 20; 0; 12; 18] =
    [Ret (Some (0, 0)); Ret (Some (0, 30)); Ret None; Ret (Some (0, 5)); Ret (Some (0, 23))].
Proof. eexists. split; reflexivity. Qed.

Lemma build_function_lookup_ranges_witness :
  build_function_lookup (create_two_ranges_func 11) 1 = Ret (10, 20, two_ranges_lookup) ∧
  Forall (range_ok 10 20) (ranges two_ranges_lookup).
Proof.
  split; [exact test_build_function_lookup_two_ranges|].
  exact (proj1 (proj2 (build_function_lookup_ranges 1 (create_two_ranges_func 11) 10 20 _
    test_build_function_lookup_two_ranges))).
Defined.

Lemma translate_raw_spec_witness :
  ∃ func ft g, @translate_raw scan_search two_ranges_transform 14 = Ret (Some (ft_index func, g)) ∧
    (ft_start func, func) ∈ at_func two_ranges_transform ∧
    zget [create_two_ranges_func 11] (ft_index func) = Some ft.
Proof.
  destruct (@translate_raw_spec scan_search scan_search_laws two_ranges_transform
    [create_two_ranges_func 11] 1 14 two_ranges_transform_new ltac:(lia))
    as [[_ E]|(func & ft & g & E & Hin & Hz & _)].
  - specialize (E 10 (list_elem_of_here _ _)). lia.
  - exists func, ft, g. by split_and!.
Defined.

Lemma translate_ranges_raw_returns_iff_witness :
  (∀ fuel, @translate_ranges_raw scan_search map_to_list fuel two_ranges_transform 10 12 = Ret None) ∧
  (∃ fuel l, @translate_ranges_raw scan_search map_to_list fuel two_ranges_transform 10 14 =
     Ret (Some (Some (0, l)))).
Proof.
  split.
  - apply (@translate_ranges_raw_returns_iff scan_search scan_search_laws map_to_list
      two_ranges_transform [create_two_ranges_func 11] 1 10 12 two_ranges_func (λ m, reflexivity _)
      two_ranges_transform_new two_ranges_find ltac:(lia) ltac:(cbn; lia)).
    cbn. set_solver.
  - destruct (@translate_ranges_raw_returns_iff scan_search scan_search_laws map_to_list
      two_ranges_transform [create_two_ranges_func 11] 1 10 14 two_ranges_func (λ m, reflexivity _)
      two_ranges_transform_new two_ranges_find ltac:(lia) ltac:(cbn; lia)) as [_ Hret].
    destruct Hret as (active & Ha & Hl); [cbn; set_solver|].
    destruct (Hl (S (length active))) as (l & E & _); [lia|]. by eexists _, l.
Defined.
