(* ===== verification/DebugExpression.v ===== *)
(** * Expressions for the locations of variables

    Models [wasmtime-debug/src/transform/expression.rs]: the compilation of
    the DWARF expressions of a WebAssembly module, which name its locals, and
    the expressions over machine registers that replace them, one for each
    range of generated code in which all the locals involved stay where they
    are.  The constants, readers and writers of gimli are the class [Gimli]. *)

From S2P Require Import Prelude AddressTransform.
Local Open Scope Z_scope.

(** ** Library data *)

(** The machine registers that the code names. *)
Inductive Register :=
| RAX | RCX | RDX | RBX | RSP | RBP | RSI | RDI
| R8 | R9 | R10 | R11 | R12 | R13 | R14 | R15
| XMM0 | XMM1 | XMM2 | XMM3 | XMM4 | XMM5 | XMM6 | XMM7.

(** [gimli::Operation], as far as the code distinguishes. *)
Inductive Operation := Literal | PlusConstant | StackValue | DerefOp | OtherOperation.

Inductive ReadError := mkReadError (code : Z).

Definition bytes := list Z.

Class Gimli := {
  X86_64 : Register → Z;            (* the number of a register in DWARF, 16 bits *)
  DW_OP_reg0 : Z; DW_OP_breg0 : Z; DW_OP_deref : Z; DW_OP_consts : Z; DW_OP_plus : Z;
  DW_OP_swap : Z; DW_OP_stack_value : Z; DW_OP_constu : Z; DW_OP_and : Z;
  sleb128 : Z → bytes;              (* [Writer::write_sleb128] to a vector *)
  uleb128 : Z → bytes;
  read_uleb128 : bytes → result (Z * bytes) ReadError;
  read_sleb128 : bytes → result (Z * bytes) ReadError;
  Operation_parse : bytes → bytes → result (Operation * bytes) ReadError;
  UnexpectedEof : ReadError;        (* [read_u8] at the end *)
  get_vmctx_value_label : Z;
}.

(** [cranelift_codegen::ir::ValueLoc]: a register unit, a stack slot, or
    none. *)
Inductive ValueLoc := LocReg (reg : Z) | LocStack (ss : Z) | LocOther.

Record ValueLocRange := mkValueLocRange { vl_loc : ValueLoc; vl_start : Z; vl_end : Z }.

(** The stack slots are given by their offsets. *)
Record FunctionFrameInfo := mkFrameInfo {
  value_ranges : gmap Z (list ValueLocRange);
  memory_offset : Z;
  stack_slots : list (option Z);
}.

Inductive CompiledExpressionPart := Code (c : bytes) | Local (label : Z) | Deref.
Record CompiledExpression := mkExpression {
  parts : list CompiledExpressionPart;
  need_deref : bool;
}.

(** ** Computations that may run on

    The translation of ranges can run forever ([AddressTransform.v]); its
    result is then [None].  The same holds of what uses it. *)
Notation run A := (res (option A)).
Definition run_bind {A B} (m : run A) (f : A → run B) : run B :=
  match m with Ret (Some a) => f a | Ret None => Ret None | Panic => Panic end.
Notation "x <~ m ; f" := (run_bind m (λ x, f)) (at level 100, m at next level, f at level 200, right associativity).

Fixpoint foldR {A B} (f : B → A → run B) (b : B) (l : list A) : run B :=
  match l with
  | [] => Ret (Some b)
  | a :: l => b' <~ f b a; foldR f b' l
  end.

(** [Vec::insert] *)
Definition vec_insert {A} (l : list A) (i : Z) (x : A) : res (list A) :=
  if (0 <=? i) && (i <=? zlen l) then Ret (take (Z.to_nat i) l ++ x :: drop (Z.to_nat i) l) else Panic.

Section expressions.
Context `{Gimli}.

Definition from_label (label : Z) : CompiledExpression :=
  mkExpression [Local label; Code [wrap_u 8 DW_OP_stack_value]] false.
Definition vmctx : CompiledExpression := from_label get_vmctx_value_label.

(** ** Locations *)

(** The table of [map_reg]. *)
Definition map_reg (reg : Z) : res Register :=
  unwrap (zget [RAX; RCX; RDX; RBX; RSP; RBP; RSI; RDI; R8; R9; R10; R11; R12; R13; R14; R15;
                XMM0; XMM1; XMM2; XMM3; XMM4; XMM5; XMM6; XMM7] reg).

(** [map_reg] with the static map in which it keeps its results. *)
Definition map_reg_cached (cache : gmap Z Register) (reg : Z) : res (gmap Z Register * Register) :=
  match cache !! reg with
  | Some val => Ret (cache, val)
  | None => result ← map_reg reg; Ret (<[reg := result]> cache, result)
  end.

Definition translate_loc (loc : ValueLoc) (frame_info : option FunctionFrameInfo)
    : res (option bytes) :=
  match loc with
  | LocReg reg =>
      r ← map_reg reg;
      let machine_reg := wrap_u 8 (X86_64 r) in
      _ ← rassert (machine_reg <? 32);
      op ← op_add 8 DW_OP_reg0 machine_reg;
      Ret (Some [op])
  | LocStack ss =>
      match frame_info with
      | None => Ret None
      | Some frame_info =>
          slot ← zindex (stack_slots frame_info) ss;
          match slot with
          | None => Ret None
          | Some ss_offset =>
              op ← op_add 8 DW_OP_breg0 (wrap_u 8 (X86_64 RBP));
              Ret (Some (op :: sleb128 (ss_offset + 16) ++ [wrap_u 8 DW_OP_deref]))
          end
      end
  | LocOther => Ret None
  end.

(** [append_memory_deref]: the code that is appended; [None] for [Ok(false)].
    Writing to a vector does not fail. *)
Definition append_memory_deref (frame_info : FunctionFrameInfo) (vmctx_loc : ValueLoc)
    : res (option bytes) :=
  base ← match vmctx_loc with
         | LocReg vmctx_reg =>
             reg ← map_reg vmctx_reg;
             op ← op_add 8 DW_OP_breg0 (wrap_u 8 (X86_64 reg));
             Ret (Some (op :: sleb128 (memory_offset frame_info)))
         | LocStack ss =>
             slot ← zindex (stack_slots frame_info) ss;
             match slot with
             | None => Ret None
             | Some ss_offset =>
                 op ← op_add 8 DW_OP_breg0 (wrap_u 8 (X86_64 RBP));
                 Ret (Some (op :: sleb128 (ss_offset + 16) ++
                   [wrap_u 8 DW_OP_deref; wrap_u 8 DW_OP_consts] ++
                   sleb128 (memory_offset frame_info) ++ [wrap_u 8 DW_OP_plus]))
             end
         | LocOther => Ret None
         end;
  Ret (match base with
       | None => None
       | Some base =>
           Some (base ++ [wrap_u 8 DW_OP_deref; wrap_u 8 DW_OP_swap; wrap_u 8 DW_OP_stack_value;
                          wrap_u 8 DW_OP_constu] ++ uleb128 (2 ^ 32 - 1) ++
                 [wrap_u 8 DW_OP_and; wrap_u 8 DW_OP_plus])
       end).

(** ** Expressions without locals *)

Definition is_simple (self : CompiledExpression) : bool :=
  match parts self with [Code _] => true | [] => true | _ => false end.

Definition build (self : CompiledExpression) : option bytes :=
  match parts self with [Code code] => Some code | _ => None end.

(** ** Ranges of code with the locations of labels *)

Record CachedValueLabelRange := mkCached {
  cv_func_index : Z;
  cv_start : Z;
  cv_end : Z;
  label_location : gmap Z ValueLoc;
}.
Definition with_start (r : CachedValueLabelRange) (x : Z) : CachedValueLabelRange :=
  mkCached (cv_func_index r) x (cv_end r) (label_location r).
Definition with_end (r : CachedValueLabelRange) (x : Z) : CachedValueLabelRange :=
  mkCached (cv_func_index r) (cv_start r) x (label_location r).
Definition with_location (r : CachedValueLabelRange) (label : Z) (loc : ValueLoc)
    : CachedValueLabelRange :=
  mkCached (cv_func_index r) (cv_start r) (cv_end r) (<[label := loc]> (label_location r)).

(** [ValueLabelRangesBuilder]; the address transform and the frame are
    arguments of its operations. *)
Record ValueLabelRangesBuilder := mkBuilder {
  cv_ranges : list CachedValueLabelRange;
  processed_labels : gset Z;
}.

Context `{BinarySearch}.
Context (hash_iter : gmap Z Z → list (Z * Z)).
(** [ranges.sort_unstable_by(|a, b| a.start.cmp(&b.start))] *)
Context (sort_by_start : list CachedValueLabelRange → list CachedValueLabelRange).
Context (fuel : nat) (addr_tr : AddressTransform).

Definition ValueLabelRangesBuilder_new (scope : list (Z * Z)) : run ValueLabelRangesBuilder :=
  ranges <~ foldR (λ ranges '(s, e),
      t <~ translate_ranges_raw hash_iter fuel addr_tr s e;
      Ret (Some (match t with
                 | Some (func_index, tr) =>
                     ranges ++ map (λ '(start, end_), mkCached func_index start end_ ∅) tr
                 | None => ranges
                 end))) [] scope;
  Ret (Some (mkBuilder (sort_by_start ranges) ∅)).

(** One turn of the loop that intersects a range of code with the ranges of
    the builder. *)
Definition split_range (label : Z) (loc : ValueLoc) (range_start range_end : Z)
    (ranges : list CachedValueLabelRange) (i : Z) : res (list CachedValueLabelRange) :=
  r ← zindex ranges i;
  if (range_end <=? cv_start r) || (cv_end r <=? range_start) then Ret ranges else
  ranges ← (if range_end <? cv_end r then
              ranges' ← zset ranges i (with_end r range_end);
              vec_insert ranges' (i + 1) (with_start r range_end)
            else Ret ranges);
  r ← zindex ranges i;
  _ ← rassert (cv_end r <=? range_end);
  if range_start <=? cv_start r then zset ranges i (with_location r label loc)
  else
    ranges' ← zset ranges i (with_end r range_start);
    vec_insert ranges' (i + 1) (with_location (with_start r range_start) label loc).

(** The positions [i..j] of the ranges to look at. *)
Definition intersection_bounds (ranges : list CachedValueLabelRange) (range_start range_end : Z)
    : res (Z * Z) :=
  i ← match bsearch cv_start ranges range_start with
      | Ok i => Ret i
      | Err i =>
          if 0 <? i then
            r ← zindex ranges (i - 1);
            Ret (if range_start <? cv_end r then i - 1 else i)
          else Ret i
      end;
  let j := match bsearch cv_start ranges range_end with Ok i => i | Err i => i end in
  Ret (i, j).

Definition intersect (label : Z) (loc : ValueLoc) (range_start range_end : Z)
    (ranges : list CachedValueLabelRange) : res (list CachedValueLabelRange) :=
  '(i, j) ← intersection_bounds ranges range_start range_end;
  foldM (split_range label loc range_start range_end) ranges (rev (seqZ i (j - i))).

(** One native range [addr, len] of a value range. *)
Definition process_code_range (label : Z) (loc : ValueLoc) (ranges : list CachedValueLabelRange)
    (t : Z * Z * Z) : run (list CachedValueLabelRange) :=
  let '(_, addend, len) := t in
  '(range_start, range_end) ← convert_to_code_range addend len;
  if range_start =? range_end then Ret (Some ranges) else
  _ ← rassert (range_start <? range_end);
  ranges ← intersect label loc range_start range_end ranges;
  Ret (Some ranges).

Definition process_label (frame_info : option FunctionFrameInfo) (self : ValueLabelRangesBuilder)
    (label : Z) : run ValueLabelRangesBuilder :=
  if bool_decide (label ∈ processed_labels self) then Ret (Some self) else
  let processed := {[ label ]} ∪ processed_labels self in
  match frame_info with
  | None => Ret (Some (mkBuilder (cv_ranges self) processed))
  | Some frame_info =>
      match value_ranges frame_info !! label with
      | None => Ret (Some (mkBuilder (cv_ranges self) processed))
      | Some local_ranges =>
          ranges <~ foldR (λ ranges local_range,
              l <~ translate_ranges hash_iter fuel addr_tr (vl_start local_range) (vl_end local_range);
              foldR (process_code_range label (vl_loc local_range)) ranges l)
            (cv_ranges self) local_ranges;
          Ret (Some (mkBuilder ranges processed))
      end
  end.

Definition remove_incomplete_ranges (self : ValueLabelRangesBuilder) : ValueLabelRangesBuilder :=
  mkBuilder
    (filter (λ r, size (label_location r) = size (processed_labels self)) (cv_ranges self))
    (processed_labels self).

(** The labels that an expression needs, in the order in which they are
    processed. *)
Definition expression_labels (self : CompiledExpression) : list Z :=
  flat_map (λ p, match p with
                 | Code _ => []
                 | Local label => [label]
                 | Deref => [get_vmctx_value_label]
                 end) (parts self) ++
  (if need_deref self then [get_vmctx_value_label] else []).

(** The code of one range; [None] for [continue 'range]. *)
Definition deref_code (frame_info : option FunctionFrameInfo) (locations : gmap Z ValueLoc)
    : res (option bytes) :=
  match locations !! get_vmctx_value_label, frame_info with
  | Some vmctx_loc, Some frame_info => append_memory_deref frame_info vmctx_loc
  | _, _ => Ret None
  end.

Definition part_code (frame_info : option FunctionFrameInfo) (locations : gmap Z ValueLoc)
    (p : CompiledExpressionPart) : res (option bytes) :=
  match p with
  | Code c => Ret (Some c)
  | Local label => loc ← unwrap (locations !! label); translate_loc loc frame_info
  | Deref => deref_code frame_info locations
  end.

Fixpoint parts_code (frame_info : option FunctionFrameInfo) (locations : gmap Z ValueLoc)
    (l : list CompiledExpressionPart) (code_buf : bytes) : res (option bytes) :=
  match l with
  | [] => Ret (Some code_buf)
  | p :: l =>
      c ← part_code frame_info locations p;
      match c with
      | Some c => parts_code frame_info locations l (code_buf ++ c)
      | None => Ret None
      end
  end.

Definition range_code (self : CompiledExpression) (frame_info : option FunctionFrameInfo)
    (locations : gmap Z ValueLoc) : res (option bytes) :=
  c ← parts_code frame_info locations (parts self) [];
  match c with
  | None => Ret None
  | Some code_buf =>
      if need_deref self then
        c ← deref_code frame_info locations;
        Ret (match c with Some c => Some (code_buf ++ c) | None => None end)
      else Ret (Some code_buf)
  end.

(** An entry of the result: symbol, addend, length, expression. *)
Definition located := (Z * Z * Z * bytes)%type.

Definition build_with_locals (self : CompiledExpression) (scope : list (Z * Z))
    (frame_info : option FunctionFrameInfo) : run (list located) :=
  match scope with
  | [] => Ret (Some [])
  | _ =>
      match parts self with
      | [Code code] =>
          foldR (λ result '(s, e),
            l <~ translate_ranges hash_iter fuel addr_tr s e;
            Ret (Some (result ++ map (λ t : Z * Z * Z, (t, code)) l))) [] scope
      | _ =>
          builder <~ ValueLabelRangesBuilder_new scope;
          builder <~ foldR (process_label frame_info) builder (expression_labels self);
          let ranges := cv_ranges (remove_incomplete_ranges builder) in
          result ← foldM (λ result r,
              c ← range_code self frame_info (label_location r);
              match c with
              | None => Ret result
              | Some code_buf =>
                  len ← op_sub 64 (cv_end r) (cv_start r);
                  Ret (result ++ [(cv_func_index r, wrap_s 64 (cv_start r), len, code_buf)])
              end) [] ranges;
          Ret (Some result)
      end
  end.

(** ** Compilation of expressions *)

(** The variables of the loop of [compile_expression]. *)
Record compile_state := mkCompile {
  cs_parts : list CompiledExpressionPart;
  cs_need_deref : bool;
  cs_code_chunk : bytes;
}.

(** A chunk of code that has been collected becomes a part. *)
Definition flush (l : list CompiledExpressionPart) (code_chunk : bytes)
    : list CompiledExpressionPart :=
  match code_chunk with [] => l | _ => l ++ [Code code_chunk] end.

(** [None]: the fuel is used up. *)
Fixpoint compile_loop (n : nat) (expr pc : bytes) (st : compile_state)
    : run (result (option compile_state) ReadError) :=
  match n, pc with
  | _, [] => Ret (Some (Ok (Some st)))
  | O, _ => Ret None
  | S n, next :: tail =>
      if next =? 237 then
        match read_uleb128 tail with
        | Err e => Ret (Some (Err e))
        | Ok (ty, pc1) =>
            _ ← rassert (ty =? 0);
            match read_sleb128 pc1 with
            | Err e => Ret (Some (Err e))
            | Ok (_, []) => Ret (Some (Err UnexpectedEof))
            | Ok (index, _ :: pc2) =>
                compile_loop n expr pc2
                  (mkCompile (flush (cs_parts st) (cs_code_chunk st) ++ [Local (wrap_u 32 index)]) true [])
            end
        end
      else
        match Operation_parse expr pc with
        | Err e => Ret (Some (Err e))
        | Ok (op, pc') =>
            _ ← rassert (length pc' <=? length pc)%nat;
            let chunk := take (length pc - length pc') pc in
            match op with
            | Literal | PlusConstant =>
                compile_loop n expr pc' (mkCompile (cs_parts st) true (cs_code_chunk st ++ chunk))
            | StackValue =>
                compile_loop n expr pc' (mkCompile (cs_parts st) false (cs_code_chunk st ++ chunk))
            | DerefOp =>
                compile_loop n expr pc'
                  (mkCompile (flush (cs_parts st) (cs_code_chunk st) ++ [Deref]) true chunk)
            | OtherOperation => Ret (Some (Ok None))
            end
        end
  end.

(** The slice that is matched has one element. *)
Definition glue (base_len : nat) (l : list CompiledExpressionPart) : list CompiledExpressionPart :=
  if (0 <? base_len)%nat && (base_len + 1 <? length l)%nat then
    match take 1 (drop base_len l) with
    | [Code cc1; Code cc2] => delete (base_len + 1)%nat (<[base_len := Code (cc1 ++ cc2)]> l)
    | _ => l
    end
  else l.

Definition compile_expression (expr : bytes) (frame_base : option CompiledExpression)
    : run (result (option CompiledExpression) ReadError) :=
  let base := match frame_base with Some b => parts b | None => [] end in
  let deref := match frame_base with Some b => need_deref b | None => false end in
  r <~ compile_loop (length expr) expr expr (mkCompile base deref []);
  Ret (Some (match r with
             | Err e => Err e
             | Ok None => Ok None
             | Ok (Some st) =>
                 Ok (Some (mkExpression (glue (length base) (flush (cs_parts st) (cs_code_chunk st)))
                             (cs_need_deref st)))
             end)).
End expressions.
