(* ===== verification/DebugExpressionProofs.v ===== *)
(** * Correctness of the expressions for locations

    The builder of [DebugExpression.v] cuts the ranges of a scope wherever
    the location of a label changes, looking only at the ranges that a binary
    search finds.  Here it is compared with cutting every range, and what it
    computes is described address by address. *)

From S2P Require Import Prelude AddressTransform AddressTransformProofs DebugExpression.
From stdpp Require Import sorting.
Local Open Scope Z_scope.

(** ** Registers *)

(** The static map of [map_reg] only remembers results. *)
Lemma map_reg_cached_spec cache reg :
  map_Forall (λ k v, map_reg k = Ret v) cache →
  match map_reg_cached cache reg with
  | Ret (cache', v) => map_reg reg = Ret v ∧ map_Forall (λ k v, map_reg k = Ret v) cache'
  | Panic => map_reg reg = Panic
  end.
Proof.
  intros Hc. unfold map_reg_cached. destruct (cache !! reg) as [v|] eqn:E; [by split; [apply Hc|]|].
  destruct (map_reg reg) as [v|] eqn:Er; cbn; [|done]. split; [done|]. by apply map_Forall_insert_2.
Qed.

(** ** Cutting one range *)

(** What becomes of one range when [label] is at [loc] in
    [range_start..range_end]. *)
Definition pieces (label : Z) (loc : ValueLoc) (range_start range_end : Z)
    (r : CachedValueLabelRange) : list CachedValueLabelRange :=
  if (range_end <=? cv_start r) || (cv_end r <=? range_start) then [r]
  else
    (if range_start <=? cv_start r then [] else [with_end r range_start]) ++
    [with_location (mkCached (cv_func_index r) (Z.max range_start (cv_start r))
       (Z.min range_end (cv_end r)) (label_location r)) label loc] ++
    (if range_end <? cv_end r then [with_start r range_end] else []).

Lemma zindex_middle {A} (l : list A) x m : zindex (l ++ x :: m) (zlen l) = Ret x.
Proof. apply zindex_Ret. rewrite zget_app_r by lia. by rewrite Z.sub_diag. Qed.

Lemma zset_middle {A} (l : list A) x y m : zset (l ++ x :: m) (zlen l) y = Ret (l ++ y :: m).
Proof.
  rewrite zset_Ret. 2:{ rewrite zlen_app, zlen_cons. pose proof (zlen_nonneg l). pose proof (zlen_nonneg m). lia. }
  unfold zlen. by rewrite Nat2Z.id, insert_app_r_alt, Nat.sub_diag by lia.
Qed.

Lemma vec_insert_middle {A} (l : list A) x y m :
  vec_insert (l ++ x :: m) (zlen l + 1) y = Ret (l ++ x :: y :: m).
Proof.
  pose proof (zlen_nonneg l). pose proof (zlen_nonneg m).
  unfold vec_insert. rewrite zlen_app, zlen_cons.
  rewrite (proj2 (Z.leb_le 0 _)), (proj2 (Z.leb_le (_ + 1) _)) by lia. cbn [andb].
  replace (Z.to_nat (zlen l + 1)) with (length (l ++ [x])) by (rewrite length_app; unfold zlen; cbn; lia).
  replace (l ++ x :: m) with ((l ++ [x]) ++ m) by (by rewrite <- app_assoc).
  by rewrite take_app_length, drop_app_length, <- app_assoc.
Qed.

Lemma split_range_pieces label loc rs re l r m :
  rs < re →
  split_range label loc rs re (l ++ r :: m) (zlen l) = Ret (l ++ pieces label loc rs re r ++ m).
Proof.
  intros Hlt. unfold split_range, pieces. rewrite zindex_middle, bind_Ret_l.
  destruct ((re <=? cv_start r) || (cv_end r <=? rs)) eqn:E0; [done|].
  assert (Hmid : ∀ r', cv_end r' = Z.min re (cv_end r) → cv_start r' = cv_start r →
    cv_func_index r' = cv_func_index r → label_location r' = label_location r → ∀ m',
    (q ← zindex (l ++ r' :: m') (zlen l); _ ← rassert (cv_end q <=? re);
     if rs <=? cv_start q then zset (l ++ r' :: m') (zlen l) (with_location q label loc)
     else ranges' ← zset (l ++ r' :: m') (zlen l) (with_end q rs);
          vec_insert ranges' (zlen l + 1) (with_location (with_start q rs) label loc)) =
    Ret (l ++ ((if rs <=? cv_start r then [] else [with_end r rs]) ++
      [with_location (mkCached (cv_func_index r) (Z.max rs (cv_start r))
         (Z.min re (cv_end r)) (label_location r)) label loc]) ++ m')).
  { intros r' He Hs Hf Hl m'. rewrite zindex_middle, bind_Ret_l, (proj2 (Z.leb_le _ re)) by lia. cbn [rassert].
    rewrite bind_Ret_l, Hs. destruct (Z.leb_spec rs (cv_start r)).
    - rewrite zset_middle, Z.max_r by lia. unfold with_location. cbn. by rewrite Hf, Hs, He, Hl.
    - rewrite zset_middle, bind_Ret_l, vec_insert_middle, Z.max_l by lia.
      unfold with_location, with_start, with_end. cbn. by rewrite Hf, Hs, He, Hl. }
  destruct (Z.ltb_spec re (cv_end r)).
  - rewrite zset_middle, bind_Ret_l, vec_insert_middle, bind_Ret_l, Hmid by (cbn; lia || done).
    by rewrite <- !app_assoc.
  - rewrite bind_Ret_l, Hmid by (cbn; lia || done). by rewrite <- !app_assoc.
Qed.

(** The loop goes from the end to the start, so that what it inserts does not
    move the ranges that are still to be looked at. *)
Lemma split_range_loop label loc rs re l mid m :
  rs < re →
  foldM (split_range label loc rs re) (l ++ mid ++ m) (rev (seqZ (zlen l) (zlen mid))) =
    Ret (l ++ flat_map (pieces label loc rs re) mid ++ m).
Proof.
  intros Hlt. revert m. induction mid as [|r mid IH] using rev_ind; intros m; [done|].
  rewrite zlen_app. change (zlen [r]) with (Z.of_nat 1).
  unfold zlen at 2. rewrite <- Nat2Z.inj_add, Nat.add_1_r, seqZ_S, rev_app_distr. cbn [rev app foldM].
  replace (l ++ (mid ++ [r]) ++ m) with ((l ++ mid) ++ r :: m) by (by rewrite <- !app_assoc).
  replace (zlen l + Z.of_nat (length mid)) with (zlen (l ++ mid)) by (by rewrite zlen_app).
  rewrite split_range_pieces, bind_Ret_l by done. rewrite <- app_assoc.
  fold (zlen mid). rewrite IH, flat_map_app. cbn [flat_map]. by rewrite app_nil_r, <- !app_assoc.
Qed.

(** ** Disjoint ranges *)

Record disjoint (ranges : list CachedValueLabelRange) : Prop := {
  dj_sorted : StronglySorted (λ a b, cv_end a ≤ cv_start b) ranges;
  dj_order : Forall (λ r, cv_start r ≤ cv_end r) ranges;
}.

Lemma disjoint_starts ranges i j a b :
  disjoint ranges → i ≤ j → zget ranges i = Some a → zget ranges j = Some b → cv_start a ≤ cv_start b.
Proof.
  intros [Hs Ho] Hij Ha Hb. destruct (decide (i = j)) as [->|Hne].
  { assert (a = b) as -> by congruence. lia. }
  pose proof (sorted_zget_mono _ ranges i j a b Hs ltac:(lia) Ha Hb) as Hab. cbn in Hab.
  pose proof (zget_Forall _ _ _ _ Ho Ha) as Hoa. cbn in Hoa. lia.
Qed.

Lemma flat_map_single {A} (f : A → list A) l : Forall (λ x, f x = [x]) l → flat_map f l = l.
Proof. induction 1 as [|x l Hx _ IH]; cbn; [done|]. by rewrite Hx, IH. Qed.

Lemma pieces_apart label loc rs re r :
  re ≤ cv_start r ∨ cv_end r ≤ rs → pieces label loc rs re r = [r].
Proof.
  intros Hr. unfold pieces. destruct ((re <=? cv_start r) || (cv_end r <=? rs)) eqn:E; [done|]. lia.
Qed.

(** The bounds of a piece. *)
Lemma pieces_bounds label loc rs re r p :
  rs < re → cv_start r ≤ cv_end r → p ∈ pieces label loc rs re r →
  cv_start r ≤ cv_start p ≤ cv_end p ∧ cv_end p ≤ cv_end r.
Proof.
  intros Hlt Ho. unfold pieces. destruct ((re <=? cv_start r) || (cv_end r <=? rs)) eqn:E.
  { intros ->%list_elem_of_singleton. lia. }
  rewrite !elem_of_app. intros [Hp|[Hp|Hp]]; repeat case_match; try (by apply elem_of_nil in Hp);
    apply list_elem_of_singleton in Hp as ->; cbn; lia.
Qed.

Lemma pieces_disjoint label loc rs re r :
  rs < re → cv_start r ≤ cv_end r → disjoint (pieces label loc rs re r).
Proof.
  intros Hlt Ho. split.
  - unfold pieces. destruct ((re <=? cv_start r) || (cv_end r <=? rs)) eqn:E; [repeat constructor|].
    repeat case_match; cbn; repeat constructor; cbn; lia.
  - apply Forall_forall. intros p Hp. by apply pieces_bounds in Hp; [lia|..].
Qed.

Lemma disjoint_app l1 l2 :
  disjoint l1 → disjoint l2 → (∀ a b, a ∈ l1 → b ∈ l2 → cv_end a ≤ cv_start b) → disjoint (l1 ++ l2).
Proof.
  intros [S1 O1] [S2 O2] Hx. split; [|by apply Forall_app].
  induction S1 as [|a l1 S1 IH Ha]; cbn; [done|]. constructor.
  - apply Forall_inv_tail in O1. apply IH; [done|]. intros. apply Hx; [by right|done].
  - apply Forall_app. split; [done|]. apply Forall_forall. intros b Hb. apply Hx; [left|done].
Qed.

Lemma disjoint_flat_map label loc rs re ranges :
  rs < re → disjoint ranges → disjoint (flat_map (pieces label loc rs re) ranges).
Proof.
  intros Hlt [Hs Ho]. induction Hs as [|r ranges Hs IH Hr]; cbn; [by repeat constructor|].
  inversion Ho as [|?? Hor Ho']; subst. apply disjoint_app; [by apply pieces_disjoint|by apply IH|].
  intros a b Ha (r' & Hr' & Hb)%list_elem_of_In%in_flat_map. apply list_elem_of_In in Hb, Hr'.
  rewrite Forall_forall in Hr, Ho'. specialize (Hr _ Hr'). specialize (Ho' _ Hr').
  apply pieces_bounds in Ha; [|done..]. apply pieces_bounds in Hb; [|done..]. cbn in *. lia.
Qed.

(** ** Ranges address by address *)

Definition inside (x a b : Z) : bool := (a <=? x) && (x <? b).

(** The functions and locations of the ranges that contain [x]. *)
Definition at_ (x : Z) (ranges : list CachedValueLabelRange) : list (Z * gmap Z ValueLoc) :=
  omap (λ r, if inside x (cv_start r) (cv_end r) then Some (cv_func_index r, label_location r) else None)
    ranges.

Lemma at_app x l1 l2 : at_ x (l1 ++ l2) = at_ x l1 ++ at_ x l2.
Proof. apply omap_app. Qed.

Lemma at_cons x r l :
  at_ x (r :: l) =
    if inside x (cv_start r) (cv_end r) then (cv_func_index r, label_location r) :: at_ x l else at_ x l.
Proof. unfold at_. cbn. by destruct (inside _ _ _). Qed.

(** Cutting a range sets the label exactly in the given part. *)
Lemma at_pieces x label loc rs re r :
  rs < re →
  at_ x (pieces label loc rs re r) =
    (λ e : Z * gmap Z ValueLoc, (e.1, if inside x rs re then <[label := loc]> e.2 else e.2)) <$> at_ x [r].
Proof.
  intros Hlt. unfold pieces. destruct ((re <=? cv_start r) || (cv_end r <=? rs)) eqn:E0.
  - rewrite at_cons. destruct (inside x (cv_start r) (cv_end r)) eqn:Ex; [|done]. cbn.
    assert (Ei : inside x rs re = false) by (unfold inside in *; lia). by rewrite Ei.
  - rewrite !at_app, !at_cons. cbn [cv_start cv_end with_location label_location cv_func_index].
    change (at_ x []) with (@nil (Z * gmap Z ValueLoc)).
    destruct (rs <=? cv_start r) eqn:E1, (re <? cv_end r) eqn:E2;
      rewrite ?at_cons; cbn [cv_start cv_end with_start with_end label_location cv_func_index];
      change (at_ x []) with (@nil (Z * gmap Z ValueLoc)).
    all: destruct (inside x (cv_start r) (cv_end r)) eqn:Ex, (inside x rs re) eqn:Ei, (x <? rs) eqn:El.
    all: unfold inside in *.
    all: repeat match goal with
         | |- context [if ?b then _ else _] =>
             first [replace b with true by lia | replace b with false by lia]
         end; first [reflexivity | exfalso; lia].
Qed.

Lemma at_flat_map x label loc rs re ranges :
  rs < re →
  at_ x (flat_map (pieces label loc rs re) ranges) =
    (λ e : Z * gmap Z ValueLoc, (e.1, if inside x rs re then <[label := loc]> e.2 else e.2)) <$> at_ x ranges.
Proof.
  intros Hlt. induction ranges as [|r ranges IH]; [done|]. cbn [flat_map].
  rewrite at_app, IH, at_pieces by done. rewrite <- fmap_app. f_equal. by rewrite <- (at_app x [r]).
Qed.

(** What a cut leaves of the other properties of a range. *)
Lemma pieces_Forall (P : CachedValueLabelRange → Prop) label loc rs re ranges :
  (∀ r a b, P r → cv_start r ≤ a → a ≤ b → b ≤ cv_end r →
     P (mkCached (cv_func_index r) a b (label_location r)) ∧
     P (mkCached (cv_func_index r) a b (<[label := loc]> (label_location r)))) →
  rs < re → Forall (λ r, cv_start r ≤ cv_end r) ranges →
  Forall P ranges → Forall P (flat_map (pieces label loc rs re) ranges).
Proof.
  intros HP Hlt Ho HF. apply Forall_forall. intros p (r & Hr & Hp)%list_elem_of_In%in_flat_map.
  apply list_elem_of_In in Hr, Hp. rewrite Forall_forall in Ho, HF. specialize (Ho r Hr). specialize (HF r Hr).
  unfold pieces in Hp. destruct ((re <=? cv_start r) || (cv_end r <=? rs)) eqn:E.
  { apply list_elem_of_singleton in Hp as ->. done. }
  rewrite !elem_of_app in Hp. destruct Hp as [Hp|[Hp|Hp]].
  - destruct (Z.leb_spec rs (cv_start r)); [by apply elem_of_nil in Hp|].
    apply list_elem_of_singleton in Hp as ->. apply (HP r (cv_start r) rs); [done|lia..].
  - apply list_elem_of_singleton in Hp as ->.
    apply (HP r (Z.max rs (cv_start r)) (Z.min re (cv_end r))); [done|lia..].
  - destruct (Z.ltb_spec re (cv_end r)); [|by apply elem_of_nil in Hp].
    apply list_elem_of_singleton in Hp as ->. apply (HP r re (cv_end r)); [done|lia..].
Qed.

(** ** The location of one label *)

(** A range of code with the location of the label in it. *)
Definition code_range := (ValueLoc * Z * Z)%type.

(** The ranges after all the cuts for a label. *)
Definition cut (label : Z) (ranges : list CachedValueLabelRange) (c : code_range)
    : list CachedValueLabelRange :=
  let '(loc, rs, re) := c in if rs =? re then ranges else flat_map (pieces label loc rs re) ranges.
Definition cuts (label : Z) (l : list code_range) (ranges : list CachedValueLabelRange) :=
  foldl (cut label) ranges l.

(** Where a label is at [x]: the last range of code that contains [x]
    decides. *)
Definition locate (x : Z) (l : list code_range) : option ValueLoc :=
  foldl (λ o '(loc, rs, re), if inside x rs re then Some loc else o) None l.
Definition set_loc (m : gmap Z ValueLoc) (label : Z) (o : option ValueLoc) : gmap Z ValueLoc :=
  match o with Some loc => <[label := loc]> m | None => m end.

Definition ordered (c : code_range) : Prop := c.1.2 ≤ c.2.

Lemma cut_disjoint label ranges c : disjoint ranges → ordered c → disjoint (cut label ranges c).
Proof.
  destruct c as [[loc rs] re]. intros Hd Ho. unfold ordered in Ho. cbn in *.
  destruct (Z.eqb_spec rs re); [done|]. apply disjoint_flat_map; [lia|done].
Qed.

Lemma at_cuts x label l ranges :
  Forall ordered l →
  at_ x (cuts label l ranges) =
    (λ e : Z * gmap Z ValueLoc, (e.1, set_loc e.2 label (locate x l))) <$> at_ x ranges.
Proof.
  intros Ho. induction l as [|[[loc rs] re] l IH] using rev_ind.
  { change (at_ x (cuts label [] ranges)) with (at_ x ranges).
    rewrite <- (list_fmap_id (at_ x ranges)) at 1. apply list_fmap_ext. by intros ? [] ?. }
  apply Forall_app in Ho as [Hl [Hc _]%Forall_cons]. specialize (IH Hl). unfold ordered in Hc. cbn in Hc.
  unfold cuts, locate. rewrite !foldl_app. cbn [foldl]. fold (cuts label l ranges) (locate x l).
  unfold cut. destruct (Z.eqb_spec rs re) as [->|Hne].
  - assert (inside x re re = false) as -> by (unfold inside; lia). done.
  - rewrite at_flat_map, IH, <- list_fmap_compose by lia. apply list_fmap_ext. intros ? [f m] ?. cbn. f_equal.
    destruct (inside x rs re); [|done]. cbn. unfold set_loc. destruct (locate x l); [|done].
    apply insert_insert_eq.
Qed.

Lemma cuts_Forall (P : CachedValueLabelRange → Prop) label l ranges :
  (∀ c r a b, c ∈ l → P r → cv_start r ≤ a → a ≤ b → b ≤ cv_end r →
     P (mkCached (cv_func_index r) a b (label_location r)) ∧
     P (mkCached (cv_func_index r) a b (<[label := c.1.1]> (label_location r)))) →
  Forall ordered l → disjoint ranges → Forall P ranges → Forall P (cuts label l ranges).
Proof.
  revert ranges. induction l as [|c l IH]; intros ranges HP Ho Hd HF; [done|].
  apply Forall_cons in Ho as [Hc Ho]. apply (IH (cut label ranges c)); [|done|by apply cut_disjoint|].
  { intros c' r a b Hc'. apply HP. by right. }
  destruct c as [[loc rs] re]. unfold ordered in Hc. cbn in Hc |- *. destruct (Z.eqb_spec rs re); [done|].
  apply pieces_Forall; [|lia|apply Hd|done]. intros r a b. apply (HP (loc, rs, re)). left.
Qed.

(** The locations of several labels. *)
Definition locs_of (cr : Z → list code_range) (x : Z) (labels : list Z) : gmap Z ValueLoc :=
  foldl (λ m l, set_loc m l (locate x (cr l))) ∅ labels.

Lemma locs_of_snoc cr x labels l :
  locs_of cr x (labels ++ [l]) = set_loc (locs_of cr x labels) l (locate x (cr l)).
Proof. unfold locs_of. by rewrite foldl_app. Qed.

Lemma locs_of_lookup cr x labels l :
  locs_of cr x labels !! l = if decide (l ∈ labels) then locate x (cr l) else None.
Proof.
  induction labels as [|l' labels IH] using rev_ind; [done|]. rewrite locs_of_snoc.
  destruct (decide (l = l')) as [->|Hne].
  - rewrite decide_True by (apply elem_of_app; right; by apply list_elem_of_singleton).
    unfold set_loc. destruct (locate x (cr l')) eqn:E; [apply lookup_insert_eq|]. rewrite IH. by case_decide.
  - assert (Hs : set_loc (locs_of cr x labels) l' (locate x (cr l')) !! l = locs_of cr x labels !! l).
    { unfold set_loc. destruct (locate x (cr l')); [|done]. by apply lookup_insert_ne. }
    rewrite Hs, IH. destruct (decide (l ∈ labels)) as [Hin|Hni].
    + by rewrite decide_True by (apply elem_of_app; by left).
    + rewrite decide_False; [done|]. rewrite elem_of_app, list_elem_of_singleton. naive_solver.
Qed.

Lemma locs_of_again cr x labels l : l ∈ labels → locs_of cr x (labels ++ [l]) = locs_of cr x labels.
Proof.
  intros Hl. apply map_eq. intros k. rewrite !locs_of_lookup. destruct (decide (k ∈ labels)) as [Hk|Hk].
  - by rewrite decide_True by (apply elem_of_app; by left).
  - rewrite decide_False; [done|]. rewrite elem_of_app, list_elem_of_singleton. naive_solver.
Qed.

(** All labels are located exactly when there are as many locations as
    labels. *)
Lemma locations_complete (m : gmap Z ValueLoc) (processed : gset Z) :
  (∀ l loc, m !! l = Some loc → l ∈ processed) →
  (size m = size processed ↔ ∀ l, l ∈ processed → is_Some (m !! l)).
Proof.
  intros Hsub. assert (Hd : dom m ⊆ processed).
  { intros l Hl. apply elem_of_dom in Hl as [loc Hl]. by eapply Hsub. }
  rewrite <- (size_dom m). split.
  - intros Hs l Hl. apply elem_of_dom. assert (E : dom m ≡ processed); [|by rewrite E].
    apply set_subseteq_size_equiv; [done|lia].
  - intros Hall. f_equal. apply leibniz_equiv. intros l. split; [by apply Hd|]. intros Hl. by apply elem_of_dom, Hall.
Qed.

(** Two folds that run side by side. *)
Lemma foldR_sim {A B C} (R : B → C → Prop) (f : B → A → run B) (g : C → A → run C) l b c c' :
  (∀ b c a c', a ∈ l → R b c → g c a = Ret (Some c') → ∃ b', f b a = Ret (Some b') ∧ R b' c') →
  R b c → foldR g c l = Ret (Some c') → ∃ b', foldR f b l = Ret (Some b') ∧ R b' c'.
Proof.
  revert b c. induction l as [|a l IH]; cbn; intros b c Hs HR Hg; [simplify_eq; eauto|].
  unfold run_bind in *. destruct (g c a) as [[c1|]|] eqn:Ec; try done.
  destruct (Hs b c a c1) as (b1 & -> & HR1); [left|done..|].
  apply (IH b1 c1); [|done..]. intros. eapply Hs; eauto. by right.
Qed.

(** Locations that have an expression or are skipped: registers that
    [map_reg] knows, stack slots that exist. *)
Definition loc_ok (frame_info : option FunctionFrameInfo) (loc : ValueLoc) : Prop :=
  match loc, frame_info with
  | LocReg r, _ => 0 ≤ r < 24
  | LocStack ss, Some f => is_Some (zget (stack_slots f) ss)
  | _, _ => True
  end.
Definition frame_ok (frame_info : option FunctionFrameInfo) : Prop :=
  match frame_info with
  | None => True
  | Some f => ∀ label lr v, value_ranges f !! label = Some lr → v ∈ lr → loc_ok frame_info (vl_loc v)
  end.

(** What holds of the builder after [labels] have been processed: the ranges
    are the ranges [R0] at the start, cut, with the locations of the labels. *)
Record builder_inv (frame_info : option FunctionFrameInfo) (cr : Z → list code_range)
    (R0 : list CachedValueLabelRange) (labels : list Z) (b : ValueLabelRangesBuilder) : Prop := {
  bi_disjoint : disjoint (cv_ranges b);
  bi_processed : processed_labels b = list_to_set labels;
  bi_at x : at_ x (cv_ranges b) = (λ e : Z * gmap Z ValueLoc, (e.1, locs_of cr x labels)) <$> at_ x R0;
  bi_locs : Forall (λ r, ∀ l loc, label_location r !! l = Some loc → l ∈ labels ∧ loc_ok frame_info loc)
              (cv_ranges b);
  bi_bounds : Forall (λ r, 0 ≤ cv_start r ∧ cv_end r < 2 ^ 63) (cv_ranges b);
}.

Section builder.
Context `{Gimli} `{BinarySearchLaws}.

(** The ranges outside the bounds do not meet the range of code. *)
Lemma intersection_bounds_spec ranges rs re :
  disjoint ranges →
  ∃ i j, intersection_bounds ranges rs re = Ret (i, j) ∧ 0 ≤ i ≤ zlen ranges ∧ 0 ≤ j ≤ zlen ranges ∧
    ∀ k r, zget ranges k = Some r → (k < i → cv_end r ≤ rs) ∧ (j ≤ k → re ≤ cv_start r).
Proof.
  intros Hd. unfold intersection_bounds.
  pose proof (bsearch_spec cv_start ranges rs (λ i j a b, disjoint_starts ranges i j a b Hd)) as Hi.
  pose proof (bsearch_spec cv_start ranges re (λ i j a b, disjoint_starts ranges i j a b Hd)) as Hj.
  assert (Hsorted : ∀ k k' r r', k < k' → zget ranges k = Some r → zget ranges k' = Some r' →
    cv_end r ≤ cv_start r').
  { intros k k' r r' Hk Hr Hr'. exact (sorted_zget_mono _ _ _ _ _ _ (dj_sorted _ Hd) Hk Hr Hr'). }
  set (j := match bsearch cv_start ranges re with Ok i => i | Err i => i end).
  assert (Hjs : 0 ≤ j ≤ zlen ranges ∧ ∀ k r, zget ranges k = Some r → j ≤ k → re ≤ cv_start r).
  { unfold j. destruct (bsearch cv_start ranges re) as [j'|j'].
    - destruct Hj as (b & Hb & Hst). pose proof (zget_Some_lt _ _ _ Hb). split; [lia|]. intros k r Hr Hk.
      rewrite <- Hst. exact (disjoint_starts ranges j' k b r Hd Hk Hb Hr).
    - destruct Hj as [Hl Hall]. split; [lia|]. intros k r Hr Hk. apply Hall in Hr as [_ Hr]. specialize (Hr Hk). lia. }
  destruct Hjs as [Hjl Hjs]. destruct (bsearch cv_start ranges rs) as [i|i].
  - destruct Hi as (a & Ha & Hst). pose proof (zget_Some_lt _ _ _ Ha). exists i, j.
    split; [done|]. split; [lia|]. split; [lia|]. intros k r Hr. split; [|by apply Hjs].
    intros Hk. rewrite <- Hst. by eapply Hsorted.
  - destruct Hi as [Hl Hall]. destruct (Z.ltb_spec 0 i) as [Hpos|Hneg]; cbn [mbind res_mbind].
    2:{ exists i, j. split; [done|]. split; [lia|]. split; [lia|]. intros k r Hr. split; [|by apply Hjs].
        pose proof (zget_Some_lt _ _ _ Hr). lia. }
    destruct (zget_is_Some ranges (i - 1)) as [a Ha]; [lia|]. rewrite (proj2 (zindex_Ret _ _ _) Ha).
    pose proof (proj1 (Hall _ _ Ha) ltac:(lia)) as Hsa.
    assert (Hbefore : ∀ k r, zget ranges k = Some r → k < i - 1 → cv_end r ≤ rs).
    { intros k r Hr Hk. pose proof (Hsorted k (i - 1) r a Hk Hr Ha). lia. }
    exists (if rs <? cv_end a then i - 1 else i), j. split; [done|].
    split; [destruct (rs <? cv_end a); lia|]. split; [lia|]. intros k r Hr. split; [|by apply Hjs].
    destruct (Z.ltb_spec rs (cv_end a)); [by apply Hbefore|]. intros Hk.
    destruct (decide (k = i - 1)) as [->|]; [|by eapply Hbefore; [done|lia]].
    rewrite Ha in Hr. injection Hr as <-. done.
Qed.

Lemma zget_take_Forall {A} (P : A → Prop) l n :
  (∀ k x, zget l k = Some x → k < n → P x) → Forall P (take (Z.to_nat n) l).
Proof.
  intros HP. apply Forall_lookup. intros k x [Hk Hlt]%lookup_take_Some. apply (HP (Z.of_nat k)); [|lia].
  unfold zget. rewrite (proj2 (Z.leb_le 0 _)) by lia. by rewrite Nat2Z.id.
Qed.
Lemma zget_drop_Forall {A} (P : A → Prop) l n :
  (∀ k x, zget l k = Some x → n ≤ k → P x) → Forall P (drop (Z.to_nat n) l).
Proof.
  intros HP. apply Forall_lookup. intros k x Hk. rewrite lookup_drop in Hk.
  apply (HP (Z.of_nat (Z.to_nat n + k))); [|lia].
  unfold zget. rewrite (proj2 (Z.leb_le 0 _)) by lia. by rewrite Nat2Z.id.
Qed.

Lemma intersect_pieces label loc rs re ranges :
  disjoint ranges → rs < re →
  intersect label loc rs re ranges = Ret (flat_map (pieces label loc rs re) ranges).
Proof.
  intros Hd Hlt. unfold intersect.
  destruct (intersection_bounds_spec ranges rs re Hd) as (i & j & -> & Hi & Hj & Hout). rewrite bind_Ret_l.
  set (f := pieces label loc rs re).
  assert (Hlow : ∀ n, n ≤ i → Forall (λ r, f r = [r]) (take (Z.to_nat n) ranges)).
  { intros n Hn. apply zget_take_Forall. intros k r Hr Hk. apply pieces_apart. right.
    apply (proj1 (Hout k r Hr)). lia. }
  assert (Hhigh : ∀ n, j ≤ n → Forall (λ r, f r = [r]) (drop (Z.to_nat n) ranges)).
  { intros n Hn. apply zget_drop_Forall. intros k r Hr Hk. apply pieces_apart. left.
    apply (proj2 (Hout k r Hr)). lia. }
  destruct (decide (j ≤ i)) as [Hji|Hij].
  - rewrite seqZ_nil by lia. cbn. f_equal. symmetry. apply flat_map_single.
    rewrite <- (take_drop (Z.to_nat i) ranges). apply Forall_app. split; [by apply Hlow|by apply Hhigh].
  - set (l := take (Z.to_nat i) ranges). set (m := drop (Z.to_nat j) ranges).
    set (mid := take (Z.to_nat (j - i)) (drop (Z.to_nat i) ranges)).
    assert (Hr : ranges = l ++ mid ++ m).
    { unfold l, mid, m. rewrite <- (take_drop (Z.to_nat i) ranges) at 1. f_equal.
      rewrite <- (take_drop (Z.to_nat (j - i)) (drop (Z.to_nat i) ranges)) at 1. f_equal.
      rewrite drop_drop. f_equal. lia. }
    assert (El : zlen l = i) by (unfold zlen, l in *; rewrite length_take; unfold zlen in *; lia).
    assert (Em : zlen mid = j - i) by (unfold zlen, mid in *; rewrite length_take, length_drop; unfold zlen in *; lia).
    rewrite Hr at 1. rewrite <- El at 1. rewrite <- Em. rewrite split_range_loop by done. f_equal.
    rewrite Hr, !flat_map_app. fold f. rewrite (flat_map_single f l) by (apply Hlow; lia).
    rewrite (flat_map_single f m) by (apply Hhigh; lia). done.
Qed.

(** Cutting the ranges at a range of code.  The routine, which looks only
    at the ranges that two binary searches delimit and inserts what it cuts
    off while it walks backwards, never panics on disjoint ranges.  Its result
    is that of cutting every range, the ranges stay disjoint, and at every
    address exactly the locations inside the range of code change. *)
Theorem intersect_spec (label : Z) (loc : ValueLoc) (rs re : Z) (ranges : list CachedValueLabelRange)
    (Hdisjoint : disjoint ranges) (Hlt : rs < re) :
  ∃ ranges', intersect label loc rs re ranges = Ret ranges' ∧
    ranges' = flat_map (pieces label loc rs re) ranges ∧ disjoint ranges' ∧
    ∀ x, at_ x ranges' =
      (λ e : Z * gmap Z ValueLoc, (e.1, if inside x rs re then <[label := loc]> e.2 else e.2)) <$> at_ x ranges.
Proof.
  rewrite intersect_pieces by done. eexists. split_and!; [done..|by apply disjoint_flat_map|].
  intros x. by apply at_flat_map.
Qed.

(** ** Labels *)

Context (hash_iter : gmap Z Z → list (Z * Z)) (fuel : nat) (addr_tr : AddressTransform).

(** The ranges of code of a label, in the order in which they are
    processed. *)
Definition code_range_of (loc : ValueLoc) (acc : list code_range) (t : Z * Z * Z)
    : run (list code_range) :=
  let '(_, addend, len) := t in
  '(rs, re) ← convert_to_code_range addend len; Ret (Some (acc ++ [(loc, rs, re)])).

Definition code_ranges (frame_info : option FunctionFrameInfo) (label : Z) : run (list code_range) :=
  match frame_info with
  | None => Ret (Some [])
  | Some f =>
      match value_ranges f !! label with
      | None => Ret (Some [])
      | Some lr =>
          foldR (λ acc v,
            l <~ translate_ranges hash_iter fuel addr_tr (vl_start v) (vl_end v);
            foldR (code_range_of (vl_loc v)) acc l) [] lr
      end
  end.

Lemma translate_ranges_len s e l :
  translate_ranges hash_iter fuel addr_tr s e = Ret (Some l) → Forall (λ t : Z * Z * Z, 0 ≤ t.2) l.
Proof.
  unfold translate_ranges. destruct (translate_ranges_raw _ _ _ _ _) as [[[[f tr]|]|]|]; cbn; try done.
  2:{ intros [= <-]. constructor. }
  destruct (mapR _ tr) as [k|] eqn:Em; cbn; [|done]. intros [= <-].
  eapply mapR_Forall; [exact Em|]. intros [s' e'] t _ Ht.
  destruct (op_sub 64 e' s') as [len|] eqn:Eo; cbn in Ht; [|done]. injection Ht as <-.
  apply op_sub_Ret in Eo. cbn. lia.
Qed.

Lemma process_code_range_cut label loc ranges acc t acc' :
  disjoint ranges → 0 ≤ t.2 → code_range_of loc acc t = Ret (Some acc') →
  ∃ rs re, acc' = acc ++ [(loc, rs, re)] ∧ rs ≤ re ∧
    process_code_range label loc ranges t = Ret (Some (cut label ranges (loc, rs, re))).
Proof.
  destruct t as [[f a] len]. cbn. intros Hd Hlen Hc.
  destruct (convert_to_code_range a len) as [[rs re]|] eqn:Ec; cbn in Hc; [|done]. injection Hc as <-.
  exists rs, re. unfold convert_to_code_range in Ec. apply bind_Ret in Ec as (e & Ho & [= <- <-]).
  apply op_add_Ret in Ho as [-> _]. split; [done|]. split; [lia|].
  rewrite bind_Ret_l. destruct (Z.eqb_spec (wrap_u 64 a) (wrap_u 64 a + len)); [done|].
  rewrite (proj2 (Z.ltb_lt _ _)) by lia. cbn [rassert]. rewrite bind_Ret_l, intersect_pieces by (done || lia). done.
Qed.

(** Processing the ranges of a label cuts at each of its ranges of code. *)
Lemma label_ranges_cuts label lr ranges l :
  disjoint ranges →
  foldR (λ acc v, l <~ translate_ranges hash_iter fuel addr_tr (vl_start v) (vl_end v);
                  foldR (code_range_of (vl_loc v)) acc l) [] lr = Ret (Some l) →
  foldR (λ ranges v, l <~ translate_ranges hash_iter fuel addr_tr (vl_start v) (vl_end v);
                     foldR (process_code_range label (vl_loc v)) ranges l) ranges lr =
    Ret (Some (cuts label l ranges)) ∧
  disjoint (cuts label l ranges) ∧ Forall (λ c, ordered c ∧ c.1.1 ∈ map vl_loc lr) l.
Proof.
  intros Hd Hl.
  set (R := λ (rs : list CachedValueLabelRange) (acc : list code_range),
    rs = cuts label acc ranges ∧ disjoint rs ∧ Forall (λ c, ordered c ∧ c.1.1 ∈ map vl_loc lr) acc).
  assert (Hsim : ∃ b', foldR (λ ranges v, l <~ translate_ranges hash_iter fuel addr_tr (vl_start v) (vl_end v);
      foldR (process_code_range label (vl_loc v)) ranges l) ranges lr = Ret (Some b') ∧ R b' l).
  2:{ destruct Hsim as (b' & Hb & -> & Hd' & Ho). done. }
  apply (foldR_sim R) with (c := []) (2 := conj eq_refl (conj Hd (List.Forall_nil _))) (3 := Hl).
  intros b c v c' Hv HR Hg. cbn in Hg |- *. unfold run_bind in *.
  destruct (translate_ranges _ _ _ _ _) as [[tl|]|] eqn:Et; try done.
  apply translate_ranges_len in Et. eapply foldR_sim; [|exact HR|exact Hg].
  intros b1 c1 t c2 Ht (-> & Hd1 & Ho1) Hc2. rewrite Forall_forall in Et.
  destruct (process_code_range_cut label (vl_loc v) _ _ _ _ Hd1 (Et t Ht) Hc2) as (rs & re & -> & Hle & Hp).
  eexists. split; [exact Hp|]. split_and!.
  - unfold cuts. by rewrite foldl_app.
  - by apply cut_disjoint.
  - apply Forall_app. split; [done|]. constructor; [|done]. split; [done|]. cbn.
    apply list_elem_of_In, in_map. by apply list_elem_of_In.
Qed.

(** A label without ranges of code. *)
Lemma builder_inv_unlocated frame_info cr R0 labels b label :
  builder_inv frame_info cr R0 labels b → cr label = [] →
  builder_inv frame_info cr R0 (labels ++ [label]) (mkBuilder (cv_ranges b) ({[ label ]} ∪ processed_labels b)).
Proof.
  intros [Hd Hp Ha Hl Hb] Hcr. split; cbn [cv_ranges processed_labels]; [done| | |..|done].
  - rewrite Hp, list_to_set_app_L. set_solver.
  - intros x. rewrite Ha. apply list_fmap_ext. intros ? [f m] ?. cbn. by rewrite locs_of_snoc, Hcr.
  - eapply Forall_impl; [exact Hl|]. intros r Hr l loc E. destruct (Hr l loc E) as [? ?].
    split; [|done]. apply elem_of_app. by left.
Qed.

Lemma builder_inv_located frame_info cr R0 labels b label :
  builder_inv frame_info cr R0 labels b → label ∉ labels →
  Forall (λ c, ordered c ∧ loc_ok frame_info c.1.1) (cr label) → disjoint (cuts label (cr label) (cv_ranges b)) →
  builder_inv frame_info cr R0 (labels ++ [label])
    (mkBuilder (cuts label (cr label) (cv_ranges b)) ({[ label ]} ∪ processed_labels b)).
Proof.
  intros [Hd Hp Ha Hl Hb] Hni Hc Hd'.
  assert (Ho : Forall ordered (cr label)) by (eapply Forall_impl; [exact Hc|naive_solver]).
  split; cbn [cv_ranges processed_labels]; [done| | |..].
  - rewrite Hp, list_to_set_app_L. set_solver.
  - intros x. rewrite at_cuts, Ha, <- list_fmap_compose by done. apply list_fmap_ext. intros ? [f m] ?. cbn.
    by rewrite locs_of_snoc.
  - apply cuts_Forall; [|done|done|].
    + intros c r a b' Hin Hr _ _ _. rewrite Forall_forall in Hc. split; cbn; [done|]. intros l loc E.
      apply lookup_insert_Some in E as [[<- <-]|[_ E]].
      * split; [apply elem_of_app; right; by apply list_elem_of_singleton|]. by apply Hc.
      * by apply Hr.
    + eapply Forall_impl; [exact Hl|]. intros r Hr l loc E. destruct (Hr l loc E) as [? ?].
      split; [|done]. apply elem_of_app. by left.
  - apply cuts_Forall; [|done..]. intros c r a b' Hin Hr ? ? ?. cbn. lia.
Qed.

Lemma process_label_inv frame_info cr R0 labels b label :
  frame_ok frame_info → builder_inv frame_info cr R0 labels b →
  code_ranges frame_info label = Ret (Some (cr label)) →
  ∃ b', process_label hash_iter fuel addr_tr frame_info b label = Ret (Some b') ∧
    builder_inv frame_info cr R0 (labels ++ [label]) b'.
Proof.
  intros Hf Hi Hcr. unfold process_label. destruct (bool_decide (label ∈ processed_labels b)) eqn:Ep.
  - apply bool_decide_eq_true in Ep. exists b. split; [done|].
    pose proof Hi as [Hd Hp Ha Hl Hb]. rewrite Hp in Ep. apply elem_of_list_to_set in Ep. split; [done| | |..|done].
    + rewrite Hp, list_to_set_app_L. apply leibniz_equiv. set_solver.
    + intros x. rewrite Ha. apply list_fmap_ext. intros ? [f m] ?. cbn. by rewrite locs_of_again.
    + eapply Forall_impl; [exact Hl|]. intros r Hr l loc E. destruct (Hr l loc E) as [? ?].
      split; [|done]. apply elem_of_app. by left.
  - apply bool_decide_eq_false in Ep. rewrite (bi_processed _ _ _ _ _ Hi), elem_of_list_to_set in Ep.
    unfold code_ranges in Hcr. destruct frame_info as [f|].
    2:{ injection Hcr as Hcr. eexists. split; [done|]. by apply builder_inv_unlocated. }
    destruct (value_ranges f !! label) as [lr|] eqn:El.
    2:{ injection Hcr as Hcr. eexists. split; [done|]. by apply builder_inv_unlocated. }
    destruct (label_ranges_cuts label lr _ _ (bi_disjoint _ _ _ _ _ Hi) Hcr) as (-> & Hd & Ho). cbn [run_bind].
    eexists. split; [done|]. apply builder_inv_located; [done|done| |done].
    eapply Forall_impl; [exact Ho|]. intros c [Hc (v & Hv & Hin)%list_elem_of_In%in_map_iff].
    split; [done|]. rewrite <- Hv. cbn in Hf. eapply Hf; [exact El|]. by apply list_elem_of_In.
Qed.

Lemma process_labels_inv frame_info cr R0 todo labels b :
  frame_ok frame_info → builder_inv frame_info cr R0 labels b →
  (∀ l, l ∈ todo → code_ranges frame_info l = Ret (Some (cr l))) →
  ∃ b', foldR (process_label hash_iter fuel addr_tr frame_info) b todo = Ret (Some b') ∧
    builder_inv frame_info cr R0 (labels ++ todo) b'.
Proof.
  intros Hf. revert labels b. induction todo as [|l todo IH]; intros labels b Hi Hcr; cbn [foldR].
  { exists b. by rewrite app_nil_r. }
  destruct (process_label_inv _ _ _ _ _ l Hf Hi (Hcr l ltac:(left))) as (b1 & -> & Hi1). cbn [run_bind].
  destruct (IH _ _ Hi1) as (b' & Hb & Hi'); [intros; apply Hcr; by right|].
  exists b'. split; [done|]. by rewrite <- app_assoc in Hi'.
Qed.

(** ** Expressions *)

(** DWARF: there are 32 operators for registers from [DW_OP_reg0] (0x50) and
    from [DW_OP_breg0] (0x70), and the registers named here have numbers
    below 32. *)
Context (HX86 : ∀ r, 0 ≤ X86_64 r < 32) (Hreg0 : DW_OP_reg0 = 80) (Hbreg0 : DW_OP_breg0 = 112).

Lemma map_reg_total r : 0 ≤ r < 24 → ∃ reg, map_reg r = Ret reg.
Proof using.
  intros Hr. unfold map_reg. match goal with |- context [zget ?l r] => destruct (zget_is_Some l r) as [reg ->] end.
  - exact Hr.
  - by exists reg.
Qed.

Lemma wrap_reg r : wrap_u 8 (X86_64 r) = X86_64 r.
Proof using HX86. pose proof (HX86 r). unfold wrap_u. apply Z.mod_small. lia. Qed.

Lemma breg_total r : op_add 8 DW_OP_breg0 (wrap_u 8 (X86_64 r)) = Ret (112 + X86_64 r).
Proof using HX86 Hbreg0. rewrite wrap_reg, Hbreg0. apply op_add_fits. pose proof (HX86 r). lia. Qed.

Lemma translate_loc_total frame_info loc :
  loc_ok frame_info loc → ∃ c, translate_loc loc frame_info = Ret c.
Proof using HX86 Hreg0 Hbreg0.
  destruct loc as [r|ss|]; cbn; [|destruct frame_info as [f|]; [|by eexists]|by eexists].
  - intros Hr. destruct (map_reg_total r Hr) as [reg ->]. rewrite bind_Ret_l, wrap_reg.
    pose proof (HX86 reg). rewrite (proj2 (Z.ltb_lt _ _)) by lia. cbn [rassert].
    rewrite bind_Ret_l, Hreg0, op_add_fits by lia. by eexists.
  - intros [o Ho]. rewrite (proj2 (zindex_Ret _ _ _) Ho), bind_Ret_l. destruct o; [|by eexists].
    rewrite breg_total. by eexists.
Qed.

Lemma append_memory_deref_total f loc :
  loc_ok (Some f) loc → ∃ c, append_memory_deref f loc = Ret c.
Proof using HX86 Hbreg0.
  unfold append_memory_deref. destruct loc as [r|ss|]; cbn [loc_ok]; [| |by eexists].
  - intros Hr. destruct (map_reg_total r Hr) as [reg ->]. rewrite bind_Ret_l, breg_total. by eexists.
  - intros [o Ho]. rewrite (proj2 (zindex_Ret _ _ _) Ho), bind_Ret_l. destruct o; [|by eexists].
    rewrite breg_total. by eexists.
Qed.

Lemma deref_code_total frame_info m :
  (∀ l loc, m !! l = Some loc → loc_ok frame_info loc) → ∃ c, deref_code frame_info m = Ret c.
Proof using HX86 Hbreg0.
  intros Hok. unfold deref_code. destruct (m !! get_vmctx_value_label) as [loc|] eqn:E; [|by eexists].
  destruct frame_info; [|by eexists]. apply append_memory_deref_total. by eapply Hok.
Qed.

(** When every label has a location, the code of a range is computed without
    a panic. *)
Lemma range_code_total self frame_info m :
  (∀ l, l ∈ expression_labels self → is_Some (m !! l)) →
  (∀ l loc, m !! l = Some loc → loc_ok frame_info loc) →
  ∃ c, range_code self frame_info m = Ret c.
Proof using HX86 Hreg0 Hbreg0.
  intros Hall Hok. unfold range_code.
  assert (Hp : ∀ ps buf, (∀ l, Local l ∈ ps → is_Some (m !! l)) →
    ∃ c, parts_code frame_info m ps buf = Ret c).
  { induction ps as [|p ps IH]; intros buf Hps; cbn [parts_code]; [by eexists|].
    assert (∃ c, part_code frame_info m p = Ret c) as [c ->].
    { destruct p as [c|l|]; cbn [part_code]; [by eexists| |by apply deref_code_total].
      destruct (Hps l) as [loc Hl]; [left|]. rewrite Hl. cbn. by apply translate_loc_total, (Hok l). }
    rewrite bind_Ret_l. destruct c; [|by eexists]. apply IH. intros l Hl. apply Hps. by right. }
  destruct (Hp (parts self) []) as [c ->].
  { intros l Hl. apply Hall. unfold expression_labels. apply elem_of_app. left.
    apply list_elem_of_In, in_flat_map. exists (Local l). split; [by apply list_elem_of_In|by left]. }
  rewrite bind_Ret_l. destruct c; [|by eexists]. destruct (need_deref self); [|by eexists].
  destruct (deref_code_total frame_info m Hok) as [c ->]. rewrite bind_Ret_l. by eexists.
Qed.

(** *** The whole of [build_with_locals] *)

(** The entries of the result that contain [x]. *)
Definition found (x : Z) (result : list located) : list (Z * bytes) :=
  omap (λ '(f, a, len, c), if inside x a (a + len) then Some (f, c) else None) result.

(** The expression for [x], given where the labels are. *)
Definition code_for (self : CompiledExpression) (frame_info : option FunctionFrameInfo)
    (m : gmap Z ValueLoc) : option bytes :=
  if bool_decide (Forall (λ l, is_Some (m !! l)) (expression_labels self))
  then match range_code self frame_info m with Ret c => c | Panic => None end else None.

Definition range_entry (self : CompiledExpression) (frame_info : option FunctionFrameInfo)
    (r : CachedValueLabelRange) : option located :=
  (λ c, (cv_func_index r, cv_start r, cv_end r - cv_start r, c)) <$> code_for self frame_info (label_location r).

Lemma result_loop self frame_info ranges result :
  Forall (λ r, Forall (λ l, is_Some (label_location r !! l)) (expression_labels self)) ranges →
  Forall (λ r, ∀ l loc, label_location r !! l = Some loc → loc_ok frame_info loc) ranges →
  Forall (λ r, 0 ≤ cv_start r ≤ cv_end r ∧ cv_end r < 2 ^ 63) ranges →
  foldM (λ result r,
    c ← range_code self frame_info (label_location r);
    match c with
    | None => Ret result
    | Some code_buf =>
        len ← op_sub 64 (cv_end r) (cv_start r);
        Ret (result ++ [(cv_func_index r, wrap_s 64 (cv_start r), len, code_buf)])
    end) result ranges = Ret (result ++ omap (range_entry self frame_info) ranges).
Proof using HX86 Hreg0 Hbreg0.
  intros Hall Hok Hb. revert result. induction ranges as [|r ranges IH]; intros result.
  { cbn. by rewrite app_nil_r. }
  apply Forall_cons in Hall as [Ha Hall], Hok as [Ho Hok], Hb as [Hr Hb]. cbn [foldM omap list_omap].
  unfold range_entry at 1, code_for. rewrite bool_decide_eq_true_2 by done.
  destruct (range_code_total self frame_info (label_location r)) as [c Hc]; [by apply Forall_forall|done|].
  rewrite Hc, bind_Ret_l. destruct c as [c|]; cbn [fmap option_fmap option_map].
  - rewrite op_sub_fits, bind_Ret_l by lia. cbn. rewrite IH by done. rewrite <- app_assoc. cbn.
    do 5 f_equal. unfold wrap_s. rewrite Z.mod_small, (proj2 (Z.ltb_lt _ _)) by (cbn; lia). done.
  - rewrite bind_Ret_l. by apply IH.
Qed.

Lemma found_entries x self frame_info ranges :
  found x (omap (range_entry self frame_info) ranges) =
    omap (λ e : Z * gmap Z ValueLoc, pair e.1 <$> code_for self frame_info e.2) (at_ x ranges).
Proof using.
  induction ranges as [|r ranges IH]; [done|]. rewrite at_cons. cbn [omap list_omap].
  unfold range_entry at 1. destruct (code_for self frame_info (label_location r)) as [c|] eqn:Ec; cbn [fmap option_fmap option_map].
  - unfold found. cbn [omap list_omap]. fold (found x (omap (range_entry self frame_info) ranges)).
    replace (cv_start r + (cv_end r - cv_start r)) with (cv_end r) by lia.
    destruct (inside x (cv_start r) (cv_end r)); [|exact IH]. cbn [omap list_omap fst snd]. rewrite Ec. cbn.
    f_equal. exact IH.
  - fold (omap (range_entry self frame_info) ranges). rewrite IH.
    destruct (inside x (cv_start r) (cv_end r)); [|done]. cbn [omap list_omap fst snd]. by rewrite Ec.
Qed.

Lemma omap_filter_None {A B} (f : A → option B) (P : A → Prop) `{∀ x, Decision (P x)} l :
  Forall (λ x, ¬ P x → f x = None) l → omap f (filter P l) = omap f l.
Proof using.
  induction 1 as [|x l Hx _ IH]; [done|]. rewrite filter_cons. destruct (decide (P x)) as [Hp|Hp]; cbn.
  - by rewrite IH.
  - by rewrite IH, (Hx Hp).
Qed.

Context (sort_by_start : list CachedValueLabelRange → list CachedValueLabelRange)
  (Hsort : ∀ l, sort_by_start l ≡ₚ l).

Lemma new_unlocated scope b :
  ValueLabelRangesBuilder_new hash_iter sort_by_start fuel addr_tr scope = Ret (Some b) →
  processed_labels b = ∅ ∧ Forall (λ r, label_location r = ∅) (cv_ranges b).
Proof using Hsort.
  unfold ValueLabelRangesBuilder_new, run_bind at 1.
  destruct (foldR _ [] scope) as [[ranges|]|] eqn:Ef; try done. intros [= <-]. split; [done|]. cbn.
  rewrite Hsort. clear - Ef.
  assert (Hgen : ∀ acc, Forall (λ r, label_location r = ∅) acc →
    foldR (λ ranges '(s, e), t <~ translate_ranges_raw hash_iter fuel addr_tr s e;
      Ret (Some (match t with
                 | Some (func_index, tr) => ranges ++ map (λ '(start, end_), mkCached func_index start end_ ∅) tr
                 | None => ranges end))) acc scope = Ret (Some ranges) →
    Forall (λ r, label_location r = ∅) ranges).
  { clear Ef. induction scope as [|[s e] scope IH]; intros acc Hacc Hf; cbn in Hf; [by injection Hf as <-|].
    destruct (translate_ranges_raw _ _ _ _ _) as [[t|]|]; cbn in Hf; try done.
    eapply IH; [|exact Hf]. destruct t as [[f tr]|]; [|done]. apply Forall_app. split; [done|].
    apply Forall_forall. intros r ([a c] & <- & _)%list_elem_of_In%in_map_iff. done. }
  by eapply Hgen, Ef.
Qed.

(** C19: the expressions of [build_with_locals], address by address.  When the
    translations of the scope and of the ranges of the labels return, the
    ranges of the scope do not overlap, and the locations are registers that
    have a DWARF number or existing stack slots, the call returns.  At every
    address of the scope's code its result has, for each range there, the
    expression built from the locations of the labels at that very address
    (for each label, the one of the last range of code that contains it), and
    no expression where a label has no location or its location none. *)
Theorem build_with_locals_spec (self : CompiledExpression) (scope : list (Z * Z))
    (frame_info : option FunctionFrameInfo) (b0 : ValueLabelRangesBuilder) (cr : Z → list code_range)
    (Hscope : scope ≠ []) (Hlocals : ∀ c, parts self ≠ [Code c])
    (Hnew : ValueLabelRangesBuilder_new hash_iter sort_by_start fuel addr_tr scope = Ret (Some b0))
    (Hdisjoint : disjoint (cv_ranges b0))
    (Hbounds : Forall (λ r, 0 ≤ cv_start r ∧ cv_end r < 2 ^ 63) (cv_ranges b0))
    (Hcr : ∀ l, l ∈ expression_labels self → code_ranges frame_info l = Ret (Some (cr l)))
    (Hframe : frame_ok frame_info) :
  ∃ result, build_with_locals hash_iter sort_by_start fuel addr_tr self scope frame_info = Ret (Some result) ∧
    ∀ x, found x result =
      omap (λ e : Z * gmap Z ValueLoc, pair e.1 <$> code_for self frame_info (locs_of cr x (expression_labels self)))
        (at_ x (cv_ranges b0)).
Proof using HX86 Hreg0 Hbreg0 Hsort H1.
  destruct (new_unlocated _ _ Hnew) as [Hproc Hempty].
  assert (Hi0 : builder_inv frame_info cr (cv_ranges b0) [] b0).
  { split; [done|by rewrite Hproc| | |done].
    - intros x. clear - Hempty. induction Hempty as [|r l Hr _ IH]; [done|]. rewrite at_cons.
      destruct (inside x (cv_start r) (cv_end r)); [|exact IH]. cbn [fmap list_fmap]. by rewrite Hr, <- IH.
    - eapply Forall_impl; [exact Hempty|]. intros r Hr l loc E. cbn in Hr. rewrite Hr in E. by rewrite lookup_empty in E. }
  destruct (process_labels_inv _ _ _ (expression_labels self) _ _ Hframe Hi0 Hcr) as (b & Hb & [Hd Hp Ha Hl Hbd]).
  cbn [app] in *. set (P := λ r, size (label_location r) = size (processed_labels b)).
  assert (HP : Forall (λ r, P r ↔ Forall (λ l, is_Some (label_location r !! l)) (expression_labels self)) (cv_ranges b)).
  { eapply Forall_impl; [exact Hl|]. intros r Hr. unfold P. rewrite Hp, locations_complete, Forall_forall.
    - by setoid_rewrite elem_of_list_to_set.
    - intros l loc E. apply elem_of_list_to_set. by apply (Hr l loc). }
  exists (omap (range_entry self frame_info) (filter P (cv_ranges b))). split.
  - unfold build_with_locals. destruct scope as [|sc scope]; [done|]. rewrite Hnew. cbn [run_bind]. rewrite Hb. cbn [run_bind].
    assert (Hres := result_loop self frame_info (filter P (cv_ranges b)) []).
    cbn [remove_incomplete_ranges cv_ranges]. fold P. rewrite Hres.
    + destruct (parts self) as [|[c| |] [|]] eqn:E; try reflexivity. by destruct (Hlocals c).
    + apply Forall_forall. intros r [Hr Hin]%list_elem_of_filter. rewrite Forall_forall in HP. by apply HP.
    + apply Forall_forall. intros r [_ Hin]%list_elem_of_filter. rewrite Forall_forall in Hl. intros l loc E. by eapply Hl.
    + apply Forall_forall. intros r [_ Hin]%list_elem_of_filter. rewrite Forall_forall in Hbd.
      pose proof (dj_order _ Hd) as Ho. rewrite Forall_forall in Ho. specialize (Hbd r Hin). specialize (Ho r Hin). cbn in *. lia.
  - intros x. rewrite omap_filter_None.
    + rewrite found_entries, Ha. generalize (at_ x (cv_ranges b0)). clear. intros l.
      induction l as [|e l IH]; [done|]. rewrite fmap_cons. cbn [omap list_omap fst snd].
      destruct (code_for self frame_info _); cbn [fmap option_fmap option_map]; [by f_equal|done].
    + eapply Forall_impl; [exact HP|]. intros r Hr Hn. unfold range_entry, code_for.
      rewrite bool_decide_eq_false_2; [done|]. by intros ?%Hr.
Qed.
End builder.

(** ** Compilation *)

Section compile.
Context `{Gimli}.

(** An expression as a sequence of bytes, locals and dereferences. *)
Inductive atom := AByte (b : Z) | ALocal (label : Z) | ADeref.
Definition atoms_of (l : list CompiledExpressionPart) : list atom :=
  flat_map (λ p, match p with Code c => map AByte c | Local l => [ALocal l] | Deref => [ADeref] end) l.

(** What an input means: its operations in order, and what the last one says
    about a final dereference. *)
Inductive parsed (expr : bytes) : bytes → list atom → option bool → Prop :=
| parsed_end : parsed expr [] [] None
| parsed_local tail pc1 index b pc2 atoms o :
    read_uleb128 tail = Ok (0, pc1) → read_sleb128 pc1 = Ok (index, b :: pc2) →
    parsed expr pc2 atoms o →
    parsed expr (237 :: tail) (ALocal (wrap_u 32 index) :: atoms) (Some (default true o))
| parsed_code next tail op pc' atoms o :
    next ≠ 237 → Operation_parse expr (next :: tail) = Ok (op, pc') →
    (op = Literal ∨ op = PlusConstant ∨ op = StackValue) → parsed expr pc' atoms o →
    parsed expr (next :: tail)
      (map AByte (take (length (next :: tail) - length pc') (next :: tail)) ++ atoms)
      (Some (default (match op with StackValue => false | _ => true end) o))
| parsed_deref next tail pc' atoms o :
    next ≠ 237 → Operation_parse expr (next :: tail) = Ok (DerefOp, pc') → parsed expr pc' atoms o →
    parsed expr (next :: tail)
      (ADeref :: map AByte (take (length (next :: tail) - length pc') (next :: tail)) ++ atoms)
      (Some (default true o)).

(** Each chunk of code is followed by a local or a dereference. *)
Inductive grouped : list CompiledExpressionPart → Prop :=
| grouped_nil : grouped []
| grouped_local l c label : grouped l → grouped (flush l c ++ [Local label])
| grouped_deref l c : grouped l → grouped (flush l c ++ [Deref]).

(** The readers advance. *)
Context (Huleb : ∀ t v t', read_uleb128 t = Ok (v, t') → (length t' ≤ length t)%nat)
  (Hsleb : ∀ t v t', read_sleb128 t = Ok (v, t') → (length t' ≤ length t)%nat)
  (Hop : ∀ expr t op t', Operation_parse expr t = Ok (op, t') → (length t' < length t)%nat).

Lemma atoms_of_app l1 l2 : atoms_of (l1 ++ l2) = atoms_of l1 ++ atoms_of l2.
Proof using. apply flat_map_app. Qed.
Lemma atoms_of_flush l c : atoms_of (flush l c) = atoms_of l ++ map AByte c.
Proof using.
  destruct c; cbn [flush map]; [by rewrite app_nil_r|]. rewrite atoms_of_app. cbn. by rewrite app_nil_r.
Qed.
Lemma flush_app l1 l2 c : flush (l1 ++ l2) c = l1 ++ flush l2 c.
Proof using. destruct c; cbn; [done|]. by rewrite app_assoc. Qed.

Definition state_atoms (st : compile_state) : list atom := atoms_of (flush (cs_parts st) (cs_code_chunk st)).

(** The loop reads an input that has a meaning, and only such inputs; [base]
    are the parts of the frame base. *)
Lemma compile_loop_parsed base expr pc atoms o :
  parsed expr pc atoms o → ∀ n st l, (length pc ≤ n)%nat → cs_parts st = base ++ l → grouped l →
  ∃ st' l', compile_loop n expr pc st = Ret (Some (Ok (Some st'))) ∧ cs_parts st' = base ++ l' ∧ grouped l' ∧
    state_atoms st' = state_atoms st ++ atoms ∧ cs_need_deref st' = default (cs_need_deref st) o.
Proof using Huleb Hsleb Hop.
  unfold state_atoms. induction 1 as [|tail pc1 index b pc2 atoms o Hu Hs _ IH
    |next tail op pc' atoms o Hne Hp Hcase _ IH|next tail pc' atoms o Hne Hp _ IH]; intros n st l Hn Hst Hl.
  - exists st, l. rewrite app_nil_r. by destruct n.
  - destruct n as [|n]; cbn in Hn; [lia|]. cbn [compile_loop]. rewrite Z.eqb_refl, Hu. cbn [rassert Z.eqb].
    rewrite bind_Ret_l, Hs. apply Huleb in Hu. apply Hsleb in Hs. cbn in Hs.
    destruct (IH n (mkCompile (flush (cs_parts st) (cs_code_chunk st) ++ [Local (wrap_u 32 index)]) true [])
      (flush l (cs_code_chunk st) ++ [Local (wrap_u 32 index)])) as (st' & l' & Hc & Hp & Hg & Ha & Hd);
      [lia|cbn; by rewrite Hst, flush_app, app_assoc|by constructor|].
    exists st', l'. split_and!; [done..| |by destruct o]. rewrite Ha. cbn [cs_parts cs_code_chunk flush].
    rewrite atoms_of_app, <- app_assoc. done.
  - pose proof (Hop _ _ _ _ Hp) as Hlt. destruct n as [|n]; cbn in Hn, Hlt; [lia|]. cbn [compile_loop].
    rewrite (proj2 (Z.eqb_neq _ _) Hne), Hp. cbn [rassert].
    rewrite (proj2 (Nat.leb_le _ _)) by (cbn; lia). cbn [rassert]. rewrite bind_Ret_l.
    set (chunk := take _ _). set (d := match op with StackValue => false | _ => true end).
    destruct (IH n (mkCompile (cs_parts st) d (cs_code_chunk st ++ chunk)) l) as (st' & l' & Hc & Hp' & Hg & Ha & Hd);
      [lia|done|done|].
    exists st', l'. split_and!; [by destruct Hcase as [->|[->| ->]]|done..| |by destruct o].
    rewrite Ha. cbn [cs_parts cs_code_chunk]. by rewrite !atoms_of_flush, map_app, <- !app_assoc.
  - pose proof (Hop _ _ _ _ Hp) as Hlt. destruct n as [|n]; cbn in Hn, Hlt; [lia|]. cbn [compile_loop].
    rewrite (proj2 (Z.eqb_neq _ _) Hne), Hp. rewrite (proj2 (Nat.leb_le _ _)) by (cbn; lia). cbn [rassert].
    rewrite bind_Ret_l. set (chunk := take _ _).
    destruct (IH n (mkCompile (flush (cs_parts st) (cs_code_chunk st) ++ [Deref]) true chunk)
      (flush l (cs_code_chunk st) ++ [Deref])) as (st' & l' & Hc & Hp' & Hg & Ha & Hd);
      [lia|cbn; by rewrite Hst, flush_app, app_assoc|by constructor|].
    exists st', l'. split_and!; [done..| |by destruct o]. rewrite Ha. cbn [cs_parts cs_code_chunk].
    rewrite !atoms_of_flush, atoms_of_app, <- !app_assoc. cbn. by rewrite atoms_of_flush, <- app_assoc.
Qed.

Lemma compile_loop_inv expr n pc st st' :
  (length pc ≤ n)%nat → compile_loop n expr pc st = Ret (Some (Ok (Some st'))) → ∃ atoms o, parsed expr pc atoms o.
Proof using Huleb Hsleb Hop.
  revert pc st. induction n as [|n IH]; intros pc st Hn Hc; (destruct pc as [|next tail]; [by eexists _, _; constructor|]).
  { cbn in Hn. lia. }
  cbn in Hn. cbn [compile_loop] in Hc. destruct (Z.eqb_spec next 237) as [->|Hne].
  - destruct (read_uleb128 tail) as [[ty pc1]|] eqn:Hu; [|done].
    destruct (Z.eqb_spec ty 0) as [->|]; [|done]. cbn in Hc.
    destruct (read_sleb128 pc1) as [[index [|b pc2]]|] eqn:Hs; try done.
    pose proof (Huleb _ _ _ Hu). pose proof (Hsleb _ _ _ Hs) as Hl. cbn in Hl.
    apply IH in Hc as (atoms & o & Hp); [|lia]. eexists _, _. by econstructor.
  - destruct (Operation_parse expr (next :: tail)) as [[op pc']|] eqn:Hp; [|done].
    pose proof (Hop _ _ _ _ Hp) as Hlt. cbn in Hlt.
    rewrite (proj2 (Nat.leb_le _ _)) in Hc by (cbn; lia). cbn in Hc.
    destruct op; try done; (apply IH in Hc as (atoms & o & Hps); [|lia]); eexists _, _.
    1-3: eapply parsed_code; [done|exact Hp|tauto|exact Hps].
    eapply parsed_deref; [done|exact Hp|exact Hps].
Qed.

Lemma compile_loop_fuel expr n pc st : (length pc ≤ n)%nat → compile_loop n expr pc st ≠ Ret None.
Proof using Huleb Hsleb Hop.
  revert pc st. induction n as [|n IH]; intros pc st Hn; (destruct pc as [|next tail]; [done|]).
  { cbn in Hn. lia. }
  cbn in Hn. cbn [compile_loop]. destruct (next =? 237).
  - destruct (read_uleb128 tail) as [[ty pc1]|] eqn:Hu; [|done]. destruct (ty =? 0); [|done]. cbn.
    destruct (read_sleb128 pc1) as [[index [|b pc2]]|] eqn:Hs; try done.
    pose proof (Huleb _ _ _ Hu). pose proof (Hsleb _ _ _ Hs) as Hl. cbn in Hl. apply IH. lia.
  - destruct (Operation_parse expr (next :: tail)) as [[op pc']|] eqn:Hp; [|done].
    pose proof (Hop _ _ _ _ Hp) as Hlt. cbn in Hlt. rewrite (proj2 (Nat.leb_le _ _)) by (cbn; lia). cbn.
    destruct op; try done; apply IH; lia.
Qed.

(** The slice that is looked at has at most one element. *)
Lemma glue_id n l : glue n l = l.
Proof using.
  unfold glue. destruct (_ && _); [|done]. destruct (drop n l) as [|[c| |] [|]]; done.
Qed.

(** C38: compilation of expressions.  It always ends.  It succeeds exactly on
    the inputs that consist of constants, additions, dereferences, the
    stack-value operator and locals, with the parts of the frame base followed
    by the operations in their order (a dereference before its bytes), each
    chunk of code followed by a local or a dereference; and a final
    dereference is needed unless the last operation was the stack-value
    operator.  In particular the parts of the frame base are never glued to
    what follows. *)
Theorem compile_expression_spec (expr : bytes) (frame_base : option CompiledExpression)
    (base := match frame_base with Some b => parts b | None => [] end) :
  compile_expression expr frame_base ≠ Ret None ∧
  ((∃ e, compile_expression expr frame_base = Ret (Some (Ok (Some e)))) ↔ ∃ atoms o, parsed expr expr atoms o) ∧
  ∀ atoms o, parsed expr expr atoms o → ∃ e l c,
    compile_expression expr frame_base = Ret (Some (Ok (Some e))) ∧
    parts e = base ++ flush l c ∧ grouped l ∧ atoms_of (flush l c) = atoms ∧
    need_deref e = default (match frame_base with Some b => need_deref b | None => false end) o.
Proof using Huleb Hsleb Hop.
  set (d := match frame_base with Some b => need_deref b | None => false end).
  assert (Hpos : ∀ atoms o, parsed expr expr atoms o → ∃ e l c,
    compile_expression expr frame_base = Ret (Some (Ok (Some e))) ∧
    parts e = base ++ flush l c ∧ grouped l ∧ atoms_of (flush l c) = atoms ∧ need_deref e = default d o).
  { intros atoms o Hp. destruct (compile_loop_parsed base expr expr atoms o Hp (length expr) (mkCompile base d []) [])
      as (st' & l' & Hc & Hl & Hg & Ha & Hd); [lia|cbn; by rewrite app_nil_r|constructor|].
    unfold compile_expression. fold base d. rewrite Hc. cbn [run_bind]. rewrite glue_id, Hl, flush_app.
    eexists _, l', (cs_code_chunk st'). split; [done|]. cbn [parts need_deref]. split_and!; try done.
    unfold state_atoms in Ha. rewrite Hl, flush_app, atoms_of_app in Ha. cbn in Ha. by apply app_inv_head in Ha. }
  split_and!; [| |exact Hpos].
  - unfold compile_expression. fold base d. pose proof (compile_loop_fuel expr (length expr) expr (mkCompile base d []) ltac:(lia)) as Hf.
    by destruct (compile_loop _ _ _ _) as [[r|]|]; cbn.
  - split; [|intros (atoms & o & Hp); destruct (Hpos _ _ Hp) as (e & _ & _ & He & _); by exists e].
    intros [e He]. unfold compile_expression in He. fold base d in He.
    destruct (compile_loop _ _ _ _) as [[r|]|] eqn:Ec; try done. cbn in He.
    destruct r as [[st|]|]; try done. by eapply compile_loop_inv.
Qed.
End compile.

(** ** Examples *)

(** DWARF numbers of the registers; small numbers take one byte. *)
Definition toy_gimli : Gimli := {|
  X86_64 r := match r with
    | RAX => 0 | RDX => 1 | RCX => 2 | RBX => 3 | RSI => 4 | RDI => 5 | RBP => 6 | RSP => 7
    | R8 => 8 | R9 => 9 | R10 => 10 | R11 => 11 | R12 => 12 | R13 => 13 | R14 => 14 | R15 => 15
    | XMM0 => 17 | XMM1 => 18 | XMM2 => 19 | XMM3 => 20 | XMM4 => 21 | XMM5 => 22 | XMM6 => 23 | XMM7 => 24
    end;
  DW_OP_reg0 := 80; DW_OP_breg0 := 112; DW_OP_deref := 6; DW_OP_consts := 17; DW_OP_plus := 34;
  DW_OP_swap := 22; DW_OP_stack_value := 159; DW_OP_constu := 16; DW_OP_and := 26;
  sleb128 z := [z mod 128]; uleb128 z := [z mod 128];
  read_uleb128 t := match t with v :: t => Ok (v, t) | [] => Err (mkReadError 0) end;
  read_sleb128 t := match t with v :: t => Ok (v, t) | [] => Err (mkReadError 0) end;
  Operation_parse _ t :=
    match t with
    | [] => Err (mkReadError 0)
    | 6 :: t => Ok (DerefOp, t)
    | 159 :: t => Ok (StackValue, t)
    | 35 :: _ :: t => Ok (PlusConstant, t)
    | b :: t => Ok (if (48 <=? b) && (b <? 80) then Literal else OtherOperation, t)
    end;
  UnexpectedEof := mkReadError 0;
  get_vmctx_value_label := 1000;
|}.

(** Local 3 is in RAX first and in RBX later. *)
Definition toy_frame : FunctionFrameInfo :=
  mkFrameInfo {[ 3 := [mkValueLocRange (LocReg 0) 11 15; mkValueLocRange (LocReg 3) 15 19] ]} 8 [].
Definition toy_expression : CompiledExpression := mkExpression [Local 3; Code [159]] false.

Definition toy_sort : list CachedValueLabelRange → list CachedValueLabelRange := λ l, l.

Definition toy_cr (label : Z) : list code_range :=
  if label =? 3
  then [(LocReg 0, 0, 15); (LocReg 0, 23, 30); (LocReg 3, 8, 23); (LocReg 3, 26, 30)] else [].
Definition toy_ranges : list CachedValueLabelRange := [mkCached 0 0 23 ∅; mkCached 0 23 30 ∅].

Lemma toy_disjoint : disjoint toy_ranges.
Proof. split; unfold toy_ranges; repeat constructor; cbn; lia. Qed.

Lemma intersect_spec_witness :
  ∃ ranges', @intersect scan_search 3 (LocReg 3) 8 26 toy_ranges = Ret ranges' ∧
    map (λ r, (cv_start r, cv_end r)) ranges' = [(0, 8); (8, 23); (23, 26); (26, 30)].
Proof.
  destruct (@intersect_spec scan_search scan_search_laws 3 (LocReg 3) 8 26 toy_ranges toy_disjoint ltac:(lia))
    as (ranges' & E & -> & _). eexists. split; [exact E|]. reflexivity.
Defined.

Lemma build_with_locals_spec_witness :
  ∃ result, @build_with_locals toy_gimli scan_search map_to_list toy_sort 10 two_ranges_transform
      toy_expression [(11, 19)] (Some toy_frame) = Ret (Some result) ∧
    found 7 result = [(0, [80; 159])] ∧ found 12 result = [(0, [83; 159])].
Proof.
  destruct (@build_with_locals_spec toy_gimli scan_search scan_search_laws map_to_list 10 two_ranges_transform
    ltac:(intros []; cbn; lia) eq_refl eq_refl toy_sort (λ l, reflexivity l) toy_expression [(11, 19)]
    (Some toy_frame) (mkBuilder toy_ranges ∅) toy_cr) as (result & E & Hf).
  - done.
  - done.
  - vm_compute. reflexivity.
  - exact toy_disjoint.
  - repeat constructor; cbn; lia.
  - intros l Hl. apply list_elem_of_singleton in Hl as ->. vm_compute. reflexivity.
  - intros label lr v Hv Hin. cbn in Hv. apply lookup_singleton_Some in Hv as [<- <-].
    apply list_elem_of_In in Hin. destruct Hin as [<-|[<-|[]]]; cbn; lia.
  - exists result. split; [exact E|]. rewrite !Hf. split; vm_compute; reflexivity.
Defined.

(** A constant that is added to local 3, and the value of the memory there. *)
Lemma compile_expression_spec_witness :
  @parsed toy_gimli [237; 0; 3; 159; 35; 8; 6] [237; 0; 3; 159; 35; 8; 6]
    [ALocal 3; AByte 35; AByte 8; ADeref; AByte 6] (Some true) ∧
  ∃ e, @compile_expression toy_gimli [237; 0; 3; 159; 35; 8; 6] None = Ret (Some (Ok (Some e))) ∧
    need_deref e = true.
Proof.
  assert (Hp : @parsed toy_gimli [237; 0; 3; 159; 35; 8; 6] [237; 0; 3; 159; 35; 8; 6]
    [ALocal 3; AByte 35; AByte 8; ADeref; AByte 6] (Some true)).
  { eapply (parsed_local _ [0; 3; 159; 35; 8; 6] _ 3 159 _ _ (Some true)); [reflexivity|reflexivity|].
    eapply (parsed_code _ 35 [8; 6] PlusConstant [6] _ (Some true)); [done|reflexivity|by right; left|].
    eapply (parsed_deref _ 6 [] [] _ None); [done|reflexivity|constructor]. }
  split; [exact Hp|].
  destruct (@compile_expression_spec toy_gimli) with (expr := [237; 0; 3; 159; 35; 8; 6])
    (frame_base := @None CompiledExpression) as (_ & _ & Hc).
  - intros [|v' t] v t' E; [done|]. injection E as <- <-. cbn. lia.
  - intros [|v' t] v t' E; [done|]. injection E as <- <-. cbn. lia.
  - intros expr t op t' E. cbn in E. repeat case_match; simplify_eq; cbn; lia.
  - destruct (Hc _ _ Hp) as (e & _ & _ & He & _ & _ & _ & Hd). by exists e.
Defined.
