(* ===== verification/RangeInfo.v ===== *)
(** * The code ranges of debugging entries

    Models [wasmtime-debug/src/transform/range_info_builder.rs]: the ranges
    of WebAssembly addresses that an entry of the debug information gives,
    and the ranges of generated code that are written for it.  The reader and
    the writer of DWARF (gimli) are not part of the sources: the input is
    what the reader answers, the output is the sequence of calls to the
    writer. *)

From S2P Require Import Prelude AddressTransform AddressTransformProofs.
Local Open Scope Z_scope.

(** ** The reader and the writer *)

Inductive ReadError := mkReadError (code : Z).
Inductive AttributeValue := RangeListsRef (o : Z) | Addr (a : Z) | Udata (u : Z) | OtherAttribute.

(** What [attr_value] answers for the three names that are asked for. *)
Record Die := mkDie {
  DW_AT_ranges : result (option AttributeValue) ReadError;
  DW_AT_low_pc : result (option AttributeValue) ReadError;
  DW_AT_high_pc : result (option AttributeValue) ReadError;
}.

(** [write::Address] *)
Inductive WriteAddress := Constant (c : Z) | Symbol (symbol addend : Z).

(** The calls to the output unit.  [RangesAdd] is [out_unit.ranges.add], whose
    result is the list that [SetRanges] refers to. *)
Inductive OutCall :=
| RangesAdd (l : list (WriteAddress * Z))
| SetRanges
| SetLowPc (a : WriteAddress)
| SetHighPc (len : Z).

(** ** [RangeInfoBuilder] *)

Inductive RangeInfoBuilder :=
| Undefined
| Position (pc : Z)
| Ranges (l : list (Z * Z))
| Function_ (index : Z).

Section reading.
(** [context.rnglists.ranges(r, ..)], an iterator. *)
Context (rnglists : Z → result (list (result (Z * Z) ReadError)) ReadError).

(** The loop of [from_ranges_ref]; the test for empty ranges has no effect. *)
Fixpoint collect_ranges (it : list (result (Z * Z) ReadError)) (acc : list (Z * Z))
    : result (list (Z * Z)) ReadError :=
  match it with
  | [] => Ok acc
  | Err e :: _ => Err e
  | Ok (begin, end_) :: it => collect_ranges it (acc ++ [(begin, end_)])
  end.

Definition from_ranges_ref (ranges : Z) : result RangeInfoBuilder ReadError :=
  match rnglists ranges with
  | Err e => Err e
  | Ok it =>
      match collect_ranges it [] with
      | Err e => Err e
      | Ok result => Ok (match result with [] => Undefined | _ => Ranges result end)
      end
  end.

Definition from (entry : Die) : res (result RangeInfoBuilder ReadError) :=
  match DW_AT_ranges entry with
  | Err e => Ret (Err e)
  | Ok (Some (RangeListsRef r)) => Ret (from_ranges_ref r)
  | Ok _ =>
      match DW_AT_low_pc entry with
      | Err e => Ret (Err e)
      | Ok (Some (Addr low_pc)) =>
          match DW_AT_high_pc entry with
          | Err e => Ret (Err e)
          | Ok (Some (Udata u)) => e ← op_add 64 low_pc u; Ret (Ok (Ranges [(low_pc, e)]))
          | Ok _ => Ret (Ok (Position low_pc))
          end
      | Ok _ => Ret (Ok Undefined)
      end
  end.

Section transform.
Context `{BinarySearch} (hash_iter : gmap Z Z → list (Z * Z)) (fuel : nat) (addr_tr : AddressTransform).

Definition from_subprogram_die (entry : Die) : res (result RangeInfoBuilder ReadError) :=
  let addr : result (option Z) ReadError :=
    match DW_AT_low_pc entry with
    | Err e => Err e
    | Ok (Some (Addr addr)) => Ok (Some addr)
    | Ok _ =>
        match DW_AT_ranges entry with
        | Err e => Err e
        | Ok (Some (RangeListsRef r)) =>
            match rnglists r with
            | Err e => Err e
            | Ok [] => Ok None
            | Ok (Err e :: _) => Err e
            | Ok (Ok (begin, _) :: _) => Ok (Some begin)
            end
        | Ok _ => Ok None
        end
    end in
  match addr with
  | Err e => Ret (Err e)
  | Ok None => Ret (Ok Undefined)
  | Ok (Some addr) =>
      index ← find_func_index addr_tr addr;
      Ret (Ok (match index with Some index => Function_ index | None => Undefined end))
  end.

(** The translations of ranges that are not empty.  [None]: a translation
    does not end. *)
Fixpoint translate_all (ranges : list (Z * Z)) (acc : list (WriteAddress * Z))
    : res (option (list (WriteAddress * Z))) :=
  match ranges with
  | [] => Ret (Some acc)
  | (begin, end_) :: ranges =>
      l ← translate_ranges hash_iter fuel addr_tr begin end_;
      match l with
      | None => Ret None
      | Some l =>
          translate_all ranges
            (acc ++ omap (λ '(symbol, addend, len),
                       if len =? 0 then None else Some (Symbol symbol addend, len)) l)
      end
  end.

Definition build (self : RangeInfoBuilder) : res (option (list OutCall)) :=
  match self with
  | Undefined => Ret (Some [])
  | Position pc =>
      a ← translate addr_tr pc;
      Ret (Some [SetLowPc (match a with
                           | Some (symbol, addend) => Symbol symbol addend
                           | None => Constant 0
                           end)])
  | Ranges ranges =>
      r ← translate_all ranges [];
      Ret (match r with
           | None => None
           | Some [(a, len)] => Some [SetLowPc a; SetHighPc len]
           | Some result => Some [RangesAdd result; SetRanges]
           end)
  | Function_ index =>
      '(s, e) ← func_range addr_tr index;
      len ← op_sub 64 e s;
      Ret (Some [SetLowPc (Symbol index (wrap_s 64 s)); SetHighPc len])
  end.

Definition get_ranges (self : RangeInfoBuilder) : res (list (Z * Z)) :=
  match self with
  | Undefined | Position _ => Ret []
  | Ranges ranges => Ret ranges
  | Function_ index => r ← func_source_range addr_tr index; Ret [r]
  end.

(** The loop of [build_ranges]: like [translate_all], after an assertion. *)
Fixpoint translate_asserted (ranges : list (Z * Z)) (acc : list (WriteAddress * Z))
    : res (option (list (WriteAddress * Z))) :=
  match ranges with
  | [] => Ret (Some acc)
  | (begin, end_) :: ranges =>
      _ ← rassert (begin <? end_);
      l ← translate_ranges hash_iter fuel addr_tr begin end_;
      match l with
      | None => Ret None
      | Some l =>
          translate_asserted ranges
            (acc ++ omap (λ '(symbol, addend, len),
                       if len =? 0 then None else Some (Symbol symbol addend, len)) l)
      end
  end.

Definition build_ranges (self : RangeInfoBuilder) : res (option (list OutCall)) :=
  match self with
  | Ranges ranges =>
      r ← translate_asserted ranges [];
      Ret (match r with None => None | Some l => Some [RangesAdd l] end)
  | _ => Panic
  end.
End transform.
End reading.

(** ** Properties *)

Lemma collect_ranges_acc it acc l :
  collect_ranges it acc = Ok l ↔ ∃ l', it = map Ok l' ∧ l = acc ++ l'.
Proof.
  revert acc. induction it as [|[[b e]|err] it IH]; intros acc; cbn.
  - split; [intros [= <-]; exists []; by rewrite app_nil_r|]. intros ([|] & [=] & ->). by rewrite app_nil_r.
  - rewrite IH. split.
    + intros (l' & -> & ->). exists ((b, e) :: l'). by rewrite <- app_assoc.
    + intros ([|p l'] & [=] & ->). subst. exists l'. by rewrite <- app_assoc.
  - split; [done|]. intros ([|] & [=] & _).
Qed.

Section properties.
Context `{BinarySearchLaws} (hash_iter : gmap Z Z → list (Z * Z)).
Context (rnglists : Z → result (list (result (Z * Z) ReadError)) ReadError).

Lemma translate_asserted_empty fuel addr_tr ranges acc b e :
  (b, e) ∈ ranges → e ≤ b → ∀ l, translate_asserted hash_iter fuel addr_tr ranges acc ≠ Ret (Some l).
Proof using.
  intros Hin Hbe. revert acc. induction ranges as [|[b' e'] ranges IH]; intros acc l; [by apply elem_of_nil in Hin|].
  cbn [translate_asserted]. apply elem_of_cons in Hin as [[= <- <-]|Hin].
  - by rewrite (proj2 (Z.ltb_ge _ _)) by lia.
  - destruct (b' <? e'); [|done]. cbn. destruct (translate_ranges _ _ _ _ _) as [[tl|]|]; [|done..]. cbn. by apply IH.
Qed.

(** Empty ranges.  A list of ranges in the input with an empty range,
    which DWARF allows, is read with that range (the test that should ignore
    it has an empty body), and its translation by [build_ranges], which
    asserts that no range is empty, does not return a range list. *)
Theorem empty_range_not_ignored (r : Z) (l : list (Z * Z)) (b e : Z) (fuel : nat) (addr_tr : AddressTransform)
    (Hread : rnglists r = Ok (map Ok l)) (Hin : (b, e) ∈ l) (Hempty : e ≤ b) :
  from_ranges_ref rnglists r = Ok (Ranges l) ∧
  (∀ calls, build_ranges hash_iter fuel addr_tr (Ranges l) ≠ Ret (Some calls)) ∧
  (l = [(b, e)] → build_ranges hash_iter fuel addr_tr (Ranges l) = Panic).
Proof using.
  split_and!.
  - unfold from_ranges_ref. rewrite Hread. rewrite (proj2 (collect_ranges_acc (map Ok l) [] l)); [|by exists l].
    by destruct l; [apply elem_of_nil in Hin|].
  - intros calls. unfold build_ranges. pose proof (translate_asserted_empty fuel addr_tr l [] b e Hin Hempty) as Ht.
    destruct (translate_asserted _ _ _ _ _) as [[k|]|] eqn:E; cbn; [by destruct (Ht k)|done..].
  - intros ->. unfold build_ranges. cbn [translate_asserted]. by rewrite (proj2 (Z.ltb_ge _ _)) by lia.
Qed.

(** The range of a function's entry.  For an entry with the address of a
    function and a transform that was made for the module, neither reading
    the entry nor writing its range panics or runs on: either no function
    starts at or before the address, and nothing is written, or the range is
    the whole body of the function that starts last before it, and the scope
    for the entries inside is that function's range in the module. *)
Theorem subprogram_range_spec (at_ : list FunctionAddressMap) (cso addr : Z) (addr_tr : AddressTransform)
    (entry : Die) (fuel : nat)
    (Hnew : AddressTransform_new at_ cso = Ret addr_tr)
    (Hbodies : ∀ ft, ft ∈ at_ → 0 ≤ body_offset ft ∧ 0 ≤ body_len ft ∧ body_offset ft + body_len ft < 2 ^ 63)
    (Hlow : DW_AT_low_pc entry = Ok (Some (Addr addr))) :
  ∃ b, from_subprogram_die rnglists addr_tr entry = Ret (Ok b) ∧
    ((b = Undefined ∧ build hash_iter fuel addr_tr b = Ret (Some []) ∧
      ∀ k, k ∈ keys (at_func addr_tr) → addr < k) ∨
     ∃ func ft, b = Function_ (ft_index func) ∧ zget at_ (ft_index func) = Some ft ∧
       ft_start func ≤ addr ∧ (∀ k, k ∈ keys (at_func addr_tr) → k ≤ addr → k ≤ ft_start func) ∧
       build hash_iter fuel addr_tr b =
         Ret (Some [SetLowPc (Symbol (ft_index func) (body_offset ft)); SetHighPc (body_len ft)]) ∧
       get_ranges addr_tr b =
         Ret [(get_wasm_code_offset (start_srcloc ft) cso, get_wasm_code_offset (end_srcloc ft) cso)]).
Proof using H0.
  destruct (AddressTransform_new_ok _ _ _ Hnew) as [Hmap Hok].
  unfold from_subprogram_die. rewrite Hlow. unfold find_func_index.
  destruct (find_func_spec at_ cso addr_tr addr Hok) as [[-> Hno]|(func & -> & Hin & Hle & Hmax)];
    rewrite !bind_Ret_l; cbn [option_map].
  { eexists. split; [done|]. left. by split_and!. }
  destruct (fo_funcs _ _ _ Hok _ _ Hin) as (_ & ft & Hz & _). eexists. split; [done|]. right. exists func, ft.
  pose proof (Hbodies ft (zget_elem_of _ _ _ Hz)) as Hb.
  assert (Hm : zindex (at_map addr_tr) (ft_index func) = Ret (mkFunctionMap (body_offset ft) (body_len ft)
    (get_wasm_code_offset (start_srcloc ft) cso) (get_wasm_code_offset (end_srcloc ft) cso)
    (omap (λ t, if is_default (srcloc t) then None
                else Some (mkAddressMap (code_offset t) (get_wasm_code_offset (srcloc t) cso))) (instructions ft)))).
  { apply zindex_Ret. rewrite Hmap. unfold build_function_addr_map. by rewrite zget_map, Hz. }
  split_and!; [done..| |].
  - cbn [build]. unfold func_range. rewrite Hm, bind_Ret_l. cbn [fm_offset fm_len].
    rewrite op_add_fits, !bind_Ret_l by lia. rewrite op_sub_fits, bind_Ret_l by lia.
    do 3 f_equal; [|f_equal; f_equal; lia]. f_equal. unfold wrap_s.
    rewrite Z.mod_small, (proj2 (Z.ltb_lt _ _)) by (cbn; lia). done.
  - cbn [get_ranges]. unfold func_source_range. by rewrite Hm, !bind_Ret_l.
Qed.
End properties.

(** ** Examples *)

Definition toy_die : Die := mkDie (Ok None) (Ok (Some (Addr 14))) (Ok None).

Lemma empty_range_not_ignored_witness :
  @build_ranges scan_search map_to_list 10 two_ranges_transform (Ranges [(14, 14)]) = Panic.
Proof.
  apply (@empty_range_not_ignored scan_search map_to_list (λ _, Ok [Ok (14, 14)]) 0 [(14, 14)] 14 14 10
    two_ranges_transform eq_refl (list_elem_of_here _ _) ltac:(lia)). done.
Defined.

Lemma subprogram_range_spec_witness :
  @build scan_search map_to_list 10 two_ranges_transform (Function_ 0) =
    Ret (Some [SetLowPc (Symbol 0 0); SetHighPc 30]).
Proof.
  destruct (@subprogram_range_spec scan_search scan_search_laws map_to_list (λ _, Ok []) [create_two_ranges_func 11]
    1 14 two_ranges_transform toy_die 10 two_ranges_transform_new) as (b & Hb & Hc).
  - intros ft ->%list_elem_of_singleton. cbn. lia.
  - reflexivity.
  - destruct Hc as [(_ & _ & Hk)|(func & ft & -> & Hz & _ & _ & E & _)].
    + specialize (Hk 10 (list_elem_of_here _ _)). lia.
    + apply zget_singleton in Hz as [Hi ->]. rewrite Hi in E. exact E.
Defined.
