(* ===== verification/DebugGc.v ===== *)
(** * Which debugging entries to keep

    Models [wasmtime-debug/src/gc.rs]: the graph of the dependencies between
    the entries (DIEs) of the DWARF input, and the set of entries that are
    reachable from functions that were compiled.  The reader of DWARF
    (gimli) is not part of the sources: an input is what the reader yields
    for it, iterators being lists of results. *)

From S2P Require Import Prelude AddressTransform AddressTransformProofs.
Local Open Scope Z_scope.

(** ** The reader's data *)

(** [gimli::UnitSectionOffset] *)
Inductive UnitSectionOffset := DebugInfoOffset (o : Z) | DebugTypesOffset (o : Z).
#[export] Instance UnitSectionOffset_eq_dec : EqDecision UnitSectionOffset.
Proof. solve_decision. Defined.
#[export] Instance UnitSectionOffset_countable : Countable UnitSectionOffset.
Proof.
  refine (inj_countable' (λ o, match o with DebugInfoOffset o => (true, o) | DebugTypesOffset o => (false, o) end)
    (λ '(b, o), if b : bool then DebugInfoOffset o else DebugTypesOffset o) _); by intros [].
Defined.

(** The tags that the code distinguishes. *)
Inductive DwTag :=
| DW_TAG_variable | DW_TAG_constant | DW_TAG_inlined_subroutine | DW_TAG_lexical_block
| DW_TAG_label | DW_TAG_with_stmt | DW_TAG_try_block | DW_TAG_catch_block
| DW_TAG_template_type_parameter | DW_TAG_member | DW_TAG_formal_parameter
| DW_TAG_subprogram | DW_TAG_other (code : Z).

Inductive AttributeValue :=
| UnitRef (o : Z) | DebugInfoRef (o : Z) | RangeListsRef (o : Z) | DebugRngListsIndex (i : Z)
| Addr (a : Z) | OtherAttribute.

Inductive RawRngListEntry :=
| AddressOrOffsetPair (begin end_ : Z)
| BaseAddress (addr : Z)
| BaseAddressx (index : Z)
| StartxEndx (begin end_ : Z)
| StartxLength (begin length : Z)
| OffsetPair (begin end_ : Z)
| StartEnd (begin end_ : Z)
| StartLength (begin length : Z).

Inductive ReadError := mkReadError (code : Z).

(** An entry: its offset in the unit, its attributes, and what
    [attr_value] answers for the two names that the code asks for. *)
Record Entry := mkEntry {
  e_offset : Z;
  e_tag : DwTag;
  e_attrs : list (result AttributeValue ReadError);
  e_DW_AT_ranges : result (option AttributeValue) ReadError;
  e_DW_AT_low_pc : result (option AttributeValue) ReadError;
}.
#[warnings="-register-all"]
Inductive EntriesTreeNode :=
| Node (entry : Entry) (children : list (result EntriesTreeNode ReadError)).
Definition node_entry (n : EntriesTreeNode) : Entry := match n with Node e _ => e end.
Definition node_children (n : EntriesTreeNode) := match n with Node _ l => l end.

Record Unit_ := mkUnit {
  to_unit_section_offset : Z → UnitSectionOffset;
  ranges_offset : Z → result Z ReadError;
  raw_ranges : Z → result (list (result RawRngListEntry ReadError)) ReadError;
  address : Z → result Z ReadError;
  unit_root : result EntriesTreeNode ReadError;
}.
(** [dwarf.units()], each with the result of [dwarf.unit(header)]. *)
Definition Dwarf := list (result (result Unit_ ReadError) ReadError).

(** [x?] *)
Definition try_bind {A B} (m : res (result A ReadError)) (f : A → res (result B ReadError))
    : res (result B ReadError) :=
  r ← m; match r with Ok a => f a | Err e => Ret (Err e) end.
Notation "x <-? m ; f" := (try_bind m (λ x, f)) (at level 100, m at next level, f at level 200, right associativity).

(** [while let Some(x) = it.next()? { .. }] *)
Definition for_each {A S} (f : S → A → res (result S ReadError))
    : S → list (result A ReadError) → res (result S ReadError) :=
  fix go s l :=
    match l with
    | [] => Ret (Ok s)
    | Err e :: _ => Ret (Err e)
    | Ok a :: l => s <-? f s a; go s l
    end.

(** ** [gc.rs] *)

Record Dependencies := mkDependencies {
  edges : gmap UnitSectionOffset (gset UnitSectionOffset);
  roots : gset UnitSectionOffset;
}.
Definition Dependencies_new : Dependencies := mkDependencies ∅ ∅.

Definition add_edge (self : Dependencies) (a b : UnitSectionOffset) : Dependencies :=
  match edges self !! a with
  | Some o => mkDependencies (<[a := {[ b ]} ∪ o]> (edges self)) (roots self)
  | None => mkDependencies (<[a := {[ b ]}]> (edges self)) (roots self)
  end.

Definition add_root (self : Dependencies) (root : UnitSectionOffset) : Dependencies :=
  mkDependencies (edges self) ({[ root ]} ∪ roots self).

Section reachable.
(** The order in which a [HashSet] is iterated is not specified. *)
Context (set_iter : gset UnitSectionOffset → list UnitSectionOffset).

(** The body of both loops: the dependencies of [i] that are new are marked
    and pushed.  The head of the list is the end of the [Vec]. *)
Definition visit (self : Dependencies) (st : gset UnitSectionOffset * list UnitSectionOffset)
    (i : UnitSectionOffset) : gset UnitSectionOffset * list UnitSectionOffset :=
  match edges self !! i with
  | Some deps =>
      fold_left (λ '(reachable, queue) j,
        if bool_decide (j ∈ reachable) then (reachable, queue)
        else ({[ j ]} ∪ reachable, j :: queue)) (set_iter deps) st
  | None => st
  end.

(** [while let Some(i) = queue.pop()]; [None]: the fuel is used up. *)
Fixpoint reach_loop (fuel : nat) (self : Dependencies) (reachable : gset UnitSectionOffset)
    (queue : list UnitSectionOffset) : option (gset UnitSectionOffset) :=
  match queue with
  | [] => Some reachable
  | i :: queue =>
      match fuel with
      | O => None
      | S fuel =>
          let '(reachable, queue) := visit self (reachable, queue) i in
          reach_loop fuel self reachable queue
      end
  end.

Definition get_reachable (fuel : nat) (self : Dependencies) : option (gset UnitSectionOffset) :=
  let '(reachable, queue) := fold_left (visit self) (set_iter (roots self)) (roots self, []) in
  reach_loop fuel self reachable queue.
End reachable.

Definition has_die_back_edge (die : Entry) : bool :=
  match e_tag die with
  | DW_TAG_variable | DW_TAG_constant | DW_TAG_inlined_subroutine | DW_TAG_lexical_block
  | DW_TAG_label | DW_TAG_with_stmt | DW_TAG_try_block | DW_TAG_catch_block
  | DW_TAG_template_type_parameter | DW_TAG_member | DW_TAG_formal_parameter => true
  | _ => false
  end.

Section build.
Context `{BinarySearch} (at_ : AddressTransform).

(** The loop over the raw ranges. *)
Fixpoint any_range_valid (unit : Unit_) (has_valid_base : option bool)
    (it : list (result RawRngListEntry ReadError)) : res (result bool ReadError) :=
  match it with
  | [] => Ret (Ok false)
  | Err e :: _ => Ret (Err e)
  | Ok range :: it =>
      let check addr :=
        b ← can_translate_address at_ addr;
        if b : bool then Ret (Ok true) else any_range_valid unit has_valid_base it in
      match range with
      | AddressOrOffsetPair begin _ =>
          match has_valid_base with
          | Some base => if base then Ret (Ok true) else any_range_valid unit has_valid_base it
          | None => check begin
          end
      | StartEnd begin _ | StartLength begin _ => check begin
      | StartxEndx begin _ | StartxLength begin _ =>
          addr <-? Ret (address unit begin); check addr
      | BaseAddress addr =>
          b ← can_translate_address at_ addr; any_range_valid unit (Some b) it
      | BaseAddressx addr =>
          addr <-? Ret (address unit addr);
          b ← can_translate_address at_ addr; any_range_valid unit (Some b) it
      | OffsetPair _ _ => any_range_valid unit has_valid_base it
      end
  end.

Definition has_valid_code_range (die : Entry) (unit : Unit_) : res (result bool ReadError) :=
  match e_tag die with
  | DW_TAG_subprogram =>
      ranges_attr <-? Ret (e_DW_AT_ranges die);
      match ranges_attr with
      | Some ranges_attr =>
          let ranges_at offset :=
            low_pc <-? Ret (e_DW_AT_low_pc die);
            has_valid_base ← match low_pc with
              | Some (Addr low_pc) => b ← can_translate_address at_ low_pc; Ret (Some b)
              | _ => Ret None
              end;
            it <-? Ret (raw_ranges unit offset);
            any_range_valid unit has_valid_base it in
          match ranges_attr with
          | RangeListsRef val => ranges_at val
          | DebugRngListsIndex index => val <-? Ret (ranges_offset unit index); ranges_at val
          | _ => Ret (Ok false)
          end
      | None =>
          low_pc <-? Ret (e_DW_AT_low_pc die);
          match low_pc with
          | Some (Addr a) => b ← can_translate_address at_ a; Ret (Ok b)
          | _ => Ret (Ok false)
          end
      end
  | _ => Ret (Ok false)
  end.

(** The entry that an attribute refers to. *)
Definition build_attr_dependencies (attr : AttributeValue) (offset : UnitSectionOffset)
    (unit : Unit_) (deps : Dependencies) : Dependencies :=
  match attr with
  | UnitRef val => add_edge deps offset (to_unit_section_offset unit val)
  | DebugInfoRef val => add_edge deps offset (DebugInfoOffset val)
  | _ => deps
  end.

Fixpoint build_die_dependencies (die : EntriesTreeNode) (unit : Unit_) (deps : Dependencies)
    : res (result Dependencies ReadError) :=
  match die with
  | Node entry children =>
      let offset := to_unit_section_offset unit (e_offset entry) in
      deps <-? for_each (λ deps attr, Ret (Ok (build_attr_dependencies attr offset unit deps)))
                 deps (e_attrs entry);
      for_each (λ deps child,
        let child_entry := node_entry child in
        let child_offset := to_unit_section_offset unit (e_offset child_entry) in
        let deps := add_edge deps child_offset offset in
        let deps := if has_die_back_edge child_entry then add_edge deps offset child_offset else deps in
        valid <-? has_valid_code_range child_entry unit;
        let deps := if valid : bool then add_root deps child_offset else deps in
        build_die_dependencies child unit deps) deps children
  end.

Definition build_unit_dependencies (header : result Unit_ ReadError) (deps : Dependencies)
    : res (result Dependencies ReadError) :=
  unit <-? Ret header;
  root <-? Ret (unit_root unit);
  build_die_dependencies root unit deps.

Definition build_dependencies (dwarf : Dwarf) : res (result Dependencies ReadError) :=
  for_each (λ deps header, build_unit_dependencies header deps) Dependencies_new dwarf.
End build.

(** ** Reachability *)

Section reach.
Context (set_iter : gset UnitSectionOffset → list UnitSectionOffset).
Context (Hiter : ∀ s, set_iter s ≡ₚ elements s).
Context (self : Dependencies).
Set Default Proof Using "Type*".

(** [b] is a dependency of [a]. *)
Definition edge (d : Dependencies) (a b : UnitSectionOffset) : Prop :=
  ∃ deps, edges d !! a = Some deps ∧ b ∈ deps.

Lemma elem_of_set_iter s x : x ∈ set_iter s ↔ x ∈ s.
Proof. rewrite Hiter. apply elem_of_elements. Qed.

(** The inner loop: [new] are the elements that it marks and pushes. *)
Lemma visit_list_spec l : ∀ (R : gset UnitSectionOffset) q,
  ∃ new (R' : gset UnitSectionOffset), fold_left (λ '(reachable, queue) j,
      if bool_decide (j ∈ reachable) then (reachable, queue)
      else ({[ j ]} ∪ reachable, j :: queue)) l (R, q) = (R', new ++ q) ∧
    (∀ x, x ∈ R' ↔ x ∈ R ∨ x ∈ new) ∧ (∀ x, x ∈ l → x ∈ R') ∧ (∀ x, x ∈ new → x ∈ l) ∧
    NoDup new ∧ (∀ x, x ∈ new → x ∉ R).
Proof using.
  clear. induction l as [|j l IH]; intros R q; cbn.
  { exists [], R. split_and!; [done|set_solver..|constructor|set_solver]. }
  case_bool_decide as Hj.
  - destruct (IH R q) as (new & R' & -> & HR & Hl & Hn & Hnd & Hnew).
    exists new, R'. split_and!; try done; set_solver.
  - destruct (IH ({[ j ]} ∪ R) (j :: q)) as (new & R' & -> & HR & Hl & Hn & Hnd & Hnew).
    exists (new ++ [j]), R'. rewrite <-app_assoc. split_and!; [done|set_solver..| |set_solver].
    apply NoDup_app. split_and!; [done|set_solver|apply NoDup_singleton].
Qed.

Lemma visit_spec R q i :
  ∃ new R', visit set_iter self (R, q) i = (R', new ++ q) ∧
    (∀ x, x ∈ R' ↔ x ∈ R ∨ x ∈ new) ∧ (∀ x, edge self i x → x ∈ R') ∧
    (∀ x, x ∈ new → edge self i x) ∧ NoDup new ∧ (∀ x, x ∈ new → x ∉ R).
Proof.
  unfold visit, edge. destruct (edges self !! i) as [deps|] eqn:E.
  - destruct (visit_list_spec (set_iter deps) R q) as (new & R' & -> & HR & Hl & Hn & Hnd & Hnew).
    exists new, R'. split_and!; try done.
    + intros x (deps' & [= <-] & Hx). by apply Hl, elem_of_set_iter.
    + intros x Hx. exists deps. split; [done|]. by apply elem_of_set_iter, Hn.
  - exists [], R. split_and!; [done|set_solver|naive_solver|set_solver|constructor|set_solver].
Qed.

(** What is marked is reachable, and what is marked is pending or has its
    dependencies marked. *)
Record reach_inv (R : gset UnitSectionOffset) (pending : list UnitSectionOffset) : Prop := {
  ri_roots : roots self ⊆ R;
  ri_sound : ∀ x, x ∈ R → ∃ r, r ∈ roots self ∧ rtc (edge self) r x;
  ri_pending : ∀ x, x ∈ pending → x ∈ R;
  ri_done : ∀ x y, x ∈ R → x ∉ pending → edge self x y → y ∈ R;
}.

(** All dependencies that occur in the graph. *)
Definition targets (d : Dependencies) : gset UnitSectionOffset := ⋃ (map_to_list (edges d)).*2.

Lemma edge_target a b : edge self a b → b ∈ targets self.
Proof.
  intros (deps & Ha & Hb). apply elem_of_union_list. exists deps. split; [|done].
  apply list_elem_of_fmap. exists (a, deps). split; [done|]. by apply elem_of_map_to_list.
Qed.

(** Each entry enters the queue at most once. *)
Definition work (R : gset UnitSectionOffset) (q : list UnitSectionOffset) : nat :=
  size (targets self ∖ R) + length q.

Lemma visit_inv R i rest q :
  reach_inv R (i :: rest ++ q) →
  ∃ new R', visit set_iter self (R, q) i = (R', new ++ q) ∧ reach_inv R' (rest ++ new ++ q) ∧
    work R' (new ++ q) = work R q.
Proof.
  intros [Hr Hs Hp Hd]. destruct (visit_spec R q i) as (new & R' & E & HR & Hall & Hn & Hnd & Hnew).
  exists new, R'. split; [done|]. split.
  2:{ unfold work. rewrite length_app.
      assert (size (targets self ∖ R) = (size (targets self ∖ R') + length new)%nat) as Hsz; [|lia].
      rewrite <-(size_list_to_set (C := gset UnitSectionOffset) new), <-size_union by (done || set_solver).
      f_equal. apply set_eq. intros x.
      rewrite elem_of_union, !elem_of_difference, HR, elem_of_list_to_set.
      destruct (decide (x ∈ new)) as [Hx|Hx]; [|tauto].
      pose proof (edge_target _ _ (Hn x Hx)). naive_solver. }
  split.
  - intros x Hx. apply HR. left. by apply Hr.
  - intros x [Hx|Hx]%HR; [by apply Hs|]. destruct (Hs i) as (r & Hr' & Hri); [apply Hp; left|].
    exists r. split; [done|]. eapply rtc_r; [done|by apply Hn].
  - intros x Hx. apply HR. rewrite !elem_of_app in Hx.
    destruct Hx as [Hx|[Hx|Hx]]; [left; apply Hp; set_solver|by right|left; apply Hp; set_solver].
  - intros x y Hx Hnp He. rewrite !elem_of_app in Hnp. destruct (decide (x = i)) as [->|Hne].
    + by apply Hall.
    + apply HR. apply HR in Hx as [Hx|Hx]; [|naive_solver]. left. apply (Hd x); [done|set_solver|done].
Qed.

Lemma roots_loop_inv l : ∀ R q,
  reach_inv R (l ++ q) →
  ∃ R' q', fold_left (visit set_iter self) l (R, q) = (R', q') ∧ reach_inv R' q' ∧
    work R' q' = work R q.
Proof.
  induction l as [|i l IH]; intros R q Hi; cbn [fold_left]; [by exists R, q|].
  destruct (visit_inv R i l q Hi) as (new & R' & -> & Hi' & <-). by apply IH.
Qed.

(** Each turn of the second loop takes an entry from the queue. *)
Lemma reach_loop_spec fuel : ∀ R q,
  reach_inv R q → (work R q ≤ fuel)%nat →
  ∃ R', reach_loop set_iter fuel self R q = Some R' ∧ reach_inv R' [].
Proof.
  induction fuel as [|fuel IH]; intros R [|i q] Hi Hf; cbn [reach_loop]; try (by exists R).
  { unfold work in Hf. cbn in Hf. lia. }
  destruct (visit_inv R i [] q Hi) as (new & R' & -> & Hi' & Hw).
  apply IH; [done|]. rewrite Hw. unfold work in *. cbn in Hf. lia.
Qed.

Lemma get_reachable_outcome fuel :
  (size (targets self) ≤ fuel)%nat →
  ∃ R, get_reachable set_iter fuel self = Some R ∧
    ∀ x, x ∈ R ↔ ∃ r, r ∈ roots self ∧ rtc (edge self) r x.
Proof.
  intros Hf. unfold get_reachable.
  destruct (roots_loop_inv (set_iter (roots self)) (roots self) []) as (R & q & -> & Hi & Hw).
  { split; [done|..].
    - intros x Hx. by exists x.
    - intros x. by rewrite app_nil_r, elem_of_set_iter.
    - intros x y Hx. by rewrite app_nil_r, elem_of_set_iter. }
  destruct (reach_loop_spec fuel R q Hi) as (R' & -> & [Hr Hs _ Hd]).
  { rewrite Hw. unfold work. cbn. rewrite Nat.add_0_r. etrans; [|done].
    apply subseteq_size. set_solver. }
  exists R'. split; [done|]. intros x. split; [by apply Hs|]. intros (r & Hroot & Hrx).
  apply Hr in Hroot. induction Hrx as [|r y z Hry Hyz IH]; [done|].
  apply IH. apply (Hd r); [done|set_solver|done].
Qed.

(** [get_reachable] returns, with no more turns of its loop than there are
    dependencies in the graph, exactly the entries that are reachable from
    the roots, in whatever order sets are iterated. *)
Theorem get_reachable_spec (fuel : nat) (Hfuel : (size (targets self) ≤ fuel)%nat) :
  ∃ R, get_reachable set_iter fuel self = Some R ∧
    ∀ x, x ∈ R ↔ ∃ r, r ∈ roots self ∧ rtc (edge self) r x.
Proof. by apply get_reachable_outcome. Qed.
End reach.

(** ** The graph that is built *)

(** Induction on trees of entries. *)
Lemma node_ind (P : EntriesTreeNode → Prop)
    (H : ∀ e l, (∀ c, Ok c ∈ l → P c) → P (Node e l)) : ∀ n, P n.
Proof.
  fix IH 1. intros [e l]. apply H.
  assert (Hl : Forall (λ r, match r with Ok c => P c | Err _ => True end) l).
  { induction l as [|[c|] l IHl]; constructor; [apply IH|exact IHl|exact I|exact IHl]. }
  intros c Hc. exact (proj1 (Forall_forall _ _) Hl (Ok c) Hc).
Qed.

Lemma for_each_cons {A S} (f : S → A → res (result S ReadError)) s a l :
  for_each f s (Ok a :: l) = try_bind (f s a) (λ s, for_each f s l).
Proof. done. Qed.

Lemma try_bind_Ok {A B} (m : res (result A ReadError)) (f : A → res (result B ReadError)) b :
  try_bind m f = Ret (Ok b) ↔ ∃ a, m = Ret (Ok a) ∧ f a = Ret (Ok b).
Proof. destruct m as [[]|]; cbn; naive_solver. Qed.

Lemma try_bind_total {A B} (m : res (result A ReadError)) (f : A → res (result B ReadError)) :
  (∃ r, m = Ret r) → (∀ a, ∃ r, f a = Ret r) → ∃ r, try_bind m f = Ret r.
Proof. intros [[a|e] ->] Hf; cbn; [apply Hf|by eexists]. Qed.

Lemma for_each_total {A S} (f : S → A → res (result S ReadError)) l : ∀ s,
  (∀ s a, Ok a ∈ l → ∃ r, f s a = Ret r) → ∃ r, for_each f s l = Ret r.
Proof.
  induction l as [|[a|e] l IH]; intros s Hf; [by eexists| |by eexists].
  rewrite for_each_cons. apply try_bind_total; [apply Hf; left|]. intros s'. apply IH.
  intros s2 b Hb. apply Hf. by right.
Qed.

(** [d'] is [d] with the edges [E] and the roots [R]. *)
Definition extends (d d' : Dependencies) (E : UnitSectionOffset → UnitSectionOffset → Prop)
    (R : UnitSectionOffset → Prop) : Prop :=
  (∀ a b, edge d' a b ↔ edge d a b ∨ E a b) ∧ (∀ r, r ∈ roots d' ↔ r ∈ roots d ∨ R r).

Lemma extends_trans d1 d2 d3 E1 E2 R1 R2 (E : _ → _ → Prop) (R : _ → Prop) :
  extends d1 d2 E1 R1 → extends d2 d3 E2 R2 →
  (∀ a b, E a b ↔ E1 a b ∨ E2 a b) → (∀ r, R r ↔ R1 r ∨ R2 r) → extends d1 d3 E R.
Proof.
  intros [He1 Hr1] [He2 Hr2] HE HR. split; intros *; [rewrite He2, He1, HE|rewrite Hr2, Hr1, HR]; tauto.
Qed.

Lemma extends_comp d1 d2 d3 E1 E2 R1 R2 :
  extends d1 d2 E1 R1 → extends d2 d3 E2 R2 →
  extends d1 d3 (λ a b, E1 a b ∨ E2 a b) (λ r, R1 r ∨ R2 r).
Proof. intros H1 H2. by eapply extends_trans. Qed.

Lemma add_edge_extends d a b :
  extends d (add_edge d a b) (λ x y, x = a ∧ y = b) (λ _, False).
Proof.
  unfold add_edge, extends, edge.
  destruct (edges d !! a) as [o|] eqn:E; (split; [|cbn; tauto]); intros x y; cbn;
    (destruct (decide (x = a)) as [->|Hne]; [rewrite lookup_insert_eq|rewrite lookup_insert_ne by done]);
    rewrite ?E; [|naive_solver| |naive_solver].
  - split; [intros (? & [= <-] & Hy); set_solver|].
    intros [(? & [= <-] & Hy)|[_ ->]]; eexists; (split; [done|set_solver]).
  - split; [intros (? & [= <-] & Hy); set_solver|]. intros [(? & ? & _)|[_ ->]]; [done|].
    eexists; split; [done|set_solver].
Qed.

Lemma add_root_extends d r : extends d (add_root d r) (λ _ _, False) (λ x, x = r).
Proof. split; intros *; [unfold edge; cbn; tauto|cbn; set_solver]. Qed.

Lemma extends_refl d : extends d d (λ _ _, False) (λ _, False).
Proof. split; intros *; tauto. Qed.

Lemma for_each_extends {A} (f : Dependencies → A → res (result Dependencies ReadError))
    (E : A → UnitSectionOffset → UnitSectionOffset → Prop) (R : A → UnitSectionOffset → Prop) l :
  ∀ d d',
  (∀ d a d', Ok a ∈ l → f d a = Ret (Ok d') → extends d d' (E a) (R a)) →
  for_each f d l = Ret (Ok d') →
  extends d d' (λ x y, ∃ a, Ok a ∈ l ∧ E a x y) (λ r, ∃ a, Ok a ∈ l ∧ R a r).
Proof.
  induction l as [|[a|e] l IH]; intros d d' Hf Hl; [| |discriminate Hl].
  { injection Hl as <-. eapply extends_trans; [apply extends_refl..| |]; set_solver. }
  rewrite for_each_cons in Hl. apply try_bind_Ok in Hl as (d1 & H1 & Hl).
  eapply extends_trans.
  - apply (Hf d a d1); [left|done].
  - apply (IH d1 d'); [|done]. intros d2 b d3 Hb. apply Hf. by right.
  - intros x y. setoid_rewrite elem_of_cons. naive_solver.
  - intros r. setoid_rewrite elem_of_cons. naive_solver.
Qed.

Section graph.
Context `{BinarySearchLaws} (at_ : AddressTransform).
Set Default Proof Using "Type*".

Section unit.
Context (unit : Unit_).
Notation offset_of n := (to_unit_section_offset unit (e_offset (node_entry n))).

(** The entry that an attribute refers to. *)
Definition attr_target (v : AttributeValue) : option UnitSectionOffset :=
  match v with
  | UnitRef val => Some (to_unit_section_offset unit val)
  | DebugInfoRef val => Some (DebugInfoOffset val)
  | _ => None
  end.

(** The dependencies in a tree of entries: an entry needs what its attributes
    refer to, its parent, and those of its children that describe it. *)
Inductive tree_edge : EntriesTreeNode → UnitSectionOffset → UnitSectionOffset → Prop :=
| te_attr n v t : Ok v ∈ e_attrs (node_entry n) → attr_target v = Some t → tree_edge n (offset_of n) t
| te_parent n c : Ok c ∈ node_children n → tree_edge n (offset_of c) (offset_of n)
| te_back n c : Ok c ∈ node_children n → has_die_back_edge (node_entry c) = true →
    tree_edge n (offset_of n) (offset_of c)
| te_child n c a b : Ok c ∈ node_children n → tree_edge c a b → tree_edge n a b.

(** The roots: entries of functions whose code was compiled. *)
Inductive tree_root : EntriesTreeNode → UnitSectionOffset → Prop :=
| tr_here n c : Ok c ∈ node_children n →
    has_valid_code_range at_ (node_entry c) unit = Ret (Ok true) → tree_root n (offset_of c)
| tr_child n c r : Ok c ∈ node_children n → tree_root c r → tree_root n r.

Lemma attrs_extend e d d' :
  let offset := to_unit_section_offset unit (e_offset e) in
  for_each (λ deps attr, Ret (Ok (build_attr_dependencies attr offset unit deps))) d (e_attrs e)
    = Ret (Ok d') →
  extends d d' (λ a b, ∃ v, Ok v ∈ e_attrs e ∧ a = offset ∧ attr_target v = Some b) (λ _, False).
Proof.
  intros offset Hl. eapply (for_each_extends _ (λ v a b, a = offset ∧ attr_target v = Some b)
    (λ _ _, False)) in Hl.
  - destruct Hl as [He Hr]. split; [done|]. intros r. rewrite Hr. naive_solver.
  - intros d1 v d2 _ [= <-]. unfold build_attr_dependencies. destruct v; cbn;
      try (eapply extends_trans; [apply extends_refl..| |]; naive_solver);
      (eapply extends_trans; [apply add_edge_extends|apply extends_refl| |]; naive_solver).
Qed.

Lemma build_die_extends n : ∀ d d',
  build_die_dependencies at_ n unit d = Ret (Ok d') →
  extends d d' (tree_edge n) (tree_root n).
Proof.
  induction n as [e l IH] using node_ind. intros d d' Hb. cbn [build_die_dependencies] in Hb.
  apply try_bind_Ok in Hb as (d1 & Ha & Hc). apply attrs_extend in Ha.
  apply (for_each_extends _
    (λ c a b, a = offset_of c ∧ b = to_unit_section_offset unit (e_offset e) ∨
       (a = to_unit_section_offset unit (e_offset e) ∧ b = offset_of c ∧
          has_die_back_edge (node_entry c) = true) ∨ tree_edge c a b)
    (λ c r, r = offset_of c ∧ has_valid_code_range at_ (node_entry c) unit = Ret (Ok true) ∨
       tree_root c r)) in Hc.
  - eapply extends_trans; [exact Ha|exact Hc|..].
    + intros a b. split.
      * inversion 1; subst; cbn in *; naive_solver.
      * intros [(v & Hv & -> & Ht)|(c & Hin & [[-> ->]|[(-> & -> & Hbk)|Hte]])].
        -- exact (te_attr (Node e l) v b Hv Ht).
        -- exact (te_parent (Node e l) c Hin).
        -- exact (te_back (Node e l) c Hin Hbk).
        -- exact (te_child (Node e l) c a b Hin Hte).
    + intros r. split.
      * inversion 1; subst; cbn in *; naive_solver.
      * intros [[]|(c & Hin & [[-> Hv]|Htr])];
          [exact (tr_here (Node e l) c Hin Hv)|exact (tr_child (Node e l) c r Hin Htr)].
  - intros d2 c d3 Hin Hb. apply try_bind_Ok in Hb as (valid & Hv & Hb).
    apply (IH c Hin) in Hb. set (off := to_unit_section_offset unit (e_offset e)) in *.
    pose proof (add_edge_extends d2 (offset_of c) off) as H1.
    set (d4 := add_edge d2 (offset_of c) off) in *.
    assert (H2 : extends d4 (if has_die_back_edge (node_entry c) then add_edge d4 off (offset_of c) else d4)
      (λ a b, a = off ∧ b = offset_of c ∧ has_die_back_edge (node_entry c) = true) (λ _, False)).
    { destruct (has_die_back_edge (node_entry c));
        (eapply extends_trans; [|apply extends_refl| |]; [first [apply add_edge_extends|apply extends_refl]|naive_solver..]). }
    set (d5 := if has_die_back_edge (node_entry c) then add_edge d4 off (offset_of c) else d4) in *.
    assert (H3 : extends d5 (if valid then add_root d5 (offset_of c) else d5) (λ _ _, False)
      (λ r, r = offset_of c ∧ valid = true)).
    { destruct valid; [|eapply extends_trans; [apply extends_refl..| |]; naive_solver].
      eapply extends_trans; [apply add_root_extends|apply extends_refl| |]; naive_solver. }
    eapply extends_trans; [exact (extends_comp _ _ _ _ _ _ _ H1 H2)|
      exact (extends_comp _ _ _ _ _ _ _ H3 Hb)|..].
    + naive_solver.
    + rewrite Hv. naive_solver.
Qed.

(** No panic: whether an address can be translated is always answered. *)
Context (Htrans : ∀ addr, ∃ b, can_translate_address at_ addr = Ret b).

Ltac ask addr := let b := fresh "b" in destruct (Htrans addr) as [b ->]; rewrite bind_Ret_l.

Lemma any_range_valid_total it : ∀ base, ∃ r, any_range_valid at_ unit base it = Ret r.
Proof.
  induction it as [|[range|e] it IH]; intros base; cbn [any_range_valid]; [by eexists| |by eexists].
  assert (Hcheck : ∀ addr base, ∃ r,
    (b ← can_translate_address at_ addr;
     if b : bool then Ret (Ok true) else any_range_valid at_ unit base it) = Ret r).
  { intros addr base'. ask addr. destruct b; [by eexists|apply IH]. }
  assert (Hbase : ∀ addr, ∃ r,
    (b ← can_translate_address at_ addr; any_range_valid at_ unit (Some b) it) = Ret r).
  { intros addr. ask addr. apply IH. }
  destruct range; try (apply Hcheck || apply Hbase || apply IH).
  - destruct base as [[]|]; [by eexists|apply IH|apply Hcheck].
  - apply try_bind_total; [by eexists|]. intros a. apply Hbase.
  - apply try_bind_total; [by eexists|]. intros a. apply Hcheck.
  - apply try_bind_total; [by eexists|]. intros a. apply Hcheck.
Qed.

Lemma has_valid_code_range_total e : ∃ r, has_valid_code_range at_ e unit = Ret r.
Proof.
  unfold has_valid_code_range. destruct (e_tag e); try (by eexists).
  apply try_bind_total; [by eexists|]. intros [v|].
  - assert (Hat : ∀ o, ∃ r,
      (low_pc <-? Ret (e_DW_AT_low_pc e);
       has_valid_base ← match low_pc with
         | Some (Addr low_pc) => b ← can_translate_address at_ low_pc; Ret (Some b)
         | _ => Ret None
         end;
       it <-? Ret (raw_ranges unit o); any_range_valid at_ unit has_valid_base it) = Ret r).
    { intros o. apply try_bind_total; [by eexists|]. intros lp.
      assert (Hb : ∃ ob, match lp with
        | Some (Addr low_pc) => b ← can_translate_address at_ low_pc; Ret (Some b)
        | _ => Ret None end = Ret ob).
      { destruct lp as [[]|]; try (by eexists). ask a. by eexists. }
      destruct Hb as [ob ->]. rewrite bind_Ret_l. apply try_bind_total; [by eexists|].
      intros it. apply any_range_valid_total. }
    destruct v; try (by eexists); [apply Hat|]. apply try_bind_total; [by eexists|]. apply Hat.
  - apply try_bind_total; [by eexists|]. intros [[]|]; try (by eexists). ask a. by eexists.
Qed.

Lemma build_die_total n : ∀ d, ∃ r, build_die_dependencies at_ n unit d = Ret r.
Proof.
  induction n as [e l IH] using node_ind. intros d. cbn [build_die_dependencies].
  apply try_bind_total; [apply for_each_total; by eexists|]. intros d1. apply for_each_total.
  intros d2 c Hin. apply try_bind_total; [apply has_valid_code_range_total|]. intros b. by apply IH.
Qed.
End unit.

(** The dependencies and the roots of all units. *)
Definition dwarf_edge (dwarf : Dwarf) (a b : UnitSectionOffset) : Prop :=
  ∃ u n, Ok (Ok u) ∈ dwarf ∧ unit_root u = Ok n ∧ tree_edge u n a b.
Definition dwarf_root (dwarf : Dwarf) (r : UnitSectionOffset) : Prop :=
  ∃ u n, Ok (Ok u) ∈ dwarf ∧ unit_root u = Ok n ∧ tree_root u n r.

Lemma build_dependencies_graph dwarf d :
  build_dependencies at_ dwarf = Ret (Ok d) →
  (∀ a b, edge d a b ↔ dwarf_edge dwarf a b) ∧ (∀ r, r ∈ roots d ↔ dwarf_root dwarf r).
Proof.
  intros Hb. apply (for_each_extends _
    (λ h a b, ∃ u n, h = Ok u ∧ unit_root u = Ok n ∧ tree_edge u n a b)
    (λ h r, ∃ u n, h = Ok u ∧ unit_root u = Ok n ∧ tree_root u n r)) in Hb.
  - destruct Hb as [He Hr]. unfold dwarf_edge, dwarf_root. split.
    + intros a b. rewrite He. unfold edge, Dependencies_new. cbn. setoid_rewrite lookup_empty.
      naive_solver.
    + intros r. rewrite Hr. cbn. set_unfold. naive_solver.
  - intros d1 h d2 _ Hu. unfold build_unit_dependencies in Hu. apply try_bind_Ok in Hu as (u & [= ->] & Hu).
    apply try_bind_Ok in Hu as (n & [= Hn] & Hu). apply build_die_extends in Hu.
    eapply extends_trans; [exact Hu|apply extends_refl| |].
    + intros a b. split; [intros (u' & n' & [= <-] & Hn' & He)|intros [He|[]]; by exists u, n].
      rewrite Hn in Hn'. injection Hn' as <-. by left.
    + intros r. split; [intros (u' & n' & [= <-] & Hn' & Hr)|intros [Hr|[]]; by exists u, n].
      rewrite Hn in Hn'. injection Hn' as <-. by left.
Qed.
End graph.

(** C32: what is kept.  With the address transform of a module the graph is
    built without panicking (a malformed input is a read error), and the
    entries that [get_reachable] then returns are exactly those that are
    reached from the entries of compiled functions by the dependencies of
    the input: from an entry to its parent, to what its attributes refer to,
    and to the children that describe it. *)
Theorem reachable_entries_spec `{BinarySearchLaws} (at_ : AddressTransform)
    (maps : list FunctionAddressMap) (cso : Z) (dwarf : Dwarf)
    (set_iter : gset UnitSectionOffset → list UnitSectionOffset)
    (Hiter : ∀ s, set_iter s ≡ₚ elements s)
    (Hnew : AddressTransform_new maps cso = Ret at_) :
  ∃ r, build_dependencies at_ dwarf = Ret r ∧
  match r with
  | Err _ => True
  | Ok deps => ∀ fuel, (size (targets deps) ≤ fuel)%nat →
      ∃ R, get_reachable set_iter fuel deps = Some R ∧
        ∀ x, x ∈ R ↔ ∃ r, dwarf_root at_ dwarf r ∧ rtc (dwarf_edge dwarf) r x
  end.
Proof.
  assert (Hb : ∃ r, build_dependencies at_ dwarf = Ret r).
  { apply for_each_total. intros d h _. unfold build_unit_dependencies.
    apply try_bind_total; [by eexists|]. intros u.
    apply try_bind_total; [by eexists|]. intros n. apply build_die_total.
    intros addr. by eapply can_translate_address_total. }
  destruct Hb as [[deps|e] Hb]; (eexists; split; [exact Hb|]); [|done]. intros fuel Hf.
  destruct (build_dependencies_graph at_ dwarf deps Hb) as [He Hr].
  destruct (get_reachable_outcome set_iter Hiter deps fuel Hf) as (R & HR & Hx).
  exists R. split; [done|]. intros x. rewrite Hx. split; intros (r & Hroot & Hrtc); exists r.
  - split; [by apply Hr|]. revert Hrtc. apply rtc_subrel. intros a b. apply He.
  - split; [by apply Hr|]. revert Hrtc. apply rtc_subrel. intros a b. apply He.
Qed.

(** ** A small input, for the witnesses

    A unit with the function of the examples of the address transform, a
    variable in it, the type of the variable, and an unused type. *)
Definition ex_entry (o : Z) (tag : DwTag) (attrs : list (result AttributeValue ReadError))
    (low_pc : option AttributeValue) : Entry := mkEntry o tag attrs (Ok None) (Ok low_pc).
Definition ex_unit : Unit_ :=
  mkUnit DebugInfoOffset (λ _, Err (mkReadError 0)) (λ _, Err (mkReadError 0)) (λ _, Err (mkReadError 0))
    (Ok (Node (ex_entry 11 (DW_TAG_other 0x11) [] None)
      [Ok (Node (ex_entry 20 DW_TAG_subprogram [] (Some (Addr 12)))
         [Ok (Node (ex_entry 30 DW_TAG_variable [Ok (UnitRef 40)] None) [])]);
       Ok (Node (ex_entry 40 (DW_TAG_other 0x24) [] None) []);
       Ok (Node (ex_entry 50 (DW_TAG_other 0x24) [] None) [])])).

Definition ex_deps : Dependencies :=
  match @build_dependencies scan_search two_ranges_transform [Ok (Ok ex_unit)] with
  | Ret (Ok d) => d
  | _ => Dependencies_new
  end.

Lemma get_reachable_spec_witness :
  ∃ R, get_reachable elements 5 ex_deps = Some R ∧
    (DebugInfoOffset 40 ∈ R ↔
     ∃ r, r ∈ roots ex_deps ∧ rtc (edge ex_deps) r (DebugInfoOffset 40)).
Proof.
  destruct (get_reachable_spec elements (λ s, reflexivity _) ex_deps 5) as (R & E & HR).
  - vm_compute. lia.
  - exists R. split; [exact E|apply HR].
Defined.

Example ex_reachable :
  option_map (λ R, elements (R : gset UnitSectionOffset) ) (get_reachable elements 5 ex_deps)
  = option_map elements (Some ({[ DebugInfoOffset 11; DebugInfoOffset 20; DebugInfoOffset 30;
      DebugInfoOffset 40 ]} : gset UnitSectionOffset)).
Proof. vm_compute. reflexivity. Qed.

Lemma reachable_entries_spec_witness :
  ∃ r, @build_dependencies scan_search two_ranges_transform [Ok (Ok ex_unit)] = Ret r ∧
  match r with
  | Err _ => True
  | Ok deps => ∀ fuel, (size (targets deps) ≤ fuel)%nat →
      ∃ R, get_reachable elements fuel deps = Some R ∧
        ∀ x, x ∈ R ↔ ∃ r, @dwarf_root scan_search two_ranges_transform [Ok (Ok ex_unit)] r ∧
          rtc (dwarf_edge [Ok (Ok ex_unit)]) r x
  end.
Proof.
  exact (@reachable_entries_spec scan_search scan_search_laws two_ranges_transform
    [create_two_ranges_func 11] 1 [Ok (Ok ex_unit)] elements (λ s, reflexivity _)
    two_ranges_transform_new).
Defined.
