(* ===== verification/Microwasm.v ===== *)
(** * Lightbeam: from WebAssembly to Microwasm

    Models [lightbeam/src/microwasm.rs]: the stack language Microwasm, whose
    control flow is labels and branches, and the iterator [MicrowasmConv]
    that turns the operators of a WebAssembly function into it.  The reader
    of the binary format (wasmparser) is not part of the sources: a function
    body is the list of what its reader yields. *)

From S2P Require Import Prelude.
Local Open Scope Z_scope.

(** [Vec::pop], with the last element of the vector on top. *)
Definition vec_pop {A} (v : list A) : option (list A * A) :=
  match last v with Some x => Some (removelast v, x) | None => None end.

(** ** Types and values *)

Inductive Signedness := Signed | Unsigned.
Inductive Size := _32 | _64.
Definition Int := Size.
Definition Float := Size.
Inductive SignfulInt := mkSignfulInt (s : Signedness) (z : Size).
Inductive Type_ (I : Type) := TInt (i : I) | TFloat (s : Size).
Arguments TInt {I} i.
Arguments TFloat {I} s.
Definition SignlessType := Type_ Size.
Definition SignfulType := Type_ SignfulInt.

#[export] Instance Signedness_eq_dec : EqDecision Signedness.
Proof. solve_decision. Defined.
#[export] Instance Size_eq_dec : EqDecision Size.
Proof. solve_decision. Defined.
#[export] Instance SignfulInt_eq_dec : EqDecision SignfulInt.
Proof. solve_decision. Defined.
#[export] Instance Type_eq_dec {I : Type} `{!EqDecision I} : EqDecision (Type_ I).
Proof. solve_decision. Defined.
#[export] Instance SignlessType_eq_dec : EqDecision SignlessType := Type_eq_dec.

Definition I32 : SignlessType := TInt _32.
Definition I64 : SignlessType := TInt _64.
Definition F32 : SignlessType := TFloat _32.
Definition F64 : SignlessType := TFloat _64.

Module sint.
Definition I32 := mkSignfulInt Signed _32.
Definition I64 := mkSignfulInt Signed _64.
Definition U32 := mkSignfulInt Unsigned _32.
Definition U64 := mkSignfulInt Unsigned _64.
End sint.

Definition SI32 : SignfulType := TInt sint.I32.
Definition SI64 : SignfulType := TInt sint.I64.
Definition SU32 : SignfulType := TInt sint.U32.
Definition SU64 : SignfulType := TInt sint.U64.
Definition SF32 : SignfulType := TFloat _32.
Definition SF64 : SignfulType := TFloat _64.

(** Constants; floats are their bits. *)
Module V.
Inductive Value := I32 (v : Z) | I64 (v : Z) | F32 (v : Z) | F64 (v : Z).
End V.
Import V(Value).

Definition type_ (v : Value) : SignlessType :=
  match v with V.I32 _ => I32 | V.I64 _ => I64 | V.F32 _ => F32 | V.F64 _ => F64 end.

Definition default_for_type (ty : SignlessType) : Value :=
  match ty with
  | TInt _32 => V.I32 0 | TInt _64 => V.I64 0 | TFloat _32 => V.F32 0 | TFloat _64 => V.F64 0
  end.

Definition as_i32 (v : Value) : option Z := match v with V.I32 x => Some x | _ => None end.
Definition as_i64 (v : Value) : option Z := match v with V.I64 x => Some x | _ => None end.
Definition as_f32 (v : Value) : option Z := match v with V.F32 x => Some x | _ => None end.
Definition as_f64 (v : Value) : option Z := match v with V.F64 x => Some x | _ => None end.

Definition as_int (v : Value) : option Z :=
  match as_i64 v with Some x => Some x | None => as_i32 v end.

(** The bit pattern as an [i64]: integers are sign-extended, the bits of an
    [f32] zero-extended, those of an [f64] reinterpreted. *)
Definition as_bytes (v : Value) : Z :=
  match v with V.I32 x => x | V.I64 x => x | V.F32 b => b | V.F64 b => wrap_s 64 b end.

(** ** What the reader yields (wasmparser) *)

Inductive BinaryReaderError := mkBinaryReaderError (offset : Z).

Module WT.
Inductive Type_ := I32 | I64 | F32 | F64 | EmptyBlockType | OtherType.
End WT.

Inductive TypeOrFuncType := WType (ty : WT.Type_) | WFuncType (index : Z).

Record WasmMemoryImmediate := mkWasmMemoryImmediate { w_flags : Z; w_offset : Z }.

(** The operators that the source names; a [br_table] carries what reading
    its table yields. *)
Module W.
Inductive WasmOperator :=
| Unreachable | Nop | Block (ty : TypeOrFuncType) | Loop (ty : TypeOrFuncType)
| If (ty : TypeOrFuncType) | Else | End | Br (relative_depth : Z) | BrIf (relative_depth : Z)
| BrTable (table : result (list Z * Z) BinaryReaderError) | Return | Call (function_index : Z)
| CallIndirect (index table_index : Z) | Drop | Select | GetLocal (local_index : Z)
| SetLocal (local_index : Z) | TeeLocal (local_index : Z) | GetGlobal (global_index : Z)
| SetGlobal (global_index : Z) | F32Load (memarg : WasmMemoryImmediate)
| F64Load (memarg : WasmMemoryImmediate) | I32Load (memarg : WasmMemoryImmediate)
| I32Load8S (memarg : WasmMemoryImmediate) | I32Load8U (memarg : WasmMemoryImmediate)
| I32Load16S (memarg : WasmMemoryImmediate) | I32Load16U (memarg : WasmMemoryImmediate)
| I64Load (memarg : WasmMemoryImmediate) | I64Load8S (memarg : WasmMemoryImmediate)
| I64Load8U (memarg : WasmMemoryImmediate) | I64Load16S (memarg : WasmMemoryImmediate)
| I64Load16U (memarg : WasmMemoryImmediate) | I64Load32S (memarg : WasmMemoryImmediate)
| I64Load32U (memarg : WasmMemoryImmediate) | F32Store (memarg : WasmMemoryImmediate)
| F64Store (memarg : WasmMemoryImmediate) | I32Store (memarg : WasmMemoryImmediate)
| I32Store8 (memarg : WasmMemoryImmediate) | I32Store16 (memarg : WasmMemoryImmediate)
| I64Store (memarg : WasmMemoryImmediate) | I64Store8 (memarg : WasmMemoryImmediate)
| I64Store16 (memarg : WasmMemoryImmediate) | I64Store32 (memarg : WasmMemoryImmediate)
| MemorySize (reserved : Z) | MemoryGrow (reserved : Z) | I32Const (value : Z)
| I64Const (value : Z) | F32Const (value : Z) | F64Const (value : Z) | RefNull | RefIsNull
| I32Eqz | I32Eq | I32Ne | I32LtS | I32LtU | I32GtS | I32GtU | I32LeS | I32LeU | I32GeS | I32GeU
| I64Eqz | I64Eq | I64Ne | I64LtS | I64LtU | I64GtS | I64GtU | I64LeS | I64LeU | I64GeS | I64GeU
| F32Eq | F32Ne | F32Lt | F32Gt | F32Le | F32Ge | F64Eq | F64Ne | F64Lt | F64Gt | F64Le | F64Ge
| I32Clz | I32Ctz | I32Popcnt | I64Clz | I64Ctz | I64Popcnt | I32Add | I32Sub | I32Mul | I32DivS
| I32DivU | I32RemS | I32RemU | I32And | I32Or | I32Xor | I32Shl | I32ShrS | I32ShrU | I32Rotl
| I32Rotr | I64Add | I64Sub | I64Mul | I64DivS | I64DivU | I64RemS | I64RemU | I64And | I64Or
| I64Xor | I64Shl | I64ShrS | I64ShrU | I64Rotl | I64Rotr | F32Abs | F32Neg | F32Ceil | F32Floor
| F32Trunc | F32Nearest | F32Sqrt | F64Abs | F64Neg | F64Ceil | F64Floor | F64Trunc | F64Nearest
| F64Sqrt | F32Add | F32Sub | F32Mul | F32Div | F32Min | F32Max | F32Copysign | F64Add | F64Sub
| F64Mul | F64Div | F64Min | F64Max | F64Copysign | I32WrapI64 | I32TruncSF32 | I32TruncUF32
| I32TruncSF64 | I32TruncUF64 | I64ExtendSI32 | I64ExtendUI32 | I64TruncSF32 | I64TruncUF32
| I64TruncSF64 | I64TruncUF64 | F32ConvertSI32 | F32ConvertUI32 | F32ConvertSI64
| F32ConvertUI64 | F32DemoteF64 | F64ConvertSI32 | F64ConvertUI32 | F64ConvertSI64
| F64ConvertUI64 | F64PromoteF32 | I32ReinterpretF32 | I64ReinterpretF64 | F32ReinterpretI32
| F64ReinterpretI64 | I32Extend8S | I32Extend16S | I64Extend8S | I64Extend16S | I64Extend32S
| I32TruncSSatF32 | I32TruncUSatF32 | I32TruncSSatF64 | I32TruncUSatF64 | I64TruncSSatF32
| I64TruncUSatF32 | I64TruncSSatF64 | I64TruncUSatF64 | OtherOperator (code : Z).
End W.
Import W(WasmOperator).

(** [SignlessType::from_wasm]: other types are [unimplemented!]. *)
Definition from_wasm (ty : WT.Type_) : res (option SignlessType) :=
  match ty with
  | WT.I32 => Ret (Some I32)
  | WT.I64 => Ret (Some I64)
  | WT.F32 => Ret (Some F32)
  | WT.F64 => Ret (Some F64)
  | WT.EmptyBlockType => Ret None
  | WT.OtherType => Panic
  end.

Definition create_returns_from_wasm_type (ty : TypeOrFuncType) : res (list SignlessType) :=
  match ty with
  | WType ty => o ← from_wasm ty; Ret (option_list o)
  | WFuncType _ => Panic
  end.

(** ** Microwasm *)

Inductive NameTag := Header | Else | End_.
Definition WasmLabel := (Z * NameTag)%type.

Inductive BrTarget (L : Type) := Return | Label (l : L).
Arguments Return {L}.
Arguments Label {L} l.

#[export] Instance NameTag_eq_dec : EqDecision NameTag.
Proof. solve_decision. Defined.
#[export] Instance NameTag_countable : Countable NameTag.
Proof.
  refine (inj_countable' (λ t, match t with Header => 0 | Else => 1 | End_ => 2 end)
    (λ z, if decide (z = 0) then Header else if decide (z = 1) then Else else End_) _);
  by intros [].
Defined.
#[export] Instance WasmLabel_eq_dec : EqDecision WasmLabel := prod_eq_dec.
#[export] Instance WasmLabel_countable : Countable WasmLabel := prod_countable.
#[export] Instance BrTarget_eq_dec {L : Type} `{!EqDecision L} : EqDecision (BrTarget L).
Proof. solve_decision. Defined.

(** [RangeInclusive<u32>] *)
Definition RangeInclusive := (Z * Z)%type.

Record BrTargetDrop (L : Type) := mkBrTargetDrop {
  target : BrTarget L;
  to_drop : option RangeInclusive;
}.
Arguments mkBrTargetDrop {L} target to_drop.
Arguments target {L} b.
Arguments to_drop {L} b.

(** [impl From<BrTarget<L>> for BrTargetDrop<L>] *)
Definition BrTargetDrop_from {L} (t : BrTarget L) : BrTargetDrop L := mkBrTargetDrop t None.

Record BrTable (L : Type) := mkBrTable {
  targets : list (BrTargetDrop L);
  default : BrTargetDrop L;
}.
Arguments mkBrTable {L} targets default.
Arguments targets {L} b.
Arguments default {L} b.

Record MemoryImmediate := mkMemoryImmediate { flags : Z; offset : Z }.
Definition MemoryImmediate_from (m : WasmMemoryImmediate) : MemoryImmediate :=
  mkMemoryImmediate (w_flags m) (w_offset m).

Module Op.
Inductive Operator {Label : Type} : Type :=
| Unreachable
| Block (label : Label) (params : list SignlessType) (has_backwards_callers : bool)
    (num_callers : option Z)
| Label_ (label : Label)
| Br (target : BrTarget Label)
| BrIf (then_ else_ : BrTargetDrop Label)
| BrTable (table : BrTable Label)
| Call (function_index : Z)
| CallIndirect (type_index table_index : Z)
| Drop (depths : RangeInclusive)
| Select
| Pick (depth : Z)
| Swap (depth : Z)
| GetGlobal (index : Z)
| SetGlobal (index : Z)
| Load (ty : SignlessType) (memarg : MemoryImmediate)
| Load8 (ty : SignfulInt) (memarg : MemoryImmediate)
| Load16 (ty : SignfulInt) (memarg : MemoryImmediate)
| Load32 (sign : Signedness) (memarg : MemoryImmediate)
| Store (ty : SignlessType) (memarg : MemoryImmediate)
| Store8 (ty : Int) (memarg : MemoryImmediate)
| Store16 (ty : Int) (memarg : MemoryImmediate)
| Store32 (memarg : MemoryImmediate)
| MemorySize (reserved : Z)
| MemoryGrow (reserved : Z)
| Const (v : Value)
| Eq (ty : SignlessType)
| Ne (ty : SignlessType)
| Eqz (ty : Int)
| Lt (ty : SignfulType)
| Gt (ty : SignfulType)
| Le (ty : SignfulType)
| Ge (ty : SignfulType)
| Add (ty : SignlessType)
| Sub (ty : SignlessType)
| Mul (ty : SignlessType)
| Clz (ty : Int)
| Ctz (ty : Int)
| Popcnt (ty : Int)
| Div (ty : SignfulType)
| Rem (ty : SignfulInt)
| And (ty : Int)
| Or (ty : Int)
| Xor (ty : Int)
| Shl (ty : Int)
| Shr (ty : SignfulInt)
| Rotl (ty : Int)
| Rotr (ty : Int)
| Abs (ty : Float)
| Neg (ty : Float)
| Ceil (ty : Float)
| Floor (ty : Float)
| Trunc (ty : Float)
| Nearest (ty : Float)
| Sqrt (ty : Float)
| Min (ty : Float)
| Max (ty : Float)
| Copysign (ty : Float)
| I32WrapFromI64
| ITruncFromF (input_ty : Float) (output_ty : SignfulInt)
| FConvertFromI (input_ty : SignfulInt) (output_ty : Float)
| F32DemoteFromF64
| F64PromoteFromF32
| I32ReinterpretFromF32
| I64ReinterpretFromF64
| F32ReinterpretFromI32
| F64ReinterpretFromI64
| Extend (sign : Signedness).
End Op.
Import Op(Operator).
Definition OperatorFromWasm := @Operator WasmLabel.

(** [Operator::end], [Operator::block] and [Operator::loop_] *)
Definition op_end {L} (params : list SignlessType) (label : L) : @Operator L :=
  Op.Block label params false None.
Definition op_block {L} (params : list SignlessType) (label : L) : @Operator L :=
  Op.Block label params false (Some 1).
Definition op_loop {L} (params : list SignlessType) (label : L) : @Operator L :=
  Op.Block label params true None.

(** ** The state of the conversion *)

Inductive ControlFrameKind :=
| FBlock (needs_end_label : bool)
| FFunction
| FLoop
| FIf (has_else : bool).

Record ControlFrame := mkControlFrame {
  id : Z;
  arguments : Z;
  returns : list SignlessType;
  kind : ControlFrameKind;
}.

Definition needs_end_label (f : ControlFrame) : bool :=
  match kind f with FBlock b => b | FIf _ => true | FLoop | FFunction => false end.

Definition mark_branched_to (f : ControlFrame) : ControlFrame :=
  match kind f with
  | FBlock _ => mkControlFrame (id f) (arguments f) (returns f) (FBlock true)
  | _ => f
  end.

(** [if let ControlFrameKind::If { has_else, .. } = &mut block.kind { *has_else = true }] *)
Definition mark_else (f : ControlFrame) : ControlFrame :=
  match kind f with
  | FIf _ => mkControlFrame (id f) (arguments f) (returns f) (FIf true)
  | _ => f
  end.

Definition br_target (f : ControlFrame) : BrTarget WasmLabel :=
  match kind f with
  | FLoop => Label (id f, Header)
  | FFunction => Return
  | FBlock _ | FIf _ => Label (id f, End_)
  end.

(** The trait [ModuleContext], as far as the conversion uses it: signatures
    and types of globals as Microwasm types; an index out of range panics. *)
Class ModuleContext := {
  func_type : Z → res (list SignlessType * list SignlessType);
  signature : Z → res (list SignlessType * list SignlessType);
  global_type : Z → res SignlessType;
}.

Inductive SigT := T | Concrete (ty : SignlessType).
Record OpSig := OpSig_new { input : list SigT; output : list SigT }.
Definition OpSig_none : OpSig := OpSig_new [] [].
(** [impl From<&T> for OpSig where T: Signature] *)
Definition OpSig_from (s : list SignlessType * list SignlessType) : OpSig :=
  OpSig_new (map Concrete s.1) (map Concrete s.2).

Record MicrowasmConv := mkConv {
  is_done : bool;
  consts_to_emit : option (list Value);
  stack : list SignlessType;
  internal : list (result WasmOperator BinaryReaderError);
  current_id : Z;
  control_frames : list ControlFrame;
  unreachable : bool;
}.

Definition set_stack (s : list SignlessType) (c : MicrowasmConv) : MicrowasmConv :=
  mkConv (is_done c) (consts_to_emit c) s (internal c) (current_id c) (control_frames c)
    (unreachable c).
Definition set_frames (f : list ControlFrame) (c : MicrowasmConv) : MicrowasmConv :=
  mkConv (is_done c) (consts_to_emit c) (stack c) (internal c) (current_id c) f (unreachable c).
Definition set_internal r (c : MicrowasmConv) : MicrowasmConv :=
  mkConv (is_done c) (consts_to_emit c) (stack c) r (current_id c) (control_frames c)
    (unreachable c).
Definition set_unreachable (b : bool) (c : MicrowasmConv) : MicrowasmConv :=
  mkConv (is_done c) (consts_to_emit c) (stack c) (internal c) (current_id c)
    (control_frames c) b.
Definition set_done (c : MicrowasmConv) : MicrowasmConv :=
  mkConv true (consts_to_emit c) (stack c) (internal c) (current_id c) (control_frames c)
    (unreachable c).
Definition take_consts (c : MicrowasmConv) : MicrowasmConv :=
  mkConv (is_done c) None (stack c) (internal c) (current_id c) (control_frames c)
    (unreachable c).

Definition next_id (c : MicrowasmConv) : res (MicrowasmConv * Z) :=
  n ← op_add 32 (current_id c) 1;
  Ret (mkConv (is_done c) (consts_to_emit c) (stack c) (internal c) n (control_frames c)
         (unreachable c), current_id c).

(** [MicrowasmConv::new]; [locals] is what the reader of locals yields. *)
Definition MicrowasmConv_new (params rets : list SignlessType)
    (locals_reader : result (list (result (Z * WT.Type_) BinaryReaderError)) BinaryReaderError)
    (reader : result (list (result WasmOperator BinaryReaderError)) BinaryReaderError)
    : res MicrowasmConv :=
  match locals_reader with
  | Err _ => Panic
  | Ok locs =>
      lc ← foldM (λ lc loc,
        match loc with
        | Err _ => Panic
        | Ok (count, ty) =>
            o ← from_wasm ty; ty ← unwrap o;
            let n := Z.to_nat count in
            Ret (lc.1 ++ replicate n ty, lc.2 ++ replicate n (default_for_type ty))
        end) (params, []) locs;
      match reader with
      | Err _ => Panic
      | Ok ops =>
          let num_locals := wrap_u 32 (zlen lc.1) in
          '(out, i) ← next_id (mkConv false (Some lc.2) lc.1 ops 0 [] false);
          Ret (set_frames (control_frames out ++ [mkControlFrame i num_locals rets FFunction]) out)
      end
  end.

(** [self.internal.read()]: at the end of the body the reader reports an
    error. *)
Definition eof : BinaryReaderError := mkBinaryReaderError 0.
Definition read (c : MicrowasmConv) : MicrowasmConv * result WasmOperator BinaryReaderError :=
  match internal c with
  | [] => (c, Err eof)
  | r :: l => (set_internal l c, r)
  end.

(** ** Signatures of operators *)

(** Loads, stores, constants and comparisons. *)
Definition op_sig_memory (op : WasmOperator) : option OpSig :=
  match op with
  | W.F32Load _ =>
      Some (OpSig_new [Concrete I32] [Concrete F32])
  | W.F64Load _ =>
      Some (OpSig_new [Concrete I32] [Concrete F64])
  | W.I32Load _ | W.I32Load8S _ | W.I32Load8U _ | W.I32Load16S _ | W.I32Load16U _ =>
      Some (OpSig_new [Concrete I32] [Concrete I32])
  | W.I64Load _ | W.I64Load8S _ | W.I64Load8U _ | W.I64Load16S _ | W.I64Load16U _
  | W.I64Load32S _ | W.I64Load32U _ =>
      Some (OpSig_new [Concrete I32] [Concrete I64])
  | W.F32Store _ =>
      Some (OpSig_new [Concrete I32; Concrete F32] [])
  | W.F64Store _ =>
      Some (OpSig_new [Concrete I32; Concrete F64] [])
  | W.I32Store _ | W.I32Store8 _ | W.I32Store16 _ =>
      Some (OpSig_new [Concrete I32; Concrete I32] [])
  | W.I64Store _ | W.I64Store8 _ | W.I64Store16 _ | W.I64Store32 _ =>
      Some (OpSig_new [Concrete I32; Concrete I64] [])
  | W.MemorySize _ =>
      Some (OpSig_new [] [Concrete I32])
  | W.MemoryGrow _ =>
      Some (OpSig_new [Concrete I32] [Concrete I32])
  | W.I32Const _ =>
      Some (OpSig_new [] [Concrete I32])
  | W.I64Const _ =>
      Some (OpSig_new [] [Concrete I64])
  | W.F32Const _ =>
      Some (OpSig_new [] [Concrete F32])
  | W.F64Const _ =>
      Some (OpSig_new [] [Concrete F64])
  | W.I32Eqz =>
      Some (OpSig_new [Concrete I32] [Concrete I32])
  | W.I32Eq | W.I32Ne | W.I32LtS | W.I32LtU | W.I32GtS | W.I32GtU | W.I32LeS | W.I32LeU
  | W.I32GeS | W.I32GeU =>
      Some (OpSig_new [Concrete I32; Concrete I32] [Concrete I32])
  | W.I64Eqz =>
      Some (OpSig_new [Concrete I64] [Concrete I32])
  | W.I64Eq | W.I64Ne | W.I64LtS | W.I64LtU | W.I64GtS | W.I64GtU | W.I64LeS | W.I64LeU
  | W.I64GeS | W.I64GeU =>
      Some (OpSig_new [Concrete I64; Concrete I64] [Concrete I32])
  | W.F32Eq | W.F32Ne | W.F32Lt | W.F32Gt | W.F32Le | W.F32Ge =>
      Some (OpSig_new [Concrete F32; Concrete F32] [Concrete I32])
  | W.F64Eq | W.F64Ne | W.F64Lt | W.F64Gt | W.F64Le | W.F64Ge =>
      Some (OpSig_new [Concrete F64; Concrete F64] [Concrete I32])
  | _ => None
  end.

(** Arithmetic and conversions. *)
Definition op_sig_numeric (op : WasmOperator) : option OpSig :=
  match op with
  | W.I32Clz | W.I32Ctz | W.I32Popcnt =>
      Some (OpSig_new [Concrete I32] [Concrete I32])
  | W.I64Clz | W.I64Ctz | W.I64Popcnt =>
      Some (OpSig_new [Concrete I64] [Concrete I64])
  | W.I32Add | W.I32Sub | W.I32Mul | W.I32DivS | W.I32DivU | W.I32RemS | W.I32RemU
  | W.I32And | W.I32Or | W.I32Xor | W.I32Shl | W.I32ShrS | W.I32ShrU | W.I32Rotl | W.I32Rotr =>
      Some (OpSig_new [Concrete I32; Concrete I32] [Concrete I32])
  | W.I64Add | W.I64Sub | W.I64Mul | W.I64DivS | W.I64DivU | W.I64RemS | W.I64RemU
  | W.I64And | W.I64Or | W.I64Xor | W.I64Shl | W.I64ShrS | W.I64ShrU | W.I64Rotl | W.I64Rotr =>
      Some (OpSig_new [Concrete I64; Concrete I64] [Concrete I64])
  | W.F32Abs | W.F32Neg | W.F32Ceil | W.F32Floor | W.F32Trunc | W.F32Nearest | W.F32Sqrt =>
      Some (OpSig_new [Concrete F32] [Concrete F32])
  | W.F64Abs | W.F64Neg | W.F64Ceil | W.F64Floor | W.F64Trunc | W.F64Nearest | W.F64Sqrt =>
      Some (OpSig_new [Concrete F64] [Concrete F64])
  | W.F32Add | W.F32Sub | W.F32Mul | W.F32Div | W.F32Min | W.F32Max | W.F32Copysign =>
      Some (OpSig_new [Concrete F32; Concrete F32] [Concrete F32])
  | W.F64Add | W.F64Sub | W.F64Mul | W.F64Div | W.F64Min | W.F64Max | W.F64Copysign =>
      Some (OpSig_new [Concrete F64; Concrete F64] [Concrete F64])
  | W.I32WrapI64 =>
      Some (OpSig_new [Concrete I64] [Concrete I32])
  | W.I32TruncSF32 | W.I32TruncUF32 =>
      Some (OpSig_new [Concrete F32] [Concrete I32])
  | W.I32TruncSF64 | W.I32TruncUF64 =>
      Some (OpSig_new [Concrete F64] [Concrete I32])
  | W.I64ExtendSI32 | W.I64ExtendUI32 =>
      Some (OpSig_new [Concrete I32] [Concrete I64])
  | W.I64TruncSF32 | W.I64TruncUF32 =>
      Some (OpSig_new [Concrete F32] [Concrete I64])
  | W.I64TruncSF64 | W.I64TruncUF64 =>
      Some (OpSig_new [Concrete F64] [Concrete I64])
  | W.F32ConvertSI32 | W.F32ConvertUI32 =>
      Some (OpSig_new [Concrete I32] [Concrete F32])
  | W.F32ConvertSI64 | W.F32ConvertUI64 =>
      Some (OpSig_new [Concrete I64] [Concrete F32])
  | W.F32DemoteF64 =>
      Some (OpSig_new [Concrete F64] [Concrete F32])
  | W.F64ConvertSI32 | W.F64ConvertUI32 =>
      Some (OpSig_new [Concrete I32] [Concrete F64])
  | W.F64ConvertSI64 | W.F64ConvertUI64 =>
      Some (OpSig_new [Concrete I64] [Concrete F64])
  | W.F64PromoteF32 =>
      Some (OpSig_new [Concrete F32] [Concrete F64])
  | W.I32ReinterpretF32 =>
      Some (OpSig_new [Concrete F32] [Concrete I32])
  | W.I64ReinterpretF64 =>
      Some (OpSig_new [Concrete F64] [Concrete I64])
  | W.F32ReinterpretI32 =>
      Some (OpSig_new [Concrete I32] [Concrete F32])
  | W.F64ReinterpretI64 =>
      Some (OpSig_new [Concrete I64] [Concrete F64])
  | W.I32Extend8S =>
      Some (OpSig_new [Concrete I32] [Concrete I32])
  | W.I32Extend16S =>
      Some (OpSig_new [Concrete I32] [Concrete I32])
  | W.I64Extend8S =>
      Some (OpSig_new [Concrete I32] [Concrete I64])
  | W.I64Extend16S =>
      Some (OpSig_new [Concrete I32] [Concrete I64])
  | W.I64Extend32S =>
      Some (OpSig_new [Concrete I32] [Concrete I64])
  | _ => None
  end.

Section conv.
Context `{ModuleContext}.

Definition op_sig (c : MicrowasmConv) (op : WasmOperator) : res OpSig :=
  match op with
  | W.Unreachable | W.Nop | W.Block _ | W.Loop _ | W.Else | W.End | W.Br _ | W.Return =>
      Ret OpSig_none
  | W.If _ | W.BrIf _ | W.BrTable _ => Ret (OpSig_new [Concrete I32] [])
  | W.Call function_index => s ← func_type function_index; Ret (OpSig_from s)
  | W.CallIndirect index _ =>
      s ← signature index;
      let out := OpSig_from s in
      Ret (OpSig_new (input out ++ [Concrete I32]) (output out))
  | W.Drop => Ret (OpSig_new [T] [])
  | W.Select => Ret (OpSig_new [T; T; Concrete I32] [T])
  | W.GetLocal local_index =>
      ty ← zindex (stack c) local_index; Ret (OpSig_new [] [Concrete ty])
  | W.SetLocal local_index =>
      ty ← zindex (stack c) local_index; Ret (OpSig_new [Concrete ty] [])
  | W.TeeLocal local_index =>
      ty ← zindex (stack c) local_index; Ret (OpSig_new [Concrete ty] [Concrete ty])
  | W.GetGlobal global_index =>
      ty ← global_type global_index; Ret (OpSig_new [] [Concrete ty])
  | W.SetGlobal global_index =>
      ty ← global_type global_index; Ret (OpSig_new [Concrete ty] [])
  | _ =>
      match op_sig_memory op with
      | Some s => Ret s
      | None => unwrap (op_sig_numeric op)
      end
  end.

(** One input of [apply_op]: pop a type and compare it with the expected
    one, the type parameter being the first type it stands for. *)
Definition apply_input (st : list SignlessType * option SignlessType) (p : SigT)
    : res (list SignlessType * option SignlessType) :=
  '(s, stack_ty) ← unwrap (vec_pop st.1);
  match p with
  | T =>
      match st.2 with
      | Some t => _ ← rassert (bool_decide (t = stack_ty)); Ret (s, Some t)
      | None => Ret (s, Some stack_ty)
      end
  | Concrete ty => _ ← rassert (bool_decide (ty = stack_ty)); Ret (s, st.2)
  end.

Definition apply_output (ty_param : option SignlessType) (s : list SignlessType) (p : SigT)
    : res (list SignlessType) :=
  ty ← match p with T => unwrap ty_param | Concrete ty => Ret ty end;
  Ret (s ++ [ty]).

Definition apply_op (c : MicrowasmConv) (sig : OpSig) : res MicrowasmConv :=
  st ← foldM apply_input (stack c, None) (rev (input sig));
  s ← foldM (apply_output st.2) st.1 (rev (output sig));
  Ret (set_stack s c).

Definition nth_block (c : MicrowasmConv) (n : Z) : res ControlFrame :=
  zindex (rev (control_frames c)) n.

(** [self.nth_block_mut(n)], updated by [f]. *)
Definition nth_block_mut (c : MicrowasmConv) (n : Z) (f : ControlFrame → ControlFrame)
    : res (MicrowasmConv * ControlFrame) :=
  b ← nth_block c n;
  l ← zset (rev (control_frames c)) n (f b);
  Ret (set_frames (rev l) c, f b).

Definition function_block (c : MicrowasmConv) : res ControlFrame :=
  unwrap (head (control_frames c)).

(** Checked [i32] subtraction and addition. *)
Definition in_i32 (x : Z) : bool := (- 2 ^ 31 <=? x) && (x <? 2 ^ 31).
Definition i32_checked (x : Z) : res Z := if in_i32 x then Ret x else Panic.

Definition local_depth (c : MicrowasmConv) (idx : Z) : res Z :=
  a ← i32_checked (wrap_s 32 (zlen (stack c)) - 1);
  i32_checked (a - wrap_s 32 idx).

Definition block_params (c : MicrowasmConv) : list SignlessType := stack c.

Definition block_params_with_wasm_type (c : MicrowasmConv) (ty : TypeOrFuncType)
    : res (list SignlessType) :=
  r ← create_returns_from_wasm_type ty; Ret (block_params c ++ r).

(** The macro [to_drop!]: the depths of the operands between what a block
    found on the stack and what it returns. *)
Definition to_drop_block (s : list SignlessType) (block : ControlFrame) : option RangeInclusive :=
  let first_non_local_depth := wrap_u 32 (zlen (returns block)) in
  a ← checked_sub 32 (wrap_u 32 (zlen s)) 1;
  last_non_local_depth ← checked_sub 32 a (arguments block);
  if first_non_local_depth <=? last_non_local_depth
  then Some (first_non_local_depth, last_non_local_depth) else None.

Definition drop_ops (d : option RangeInclusive) : list OperatorFromWasm :=
  match d with Some r => [Op.Drop r] | None => [] end.

(** [Vec::truncate] *)
Definition truncate (s : list SignlessType) (n : Z) : list SignlessType := take (Z.to_nat n) s.

(** The result of [Iterator::next]. *)
Definition Item := option (result (list OperatorFromWasm) BinaryReaderError).
Definition emit (c : MicrowasmConv) (ops : list OperatorFromWasm) : res (MicrowasmConv * Item) :=
  Ret (c, Some (Ok ops)).

(** ** Code that cannot be reached *)

(** [Else] and [End] of the block whose rest is skipped. *)
Definition skip_else (c : MicrowasmConv) : res (MicrowasmConv * Item) :=
  '(frames, block) ← unwrap (vec_pop (control_frames c));
  let c := set_stack (truncate (stack c) (arguments block)) c in
  emit (set_frames (frames ++ [mark_else block]) c) [Op.Label_ (id block, Else)].

Definition skip_end (c : MicrowasmConv) : res (MicrowasmConv * Item) :=
  '(frames, block) ← unwrap (vec_pop (control_frames c));
  let c := set_frames frames c in
  match frames with
  | [] => Ret (set_done c, None)
  | _ =>
      let c := set_stack (truncate (stack c) (arguments block) ++ returns block) c in
      let end_label := (id block, End_) in
      match kind block with
      | FIf false =>
          emit c [Op.Label_ (id block, Else); Op.Br (Label end_label); Op.Label_ end_label]
      | _ => emit c [Op.Label_ (id block, End_)]
      end
  end.

(** The loop that skips operators up to the [Else] or [End] of the current
    block, [depth] counting the blocks opened inside. *)
Fixpoint skip_loop (ops : list (result WasmOperator BinaryReaderError)) (depth : Z)
    (c : MicrowasmConv) : res (MicrowasmConv * Item) :=
  match ops with
  | [] => Ret (set_internal [] c, Some (Err eof))
  | Err e :: ops => Ret (set_internal ops c, Some (Err e))
  | Ok op :: ops =>
      match op with
      | W.Block _ | W.Loop _ | W.If _ => d ← i32_checked (depth + 1); skip_loop ops d c
      | W.Else => if depth =? 0 then skip_else (set_internal ops c) else skip_loop ops depth c
      | W.End =>
          if depth =? 0 then skip_end (set_internal ops c)
          else d ← i32_checked (depth - 1); skip_loop ops d c
      | _ => skip_loop ops depth c
      end
  end.

(** ** Translation of one operator *)

Definition emit_block (c : MicrowasmConv) (ty : TypeOrFuncType) : res (MicrowasmConv * Item) :=
  '(c, i) ← next_id c;
  r ← create_returns_from_wasm_type ty;
  let c := set_frames (control_frames c ++
    [mkControlFrame i (wrap_u 32 (zlen (stack c))) r (FBlock false)]) c in
  p ← block_params_with_wasm_type c ty;
  emit c [op_end p (i, End_)].

Definition emit_loop (c : MicrowasmConv) (ty : TypeOrFuncType) : res (MicrowasmConv * Item) :=
  '(c, i) ← next_id c;
  r ← create_returns_from_wasm_type ty;
  let c := set_frames (control_frames c ++
    [mkControlFrame i (wrap_u 32 (zlen (stack c))) r FLoop]) c in
  let label := (i, Header) in
  p ← block_params_with_wasm_type c ty;
  emit c [op_loop (block_params c) label; op_end p (i, End_); Op.Br (Label label);
          Op.Label_ label].

Definition emit_if (c : MicrowasmConv) (ty : TypeOrFuncType) : res (MicrowasmConv * Item) :=
  '(c, i) ← next_id c;
  r ← create_returns_from_wasm_type ty;
  let c := set_frames (control_frames c ++
    [mkControlFrame i (wrap_u 32 (zlen (stack c))) r (FIf false)]) c in
  p ← block_params_with_wasm_type c ty;
  emit c [op_block (block_params c) (i, Header); op_block (block_params c) (i, Else);
          op_end p (i, End_);
          Op.BrIf (BrTargetDrop_from (Label (i, Header))) (BrTargetDrop_from (Label (i, Else)));
          Op.Label_ (i, Header)].

Definition emit_else (c : MicrowasmConv) : res (MicrowasmConv * Item) :=
  '(frames, block) ← unwrap (vec_pop (control_frames c));
  let d := to_drop_block (stack c) block in
  let c := set_frames (frames ++ [mark_else block]) c in
  let c := set_stack (truncate (stack c) (arguments block)) c in
  emit c (drop_ops d ++ [Op.Br (Label (id block, End_)); Op.Label_ (id block, Else)]).

Definition emit_end (c : MicrowasmConv) : res (MicrowasmConv * Item) :=
  '(frames, block) ← unwrap (vec_pop (control_frames c));
  let d := to_drop_block (stack c) block in
  let c := set_frames frames c in
  let c := set_stack (truncate (stack c) (arguments block) ++ returns block) c in
  match kind block with
  | FIf false =>
      let else_ := (id block, Else) in
      let end_ := (id block, End_) in
      emit c (drop_ops d ++ [Op.Br (Label end_); Op.Label_ else_; Op.Br (Label end_);
                             Op.Label_ end_])
  | _ =>
      match frames with
      | [] => emit (set_done c) [Op.Br Return]
      | _ =>
          if needs_end_label block then
            let label := (id block, End_) in
            emit c (drop_ops d ++ [Op.Br (Label label); Op.Label_ label])
          else emit c (drop_ops d)
      end
  end.

Definition emit_br (c : MicrowasmConv) (relative_depth : Z) : res (MicrowasmConv * Item) :=
  let c := set_unreachable true c in
  b ← nth_block c relative_depth;
  let d := to_drop_block (stack c) b in
  '(c, block) ← nth_block_mut c relative_depth mark_branched_to;
  emit c (drop_ops d ++ [Op.Br (br_target block)]).

Definition emit_br_if (c : MicrowasmConv) (relative_depth : Z) : res (MicrowasmConv * Item) :=
  b ← nth_block c relative_depth;
  let d := to_drop_block (stack c) b in
  '(c, i) ← next_id c;
  let label := (i, Header) in
  let params := block_params c in
  '(c, block) ← nth_block_mut c relative_depth mark_branched_to;
  emit c [op_block params label;
          Op.BrIf (mkBrTargetDrop (br_target block) d) (BrTargetDrop_from (Label label));
          Op.Label_ label].

(** One entry of a [br_table]. *)
Definition br_table_entry (c : MicrowasmConv) (depth : Z)
    : res (MicrowasmConv * BrTargetDrop WasmLabel) :=
  '(c, _) ← nth_block_mut c depth mark_branched_to;
  block ← nth_block c depth;
  Ret (c, mkBrTargetDrop (br_target block) (to_drop_block (stack c) block)).

Fixpoint br_table_entries (c : MicrowasmConv) (entries : list Z)
    : res (MicrowasmConv * list (BrTargetDrop WasmLabel)) :=
  match entries with
  | [] => Ret (c, [])
  | depth :: entries =>
      '(c, t) ← br_table_entry c depth;
      '(c, ts) ← br_table_entries c entries;
      Ret (c, t :: ts)
  end.

Definition emit_br_table (c : MicrowasmConv) (table : result (list Z * Z) BinaryReaderError)
    : res (MicrowasmConv * Item) :=
  let c := set_unreachable true c in
  match table with
  | Err e => Ret (c, Some (Err e))
  | Ok (entries, default) =>
      '(c, ts) ← br_table_entries c entries;
      '(c, d) ← br_table_entry c default;
      emit c [Op.BrTable (mkBrTable ts d)]
  end.

Definition emit_return (c : MicrowasmConv) : res (MicrowasmConv * Item) :=
  let c := set_unreachable true c in
  block ← function_block c;
  emit c (drop_ops (to_drop_block (stack c) block) ++ [Op.Br (br_target block)]).

(** [depth.try_into().expect("Local out of range")], from [i32] to [u32]. *)
Definition to_depth (depth : Z) : res Z := unwrap (try_from_u 32 depth).

(** [GetLocal], [SetLocal] and [TeeLocal]: the signature has been applied to
    the stack already. *)
Definition emit_get_local (c : MicrowasmConv) (local_index : Z) : res (MicrowasmConv * Item) :=
  d ← local_depth c local_index; depth ← i32_checked (d - 1);
  n ← to_depth depth; emit c [Op.Pick n].

Definition emit_set_local (c : MicrowasmConv) (local_index : Z) : res (MicrowasmConv * Item) :=
  d ← local_depth c local_index; depth ← i32_checked (d + 1);
  n ← to_depth depth; emit c [Op.Swap n; Op.Drop (0, 0)].

Definition emit_tee_local (c : MicrowasmConv) (local_index : Z) : res (MicrowasmConv * Item) :=
  d ← local_depth c local_index; depth ← i32_checked (d + 1);
  n ← to_depth depth; emit c [Op.Pick 0; Op.Swap n; Op.Drop (0, 0)].

(** Operators that become one operator: loads, stores and constants, *)
Definition emit_memory (op : WasmOperator) : option (list OperatorFromWasm) :=
  match op with
  | W.I32Load memarg => Some [Op.Load I32 (MemoryImmediate_from memarg)]
  | W.I64Load memarg => Some [Op.Load I64 (MemoryImmediate_from memarg)]
  | W.F32Load memarg => Some [Op.Load F32 (MemoryImmediate_from memarg)]
  | W.F64Load memarg => Some [Op.Load F64 (MemoryImmediate_from memarg)]
  | W.I32Load8S memarg => Some [Op.Load8 sint.I32 (MemoryImmediate_from memarg)]
  | W.I32Load8U memarg => Some [Op.Load8 sint.U32 (MemoryImmediate_from memarg)]
  | W.I32Load16S memarg => Some [Op.Load16 sint.I32 (MemoryImmediate_from memarg)]
  | W.I32Load16U memarg => Some [Op.Load16 sint.U32 (MemoryImmediate_from memarg)]
  | W.I64Load8S memarg => Some [Op.Load8 sint.I64 (MemoryImmediate_from memarg)]
  | W.I64Load8U memarg => Some [Op.Load8 sint.U64 (MemoryImmediate_from memarg)]
  | W.I64Load16S memarg => Some [Op.Load16 sint.I64 (MemoryImmediate_from memarg)]
  | W.I64Load16U memarg => Some [Op.Load16 sint.U64 (MemoryImmediate_from memarg)]
  | W.I64Load32S memarg => Some [Op.Load32 Signed (MemoryImmediate_from memarg)]
  | W.I64Load32U memarg => Some [Op.Load32 Unsigned (MemoryImmediate_from memarg)]
  | W.I32Store memarg => Some [Op.Store I32 (MemoryImmediate_from memarg)]
  | W.I64Store memarg => Some [Op.Store I64 (MemoryImmediate_from memarg)]
  | W.F32Store memarg => Some [Op.Store F32 (MemoryImmediate_from memarg)]
  | W.F64Store memarg => Some [Op.Store F64 (MemoryImmediate_from memarg)]
  | W.I32Store8 memarg => Some [Op.Store8 _32 (MemoryImmediate_from memarg)]
  | W.I32Store16 memarg => Some [Op.Store16 _32 (MemoryImmediate_from memarg)]
  | W.I64Store8 memarg => Some [Op.Store8 _64 (MemoryImmediate_from memarg)]
  | W.I64Store16 memarg => Some [Op.Store16 _64 (MemoryImmediate_from memarg)]
  | W.I64Store32 memarg => Some [Op.Store32 (MemoryImmediate_from memarg)]
  | W.MemorySize reserved => Some [Op.MemorySize reserved]
  | W.MemoryGrow reserved => Some [Op.MemoryGrow reserved]
  | W.I32Const value => Some [Op.Const (V.I32 value)]
  | W.I64Const value => Some [Op.Const (V.I64 value)]
  | W.F32Const value => Some [Op.Const (V.F32 value)]
  | _ => None
  end.

(** comparisons and integer arithmetic, *)
Definition emit_integer (op : WasmOperator) : option (list OperatorFromWasm) :=
  match op with
  | W.F64Const value => Some [Op.Const (V.F64 value)]
  | W.I32Eqz => Some [Op.Eqz _32]
  | W.I32Eq => Some [Op.Eq I32]
  | W.I32Ne => Some [Op.Ne I32]
  | W.I32LtS => Some [Op.Lt SI32]
  | W.I32LtU => Some [Op.Lt SU32]
  | W.I32GtS => Some [Op.Gt SI32]
  | W.I32GtU => Some [Op.Gt SU32]
  | W.I32LeS => Some [Op.Le SI32]
  | W.I32LeU => Some [Op.Le SU32]
  | W.I32GeS => Some [Op.Ge SI32]
  | W.I32GeU => Some [Op.Ge SU32]
  | W.I64Eqz => Some [Op.Eqz _64]
  | W.I64Eq => Some [Op.Eq I64]
  | W.I64Ne => Some [Op.Ne I64]
  | W.I64LtS => Some [Op.Lt SI64]
  | W.I64LtU => Some [Op.Lt SU64]
  | W.I64GtS => Some [Op.Gt SI64]
  | W.I64GtU => Some [Op.Gt SU64]
  | W.I64LeS => Some [Op.Le SI64]
  | W.I64LeU => Some [Op.Le SU64]
  | W.I64GeS => Some [Op.Ge SI64]
  | W.I64GeU => Some [Op.Ge SU64]
  | W.F32Eq => Some [Op.Eq F32]
  | W.F32Ne => Some [Op.Ne F32]
  | W.F32Lt => Some [Op.Lt SF32]
  | W.F32Gt => Some [Op.Gt SF32]
  | W.F32Le => Some [Op.Le SF32]
  | W.F32Ge => Some [Op.Ge SF32]
  | W.F64Eq => Some [Op.Eq F64]
  | W.F64Ne => Some [Op.Ne F64]
  | W.F64Lt => Some [Op.Lt SF64]
  | W.F64Gt => Some [Op.Gt SF64]
  | W.F64Le => Some [Op.Le SF64]
  | W.F64Ge => Some [Op.Ge SF64]
  | W.I32Clz => Some [Op.Clz _32]
  | W.I32Ctz => Some [Op.Ctz _32]
  | W.I32Popcnt => Some [Op.Popcnt _32]
  | W.I32Add => Some [Op.Add I32]
  | W.I32Sub => Some [Op.Sub I32]
  | W.I32Mul => Some [Op.Mul I32]
  | W.I32DivS => Some [Op.Div SI32]
  | W.I32DivU => Some [Op.Div SU32]
  | W.I32RemS => Some [Op.Rem sint.I32]
  | W.I32RemU => Some [Op.Rem sint.U32]
  | W.I32And => Some [Op.And _32]
  | W.I32Or => Some [Op.Or _32]
  | W.I32Xor => Some [Op.Xor _32]
  | W.I32Shl => Some [Op.Shl _32]
  | W.I32ShrS => Some [Op.Shr sint.I32]
  | W.I32ShrU => Some [Op.Shr sint.U32]
  | W.I32Rotl => Some [Op.Rotl _32]
  | W.I32Rotr => Some [Op.Rotr _32]
  | W.I64Clz => Some [Op.Clz _64]
  | W.I64Ctz => Some [Op.Ctz _64]
  | W.I64Popcnt => Some [Op.Popcnt _64]
  | W.I64Add => Some [Op.Add I64]
  | W.I64Sub => Some [Op.Sub I64]
  | W.I64Mul => Some [Op.Mul I64]
  | W.I64DivS => Some [Op.Div SI64]
  | W.I64DivU => Some [Op.Div SU64]
  | W.I64RemS => Some [Op.Rem sint.I64]
  | W.I64RemU => Some [Op.Rem sint.U64]
  | W.I64And => Some [Op.And _64]
  | W.I64Or => Some [Op.Or _64]
  | W.I64Xor => Some [Op.Xor _64]
  | W.I64Shl => Some [Op.Shl _64]
  | W.I64ShrS => Some [Op.Shr sint.I64]
  | W.I64ShrU => Some [Op.Shr sint.U64]
  | W.I64Rotl => Some [Op.Rotl _64]
  | W.I64Rotr => Some [Op.Rotr _64]
  | _ => None
  end.

(** floating-point arithmetic, *)
Definition emit_float (op : WasmOperator) : option (list OperatorFromWasm) :=
  match op with
  | W.F32Abs => Some [Op.Abs _32]
  | W.F32Neg => Some [Op.Neg _32]
  | W.F32Ceil => Some [Op.Ceil _32]
  | W.F32Floor => Some [Op.Floor _32]
  | W.F32Trunc => Some [Op.Trunc _32]
  | W.F32Nearest => Some [Op.Nearest _32]
  | W.F32Sqrt => Some [Op.Sqrt _32]
  | W.F32Add => Some [Op.Add F32]
  | W.F32Sub => Some [Op.Sub F32]
  | W.F32Mul => Some [Op.Mul F32]
  | W.F32Div => Some [Op.Div SF32]
  | W.F32Min => Some [Op.Min _32]
  | W.F32Max => Some [Op.Max _32]
  | W.F32Copysign => Some [Op.Copysign _32]
  | W.F64Abs => Some [Op.Abs _64]
  | W.F64Neg => Some [Op.Neg _64]
  | W.F64Ceil => Some [Op.Ceil _64]
  | W.F64Floor => Some [Op.Floor _64]
  | W.F64Trunc => Some [Op.Trunc _64]
  | W.F64Nearest => Some [Op.Nearest _64]
  | W.F64Sqrt => Some [Op.Sqrt _64]
  | W.F64Add => Some [Op.Add F64]
  | W.F64Sub => Some [Op.Sub F64]
  | W.F64Mul => Some [Op.Mul F64]
  | W.F64Div => Some [Op.Div SF64]
  | W.F64Min => Some [Op.Min _64]
  | W.F64Max => Some [Op.Max _64]
  | W.F64Copysign => Some [Op.Copysign _64]
  | _ => None
  end.

(** and conversions. *)
Definition emit_conversion (op : WasmOperator) : option (list OperatorFromWasm) :=
  match op with
  | W.I32WrapI64 => Some [Op.I32WrapFromI64]
  | W.I32TruncSF32 => Some [Op.ITruncFromF _32 sint.I32]
  | W.I32TruncUF32 => Some [Op.ITruncFromF _32 sint.U32]
  | W.I32TruncSF64 => Some [Op.ITruncFromF _64 sint.I32]
  | W.I32TruncUF64 => Some [Op.ITruncFromF _64 sint.U32]
  | W.I64ExtendSI32 => Some [Op.Extend Signed]
  | W.I64ExtendUI32 => Some [Op.Extend Unsigned]
  | W.I64TruncSF32 => Some [Op.ITruncFromF _32 sint.I64]
  | W.I64TruncUF32 => Some [Op.ITruncFromF _32 sint.U64]
  | W.I64TruncSF64 => Some [Op.ITruncFromF _64 sint.I64]
  | W.I64TruncUF64 => Some [Op.ITruncFromF _64 sint.U64]
  | W.F32ConvertSI32 => Some [Op.FConvertFromI sint.I32 _32]
  | W.F32ConvertUI32 => Some [Op.FConvertFromI sint.U32 _32]
  | W.F32ConvertSI64 => Some [Op.FConvertFromI sint.I64 _32]
  | W.F32ConvertUI64 => Some [Op.FConvertFromI sint.U64 _32]
  | W.F64ConvertSI32 => Some [Op.FConvertFromI sint.I32 _64]
  | W.F64ConvertUI32 => Some [Op.FConvertFromI sint.U32 _64]
  | W.F64ConvertSI64 => Some [Op.FConvertFromI sint.I64 _64]
  | W.F64ConvertUI64 => Some [Op.FConvertFromI sint.U64 _64]
  | W.F32DemoteF64 => Some [Op.F32DemoteFromF64]
  | W.F64PromoteF32 => Some [Op.F64PromoteFromF32]
  | W.I32ReinterpretF32 => Some [Op.I32ReinterpretFromF32]
  | W.I64ReinterpretF64 => Some [Op.I64ReinterpretFromF64]
  | W.F32ReinterpretI32 => Some [Op.F32ReinterpretFromI32]
  | W.F64ReinterpretI64 => Some [Op.F64ReinterpretFromI64]
  | _ => None
  end.

Definition emit_numeric (op : WasmOperator) : option (list OperatorFromWasm) :=
  match emit_memory op with
  | Some l => Some l
  | None =>
      match emit_integer op with
      | Some l => Some l
      | None =>
          match emit_float op with Some l => Some l | None => emit_conversion op end
      end
  end.

(** The [match] on the operator. *)
Definition emit_op (c : MicrowasmConv) (op : WasmOperator) : res (MicrowasmConv * Item) :=
  match op with
  | W.Unreachable => emit (set_unreachable true c) [Op.Unreachable]
  | W.Nop => emit c []
  | W.Block ty => emit_block c ty
  | W.Loop ty => emit_loop c ty
  | W.If ty => emit_if c ty
  | W.Else => emit_else c
  | W.End => emit_end c
  | W.Br relative_depth => emit_br c relative_depth
  | W.BrIf relative_depth => emit_br_if c relative_depth
  | W.BrTable table => emit_br_table c table
  | W.Return => emit_return c
  | W.Call function_index => emit c [Op.Call function_index]
  | W.CallIndirect index table_index => emit c [Op.CallIndirect index table_index]
  | W.Drop => emit c [Op.Drop (0, 0)]
  | W.Select => emit c [Op.Select]
  | W.GetLocal local_index => emit_get_local c local_index
  | W.SetLocal local_index => emit_set_local c local_index
  | W.TeeLocal local_index => emit_tee_local c local_index
  | W.GetGlobal global_index => emit c [Op.GetGlobal global_index]
  | W.SetGlobal global_index => emit c [Op.SetGlobal global_index]
  | _ => match emit_numeric op with Some l => emit c l | None => Panic end
  end.

(** An operator in code that can be reached: its signature is applied to the
    stack, then it is translated. *)
Definition translate_op (c : MicrowasmConv) (op : WasmOperator) : res (MicrowasmConv * Item) :=
  sig ← op_sig c op;
  c ← apply_op c sig;
  emit_op c op.

(** [Iterator::next] *)
Definition next (c : MicrowasmConv) : res (MicrowasmConv * Item) :=
  if is_done c then Ret (c, None) else
  match consts_to_emit c with
  | Some consts => emit (take_consts c) (map Op.Const consts)
  | None =>
      if unreachable c then skip_loop (internal c) 0 (set_unreachable false c)
      else
        match read c with
        | (c, Err e) => Ret (c, Some (Err e))
        | (c, Ok op) => translate_op c op
        end
  end.

(** The operators that [translate_wasm] feeds to the code generator: the
    items of the iterator, an error being a panic.  A call of [next] reads
    an operator, or is the first or the last one: [None] is a lack of fuel. *)
Fixpoint collect (fuel : nat) (c : MicrowasmConv) : option (res (list OperatorFromWasm)) :=
  match fuel with
  | O => None
  | S fuel =>
      match next c with
      | Panic => Some Panic
      | Ret (_, None) => Some (Ret [])
      | Ret (_, Some (Err _)) => Some Panic
      | Ret (c, Some (Ok ops)) =>
          rest ← collect fuel c; Some (rest ← rest; Ret (ops ++ rest))
      end
  end.

End conv.

(** ** The virtual stack of the code generator

    What the code generator ([lightbeam/src/function_body.rs] and
    [backend.rs]) does with the operators that move values: its stack of
    locations, over any type of locations. *)

Section virtual_stack.
Context {A : Type}.

(** [Context::pick] and [Context::swap] *)
Definition ctx_pick (s : list A) (depth : Z) : res (list A) :=
  n ← op_sub 64 (zlen s) 1; idx ← op_sub 64 n depth;
  v ← zindex s idx; Ret (s ++ [v]).

Definition ctx_swap (s : list A) (depth : Z) : res (list A) :=
  l ← op_sub 64 (zlen s) 1; idx ← op_sub 64 l depth;
  a ← zindex s l; b ← zindex s idx;
  s ← zset s l b; zset s idx a.

(** [Context::drop]: [n] values are popped, given back with the last popped
    first. *)
Fixpoint ctx_pops (n : nat) (s popped : list A) : res (list A * list A) :=
  match n with
  | O => Ret (s, popped)
  | S n => '(s, v) ← unwrap (vec_pop s); ctx_pops n s (v :: popped)
  end.

Definition ctx_drop (s : list A) (range : RangeInclusive) : res (list A) :=
  '(s, repush) ← ctx_pops (Z.to_nat range.1) s [];
  '(s, _) ← ctx_pops (Z.to_nat (range.2 - range.1 + 1)) s [];
  Ret (s ++ repush).

(** [drop_elements] of [translate]; [Vec::drain] panics when the range is
    not one of the vector. *)
Definition drain (s : list A) (first last : Z) : res (list A) :=
  if (first <=? last + 1) && (last + 1 <=? zlen s)
  then Ret (take (Z.to_nat first) s ++ drop (Z.to_nat (last + 1)) s) else Panic.

Definition drop_elements (s : list A) (depths : RangeInclusive) : res (list A) :=
  match checked_sub 64 (zlen s) 1 ≫= λ n, checked_sub 64 n depths.2 with
  | None => Ret s
  | Some start =>
      match checked_sub 64 (zlen s) 1 ≫= λ n, checked_sub 64 n depths.1 with
      | None => Ret s
      | Some end_ => drain s start end_
      end
  end.
End virtual_stack.
