(* ===== verification/MicrowasmTyping.v ===== *)
(** * The type system of Microwasm

    Two specifications that do not refer to the conversion: which function
    bodies are valid WebAssembly ([validate]), and which sequences of
    Microwasm operators are well formed ([check]: the operands of every
    operator are on the stack, labels are defined once, before they are used,
    and every branch finds its parameters on the stack and its label in the
    code).  [MicrowasmProofs.v] relates them. *)

From S2P Require Import Prelude Microwasm.
Import V(Value) W(WasmOperator) Op(Operator).
Local Open Scope Z_scope.

(** Types on top of a stack. *)
Definition pop_suffix (s k : list SignlessType) : option (list SignlessType) :=
  let n := (length s - length k)%nat in
  if bool_decide (drop n s = k) then Some (take n s) else None.

(** ** Valid WebAssembly *)

(** The classes of numeric operators of the WebAssembly specification. *)
Inductive numeric_class :=
| Testop (t : SignlessType) | Relop (t : SignlessType) | Unop (t : SignlessType)
| Binop (t : SignlessType) | Cvtop (to from : SignlessType) | Constop (t : SignlessType)
| Loadop (t : SignlessType) | Storeop (t : SignlessType) | Sizeop | Growop.

Definition class_type (k : numeric_class) : list SignlessType * list SignlessType :=
  match k with
  | Testop t => ([t], [I32])
  | Relop t => ([t; t], [I32])
  | Unop t => ([t], [t])
  | Binop t => ([t; t], [t])
  | Cvtop t2 t1 => ([t1], [t2])
  | Constop t => ([], [t])
  | Loadop t => ([I32], [t])
  | Storeop t => ([I32; t], [])
  | Sizeop => ([], [I32])
  | Growop => ([I32], [I32])
  end.

Definition class_of (op : WasmOperator) : option numeric_class :=
  match op with
  | W.I32Load _ | W.I32Load8S _ | W.I32Load8U _ | W.I32Load16S _ | W.I32Load16U _ =>
      Some (Loadop I32)
  | W.I64Load _ | W.I64Load8S _ | W.I64Load8U _ | W.I64Load16S _ | W.I64Load16U _
  | W.I64Load32S _ | W.I64Load32U _ => Some (Loadop I64)
  | W.F32Load _ => Some (Loadop F32)
  | W.F64Load _ => Some (Loadop F64)
  | W.I32Store _ | W.I32Store8 _ | W.I32Store16 _ => Some (Storeop I32)
  | W.I64Store _ | W.I64Store8 _ | W.I64Store16 _ | W.I64Store32 _ => Some (Storeop I64)
  | W.F32Store _ => Some (Storeop F32)
  | W.F64Store _ => Some (Storeop F64)
  | W.MemorySize _ => Some Sizeop
  | W.MemoryGrow _ => Some Growop
  | W.I32Const _ => Some (Constop I32)
  | W.I64Const _ => Some (Constop I64)
  | W.F32Const _ => Some (Constop F32)
  | W.F64Const _ => Some (Constop F64)
  | W.I32Eqz => Some (Testop I32)
  | W.I64Eqz => Some (Testop I64)
  | W.I32Eq | W.I32Ne | W.I32LtS | W.I32LtU | W.I32GtS | W.I32GtU | W.I32LeS | W.I32LeU
  | W.I32GeS | W.I32GeU => Some (Relop I32)
  | W.I64Eq | W.I64Ne | W.I64LtS | W.I64LtU | W.I64GtS | W.I64GtU | W.I64LeS | W.I64LeU
  | W.I64GeS | W.I64GeU => Some (Relop I64)
  | W.F32Eq | W.F32Ne | W.F32Lt | W.F32Gt | W.F32Le | W.F32Ge => Some (Relop F32)
  | W.F64Eq | W.F64Ne | W.F64Lt | W.F64Gt | W.F64Le | W.F64Ge => Some (Relop F64)
  | W.I32Clz | W.I32Ctz | W.I32Popcnt => Some (Unop I32)
  | W.I64Clz | W.I64Ctz | W.I64Popcnt => Some (Unop I64)
  | W.F32Abs | W.F32Neg | W.F32Ceil | W.F32Floor | W.F32Trunc | W.F32Nearest | W.F32Sqrt =>
      Some (Unop F32)
  | W.F64Abs | W.F64Neg | W.F64Ceil | W.F64Floor | W.F64Trunc | W.F64Nearest | W.F64Sqrt =>
      Some (Unop F64)
  | W.I32Add | W.I32Sub | W.I32Mul | W.I32DivS | W.I32DivU | W.I32RemS | W.I32RemU | W.I32And
  | W.I32Or | W.I32Xor | W.I32Shl | W.I32ShrS | W.I32ShrU | W.I32Rotl | W.I32Rotr =>
      Some (Binop I32)
  | W.I64Add | W.I64Sub | W.I64Mul | W.I64DivS | W.I64DivU | W.I64RemS | W.I64RemU | W.I64And
  | W.I64Or | W.I64Xor | W.I64Shl | W.I64ShrS | W.I64ShrU | W.I64Rotl | W.I64Rotr =>
      Some (Binop I64)
  | W.F32Add | W.F32Sub | W.F32Mul | W.F32Div | W.F32Min | W.F32Max | W.F32Copysign =>
      Some (Binop F32)
  | W.F64Add | W.F64Sub | W.F64Mul | W.F64Div | W.F64Min | W.F64Max | W.F64Copysign =>
      Some (Binop F64)
  | W.I32WrapI64 => Some (Cvtop I32 I64)
  | W.I64ExtendSI32 | W.I64ExtendUI32 => Some (Cvtop I64 I32)
  | W.I32TruncSF32 | W.I32TruncUF32 | W.I32ReinterpretF32 => Some (Cvtop I32 F32)
  | W.I32TruncSF64 | W.I32TruncUF64 => Some (Cvtop I32 F64)
  | W.I64TruncSF32 | W.I64TruncUF32 => Some (Cvtop I64 F32)
  | W.I64TruncSF64 | W.I64TruncUF64 | W.I64ReinterpretF64 => Some (Cvtop I64 F64)
  | W.F32ConvertSI32 | W.F32ConvertUI32 | W.F32ReinterpretI32 => Some (Cvtop F32 I32)
  | W.F32ConvertSI64 | W.F32ConvertUI64 => Some (Cvtop F32 I64)
  | W.F64ConvertSI32 | W.F64ConvertUI32 => Some (Cvtop F64 I32)
  | W.F64ConvertSI64 | W.F64ConvertUI64 | W.F64ReinterpretI64 => Some (Cvtop F64 I64)
  | W.F32DemoteF64 => Some (Cvtop F32 F64)
  | W.F64PromoteF32 => Some (Cvtop F64 F32)
  | _ => None
  end.

Inductive vkind := VFunc | VBlock | VLoop | VIf | VElse.

(** An open block: its kind, its results, and the operands of the enclosing
    block that are below it. *)
Record vframe := mkVFrame {
  v_kind : vkind;
  v_results : list SignlessType;
  v_below : list SignlessType;
}.

(** The operands of the innermost block; or, after an unconditional branch,
    the number of blocks that have been opened since. *)
Inductive vmode := Reachable (operands : list SignlessType) | Skipping (depth : nat).

(** Locals, open blocks (innermost first), and the current position. *)
Record vstate := mkVState {
  v_locals : list SignlessType;
  v_frames : list vframe;
  v_mode : vmode;
}.

Definition block_type (ty : TypeOrFuncType) : option (list SignlessType) :=
  match ty with
  | WType WT.I32 => Some [I32]
  | WType WT.I64 => Some [I64]
  | WType WT.F32 => Some [F32]
  | WType WT.F64 => Some [F64]
  | WType WT.EmptyBlockType => Some []
  | _ => None
  end.

(** The operands that a branch to a block takes. *)
Definition label_types (f : vframe) : list SignlessType :=
  match v_kind f with VLoop => [] | _ => v_results f end.

Section validation.
Context `{ModuleContext}.

(** A function of the first version of WebAssembly has at most one result. *)
Definition call_type (r : res (list SignlessType * list SignlessType))
    : option (list SignlessType * list SignlessType) :=
  match r with
  | Ret s => if (length s.2 <=? 1)%nat then Some s else None
  | Panic => None
  end.

(** Types of the operators that are not control operators, with the locals
    and the operands on the stack. *)
Definition simple_type (locals operands : list SignlessType) (op : WasmOperator)
    : option (list SignlessType * list SignlessType) :=
  match op with
  | W.Nop => Some ([], [])
  | W.Drop => t ← last operands; Some ([t], [])
  | W.Select =>
      '(_, t) ← vec_pop operands ≫= λ p, vec_pop p.1; Some ([t; t; I32], [t])
  | W.GetLocal i => t ← zget locals i; Some ([], [t])
  | W.SetLocal i => t ← zget locals i; Some ([t], [])
  | W.TeeLocal i => t ← zget locals i; Some ([t], [t])
  | W.GetGlobal i => match global_type i with Ret t => Some ([], [t]) | Panic => None end
  | W.SetGlobal i => match global_type i with Ret t => Some ([t], []) | Panic => None end
  | W.Call i => call_type (func_type i)
  | W.CallIndirect i _ => s ← call_type (signature i); Some (s.1 ++ [I32], s.2)
  | _ => class_type <$> class_of op
  end.

Definition frame_at (fs : list vframe) (n : Z) : option vframe := zget fs n.

(** A branch to block [n] finds its operands. *)
Definition branch_ok (fs : list vframe) (operands : list SignlessType) (n : Z) : bool :=
  match frame_at fs n with
  | Some f => bool_decide (is_Some (pop_suffix operands (label_types f)))
  | None => false
  end.

Definition push_frame (st : vstate) (k : vkind) (below : list SignlessType) (ty : TypeOrFuncType)
    : option vstate :=
  r ← block_type ty;
  Some (mkVState (v_locals st) (mkVFrame k r below :: v_frames st) (Reachable [])).

Definition leave (st : vstate) : option vstate :=
  match v_frames st with
  | [] => None
  | f :: fs =>
      match v_kind f, v_results f with
      | VIf, _ :: _ => None
      | _, _ => Some (mkVState (v_locals st) fs (Reachable (v_below f ++ v_results f)))
      end
  end.

Definition enter_else (st : vstate) : option vstate :=
  match v_frames st with
  | mkVFrame VIf r b :: fs =>
      Some (mkVState (v_locals st) (mkVFrame VElse r b :: fs) (Reachable []))
  | _ => None
  end.

(** The results of the innermost block are exactly what is on its stack. *)
Definition results_ok (st : vstate) (operands : list SignlessType) : bool :=
  match v_frames st with f :: _ => bool_decide (operands = v_results f) | [] => false end.

Definition vstep_reachable (st : vstate) (o : list SignlessType) (op : WasmOperator)
    : option vstate :=
  let st' m := mkVState (v_locals st) (v_frames st) m in
  match op with
  | W.Unreachable => Some (st' (Skipping 0))
  | W.Block ty => push_frame st VBlock o ty
  | W.Loop ty => push_frame st VLoop o ty
  | W.If ty => o ← pop_suffix o [I32]; push_frame st VIf o ty
  | W.Else => if results_ok st o then enter_else st else None
  | W.End => if results_ok st o then leave st else None
  | W.Br n => if branch_ok (v_frames st) o n then Some (st' (Skipping 0)) else None
  | W.BrIf n =>
      o ← pop_suffix o [I32];
      if branch_ok (v_frames st) o n then Some (st' (Reachable o)) else None
  | W.BrTable (Ok (ns, d)) =>
      o ← pop_suffix o [I32];
      if forallb (branch_ok (v_frames st) o) (ns ++ [d]) then Some (st' (Skipping 0)) else None
  | W.BrTable (Err _) => None
  | W.Return =>
      f ← last (v_frames st); _ ← pop_suffix o (v_results f); Some (st' (Skipping 0))
  | _ =>
      '(i, r) ← simple_type (v_locals st) o op;
      o ← pop_suffix o i; Some (st' (Reachable (o ++ r)))
  end.

(** Of code that cannot be reached only the nesting matters. *)
Definition vstep_skipping (st : vstate) (d : nat) (op : WasmOperator) : option vstate :=
  let st' d := mkVState (v_locals st) (v_frames st) (Skipping d) in
  match op with
  | W.Block _ | W.Loop _ | W.If _ => Some (st' (S d))
  | W.Else => match d with O => enter_else st | S _ => Some (st' d) end
  | W.End => match d with O => leave st | S d => Some (st' d) end
  | _ => Some (st' d)
  end.

Definition vstep (st : vstate) (op : WasmOperator) : option vstate :=
  match v_frames st with
  | [] => None
  | _ =>
      match v_mode st with
      | Reachable o => vstep_reachable st o op
      | Skipping d => vstep_skipping st d op
      end
  end.

Fixpoint validate (st : vstate) (ops : list WasmOperator) : option vstate :=
  match ops with [] => Some st | op :: ops => st ← vstep st op; validate st ops end.

(** A body is valid when it closes the block of the function with its last
    operator. *)
Definition valid_body (locals rets : list SignlessType) (ops : list WasmOperator) : Prop :=
  ∃ st, validate (mkVState locals [mkVFrame VFunc rets []] (Reachable [])) ops = Some st ∧
    v_frames st = [].

End validation.

(** Loops without results. *)
Definition plain_loop (op : WasmOperator) : Prop :=
  match op with W.Loop ty => block_type ty = Some [] | _ => True end.

(** ** Well-formed Microwasm *)

Definition signless (t : SignfulType) : SignlessType :=
  match t with TInt (mkSignfulInt _ z) => TInt z | TFloat z => TFloat z end.
Definition int_of (t : SignfulInt) : SignlessType := match t with mkSignfulInt _ z => TInt z end.

Record label_info := mkLabel {
  l_params : list SignlessType;
  l_backwards : bool;
  l_callers : option Z;   (* callers that are still to come *)
  l_called : bool;
  l_placed : bool;
}.

(** The stack, unless the previous block has been closed, and the labels. *)
Record mstate := mkM {
  m_stack : option (list SignlessType);
  m_labels : gmap WasmLabel label_info;
}.

Definition res_option {A} (r : res A) : option A :=
  match r with Ret a => Some a | Panic => None end.

Section checking.
Context `{ModuleContext} (rets : list SignlessType).

Definition operator_type (op : OperatorFromWasm) : option (list SignlessType * list SignlessType) :=
  match op with
  | Op.Call i => res_option (func_type i)
  | Op.CallIndirect i _ => s ← res_option (signature i); Some (s.1 ++ [I32], s.2)
  | Op.GetGlobal i => t ← res_option (global_type i); Some ([], [t])
  | Op.SetGlobal i => t ← res_option (global_type i); Some ([t], [])
  | Op.Load ty _ => Some ([I32], [ty])
  | Op.Load8 ty _ | Op.Load16 ty _ => Some ([I32], [int_of ty])
  | Op.Load32 _ _ => Some ([I32], [I64])
  | Op.Store ty _ => Some ([I32; ty], [])
  | Op.Store8 ty _ | Op.Store16 ty _ => Some ([I32; TInt ty], [])
  | Op.Store32 _ => Some ([I32; I64], [])
  | Op.MemorySize _ => Some ([], [I32])
  | Op.MemoryGrow _ => Some ([I32], [I32])
  | Op.Const v => Some ([], [type_ v])
  | Op.Eq ty | Op.Ne ty => Some ([ty; ty], [I32])
  | Op.Eqz ty => Some ([TInt ty], [I32])
  | Op.Lt ty | Op.Gt ty | Op.Le ty | Op.Ge ty => Some ([signless ty; signless ty], [I32])
  | Op.Add ty | Op.Sub ty | Op.Mul ty => Some ([ty; ty], [ty])
  | Op.Clz ty | Op.Ctz ty | Op.Popcnt ty => Some ([TInt ty], [TInt ty])
  | Op.Div ty => Some ([signless ty; signless ty], [signless ty])
  | Op.Rem ty | Op.Shr ty => Some ([int_of ty; int_of ty], [int_of ty])
  | Op.And ty | Op.Or ty | Op.Xor ty | Op.Shl ty | Op.Rotl ty | Op.Rotr ty =>
      Some ([TInt ty; TInt ty], [TInt ty])
  | Op.Abs ty | Op.Neg ty | Op.Ceil ty | Op.Floor ty | Op.Trunc ty | Op.Nearest ty
  | Op.Sqrt ty => Some ([TFloat ty], [TFloat ty])
  | Op.Min ty | Op.Max ty | Op.Copysign ty => Some ([TFloat ty; TFloat ty], [TFloat ty])
  | Op.I32WrapFromI64 => Some ([I64], [I32])
  | Op.ITruncFromF i o => Some ([TFloat i], [int_of o])
  | Op.FConvertFromI i o => Some ([int_of i], [TFloat o])
  | Op.F32DemoteFromF64 => Some ([F64], [F32])
  | Op.F64PromoteFromF32 => Some ([F32], [F64])
  | Op.I32ReinterpretFromF32 => Some ([F32], [I32])
  | Op.I64ReinterpretFromF64 => Some ([F64], [I64])
  | Op.F32ReinterpretFromI32 => Some ([I32], [F32])
  | Op.F64ReinterpretFromI64 => Some ([I64], [F64])
  | Op.Extend _ => Some ([I32], [I64])
  | _ => None
  end.

(** One more caller of a label that is defined. *)
Definition call_label (b : label_info) : option label_info :=
  match l_callers b with
  | None => Some (mkLabel (l_params b) (l_backwards b) None true (l_placed b))
  | Some n =>
      if 0 <? n
      then Some (mkLabel (l_params b) (l_backwards b) (Some (n - 1)) true (l_placed b))
      else None
  end.

(** A branch with the stack [s]: the parameters of the label are exactly the
    stack; the returned values are on top of it. *)
Definition check_branch (m : gmap WasmLabel label_info) (s : list SignlessType)
    (t : BrTarget WasmLabel) : option (gmap WasmLabel label_info) :=
  match t with
  | Return => _ ← pop_suffix s rets; Some m
  | Label l =>
      b ← m !! l;
      if bool_decide (s = l_params b) then b ← call_label b; Some (<[l := b]> m) else None
  end.

Definition check_target (m : gmap WasmLabel label_info) (s : list SignlessType)
    (t : BrTargetDrop WasmLabel) : option (gmap WasmLabel label_info) :=
  s ← match to_drop t with Some d => res_option (drop_elements s d) | None => Some s end;
  check_branch m s (target t).

Fixpoint check_targets (m : gmap WasmLabel label_info) (s : list SignlessType)
    (ts : list (BrTargetDrop WasmLabel)) : option (gmap WasmLabel label_info) :=
  match ts with [] => Some m | t :: ts => m ← check_target m s t; check_targets m s ts end.

(** A label can be placed once, where no block is open, and when all its
    callers are before it unless it has backwards callers.  A label without
    backwards callers is forgotten. *)
Definition place_label (m : mstate) (l : WasmLabel) : option mstate :=
  match m_stack m, m_labels m !! l with
  | None, Some b =>
      if l_placed b then None
      else if l_backwards b
      then Some (mkM (Some (l_params b))
                   (<[l := mkLabel (l_params b) true (l_callers b) (l_called b) true]> (m_labels m)))
      else if bool_decide (l_callers b = None ∨ l_callers b = Some 0)
      then Some (mkM (Some (l_params b)) (delete l (m_labels m)))
      else None
  | _, _ => None
  end.

(** Operators inside a block. *)
Definition check_inside (s : list SignlessType) (m : gmap WasmLabel label_info)
    (op : OperatorFromWasm) : option mstate :=
  match op with
  | Op.Unreachable => Some (mkM None m)
  | Op.Br t => m ← check_branch m s t; Some (mkM None m)
  | Op.BrIf t1 t2 =>
      s ← pop_suffix s [I32];
      if bool_decide (target t1 = target t2) then None
      else m ← check_targets m s [t1; t2]; Some (mkM None m)
  | Op.BrTable tb =>
      s ← pop_suffix s [I32];
      m ← check_targets m s (targets tb ++ [default tb]); Some (mkM None m)
  | Op.Drop r =>
      if bool_decide (0 ≤ r.1 ≤ r.2)
      then s ← res_option (ctx_drop s r); Some (mkM (Some s) m) else None
  | Op.Pick d => s ← res_option (ctx_pick s d); Some (mkM (Some s) m)
  | Op.Swap d => s ← res_option (ctx_swap s d); Some (mkM (Some s) m)
  | Op.Select =>
      '(_, t) ← vec_pop s ≫= λ p, vec_pop p.1;
      s ← pop_suffix s [t; t; I32]; Some (mkM (Some (s ++ [t])) m)
  | _ =>
      '(i, r) ← operator_type op;
      s ← pop_suffix s i; Some (mkM (Some (s ++ r)) m)
  end.

Definition check_op (m : mstate) (op : OperatorFromWasm) : option mstate :=
  match op with
  | Op.Label_ l => place_label m l
  | Op.Block l p back n =>
      match m_stack m, m_labels m !! l with
      | Some _, None => Some (mkM (m_stack m) (<[l := mkLabel p back n false false]> (m_labels m)))
      | _, _ => None
      end
  | _ => s ← m_stack m; check_inside s (m_labels m) op
  end.

Fixpoint check (m : mstate) (ops : list OperatorFromWasm) : option mstate :=
  match ops with [] => Some m | op :: ops => m ← check_op m op; check m ops end.

(** The code of a function: it starts with the parameters on the stack, its
    last block is closed, and every label that is branched to is placed. *)
Definition well_formed (params : list SignlessType) (ops : list OperatorFromWasm) : Prop :=
  ∃ m, check (mkM (Some params) ∅) ops = Some m ∧ m_stack m = None ∧
    ∀ l b, m_labels m !! l = Some b → l_called b = true → l_placed b = true.

End checking.
