(* ===== verification/MicrowasmProofs.v ===== *)
(** * Valid WebAssembly becomes well-formed Microwasm

    The conversion of [Microwasm.v] against the two specifications of
    [MicrowasmTyping.v].  The invariant relates the state of validation, the
    state of the conversion and the state of the checker of its output; each
    operator preserves it. *)

From S2P Require Import Prelude Microwasm MicrowasmTyping.
Import V(Value) W(WasmOperator) Op(Operator).
Local Open Scope Z_scope.

(** ** Stacks *)

Lemma vec_pop_snoc {A} (s : list A) x : vec_pop (s ++ [x]) = Some (s, x).
Proof. unfold vec_pop. rewrite last_snoc. by rewrite removelast_last. Qed.

Lemma vec_pop_Some {A} (s s' : list A) x : vec_pop s = Some (s', x) → s = s' ++ [x].
Proof.
  destruct s as [|y l] using rev_ind; [done|]. rewrite vec_pop_snoc. by intros [= -> ->].
Qed.

Lemma pop_suffix_app s k : pop_suffix (s ++ k) k = Some s.
Proof.
  unfold pop_suffix. rewrite length_app.
  replace (length s + length k - length k)%nat with (length s) by lia.
  by rewrite drop_app_length, take_app_length, bool_decide_eq_true_2.
Qed.

Lemma pop_suffix_Some s k p : pop_suffix s k = Some p ↔ s = p ++ k.
Proof.
  split; [|intros ->; apply pop_suffix_app].
  unfold pop_suffix. case_bool_decide as E; [|done]. intros [= <-]. rewrite <- E at 2.
  by rewrite take_drop.
Qed.

Section virtual_stack.
Context {A : Type}.
Implicit Types s b x r : list A.

Lemma ctx_pops_app s x l : ctx_pops (length x) (s ++ x) l = Ret (s, x ++ l).
Proof.
  revert s l. induction x as [|v x IH] using rev_ind; intros s l; [by rewrite app_nil_r|].
  rewrite length_app. cbn [length]. rewrite Nat.add_comm, app_assoc. cbn [Nat.add ctx_pops].
  rewrite vec_pop_snoc. cbn [unwrap]. rewrite bind_Ret_l. rewrite IH, <- app_assoc. done.
Qed.

(** The range of depths that a block drops removes the middle of the stack. *)
Lemma ctx_drop_middle b x r :
  x ≠ [] → ctx_drop (b ++ x ++ r) (zlen r, zlen r + zlen x - 1) = Ret (b ++ r).
Proof.
  intros Hx. unfold ctx_drop. cbn [fst snd]. unfold zlen. rewrite Nat2Z.id, app_assoc, ctx_pops_app.
  rewrite bind_Ret_l, app_nil_r.
  replace (Z.to_nat _) with (length x) by (destruct x; [done|cbn; lia]).
  by rewrite ctx_pops_app.
Qed.

Lemma drop_elements_middle b x r :
  x ≠ [] → zlen (b ++ x ++ r) < 2 ^ 64 →
  drop_elements (b ++ x ++ r) (zlen r, zlen r + zlen x - 1) = Ret (b ++ r).
Proof.
  intros Hx Hb. unfold drop_elements. cbn [fst snd].
  assert (0 < zlen x) by (destruct x; [done|rewrite zlen_cons; pose proof (zlen_nonneg x); lia]).
  pose proof (zlen_nonneg b). pose proof (zlen_nonneg r). rewrite !zlen_app in *.
  assert (E1 : checked_sub 64 (zlen b + (zlen x + zlen r)) 1 = Some (zlen b + zlen x + zlen r - 1))
    by (apply checked_sub_Some; lia).
  rewrite E1. cbn [mbind option_bind].
  rewrite (proj2 (checked_sub_Some _ _ _ (zlen b))) by lia.
  rewrite (proj2 (checked_sub_Some _ _ _ (zlen b + zlen x - 1))) by lia.
  unfold drain. rewrite !zlen_app, (proj2 (Z.leb_le _ _)), (proj2 (Z.leb_le _ _)) by lia. cbn [andb].
  unfold zlen. rewrite Nat2Z.id, take_app_length. do 2 f_equal.
  replace (Z.to_nat _) with (length b + length x)%nat by lia.
  by rewrite <- drop_drop, drop_app_length, drop_app_length.
Qed.

Lemma ctx_pick_spec s i v :
  zget s i = Some v → zlen s < 2 ^ 64 → ctx_pick s (zlen s - 1 - i) = Ret (s ++ [v]).
Proof.
  intros Hi Hs. pose proof (zget_Some_lt _ _ _ Hi). unfold ctx_pick.
  rewrite op_sub_fits by lia. rewrite bind_Ret_l, op_sub_fits by lia. rewrite bind_Ret_l.
  replace (zlen s - 1 - (zlen s - 1 - i)) with i by lia. unfold zindex. by rewrite Hi.
Qed.

(** Swapping the top with the element [i] below it. *)
Lemma ctx_swap_spec s top i v :
  zget s i = Some v → zlen s + 1 < 2 ^ 64 →
  ctx_swap (s ++ [top]) (zlen s - i) = Ret (<[Z.to_nat i := top]> s ++ [v]).
Proof.
  intros Hi Hs. pose proof (zget_Some_lt _ _ _ Hi). unfold ctx_swap.
  rewrite zlen_app. change (zlen [top]) with 1. rewrite op_sub_fits by lia.
  rewrite bind_Ret_l, op_sub_fits by lia. rewrite bind_Ret_l.
  replace (zlen s + 1 - 1 - (zlen s - i)) with i by lia.
  replace (zlen s + 1 - 1) with (zlen s) by lia.
  unfold zindex. rewrite (zget_app_r s [top] (zlen s)), Z.sub_diag by lia.
  change (zget [top] 0) with (Some top). cbn [unwrap]. rewrite bind_Ret_l.
  rewrite zget_app_l, Hi by lia. cbn [unwrap]. rewrite bind_Ret_l.
  rewrite zset_Ret by (rewrite zlen_app; change (zlen [top]) with 1; lia).
  rewrite bind_Ret_l, zset_Ret by (rewrite zlen_insert, zlen_app; change (zlen [top]) with 1; lia).
  f_equal. unfold zlen in *. rewrite Nat2Z.id.
  rewrite insert_app_r_alt by lia. rewrite Nat.sub_diag. cbn [insert list_insert].
  by rewrite insert_app_l by lia.
Qed.
End virtual_stack.

(** ** Signatures *)

Lemma apply_input_concrete s x t : apply_input (s ++ [x], t) (Concrete x) = Ret (s, t).
Proof.
  unfold apply_input. cbn [fst snd]. rewrite vec_pop_snoc. cbn [unwrap]. rewrite bind_Ret_l.
  by rewrite bool_decide_eq_true_2.
Qed.

Lemma apply_inputs p i t :
  foldM apply_input (p ++ i, t) (rev (map Concrete i)) = Ret (p, t).
Proof.
  revert p. induction i as [|x i IH] using rev_ind; intros p; [by rewrite app_nil_r|].
  rewrite map_app, rev_app_distr, app_assoc. cbn [map rev app foldM].
  by rewrite apply_input_concrete, bind_Ret_l, IH.
Qed.

(** With at most one result, applying a signature replaces the types on top. *)
Lemma apply_op_spec c p i r :
  stack c = p ++ i → (length r ≤ 1)%nat →
  apply_op c (OpSig_new (map Concrete i) (map Concrete r)) = Ret (set_stack (p ++ r) c).
Proof.
  intros Hs Hr. unfold apply_op. rewrite Hs. cbn [input output].
  rewrite apply_inputs, bind_Ret_l. destruct r as [|t [|]]; cbn in Hr |- *; [|done|lia].
  by rewrite app_nil_r.
Qed.

Lemma apply_op_none c : apply_op c OpSig_none = Ret c.
Proof. by destruct c. Qed.

Section simple.
Context `{ModuleContext} (rets : list SignlessType).

(** Numeric operators: their signature and the operator that is emitted have
    the type that the class of the operator has. *)
Lemma class_sig c op k :
  class_of op = Some k →
  op_sig c op = Ret (OpSig_new (map Concrete (class_type k).1) (map Concrete (class_type k).2)).
Proof. destruct op; try discriminate 1; intros [= <-]; reflexivity. Qed.

Lemma class_emit c op k :
  class_of op = Some k →
  ∃ o, emit_op c op = emit c [o] ∧
    (∀ s m, check_op rets (mkM (Some s) m) o =
       (s ← pop_suffix s (class_type k).1; Some (mkM (Some (s ++ (class_type k).2)) m))).
Proof. destruct op; try discriminate 1; intros [= <-]; eexists; split; reflexivity. Qed.

Lemma call_type_Some r s : call_type r = Some s → r = Ret s ∧ (length s.2 ≤ 1)%nat.
Proof.
  unfold call_type. destruct r; [|done]. case_match eqn:E; [|done].
  intros [= <-]. by apply Nat.leb_le in E.
Qed.

Lemma local_depth_spec c i :
  0 ≤ i < zlen (stack c) → zlen (stack c) < 2 ^ 31 →
  local_depth c i = Ret (zlen (stack c) - 1 - i).
Proof.
  intros Hi Hs. unfold local_depth, wrap_s.
  rewrite !Z.mod_small, !(proj2 (Z.ltb_lt _ _)) by lia.
  unfold i32_checked, in_i32. rewrite !(proj2 (Z.leb_le _ _)), !(proj2 (Z.ltb_lt _ _)) by lia. cbn [andb].
  rewrite bind_Ret_l, !(proj2 (Z.leb_le _ _)), !(proj2 (Z.ltb_lt _ _)) by lia. done.
Qed.

Lemma i32_checked_fits x : - 2 ^ 31 ≤ x < 2 ^ 31 → i32_checked x = Ret x.
Proof.
  intros. unfold i32_checked, in_i32. by rewrite (proj2 (Z.leb_le _ _)), (proj2 (Z.ltb_lt _ _)) by lia.
Qed.

Lemma to_depth_fits x : 0 ≤ x < 2 ^ 32 → to_depth x = Ret x.
Proof. intros. unfold to_depth. apply unwrap_Ret. by apply try_from_u_Some. Qed.

Lemma check_one m op m' : check_op rets m op = Some m' → check rets m [op] = Some m'.
Proof. intros E. cbn. by rewrite E. Qed.

Lemma check_trans m m' op l m'' :
  check_op rets m op = Some m' → check rets m' l = Some m'' → check rets m (op :: l) = Some m''.
Proof. intros E ?. cbn. by rewrite E. Qed.

Lemma check_app m l k : check rets m (l ++ k) = m' ← check rets m l; check rets m' k.
Proof.
  revert m. induction l as [|o l IH]; intros m; [done|]. cbn. destruct (check_op _ _ _); [apply IH|done].
Qed.

(** Dropping the top, and dropping after a swap with a local of its type. *)
Lemma check_drop s t m :
  check_op rets (mkM (Some (s ++ [t])) m) (Op.Drop (0, 0)) = Some (mkM (Some s) m).
Proof.
  pose proof (ctx_drop_middle s [t] [] ltac:(done)) as E. rewrite !app_nil_r in E.
  change (zlen [], zlen [] + zlen [t] - 1) with ((0, 0) : Z * Z) in E.
  cbn [check_op m_stack m_labels mbind option_bind check_inside]. by rewrite E.
Qed.

Lemma check_store_local s t i m :
  zget s i = Some t → zlen s + 1 < 2 ^ 64 →
  check rets (mkM (Some (s ++ [t])) m) [Op.Swap (zlen s - i); Op.Drop (0, 0)] =
    Some (mkM (Some s) m).
Proof.
  intros Hi Hs. apply (check_trans _ (mkM (Some (s ++ [t])) m)); [|apply check_one, check_drop].
  cbn [check_op m_stack m_labels check_inside mbind option_bind].
  rewrite (ctx_swap_spec s t i t) by done. cbn [res_option mbind option_bind].
  rewrite list_insert_id; [done|]. unfold zget in Hi. by destruct (0 <=? i).
Qed.

Section step.
Context (c : MicrowasmConv) (locals b o p : list SignlessType) (m : gmap WasmLabel label_info).
Context (Hstack : stack c = b ++ o) (Hlocals : locals `prefix_of` b)
  (Hsize : zlen (stack c) + 2 < 2 ^ 31).

Definition steps_to (op : WasmOperator) (s : list SignlessType) : Prop :=
  ∃ ops, translate_op c op = emit (set_stack s c) ops ∧
    check rets (mkM (Some (stack c)) m) ops = Some (mkM (Some s) m).

Lemma zget_local i t : zget locals i = Some t → zget (stack c) i = Some t.
Proof.
  intros Hi. destruct Hlocals as [k ->]. rewrite Hstack, <- app_assoc, zget_app_l; [done|].
  apply zget_Some_lt in Hi. lia.
Qed.

(** An operator with a signature of concrete types. *)
Lemma translate_concrete op i r :
  op_sig c op = Ret (OpSig_new (map Concrete i) (map Concrete r)) → o = p ++ i →
  (length r ≤ 1)%nat → translate_op c op = emit_op (set_stack (b ++ p ++ r) c) op.
Proof.
  intros Hsig -> Hr. unfold translate_op. rewrite Hsig, bind_Ret_l.
  rewrite (apply_op_spec c (b ++ p) i r); [|by rewrite Hstack, app_assoc|done].
  by rewrite bind_Ret_l, app_assoc.
Qed.

Lemma step_numeric op k :
  class_of op = Some k → o = p ++ (class_type k).1 → steps_to op (b ++ p ++ (class_type k).2).
Proof.
  intros Hk Ho. destruct (class_emit (set_stack (b ++ p ++ (class_type k).2) c) op k Hk) as (x & Hx & Hc).
  exists [x]. split.
  - rewrite (translate_concrete op _ _ (class_sig c op k Hk) Ho); [done|]. by destruct k; cbn; lia.
  - apply check_one. rewrite Hc, Hstack, Ho, app_assoc, pop_suffix_app. cbn. by rewrite app_assoc.
Qed.

(** What becomes of the operators on locals. *)
Lemma translate_get_local i t :
  zget (stack c) i = Some t →
  translate_op c (W.GetLocal i) =
    emit (set_stack (stack c ++ [t]) c) [Op.Pick (zlen (stack c) - 1 - i)].
Proof.
  intros Hs. pose proof (zget_Some_lt _ _ _ Hs).
  unfold translate_op. cbn [op_sig]. unfold zindex. rewrite Hs. cbn [unwrap].
  rewrite !bind_Ret_l. change [Concrete t] with (map Concrete [t]).
  change [] with (map Concrete []) at 1.
  rewrite (apply_op_spec c (stack c) [] [t]) by (rewrite ?app_nil_r; cbn; done || lia).
  rewrite bind_Ret_l. cbn [emit_op]. unfold emit_get_local.
  assert (Hl : zlen (stack c ++ [t]) = zlen (stack c) + 1) by by rewrite zlen_app.
  rewrite local_depth_spec by (cbn [stack set_stack]; lia). cbn [stack set_stack].
  rewrite Hl, bind_Ret_l, i32_checked_fits by lia. rewrite bind_Ret_l, to_depth_fits by lia.
  rewrite bind_Ret_l. by replace (zlen (stack c) + 1 - 1 - i - 1) with (zlen (stack c) - 1 - i) by lia.
Qed.

Lemma translate_set_local s i t :
  stack c = s ++ [t] → zget s i = Some t →
  translate_op c (W.SetLocal i) = emit (set_stack s c) [Op.Swap (zlen s - i); Op.Drop (0, 0)].
Proof.
  intros Hs Hi. pose proof (zget_Some_lt _ _ _ Hi). assert (zlen (stack c) = zlen s + 1) by (rewrite Hs; apply zlen_app).
  unfold translate_op. cbn [op_sig]. unfold zindex. rewrite Hs at 1. rewrite zget_app_l, Hi by lia. cbn [unwrap].
  rewrite !bind_Ret_l. change (OpSig_new [Concrete t] []) with (OpSig_new (map Concrete [t]) (map Concrete [])).
  rewrite (apply_op_spec c s [t] []) by (cbn; done || lia). rewrite bind_Ret_l, app_nil_r.
  cbn [emit_op]. unfold emit_set_local. rewrite local_depth_spec by (cbn [stack set_stack]; lia).
  cbn [stack set_stack]. rewrite bind_Ret_l, i32_checked_fits by lia. rewrite bind_Ret_l, to_depth_fits by lia.
  rewrite bind_Ret_l. by replace (zlen s - 1 - i + 1) with (zlen s - i) by lia.
Qed.

Lemma translate_tee_local s i t :
  stack c = s ++ [t] → zget s i = Some t →
  translate_op c (W.TeeLocal i) = emit c [Op.Pick 0; Op.Swap (zlen (stack c) - i); Op.Drop (0, 0)].
Proof.
  intros Hs Hi. pose proof (zget_Some_lt _ _ _ Hi). assert (zlen (stack c) = zlen s + 1) by (rewrite Hs; apply zlen_app).
  unfold translate_op. cbn [op_sig]. unfold zindex. rewrite Hs at 1. rewrite zget_app_l, Hi by lia. cbn [unwrap].
  rewrite !bind_Ret_l. change (OpSig_new [Concrete t] [Concrete t]) with (OpSig_new (map Concrete [t]) (map Concrete [t])).
  rewrite (apply_op_spec c s [t] [t]) by (cbn; done || lia). rewrite bind_Ret_l, <- Hs.
  cbn [emit_op]. unfold emit_tee_local. rewrite local_depth_spec by (cbn [stack set_stack]; lia).
  cbn [stack set_stack]. rewrite bind_Ret_l, i32_checked_fits by lia. rewrite bind_Ret_l, to_depth_fits by lia.
  rewrite bind_Ret_l. replace (zlen (stack c) - 1 - i + 1) with (zlen (stack c) - i) by lia. by destruct c.
Qed.

Lemma step_get_local i t : zget locals i = Some t → p = o → steps_to (W.GetLocal i) (b ++ p ++ [t]).
Proof.
  intros Hi ->. pose proof (zget_local _ _ Hi) as Hs.
  assert (Hsp : stack c ++ [t] = b ++ o ++ [t]) by (by rewrite Hstack, app_assoc).
  exists [Op.Pick (zlen (stack c) - 1 - i)]. rewrite <- Hsp. split; [by apply translate_get_local|].
  apply check_one. cbn [check_op m_stack m_labels mbind option_bind check_inside].
  by rewrite (ctx_pick_spec _ _ _ Hs) by lia.
Qed.

(** A local below the operand of [set_local] or [tee_local]. *)
Lemma zget_below i t : zget locals i = Some t → zget (b ++ p) i = Some t.
Proof.
  intros Hi. pose proof (zget_Some_lt _ _ _ Hi). destruct Hlocals as [k ->].
  by rewrite <- app_assoc, zget_app_l by lia.
Qed.

Lemma step_set_local i t : zget locals i = Some t → o = p ++ [t] → steps_to (W.SetLocal i) (b ++ p).
Proof.
  intros Hi Ho. assert (Hsp : stack c = (b ++ p) ++ [t]) by (rewrite Hstack, Ho; apply app_assoc).
  pose proof (zget_below _ _ Hi) as Hb. exists [Op.Swap (zlen (b ++ p) - i); Op.Drop (0, 0)].
  split; [by eapply translate_set_local|]. rewrite Hsp in *. rewrite zlen_app in Hsize.
  change (zlen [t]) with 1 in Hsize. apply check_store_local; [done|lia].
Qed.

Lemma step_tee_local i t :
  zget locals i = Some t → o = p ++ [t] → steps_to (W.TeeLocal i) (b ++ p ++ [t]).
Proof.
  intros Hi Ho. pose proof (zget_local _ _ Hi) as Hs. pose proof (zget_Some_lt _ _ _ Hs) as Hr.
  assert (Hsp : b ++ p ++ [t] = stack c) by (by rewrite Hstack, Ho).
  exists [Op.Pick 0; Op.Swap (zlen (stack c) - i); Op.Drop (0, 0)]. rewrite Hsp. split.
  - rewrite (translate_tee_local (b ++ p) i t); [by destruct c|by rewrite <- app_assoc|by apply zget_below].
  - eapply check_trans; [|apply check_store_local; [exact Hs|lia]].
    cbn [check_op m_stack m_labels check_inside mbind option_bind].
    pose proof (ctx_pick_spec (stack c) (zlen (stack c) - 1) t) as E.
    replace (zlen (stack c) - 1 - (zlen (stack c) - 1)) with 0 in E by lia.
    rewrite E; [done| |lia]. rewrite <- Hsp, app_assoc, zlen_app. change (zlen [t]) with 1.
    by rewrite zget_app_r, Z.add_simpl_r, Z.sub_diag by lia.
Qed.

Lemma step_drop t : o = p ++ [t] → steps_to W.Drop (b ++ p).
Proof.
  intros Ho. exists [Op.Drop (0, 0)]. assert (Hs : stack c = (b ++ p) ++ [t]).
  { rewrite Hstack, Ho. apply app_assoc. }
  split; [|rewrite Hs; apply check_one, check_drop].
  unfold translate_op. cbn [op_sig]. rewrite bind_Ret_l. unfold apply_op. rewrite Hs.
  cbn [input output rev app foldM]. unfold apply_input. cbn [fst]. by rewrite vec_pop_snoc.
Qed.

Lemma step_select t : o = p ++ [t; t; I32] → steps_to W.Select (b ++ p ++ [t]).
Proof.
  intros Ho. exists [Op.Select].
  assert (Hs : stack c = (((b ++ p) ++ [t]) ++ [t]) ++ [I32]) by (rewrite Hstack, Ho, <- !app_assoc; done).
  split.
  - unfold translate_op. cbn [op_sig]. rewrite bind_Ret_l. unfold apply_op. rewrite Hs.
    cbn [input output rev app foldM]. rewrite apply_input_concrete, bind_Ret_l.
    unfold apply_input. cbn [fst snd]. rewrite vec_pop_snoc. cbn [unwrap]. rewrite !bind_Ret_l.
    cbn [fst snd]. rewrite vec_pop_snoc. cbn [unwrap]. rewrite bind_Ret_l.
    rewrite bool_decide_eq_true_2 by done. cbn. by rewrite <- app_assoc.
  - apply check_one. cbn [check_op m_stack m_labels check_inside mbind option_bind].
    assert (E : vec_pop (stack c) ≫= (λ p, vec_pop p.1) = Some ((b ++ p) ++ [t], t)).
    { rewrite Hs, vec_pop_snoc. cbn [mbind option_bind fst]. apply vec_pop_snoc. }
    cbn [mbind option_bind] in E. rewrite E, Hstack, Ho, app_assoc. cbn [mbind option_bind]. rewrite pop_suffix_app. cbn.
    by rewrite <- app_assoc.
Qed.

(** Operators with a looked-up type: globals and calls. *)
Lemma step_typed op i r :
  op_sig c op = Ret (OpSig_new (map Concrete i) (map Concrete r)) → (length r ≤ 1)%nat →
  o = p ++ i → ∀ x, (∀ c, emit_op c op = emit c [x]) →
  (∀ s, check_op rets (mkM (Some s) m) x = (s ← pop_suffix s i; Some (mkM (Some (s ++ r)) m))) →
  steps_to op (b ++ p ++ r).
Proof.
  intros Hsig Hr Ho x Hx Hc. exists [x]. split.
  - by rewrite (translate_concrete op i r Hsig Ho Hr).
  - apply check_one. rewrite Hc, Hstack, Ho, app_assoc, pop_suffix_app. cbn. by rewrite app_assoc.
Qed.

Lemma step_simple op i r :
  simple_type locals o op = Some (i, r) → o = p ++ i → steps_to op (b ++ p ++ r).
Proof.
  intros Hty Ho.
  destruct (class_of op) as [k|] eqn:Hk.
  { assert (class_type k = (i, r)) as E by
      (destruct op; try discriminate Hk; injection Hk as <-; by injection Hty as <- <-).
    pose proof (step_numeric op k Hk) as Hn. rewrite E in Hn. by apply Hn. }
  destruct op; try discriminate Hk; cbn in Hty; try discriminate Hty.
  - injection Hty as <- <-. rewrite app_nil_r in Ho. subst p. exists []. split; [|by rewrite Hstack, app_nil_r].
    unfold translate_op. cbn [op_sig]. rewrite bind_Ret_l, apply_op_none, bind_Ret_l.
    cbn [emit_op]. rewrite app_nil_r, <- Hstack. by destruct c.
  - destruct (call_type _) as [s|] eqn:Es; [|done]. injection Hty as ->.
    destruct (call_type_Some _ _ Es) as [Ef Hl]. cbn in Hl.
    eapply step_typed; [cbn; rewrite Ef; done|done|done|done|]. intros s. cbn. by rewrite Ef.
  - destruct (call_type _) as [s|] eqn:Es; [|done]. injection Hty as <- <-.
    destruct (call_type_Some _ _ Es) as [Ef Hl].
    eapply (step_typed _ (s.1 ++ [I32]) s.2);
      [cbn [op_sig]; rewrite Ef, bind_Ret_l, map_app; done|done|done|done|].
    intros s'. cbn. by rewrite Ef.
  - destruct (last o) as [t|] eqn:El; [|done]. injection Hty as <- <-. rewrite app_nil_r.
    by eapply step_drop.
  - destruct (vec_pop o) as [[o1 x1]|] eqn:E1; [|done]. cbn in Hty.
    destruct (vec_pop o1) as [[o2 x2]|] eqn:E2; [|done]. cbn in Hty. injection Hty as <- <-.
    by apply step_select.
  - destruct (zget locals _) as [t|] eqn:Ei; [|done]. injection Hty as <- <-.
    apply step_get_local; [done|]. by rewrite Ho, app_nil_r.
  - destruct (zget locals _) as [t|] eqn:Ei; [|done]. injection Hty as <- <-. rewrite app_nil_r.
    by eapply step_set_local.
  - destruct (zget locals _) as [t|] eqn:Ei; [|done]. injection Hty as <- <-.
    by apply step_tee_local.
  - destruct (global_type _) as [t|] eqn:Ei; [|done]. injection Hty as <- <-.
    eapply (step_typed _ [] [t]); [cbn; rewrite Ei; done|cbn; lia|done|done|]. intros s. cbn. by rewrite Ei.
  - destruct (global_type _) as [t|] eqn:Ei; [|done]. injection Hty as <- <-.
    eapply (step_typed _ [t] []); [cbn; rewrite Ei; done|cbn; lia|done|done|]. intros s. cbn. by rewrite Ei.
Qed.
End step.
End simple.
