(* ===== verification/MicrowasmSound.v ===== *)
(** * The conversion preserves well-formedness

    The invariant between validation, conversion and checker, its
    preservation by every operator, and the theorem on whole functions. *)

From S2P Require Import Prelude Microwasm MicrowasmTyping MicrowasmProofs.
Import V(Value) W(WasmOperator) Op(Operator).
Local Open Scope Z_scope.

(** ** The invariant *)

Notation labels := (gmap WasmLabel label_info).

(** A label that is defined; it is placed exactly when it has backwards
    callers. *)
Definition label_is (m : labels) (l : WasmLabel) (params : list SignlessType) (back : bool)
    (callers : option Z) : Prop :=
  ∃ b, m !! l = Some b ∧ l_params b = params ∧ l_backwards b = back ∧
    l_callers b = callers ∧ l_placed b = back.

(** Lookups of labels with known tags. *)
Ltac look := repeat first [rewrite lookup_insert_eq | rewrite lookup_insert_ne by done
  | rewrite lookup_delete_eq | rewrite lookup_delete_ne by done].

Section invariant.
Context (locals rets : list SignlessType).

(** What is on the stack below the operands of the innermost block. *)
Fixpoint base (fs : list vframe) : list SignlessType :=
  match fs with [] => locals | f :: fs => base fs ++ v_below f end.

Definition frame_ok (m : labels) (bs : list SignlessType) (f : vframe) (cf : ControlFrame) : Prop :=
  arguments cf = zlen bs ∧ returns cf = v_results f ∧
  match v_kind f with
  | VFunc => kind cf = FFunction
  | VBlock =>
      (∃ n, kind cf = FBlock n) ∧ label_is m (id cf, End_) (bs ++ v_results f) false None
  | VLoop =>
      kind cf = FLoop ∧ v_results f = [] ∧ label_is m (id cf, Header) bs true None ∧
      label_is m (id cf, End_) (bs ++ v_results f) false None
  | VIf =>
      kind cf = FIf false ∧ label_is m (id cf, Else) bs false (Some 0) ∧
      label_is m (id cf, End_) (bs ++ v_results f) false None
  | VElse =>
      kind cf = FIf true ∧ label_is m (id cf, End_) (bs ++ v_results f) false None
  end.

(** The frames of validation and of the conversion, innermost first: the
    function is the outermost, and identifiers grow inwards. *)
Inductive frames_ok (m : labels) : list vframe → list ControlFrame → Prop :=
| frames_func f cf :
    v_kind f = VFunc → v_below f = [] → v_results f = rets → frame_ok m (base [f]) f cf →
    frames_ok m [f] [cf]
| frames_cons f fs cf cfs :
    frames_ok m fs cfs → v_kind f ≠ VFunc → (length (v_results f) ≤ 1)%nat →
    frame_ok m (base (f :: fs)) f cf → (∀ cf', cf' ∈ cfs → id cf' < id cf) →
    frames_ok m (f :: fs) (cf :: cfs).

(** The labels that a frame still has to place. *)
Definition will_place (cf : ControlFrame) (l : WasmLabel) : Prop :=
  (l = (id cf, End_) ∧ needs_end_label cf = true) ∨ (l = (id cf, Else) ∧ kind cf = FIf false).

Record inv (v : vstate) (c : MicrowasmConv) (m : labels) : Prop := {
  inv_locals : v_locals v = locals;
  inv_frames : frames_ok m (v_frames v) (rev (control_frames c));
  inv_ids : ∀ cf, cf ∈ rev (control_frames c) → id cf < current_id c;
  inv_labels : ∀ l b, m !! l = Some b → l.1 < current_id c;
  inv_called : ∀ l b, m !! l = Some b → l_called b = true → l_placed b = false →
    ∃ cf, cf ∈ rev (control_frames c) ∧ will_place cf l;
  inv_done : is_done c = false;
  inv_consts : consts_to_emit c = None;
}.

(** The state of the checker, by the mode of validation. *)
Definition mode_ok (v : vstate) (c : MicrowasmConv) (s : option (list SignlessType)) : Prop :=
  match v_mode v with
  | Reachable o => unreachable c = false ∧ stack c = base (v_frames v) ++ o ∧ s = Some (stack c)
  | Skipping d =>
      d = O ∧ unreachable c = true ∧ (∃ junk, stack c = base (v_frames v) ++ junk) ∧ s = None
  end.

(** After the end of the function every label that is used is placed. *)
Definition finished (c : MicrowasmConv) (m : mstate) : Prop :=
  is_done c = true ∧ m_stack m = None ∧
  ∀ l b, m_labels m !! l = Some b → l_called b = true → l_placed b = true.

Definition related (v : vstate) (c : MicrowasmConv) (m : mstate) : Prop :=
  match v_frames v with
  | [] => finished c m
  | _ => inv v c (m_labels m) ∧ mode_ok v c (m_stack m)
  end.

(** *** Changes of the labels *)

Lemma frame_ok_mono m m' bs f cf :
  (∀ t p b n, label_is m (id cf, t) p b n → label_is m' (id cf, t) p b n) →
  frame_ok m bs f cf → frame_ok m' bs f cf.
Proof. unfold frame_ok. intros Hm (Ha & Hr & Hk). split_and!; [done..|]. destruct (v_kind f); naive_solver. Qed.

Lemma frames_ok_mono m m' fs cfs :
  (∀ cf t p b n, cf ∈ cfs → label_is m (id cf, t) p b n → label_is m' (id cf, t) p b n) →
  frames_ok m fs cfs → frames_ok m' fs cfs.
Proof.
  intros Hm Hf. induction Hf as [f cf Hk Hb Hr Hf|f fs cf cfs Hfs IH Hk Hl Hf Hid].
  - constructor; [done..|]. eapply frame_ok_mono; [|done]. intros. apply Hm; [left|done].
  - constructor; try done.
    + apply IH. intros cf' t p b n Hcf. apply Hm. by right.
    + eapply frame_ok_mono; [|done]. intros. apply Hm; [left|done].
Qed.

Lemma label_is_insert_ne m l l' p b n i : l ≠ l' → label_is m l' p b n → label_is (<[l := i]> m) l' p b n.
Proof. intros Hl (x & Hx & ?). exists x. by rewrite lookup_insert_ne. Qed.

Lemma label_is_delete_ne m l l' p b n : l ≠ l' → label_is m l' p b n → label_is (delete l m) l' p b n.
Proof. intros Hl (x & Hx & ?). exists x. by rewrite lookup_delete_ne. Qed.

Lemma frames_length m fs cfs : frames_ok m fs cfs → length fs = length cfs.
Proof. induction 1; cbn; lia. Qed.

Lemma frames_lookup m fs cfs n f :
  frames_ok m fs cfs → fs !! n = Some f →
  ∃ cf, cfs !! n = Some cf ∧ frame_ok m (base (drop n fs)) f cf ∧
    (v_kind f = VFunc → v_results f = rets).
Proof.
  intros Hf. revert n. induction Hf as [f' cf Hk Hb Hr Hf|f' fs cf cfs Hfs IH Hk Hl Hf Hid]; intros n Hn.
  - destruct n; [|done]. injection Hn as <-. by exists cf.
  - destruct n as [|n]; [injection Hn as <-; by exists cf|]. by apply IH.
Qed.

Lemma base_drop fs n : (n ≤ length fs)%nat → ∃ mid, base fs = base (drop n fs) ++ mid.
Proof.
  revert fs. induction n as [|n IH]; intros fs Hn; [exists []; by rewrite app_nil_r|].
  destruct fs as [|f fs]; cbn in Hn; [lia|]. destruct (IH fs) as [mid E]; [lia|].
  exists (mid ++ v_below f). cbn. by rewrite E, app_assoc.
Qed.

Lemma locals_prefix fs : locals `prefix_of` base fs.
Proof. induction fs as [|f fs IH]; cbn; [done|]. by apply prefix_app_r. Qed.

(** The outermost frame is the function. *)
Lemma frames_last m fs cfs f :
  frames_ok m fs cfs → last fs = Some f →
  ∃ cf, last cfs = Some cf ∧ frame_ok m (base [f]) f cf ∧ v_kind f = VFunc ∧ v_below f = [] ∧
    v_results f = rets.
Proof.
  induction 1 as [f' cf Hk Hb Hr Hf|f' fs cf cfs Hfs IH Hk Hl Hf Hid]; cbn.
  - intros [= <-]. by exists cf.
  - destruct fs as [|g fs]; [inversion Hfs|]. destruct cfs as [|cg cfs]; [inversion Hfs|].
    intros Hlast. destruct (IH Hlast) as (x & Hx & ?). by exists x.
Qed.

(** *** Opening a block *)

Definition bump (c : MicrowasmConv) : MicrowasmConv :=
  mkConv (is_done c) (consts_to_emit c) (stack c) (internal c) (current_id c + 1)
    (control_frames c) (unreachable c).

Lemma next_id_spec c : 0 ≤ current_id c + 1 < 2 ^ 32 → next_id c = Ret (bump c, current_id c).
Proof. intros. unfold next_id. by rewrite op_add_fits. Qed.

Lemma inv_fresh v c m t : inv v c m → m !! (current_id c, t) = None.
Proof.
  intros Hi. destruct (m !! _) eqn:E; [|done]. apply (inv_labels _ _ _ Hi) in E. cbn in E. lia.
Qed.

Lemma open_frame v c m m' k r o kd (i := current_id c) (s := base (v_frames v) ++ o)
    (cf := mkControlFrame i (zlen s) r kd) (f := mkVFrame k r o)
    (c' := set_frames (control_frames c ++ [cf]) (bump c)) :
  inv v c m → k ≠ VFunc → (length r ≤ 1)%nat → frame_ok m' s f cf →
  (∀ l, l.1 ≠ i → m' !! l = m !! l) →
  (∀ t b, m' !! (i, t) = Some b → l_called b = true → l_placed b = false → will_place cf (i, t)) →
  inv (mkVState locals (f :: v_frames v) (Reachable [])) c' m'.
Proof.
  intros Hi Hk Hr Hf Hold Hc.
  assert (Hrev : rev (control_frames c') = cf :: rev (control_frames c)).
  { cbn. by rewrite rev_unit. }
  destruct Hi as [Hl Hfr Hids Hlab Hcal Hd Hco].
  constructor; rewrite ?Hrev; cbn [v_locals v_frames current_id is_done consts_to_emit c' set_frames bump]; try done.
  - constructor; try done.
    eapply frames_ok_mono; [|exact Hfr]. intros cf' t p b n Hcf (x & Hx & ?).
    exists x. rewrite Hold; [done|]. apply Hids in Hcf. cbn. fold i in Hcf. lia.
  - intros cf' [->|Hcf]%elem_of_cons; cbn; [lia|]. apply Hids in Hcf. lia.
  - intros l b Hb. destruct (decide (l.1 = i)) as [->|E]; [fold i; lia|]. rewrite Hold in Hb by done.
    apply Hlab in Hb. fold i. lia.
  - intros [j t] b Hb Hcd Hp. destruct (decide (j = i)) as [->|E].
    + exists cf. split; [left|]. by eapply Hc.
    + rewrite Hold in Hb by done.
      destruct (Hcal _ b Hb Hcd Hp) as (cf' & ? & ?). exists cf'. split; [by right|done].
Qed.

(** *** Branching to a block *)

Definition marked (cf : ControlFrame) : Prop := kind cf ≠ FBlock false.

Lemma mark_marked cf : marked (mark_branched_to cf).
Proof. unfold marked, mark_branched_to. by destruct (kind cf) eqn:E; cbn; rewrite ?E. Qed.

Lemma mark_id cf : id (mark_branched_to cf) = id cf.
Proof. unfold mark_branched_to. by destruct (kind cf). Qed.

Lemma mark_br_target cf : br_target (mark_branched_to cf) = br_target cf.
Proof. unfold mark_branched_to, br_target. by destruct (kind cf) eqn:E; cbn; rewrite ?E. Qed.

Lemma mark_to_drop s cf : to_drop_block s (mark_branched_to cf) = to_drop_block s cf.
Proof. unfold mark_branched_to, to_drop_block. by destruct (kind cf). Qed.

Lemma mark_will_place cf l : will_place cf l → will_place (mark_branched_to cf) l.
Proof.
  unfold will_place, needs_end_label, mark_branched_to. destruct (kind cf) eqn:E; cbn; rewrite ?E; naive_solver.
Qed.

Lemma mark_ok m bs f cf : frame_ok m bs f cf → frame_ok m bs f (mark_branched_to cf).
Proof.
  unfold frame_ok, mark_branched_to. destruct (kind cf) eqn:E; rewrite ?E; [|done..].
  cbn. intros (? & ? & Hk). split_and!; [done..|]. destruct (v_kind f); naive_solver.
Qed.

Lemma elem_of_mark (cfs : list ControlFrame) (n : nat) cf x :
  cfs !! n = Some cf → x ∈ <[n := mark_branched_to cf]> cfs → ∃ y, y ∈ cfs ∧ id x = id y.
Proof.
  intros Hn (i & Hi)%list_elem_of_lookup. destruct (decide (n = i)) as [<-|Hne].
  - rewrite list_lookup_insert_eq in Hi by (by eapply lookup_lt_Some). injection Hi as <-.
    exists cf. split; [by eapply list_elem_of_lookup_2|apply mark_id].
  - rewrite list_lookup_insert_ne in Hi by done. exists x. split; [by eapply list_elem_of_lookup_2|done].
Qed.

Lemma frames_ok_mark m fs cfs n cf :
  frames_ok m fs cfs → cfs !! n = Some cf → frames_ok m fs (<[n := mark_branched_to cf]> cfs).
Proof.
  intros Hf. revert n. induction Hf as [f' cf' Hk Hb Hr Hf|f' fs cf' cfs Hfs IH Hk Hl Hf Hid]; intros n Hn.
  - destruct n; [|done]. injection Hn as ->. constructor; [done..|]. by apply mark_ok.
  - destruct n as [|n]; cbn.
    + injection Hn as ->. constructor; [done..|by apply mark_ok|].
      intros x Hx. rewrite mark_id. by apply Hid.
    + constructor; [by apply IH|done..|]. intros x Hx.
      destruct (elem_of_mark cfs n cf x Hn Hx) as (y & Hy & ->). by apply Hid.
Qed.

(** [nth_block_mut] with [mark_branched_to]. *)
Definition marked_at (n : Z) (cf : ControlFrame) (c : MicrowasmConv) : MicrowasmConv :=
  set_frames (rev (<[Z.to_nat n := mark_branched_to cf]> (rev (control_frames c)))) c.

Lemma nth_block_at c n cf : zget (rev (control_frames c)) n = Some cf → nth_block c n = Ret cf.
Proof. intros Hn. unfold nth_block, zindex. by rewrite Hn. Qed.

Lemma nth_block_mut_mark c n cf :
  zget (rev (control_frames c)) n = Some cf →
  nth_block_mut c n mark_branched_to = Ret (marked_at n cf c, mark_branched_to cf).
Proof.
  intros Hn. unfold nth_block_mut, nth_block, zindex. rewrite Hn. cbn [unwrap]. rewrite bind_Ret_l.
  rewrite zset_Ret by (by eapply zget_Some_lt). done.
Qed.

Lemma zget_nat {A} (l : list A) n x : zget l n = Some x → l !! Z.to_nat n = Some x.
Proof. unfold zget. by destruct (0 <=? n). Qed.

Lemma inv_mark v c m n cf :
  inv v c m → zget (rev (control_frames c)) n = Some cf → inv v (marked_at n cf c) m.
Proof.
  intros [Hl Hfr Hids Hlab Hcal Hd Hco] Hn. pose proof (zget_nat _ _ _ Hn) as Hn'.
  constructor; cbn [marked_at set_frames control_frames current_id is_done consts_to_emit];
    rewrite ?rev_involutive; try done.
  - by apply frames_ok_mark.
  - intros x Hx. destruct (elem_of_mark _ _ _ _ Hn' Hx) as (y & Hy & ->). by apply Hids.
  - intros l b Hb Hc Hp. destruct (Hcal l b Hb Hc Hp) as (y & Hy & Hw).
    apply list_elem_of_lookup in Hy as (i & Hi). destruct (decide (Z.to_nat n = i)) as [<-|Hne].
    + assert (y = cf) as -> by congruence. exists (mark_branched_to cf).
      split; [|by apply mark_will_place]. apply list_elem_of_lookup_2 with (Z.to_nat n).
      apply list_lookup_insert_eq. by eapply lookup_lt_Some.
    + exists y. split; [|done]. apply list_elem_of_lookup_2 with i. by rewrite list_lookup_insert_ne.
Qed.

(** Calling a label changes nothing but that it is called. *)
Lemma label_is_call m l p b i :
  m !! l = Some i → l_callers i = None → ∀ l' n, label_is m l' p b n →
  label_is (<[l := mkLabel (l_params i) (l_backwards i) None true (l_placed i)]> m) l' p b n.
Proof.
  intros Hi Hn l' n (x & Hx & ?). destruct (decide (l = l')) as [<-|Hne].
  - eexists. rewrite lookup_insert_eq. split; [done|]. cbn. assert (x = i) as -> by congruence. naive_solver.
  - exists x. by rewrite lookup_insert_ne.
Qed.

Lemma inv_call v c m l i cf :
  inv v c m → m !! l = Some i → l_callers i = None →
  (l_placed i = false → cf ∈ rev (control_frames c) ∧ will_place cf l) →
  inv v c (<[l := mkLabel (l_params i) (l_backwards i) None true (l_placed i)]> m).
Proof.
  intros [Hl Hfr Hids Hlab Hcal Hd Hco] Hi Hn Hw. constructor; try done.
  - eapply frames_ok_mono; [|done]. intros. by apply label_is_call.
  - intros l' b. destruct (decide (l = l')) as [<-|Hne]; [intros _; by eapply Hlab|].
    rewrite lookup_insert_ne by done. apply Hlab.
  - intros l' b. destruct (decide (l = l')) as [<-|Hne].
    + rewrite lookup_insert_eq. intros [= <-] _ Hp. exists cf. by apply Hw.
    + rewrite lookup_insert_ne by done. apply Hcal.
Qed.

(** A branch to a frame that is marked, with what it takes on the stack. *)
Lemma branch_frame v c m n f cf :
  inv v c m → v_frames v !! n = Some f → rev (control_frames c) !! n = Some cf → marked cf →
  ∃ m', check_branch rets m (base (drop n (v_frames v)) ++ label_types f) (br_target cf) = Some m' ∧
    inv v c m' ∧ ∀ l, l.1 ≠ id cf → m' !! l = m !! l.
Proof.
  intros Hinv Hf Hcf Hm. destruct (frames_lookup _ _ _ _ _ (inv_frames _ _ _ Hinv) Hf) as (cf' & Hcf' & Hok & Hret).
  assert (cf' = cf) as -> by congruence. destruct Hok as (Ha & Hr & Hk).
  assert (Hel : cf ∈ rev (control_frames c)) by (by eapply list_elem_of_lookup_2).
  assert (Hlab : ∀ t p back, label_is m (id cf, t) p back None → (back = false → will_place cf (id cf, t)) →
    ∃ m', check_branch rets m p (Label (id cf, t)) = Some m' ∧ inv v c m' ∧
      ∀ l, l.1 ≠ id cf → m' !! l = m !! l).
  { intros t p back (i & Hi & Hp & Hb & Hn & Hpl) Hw. eexists. split_and!.
    - cbn. rewrite Hi. cbn. rewrite bool_decide_eq_true_2 by done. unfold call_label. by rewrite Hn.
    - apply (inv_call _ _ _ _ _ cf); [done..|]. intros Hp'. split; [done|]. apply Hw. congruence.
    - intros l Hl. apply lookup_insert_ne. by intros <-. }
  unfold label_types, br_target, marked, will_place, needs_end_label in *.
  destruct (v_kind f) eqn:Ek.
  - rewrite Hk, (Hret eq_refl). exists m. split; [|done]. cbn [mbind option_bind check_branch].
    by rewrite pop_suffix_app.
  - destruct Hk as [[b Hk] Hl]. rewrite Hk in *. eapply Hlab; [exact Hl|]. intros _. left. by destruct b.
  - destruct Hk as (Hk & Hr0 & Hl & _). rewrite Hk in *. rewrite app_nil_r. by eapply Hlab.
  - destruct Hk as (Hk & _ & Hl). rewrite Hk in *. eapply Hlab; [exact Hl|]. by left.
  - destruct Hk as (Hk & Hl). rewrite Hk in *. eapply Hlab; [exact Hl|]. by left.
Qed.

(** The frames stay the same. *)
Lemma related_of v c m mode s :
  inv v c m → mode_ok (mkVState locals (v_frames v) mode) c s →
  related (mkVState locals (v_frames v) mode) c (mkM s m).
Proof.
  intros Hi Hm. unfold related. cbn [v_frames].
  assert (v_frames v ≠ []) as Hne.
  { intros E. pose proof (inv_frames _ _ _ Hi) as Hf. rewrite E in Hf. inversion Hf. }
  destruct (v_frames v) eqn:E; [done|]. rewrite <- E in *. split; [|done]. by destruct Hi.
Qed.

(** Labels of no frame can be defined and forgotten. *)
Lemma inv_define v c m t p back n :
  inv v c m → inv v (bump c) (<[(current_id c, t) := mkLabel p back n false false]> m).
Proof.
  intros [Hl Hfr Hids Hlab Hcal Hd Hco]. constructor; cbn [bump control_frames current_id]; try done.
  - eapply frames_ok_mono; [|done]. intros cf t' p' b' n' Hcf. apply label_is_insert_ne.
    intros [= E _]. apply Hids in Hcf. lia.
  - intros cf Hcf. apply Hids in Hcf. lia.
  - intros l b. destruct (decide (l = (current_id c, t))) as [->|Hne]; [cbn; lia|].
    rewrite lookup_insert_ne by done. intros Hb%Hlab. lia.
  - intros l b. destruct (decide (l = (current_id c, t))) as [->|Hne].
    + rewrite lookup_insert_eq. by intros [= <-].
    + rewrite lookup_insert_ne by done. apply Hcal.
Qed.

Lemma inv_delete v c m l :
  inv v c m → (∀ cf, cf ∈ rev (control_frames c) → id cf ≠ l.1) → inv v c (delete l m).
Proof.
  intros [Hl Hfr Hids Hlab Hcal Hd Hco] Hn. constructor; try done.
  - eapply frames_ok_mono; [|done]. intros cf t' p' b' n' Hcf. apply label_is_delete_ne.
    intros ->. by apply (Hn cf).
  - intros l' b [_ Hb]%lookup_delete_Some. by eapply Hlab.
  - intros l' b [_ Hb]%lookup_delete_Some. by eapply Hcal.
Qed.

(** *** Closing a block *)

(** The innermost frame of both sides. *)
Lemma inv_head v c m f fs :
  inv v c m → v_frames v = f :: fs →
  ∃ cf cfs, rev (control_frames c) = cf :: cfs ∧ vec_pop (control_frames c) = Some (rev cfs, cf) ∧
    frame_ok m (base (f :: fs)) f cf ∧ (∀ cf', cf' ∈ cfs → id cf' < id cf) ∧
    ((v_kind f = VFunc ∧ fs = [] ∧ cfs = [] ∧ v_results f = rets) ∨
     (v_kind f ≠ VFunc ∧ frames_ok m fs cfs ∧ (length (v_results f) ≤ 1)%nat)).
Proof.
  intros Hi Hf. pose proof (inv_frames _ _ _ Hi) as Hfr. rewrite Hf in Hfr.
  assert (Hpop : ∀ cf cfs, cf :: cfs = rev (control_frames c) → vec_pop (control_frames c) = Some (rev cfs, cf)).
  { intros cf cfs E. rewrite <- (rev_involutive (control_frames c)), <- E. cbn. apply vec_pop_snoc. }
  inversion Hfr as [f' cf Hk Hb Hr Hok E1 E2|f' fs' cf cfs Hfs Hk Hl Hok Hid E1 E2]; subst.
  - exists cf, []. split_and!; [done|by apply Hpop|done|by intros ? ?%elem_of_nil|by left].
  - exists cf, cfs. split_and!; [done|by apply Hpop|done..|by right].
Qed.

(** A label that is used belongs to a frame that will place it. *)
Lemma not_called v c m cf cfs t b :
  inv v c m → rev (control_frames c) = cf :: cfs → (∀ cf', cf' ∈ cfs → id cf' < id cf) →
  m !! (id cf, t) = Some b → l_placed b = false → ¬ will_place cf (id cf, t) → l_called b = false.
Proof.
  intros Hi Hr Hid Hb Hp Hw. destruct (l_called b) eqn:Ec; [|done].
  destruct (inv_called _ _ _ Hi _ _ Hb Ec Hp) as (cf' & Hcf' & Hw'). rewrite Hr in Hcf'.
  apply elem_of_cons in Hcf' as [->|Hcf']; [done|]. apply Hid in Hcf'.
  destruct Hw' as [[[= E] _]|[[= E] _]]; lia.
Qed.

Lemma inv_pop v c m m' f fs cf cfs mode s :
  inv v c m → v_frames v = f :: fs → rev (control_frames c) = cf :: cfs → frames_ok m fs cfs →
  (∀ cf', cf' ∈ cfs → id cf' < id cf) → (∀ l, l.1 ≠ id cf → m' !! l = m !! l) →
  (∀ t b, m' !! (id cf, t) = Some b → l_called b = true → l_placed b = true) →
  inv (mkVState locals fs mode) (set_stack s (set_frames (rev cfs) c)) m'.
Proof.
  intros [Hl Hfr Hids Hlab Hcal Hd Hco] Hf Hr Hfs Hid Hold Hcl. rewrite Hr in *.
  constructor; cbn [v_locals v_frames set_stack set_frames control_frames current_id is_done consts_to_emit];
    rewrite ?rev_involutive; try done.
  - eapply frames_ok_mono; [|done]. intros cf' t p b n Hcf (x & Hx & ?). exists x. rewrite Hold; [done|].
    cbn. apply Hid in Hcf. lia.
  - intros cf' Hcf. apply Hids. by right.
  - intros l b Hb. destruct (decide (l.1 = id cf)) as [->|Hne]; [apply Hids; left|].
    rewrite Hold in Hb by done. by eapply Hlab.
  - intros [i t] b Hb Hc Hp. destruct (decide (i = id cf)) as [->|Hne].
    { by rewrite (Hcl _ _ Hb Hc) in Hp. }
    rewrite Hold in Hb by done. destruct (Hcal _ _ Hb Hc Hp) as (x & Hx & Hw). exists x. split; [|done].
    apply elem_of_cons in Hx as [->|Hx]; [|done]. by destruct Hw as [[[= E] _]|[[= E] _]].
Qed.

(** The frame of an [if] whose [else] begins. *)
Lemma inv_else v c m r b fs cf cfs s mode :
  inv v c m → v_frames v = mkVFrame VIf r b :: fs → rev (control_frames c) = cf :: cfs →
  frames_ok m fs cfs → (length r ≤ 1)%nat → (∀ cf', cf' ∈ cfs → id cf' < id cf) →
  frame_ok m (base (v_frames v)) (mkVFrame VIf r b) cf →
  inv (mkVState locals (mkVFrame VElse r b :: fs) mode)
    (set_stack s (set_frames (rev cfs ++ [mark_else cf]) c)) (delete (id cf, Else) m).
Proof.
  intros [Hl Hfr Hids Hlab Hcal Hd Hco] Hf Hr Hfs Hlen Hid (Ha & Hret & Hk & _ & He).
  cbn [v_kind v_results] in *. assert (Hm : mark_else cf = mkControlFrame (id cf) (arguments cf) (returns cf) (FIf true)).
  { unfold mark_else. by rewrite Hk. }
  rewrite Hr in *. constructor; cbn [v_locals v_frames set_stack set_frames control_frames current_id is_done consts_to_emit];
    rewrite ?rev_app_distr, ?rev_involutive; cbn [rev app]; try done.
  - rewrite Hm. constructor; try done.
    + eapply frames_ok_mono; [|done]. intros cf' t p b' n Hcf. apply label_is_delete_ne.
      intros [= E _]. apply Hid in Hcf. lia.
    + split_and!; [cbn; by rewrite Ha, Hf|done|]. cbn. split; [done|]. rewrite Hf in He. by apply label_is_delete_ne.
  - intros cf' [->|Hcf]%elem_of_cons; [rewrite Hm; apply (Hids cf); left|apply Hids; by right].
  - intros l x [_ Hx]%lookup_delete_Some. by eapply Hlab.
  - intros l x [Hne Hx]%lookup_delete_Some Hc Hp. destruct (Hcal _ _ Hx Hc Hp) as (y & Hy & Hw).
    apply elem_of_cons in Hy as [->|Hy]; [|exists y; split; [by right|done]].
    exists (mark_else cf). split; [left|]. rewrite Hm. left. destruct Hw as [[-> _]|[-> _]]; done.
Qed.

Lemma leave_Some v v' : v_locals v = locals → leave v = Some v' →
  ∃ f fs, v_frames v = f :: fs ∧ (v_kind f = VIf → v_results f = []) ∧
    v' = mkVState locals fs (Reachable (v_below f ++ v_results f)).
Proof.
  unfold leave. intros ->. destruct (v_frames v) as [|f fs]; [done|].
  exists f, fs. destruct (v_kind f), (v_results f); naive_solver.
Qed.

Lemma enter_else_Some v v' : v_locals v = locals → enter_else v = Some v' →
  ∃ r b fs, v_frames v = mkVFrame VIf r b :: fs ∧
    v' = mkVState locals (mkVFrame VElse r b :: fs) (Reachable []).
Proof.
  unfold enter_else. intros ->.
  destruct (v_frames v) as [|[[] r b] fs]; try done. intros [= <-]. by exists r, b, fs.
Qed.

(** ** One operator *)

Section operators.
Context `{ModuleContext}.

(** The translation of an operator [op] in state [c] leads to states that
    are related to [v']. *)
Definition step_ok (c : MicrowasmConv) (m : labels) (op : WasmOperator) (v' : vstate) : Prop :=
  ∃ c' ops m', translate_op c op = emit c' ops ∧
    check rets (mkM (Some (stack c)) m) ops = Some m' ∧ related v' c' m' ∧
    zlen (stack c') ≤ zlen (stack c) + 1 ∧ current_id c ≤ current_id c' ≤ current_id c + 1 ∧
    internal c' = internal c.

Lemma create_returns_spec ty r :
  block_type ty = Some r → create_returns_from_wasm_type ty = Ret r ∧ (length r ≤ 1)%nat.
Proof. destruct ty as [[]|]; intros [= <-]; cbn; auto. Qed.

(** The state before an operator of a valid body. *)
Context (v : vstate) (c : MicrowasmConv) (m : labels) (o : list SignlessType).
Context (Hinv : inv v c m) (Hun : unreachable c = false)
  (Hstack : stack c = base (v_frames v) ++ o)
  (Hsize : zlen (stack c) + 2 < 2 ^ 31) (Hids : 0 ≤ current_id c ∧ current_id c + 1 < 2 ^ 32).

Lemma simple_arity ls x op i r : simple_type ls x op = Some (i, r) → (length r ≤ 1)%nat.
Proof.
  intros Hty. destruct (class_of op) as [k|] eqn:Hk.
  { assert (class_type k = (i, r)) as E by
      (destruct op; try discriminate Hk; injection Hk as <-; by injection Hty as <- <-).
    destruct k; injection E as <- <-; cbn; lia. }
  destruct op; try discriminate Hk; cbn in Hty; try discriminate Hty;
    repeat (apply bind_Some in Hty as (? & ? & Hty)).
  - injection Hty as <- <-. cbn. lia.
  - by apply call_type_Some in Hty as [_ ?].
  - injection Hty as <- <-. by apply call_type_Some in H0 as [_ ?].
  - injection Hty as <- <-. cbn. lia.
  - destruct x0. injection Hty as <- <-. cbn. lia.
  - injection Hty as <- <-. cbn. lia.
  - injection Hty as <- <-. cbn. lia.
  - injection Hty as <- <-. cbn. lia.
  - destruct (global_type _); [|done]. injection Hty as <- <-. cbn. lia.
  - destruct (global_type _); [|done]. injection Hty as <- <-. cbn. lia.
Qed.

Lemma wrap_len (s : list SignlessType) : zlen s < 2 ^ 31 → wrap_u 32 (zlen s) = zlen s.
Proof. intros. unfold wrap_u. pose proof (zlen_nonneg s). apply Z.mod_small. lia. Qed.

Lemma step_block ty r :
  block_type ty = Some r →
  step_ok c m (W.Block ty)
    (mkVState locals (mkVFrame VBlock r o :: v_frames v) (Reachable [])).
Proof.
  intros Hty. destruct (create_returns_spec _ _ Hty) as [Hr Hl].
  set (cf := mkControlFrame (current_id c) (zlen (stack c)) r (FBlock false)).
  exists (set_frames (control_frames c ++ [cf]) (bump c)),
    [op_end (stack c ++ r) (current_id c, End_)]. eexists. split_and!.
  - unfold translate_op. cbn [op_sig emit_op]. rewrite bind_Ret_l, apply_op_none, bind_Ret_l.
    unfold emit_block. rewrite next_id_spec, bind_Ret_l by lia. cbn [stack bump].
    unfold block_params_with_wasm_type. rewrite Hr, !bind_Ret_l, wrap_len by lia. done.
  - cbn. by rewrite (inv_fresh _ _ _ _ Hinv).
  - cbn [related v_frames m_labels m_stack]. split.
    + unfold cf. rewrite Hstack. apply (open_frame v c m); [done..| | |].
      * split_and!; [done..|]. cbn. split; [by eexists|].
        eexists. rewrite lookup_insert_eq. by split_and!; rewrite ?Hstack.
      * intros l Hl'. apply lookup_insert_ne. by intros <-.
      * intros [] b; look; [by rewrite (inv_fresh _ _ _ _ Hinv)..|by intros [= <-]].
    + cbn. by rewrite Hstack, app_nil_r.
  - cbn. lia.
  - cbn. lia.
  - cbn. lia.
  - done.
Qed.

(** A new label while a block is open, a branch to it, and its place. *)
Lemma check_define s k l ps back n :
  k !! l = None →
  check_op rets (mkM (Some s) k) (Op.Block l ps back n) =
    Some (mkM (Some s) (<[l := mkLabel ps back n false false]> k)).
Proof. intros E. cbn. by rewrite E. Qed.

Lemma check_br_label s k l b b' :
  k !! l = Some b → l_params b = s → call_label b = Some b' →
  check_op rets (mkM (Some s) k) (Op.Br (Label l)) = Some (mkM None (<[l := b']> k)).
Proof. intros E <- Ec. cbn. rewrite E. cbn. by rewrite bool_decide_eq_true_2, Ec. Qed.

Lemma check_place k l b p :
  k !! l = Some b → l_params b = p → l_placed b = false → l_backwards b = false →
  l_callers b = None ∨ l_callers b = Some 0 →
  check_op rets (mkM None k) (Op.Label_ l) = Some (mkM (Some p) (delete l k)).
Proof.
  intros E <- Hp Hb Hc. cbn. unfold place_label. cbn. by rewrite E, Hp, Hb, bool_decide_eq_true_2.
Qed.

Lemma check_call_once k l s back cl pl :
  k !! l = Some (mkLabel s back (Some 1) cl pl) →
  check_target rets k s (BrTargetDrop_from (Label l)) =
    Some (<[l := mkLabel s back (Some 0) true pl]> k).
Proof. intros E. cbn. rewrite E. cbn. by rewrite bool_decide_eq_true_2. Qed.

Lemma check_br_if s k t1 t2 k1 k2 :
  target t1 ≠ target t2 → check_target rets k s t1 = Some k1 → check_target rets k1 s t2 = Some k2 →
  check_op rets (mkM (Some (s ++ [I32])) k) (Op.BrIf t1 t2) = Some (mkM None k2).
Proof.
  intros Hne E1 E2. cbn. rewrite pop_suffix_app. cbn. rewrite bool_decide_eq_false_2 by done.
  rewrite E1. cbn. by rewrite E2.
Qed.

(** *** The end of a block, and [else] *)

Definition end_ops (cf : ControlFrame) : list OperatorFromWasm :=
  match kind cf with
  | FIf false => [Op.Label_ (id cf, Else); Op.Br (Label (id cf, End_)); Op.Label_ (id cf, End_)]
  | _ => [Op.Label_ (id cf, End_)]
  end.

Lemma end_ops_ok v' c' k f fs cf cfs mode s :
  inv v' c' k → v_frames v' = f :: fs → rev (control_frames c') = cf :: cfs → frames_ok k fs cfs →
  (∀ cf', cf' ∈ cfs → id cf' < id cf) → frame_ok k (base (f :: fs)) f cf →
  v_kind f ≠ VFunc → (v_kind f = VIf → v_results f = []) →
  ∃ k', check rets (mkM None k) (end_ops cf) = Some (mkM (Some (base (f :: fs) ++ v_results f)) k') ∧
    inv (mkVState locals fs mode) (set_stack s (set_frames (rev cfs) c')) k'.
Proof.
  intros Hi Hf Hr Hfs Hid Hok Hk Hif.
  assert (Hpop : ∀ k', (∀ l, l.1 ≠ id cf → k' !! l = k !! l) →
    (∀ t b, k' !! (id cf, t) = Some b → k !! (id cf, t) = Some b ∧ ¬ will_place cf (id cf, t)) →
    inv (mkVState locals fs mode) (set_stack s (set_frames (rev cfs) c')) k').
  { intros k' Hold Hnew. eapply inv_pop; [done..|]. intros t b [Hb Hw]%Hnew Hc.
    destruct (l_placed b) eqn:Ep; [done|]. by rewrite (not_called _ _ _ _ _ _ _ Hi Hr Hid Hb Ep Hw) in Hc. }
  destruct Hok as (_ & _ & Hok). unfold end_ops. destruct (v_kind f) eqn:Ek; [done|..].
  2: destruct Hok as (Hkind & _ & _ & Hlab).
  3: destruct Hok as (Hkind & (b & Hb & Hbp & Hbb & Hbc & Hbl) & (e & He & Hep & Heb & Hec & Hel)).
  1: destruct Hok as ([? Hkind] & Hlab).
  4: destruct Hok as (Hkind & Hlab).
  all: rewrite Hkind.
  1-2, 4: destruct Hlab as (e & He & Hep & Heb & Hec & Hel); eexists; split;
    [by apply check_one; eapply check_place; [exact He|..]; auto|];
    apply Hpop; [intros l Hl; apply lookup_delete_ne; by intros <-|];
    intros t y [Hne Hy]%lookup_delete_Some; split; [done|];
    unfold will_place; rewrite Hkind; intros [[E _]|[_ E]]; congruence.
  rewrite (Hif eq_refl), app_nil_r in *. eexists. split.
  - eapply check_trans; [eapply check_place; [exact Hb|done..|by right]|].
    eapply check_trans; [eapply check_br_label; [look; exact He|done|unfold call_label; by rewrite Hec]|].
    apply check_one. eapply check_place; [look; reflexivity|done..|by left].
  - apply Hpop.
    + intros l Hl. rewrite lookup_delete_ne, lookup_insert_ne, lookup_delete_ne by (by intros <-). done.
    + intros [] x; look; [|done|done]. intros Hx. split; [done|]. unfold will_place. intros [[? _]|[? _]]; done.
Qed.

Lemma else_ok v' c' k r b fs cf cfs mode s :
  inv v' c' k → v_frames v' = mkVFrame VIf r b :: fs → rev (control_frames c') = cf :: cfs →
  frames_ok k fs cfs → (length r ≤ 1)%nat → (∀ cf', cf' ∈ cfs → id cf' < id cf) →
  frame_ok k (base (v_frames v')) (mkVFrame VIf r b) cf →
  check rets (mkM None k) [Op.Label_ (id cf, Else)] =
    Some (mkM (Some (base (v_frames v'))) (delete (id cf, Else) k)) ∧
  inv (mkVState locals (mkVFrame VElse r b :: fs) mode)
    (set_stack s (set_frames (rev cfs ++ [mark_else cf]) c')) (delete (id cf, Else) k).
Proof.
  intros Hi Hf Hr Hfs Hl Hid Hok. split; [|by eapply inv_else].
  destruct Hok as (_ & _ & _ & (x & Hx & Hp & Hb & Hc & Hpl) & _).
  apply check_one. eapply check_place; [exact Hx|done..|by right].
Qed.

Lemma step_loop ty :
  block_type ty = Some [] →
  step_ok c m (W.Loop ty)
    (mkVState locals (mkVFrame VLoop [] o :: v_frames v) (Reachable [])).
Proof.
  intros Hty. destruct (create_returns_spec _ _ Hty) as [Hr Hl].
  set (cf := mkControlFrame (current_id c) (zlen (stack c)) [] FLoop).
  pose proof (inv_fresh _ _ _ Header Hinv) as Hh. pose proof (inv_fresh _ _ _ End_ Hinv) as He.
  eexists (set_frames (control_frames c ++ [cf]) (bump c)), _, (mkM (Some (stack c)) _). split_and!.
  - unfold translate_op. cbn [op_sig emit_op]. rewrite bind_Ret_l, apply_op_none, bind_Ret_l.
    unfold emit_loop. rewrite next_id_spec, bind_Ret_l by lia. cbn [stack bump].
    unfold block_params_with_wasm_type. rewrite Hr, !bind_Ret_l, wrap_len by lia. done.
  - cbn [block_params stack set_frames bump].
    eapply check_trans; [by apply check_define|].
    eapply check_trans; [apply check_define; by rewrite lookup_insert_ne|].
    eapply check_trans.
    { eapply check_br_label; [by rewrite lookup_insert_ne, lookup_insert_eq|done|done]. }
    apply check_one. unfold check_op, place_label. cbn [m_stack m_labels].
    rewrite lookup_insert_eq. done.
  - cbn [related v_frames m_labels m_stack]. split.
    + unfold cf. rewrite Hstack. apply (open_frame v c m); [done..| | |].
      * split_and!; [done..|]. cbn. split_and!; [done..| |].
        -- eexists. rewrite lookup_insert_eq. by split_and!.
        -- eexists. rewrite !lookup_insert_ne, lookup_insert_eq by done. by split_and!.
      * intros l Hl'. by rewrite !lookup_insert_ne by (by intros <-).
      * intros [] b; look; [by intros [= <-]| |by intros [= <-]].
        by rewrite (inv_fresh _ _ _ _ Hinv).
    + cbn. by rewrite Hstack, app_nil_r.
  - cbn. lia.
  - cbn. lia.
  - cbn. lia.
  - done.
Qed.

(** Popping the condition of [if], [br_if] and [br_table]. *)
Lemma pop_condition op o' :
  op_sig c op = Ret (OpSig_new [Concrete I32] []) → o = o' ++ [I32] →
  translate_op c op = emit_op (set_stack (base (v_frames v) ++ o') c) op.
Proof.
  intros Hsig Ho.
  rewrite (translate_concrete c (base (v_frames v)) o o' Hstack op [I32] [] Hsig Ho) by (cbn; lia).
  by rewrite app_nil_r.
Qed.

Lemma stack_condition o' : o = o' ++ [I32] → stack c = (base (v_frames v) ++ o') ++ [I32].
Proof. intros ->. by rewrite Hstack, app_assoc. Qed.

Lemma step_if ty r o' :
  block_type ty = Some r → o = o' ++ [I32] →
  step_ok c m (W.If ty) (mkVState locals (mkVFrame VIf r o' :: v_frames v) (Reachable [])).
Proof.
  intros Hty Ho. destruct (create_returns_spec _ _ Hty) as [Hr Hl].
  set (s := base (v_frames v) ++ o'). pose proof (stack_condition _ Ho) as Hs. fold s in Hs.
  assert (Hlen : zlen (stack c) = zlen s + 1) by (rewrite Hs; apply zlen_app).
  set (cf := mkControlFrame (current_id c) (zlen s) r (FIf false)).
  assert (Hf : ∀ t, m !! (current_id c, t) = None) by (intros; by eapply inv_fresh).
  eexists (set_frames (control_frames c ++ [cf]) (bump (set_stack s c))), _, (mkM (Some s) _). split_and!.
  - rewrite (pop_condition (W.If ty) o' eq_refl Ho). fold s. cbn [emit_op].
    unfold emit_if. rewrite next_id_spec, bind_Ret_l by (cbn; lia). cbn [stack bump set_stack].
    unfold block_params_with_wasm_type. rewrite Hr, !bind_Ret_l, wrap_len by lia. done.
  - cbn [block_params stack set_frames bump set_stack current_id].
    eapply check_trans; [by apply check_define|].
    eapply check_trans; [apply check_define; by look|].
    eapply check_trans; [apply check_define; by look|].
    rewrite Hs. eapply check_trans; [eapply check_br_if; [done|eapply check_call_once; look; reflexivity..]|].
    eapply check_one, check_place; [look; reflexivity|done..|by right].
  - cbn [related v_frames m_labels m_stack]. split.
    + assert (Hi : inv v (set_stack s c) m) by (destruct Hinv; by constructor).
      unfold cf, s. apply (open_frame v (set_stack s c) m); [done..| | |].
      * split_and!; [done..|]. cbn [v_kind v_results id current_id set_stack]. split_and!; [done| |];
          unfold label_is; look; eexists; by split_and!.
      * intros l Hl'. rewrite lookup_delete_ne by (by intros <-).
        by rewrite !lookup_insert_ne by (by intros <-).
      * intros [] b; look; [done| |by intros [= <-]]. intros _ _ _. by right.
    + cbn. by rewrite app_nil_r.
  - cbn. lia.
  - cbn. lia.
  - cbn. lia.
  - done.
Qed.

(** *** Branches *)

Lemma to_drop_spec b x r cf s :
  s = b ++ x ++ r → arguments cf = zlen b → zlen (returns cf) = zlen r → zlen s < 2 ^ 31 →
  to_drop_block s cf =
    match x with [] => None | _ => Some (zlen r, zlen r + zlen x - 1) end.
Proof.
  intros Hs Ha Hr Hlt. unfold to_drop_block. rewrite Ha, Hr.
  assert (Hl : zlen s = zlen b + (zlen x + zlen r)) by (by rewrite Hs, !zlen_app).
  pose proof (zlen_nonneg b). pose proof (zlen_nonneg r). pose proof (zlen_nonneg x).
  unfold wrap_u. rewrite !Z.mod_small by lia.
  destruct (checked_sub 32 (zlen s) 1) as [a|] eqn:E1.
  - apply checked_sub_Some in E1 as [-> ?]. cbn [mbind option_bind].
    destruct (checked_sub 32 (zlen s - 1) (zlen b)) as [a|] eqn:E2.
    + apply checked_sub_Some in E2 as [-> ?]. cbn [mbind option_bind].
      destruct x as [|y x].
      * change (zlen []) with 0 in *. by rewrite (proj2 (Z.leb_gt _ _)) by lia.
      * rewrite zlen_cons in *. pose proof (zlen_nonneg x).
        rewrite (proj2 (Z.leb_le _ _)) by lia. do 2 f_equal. lia.
    + cbn. destruct x as [|y x]; [done|]. rewrite zlen_cons in *. pose proof (zlen_nonneg x).
      enough (checked_sub 32 (zlen s - 1) (zlen b) = Some (zlen s - 1 - zlen b)) by congruence.
      apply checked_sub_Some. lia.
  - cbn. destruct x as [|y x]; [done|]. rewrite zlen_cons in *. pose proof (zlen_nonneg x).
    enough (checked_sub 32 (zlen s) 1 = Some (zlen s - 1)) by congruence. apply checked_sub_Some. lia.
Qed.

(** Both ways of dropping leave what the block found and what it returns. *)
Lemma to_drop_elements b x r cf s :
  s = b ++ x ++ r → arguments cf = zlen b → zlen (returns cf) = zlen r → zlen s < 2 ^ 31 →
  match to_drop_block s cf with Some d => res_option (drop_elements s d) | None => Some s end
    = Some (b ++ r).
Proof.
  intros Hs Ha Hr Hlt. rewrite (to_drop_spec b x r) by done. subst s.
  destruct x as [|y x]; [done|]. rewrite drop_elements_middle; [done..|lia].
Qed.

Lemma to_drop_ops b x r cf s k :
  s = b ++ x ++ r → arguments cf = zlen b → zlen (returns cf) = zlen r → zlen s < 2 ^ 31 →
  check rets (mkM (Some s) k) (drop_ops (to_drop_block s cf)) = Some (mkM (Some (b ++ r)) k).
Proof.
  intros Hs Ha Hr Hlt. rewrite (to_drop_spec b x r) by done. subst s.
  destruct x as [|y x]; [done|]. apply check_one. cbn [check_op m_stack m_labels mbind option_bind check_inside].
  pose proof (zlen_nonneg r). pose proof (zlen_nonneg x).
  rewrite bool_decide_eq_true_2 by (cbn [fst snd]; rewrite zlen_cons; lia).
  by rewrite ctx_drop_middle.
Qed.

Lemma branch_split k fs cfs x n :
  frames_ok k fs cfs → branch_ok fs x n = true →
  ∃ cf f y, zget cfs n = Some cf ∧ fs !! Z.to_nat n = Some f ∧
    base fs ++ x = base (drop (Z.to_nat n) fs) ++ y ++ label_types f ∧
    arguments cf = zlen (base (drop (Z.to_nat n) fs)) ∧ zlen (returns cf) = zlen (label_types f).
Proof.
  intros Hf. unfold branch_ok, frame_at. destruct (zget fs n) as [f|] eqn:En; [|done].
  intros [y Hy%pop_suffix_Some]%bool_decide_eq_true. pose proof (zget_Some_lt _ _ _ En) as Hn.
  pose proof (zget_nat _ _ _ En) as En'.
  destruct (frames_lookup _ _ _ _ _ Hf En') as (cf & Hcf & (Ha & Hr & Hk) & _).
  destruct (base_drop fs (Z.to_nat n)) as [mid Hmid]; [unfold zlen in Hn; lia|].
  exists cf, f, (mid ++ y). split_and!; [|done| |done|].
  - unfold zget. by rewrite (proj2 (Z.leb_le _ _)) by lia.
  - rewrite Hmid, Hy, <- !app_assoc. done.
  - rewrite Hr. unfold label_types. destruct (v_kind f); [done..| |done|done].
    by destruct Hk as (_ & -> & _).
Qed.

(** The targets that the conversion computes for a branch to block [n]. *)
Definition target_of (c : MicrowasmConv) (cf : ControlFrame) : BrTargetDrop WasmLabel :=
  mkBrTargetDrop (br_target cf) (to_drop_block (stack c) cf).

Lemma target_ok c' k x n cf :
  inv v c' k → stack c' = base (v_frames v) ++ x → zlen (stack c') < 2 ^ 31 →
  branch_ok (v_frames v) x n = true → zget (rev (control_frames c')) n = Some cf → marked cf →
  ∃ k', check_target rets k (stack c') (target_of c' cf) = Some k' ∧ inv v c' k' ∧
    ∀ l, l.1 ≠ id cf → k' !! l = k !! l.
Proof.
  intros Hi Hs Hlt Hb Hcf Hm.
  destruct (branch_split _ _ _ _ _ (inv_frames _ _ _ Hi) Hb) as (cf' & f & y & Hcf' & Hf & Hsp & Ha & Hr).
  assert (cf' = cf) as -> by congruence. rewrite <- Hs in Hsp.
  destruct (branch_frame v c' k _ f cf Hi Hf (zget_nat _ _ _ Hcf) Hm) as (k' & Hk' & Hi' & Ho').
  exists k'. split; [|done]. unfold check_target, target_of. cbn [to_drop target].
  rewrite (to_drop_elements _ y (label_types f)) by done. done.
Qed.

Lemma drop_branch_ok c' k x n cf :
  inv v c' k → stack c' = base (v_frames v) ++ x → zlen (stack c') < 2 ^ 31 →
  branch_ok (v_frames v) x n = true → zget (rev (control_frames c')) n = Some cf → marked cf →
  ∃ k', check rets (mkM (Some (stack c')) k) (drop_ops (to_drop_block (stack c') cf) ++ [Op.Br (br_target cf)])
      = Some (mkM None k') ∧ inv v c' k'.
Proof.
  intros Hi Hs Hlt Hb Hcf Hm.
  destruct (branch_split _ _ _ _ _ (inv_frames _ _ _ Hi) Hb) as (cf' & f & y & Hcf' & Hf & Hsp & Ha & Hr).
  assert (cf' = cf) as -> by congruence. rewrite <- Hs in Hsp.
  destruct (branch_frame v c' k _ f cf Hi Hf (zget_nat _ _ _ Hcf) Hm) as (k' & Hk' & Hi' & _).
  exists k'. split; [|done]. rewrite check_app, (to_drop_ops _ y (label_types f)) by done.
  cbn [mbind option_bind]. apply check_one. cbn. by rewrite Hk'.
Qed.

(** The frame of a valid branch, and that frame after it has been marked. *)
Lemma branch_frame_at c' k x n :
  inv v c' k → branch_ok (v_frames v) x n = true → ∃ cf, zget (rev (control_frames c')) n = Some cf.
Proof.
  intros Hi Hb. destruct (branch_split _ _ _ _ _ (inv_frames _ _ _ Hi) Hb) as (cf & ? & ? & ? & _). by exists cf.
Qed.

Lemma zget_marked c' n cf :
  zget (rev (control_frames c')) n = Some cf →
  zget (rev (control_frames (marked_at n cf c'))) n = Some (mark_branched_to cf).
Proof.
  intros Hn. cbn [marked_at set_frames control_frames]. rewrite rev_involutive.
  rewrite zget_insert by (by eapply zget_Some_lt). by rewrite decide_True.
Qed.

(** The state after an unconditional branch. *)
Lemma related_skipping c' k :
  inv v c' k → unreachable c' = true → stack c' = base (v_frames v) ++ o →
  related (mkVState locals (v_frames v) (Skipping 0)) c' (mkM None k).
Proof. intros Hi Hu Hs. apply related_of; [done|]. cbn. split_and!; try done. by eexists. Qed.

Lemma step_br n :
  branch_ok (v_frames v) o n = true →
  step_ok c m (W.Br n) (mkVState locals (v_frames v) (Skipping 0)).
Proof.
  intros Hb. destruct (branch_frame_at c m o n Hinv Hb) as [cf Hcf].
  set (c1 := marked_at n cf (set_unreachable true c)).
  assert (Hi1 : inv v c1 m) by (apply inv_mark; [by destruct Hinv; constructor|done]).
  pose proof (zget_marked (set_unreachable true c) n cf Hcf) as Hcf1.
  destruct (drop_branch_ok c1 m o n (mark_branched_to cf)) as (k & Hk & Hik); try done.
  { cbn. lia. } { apply mark_marked. }
  eexists c1, _, _. split_and!; [| |by apply related_skipping|cbn; lia..|done].
  - unfold translate_op. cbn [op_sig emit_op]. rewrite bind_Ret_l, apply_op_none, bind_Ret_l.
    unfold emit_br. rewrite (nth_block_at (set_unreachable true c) n cf Hcf), bind_Ret_l.
    rewrite (nth_block_mut_mark (set_unreachable true c) n cf Hcf), bind_Ret_l. reflexivity.
  - rewrite mark_to_drop in Hk. exact Hk.
Qed.

Lemma step_br_if n o' :
  o = o' ++ [I32] → branch_ok (v_frames v) o' n = true →
  step_ok c m (W.BrIf n) (mkVState locals (v_frames v) (Reachable o')).
Proof.
  intros Ho Hb. destruct (branch_frame_at c m o' n Hinv Hb) as [cf Hcf].
  set (s := base (v_frames v) ++ o'). pose proof (stack_condition _ Ho) as Hs. fold s in Hs.
  assert (Hlen : zlen (stack c) = zlen s + 1) by (rewrite Hs; apply zlen_app).
  set (i := current_id c). set (c0 := set_stack s c). set (c1 := marked_at n cf (bump c0)).
  set (m1 := <[(i, Header) := mkLabel s false (Some 1) false false]> m).
  assert (Hi1 : inv v c1 m1).
  { apply inv_mark; [|done]. apply (inv_define v c0). by destruct Hinv; constructor. }
  pose proof (zget_marked (bump c0) n cf Hcf) as Hcf1.
  assert (Hid : id cf ≠ i).
  { apply zget_elem_of in Hcf. apply (inv_ids _ _ _ Hinv) in Hcf. fold i in Hcf. lia. }
  destruct (target_ok c1 m1 o' n (mark_branched_to cf)) as (k & Hk & Hik & Hother); try done.
  { cbn [c1 marked_at set_frames stack bump c0 set_stack]. lia. } { apply mark_marked. }
  rewrite mark_id in Hother. specialize (Hother (i, Header) (not_eq_sym Hid)).
  unfold m1 in Hother. rewrite lookup_insert_eq in Hother.
  eexists c1, _, (mkM (Some s) (delete (i, Header) k)). split_and!.
  - rewrite (pop_condition (W.BrIf n) o' eq_refl Ho). fold s c0. cbn [emit_op].
    unfold emit_br_if. rewrite (nth_block_at c0 n cf Hcf), bind_Ret_l.
    rewrite next_id_spec, bind_Ret_l by (cbn; lia).
    rewrite (nth_block_mut_mark (bump c0) n cf Hcf), bind_Ret_l. reflexivity.
  - cbn [block_params stack bump c0 set_stack current_id]. rewrite <- (mark_to_drop _ cf).
    eapply check_trans; [apply check_define, (inv_fresh _ _ _ _ Hinv)|]. fold i m1.
    rewrite Hs. eapply check_trans.
    { eapply check_br_if; [|exact Hk|eapply check_call_once; exact Hother].
      rewrite mark_br_target. cbn. unfold br_target.
      destruct (kind cf); try done; intros [= E]; by apply Hid. }
    rewrite <- (delete_insert_eq k (i, Header) (mkLabel s false (Some 0) true false)).
    apply check_one. eapply check_place; [apply lookup_insert_eq|done..|by right].
  - apply related_of; [|done]. apply inv_delete; [done|]. intros x Hx. cbn [fst].
    cbn [c1 marked_at set_frames control_frames] in Hx. rewrite rev_involutive in Hx.
    destruct (elem_of_mark _ _ _ _ (zget_nat _ _ _ Hcf) Hx) as (y & Hy & ->).
    apply (inv_ids _ _ _ Hinv) in Hy. fold i in Hy. lia.
  - cbn. lia.
  - cbn. lia.
  - cbn. lia.
  - done.
Qed.

(** The frames of [c''] are those of [c'] with more marks. *)
Definition more_marks (c' c'' : MicrowasmConv) : Prop :=
  (∃ fr, c'' = set_frames fr c') ∧
  ∀ n cf, zget (rev (control_frames c')) n = Some cf →
    ∃ cf', zget (rev (control_frames c'')) n = Some cf' ∧ target_of c'' cf' = target_of c' cf ∧
      (marked cf → marked cf').

Lemma more_marks_refl c' : more_marks c' c'.
Proof. split; [exists (control_frames c'); by destruct c'|]. intros n cf Hn. by exists cf. Qed.

Lemma more_marks_trans c1 c2 c3 : more_marks c1 c2 → more_marks c2 c3 → more_marks c1 c3.
Proof.
  intros [[f1 E1] H1] [[f2 E2] H2]. split; [exists f2; by rewrite E2, E1|].
  intros n cf Hn. destruct (H1 n cf Hn) as (x & Hx & ? & ?). destruct (H2 n x Hx) as (y & ? & ? & ?).
  exists y. split_and!; [done|congruence|auto].
Qed.

Lemma more_marks_at c' n cf : zget (rev (control_frames c')) n = Some cf → more_marks c' (marked_at n cf c').
Proof.
  intros Hn. split; [by eexists|]. intros i x Hx. destruct (decide (n = i)) as [<-|Hne].
  - assert (x = cf) as -> by congruence. exists (mark_branched_to cf).
    split_and!; [by apply zget_marked| |intros; apply mark_marked].
    unfold target_of. cbn [marked_at set_frames stack]. by rewrite mark_br_target, mark_to_drop.
  - exists x. split_and!; [|done|done]. cbn [marked_at set_frames control_frames]. rewrite rev_involutive.
    rewrite zget_insert by (by eapply zget_Some_lt). by rewrite decide_False.
Qed.

Lemma br_table_entry_spec c' n cf :
  zget (rev (control_frames c')) n = Some cf →
  br_table_entry c' n = Ret (marked_at n cf c', target_of (marked_at n cf c') (mark_branched_to cf)).
Proof.
  intros Hn. unfold br_table_entry. rewrite (nth_block_mut_mark c' n cf Hn), bind_Ret_l.
  by rewrite (nth_block_at _ _ _ (zget_marked c' n cf Hn)), bind_Ret_l.
Qed.

Lemma br_table_entries_spec k x ns : ∀ c',
  inv v c' k → Forall (λ n, branch_ok (v_frames v) x n = true) ns →
  ∃ c'' ts, br_table_entries c' ns = Ret (c'', ts) ∧ inv v c'' k ∧ more_marks c' c'' ∧
    Forall2 (λ n t, ∃ cf, zget (rev (control_frames c'')) n = Some cf ∧ marked cf ∧
      t = target_of c'' cf) ns ts.
Proof.
  induction ns as [|n ns IH]; intros c' Hi Hall.
  { exists c', []. split_and!; [done..|apply more_marks_refl|constructor]. }
  apply Forall_cons in Hall as [Hn Hall]. destruct (branch_frame_at c' k x n Hi Hn) as [cf Hcf].
  destruct (IH (marked_at n cf c')) as (c'' & ts & E & Hi'' & Hm & Hts); [by apply inv_mark|done|].
  exists c'', (target_of (marked_at n cf c') (mark_branched_to cf) :: ts). split_and!; [|done| |].
  - cbn [br_table_entries]. by rewrite (br_table_entry_spec c' n cf Hcf), bind_Ret_l, E.
  - eapply more_marks_trans; [by apply more_marks_at|done].
  - constructor; [|done]. destruct (proj2 Hm n _ (zget_marked c' n cf Hcf)) as (y & Hy & Ht & Hmk).
    exists y. split_and!; [done|apply Hmk, mark_marked|done].
Qed.

Lemma br_table_entries_snoc ns n c' :
  br_table_entries c' (ns ++ [n]) =
    '(c1, ts) ← br_table_entries c' ns; '(c2, t) ← br_table_entry c1 n; Ret (c2, ts ++ [t]).
Proof.
  revert c'. induction ns as [|n' ns IH]; intros c'; cbn [br_table_entries app].
  - rewrite bind_Ret_l. by destruct (br_table_entry c' n) as [[]|].
  - destruct (br_table_entry c' n') as [[c1 t1]|]; [|done]. rewrite !bind_Ret_l, IH.
    destruct (br_table_entries c1 ns) as [[c2 ts]|]; [|done]. rewrite !bind_Ret_l.
    by destruct (br_table_entry c2 n) as [[]|].
Qed.

Lemma check_targets_ok c' x ns ts : ∀ k,
  inv v c' k → stack c' = base (v_frames v) ++ x → zlen (stack c') < 2 ^ 31 →
  Forall (λ n, branch_ok (v_frames v) x n = true) ns →
  Forall2 (λ n t, ∃ cf, zget (rev (control_frames c')) n = Some cf ∧ marked cf ∧
    t = target_of c' cf) ns ts →
  ∃ k', check_targets rets k (stack c') ts = Some k' ∧ inv v c' k'.
Proof.
  intros k Hi Hs Hlt Hall Hts. revert k Hi. induction Hts as [|n t ns ts (cf & Hcf & Hm & ->) Hts IH]; intros k Hi.
  { by exists k. }
  apply Forall_cons in Hall as [Hn Hall].
  destruct (target_ok c' k x n cf Hi Hs Hlt Hn Hcf Hm) as (k1 & E1 & Hi1 & _).
  destruct (IH Hall k1 Hi1) as (k2 & E2 & Hi2). exists k2. cbn [check_targets]. by rewrite E1.
Qed.

Lemma step_br_table ns d o' :
  o = o' ++ [I32] → forallb (branch_ok (v_frames v) o') (ns ++ [d]) = true →
  step_ok c m (W.BrTable (Ok (ns, d))) (mkVState locals (v_frames v) (Skipping 0)).
Proof.
  intros Ho Hall.
  assert (Hall' : Forall (λ n, branch_ok (v_frames v) o' n = true) (ns ++ [d])).
  { rewrite forallb_forall in Hall. apply Forall_forall. intros n Hn. by apply Hall, list_elem_of_In. }
  set (s := base (v_frames v) ++ o'). pose proof (stack_condition _ Ho) as Hs. fold s in Hs.
  assert (Hlen : zlen (stack c) = zlen s + 1) by (rewrite Hs; apply zlen_app).
  set (c0 := set_unreachable true (set_stack s c)).
  destruct (br_table_entries_spec m o' (ns ++ [d]) c0) as (c' & ts & E & Hi & [[fr Hfr] _] & Hts);
    [by destruct Hinv; constructor|done|].
  rewrite br_table_entries_snoc in E. apply bind_Ret in E as ([c1 ts1] & E1 & E).
  apply bind_Ret in E as ([c2 t] & E2 & E). injection E as -> <-.
  assert (Hs' : stack c' = s) by (by rewrite Hfr).
  destruct (check_targets_ok c' o' _ _ m Hi Hs' ltac:(rewrite Hs'; lia) Hall' Hts) as (k & Hk & Hik).
  rewrite Hs' in Hk.
  exists c', [Op.BrTable (mkBrTable ts1 t)], (mkM None k). split_and!.
  - rewrite (pop_condition (W.BrTable _) o' eq_refl Ho). fold s. cbn [emit_op]. unfold emit_br_table.
    fold c0. by rewrite E1, bind_Ret_l, E2.
  - apply check_one. cbn [check_op m_stack m_labels mbind option_bind check_inside targets default].
    rewrite Hs, pop_suffix_app. cbn [mbind option_bind]. by rewrite Hk.
  - apply related_of; [done|]. rewrite Hfr. cbn. split_and!; try done. by exists o'.
  - rewrite Hs'. lia.
  - rewrite Hfr. cbn. lia.
  - rewrite Hfr. cbn. lia.
  - by rewrite Hfr.
Qed.

Lemma step_return f x :
  last (v_frames v) = Some f → o = x ++ v_results f →
  step_ok c m W.Return (mkVState locals (v_frames v) (Skipping 0)).
Proof.
  intros Hl Ho. destruct (frames_last _ _ _ _ (inv_frames _ _ _ Hinv) Hl) as (cf & Hcf & (_ & _ & Hk) & Hf & _).
  rewrite Hf in Hk. set (n := zlen (v_frames v) - 1).
  assert (Hn : v_frames v !! Z.to_nat n = Some f ∧ 0 ≤ n).
  { rewrite last_lookup in Hl. unfold n, zlen. pose proof (lookup_lt_Some _ _ _ Hl).
    replace (Z.to_nat _) with (pred (length (v_frames v))) by lia. split; [done|lia]. }
  destruct Hn as [Hn Hn0]. pose proof (frames_length _ _ _ (inv_frames _ _ _ Hinv)) as Hfl.
  assert (Hcn : zget (rev (control_frames c)) n = Some cf).
  { rewrite last_lookup in Hcf. unfold zget. rewrite (proj2 (Z.leb_le _ _)) by lia. rewrite <- Hcf, <- Hfl.
    f_equal. unfold n, zlen. lia. }
  assert (Hb : branch_ok (v_frames v) o n = true).
  { unfold branch_ok, frame_at, zget. rewrite (proj2 (Z.leb_le _ _)), Hn by lia.
    apply bool_decide_eq_true. unfold label_types. rewrite Hf, Ho, pop_suffix_app. by eexists. }
  destruct (drop_branch_ok (set_unreachable true c) m o n cf) as (k & Hk' & Hik); try done.
  { by destruct Hinv; constructor. } { cbn. lia. } { unfold marked. by rewrite Hk. }
  eexists (set_unreachable true c), _, _. split_and!; [|exact Hk'|by apply related_skipping|cbn; lia..|done].
  unfold translate_op. cbn [op_sig emit_op]. rewrite bind_Ret_l, apply_op_none, bind_Ret_l.
  unfold emit_return, function_block. cbn [control_frames set_unreachable].
  assert (head (control_frames c) = Some cf) as ->; [|done].
  rewrite <- (rev_involutive (control_frames c)).
  destruct (rev (control_frames c)) as [|y l _] using rev_ind; [done|].
  rewrite last_snoc in Hcf. rewrite rev_unit. done.
Qed.

Lemma step_unreachable : step_ok c m W.Unreachable (mkVState locals (v_frames v) (Skipping 0)).
Proof.
  eexists (set_unreachable true c), _, _. split_and!; [reflexivity|reflexivity| |cbn; lia..|done].
  apply related_skipping; [by destruct Hinv; constructor|done..].
Qed.

Lemma truncate_app b x : truncate (b ++ x) (zlen b) = b.
Proof. unfold truncate, zlen. by rewrite Nat2Z.id, take_app_length. Qed.

(** Nothing is dropped at the end of a valid block. *)
Lemma to_drop_none b r cf s :
  s = b ++ r → arguments cf = zlen b → returns cf = r → zlen s < 2 ^ 31 → to_drop_block s cf = None.
Proof. intros Hs Ha Hr Hlt. rewrite (to_drop_spec b [] r); [done|done..|by rewrite Hr|done]. Qed.

Lemma finished_function cf :
  rev (control_frames c) = [cf] → kind cf = FFunction →
  ∀ l b, m !! l = Some b → l_called b = true → l_placed b = true.
Proof.
  intros Hr Hk l b Hb Hc. destruct (l_placed b) eqn:Hp; [done|].
  destruct (inv_called _ _ _ Hinv _ _ Hb Hc Hp) as (x & Hx & Hw). rewrite Hr in Hx.
  apply list_elem_of_singleton in Hx as ->. unfold will_place, needs_end_label in Hw. rewrite Hk in Hw.
  destruct Hw as [[_ ?]|[_ ?]]; done.
Qed.

(** The end of a block at which nothing has to be dropped. *)
Definition closed (cfs : list ControlFrame) : MicrowasmConv :=
  set_stack (stack c) (set_frames (rev cfs) c).

Lemma translate_end cf cfs :
  vec_pop (control_frames c) = Some (rev cfs, cf) → to_drop_block (stack c) cf = None →
  truncate (stack c) (arguments cf) ++ returns cf = stack c →
  (rev cfs ≠ [] → translate_op c W.End =
    emit (closed cfs) (if needs_end_label cf then Op.Br (Label (id cf, End_)) :: end_ops cf else [])) ∧
  (rev cfs = [] → kind cf = FFunction →
    translate_op c W.End = emit (set_done (closed cfs)) [Op.Br Return]).
Proof.
  intros Hpop Hdrop Htr.
  assert (translate_op c W.End = emit_end c) as ->.
  { unfold translate_op. cbn [op_sig emit_op]. by rewrite bind_Ret_l, apply_op_none, bind_Ret_l. }
  unfold emit_end. rewrite Hpop. cbn [unwrap]. rewrite bind_Ret_l, Hdrop. cbn [set_frames stack].
  rewrite Htr. unfold end_ops, needs_end_label, closed. split.
  - intros Hne. by destruct (kind cf) as [[]| | |[]], (rev cfs).
  - by intros -> ->.
Qed.

(** Frames of blocks that are left through their label. *)
Lemma end_through_label f fs cf cfs mode :
  v_frames v = f :: fs → rev (control_frames c) = cf :: cfs → v_kind f ≠ VFunc →
  (v_kind f = VIf → v_results f = []) → needs_end_label cf = true →
  stack c = base (f :: fs) ++ v_results f →
  ∃ k, check rets (mkM (Some (stack c)) m) (Op.Br (Label (id cf, End_)) :: end_ops cf)
      = Some (mkM (Some (stack c)) k) ∧ inv (mkVState locals fs mode) (closed cfs) k.
Proof.
  intros Hf Hr Hkf Hif Hneeds Hst.
  destruct (inv_head _ _ _ _ _ Hinv Hf) as (cf' & cfs' & Hr' & _ & (_ & _ & Hk) & Hid & _).
  rewrite Hr in Hr'. injection Hr' as <- <-.
  assert (Hm : marked cf) by (unfold marked, needs_end_label in *; intros E; by rewrite E in Hneeds).
  destruct (branch_frame v c m 0 f cf Hinv) as (k & Hbr & Hik & _); [by rewrite Hf|by rewrite Hr|done|].
  assert (br_target cf = Label (id cf, End_) ∧ label_types f = v_results f) as [Hbt Hlt].
  { unfold br_target, label_types, needs_end_label in *.
    destruct (v_kind f).
    - done.
    - destruct Hk as [[n Hk] _]. by rewrite Hk.
    - destruct Hk as [Hk _]. by rewrite Hk in Hneeds.
    - destruct Hk as [Hk _]. by rewrite Hk.
    - destruct Hk as [Hk _]. by rewrite Hk. }
  rewrite drop_0, Hf, Hlt, Hbt in Hbr. rewrite <- Hst in Hbr.
  destruct (inv_head _ _ _ _ _ Hik Hf) as (cf' & cfs' & Hr' & _ & Hok' & _ & Hcase').
  rewrite Hr in Hr'. injection Hr' as <- <-. destruct Hcase' as [(? & _)|(_ & Hfs' & _)]; [done|].
  destruct (end_ops_ok v c k f fs cf cfs mode (stack c)) as (k' & Hck & Hik'); [done..|].
  rewrite <- Hst in Hck. exists k'. split; [|done].
  eapply check_trans; [|exact Hck]. cbn [check_op m_stack m_labels mbind option_bind check_inside].
  by rewrite Hbr.
Qed.

(** Frames of blocks whose end is not branched to. *)
Lemma end_without_label f fs cf cfs mode :
  v_frames v = f :: fs → rev (control_frames c) = cf :: cfs → frames_ok m fs cfs →
  (∀ cf', cf' ∈ cfs → id cf' < id cf) → needs_end_label cf = false →
  inv (mkVState locals fs mode) (closed cfs) m.
Proof.
  intros Hf Hr Hfs Hid Hneeds. eapply inv_pop; [done..|]. intros t x Hx Hc.
  destruct (l_placed x) eqn:Ep; [done|]. rewrite (not_called _ _ _ _ _ _ _ Hinv Hr Hid Hx Ep) in Hc; [done|].
  unfold will_place, needs_end_label in *. intros [[_ ?]|[_ Hw]]; [congruence|]. by rewrite Hw in Hneeds.
Qed.

Lemma step_end v' : results_ok v o = true → leave v = Some v' → step_ok c m W.End v'.
Proof.
  intros Hres (f & fs & Hf & Hif & ->)%(leave_Some _ _ (inv_locals _ _ _ Hinv)).
  unfold results_ok in Hres. rewrite Hf in Hres. apply bool_decide_eq_true in Hres.
  destruct (inv_head _ _ _ _ _ Hinv Hf) as (cf & cfs & Hr & Hpop & Hok & Hid & Hcase).
  assert (Hst : stack c = base (f :: fs) ++ v_results f) by (by rewrite Hstack, Hf, Hres).
  destruct Hok as (Ha & Hret & Hk). assert (Htrans := translate_end cf cfs Hpop).
  rewrite (to_drop_none (base (f :: fs)) (v_results f)) in Htrans by (done || lia).
  specialize (Htrans eq_refl ltac:(by rewrite Ha, Hret, Hst, truncate_app)).
  destruct Hcase as [(Hkf & -> & -> & Hrets)|(Hkf & Hfs & Hlen)].
  - rewrite Hkf in Hk. exists (set_done (closed [])), [Op.Br Return], (mkM None m).
    split_and!; [by apply Htrans| | |cbn; lia..|done].
    + apply check_one. cbn. by rewrite Hst, Hrets, pop_suffix_app.
    + cbn. split_and!; [done..|]. by eapply finished_function.
  - assert (Hrel : ∀ k, inv (mkVState locals fs (Reachable (v_below f ++ v_results f))) (closed cfs) k →
      related (mkVState locals fs (Reachable (v_below f ++ v_results f))) (closed cfs) (mkM (Some (stack c)) k)).
    { intros k Hik. apply (related_of _ _ _ _ _ Hik). cbn. split_and!; [done| |done].
      rewrite Hst. cbn. by rewrite app_assoc. }
    assert (Hne : rev cfs ≠ []).
    { intros E. apply (f_equal (@rev _)) in E. rewrite rev_involutive in E. subst cfs. inversion Hfs. }
    destruct Htrans as [Htrans _]. specialize (Htrans Hne). destruct (needs_end_label cf) eqn:Hn.
    + destruct (end_through_label f fs cf cfs (Reachable (v_below f ++ v_results f)) Hf Hr Hkf Hif Hn Hst)
        as (k & Hck & Hik). eexists _, _, _. split_and!; [done|done|by apply Hrel|cbn; lia..|done].
    + exists (closed cfs), [], (mkM (Some (stack c)) m).
      split_and!; [done|done|by eapply Hrel, end_without_label|cbn; lia..|done].
Qed.

Lemma step_else v' : results_ok v o = true → enter_else v = Some v' → step_ok c m W.Else v'.
Proof.
  intros Hres (r & b & fs & Hf & ->)%(enter_else_Some _ _ (inv_locals _ _ _ Hinv)).
  unfold results_ok in Hres. rewrite Hf in Hres. apply bool_decide_eq_true in Hres. cbn in Hres.
  destruct (inv_head _ _ _ _ _ Hinv Hf) as (cf & cfs & Hr & Hpop & Hok & Hid & [[? _]|(_ & Hfs & Hlen)]); [done|].
  destruct (Hok) as (Ha & Hret & Hk & _). cbn [v_kind v_results] in *. rewrite <- Hf in Ha.
  assert (Hst : stack c = base (v_frames v) ++ r) by (by rewrite Hstack, Hres).
  destruct (branch_frame v c m 0 _ cf Hinv ltac:(by rewrite Hf) ltac:(by rewrite Hr)) as (k & Hbr & Hik & _).
  { unfold marked. by rewrite Hk. }
  assert (br_target cf = Label (id cf, End_)) as Hbt by (unfold br_target; by rewrite Hk).
  rewrite drop_0, Hbt in Hbr. cbn [label_types v_kind v_results] in Hbr. rewrite <- Hst in Hbr.
  destruct (inv_head _ _ _ _ _ Hik Hf) as (cf' & cfs' & Hr' & _ & Hok' & _ & [[? _]|(_ & Hfs' & _)]); [done|].
  rewrite Hr in Hr'. injection Hr' as <- <-. rewrite <- Hf in Hok'.
  destruct (else_ok v c k r b fs cf cfs (Reachable []) (base (v_frames v))) as [Hck Hi']; [done..|].
  eexists _, _, _. split_and!; [| | | | | |].
  - unfold translate_op. cbn [op_sig emit_op]. rewrite bind_Ret_l, apply_op_none, bind_Ret_l.
    unfold emit_else. rewrite Hpop. cbn [unwrap]. rewrite bind_Ret_l.
    rewrite (to_drop_none (base (v_frames v)) r) by (done || lia). cbn [set_frames stack].
    rewrite Ha, Hst, truncate_app. reflexivity.
  - cbn [drop_ops app]. eapply check_trans; [|exact Hck].
    cbn [check_op m_stack m_labels mbind option_bind check_inside]. by rewrite Hbr.
  - split; [exact Hi'|]. cbn. rewrite Hf. cbn. by rewrite app_nil_r.
  - cbn [set_stack stack set_frames]. rewrite Hst, zlen_app. pose proof (zlen_nonneg r). lia.
  - cbn. lia.
  - cbn. lia.
  - done.
Qed.

(** *** Any operator of reachable code *)
Lemma step_reachable op v' :
  plain_loop op → vstep_reachable v o op = Some v' → step_ok c m op v'.
Proof.
  intros Hloop Hv. pose proof (inv_locals _ _ _ Hinv) as Hl.
  assert (Hsimple : ∀ i r p, simple_type (v_locals v) o op = Some (i, r) → o = p ++ i →
    (length r ≤ 1)%nat → step_ok c m op (mkVState locals (v_frames v) (Reachable (p ++ r)))).
  { intros i r p Hty Ho Hr. rewrite Hl in Hty.
    destruct (step_simple rets c locals (base (v_frames v)) o p m Hstack (locals_prefix _) Hsize op i r Hty Ho)
      as (ops & Ht & Hc).
    eexists _, _, _. split_and!; [exact Ht|exact Hc| |cbn [set_stack stack]|cbn; lia..|done].
    - apply related_of; [by destruct Hinv; constructor|done].
    - rewrite Hstack, Ho, !zlen_app. unfold zlen. lia. }
  unfold vstep_reachable in Hv. rewrite Hl in Hv.
  destruct op;
    try (apply bind_Some in Hv as ([i r] & Hty & Hv); apply bind_Some in Hv as (p & Hp & [= <-]);
         apply pop_suffix_Some in Hp; rewrite Hl in Hsimple; by apply (Hsimple i r p Hty Hp), (simple_arity _ _ _ _ _ Hty)).
  - injection Hv as <-. apply step_unreachable.
  - apply bind_Some in Hv as (r & Hr & [= <-]). rewrite Hl. by apply step_block.
  - cbn in Hloop. unfold push_frame in Hv. rewrite Hloop in Hv. injection Hv as <-. rewrite Hl. by apply step_loop.
  - apply bind_Some in Hv as (p & Hp%pop_suffix_Some & Hv). apply bind_Some in Hv as (r & Hr & [= <-]).
    rewrite Hl. by apply step_if.
  - destruct (results_ok v o) eqn:E; [|done]. by apply step_else.
  - destruct (results_ok v o) eqn:E; [|done]. by apply step_end.
  - destruct (branch_ok _ _ _) eqn:E; [|done]. injection Hv as <-. by apply step_br.
  - apply bind_Some in Hv as (p & Hp%pop_suffix_Some & Hv).
    destruct (branch_ok _ _ _) eqn:E; [|done]. injection Hv as <-. by apply step_br_if.
  - destruct table as [[ns d]|]; [|done]. apply bind_Some in Hv as (p & Hp%pop_suffix_Some & Hv).
    destruct (forallb _ _) eqn:E; [|done]. injection Hv as <-. by eapply step_br_table.
  - apply bind_Some in Hv as (f & Hf & Hv). apply bind_Some in Hv as (p & Hp%pop_suffix_Some & [= <-]).
    by eapply step_return.
Qed.
End operators.

(** ** Code that cannot be reached *)

Section skipping.
Context `{ModuleContext}.

(** What a call of [next] achieves: the operators [rest] are left, and the
    states are related again; or the function has ended. *)
Definition next_ok (c : MicrowasmConv) (s : option (list SignlessType)) (m : labels)
    (rest : list WasmOperator) (st : vstate) (c' : MicrowasmConv) (it : Item) : Prop :=
  internal c' = map Ok rest ∧ zlen (stack c') ≤ zlen (stack c) + 1 ∧
  current_id c ≤ current_id c' ≤ current_id c + 1 ∧
  match it with
  | Some (Ok ops) => ∃ v' m', check rets (mkM s m) ops = Some m' ∧ related v' c' m' ∧
      validate v' rest = Some st
  | Some (Err _) => False
  | None => s = None ∧ ∀ l b, m !! l = Some b → l_called b = true → l_placed b = true
  end.

Lemma skip_else_ok v c m junk v' rest st :
  inv v c m → unreachable c = false → stack c = base (v_frames v) ++ junk →
  internal c = map Ok rest → enter_else v = Some v' → validate v' rest = Some st →
  ∃ c' it, skip_else c = Ret (c', it) ∧ next_ok c None m rest st c' it.
Proof.
  intros Hi Hu Hs Hint (r & b & fs & Hf & ->)%(enter_else_Some _ _ (inv_locals _ _ _ Hi)) Hval.
  destruct (inv_head _ _ _ _ _ Hi Hf) as (cf & cfs & Hr & Hpop & Hok & Hid & [[? _]|(_ & Hfs & Hlen)]); [done|].
  destruct (Hok) as (Ha & _). rewrite <- Hf in Ha, Hok.
  destruct (else_ok v c m r b fs cf cfs (Reachable []) (base (v_frames v))) as [Hck Hi']; [done..|].
  eexists _, _. split.
  - unfold skip_else. rewrite Hpop. cbn [unwrap]. rewrite bind_Ret_l, Ha, Hs, truncate_app. reflexivity.
  - split_and!; [done| |cbn; lia..|].
    + cbn [set_frames set_stack stack]. rewrite Hs, zlen_app. pose proof (zlen_nonneg junk). lia.
    + eexists _, _. split_and!; [exact Hck| |exact Hval].
      split; [exact Hi'|]. cbn. rewrite Hf, app_nil_r. by rewrite Hu.
Qed.

Lemma skip_end_ok v c m junk v' rest st :
  inv v c m → unreachable c = false → stack c = base (v_frames v) ++ junk →
  internal c = map Ok rest → leave v = Some v' → validate v' rest = Some st →
  ∃ c' it, skip_end c = Ret (c', it) ∧ next_ok c None m rest st c' it.
Proof.
  intros Hi Hu Hs Hint (f & fs & Hf & Hif & ->)%(leave_Some _ _ (inv_locals _ _ _ Hi)) Hval.
  destruct (inv_head _ _ _ _ _ Hi Hf) as (cf & cfs & Hr & Hpop & Hok & Hid & Hcase).
  unfold skip_end. rewrite Hpop. cbn [unwrap]. rewrite bind_Ret_l. cbn [set_frames stack].
  destruct Hcase as [(Hkf & -> & -> & _)|(Hkf & Hfs & Hlen)].
  - destruct Hok as (_ & _ & Hk). rewrite Hkf in Hk. eexists _, _. split; [done|].
    split_and!; [done|cbn; lia|cbn; lia|cbn; lia|done|]. by eapply finished_function.
  - destruct (Hok) as (Ha & Hret & _). rewrite Ha, Hret, Hs, Hf, truncate_app.
    destruct (end_ops_ok v c m f fs cf cfs (Reachable (v_below f ++ v_results f))
      (base (f :: fs) ++ v_results f)) as (k & Hck & Hik); [done..|].
    eexists _, (Some (Ok (end_ops cf))). split.
    + unfold end_ops. destruct (rev cfs) eqn:E; [apply (f_equal (@rev _)) in E; rewrite rev_involutive in E;
        subst cfs; inversion Hfs|]. rewrite <- E. by destruct (kind cf) as [| | |[]].
    + split_and!; [done| |cbn; lia..|].
      * cbn [set_stack stack set_frames]. rewrite Hs, Hf, !zlen_app. pose proof (zlen_nonneg junk). unfold zlen. lia.
      * eexists _, _. split_and!; [exact Hck| |exact Hval].
        apply (related_of _ _ _ _ _ Hik). cbn. by rewrite app_assoc.
Qed.

Lemma skip_loop_ok v c m junk st :
  inv v c m → unreachable c = false → stack c = base (v_frames v) ++ junk → v_frames st = [] →
  ∀ ops d, Z.of_nat d + zlen ops < 2 ^ 31 →
  validate (mkVState locals (v_frames v) (Skipping d)) ops = Some st →
  ∃ c' it rest, skip_loop (map Ok ops) (Z.of_nat d) c = Ret (c', it) ∧
    (length rest < length ops)%nat ∧ next_ok c None m rest st c' it ∧
    suffix rest ops.
Proof.
  intros Hi Hu Hs Hst. induction ops as [|op ops IH]; intros d Hd Hval.
  { cbn in Hval. injection Hval as <-. cbn in Hst. pose proof (inv_frames _ _ _ Hi) as Hf.
    rewrite Hst in Hf. inversion Hf. }
  cbn in Hval. rewrite zlen_cons in Hd. pose proof (zlen_nonneg ops).
  apply bind_Some in Hval as (v1 & Hv1 & Hval). unfold vstep in Hv1. cbn [v_frames v_mode] in Hv1.
  assert (Hv1' : vstep_skipping (mkVState locals (v_frames v) (Skipping d)) d op = Some v1) by (by destruct (v_frames v)).
  clear Hv1. rename Hv1' into Hv1.
  assert (Hrec : ∀ d', v1 = mkVState locals (v_frames v) (Skipping d') → Z.of_nat d' ≤ Z.of_nat d + 1 →
    ∃ c' it rest, skip_loop (map Ok ops) (Z.of_nat d') c = Ret (c', it) ∧
      (length rest < length (op :: ops))%nat ∧ next_ok c None m rest st c' it ∧ suffix rest (op :: ops)).
  { intros d' -> Hd'. destruct (IH d') as (c' & it & rest & E & Hlt & Hn & Hsuf); [lia|done|].
    exists c', it, rest. split_and!; [done|cbn; lia|done|by apply suffix_cons_r]. }
  assert (Hl : v_locals v = locals) by apply Hi.
  assert (Hi' : inv v (set_internal (map Ok ops) c) m) by (by destruct Hi; constructor).
  cbn [map skip_loop].
  destruct op; try (injection Hv1 as Hv1; apply (Hrec d); [by rewrite <- Hv1|lia]).
  1-3: rewrite i32_checked_fits by lia; rewrite bind_Ret_l;
    injection Hv1 as Hv1; replace (Z.of_nat d + 1) with (Z.of_nat (S d)) by lia;
    apply (Hrec (S d)); [by rewrite <- Hv1|lia].
  - destruct d as [|d]; [|injection Hv1 as Hv1; apply (Hrec (S d)); [by rewrite <- Hv1|lia]].
    destruct (skip_else_ok v (set_internal (map Ok ops) c) m junk v1 ops st) as (c' & it & E & Hn); try done.
    { rewrite <- Hv1. unfold enter_else. cbn. by rewrite Hl. }
    exists c', it, ops. split_and!; [done|cbn; lia|done|by apply suffix_cons_r].
  - destruct d as [|d].
    + destruct (skip_end_ok v (set_internal (map Ok ops) c) m junk v1 ops st) as (c' & it & E & Hn); try done.
      { rewrite <- Hv1. unfold leave. cbn. by rewrite Hl. }
      exists c', it, ops. split_and!; [done|cbn; lia|done|by apply suffix_cons_r].
    + rewrite (proj2 (Z.eqb_neq _ 0)) by lia. rewrite i32_checked_fits by lia. rewrite bind_Ret_l.
      replace (Z.of_nat (S d) - 1) with (Z.of_nat d) by lia.
      injection Hv1 as Hv1. apply (Hrec d); [by rewrite <- Hv1|lia].
Qed.

(** ** All operators of a function *)

Lemma next_reachable v c m o op ops st :
  inv v c m → unreachable c = false → stack c = base (v_frames v) ++ o → v_mode v = Reachable o →
  internal c = map Ok (op :: ops) → zlen (stack c) + 2 < 2 ^ 31 →
  0 ≤ current_id c ∧ current_id c + 1 < 2 ^ 32 → plain_loop op →
  validate v (op :: ops) = Some st →
  ∃ c' it, next c = Ret (c', it) ∧ next_ok c (Some (stack c)) m ops st c' it.
Proof.
  intros Hi Hu Hs Hm Hint Hsz Hids Hpl Hval. cbn in Hval. apply bind_Some in Hval as (v1 & Hv1 & Hval).
  unfold vstep in Hv1. rewrite Hm in Hv1. destruct (v_frames v) as [|f fs] eqn:Ef; [done|]. rewrite <- Ef in Hs.
  set (c0 := set_internal (map Ok ops) c). assert (Hi0 : inv v c0 m) by (by destruct Hi; constructor).
  destruct (step_reachable v c0 m o Hi0 Hu Hs Hsz Hids op v1 Hpl Hv1)
    as (c' & l & m' & Ht & Hc & Hrel & Hstk & Hid & Hin).
  exists c', (Some (Ok l)). split.
  - unfold next. rewrite (inv_done _ _ _ Hi), (inv_consts _ _ _ Hi), Hu. unfold read. rewrite Hint. exact Ht.
  - split; [by rewrite Hin|split; [done|split; [exact Hid|]]]. by exists v1, m'.
Qed.

Lemma collect_ok fuel : ∀ ops v c m st,
  related v c m → internal c = map Ok ops → validate v ops = Some st → v_frames st = [] →
  Forall plain_loop ops → zlen (stack c) + zlen ops + 2 < 2 ^ 31 →
  0 ≤ current_id c ∧ current_id c + zlen ops + 1 < 2 ^ 32 → (length ops < fuel)%nat →
  ∃ code m', collect fuel c = Some (Ret code) ∧ check rets m code = Some m' ∧ m_stack m' = None ∧
    ∀ l b, m_labels m' !! l = Some b → l_called b = true → l_placed b = true.
Proof.
  induction fuel as [|fuel IH]; intros ops v c m st Hrel Hint Hval Hst Hpl Hsz Hids Hfuel; [lia|].
  unfold related in Hrel. destruct (v_frames v) as [|f fs] eqn:Ef.
  { destruct Hrel as (Hd & Hnone & Hall). exists [], m. split_and!; [|done..]. cbn. unfold next. by rewrite Hd. }
  destruct Hrel as [Hi Hmode].
  assert (Hnext : ∃ c' it rest, next c = Ret (c', it) ∧ next_ok c (m_stack m) (m_labels m) rest st c' it ∧
    (length rest < length ops)%nat ∧ suffix rest ops).
  { unfold mode_ok in Hmode. destruct (v_mode v) as [o|d] eqn:Em.
    - destruct Hmode as (Hu & Hs & ->). destruct ops as [|op ops].
      { cbn in Hval. injection Hval as <-. by rewrite Hst in Ef. }
      apply Forall_cons in Hpl as [Hpl _]. rewrite zlen_cons in *. pose proof (zlen_nonneg ops).
      destruct (next_reachable v c (m_labels m) o op ops st) as (c' & it & E & Hn); try done; [lia|lia|].
      exists c', it, ops. split_and!; [done..|cbn; lia|by apply suffix_cons_r].
    - destruct Hmode as (-> & Hu & [junk Hs] & ->). pose proof (inv_locals _ _ _ Hi) as Hl.
      assert (v = mkVState locals (v_frames v) (Skipping 0)) as Hv by (destruct v; cbn in *; congruence).
      destruct (skip_loop_ok v (set_unreachable false c) (m_labels m) junk st) with (ops := ops) (d := 0%nat)
        as (c' & it & rest & E & Hlt & Hn & Hsuf); try done.
      { by destruct Hi; constructor. } { pose proof (zlen_nonneg (stack c)). lia. } { by rewrite <- Hv. }
      exists c', it, rest. split_and!; [|done..].
      unfold next. rewrite (inv_done _ _ _ Hi), (inv_consts _ _ _ Hi), Hu, Hint. exact E. }
  destruct Hnext as (c' & it & rest & E & (Hint' & Hsz' & Hid' & Hit) & Hlt & Hsuf).
  cbn [collect]. rewrite E. destruct it as [[l|]|]; [|done|].
  - destruct Hit as (v' & m' & Hck & Hrel' & Hval').
    assert (Hz : zlen rest + 1 ≤ zlen ops) by (unfold zlen; lia).
    destruct (IH rest v' c' m' st) as (code & m'' & Ec & Hck' & Hfin); try done; try lia.
    { destruct Hsuf as [k ->]. by apply Forall_app in Hpl as [_ ?]. }
    exists (l ++ code), m''. rewrite Ec. split_and!; [done| |apply Hfin..].
    destruct m as [sm lm]. cbn in Hck. by rewrite check_app, Hck.
  - destruct Hit as [Hn Hall]. exists [], m. by split_and!.
Qed.
End skipping.
End invariant.

(** ** Whole functions *)

(** The types of the declared locals: a count and a value type each. *)
Definition value_type (ty : WT.Type_) : option SignlessType :=
  match ty with
  | WT.I32 => Some I32 | WT.I64 => Some I64 | WT.F32 => Some F32 | WT.F64 => Some F64 | _ => None
  end.

Fixpoint local_types (locs : list (Z * WT.Type_)) : option (list SignlessType) :=
  match locs with
  | [] => Some []
  | (n, ty) :: locs =>
      t ← value_type ty; ts ← local_types locs; Some (replicate (Z.to_nat n) t ++ ts)
  end.

Lemma value_type_from_wasm ty t : value_type ty = Some t → from_wasm ty = Ret (Some t).
Proof. by destruct ty; intros [= <-]. Qed.

Lemma type_default t : type_ (default_for_type t) = t.
Proof. by destruct t as [[]|[]]. Qed.

(** [MicrowasmConv::new] on locals with value types. *)
Lemma new_locals locs lt : local_types locs = Some lt → ∀ acc,
  foldM (λ lc loc,
    match loc with
    | Err _ => Panic
    | Ok (count, ty) =>
        o ← from_wasm ty; ty ← unwrap o;
        Ret (lc.1 ++ replicate (Z.to_nat count) ty,
             lc.2 ++ replicate (Z.to_nat count) (default_for_type ty))
    end) acc (map (@Ok _ BinaryReaderError) locs) = Ret (acc.1 ++ lt, acc.2 ++ map default_for_type lt).
Proof.
  revert lt. induction locs as [|[n ty] locs IH]; intros lt Hlt acc.
  { injection Hlt as <-. cbn. destruct acc. by rewrite !app_nil_r. }
  cbn in Hlt. apply bind_Some in Hlt as (t & Ht & Hlt). apply bind_Some in Hlt as (ts & Hts & [= <-]).
  cbn [map foldM]. rewrite (value_type_from_wasm _ _ Ht), bind_Ret_l. cbn [unwrap]. rewrite bind_Ret_l.
  rewrite bind_Ret_l, (IH ts Hts). cbn [fst snd]. by rewrite map_app, (fmap_replicate default_for_type), <- !app_assoc.
Qed.

Lemma MicrowasmConv_new_spec params rets locs lt ops :
  local_types locs = Some lt → zlen (params ++ lt) < 2 ^ 31 →
  MicrowasmConv_new params rets (Ok (map Ok locs)) (Ok ops) =
    Ret (mkConv false (Some (map default_for_type lt)) (params ++ lt) ops 1
           [mkControlFrame 0 (zlen (params ++ lt)) rets FFunction] false).
Proof.
  intros Hlt Hlen. unfold MicrowasmConv_new. rewrite (new_locals _ _ Hlt), bind_Ret_l.
  cbn [fst snd]. unfold next_id. rewrite op_add_fits by (cbn; lia). rewrite !bind_Ret_l.
  by rewrite wrap_len by done.
Qed.

Section function.
Context `{ModuleContext}.

Lemma check_consts rets lt : ∀ s m,
  check rets (mkM (Some s) m) (map Op.Const (map default_for_type lt)) = Some (mkM (Some (s ++ lt)) m).
Proof.
  induction lt as [|t lt IH]; intros s m; [by rewrite app_nil_r|].
  cbn [map]. eapply check_trans.
  - assert (E : pop_suffix s [] = Some s) by (apply pop_suffix_Some; by rewrite app_nil_r).
    cbn. by rewrite type_default, E.
  - rewrite (IH (s ++ [t]) m). by rewrite <- app_assoc.
Qed.

Lemma related_start locals rets ops :
  related locals rets (mkVState locals [mkVFrame VFunc rets []] (Reachable []))
    (mkConv false None locals ops 1 [mkControlFrame 0 (zlen locals) rets FFunction] false)
    (mkM (Some locals) ∅).
Proof.
  split.
  - constructor; cbn [v_locals v_frames control_frames rev app current_id]; try done.
    + constructor; [done..|]. split_and!; [cbn; by rewrite app_nil_r|done..].
    + intros cf ->%list_elem_of_singleton. cbn. lia.
  - cbn. by rewrite !app_nil_r.
Qed.

(** More fuel does not change what is collected. *)
Lemma collect_mono_eq n k c code code' :
  collect n c = Some (Ret code) → collect k c = Some (Ret code') → (k ≤ n)%nat → code = code'.
Proof.
  revert k c code code'. induction n as [|n IH]; intros k c code code' Hn Hk Hle.
  { by destruct k. }
  destruct k as [|k]; [done|]. cbn in Hn, Hk. destruct (next c) as [[c1 [[l|]|]]|]; try done; [|congruence].
  destruct (collect n c1) as [[a|]|] eqn:En; try done. cbn in Hn. injection Hn as <-.
  destruct (collect k c1) as [[b|]|] eqn:Ek; try done. cbn in Hk. injection Hk as <-.
  f_equal. eapply IH; [exact En|exact Ek|lia].
Qed.

(** C5: type preservation.  For a valid WebAssembly function whose loops have
    no results, the conversion to Microwasm does not panic and ends, and its
    output is well formed: every operator finds operands of its types on the
    stack, labels are defined once and before they are used, every branch
    carries exactly the parameters of its label (or has the results of the
    function on top), labels announced with one caller have just that one,
    labels without backwards callers are never branched to after they have
    been placed, the targets of a [br_if] differ, and every label that is
    branched to is placed. *)
Theorem conversion_well_formed (params rets lt : list SignlessType)
    (locs : list (Z * WT.Type_)) (ops : list WasmOperator)
    (Hlocals : local_types locs = Some lt) (Hvalid : valid_body (params ++ lt) rets ops)
    (Hloops : Forall plain_loop ops) (Hsize : zlen (params ++ lt) + zlen ops + 2 < 2 ^ 31) :
  ∃ c code, MicrowasmConv_new params rets (Ok (map Ok locs)) (Ok (map Ok ops)) = Ret c ∧
    (∀ fuel, (length ops + 2 ≤ fuel)%nat → collect fuel c = Some (Ret code)) ∧
    well_formed rets params code.
Proof.
  destruct Hvalid as (st & Hval & Hst). pose proof (zlen_nonneg ops). pose proof (zlen_nonneg (params ++ lt)).
  eexists. pose proof (related_start (params ++ lt) rets (map Ok ops)) as Hrel.
  set (c := mkConv false None _ _ _ _ _) in Hrel.
  destruct (collect_ok (params ++ lt) rets (S (length ops)) ops _ c _ st Hrel eq_refl Hval Hst Hloops)
    as (code & m' & Ec & Hck & Hfin); [cbn; lia..|].
  exists (map Op.Const (map default_for_type lt) ++ code). split_and!.
  - apply MicrowasmConv_new_spec; [done|lia].
  - intros fuel Hf. destruct fuel as [|fuel]; [lia|]. cbn [collect next is_done consts_to_emit].
    change (take_consts _) with c. cbn.
    destruct (collect_ok (params ++ lt) rets fuel ops _ c _ st Hrel eq_refl Hval Hst Hloops)
      as (code' & m'' & Ec' & _); [cbn; lia..|].
    rewrite Ec'. assert (code' = code) as ->; [|done]. eapply collect_mono_eq; [exact Ec'|exact Ec|lia].
  - exists m'. split; [|apply Hfin]. rewrite check_app, check_consts. exact Hck.
Qed.
End function.

(** ** An example *)

Definition example_context : ModuleContext := {|
  func_type := λ _, Ret ([I32], [I64]);
  signature := λ _, Ret ([I32], [I64]);
  global_type := λ _, Ret F32;
|}.
Definition example_empty := WType WT.EmptyBlockType.

(** A body with every control operator, and code that cannot be reached. *)
Definition example_body : list WasmOperator :=
  [W.Block (WType WT.I32); W.GetLocal 0; W.If example_empty; W.I32Const 3; W.I32Const 4; W.Br 1;
   W.Nop; W.Else; W.I32Const 5; W.GetLocal 0; W.BrIf 1; W.Drop; W.Loop example_empty; W.GetLocal 0;
   W.BrIf 0; W.I32Const 9; W.I32Const 8; W.BrTable (Ok ([0; 0], 0)); W.Block example_empty; W.End;
   W.End; W.End; W.I32Const 3; W.End; W.SetLocal 1; W.GetLocal 1; W.Call 0; W.Drop; W.GetLocal 0;
   W.TeeLocal 1; W.End].

Lemma conversion_well_formed_witness :
  ∃ c code, MicrowasmConv_new [I32] [I32] (Ok [Ok (1, WT.I32)]) (Ok (map Ok example_body)) = Ret c ∧
    @collect example_context 100 c = Some (Ret code) ∧ @well_formed example_context [I32] [I32] code.
Proof.
  destruct (@conversion_well_formed example_context [I32] [I32] [I32] [(1, WT.I32)] example_body)
    as (c & code & Hc & Hcode & Hwf).
  - reflexivity.
  - eexists. split; [vm_compute; reflexivity|reflexivity].
  - repeat constructor.
  - reflexivity.
  - exists c, code. split; [exact Hc|]. split; [apply Hcode; apply Nat.leb_le; reflexivity|exact Hwf].
Defined.
