(* ===== verification/MicrowasmValues.v ===== *)
(** * Microwasm on values

    What the operators that move values do to a stack of values, as the code
    generator executes them, and the one case in which the conversion does
    not produce well-formed code. *)

From S2P Require Import Prelude Microwasm MicrowasmTyping MicrowasmProofs MicrowasmSound.
Import V(Value) W(WasmOperator) Op(Operator).
Local Open Scope Z_scope.

(** The stack of values after a sequence of moves. *)
Definition run_move {A} (s : list A) (op : OperatorFromWasm) : res (list A) :=
  match op with
  | Op.Pick d => ctx_pick s d
  | Op.Swap d => ctx_swap s d
  | Op.Drop r => ctx_drop s r
  | _ => Panic
  end.
Definition run_moves {A} (s : list A) (ops : list OperatorFromWasm) : res (list A) :=
  foldM run_move s ops.

Section values.
Context `{ModuleContext} {A : Type}.
Implicit Types ws b x r : list A.

Lemma run_drop_top ws v : ctx_drop (ws ++ [v]) (0, 0) = Ret ws.
Proof.
  pose proof (ctx_drop_middle ws [v] [] ltac:(done)) as E. rewrite !app_nil_r in E. exact E.
Qed.

Lemma run_store ws v i y :
  zget ws i = Some y → zlen ws + 1 < 2 ^ 64 →
  run_moves (ws ++ [v]) [Op.Swap (zlen ws - i); Op.Drop (0, 0)] = Ret (<[Z.to_nat i := v]> ws).
Proof.
  intros Hi Hs. unfold run_moves. cbn [foldM run_move]. rewrite (ctx_swap_spec ws v i y Hi) by lia.
  rewrite bind_Ret_l, run_drop_top. done.
Qed.

(** Operators on locals.  With the local [i] and an operand of its type on
    top of the stack, the moves emitted for [get_local], [set_local] and
    [tee_local] act on every stack of values with that layout as
    WebAssembly prescribes: the value of the local is pushed; the operand
    is stored in the local and popped; it is stored and stays. *)
Theorem local_operators_on_values (c : MicrowasmConv) (s : list SignlessType) (t : SignlessType)
    (i : Z) ws (v y : A)
    (Hstack : stack c = s ++ [t]) (Hlocal : zget s i = Some t) (Hsize : zlen (stack c) + 2 < 2 ^ 31)
    (Hlayout : zlen ws = zlen s) (Hy : zget ws i = Some y) :
  (∃ c' code, translate_op c (W.GetLocal i) = emit c' code ∧ stack c' = stack c ++ [t] ∧
     run_moves (ws ++ [v]) code = Ret (ws ++ [v] ++ [y])) ∧
  (∃ c' code, translate_op c (W.SetLocal i) = emit c' code ∧ stack c' = s ∧
     run_moves (ws ++ [v]) code = Ret (<[Z.to_nat i := v]> ws)) ∧
  (∃ c' code, translate_op c (W.TeeLocal i) = emit c' code ∧ stack c' = stack c ∧
     run_moves (ws ++ [v]) code = Ret (<[Z.to_nat i := v]> ws ++ [v])).
Proof.
  pose proof (zget_Some_lt _ _ _ Hy) as Hlt.
  assert (Hl : zlen (stack c) = zlen ws + 1) by (rewrite Hstack, Hlayout; apply zlen_app).
  assert (Hl' : zlen (ws ++ [v]) = zlen ws + 1) by apply zlen_app.
  assert (Hs : zget (stack c) i = Some t) by (rewrite Hstack, zget_app_l; [done|lia]).
  split_and!.
  - eexists _, _. split; [apply (translate_get_local c); [done|exact Hs]|]. split; [done|].
    unfold run_moves. cbn [foldM run_move]. rewrite Hl, <- Hl'.
    rewrite (ctx_pick_spec (ws ++ [v]) i y); [by rewrite <- app_assoc|by rewrite zget_app_l by lia|lia].
  - eexists _, _. split; [by eapply (translate_set_local c)|]. split; [done|].
    rewrite <- Hlayout. apply (run_store ws v i y); [done|lia].
  - eexists _, _. split; [by eapply (translate_tee_local c)|]. split; [done|].
    rewrite Hl, <- Hl'. unfold run_moves. cbn [foldM run_move].
    pose proof (ctx_pick_spec (ws ++ [v]) (zlen ws) v) as E. rewrite Hl' in E.
    replace (zlen ws + 1 - 1 - zlen ws) with 0 in E by lia.
    rewrite E; [|by rewrite zget_app_r, Z.sub_diag by lia|lia]. rewrite bind_Ret_l.
    pose proof (run_store (ws ++ [v]) v i y ltac:(by rewrite zget_app_l by lia) ltac:(lia)) as Er.
    unfold run_moves in Er. cbn [foldM run_move] in Er. rewrite Er.
    rewrite insert_app_l; [done|]. unfold zlen in *. lia.
Qed.
End values.

(** *** Branches to loops with results *)

(** A branch to a loop that has a result leaves operands.  The conversion
    keeps as many operands as the loop has results, although the header of
    the loop takes none: whenever there are that many operands above what
    the loop found, the emitted branch does not carry the parameters of
    its label, and the code is not well formed. *)
Lemma branch_to_loop_ill_formed `{ModuleContext} (rets : list SignlessType)
    (c : MicrowasmConv) (m : gmap WasmLabel label_info) (n : Z) (cf : ControlFrame)
    (b x y : list SignlessType)
    (Hframe : zget (rev (control_frames c)) n = Some cf) (Hloop : kind cf = FLoop)
    (Hstack : stack c = b ++ x ++ y) (Hargs : arguments cf = zlen b)
    (Hy : y ≠ []) (Hrets : zlen (returns cf) = zlen y) (Hsize : zlen (stack c) < 2 ^ 31)
    (Hlabel : label_is m (id cf, Header) b true None) :
  ∃ c' code, translate_op c (W.Br n) = emit c' code ∧
    check rets (mkM (Some (stack c)) m) code = None.
Proof.
  eexists _, _. split.
  - unfold translate_op. cbn [op_sig emit_op]. rewrite bind_Ret_l, apply_op_none, bind_Ret_l.
    unfold emit_br. rewrite (nth_block_at (set_unreachable true c) n cf Hframe), bind_Ret_l.
    rewrite (nth_block_mut_mark (set_unreachable true c) n cf Hframe), bind_Ret_l. reflexivity.
  - cbn [stack set_unreachable]. rewrite check_app, (to_drop_ops rets b x y) by done. cbn [mbind option_bind].
    rewrite mark_br_target. unfold br_target. rewrite Hloop.
    destruct Hlabel as (l & Hl & Hp & _). cbn. rewrite Hl. cbn.
    rewrite bool_decide_eq_false_2; [done|]. rewrite Hp. intros E.
    apply (f_equal length) in E. rewrite length_app in E. destruct y; [done|]. cbn in E. lia.
Qed.

(** ** Examples *)

Definition example_conv : MicrowasmConv :=
  mkConv false None [I32; I64; I64] [] 1 [mkControlFrame 0 2 [] FFunction] false.

Lemma local_operators_on_values_witness :
  ∃ c' code, @translate_op example_context example_conv (W.SetLocal 1) = emit c' code ∧
    run_moves [10; 20; 30] code = Ret [10; 30].
Proof.
  destruct (@local_operators_on_values example_context Z example_conv [I32; I64] I64 1 [10; 20] 30 20)
    as (_ & (c' & code & E & _ & Hr) & _); [reflexivity..|].
  exists c', code. split; [exact E|exact Hr].
Defined.

(** The inside of a loop with a result, with one operand. *)
Definition example_loop : MicrowasmConv :=
  mkConv false None [I32; I32] [] 2
    [mkControlFrame 0 1 [] FFunction; mkControlFrame 1 1 [I32] FLoop] false.
Definition example_labels : gmap WasmLabel label_info :=
  {[ (1, Header) := mkLabel [I32] true None true true ]}.

Lemma branch_to_loop_ill_formed_witness :
  ∃ c' code, @translate_op example_context example_loop (W.Br 0) = emit c' code ∧
    @check example_context [] (mkM (Some [I32; I32]) example_labels) code = None.
Proof.
  apply (@branch_to_loop_ill_formed example_context [] example_loop example_labels 0
    (mkControlFrame 1 1 [I32] FLoop) [I32] [] [I32]); try reflexivity; [discriminate|].
  eexists. split; [vm_compute; reflexivity|]. repeat split.
Defined.

(** A valid function whose conversion is not well formed. *)
Definition loop_body : list WasmOperator :=
  [W.Loop (WType WT.I32); W.I32Const 1; W.Br 0; W.End; W.End].

Lemma loop_body_ill_formed :
  @valid_body example_context [] [I32] loop_body ∧
  ∃ c code, MicrowasmConv_new [] [I32] (Ok []) (Ok (map Ok loop_body)) = Ret c ∧
    @collect example_context 100 c = Some (Ret code) ∧ ¬ @well_formed example_context [I32] [] code.
Proof.
  split; [eexists; split; [vm_compute; reflexivity|reflexivity]|].
  eexists _, _. split; [vm_compute; reflexivity|]. split; [vm_compute; reflexivity|].
  intros (m & Hm & _). vm_compute in Hm. discriminate Hm.
Qed.
