(* ===== verification/HostFloats.v ===== *)
(** * Floating point numbers of the host

    [f32] and [f64] of Rust, which Lightbeam uses to compute with constants, as bit
    patterns over the binary floats of the Standard Library ([SpecFloat]).  Which NaN an
    operation returns and which of two equal numbers [min] and [max] return is not
    specified by Rust and left open (the class [HostFloat]).  The sizes are those of
    Microwasm. *)

From Stdlib Require Import SpecFloat.
From S2P Require Import Prelude Microwasm.
Local Open Scope Z_scope.

Class HostFloat := {
  nan_of : Z → Z → Z;
  prefer_first : Z → Z → bool;
}.

Definition float_bits (z : Size) : Z := match z with _32 => 32 | _64 => 64 end.
(** Bits of the fraction, precision, and exponent of the infinities. *)
Definition fraction_bits (z : Size) : Z := match z with _32 => 23 | _64 => 52 end.
Definition precision (z : Size) : Z := fraction_bits z + 1.
Definition exponent_max (z : Size) : Z := match z with _32 => 128 | _64 => 1024 end.
Definition exponent_min (z : Size) : Z := emin (precision z) (exponent_max z).

Definition from_bits (z : Size) (b : Z) : spec_float :=
  let n := fraction_bits z in
  let s := Z.testbit b (float_bits z - 1) in
  let e := (b / 2 ^ n) mod (2 * exponent_max z) in
  let f := b mod 2 ^ n in
  if e =? 2 * exponent_max z - 1 then if f =? 0 then S754_infinity s else S754_nan
  else match (if e =? 0 then f else f + 2 ^ n) with
    | Zpos m => S754_finite s m (Z.max 0 (e - 1) + exponent_min z)
    | _ => S754_zero s
    end.
Definition to_bits (z : Size) (nan : Z) (x : spec_float) : Z :=
  let n := fraction_bits z in
  let sign s := Z.b2z s * 2 ^ (float_bits z - 1) in
  match x with
  | S754_nan => nan
  | S754_zero s => sign s
  | S754_infinity s => sign s + (2 * exponent_max z - 1) * 2 ^ n
  | S754_finite s m e =>
      sign s + if Zpos m <? 2 ^ n then Zpos m else (e - exponent_min z + 1) * 2 ^ n + (Zpos m - 2 ^ n)
  end.

Section operations.
Context `{HostFloat}.

(** [+], [-], [*], [/] and [sqrt] on bit patterns *)
Definition float_op2 (f : Z → Z → spec_float → spec_float → spec_float) (z : Size) (a b : Z) : Z :=
  to_bits z (nan_of a b) (f (precision z) (exponent_max z) (from_bits z a) (from_bits z b)).
Definition float_add := float_op2 SFadd.
Definition float_sub := float_op2 SFsub.
Definition float_mul := float_op2 SFmul.
Definition float_div := float_op2 SFdiv.
Definition float_sqrt (z : Size) (a : Z) : Z :=
  to_bits z (nan_of a a) (SFsqrt (precision z) (exponent_max z) (from_bits z a)).

(** Negation and [abs] only change the sign. *)
Definition float_neg (z : Size) (a : Z) : Z := Z.lxor a (2 ^ (float_bits z - 1)).
Definition float_abs (z : Size) (a : Z) : Z := Z.land a (2 ^ (float_bits z - 1) - 1).

(** Comparisons, false when one of the operands is a NaN. *)
Definition float_eqb (z : Size) (a b : Z) : bool := SFeqb (from_bits z a) (from_bits z b).
Definition float_ltb (z : Size) (a b : Z) : bool := SFltb (from_bits z a) (from_bits z b).
Definition float_leb (z : Size) (a b : Z) : bool := SFleb (from_bits z a) (from_bits z b).
Definition is_nan (z : Size) (a : Z) : bool := match from_bits z a with S754_nan => true | _ => false end.

(** [min] and [max]: of a number and a NaN, the number. *)
Definition float_pick (before : Z → Z → bool) (z : Size) (a b : Z) : Z :=
  if is_nan z a then b
  else if is_nan z b then a
  else if before a b then a
  else if before b a then b
  else if prefer_first a b then a else b.
Definition float_min (z : Size) : Z → Z → Z := float_pick (float_ltb z) z.
Definition float_max (z : Size) : Z → Z → Z := float_pick (λ a b, float_ltb z b a) z.

(** [as f32] and [as f64], of an integer and of a float *)
Definition float_of_int (z : Size) (x : Z) : Z :=
  to_bits z 0 (binary_normalize (precision z) (exponent_max z) x 0 false).
Definition float_cast (from to : Size) (a : Z) : Z :=
  to_bits to (nan_of a a) match from_bits from a with
    | S754_finite s m e => binary_normalize (precision to) (exponent_max to) (if s then Zneg m else Zpos m) e s
    | x => x
    end.

(** [as i32] and the like: rounded towards zero and kept between the bounds; before
    Rust 1.45 a number out of range was undefined. *)
Definition truncate_to (lo hi : Z) (x : spec_float) : Z :=
  match x with
  | S754_nan => 0
  | S754_zero _ => 0
  | S754_infinity s => if s then lo else hi
  | S754_finite s m e =>
      let n := if 0 <=? e then Zpos m * 2 ^ e else Zpos m / 2 ^ (- e) in
      Z.max lo (Z.min hi (if s then - n else n))
  end.
Definition int_of_float (signed : bool) (bits : Z) (z : Size) (a : Z) : Z :=
  if signed then truncate_to (- 2 ^ (bits - 1)) (2 ^ (bits - 1) - 1) (from_bits z a)
  else truncate_to 0 (2 ^ bits - 1) (from_bits z a).
End operations.
