(* ===== verification/X64.v ===== *)
(** * The processor as Lightbeam uses it

    The instructions of x86-64 that [lightbeam/src/backend.rs] emits (through dynasm),
    with their meaning on registers, flags and memory.  Nothing here is from the
    sources: it is what the emitted code is judged by.  Arithmetic of floats is left
    open (the class [Sse]). *)

From S2P Require Import Prelude Store.
Local Open Scope Z_scope.

(** ** Instructions *)

Inductive width := W8 | W16 | W32 | W64.
Definition bits (w : width) : Z := match w with W8 => 8 | W16 => 16 | W32 => 32 | W64 => 64 end.
Definition wbytes (w : width) : nat := match w with W8 => 1 | W16 => 2 | W32 => 4 | W64 => 8 end.

(** [[base + index + disp]], and [[=>label]]. *)
Inductive address := Addr (base : Z) (index : option Z) (disp : Z) | AtLabel (l : Z).
Inductive operand := OReg (r : Z) | OMem (a : address).
Inductive source := Src (o : operand) | Imm (i : Z).
Inductive xoperand := XReg (x : Z) | XMem (a : address).

(** Suffixes of [jcc], [setcc] and [cmovcc]. *)
Inductive cond := cE | cNE | cA | cAE | cB | cBE | cG | cGE | cL | cLE | cS | cP | cNP.

Inductive alu := ADD | SUB | AND | OR | XOR | CMP | TEST.
Inductive shift_op := SHL | SHR | SAR | ROL | ROR.
Inductive bit_op := POPCNT | LZCNT | TZCNT | BSR | BSF.
Inductive fsize := SS | SD.
Inductive float_op :=
| FADD (s : fsize) | FSUB (s : fsize) | FMUL (s : fsize) | FDIV (s : fsize) | FMIN (s : fsize)
| FMAX (s : fsize) | FSQRT (s : fsize) | FCMPEQ (s : fsize) | FCMPNEQ (s : fsize)
| CVTSS2SD | CVTSD2SS | ANDP | ORP | XORP.

Inductive instr :=
| MOV (w : width) (dst : operand) (src : source)
| MOVX (signed : bool) (wd : width) (dst : Z) (ws : width) (src : operand)
| LEA (dst : Z) (a : address)
| LEA5 (dst src : Z)
| ALU (op : alu) (w : width) (dst : operand) (src : source)
| IMUL (w : width) (dst : Z) (src : operand)
| IMUL3 (w : width) (dst : Z) (src : operand) (i : Z)
| SHIFT (op : shift_op) (w : width) (dst : Z) (count : option Z)
| BITS (op : bit_op) (w : width) (dst : Z) (src : operand)
| DIV (signed : bool) (w : width) (src : operand)
| CDQ | CQO
| SETCC (c : cond) (dst : operand)
| CMOV (c : cond) (w : width) (dst : Z) (src : operand)
| PUSH (src : operand)
| POP (dst : Z)
| MOVRX (w : width) (dst src : Z)
| MOVXR (w : width) (dst src : Z)
| MOVXM (w : width) (dst : Z) (a : address)
| MOVMX (w : width) (a : address) (src : Z)
| MOVAPD (dst src : Z)
| FLOAT (op : float_op) (dst : Z) (src : xoperand)
| COMIS (s : fsize) (dst : Z) (src : xoperand)
| CVTT2SI (s : fsize) (w : width) (dst src : Z)
| CVTSI2 (s : fsize) (dst : Z) (w : width) (src : operand)
| JMP (l : Z)
| JCC (c : cond) (l : Z)
| JMPR (r : Z)
| CALLL (l : Z)
| CALL (src : operand)
| RET
| UD2.

(** What an assembler gets: instructions and labels. *)
Inductive item := Ins (i : instr) | Lab (l : Z).

(** ** The machine *)

(** A flag that an instruction leaves undefined is [None]. *)
Record flags := mkFlags { CF : option bool; ZF : option bool; SF : option bool; OF : option bool; PF : option bool }.
Definition no_flags : flags := mkFlags None None None None None.

Record machine := mkMachine {
  gpr : Z → Z;
  xmm : Z → Z;
  fl : flags;
  mm : mem;
}.

Definition RSP_ : Z := 4.

Class Sse := {
  sse_op : float_op → Z → Z → Z;
  sse_compare : fsize → Z → Z → flags;
  sse_to_int : fsize → width → Z → Z;
  sse_of_int : fsize → width → Z → Z → Z;
}.

Definition with_gpr (m : machine) (r v : Z) : machine :=
  mkMachine (λ x, if x =? r then v else gpr m x) (xmm m) (fl m) (mm m).
Definition with_xmm (m : machine) (r v : Z) : machine :=
  mkMachine (gpr m) (λ x, if x =? r then v else xmm m x) (fl m) (mm m).
Definition with_fl (m : machine) (f : flags) : machine := mkMachine (gpr m) (xmm m) f (mm m).
Definition with_mm (m : machine) (mem : mem) : machine := mkMachine (gpr m) (xmm m) (fl m) mem.

(** Writing 32 bits clears the upper half, writing fewer keeps the rest. *)
Definition read_gpr (m : machine) (w : width) (r : Z) : Z := gpr m r mod 2 ^ bits w.
Definition write_gpr (m : machine) (w : width) (r v : Z) : machine :=
  with_gpr m r match w with
    | W64 => v mod 2 ^ 64
    | W32 => v mod 2 ^ 32
    | _ => gpr m r - gpr m r mod 2 ^ bits w + v mod 2 ^ bits w
    end.

Definition read_mm (m : machine) (w : width) (a : Z) : Z := load_le (mm m) a (wbytes w) mod 2 ^ bits w.
Definition write_mm (m : machine) (w : width) (a v : Z) : machine :=
  with_mm m (store_le (mm m) a (wbytes w) v).

Section exec.
Context `{Sse} (label_addr : Z → Z).

Definition ea (m : machine) (a : address) : Z :=
  match a with
  | Addr base index disp =>
      (gpr m base + match index with Some i => gpr m i | None => 0 end + disp) mod 2 ^ 64
  | AtLabel l => label_addr l
  end.
Definition read_op (m : machine) (w : width) (o : operand) : Z :=
  match o with OReg r => read_gpr m w r | OMem a => read_mm m w (ea m a) end.
Definition read_src (m : machine) (w : width) (s : source) : Z :=
  match s with Src o => read_op m w o | Imm i => i mod 2 ^ bits w end.
Definition write_op (m : machine) (w : width) (o : operand) (v : Z) : machine :=
  match o with OReg r => write_gpr m w r v | OMem a => write_mm m w (ea m a) v end.
(** A register as a whole, or as many bytes of memory as the operation uses. *)
Definition read_x (m : machine) (w : width) (o : xoperand) : Z :=
  match o with XReg x => xmm m x | XMem a => read_mm m w (ea m a) end.

(** *** Integer operations *)

Definition sign (w : width) (x : Z) : bool := 2 ^ (bits w - 1) <=? x.
Definition logic_flags (w : width) (r : Z) : flags :=
  mkFlags (Some false) (Some (r =? 0)) (Some (sign w r)) (Some false) None.
Definition add_flags (w : width) (a b : Z) : flags :=
  let r := (a + b) mod 2 ^ bits w in
  mkFlags (Some (2 ^ bits w <=? a + b)) (Some (r =? 0)) (Some (sign w r))
    (Some (Bool.eqb (sign w a) (sign w b) && negb (Bool.eqb (sign w r) (sign w a)))) None.
Definition sub_flags (w : width) (a b : Z) : flags :=
  let r := (a - b) mod 2 ^ bits w in
  mkFlags (Some (a <? b)) (Some (r =? 0)) (Some (sign w r))
    (Some (negb (Bool.eqb (sign w a) (sign w b)) && negb (Bool.eqb (sign w r) (sign w a)))) None.

(** The result, none for a comparison, and the flags. *)
Definition alu_result (op : alu) (w : width) (a b : Z) : option Z * flags :=
  match op with
  | ADD => (Some ((a + b) mod 2 ^ bits w), add_flags w a b)
  | SUB => (Some ((a - b) mod 2 ^ bits w), sub_flags w a b)
  | AND => (Some (Z.land a b), logic_flags w (Z.land a b))
  | OR => (Some (Z.lor a b), logic_flags w (Z.lor a b))
  | XOR => (Some (Z.lxor a b), logic_flags w (Z.lxor a b))
  | CMP => (None, sub_flags w a b)
  | TEST => (None, logic_flags w (Z.land a b))
  end.

(** The count is taken modulo the width, which is 32 or 64. *)
Definition shift_result (op : shift_op) (w : width) (a count : Z) : Z :=
  let n := count mod bits w in
  match op with
  | SHL => Z.shiftl a n mod 2 ^ bits w
  | SHR => Z.shiftr a n
  | SAR => Z.shiftr (wrap_s (bits w) a) n mod 2 ^ bits w
  | ROL => Z.lor (Z.shiftl a n mod 2 ^ bits w) (Z.shiftr a (bits w - n))
  | ROR => Z.lor (Z.shiftr a n) (Z.shiftl a (bits w - n) mod 2 ^ bits w)
  end.

Fixpoint count_ones (n : nat) (x : Z) : Z :=
  match n with O => 0 | S n => Z.b2z (Z.odd x) + count_ones n (Z.div2 x) end.
Fixpoint trailing (n : nat) (x : Z) : Z :=
  match n with O => 0 | S n => if Z.odd x then 0 else 1 + trailing n (Z.div2 x) end.

Definition bits_result (op : bit_op) (w : width) (x : Z) : option Z * flags :=
  let zero := mkFlags None (Some (x =? 0)) None None None in
  match op with
  | POPCNT => (Some (count_ones (Z.to_nat (bits w)) x), zero)
  | LZCNT => (Some (if x =? 0 then bits w else bits w - 1 - Z.log2 x), no_flags)
  | TZCNT => (Some (trailing (Z.to_nat (bits w)) x), no_flags)
  | BSR => (if x =? 0 then None else Some (Z.log2 x), zero)
  | BSF => (if x =? 0 then None else Some (trailing (Z.to_nat (bits w)) x), zero)
  end.

Definition holds_cond (f : flags) (c : cond) : option bool :=
  match c with
  | cE => ZF f
  | cNE => z ← ZF f; Some (negb z)
  | cB => CF f
  | cAE => c ← CF f; Some (negb c)
  | cBE => c ← CF f; z ← ZF f; Some (c || z)
  | cA => c ← CF f; z ← ZF f; Some (negb (c || z))
  | cL => s ← SF f; o ← OF f; Some (negb (Bool.eqb s o))
  | cGE => s ← SF f; o ← OF f; Some (Bool.eqb s o)
  | cLE => z ← ZF f; s ← SF f; o ← OF f; Some (z || negb (Bool.eqb s o))
  | cG => z ← ZF f; s ← SF f; o ← OF f; Some (negb (z || negb (Bool.eqb s o)))
  | cS => SF f
  | cP => PF f
  | cNP => p ← PF f; Some (negb p)
  end.

(** [div] and [idiv] of a double word in [rdx] and [rax]; they fault on zero and when
    the quotient does not fit. *)
Definition div_result (signed : bool) (w : width) (hi lo d : Z) : option (Z * Z) :=
  let n := hi * 2 ^ bits w + lo in
  if d =? 0 then None
  else if signed then
    let n := wrap_s (2 * bits w) n in let d := wrap_s (bits w) d in
    let q := Z.quot n d in
    if (- 2 ^ (bits w - 1) <=? q) && (q <? 2 ^ (bits w - 1)) then Some (q, Z.rem n d) else None
  else let q := n / d in if q <? 2 ^ bits w then Some (q, n mod d) else None.

(** *** Steps *)

Inductive outcome :=
| Next (m : machine)
| Goto (l : Z) (m : machine)
| GotoAddr (a : Z) (m : machine)
| CallsLabel (l : Z) (m : machine)
| CallsAddr (a : Z) (m : machine)
| Returned (m : machine)
| Fault.

Definition fsize_width (s : fsize) : width := match s with SS => W32 | SD => W64 end.

(** The width of the source of a float operation in memory; of vector registers only the
    lower half is of interest here. *)
Definition fop_width (op : float_op) : width :=
  match op with
  | FADD s | FSUB s | FMUL s | FDIV s | FMIN s | FMAX s | FSQRT s | FCMPEQ s | FCMPNEQ s => fsize_width s
  | CVTSS2SD => W32
  | CVTSD2SS | ANDP | ORP | XORP => W64
  end.
Definition fop_result (op : float_op) (a b : Z) : Z :=
  match op with
  | ANDP => Z.land a b
  | ORP => Z.lor a b
  | XORP => Z.lxor a b
  | _ => sse_op op a b
  end.

(** [None]: the result depends on something undefined. *)
Definition exec1 (i : instr) (m : machine) : option outcome :=
  match i with
  | MOV w dst src => Some (Next (write_op m w dst (read_src m w src)))
  | MOVX signed wd dst ws src =>
      let v := read_op m ws src in
      Some (Next (write_gpr m wd dst (if signed then wrap_s (bits ws) v else v)))
  | LEA dst a => Some (Next (write_gpr m W64 dst (ea m a)))
  | LEA5 dst src => Some (Next (write_gpr m W64 dst (gpr m src * 5)))
  | ALU op w dst src =>
      let '(r, f) := alu_result op w (read_op m w dst) (read_src m w src) in
      Some (Next (with_fl match r with Some v => write_op m w dst v | None => m end f))
  | IMUL w dst src =>
      Some (Next (with_fl (write_gpr m w dst (read_gpr m w dst * read_op m w src)) no_flags))
  | IMUL3 w dst src i =>
      Some (Next (with_fl (write_gpr m w dst (read_op m w src * i)) no_flags))
  | SHIFT op w dst count =>
      let n := match count with Some i => i mod 2 ^ 8 | None => read_gpr m W8 1 end in
      Some (Next (with_fl (write_gpr m w dst (shift_result op w (read_gpr m w dst) n)) no_flags))
  | BITS op w dst src =>
      let '(r, f) := bits_result op w (read_op m w src) in
      Some (Next (with_fl match r with Some v => write_gpr m w dst v | None => m end f))
  | DIV signed w src =>
      match div_result signed w (read_gpr m w 2) (read_gpr m w 0) (read_op m w src) with
      | Some (q, r) => Some (Next (with_fl (write_gpr (write_gpr m w 0 q) w 2 r) no_flags))
      | None => Some Fault
      end
  | CDQ => Some (Next (write_gpr m W32 2 (Z.shiftr (wrap_s 32 (gpr m 0)) 32)))
  | CQO => Some (Next (write_gpr m W64 2 (Z.shiftr (wrap_s 64 (gpr m 0)) 64)))
  | SETCC c dst => b ← holds_cond (fl m) c; Some (Next (write_op m W8 dst (Z.b2z b)))
  | CMOV c w dst src =>
      b ← holds_cond (fl m) c;
      Some (Next (write_gpr m w dst (if (b : bool) then read_op m w src else read_gpr m w dst)))
  | PUSH src =>
      let v := read_op m W64 src in
      let m := with_gpr m RSP_ ((gpr m RSP_ - 8) mod 2 ^ 64) in
      Some (Next (write_mm m W64 (gpr m RSP_) v))
  | POP dst =>
      let v := read_mm m W64 (gpr m RSP_) in
      let m := with_gpr m RSP_ ((gpr m RSP_ + 8) mod 2 ^ 64) in
      Some (Next (write_gpr m W64 dst v))
  | MOVRX w dst src => Some (Next (write_gpr m w dst (xmm m src)))
  | MOVXR w dst src => Some (Next (with_xmm m dst (read_gpr m w src)))
  | MOVXM w dst a => Some (Next (with_xmm m dst (read_mm m w (ea m a))))
  | MOVMX w a src => Some (Next (write_mm m w (ea m a) (xmm m src)))
  | MOVAPD dst src => Some (Next (with_xmm m dst (xmm m src)))
  | FLOAT op dst src => Some (Next (with_xmm m dst (fop_result op (xmm m dst) (read_x m (fop_width op) src))))
  | COMIS s dst src => Some (Next (with_fl m (sse_compare s (xmm m dst) (read_x m (fsize_width s) src))))
  | CVTT2SI s w dst src => Some (Next (write_gpr m w dst (sse_to_int s w (xmm m src))))
  | CVTSI2 s dst w src => Some (Next (with_xmm m dst (sse_of_int s w (xmm m dst) (read_op m w src))))
  | JMP l => Some (Goto l m)
  | JCC c l => b ← holds_cond (fl m) c; Some (if (b : bool) then Goto l m else Next m)
  | JMPR r => Some (GotoAddr (gpr m r) m)
  | CALLL l => Some (CallsLabel l m)
  | CALL src => Some (CallsAddr (read_op m W64 src) m)
  | RET => Some (Returned m)
  | UD2 => Some Fault
  end.

(** A sequence from its start, or from a label in it ([skip]).  A jump to a label
    further on continues there; other transfers of control end the run. *)
Fixpoint exec (skip : option Z) (code : list item) (m : machine) : option outcome :=
  match code with
  | [] => Some match skip with None => Next m | Some l => Goto l m end
  | Lab l :: code =>
      exec match skip with Some k => if k =? l then None else Some k | None => None end code m
  | Ins i :: code =>
      match skip with
      | Some l => exec (Some l) code m
      | None =>
          match exec1 i m with
          | Some (Next m) => exec None code m
          | Some (Goto l m) => exec (Some l) code m
          | o => o
          end
      end
  end.

Lemma exec_app k code code' m m' :
  exec k code m = Some (Next m') → exec k (code ++ code') m = exec None code' m'.
Proof.
  revert k m; induction code as [|[i|l] code IH]; intros k m E; cbn [exec app] in *.
  - destruct k; [done|]. by injection E as ->.
  - destruct k as [l|]; [by apply IH|].
    destruct (exec1 i m) as [[]|]; try done; by apply IH.
  - by apply IH.
Qed.
End exec.
