(* ===== verification/LightbeamRegs.v ===== *)
(** * Lightbeam: registers and locations

    Models the start of [lightbeam/src/backend.rs]: the registers with their counts of
    uses, where values are, condition codes, and the locations of arguments and
    results. *)

From S2P Require Import Prelude Microwasm X64.
Import V(Value).
Local Open Scope Z_scope.

(** ** Registers *)

Inductive GPR := Rq (r : Z) | Rx (r : Z).
#[export] Instance GPR_eq_dec : EqDecision GPR.
Proof. solve_decision. Defined.

Inductive GPRType := TRq | TRx.
#[export] Instance GPRType_eq_dec : EqDecision GPRType.
Proof. solve_decision. Defined.

(** [From<SignlessType> for GPRType] *)
Definition GPRType_from (t : SignlessType) : GPRType := match t with TInt _ => TRq | TFloat _ => TRx end.

Definition gpr_type (g : GPR) : GPRType := match g with Rq _ => TRq | Rx _ => TRx end.
Definition rq (g : GPR) : option Z := match g with Rq r => Some r | Rx _ => None end.
Definition rx (g : GPR) : option Z := match g with Rx r => Some r | Rq _ => None end.

Module registers.
Definition RAX := Rq 0.
Definition RCX := Rq 1.
Definition RDX := Rq 2.
Definition RBX := Rq 3.
Definition RSP := Rq 4.
Definition RBP := Rq 5.
Definition RSI := Rq 6.
Definition RDI := Rq 7.
Definition R8 := Rq 8.
Definition R9 := Rq 9.
Definition R10 := Rq 10.
Definition R11 := Rq 11.
Definition R12 := Rq 12.
Definition R13 := Rq 13.
Definition R14 := Rq 14.
Definition R15 := Rq 15.
Definition NUM_GPRS : Z := 16.
End registers.
Import registers.

Definition INTEGER_ARGS_IN_GPRS : list GPR := [RSI; RDX; RCX; R8; R9].
Definition INTEGER_RETURN_GPRS : list GPR := [RAX; RDX].
Definition FLOAT_ARGS_IN_GPRS : list GPR := map Rx [0; 1; 2; 3; 4; 5; 6; 7].
Definition FLOAT_RETURN_GPRS : list GPR := map Rx [0; 1].
Definition SCRATCH_REGS : list GPR :=
  [RSI; RDX; RCX; R8; R9; RAX; R10; R11] ++
  map Rx [0; 1; 2; 3; 4; 5; 6; 7; 8; 9; 10; 11; 12; 13; 14; 15].
Definition VMCTX : Z := 7.
Definition WORD_SIZE : Z := 8.

(** ** [GPRs]: a bit for each free register *)

(** [u16::trailing_zeros] *)
Definition trailing_zeros (bits : Z) : Z :=
  match list_find (λ i, Z.testbit bits i = true) (seqZ 0 16) with Some (_, i) => i | None => 16 end.

Definition GPRs_new : Z := 0.
Definition GPRs_mark_used (self : Z) (gpr : Z) : Z := Z.land self (Z.lnot (Z.shiftl 1 gpr)).
Definition GPRs_is_free (self : Z) (gpr : Z) : bool := negb (Z.land self (Z.shiftl 1 gpr) =? 0).
Definition GPRs_take (self : Z) : Z * option Z :=
  let lz := trailing_zeros self in
  if lz <? 16 then (GPRs_mark_used self lz, Some lz) else (self, None).
(** With its [debug_assert!]. *)
Definition GPRs_release (self : Z) (gpr : Z) : res Z :=
  _ ← rassert (negb (GPRs_is_free self gpr)); Ret (Z.lor self (Z.shiftl 1 gpr)).

(** ** [Registers]: the free ones and, for each, its number of uses *)

Record Registers := mkRegisters {
  scratch_64 : Z * list Z;
  scratch_128 : Z * list Z;
}.
#[export] Instance Registers_eq_dec : EqDecision Registers.
Proof. solve_decision. Defined.

(** [scratch_counts] and, for the updates, [scratch_counts_mut]. *)
Definition scratch_counts (self : Registers) (g : GPR) : Z * (Z * list Z) :=
  match g with Rq r => (r, scratch_64 self) | Rx r => (r, scratch_128 self) end.
Definition set_counts (self : Registers) (t : GPRType) (c : Z * list Z) : Registers :=
  match t with TRq => mkRegisters c (scratch_128 self) | TRx => mkRegisters (scratch_64 self) c end.

Definition Registers_release (self : Registers) (g : GPR) : res Registers :=
  let '(r, (free, counts)) := scratch_counts self g in
  c ← zindex counts r;
  c ← unwrap (checked_sub 8 c 1);
  counts ← zset counts r c;
  free ← (if c =? 0 then GPRs_release free r else Ret free);
  Ret (set_counts self (gpr_type g) (free, counts)).

Definition Registers_new : res Registers :=
  let used := replicate 16 1 in
  foldM Registers_release (mkRegisters (GPRs_new, used) (GPRs_new, used)) SCRATCH_REGS.

Definition Registers_mark_used (self : Registers) (g : GPR) : res Registers :=
  let '(r, (free, counts)) := scratch_counts self g in
  c ← zindex counts r; c ← op_add 8 c 1; counts ← zset counts r c;
  Ret (set_counts self (gpr_type g) (GPRs_mark_used free r, counts)).

Definition num_usages (self : Registers) (g : GPR) : res Z :=
  let '(r, (_, counts)) := scratch_counts self g in zindex counts r.

Definition Registers_take (self : Registers) (t : GPRType) : res (Registers * option GPR) :=
  let '(free, counts) := match t with TRq => scratch_64 self | TRx => scratch_128 self end in
  match GPRs_take free with
  | (_, None) => Ret (self, None)
  | (free, Some out) =>
      c ← zindex counts out; c ← op_add 8 c 1; counts ← zset counts out c;
      Ret (set_counts self t (free, counts), Some match t with TRq => Rq out | TRx => Rx out end)
  end.

Definition Registers_is_free (self : Registers) (g : GPR) : bool :=
  let '(r, (free, _)) := scratch_counts self g in GPRs_is_free free r.

(** ** Locations *)

Inductive CCLoc := CReg (g : GPR) | CStack (o : Z).
#[export] Instance CCLoc_eq_dec : EqDecision CCLoc.
Proof. solve_decision. Defined.

Inductive CondCode :=
| CF0 | CF1 | ZF0 | ZF1 | CF0AndZF0 | CF1OrZF1 | ZF0AndSFEqOF | ZF1OrSFNeOF | SFEqOF | SFNeOF.
#[export] Instance CondCode_eq_dec : EqDecision CondCode.
Proof. solve_decision. Defined.

Module cc.
Definition EQUAL := ZF0.
Definition NOT_EQUAL := ZF1.
Definition GE_U := CF0.
Definition LT_U := CF1.
Definition GT_U := CF0AndZF0.
Definition LE_U := CF1OrZF1.
Definition GE_S := SFEqOF.
Definition LT_S := SFNeOF.
Definition GT_S := ZF0AndSFEqOF.
Definition LE_S := ZF1OrSFNeOF.
End cc.

(** [!cond] *)
Definition CondCode_not (c : CondCode) : CondCode :=
  match c with
  | CF0 => CF1 | CF1 => CF0 | ZF0 => ZF1 | ZF1 => ZF0
  | CF0AndZF0 => CF1OrZF1 | CF1OrZF1 => CF0AndZF0
  | ZF0AndSFEqOF => ZF1OrSFNeOF | ZF1OrSFNeOF => ZF0AndSFEqOF
  | SFEqOF => SFNeOF | SFNeOF => SFEqOF
  end.

#[export] Instance Value_eq_dec : EqDecision Value.
Proof. solve_decision. Defined.

(** [Stack]: the offset, in words, from the stack pointer as it was when the function
    was entered. *)
Inductive ValueLocation :=
| Reg (g : GPR)
| Stack (o : Z)
| Immediate (v : Value)
| Cond (c : CondCode).
#[export] Instance ValueLocation_eq_dec : EqDecision ValueLocation.
Proof. solve_decision. Defined.

Definition CCLoc_try_from (v : ValueLocation) : option CCLoc :=
  match v with Reg g => Some (CReg g) | Stack o => Some (CStack o) | _ => None end.
Definition ValueLocation_from (l : CCLoc) : ValueLocation :=
  match l with CReg g => Reg g | CStack o => Stack o end.

Definition loc_stack (v : ValueLocation) : option Z := match v with Stack o => Some o | _ => None end.
Definition loc_reg (v : ValueLocation) : option GPR := match v with Reg g => Some g | _ => None end.
Definition immediate (v : ValueLocation) : option Value := match v with Immediate i => Some i | _ => None end.
Definition imm_i32 (v : ValueLocation) : option Z := immediate v ≫= as_i32.
Definition imm_i64 (v : ValueLocation) : option Z := immediate v ≫= as_i64.
Definition imm_f32 (v : ValueLocation) : option Z := immediate v ≫= as_f32.
Definition imm_f64 (v : ValueLocation) : option Z := immediate v ≫= as_f64.

(** ** Locations of arguments and results *)

(** The iterators over the registers, and the index of the next stack slot. *)
Fixpoint arg_locs_from (ints floats : list GPR) (stack_idx : Z) (types : list SignlessType)
    : res (list CCLoc) :=
  match types with
  | [] => Ret []
  | TInt _ :: types =>
      match ints with
      | r :: ints => out ← arg_locs_from ints floats stack_idx types; Ret (CReg r :: out)
      | [] => out ← arg_locs_from [] floats (stack_idx + 1) types; Ret (CStack stack_idx :: out)
      end
  | TFloat _ :: types =>
      match floats with
      | r :: floats => out ← arg_locs_from ints floats stack_idx types; Ret (CReg r :: out)
      | [] => Panic
      end
  end.
Definition arg_locs (types : list SignlessType) : res (list CCLoc) :=
  arg_locs_from INTEGER_ARGS_IN_GPRS FLOAT_ARGS_IN_GPRS 0 types.

Fixpoint ret_locs_from (ints floats : list GPR) (types : list SignlessType) : res (list CCLoc) :=
  match types with
  | [] => Ret []
  | TInt _ :: types =>
      match ints with
      | r :: ints => out ← ret_locs_from ints floats types; Ret (CReg r :: out)
      | [] => Panic
      end
  | TFloat _ :: types =>
      match floats with
      | r :: floats => out ← ret_locs_from ints floats types; Ret (CReg r :: out)
      | [] => Panic
      end
  end.
Definition ret_locs (types : list SignlessType) : res (list CCLoc) :=
  ret_locs_from INTEGER_RETURN_GPRS FLOAT_RETURN_GPRS types.

(** ** Calling conventions of blocks *)

Record BlockCallingConvention := mkBlockCC {
  cc_stack_depth : Z;
  arguments : list CCLoc;
}.
#[export] Instance BlockCallingConvention_eq_dec : EqDecision BlockCallingConvention.
Proof. solve_decision. Defined.

(** The return address is on the stack. *)
Definition function_start (args : list CCLoc) : BlockCallingConvention := mkBlockCC 1 args.

Record VirtualCallingConvention := mkVirtualCC {
  vcc_stack : list ValueLocation;
  vcc_depth : Z;
}.
#[export] Instance VirtualCallingConvention_eq_dec : EqDecision VirtualCallingConvention.
Proof. solve_decision. Defined.
