(* ===== verification/LightbeamOwns.v ===== *)
(** * Lightbeam: who uses the registers

    The counts of uses in [Registers] are those of a list of owners; what the operations
    on registers do to the list. *)

From S2P Require Import Prelude LightbeamRegs.
Import registers.
Local Open Scope Z_scope.

(** ** Registers and their owners *)

Definition valid (g : GPR) : Prop := match g with Rq r | Rx r => 0 ≤ r < 16 end.
Definition base (g : GPR) : Z := if decide (g ∈ SCRATCH_REGS) then 0 else 1.
Definition uses (l : list GPR) (g : GPR) : Z := zlen (filter (g =.) l).

Lemma uses_cons g h l : uses (h :: l) g = uses l g + (if decide (g = h) then 1 else 0).
Proof. unfold uses. rewrite filter_cons. case_decide; [rewrite zlen_cons|]; lia. Qed.
Lemma uses_app g l k : uses (l ++ k) g = uses l g + uses k g.
Proof. unfold uses. by rewrite filter_app, zlen_app. Qed.
Lemma uses_nonneg g l : 0 ≤ uses l g.
Proof. apply zlen_nonneg. Qed.
Lemma uses_zero g l : uses l g = 0 ↔ g ∉ l.
Proof.
  induction l as [|h l IH]; [set_solver|]. rewrite uses_cons, not_elem_of_cons.
  pose proof (uses_nonneg g l). case_decide; naive_solver lia.
Qed.
Lemma uses_le g l : uses l g ≤ zlen l.
Proof. induction l as [|h l IH]; [done|]. rewrite uses_cons, zlen_cons. case_decide; lia. Qed.
#[export] Instance uses_perm : Proper ((≡ₚ) ==> (=) ==> (=)) uses.
Proof. intros l l' E g ? <-. unfold uses, zlen. by rewrite E. Qed.

Lemma scratch_valid g : g ∈ SCRATCH_REGS → valid g.
Proof.
  intros Hg. assert (Forall valid SCRATCH_REGS) as HF; [|by rewrite Forall_forall in HF; apply HF].
  repeat constructor; cbn; lia.
Qed.

(** ** The bit sets *)

Lemma testbit_one r n : 0 ≤ r → Z.testbit (Z.shiftl 1 r) n = (r =? n).
Proof. intros Hr. rewrite Z.shiftl_1_l. by apply Z.pow2_bits_eqb. Qed.

Lemma is_free_testbit free r : 0 ≤ r → GPRs_is_free free r = Z.testbit free r.
Proof.
  intros Hr. unfold GPRs_is_free. destruct (Z.testbit free r) eqn:E.
  - apply negb_true_iff, Z.eqb_neq. intros H0. apply (f_equal (λ x, Z.testbit x r)) in H0.
    by rewrite Z.land_spec, testbit_one, Z.eqb_refl, E, Z.bits_0 in H0.
  - apply negb_false_iff, Z.eqb_eq, Z.bits_inj'. intros n Hn.
    rewrite Z.land_spec, testbit_one, Z.bits_0 by done.
    destruct (Z.eqb_spec r n) as [<-|]; [by rewrite E|apply andb_false_r].
Qed.
Lemma mark_used_testbit free r n :
  0 ≤ r → 0 ≤ n → Z.testbit (GPRs_mark_used free r) n = Z.testbit free n && negb (r =? n).
Proof. intros Hr Hn. unfold GPRs_mark_used. by rewrite Z.land_spec, Z.lnot_spec, testbit_one. Qed.
Lemma lor_testbit free r n :
  0 ≤ r → Z.testbit (Z.lor free (Z.shiftl 1 r)) n = Z.testbit free n || (r =? n).
Proof. intros Hr. by rewrite Z.lor_spec, testbit_one. Qed.

Lemma mark_used_high free r n : 0 ≤ r < 16 → 16 ≤ n → Z.testbit (GPRs_mark_used free r) n = Z.testbit free n.
Proof. intros Hr Hn. rewrite mark_used_testbit, (proj2 (Z.eqb_neq _ _)) by lia. apply andb_true_r. Qed.

Lemma trailing_zeros_spec free :
  let n := trailing_zeros free in
  (0 ≤ n < 16 ∧ Z.testbit free n = true) ∨ (n = 16 ∧ ∀ i, 0 ≤ i < 16 → Z.testbit free i = false).
Proof.
  cbn zeta. unfold trailing_zeros. destruct (list_find _ _) as [[k i]|] eqn:E.
  - left. apply list_find_Some in E as (Hk & Ht & _). apply list_elem_of_lookup_2, elem_of_seqZ in Hk.
    split; [lia|done].
  - right. split; [done|]. intros i Hi. apply list_find_None in E. rewrite Forall_forall in E.
    apply not_true_is_false, E, elem_of_seqZ. lia.
Qed.

(** ** Ownership

    A list of owned registers describes the counts: each register is used as often as it
    is in the list (and once more when it is not one of the scratch registers). *)
Definition class (R : Registers) (t : GPRType) : Z * list Z :=
  match t with TRq => scratch_64 R | TRx => scratch_128 R end.
Definition mk (t : GPRType) (r : Z) : GPR := match t with TRq => Rq r | TRx => Rx r end.
Definition num (g : GPR) : Z := match g with Rq r | Rx r => r end.

Lemma mk_num g : mk (gpr_type g) (num g) = g.
Proof. by destruct g. Qed.
Lemma scratch_counts_class R g : scratch_counts R g = (num g, class R (gpr_type g)).
Proof. by destruct g. Qed.
Lemma class_set R t c t' : class (set_counts R t c) t' = if decide (t' = t) then c else class R t'.
Proof. by destruct t, t'. Qed.

Record owns (R : Registers) (l : list GPR) : Prop := {
  owns_count t r : 0 ≤ r < 16 → zget (class R t).2 r = Some (base (mk t r) + uses l (mk t r));
  owns_free t r : 0 ≤ r < 16 → Z.testbit (class R t).1 r = (base (mk t r) + uses l (mk t r) =? 0);
  owns_scratch g : g ∈ l → g ∈ SCRATCH_REGS;
  owns_len t : zlen (class R t).2 = 16;
  owns_high t n : 16 ≤ n → Z.testbit (class R t).1 n = false;
}.

#[export] Instance owns_perm R : Proper ((≡ₚ) ==> iff) (owns R).
Proof.
  intros l l' E. split; intros [H1 H2 H3 H4 H5].
  - split; intros; rewrite <-?E; auto. apply H3. by rewrite E.
  - split; intros; rewrite ?E; auto. apply H3. by rewrite <-E.
Qed.

Lemma base_nonneg g : 0 ≤ base g ≤ 1.
Proof. unfold base. case_decide; lia. Qed.

(** An update of the count and of the bit of one register. *)
Lemma owns_update R l l' t r free c :
  owns R l → 0 ≤ r < 16 → (∀ g, g ∈ l' → g ∈ SCRATCH_REGS) →
  (∀ g, g ≠ mk t r → uses l' g = uses l g) →
  c = base (mk t r) + uses l' (mk t r) →
  (∀ n, 0 ≤ n < 16 → Z.testbit free n = if decide (n = r) then c =? 0 else Z.testbit (class R t).1 n) →
  (∀ n, 16 ≤ n → Z.testbit free n = Z.testbit (class R t).1 n) →
  owns (set_counts R t (free, <[Z.to_nat r := c]> (class R t).2)) l'.
Proof.
  intros [H1 H2 H3 H4 H5] Hr Hs Hu Hc Hf Hg.
  assert (∀ t' r', (t', r') ≠ (t, r) → mk t' r' ≠ mk t r) as Hne by (intros [] r' Hne E; apply Hne; destruct t; cbn in E; congruence).
  split; [| |done| |].
  1, 2: intros t' r' Hr'; rewrite class_set; case_decide as Ht.
  - subst t'. cbn [snd]. destruct (decide (r' = r)) as [->|Hn].
    + rewrite zget_insert by (pose proof (zget_Some_lt _ _ _ (H1 t r Hr)); lia).
      rewrite decide_True by done. by subst.
    + rewrite zget_insert by (pose proof (zget_Some_lt _ _ _ (H1 t r Hr)); lia).
      rewrite decide_False by congruence. rewrite H1 by done. do 2 f_equal. symmetry. apply Hu, Hne. congruence.
  - rewrite H1 by done. do 2 f_equal. symmetry. apply Hu, Hne. congruence.
  - subst t'. cbn [fst]. rewrite Hf by done. case_decide as Hn; [subst; done|].
    rewrite H2 by done. do 2 f_equal. symmetry. apply Hu, Hne. congruence.
  - rewrite H2 by done. do 2 f_equal. symmetry. apply Hu, Hne. congruence.
  - intros t'. rewrite class_set. case_decide; [|done]. cbn [snd]. by rewrite zlen_insert.
  - intros t' n Hn. rewrite class_set. case_decide; [|by apply H5]. cbn [fst]. rewrite Hg by done. by apply H5.
Qed.

(** What an owned register's entries are. *)
Lemma owns_entry R l g :
  owns R l → valid g → ∃ free counts, class R (gpr_type g) = (free, counts) ∧ 0 ≤ num g < 16 ∧
    zindex counts (num g) = Ret (base g + uses l g) ∧ 0 ≤ num g < zlen counts ∧
    Z.testbit free (num g) = (base g + uses l g =? 0).
Proof.
  intros Ho Hv. assert (0 ≤ num g < 16) as Hr by (by destruct g).
  pose proof (owns_count _ _ Ho (gpr_type g) (num g) Hr) as Hc.
  pose proof (owns_free _ _ Ho (gpr_type g) (num g) Hr) as Hf. rewrite mk_num in Hc, Hf.
  destruct (class R (gpr_type g)) as [free counts]. cbn [fst snd] in *. exists free, counts.
  pose proof (zget_Some_lt _ _ _ Hc). split_and!; try done; try lia. by apply zindex_Ret.
Qed.

Lemma base_scratch g : g ∈ SCRATCH_REGS → base g = 0.
Proof. intros Hg. unfold base. by rewrite decide_True. Qed.

Lemma mark_used_owns R l g :
  owns R l → g ∈ SCRATCH_REGS → uses l g < 200 →
  ∃ R', Registers_mark_used R g = Ret R' ∧ owns R' (g :: l).
Proof.
  intros Ho Hg Hu. destruct (owns_entry _ _ _ Ho (scratch_valid g Hg)) as (free & counts & Ec & Hr & Hc & Hl & Hf).
  pose proof (base_scratch g Hg). pose proof (uses_nonneg g l). unfold Registers_mark_used.
  rewrite scratch_counts_class, Ec, Hc, bind_Ret_l, op_add_fits, bind_Ret_l, zset_Ret, bind_Ret_l by lia.
  eexists. split; [done|].
  pose proof (owns_update R l (g :: l) (gpr_type g) (num g) (GPRs_mark_used free (num g))
    (base g + uses l g + 1)) as HU. rewrite Ec, mk_num in HU. apply HU; try done.
  - intros h [->|Hh]%elem_of_cons; [done|by apply Ho].
  - intros h Hne. rewrite uses_cons, decide_False by done. lia.
  - rewrite uses_cons, decide_True by done. lia.
  - intros n Hn. cbn [fst]. rewrite mark_used_testbit by lia. destruct (decide (n = num g)) as [->|].
    + rewrite Z.eqb_refl, andb_false_r. symmetry. apply Z.eqb_neq. lia.
    + rewrite (proj2 (Z.eqb_neq _ _)) by done. apply andb_true_r.
  - intros n Hn. by apply mark_used_high.
Qed.

Lemma release_owns R l g :
  owns R (g :: l) → uses l g < 200 → ∃ R', Registers_release R g = Ret R' ∧ owns R' l.
Proof.
  intros Ho Hu. assert (g ∈ SCRATCH_REGS) as Hg by (apply (owns_scratch _ _ Ho); by left).
  destruct (owns_entry _ _ _ Ho (scratch_valid g Hg)) as (free & counts & Ec & Hr & Hc & Hl & Hf).
  pose proof (base_scratch g Hg). pose proof (uses_nonneg g l).
  rewrite uses_cons, decide_True in Hc, Hf by done. unfold Registers_release.
  rewrite scratch_counts_class, Ec, Hc, bind_Ret_l.
  rewrite (proj2 (checked_sub_Some 8 _ 1 (uses l g))) by lia. cbn [unwrap].
  rewrite bind_Ret_l, zset_Ret, bind_Ret_l by lia.
  assert (∃ free', (if uses l g =? 0 then GPRs_release free (num g) else Ret free) = Ret free' ∧
    (∀ n, 0 ≤ n < 16 → Z.testbit free' n = if decide (n = num g) then uses l g =? 0 else Z.testbit free n) ∧
    ∀ n, 16 ≤ n → Z.testbit free' n = Z.testbit free n)
    as (free' & -> & Hf' & Hh').
  { destruct (Z.eqb_spec (uses l g) 0) as [E0|E0].
    - unfold GPRs_release. rewrite is_free_testbit, Hf by lia.
      rewrite (proj2 (Z.eqb_neq _ _)) by lia. eexists. split; [done|]. split; intros n Hn;
        rewrite lor_testbit by lia; [|rewrite (proj2 (Z.eqb_neq _ _)) by lia; apply orb_false_r]. destruct (decide (n = num g)) as [->|].
      + rewrite Z.eqb_refl. apply orb_true_r.
      + rewrite (proj2 (Z.eqb_neq (num g) n)) by done. apply orb_false_r.
    - exists free. split; [done|]. split; [|done]. intros n Hn. case_decide as Hn'; [|done]. subst n. rewrite Hf.
      apply Z.eqb_neq. lia. }
  rewrite bind_Ret_l. eexists. split; [done|].
  pose proof (owns_update R (g :: l) l (gpr_type g) (num g) free' (uses l g)) as HU.
  rewrite Ec, mk_num in HU. apply HU; try done.
  - intros h Hh. apply (owns_scratch _ _ Ho). by right.
  - intros h Hne. rewrite uses_cons, decide_False by done. lia.
  - lia.
Qed.

Lemma mk_type t r : gpr_type (mk t r) = t.
Proof. by destruct t. Qed.
Lemma num_mk t r : num (mk t r) = r.
Proof. by destruct t. Qed.

Lemma take_owns R l t :
  owns R l →
  (∃ R' g, Registers_take R t = Ret (R', Some g) ∧ gpr_type g = t ∧ g ∈ SCRATCH_REGS ∧ g ∉ l ∧
    owns R' (g :: l)) ∨
  (Registers_take R t = Ret (R, None) ∧ ∀ g, g ∈ SCRATCH_REGS → gpr_type g = t → g ∈ l).
Proof.
  intros Ho. unfold Registers_take. fold (class R t). destruct (class R t) as [free counts] eqn:Ec.
  unfold GPRs_take. destruct (trailing_zeros_spec free) as [[Hr Hb]|[E Hn]].
  - left. rewrite (proj2 (Z.ltb_lt _ _)) by lia. set (r := trailing_zeros free) in *.
    pose proof (owns_count _ _ Ho t r Hr) as Hc. pose proof (owns_free _ _ Ho t r Hr) as Hf.
    rewrite Ec in Hc, Hf. cbn [fst snd] in *. rewrite Hb in Hf. symmetry in Hf. apply Z.eqb_eq in Hf.
    pose proof (base_nonneg (mk t r)). pose proof (uses_nonneg (mk t r) l).
    pose proof (zget_Some_lt _ _ _ Hc). apply zindex_Ret in Hc.
    rewrite Hc, bind_Ret_l, op_add_fits, bind_Ret_l, zset_Ret, bind_Ret_l by lia.
    assert (mk t r ∈ SCRATCH_REGS) as Hs by (unfold base in *; case_decide; [done|lia]).
    assert (match t with TRq => Rq r | TRx => Rx r end = mk t r) as Emk by (by destruct t). rewrite Emk.
    eexists _, (mk t r). split; [done|]. split; [apply mk_type|]. split; [done|].
    split; [apply uses_zero; lia|].
    pose proof (owns_update R l (mk t r :: l) t r (GPRs_mark_used free r) (base (mk t r) + uses l (mk t r) + 1)) as HU.
    rewrite Ec in HU. apply HU; try done.
    + intros h [->|Hh]%elem_of_cons; [done|by apply Ho].
    + intros h Hne. rewrite uses_cons, decide_False by done. lia.
    + rewrite uses_cons, decide_True by done. lia.
    + intros n Hn. cbn [fst]. rewrite mark_used_testbit by lia. destruct (decide (n = r)) as [->|].
      * rewrite Z.eqb_refl, andb_false_r. symmetry. apply Z.eqb_neq. lia.
      * rewrite (proj2 (Z.eqb_neq _ _)) by done. apply andb_true_r.
    + intros n Hn. apply mark_used_high; lia.
  - right. rewrite E. cbn. split; [done|]. intros g Hg <-.
    destruct (owns_entry _ _ _ Ho (scratch_valid g Hg)) as (free' & counts' & Ec' & Hr & _ & _ & Hf).
    rewrite Ec in Ec'. injection Ec' as <- <-. rewrite Hn in Hf by done. symmetry in Hf.
    apply Z.eqb_neq in Hf. rewrite (base_scratch g Hg) in Hf. destruct (decide (g ∈ l)) as [|Hgl]; [done|].
    apply uses_zero in Hgl. lia.
Qed.

Lemma usages_owns R l g : owns R l → g ∈ SCRATCH_REGS → num_usages R g = Ret (uses l g).
Proof.
  intros Ho Hg. destruct (owns_entry _ _ _ Ho (scratch_valid g Hg)) as (free & counts & Ec & Hr & Hc & _).
  unfold num_usages. rewrite scratch_counts_class, Ec, Hc, (base_scratch g Hg). done.
Qed.
Lemma is_free_owns R l g : owns R l → g ∈ SCRATCH_REGS → Registers_is_free R g = bool_decide (g ∉ l).
Proof.
  intros Ho Hg. destruct (owns_entry _ _ _ Ho (scratch_valid g Hg)) as (free & counts & Ec & Hr & _ & _ & Hf).
  unfold Registers_is_free. rewrite scratch_counts_class, Ec, is_free_testbit, Hf, (base_scratch g Hg) by lia.
  case_bool_decide as Hl; [apply Z.eqb_eq, uses_zero; done|].
  apply Z.eqb_neq. intros E. assert (g ∉ l) by (apply uses_zero; lia). done.
Qed.

(** At the start every scratch register is free. *)
Lemma new_owns : ∃ R, Registers_new = Ret R ∧ owns R [].
Proof.
  eexists. split; [vm_compute; reflexivity|]. split; [| |set_solver|by intros []|].
  1, 2: intros t r Hr; assert (r ∈ seqZ 0 16) as Hin by (apply elem_of_seqZ; lia);
    change (seqZ 0 16) with [0; 1; 2; 3; 4; 5; 6; 7; 8; 9; 10; 11; 12; 13; 14; 15] in Hin;
    rewrite !elem_of_cons in Hin; destruct t;
    repeat (destruct Hin as [->|Hin]; [vm_compute; reflexivity|]); set_solver.
  intros t n Hn. apply Z.bits_above_log2; destruct t; cbn; lia.
Qed.

(** The owners determine the registers. *)
Lemma owns_class R R' l t : owns R l → owns R' l → class R t = class R' t.
Proof.
  intros HR HR'. apply injective_projections.
  - apply Z.bits_inj'. intros n Hn. destruct (decide (n < 16)).
    + rewrite (owns_free _ _ HR), (owns_free _ _ HR') by lia. done.
    + rewrite (owns_high _ _ HR), (owns_high _ _ HR') by lia. done.
  - pose proof (owns_len _ _ HR t). pose proof (owns_len _ _ HR' t). apply list_eq. intros i.
    destruct (decide (i < 16)%nat) as [Hi|Hi]; [|rewrite !lookup_ge_None_2 by (unfold zlen in *; lia); done].
    pose proof (owns_count _ _ HR t (Z.of_nat i) ltac:(lia)) as E. pose proof (owns_count _ _ HR' t (Z.of_nat i) ltac:(lia)) as E'.
    unfold zget in E, E'. rewrite (proj2 (Z.leb_le _ _)), Nat2Z.id in E, E' by lia. congruence.
Qed.
Lemma owns_unique R R' l : owns R l → owns R' l → R = R'.
Proof.
  intros HR HR'. pose proof (owns_class _ _ _ TRq HR HR'). pose proof (owns_class _ _ _ TRx HR HR').
  destruct R, R'. cbn in *. congruence.
Qed.
