(* ===== verification/Lightbeam.v ===== *)
(** * Lightbeam: the state of the code generator

    Models [Context] of [lightbeam/src/backend.rs]: the virtual stack of locations, the
    registers, the instructions emitted so far, and the operations that move values.
    The assembler (dynasm) is the list of what it was given; a method of [Context] is a
    computation in a state monad that may panic. *)

From S2P Require Import Prelude Microwasm X64 LightbeamRegs.
Import V(Value) registers.
Local Open Scope Z_scope.

(** ** State *)

Record BlockState := mkBlockState {
  bs_stack : list ValueLocation;
  bs_depth : Z;
  bs_regs : Registers;
}.

Inductive LabelValue := LV_I32 (v : Z) | LV_I64 (v : Z).
#[export] Instance LabelValue_eq_dec : EqDecision LabelValue.
Proof. solve_decision. Defined.
Definition LabelValue_from (v : Value) : LabelValue :=
  match v with
  | V.I32 v => LV_I32 v
  | V.I64 v => LV_I64 v
  | V.F32 v => LV_I32 (wrap_s 32 v)
  | V.F64 v => LV_I64 (wrap_s 64 v)
  end.

(** What the callback of a label emits: the closures of [trap_label] and [ret_label],
    known by their types, or a constant. *)
Inductive LabelKey := KTrap | KRet | KValue (v : LabelValue).
#[export] Instance LabelKey_eq_dec : EqDecision LabelKey.
Proof. solve_decision. Defined.

(** [ir::ExternalName] *)
Inductive RelocName := UserName (namespace index : Z) | LibCallName (name : string).

(** [relocs]: for each relocation, how many items had been emitted.  [func_starts]: the
    label of each function. *)
Record ctx := mkCtx {
  code : list item;
  labels : list ((Z * LabelKey) * Z);
  next_label : Z;
  relocs : list (Z * RelocName);
  func_starts : list Z;
  block_state : BlockState;
}.

Definition M (A : Type) : Type := ctx → res (ctx * A).
#[export] Instance M_ret : MRet M := λ A a s, Ret (s, a).
#[export] Instance M_bind : MBind M := λ A B f m s, '(s, a) ← m s; f a s.

Definition lift {A} (r : res A) : M A := λ s, a ← r; Ret (s, a).
Definition ret {A} (a : A) : M A := λ s, Ret (s, a).
Definition unwrapM {A} (m : M (option A)) : M A := o ← m; lift (unwrap o).
Definition get_bs : M BlockState := λ s, Ret (s, block_state s).
Definition put_bs (b : BlockState) : M unit := λ s,
  Ret (mkCtx (code s) (labels s) (next_label s) (relocs s) (func_starts s) b, tt).

(** [dynasm!] *)
Definition emit_item (i : item) : M unit := λ s,
  Ret (mkCtx (code s ++ [i]) (labels s) (next_label s) (relocs s) (func_starts s) (block_state s), tt).
Definition emit (i : instr) : M unit := emit_item (Ins i).

Definition put_stack (l : list ValueLocation) : M unit :=
  b ← get_bs; put_bs (mkBlockState l (bs_depth b) (bs_regs b)).
Definition put_depth (d : Z) : M unit :=
  b ← get_bs; put_bs (mkBlockState (bs_stack b) d (bs_regs b)).
Definition put_regs (r : Registers) : M unit :=
  b ← get_bs; put_bs (mkBlockState (bs_stack b) (bs_depth b) r).

Definition release (g : GPR) : M unit :=
  b ← get_bs; r ← lift (Registers_release (bs_regs b) g); put_regs r.
Definition mark_used (g : GPR) : M unit :=
  b ← get_bs; r ← lift (Registers_mark_used (bs_regs b) g); put_regs r.
Definition regs_take (t : GPRType) : M (option GPR) :=
  b ← get_bs; '(r, g) ← lift (Registers_take (bs_regs b) t); _ ← put_regs r; ret g.
Definition usages (g : GPR) : M Z := b ← get_bs; lift (num_usages (bs_regs b) g).
Definition is_free (g : GPR) : M bool := b ← get_bs; ret (Registers_is_free (bs_regs b) g).

(** [StackDepth::reserve] and [StackDepth::free] *)
Definition depth_reserve (slots : Z) : M unit :=
  b ← get_bs; d ← lift (unwrap (checked_add 32 (bs_depth b) slots)); put_depth d.
Definition depth_free (slots : Z) : M unit :=
  b ← get_bs; d ← lift (unwrap (checked_sub 32 (bs_depth b) slots)); put_depth d.

Definition rqM (g : GPR) : M Z := lift (unwrap (rq g)).
Definition rxM (g : GPR) : M Z := lift (unwrap (rx g)).

(** ** Labels *)

Definition create_label : M Z := λ s,
  Ret (mkCtx (code s) (labels s) (next_label s + 1) (relocs s) (func_starts s) (block_state s), next_label s).
Definition define_label (l : Z) : M unit := emit_item (Lab l).

Definition lookup_label (ls : list ((Z * LabelKey) * Z)) (k : Z * LabelKey) : option Z :=
  match list_find (λ e, e.1 = k) ls with Some (_, e) => Some e.2 | None => None end.
Definition aligned_label (align : Z) (key : LabelKey) : M Z := λ s,
  match lookup_label (labels s) (align, key) with
  | Some l => Ret (s, l)
  | None =>
      '(s, l) ← create_label s;
      Ret (mkCtx (code s) (labels s ++ [((align, key), l)]) (next_label s) (relocs s) (func_starts s)
        (block_state s), l)
  end.
Definition trap_label : M Z := aligned_label 1 KTrap.
Definition ret_label : M Z := aligned_label 1 KRet.
Definition target_to_label (t : BrTarget Z) : M Z :=
  match t with Label l => ret l | Return => ret_label end.

(** ** Offsets *)

(** In [i32]. *)
Definition adjusted_offset (offset : Z) : M Z :=
  b ← get_bs;
  x ← lift (i32_checked (wrap_s 32 (bs_depth b) + offset));
  lift (i32_checked (x * WORD_SIZE)).
(** [[rsp + offset]] *)
Definition at_rsp (off : Z) : operand := OMem (Addr RSP_ None off).
Definition slot_at (off : Z) : address := Addr RSP_ None off.

(** ** The instruction for a condition code *)

Definition x_cond (c : CondCode) : cond :=
  match c with
  | ZF0 => cE | ZF1 => cNE | CF0AndZF0 => cA | CF0 => cAE | CF1 => cB | CF1OrZF1 => cBE
  | ZF0AndSFEqOF => cG | SFEqOF => cGE | SFNeOF => cL | ZF1OrSFNeOF => cLE
  end.

Definition immediate_to_reg (reg : GPR) (val : Value) : M unit :=
  match reg with
  | Rq r =>
      let v := as_bytes val in
      if wrap_u 64 v <=? 2 ^ 32 - 1 then emit (MOV W32 (OReg r) (Imm (wrap_s 32 v)))
      else emit (MOV W64 (OReg r) (Imm v))
  | Rx r =>
      label ← aligned_label 16 (KValue (LabelValue_from val));
      emit (MOVXM W64 r (AtLabel label))
  end.

Definition free_value (val : ValueLocation) : M unit :=
  match val with Reg r => release r | _ => ret tt end.

(** The two registers are not the same. *)
Definition copy_reg_reg (in_reg out_reg : GPR) : M unit :=
  match in_reg, out_reg with
  | Rq i, Rq o => emit (MOV W64 (OReg o) (Src (OReg i)))
  | Rx i, Rq o => emit (MOVRX W64 o i)
  | Rq i, Rx o => emit (MOVXR W64 o i)
  | Rx i, Rx o => emit (MOVAPD o i)
  end.
Definition copy_cond_reg (c : CondCode) (r : Z) : M unit :=
  _ ← emit (MOV W64 (OReg r) (Imm 0)); emit (SETCC (x_cond c) (OReg r)).

(** ** Moving values

    [take_reg] may have to spill a register, for which it uses the operations below,
    which use [take_reg] in turn; they are written over its interface. *)
Class TakeReg := take_reg : GPRType → M (option GPR).

Definition is_reg_of (t : GPRType) (l : ValueLocation) : Prop :=
  match l with Reg g => gpr_type g = t | _ => False end.
#[export] Instance is_reg_of_dec t l : Decision (is_reg_of t l).
Proof. destruct l; unfold is_reg_of; apply _. Defined.

Section moving.
Context `{TakeReg}.

Definition copy_value (src : ValueLocation) (dst : CCLoc) : M unit :=
  match src, dst with
  | Cond c, CStack o =>
      offset ← adjusted_offset o;
      _ ← emit (MOV W64 (at_rsp offset) (Imm 0));
      emit (SETCC (x_cond c) (at_rsp offset))
  | Cond c, CReg (Rq r) => copy_cond_reg c r
  | Cond c, CReg (Rx _ as out) =>
      temp ← unwrapM (take_reg TRq);
      r ← rqM temp;
      _ ← copy_cond_reg c r;
      _ ← copy_reg_reg temp out;
      free_value (Reg temp)
  | Stack i, CStack o =>
      in_offset ← adjusted_offset i;
      out_offset ← adjusted_offset o;
      if negb (in_offset =? out_offset) then
        gpr ← take_reg TRq;
        match gpr with
        | Some gpr =>
            r ← rqM gpr;
            _ ← emit (MOV W64 (OReg r) (Src (at_rsp in_offset)));
            _ ← emit (MOV W64 (at_rsp out_offset) (Src (OReg r)));
            release gpr
        | None =>
            _ ← emit (PUSH (OReg 0));
            _ ← emit (MOV W64 (OReg 0) (Src (at_rsp (in_offset + WORD_SIZE))));
            _ ← emit (MOV W64 (at_rsp (out_offset + WORD_SIZE)) (Src (OReg 0)));
            emit (POP 0)
        end
      else ret tt
  | Reg g, CStack o =>
      out_offset ← adjusted_offset o;
      match g with
      | Rq r => emit (MOV W64 (at_rsp out_offset) (Src (OReg r)))
      | Rx x => emit (MOVMX W64 (slot_at out_offset) x)
      end
  | Immediate i, CStack o =>
      let i := as_bytes i in
      out_offset ← adjusted_offset o;
      if wrap_u 64 i <=? 2 ^ 32 - 1 then emit (MOV W32 (at_rsp out_offset) (Imm (wrap_s 32 i)))
      else
        scratch ← take_reg TRq;
        match scratch with
        | Some scratch =>
            r ← rqM scratch;
            _ ← emit (MOV W64 (OReg r) (Imm i));
            _ ← emit (MOV W64 (at_rsp out_offset) (Src (OReg r)));
            release scratch
        | None =>
            _ ← emit (PUSH (OReg 0));
            _ ← emit (MOV W64 (OReg 0) (Imm i));
            _ ← emit (MOV W64 (at_rsp (out_offset + WORD_SIZE)) (Src (OReg 0)));
            emit (POP 0)
        end
  | Stack i, CReg g =>
      in_offset ← adjusted_offset i;
      match g with
      | Rq r => emit (MOV W64 (OReg r) (Src (at_rsp in_offset)))
      | Rx x => emit (MOVXM W64 x (slot_at in_offset))
      end
  | Reg i, CReg o => if decide (i = o) then ret tt else copy_reg_reg i o
  | Immediate i, CReg o => immediate_to_reg o i
  end.

Definition type_matches (ty : option GPRType) (r : GPR) : bool :=
  match ty with Some t => bool_decide (t = gpr_type r) | None => true end.
Definition ty_or_rq (ty : option GPRType) : GPRType := match ty with Some t => t | None => TRq end.

(** The last case of [to_reg] and [to_temp_reg]. *)
Definition copy_to_scratch (ty : option GPRType) (val : ValueLocation) : M (option GPR) :=
  scratch ← take_reg (ty_or_rq ty);
  match scratch with
  | None => ret None
  | Some scratch => _ ← copy_value val (CReg scratch); ret (Some scratch)
  end.

Definition to_reg (ty : option GPRType) (val : ValueLocation) : M (option GPR) :=
  match val with
  | Reg r => if type_matches ty r then _ ← mark_used r; ret (Some r) else copy_to_scratch ty val
  | _ => copy_to_scratch ty val
  end.

Definition to_temp_reg (ty : option GPRType) (val : ValueLocation) : M (option GPR) :=
  match val with
  | Reg r =>
      n ← usages r;
      if (n <=? 1) && type_matches ty r then _ ← mark_used r; ret (Some r)
      else copy_to_scratch ty val
  | _ => to_reg ty val
  end.

(** [into_reg] and [into_temp_reg] replace the value by the register, which they
    return. *)
Definition into_reg (ty : option GPRType) (val : ValueLocation) : M (option GPR) :=
  out ← to_reg ty val;
  match out with None => ret None | Some out => _ ← free_value val; ret (Some out) end.
Definition into_temp_reg (ty : option GPRType) (val : ValueLocation) : M (option GPR) :=
  out ← to_temp_reg ty val;
  match out with None => ret None | Some out => _ ← free_value val; ret (Some out) end.

Definition push_physical (value : ValueLocation) : M ValueLocation :=
  b ← get_bs;
  x ← lift (i32_checked (wrap_s 32 (bs_depth b) + 1));
  out_offset ← lift (i32_checked (- x));
  _ ← match value with
      | Stack o => offset ← adjusted_offset o; emit (PUSH (at_rsp offset))
      | _ =>
          g ← into_reg (Some TRq) value;
          match g with
          | Some g => r ← rqM g; _ ← emit (PUSH (OReg r)); free_value (Reg g)
          | None => _ ← emit (PUSH (OReg 0)); _ ← copy_value value (CStack out_offset); free_value value
          end
      end;
  _ ← depth_reserve 1;
  ret (Stack out_offset).

Definition into_temp_loc (ty : option GPRType) (val : ValueLocation) : M CCLoc :=
  g ← into_temp_reg ty val;
  match g with
  | Some g => ret (CReg g)
  | None => l ← push_physical val; o ← lift (unwrap (loc_stack l)); ret (CStack o)
  end.

(** The loop of [free_reg] over the elements after the first. *)
Fixpoint replace_locs (old_loc new_loc : ValueLocation) (reg : GPR) (l : list ValueLocation)
    : M (list ValueLocation) :=
  match l with
  | [] => ret []
  | e :: l =>
      if decide (e = old_loc) then
        _ ← release reg; l ← replace_locs old_loc new_loc reg l; ret (new_loc :: l)
      else l ← replace_locs old_loc new_loc reg l; ret (e :: l)
  end.

(** [push_physical] may spill other registers, at other positions. *)
Definition free_reg (type_ : GPRType) : M bool :=
  b ← get_bs;
  match list_find (is_reg_of type_) (bs_stack b) with
  | None => ret false
  | Some (pos, old_loc) =>
      new_loc ← push_physical old_loc;
      reg ← lift (unwrap (loc_reg old_loc));
      b ← get_bs;
      rest ← replace_locs old_loc new_loc reg (drop (S pos) (bs_stack b));
      _ ← put_stack (take pos (bs_stack b) ++ new_loc :: rest);
      ret true
  end.

(** The loop of [take_reg]; every turn removes a register from the virtual stack. *)
Fixpoint take_loop (fuel : nat) (r : GPRType) : M (option GPR) :=
  match fuel with
  | O => lift Panic
  | S fuel =>
      gpr ← regs_take r;
      match gpr with
      | Some gpr => ret (Some gpr)
      | None => b ← free_reg r; if (b : bool) then take_loop fuel r else ret None
      end
  end.
End moving.

(** Spilling a vector register takes a general one, spilling that takes none: two
    levels of recursion are enough. *)
Fixpoint take_reg_depth (n : nat) (r : GPRType) : M (option GPR) :=
  match n with
  | O => lift Panic
  | S n => b ← get_bs; @take_loop (take_reg_depth n) (S (length (bs_stack b))) r
  end.
#[export] Instance Context_take_reg : TakeReg := take_reg_depth 2.

(** ** The virtual stack *)

Definition pop : M ValueLocation :=
  b ← get_bs; '(l, v) ← lift (unwrap (vec_pop (bs_stack b))); _ ← put_stack l; ret v.

(** A condition on top is put in a register before something is pushed. *)
Definition push (value : ValueLocation) : M unit :=
  b ← get_bs;
  _ ← match vec_pop (bs_stack b) with
      | Some (l, Cond c) =>
          _ ← put_stack l;
          top ← unwrapM (into_reg (Some TRq) (Cond c));
          b ← get_bs; put_stack (bs_stack b ++ [Reg top])
      | _ => ret tt
      end;
  b ← get_bs; put_stack (bs_stack b ++ [value]).

(** [stack.push] *)
Definition push_raw (value : ValueLocation) : M unit := b ← get_bs; put_stack (bs_stack b ++ [value]).

Fixpoint pops (n : nat) : M (list ValueLocation) :=
  match n with O => ret [] | S n => v ← pop; l ← pops n; ret (v :: l) end.
Fixpoint iterM {A} (f : A → M unit) (l : list A) : M unit :=
  match l with [] => ret tt | x :: l => _ ← f x; iterM f l end.

(** [Context::drop] *)
Definition cg_drop (range : RangeInclusive) : M unit :=
  repush ← pops (Z.to_nat range.1);
  _ ← iterM (λ _, val ← pop; free_value val) (seqZ range.1 (range.2 - range.1 + 1));
  iterM push (rev repush).

Definition pop_into (dst : CCLoc) : M unit :=
  val ← pop; _ ← copy_value val dst; free_value val.

(** [Context::pick] and [Context::swap] *)
Definition pick (depth : Z) : M unit :=
  b ← get_bs;
  n ← lift (op_sub 64 (zlen (bs_stack b)) 1); idx ← lift (op_sub 64 n depth);
  v ← lift (zindex (bs_stack b) idx);
  _ ← match v with Reg r => mark_used r | _ => ret tt end;
  push_raw v.
Definition swap (depth : Z) : M unit :=
  b ← get_bs; l ← lift (ctx_swap (bs_stack b) depth); put_stack l.
Definition const_ (imm : Value) : M unit := push (Immediate imm).
