(* ===== verification/LightbeamOps.v ===== *)
(** * Lightbeam: integer operators

    Models the operators on integers of [lightbeam/src/backend.rs].  A macro of the
    source is a definition with the macro's parameters; its uses are the definitions
    after it. *)

From S2P Require Import Prelude Microwasm X64 LightbeamRegs Lightbeam.
Import V(Value) registers.
Local Open Scope Z_scope.

Definition Rq_ : option GPRType := Some TRq.
Definition Rx_ : option GPRType := Some TRx.
Definition as_reg (ty : option GPRType) (v : ValueLocation) : M GPR := unwrapM (into_reg ty v).
Definition as_temp (ty : option GPRType) (v : ValueLocation) : M GPR := unwrapM (into_temp_reg ty v).
Definition take_gpr (t : GPRType) : M GPR := unwrapM (take_reg t).

(** [TryInto<i32> for i64] and [i8::try_from] *)
Definition try_into_i32 (x : Z) : option Z := if in_i32 x then Some x else None.
Definition try_into_i8 (x : Z) : option Z := if (- 2 ^ 7 <=? x) && (x <? 2 ^ 7) then Some x else None.

(** ** Sizes of integers *)

Definition imm_of (z : Size) (v : ValueLocation) : option Z := match z with _32 => imm_i32 v | _64 => imm_i64 v end.
Definition as_of (z : Size) (v : Value) : option Z := match z with _32 => as_i32 v | _64 => as_i64 v end.
Definition value_of (z : Size) (x : Z) : Value := match z with _32 => V.I32 x | _64 => V.I64 x end.
Definition width_of (z : Size) : width := match z with _32 => W32 | _64 => W64 end.
Definition size_bits (z : Size) : Z := match z with _32 => 32 | _64 => 64 end.

(** ** [binop!] *)

(** The parameters of the macro: the class of registers, the constants, and the
    instruction with a register, a stack slot or an immediate as second operand. *)
Record binop_kind := mkBinopKind {
  bk_ty : GPRType;
  bk_imm : ValueLocation → option Z;
  bk_value : Z → Value;
  bk_reg : GPR → M Z;
  bk_rr : Z → Z → instr;
  bk_rm : Z → Z → instr;
  bk_direct : Z → Z → M unit;
}.

(** The part of the macro after the choice of the operands. *)
Definition binop_on (k : binop_kind) (lhs rhs : ValueLocation) : M unit :=
  lreg ← as_temp (Some (bk_ty k)) lhs;
  l ← bk_reg k lreg;
  rhs ← match rhs with
    | Reg _ | Cond _ =>
        rhs_reg ← as_reg (Some (bk_ty k)) rhs;
        r ← bk_reg k rhs_reg;
        _ ← emit (bk_rr k l r);
        ret (Reg rhs_reg)
    | Stack offset =>
        offset ← adjusted_offset offset;
        _ ← emit (bk_rm k l offset);
        ret rhs
    | Immediate i =>
        _ ← match as_int i ≫= try_into_i32 with
          | Some i => bk_direct k l i
          | None =>
              scratch ← take_gpr (bk_ty k);
              _ ← immediate_to_reg scratch i;
              r ← bk_reg k scratch;
              _ ← emit (bk_rr k l r);
              release scratch
          end;
        ret rhs
    end;
  _ ← free_value rhs;
  push (Reg lreg).

Definition binop (k : binop_kind) (const_fallback : Z → Z → Z)
    (map_op : ValueLocation → ValueLocation → ValueLocation * ValueLocation) : M unit :=
  rhs ← pop;
  lhs ← pop;
  match bk_imm k lhs, bk_imm k rhs with
  | Some i1, Some i0 => push_raw (Immediate (bk_value k (const_fallback i1 i0)))
  | _, _ => let '(lhs, rhs) := map_op lhs rhs in binop_on k lhs rhs
  end.

(** The operands as they are, and [commutative_binop!]'s choice of the first. *)
Definition map_id (l r : ValueLocation) : ValueLocation * ValueLocation := (l, r).
Definition map_commutative (op1 op0 : ValueLocation) : ValueLocation * ValueLocation :=
  match op1 with
  | Reg _ => (op1, op0)
  | _ => match immediate op0 with Some _ => (op1, op0) | None => (op0, op1) end
  end.

(** [binop_i32!] and [binop_i64!] *)
Definition int_kind (op : alu) (z : Size) : binop_kind :=
  let w := width_of z in
  mkBinopKind TRq (imm_of z) (value_of z) rqM
    (λ l r, ALU op w (OReg l) (Src (OReg r)))
    (λ l off, ALU op w (OReg l) (Src (at_rsp off)))
    (λ l i, emit (ALU op w (OReg l) (Imm i))).

Definition binop_int (op : alu) (z : Size) (f : Z → Z → Z) : M unit := binop (int_kind op z) f map_id.
Definition commutative_binop_int (op : alu) (z : Size) (f : Z → Z → Z) : M unit :=
  binop (int_kind op z) f map_commutative.

Definition wrapping (z : Size) (f : Z → Z → Z) (a b : Z) : Z := wrap_s (size_bits z) (f a b).
Definition int_add (z : Size) : M unit := commutative_binop_int ADD z (wrapping z Z.add).
Definition int_and (z : Size) : M unit := commutative_binop_int AND z Z.land.
Definition int_or (z : Size) : M unit := commutative_binop_int OR z Z.lor.
Definition int_xor (z : Size) : M unit := commutative_binop_int XOR z Z.lxor.
Definition int_sub (z : Size) : M unit := binop_int SUB z (wrapping z Z.sub).

(** ** [cmp_i32!] and [cmp_i64!] *)

Definition bool_i32 (b : bool) : ValueLocation := Immediate (V.I32 (if b then 1 else 0)).

Definition cmp_i32 (flags reverse_flags : CondCode) (const_fallback : Z → Z → bool) : M unit :=
  rhs ← pop;
  lhs ← pop;
  '(lhs, rhs, out) ← match imm_i32 lhs with
    | Some i =>
        match rhs with
        | Stack offset =>
            offset ← adjusted_offset offset;
            _ ← emit (ALU CMP W32 (at_rsp offset) (Imm i));
            ret (lhs, rhs, Cond reverse_flags)
        | Reg _ | Cond _ =>
            rreg ← as_reg Rq_ rhs;
            r ← rqM rreg;
            _ ← emit (ALU CMP W32 (OReg r) (Imm i));
            ret (lhs, Reg rreg, Cond reverse_flags)
        | Immediate v =>
            x ← lift (unwrap (as_i32 v));
            ret (lhs, rhs, bool_i32 (const_fallback i x))
        end
    | None =>
        lreg ← as_reg Rq_ lhs;
        l ← rqM lreg;
        rhs ← match rhs with
          | Stack offset =>
              offset ← adjusted_offset offset;
              _ ← emit (ALU CMP W32 (OReg l) (Src (at_rsp offset)));
              ret rhs
          | Reg _ | Cond _ =>
              rreg ← as_reg Rq_ rhs;
              r ← rqM rreg;
              _ ← emit (ALU CMP W32 (OReg l) (Src (OReg r)));
              ret (Reg rreg)
          | Immediate v =>
              i ← lift (unwrap (as_i32 v));
              _ ← emit (ALU CMP W32 (OReg l) (Imm i));
              ret rhs
          end;
        ret (Reg lreg, rhs, Cond flags)
    end;
  _ ← free_value lhs;
  _ ← free_value rhs;
  push out.

Definition cmp_i64 (flags reverse_flags : CondCode) (const_fallback : Z → Z → bool) : M unit :=
  rhs ← pop;
  lhs ← pop;
  '(lhs, rhs, out) ← match imm_i64 lhs with
    | Some i =>
        match rhs with
        | Stack offset =>
            offset ← adjusted_offset offset;
            lhs ← match try_into_i32 i with
              | Some i => _ ← emit (ALU CMP W64 (at_rsp offset) (Imm i)); ret lhs
              | None =>
                  lreg ← as_reg Rq_ lhs;
                  l ← rqM lreg;
                  _ ← emit (ALU CMP W64 (at_rsp offset) (Src (OReg l)));
                  ret (Reg lreg)
              end;
            ret (lhs, rhs, Cond reverse_flags)
        | Reg _ | Cond _ =>
            rreg ← as_reg Rq_ rhs;
            r ← rqM rreg;
            lhs ← match try_into_i32 i with
              | Some i => _ ← emit (ALU CMP W64 (OReg r) (Imm i)); ret lhs
              | None =>
                  lreg ← as_reg Rq_ lhs;
                  l ← rqM lreg;
                  _ ← emit (ALU CMP W64 (OReg r) (Src (OReg l)));
                  ret (Reg lreg)
              end;
            ret (lhs, Reg rreg, Cond reverse_flags)
        | Immediate v =>
            x ← lift (unwrap (as_i64 v));
            ret (lhs, rhs, bool_i32 (const_fallback i x))
        end
    | None =>
        lreg ← as_reg Rq_ lhs;
        l ← rqM lreg;
        rhs ← match rhs with
          | Stack offset =>
              offset ← adjusted_offset offset;
              _ ← emit (ALU CMP W64 (OReg l) (Src (at_rsp offset)));
              ret rhs
          | Reg _ | Cond _ =>
              rreg ← as_reg Rq_ rhs;
              r ← rqM rreg;
              _ ← emit (ALU CMP W64 (OReg l) (Src (OReg r)));
              ret (Reg rreg)
          | Immediate v =>
              i ← lift (unwrap (as_i64 v));
              match try_into_i32 i with
              | Some i => _ ← emit (ALU CMP W64 (OReg l) (Imm i)); ret rhs
              | None =>
                  rreg ← as_reg Rq_ rhs;
                  r ← rqM rreg;
                  _ ← emit (ALU CMP W64 (OReg l) (Src (OReg r)));
                  ret (Reg rreg)
              end
          end;
        ret (Reg lreg, rhs, Cond flags)
    end;
  _ ← free_value lhs;
  _ ← free_value rhs;
  push out.

Definition cmp_int (z : Size) : CondCode → CondCode → (Z → Z → bool) → M unit :=
  match z with _32 => cmp_i32 | _64 => cmp_i64 end.

Definition unsigned (z : Size) (f : Z → Z → bool) (a b : Z) : bool :=
  f (wrap_u (size_bits z) a) (wrap_u (size_bits z) b).
Definition int_eq (z : Size) : M unit := cmp_int z cc.EQUAL cc.EQUAL Z.eqb.
Definition int_neq (z : Size) : M unit := cmp_int z cc.NOT_EQUAL cc.NOT_EQUAL (λ a b, negb (a =? b)).
Definition int_lt_u (z : Size) : M unit := cmp_int z cc.LT_U cc.GT_U (unsigned z Z.ltb).
Definition int_le_u (z : Size) : M unit := cmp_int z cc.LE_U cc.GE_U (unsigned z Z.leb).
Definition int_gt_u (z : Size) : M unit := cmp_int z cc.GT_U cc.LT_U (unsigned z Z.gtb).
Definition int_ge_u (z : Size) : M unit := cmp_int z cc.GE_U cc.LE_U (unsigned z Z.geb).
Definition int_lt_s (z : Size) : M unit := cmp_int z cc.LT_S cc.GT_S Z.ltb.
Definition int_le_s (z : Size) : M unit := cmp_int z cc.LE_S cc.GE_S Z.leb.
Definition int_gt_s (z : Size) : M unit := cmp_int z cc.GT_S cc.LT_S Z.gtb.
Definition int_ge_s (z : Size) : M unit := cmp_int z cc.GE_S cc.LE_S Z.geb.

(** [i32_eqz] and [i64_eqz] *)
Definition int_eqz (z : Size) : M unit :=
  val ← pop;
  match imm_of z val, val with
  | Some i, _ => push (bool_i32 (i =? 0))
  | None, Cond loc => push (Cond (CondCode_not loc))
  | None, _ =>
      reg ← as_reg Rq_ val;
      out ← take_gpr TRq;
      r ← rqM reg;
      o ← rqM out;
      _ ← emit (ALU XOR W32 (OReg o) (Src (OReg o)));
      _ ← emit (ALU TEST (width_of z) (OReg r) (Src (OReg r)));
      _ ← emit (SETCC cE (OReg o));
      _ ← free_value (Reg reg);
      push (Reg out)
  end.

(** ** Multiplication *)

(** The choice of the first operand in [i32_mul] and [i64_mul]. *)
Definition mul_operands (lhs rhs : ValueLocation) : ValueLocation * ValueLocation :=
  match lhs with
  | Reg _ => (lhs, rhs)
  | _ => match immediate rhs with Some _ => (lhs, rhs) | None => (rhs, lhs) end
  end.

Definition i32_mul : M unit :=
  rhs ← pop;
  lhs ← pop;
  match immediate rhs, immediate lhs with
  | Some r, Some l =>
      r ← lift (unwrap (as_i32 r)); l ← lift (unwrap (as_i32 l));
      push (Immediate (V.I32 (wrap_s 32 (r * l))))
  | _, _ =>
      let '(lhs, rhs) := mul_operands lhs rhs in
      '(out, rhs) ← match rhs with
        | Reg _ | Cond _ =>
            rreg ← as_reg Rq_ rhs;
            lreg ← as_temp Rq_ lhs;
            l ← rqM lreg; r ← rqM rreg;
            _ ← emit (IMUL W32 l (OReg r));
            ret (Reg lreg, Reg rreg)
        | Stack offset =>
            offset ← adjusted_offset offset;
            lreg ← as_temp Rq_ lhs;
            l ← rqM lreg;
            _ ← emit (IMUL W32 l (at_rsp offset));
            ret (Reg lreg, rhs)
        | Immediate i =>
            lreg ← as_reg Rq_ lhs;
            new_reg ← take_gpr TRq;
            i ← lift (unwrap (as_i32 i));
            l ← rqM lreg; n ← rqM new_reg;
            _ ← emit (IMUL3 W32 n (OReg l) i);
            _ ← free_value (Reg lreg);
            ret (Reg new_reg, rhs)
        end;
      _ ← push out;
      free_value rhs
  end.

Definition i64_mul : M unit :=
  rhs ← pop;
  lhs ← pop;
  match immediate rhs, immediate lhs with
  | Some r, Some l =>
      r ← lift (unwrap (as_i64 r)); l ← lift (unwrap (as_i64 l));
      push (Immediate (V.I64 (wrap_s 64 (r * l))))
  | _, _ =>
      let '(lhs, rhs) := mul_operands lhs rhs in
      '(out, rhs) ← match rhs with
        | Reg _ | Cond _ =>
            rreg ← as_reg Rq_ rhs;
            lreg ← as_temp Rq_ lhs;
            l ← rqM lreg; r ← rqM rreg;
            _ ← emit (IMUL W64 l (OReg r));
            ret (Reg lreg, Reg rreg)
        | Stack offset =>
            offset ← adjusted_offset offset;
            lreg ← as_temp Rq_ lhs;
            l ← rqM lreg;
            _ ← emit (IMUL W64 l (at_rsp offset));
            ret (Reg lreg, rhs)
        | Immediate i =>
            i ← lift (unwrap (as_i64 i));
            match try_into_i32 i with
            | Some i =>
                new_reg ← take_gpr TRq;
                lreg ← as_reg Rq_ lhs;
                l ← rqM lreg; n ← rqM new_reg;
                _ ← emit (IMUL3 W64 n (OReg l) i);
                _ ← free_value (Reg lreg);
                ret (Reg new_reg, rhs)
            | None =>
                rreg ← as_reg Rq_ rhs;
                lreg ← as_temp Rq_ lhs;
                l ← rqM lreg; r ← rqM rreg;
                _ ← emit (IMUL W64 l (OReg r));
                ret (Reg lreg, Reg rreg)
            end
        end;
      _ ← push out;
      free_value rhs
  end.
