(* ===== verification/LightbeamMemory.v ===== *)
(** * Lightbeam: globals and linear memory

    Models [get_global], [set_global] and the macros [load!] and [store!] of
    [lightbeam/src/backend.rs], over the offsets that the module context gives
    ([ModuleContext] of [lightbeam/src/module.rs]). *)

From S2P Require Import Prelude Microwasm X64 LightbeamRegs Lightbeam LightbeamOps FuncEnviron.
Import V(Value) registers.
Local Open Scope Z_scope.

(** ** The module context *)

Class ModuleOffsets := {
  defined_func_index : Z → option Z;
  defined_memory_index : Z → option Z;
  vmctx_vmmemory_definition : Z → res Z;
  vmctx_vmmemory_import_from : Z → res Z;
  vmmemory_definition_base : res Z;
  vmmemory_definition_current_length : res Z;
  defined_global_index : Z → option Z;
  vmctx_vmglobal_definition : Z → res Z;
  vmctx_vmglobal_import_from : Z → res Z;
  defined_table_index : Z → option Z;
  vmctx_vmtable_definition : Z → res Z;
  vmctx_vmtable_import_from : Z → res Z;
  vmtable_definition_base : res Z;
  vmtable_definition_current_elements : res Z;
  vmctx_vmshared_signature_id : Z → res Z;
  vmcaller_checked_anyfunc_type_index : res Z;
  vmcaller_checked_anyfunc_func_ptr : res Z;
  vmcaller_checked_anyfunc_vmctx : res Z;
  size_of_vmcaller_checked_anyfunc : res Z;
  vmctx_vmfunction_import_body : Z → res Z;
  vmctx_vmfunction_import_vmctx : Z → res Z;
}.

(** The context that wasmtime gives to Lightbeam. *)
Definition environment_offsets (fe : FuncEnvironment) : ModuleOffsets := {|
  defined_func_index := FuncEnviron.Lightbeam.defined_func_index fe;
  defined_memory_index := FuncEnviron.Lightbeam.defined_memory_index fe;
  vmctx_vmmemory_definition := FuncEnviron.Lightbeam.vmctx_vmmemory_definition fe;
  vmctx_vmmemory_import_from := FuncEnviron.Lightbeam.vmctx_vmmemory_import_from fe;
  vmmemory_definition_base := FuncEnviron.Lightbeam.vmmemory_definition_base fe;
  vmmemory_definition_current_length := FuncEnviron.Lightbeam.vmmemory_definition_current_length fe;
  defined_global_index := FuncEnviron.Lightbeam.defined_global_index fe;
  vmctx_vmglobal_definition := FuncEnviron.Lightbeam.vmctx_vmglobal_definition fe;
  vmctx_vmglobal_import_from := FuncEnviron.Lightbeam.vmctx_vmglobal_import_from fe;
  defined_table_index := FuncEnviron.Lightbeam.defined_table_index fe;
  vmctx_vmtable_definition := FuncEnviron.Lightbeam.vmctx_vmtable_definition fe;
  vmctx_vmtable_import_from := FuncEnviron.Lightbeam.vmctx_vmtable_import_from fe;
  vmtable_definition_base := FuncEnviron.Lightbeam.vmtable_definition_base fe;
  vmtable_definition_current_elements := FuncEnviron.Lightbeam.vmtable_definition_current_elements fe;
  vmctx_vmshared_signature_id := FuncEnviron.Lightbeam.vmctx_vmshared_signature_id fe;
  vmcaller_checked_anyfunc_type_index := FuncEnviron.Lightbeam.vmcaller_checked_anyfunc_type_index fe;
  vmcaller_checked_anyfunc_func_ptr := FuncEnviron.Lightbeam.vmcaller_checked_anyfunc_func_ptr fe;
  vmcaller_checked_anyfunc_vmctx := FuncEnviron.Lightbeam.vmcaller_checked_anyfunc_vmctx fe;
  size_of_vmcaller_checked_anyfunc := FuncEnviron.Lightbeam.size_of_vmcaller_checked_anyfunc fe;
  vmctx_vmfunction_import_body := FuncEnviron.Lightbeam.vmctx_vmfunction_import_body fe;
  vmctx_vmfunction_import_vmctx := FuncEnviron.Lightbeam.vmctx_vmfunction_import_vmctx fe
|}.

(** The default of the trait, which no context changes. *)
Definition emit_memory_bounds_check : bool := true.

Section memory.
Context `{ModuleOffsets}.

(** [[Rq(VMCTX) + offset as i32]] *)
Definition at_vmctx (offset : Z) : operand := OMem (Addr VMCTX None (wrap_s 32 offset)).
(** [reg.unwrap_or(vmctx).rq().unwrap()] *)
Definition or_vmctx (reg : option GPR) : M Z := match reg with Some g => rqM g | None => ret VMCTX end.
Definition release_opt (reg : option GPR) : M unit := match reg with Some g => release g | None => ret tt end.

(** ** Globals *)

(** The register and the offset of a global. *)
Definition global_at (global_idx : Z) : M (option GPR * Z) :=
  match defined_global_index global_idx with
  | Some i => o ← lift (vmctx_vmglobal_definition i); ret (None, o)
  | None =>
      reg ← take_gpr TRq;
      r ← rqM reg;
      o ← lift (vmctx_vmglobal_import_from global_idx);
      _ ← emit (MOV W64 (OReg r) (Src (at_vmctx o)));
      ret (Some reg, 0)
  end.

Definition get_global (global_idx : Z) : M unit :=
  '(reg, offset) ← global_at global_idx;
  out ← take_gpr TRq;
  o ← rqM out;
  r ← or_vmctx reg;
  _ ← emit (MOV W64 (OReg o) (Src (OMem (Addr r None (wrap_s 32 offset)))));
  _ ← release_opt reg;
  push (Reg out).

Definition set_global (global_idx : Z) : M unit :=
  val ← pop;
  '(reg, offset) ← global_at global_idx;
  val_reg ← as_reg Rq_ val;
  r ← or_vmctx reg;
  v ← rqM val_reg;
  _ ← emit (MOV W64 (OMem (Addr r None (wrap_s 32 offset))) (Src (OReg v)));
  _ ← release_opt reg;
  free_value (Reg val_reg).

(** ** Accesses of memory *)

(** A definition in the context, or in another one to which the context has a pointer:
    the register of the pointer, if there is one, and the offset. *)
Definition definition_of (defined : option Z) (definition : Z → res Z) (import_from : res Z) : M (option GPR * Z) :=
  match defined with
  | Some index => o ← lift (definition index); ret (None, wrap_s 32 o)
  | None =>
      reg ← take_gpr TRq;
      r ← rqM reg;
      o ← lift import_from;
      _ ← emit (MOV W64 (OReg r) (Src (at_vmctx o)));
      ret (Some reg, 0)
  end.
(** [reg] and [mem_offset]: the definition of memory 0. *)
Definition memory_at : M (option GPR * Z) :=
  definition_of (defined_memory_index 0) vmctx_vmmemory_definition (vmctx_vmmemory_import_from 0).

(** A field of the definition. *)
Definition field_of (reg : option GPR) (mem_offset : Z) (field : res Z) : M address :=
  r ← or_vmctx reg;
  o ← lift field;
  disp ← lift (i32_checked (mem_offset + o));
  ret (Addr r None disp).

(** [addr_reg]: the address, from a constant ([Ok], here [inl]) or a register. *)
Definition address_reg (offset : Z) (runtime_offset : Z + GPR) : M GPR :=
  match runtime_offset with
  | inl imm =>
      addr_reg ← take_gpr TRq;
      a ← rqM addr_reg;
      _ ← emit (MOV W64 (OReg a) (Imm (imm + offset)));
      ret addr_reg
  | inr gpr =>
      if offset =? 0 then unwrapM (to_reg Rq_ (Reg gpr))
      else if 0 <? offset then
        addr_reg ← take_gpr TRq;
        a ← rqM addr_reg;
        g ← rqM gpr;
        _ ← emit (LEA a (Addr g None offset));
        ret addr_reg
      else
        addr_reg ← take_gpr TRq;
        offset_reg ← take_gpr TRq;
        o ← rqM offset_reg;
        a ← rqM addr_reg;
        g ← rqM gpr;
        _ ← emit (MOV W32 (OReg o) (Imm offset));
        _ ← emit (MOV W64 (OReg a) (Src (OReg g)));
        _ ← emit (ALU ADD W64 (OReg a) (Src (OReg o)));
        _ ← release offset_reg;
        ret addr_reg
  end.

(** The pointer to the memory. *)
Definition mem_pointer (reg : option GPR) (mem_offset : Z) : M GPR :=
  mem_ptr_reg ← take_gpr TRq;
  p ← rqM mem_ptr_reg;
  base ← field_of reg mem_offset vmmemory_definition_base;
  _ ← emit (MOV W64 (OReg p) (Src (OMem base)));
  _ ← release_opt reg;
  ret mem_ptr_reg.

(** The address of an access: the displacement is an [i32] sum when the address is a
    constant. *)
Definition access_at (mem_ptr_reg : GPR) (runtime_offset : Z + GPR) (offset : Z) : M address :=
  p ← rqM mem_ptr_reg;
  match runtime_offset with
  | inl imm => disp ← lift (i32_checked (offset + imm)); ret (Addr p None disp)
  | inr g => g ← rqM g; ret (Addr p (Some g) offset)
  end.

(** *** [load!] *)

Definition load_to_reg (emit_fn : GPR → GPR → Z + GPR → Z → M unit) (dst : GPR) (offset : Z)
    (runtime_offset : Z + GPR) : M unit :=
  '(reg, mem_offset) ← memory_at;
  _ ← (if emit_memory_bounds_check then
         trap_label ← trap_label;
         addr_reg ← address_reg offset runtime_offset;
         length ← field_of reg mem_offset vmmemory_definition_current_length;
         a ← rqM addr_reg;
         _ ← emit (ALU CMP W64 (OMem length) (Src (OReg a)));
         _ ← emit (JCC cBE trap_label);
         release addr_reg
       else ret tt);
  mem_ptr_reg ← mem_pointer reg mem_offset;
  _ ← emit_fn dst mem_ptr_reg runtime_offset offset;
  release mem_ptr_reg.

Definition load (rtype : GPRType) (emit_fn : GPR → GPR → Z + GPR → Z → M unit) (offset : Z) : M unit :=
  base ← pop;
  temp ← take_gpr rtype;
  _ ← match base with
    | Immediate i =>
        i ← lift (unwrap (as_i32 i));
        load_to_reg emit_fn temp (wrap_s 32 offset) (inl i)
    | _ =>
        gpr ← as_reg Rq_ base;
        _ ← load_to_reg emit_fn temp (wrap_s 32 offset) (inr gpr);
        free_value (Reg gpr)
    end;
  push (Reg temp).

(** The cases without ([NONE]) and with an instruction for vector registers. *)
Definition emit_int_load (rq_instr : Z → operand → instr) (dst mem_ptr_reg : GPR) (runtime_offset : Z + GPR)
    (offset : Z) : M unit :=
  a ← access_at mem_ptr_reg runtime_offset offset;
  d ← rqM dst;
  emit (rq_instr d (OMem a)).
Definition emit_any_load (xmm_width : width) (rq_instr : Z → operand → instr) (dst mem_ptr_reg : GPR)
    (runtime_offset : Z + GPR) (offset : Z) : M unit :=
  match dst, runtime_offset with
  | Rq r, _ => a ← access_at mem_ptr_reg runtime_offset offset; emit (rq_instr r (OMem a))
  | Rx r, inl imm =>
      match i32_checked (offset + imm) with
      | Ret combined => p ← rqM mem_ptr_reg; emit (MOVXM xmm_width r (Addr p None combined))
      | Panic =>
          offset_reg ← take_gpr TRq;
          o ← rqM offset_reg;
          _ ← emit (MOV W64 (OReg o) (Imm offset));
          p ← rqM mem_ptr_reg;
          _ ← emit (MOVXM xmm_width r (Addr p (Some o) imm));
          release offset_reg
      end
  | Rx r, inr offset_reg =>
      a ← access_at mem_ptr_reg runtime_offset offset; emit (MOVXM xmm_width r a)
  end.

(** [mov Rd, DWORD] and [mov Rq, QWORD]; [movzx], [movsx] and [movsxd] *)
Definition mov_load (w : width) (r : Z) (o : operand) : instr := MOV w (OReg r) (Src o).
Definition movx_load (signed : bool) (wd ws : width) (r : Z) (o : operand) : instr := MOVX signed wd r ws o.

Definition i32_load : Z → M unit := load TRq (emit_any_load W32 (mov_load W32)).
Definition i64_load : Z → M unit := load TRq (emit_any_load W64 (mov_load W64)).
Definition f32_load : Z → M unit := load TRx (emit_any_load W32 (mov_load W32)).
Definition f64_load : Z → M unit := load TRx (emit_any_load W64 (mov_load W64)).
Definition i32_load8_u : Z → M unit := load TRq (emit_int_load (movx_load false W32 W8)).
Definition i32_load8_s : Z → M unit := load TRq (emit_int_load (movx_load true W32 W8)).
Definition i32_load16_u : Z → M unit := load TRq (emit_int_load (movx_load false W32 W16)).
Definition i32_load16_s : Z → M unit := load TRq (emit_int_load (movx_load true W32 W16)).
Definition i64_load8_u : Z → M unit := load TRq (emit_int_load (movx_load false W64 W8)).
Definition i64_load8_s : Z → M unit := load TRq (emit_int_load (movx_load true W64 W8)).
Definition i64_load16_u : Z → M unit := load TRq (emit_int_load (movx_load false W64 W16)).
Definition i64_load16_s : Z → M unit := load TRq (emit_int_load (movx_load true W64 W16)).
Definition i64_load32_u : Z → M unit := load TRq (emit_any_load W32 (mov_load W32)).
Definition i64_load32_s : Z → M unit := load TRq (emit_int_load (movx_load true W64 W32)).

(** *** [store!] *)

Definition store_from_reg (match_offset : GPR → Z + GPR → Z → GPR → M GPR) (src : GPR) (offset : Z)
    (runtime_offset : Z + GPR) : M unit :=
  '(reg, mem_offset) ← memory_at;
  _ ← (if emit_memory_bounds_check then
         trap_label ← trap_label;
         addr_reg ← address_reg offset runtime_offset;
         length ← field_of reg mem_offset vmmemory_definition_current_length;
         a ← rqM addr_reg;
         _ ← emit (ALU CMP W64 (OReg a) (Src (OMem length)));
         _ ← emit (JCC cAE trap_label);
         release addr_reg
       else ret tt);
  mem_ptr_reg ← mem_pointer reg mem_offset;
  src ← match_offset mem_ptr_reg runtime_offset offset src;
  _ ← release mem_ptr_reg;
  release src.

Definition store (match_offset : GPR → Z + GPR → Z → GPR → M GPR) (offset : Z) : M unit :=
  _ ← lift (rassert (offset <=? 2 ^ 31 - 1));
  src ← pop;
  base ← pop;
  src_reg ← as_reg None src;
  match base with
  | Immediate i =>
      i ← lift (unwrap (as_i32 i));
      store_from_reg match_offset src_reg (wrap_s 32 offset) (inl i)
  | _ =>
      gpr ← as_reg Rq_ base;
      _ ← store_from_reg match_offset src_reg (wrap_s 32 offset) (inr gpr);
      free_value (Reg gpr)
  end.

Definition store_int (w : width) (mem_ptr_reg : GPR) (runtime_offset : Z + GPR) (offset : Z) (src : GPR) : M GPR :=
  src_reg ← as_temp Rq_ (Reg src);
  a ← access_at mem_ptr_reg runtime_offset offset;
  r ← rqM src_reg;
  _ ← emit (MOV w (OMem a) (Src (OReg r)));
  ret src_reg.
Definition store_any (w : width) (mem_ptr_reg : GPR) (runtime_offset : Z + GPR) (offset : Z) (src : GPR) : M GPR :=
  a ← access_at mem_ptr_reg runtime_offset offset;
  _ ← emit match src with Rq r => MOV w (OMem a) (Src (OReg r)) | Rx r => MOVMX w a r end;
  ret src.

Definition store8 : Z → M unit := store (store_int W8).
Definition store16 : Z → M unit := store (store_int W16).
Definition store32 : Z → M unit := store (store_any W32).
Definition store64 : Z → M unit := store (store_any W64).
End memory.
