(* ===== verification/LightbeamBlocks.v ===== *)
(** * Lightbeam: blocks

    Models the part of [Context] in [lightbeam/src/backend.rs] that deals with blocks:
    the start of a function, branches, and the passing of arguments. *)

From S2P Require Import Prelude Microwasm X64 LightbeamRegs Lightbeam LightbeamOps.
Import V(Value) registers.
Local Open Scope Z_scope.

(** ** Entering a block *)

(** The registers of the locations are used again, one by one. *)
Definition mark_locs (l : list ValueLocation) : M unit :=
  r ← lift Registers_new;
  _ ← put_regs r;
  iterM (λ v, match v with Reg r => mark_used r | _ => ret tt end) l.

Definition virtual_calling_convention : M VirtualCallingConvention :=
  b ← get_bs; ret (mkVirtualCC (bs_stack b) (bs_depth b)).

Definition set_state (state : VirtualCallingConvention) : M unit :=
  _ ← mark_locs (vcc_stack state);
  _ ← put_stack (vcc_stack state);
  put_depth (vcc_depth state).

Definition apply_cc (c : BlockCallingConvention) : M unit :=
  let stack := map ValueLocation_from (arguments c) in
  _ ← mark_locs stack;
  _ ← put_stack stack;
  put_depth (cc_stack_depth c).

Definition start_function (params : list SignlessType) : M unit :=
  locs ← lift (arg_locs params); apply_cc (function_start locs).

(** [Context::ret] and [Context::trap] *)
Definition cg_ret : M unit := emit RET.
Definition trap : M unit := l ← trap_label; emit (JMP l).

(** ** Passing arguments *)

(** [save_regs(regs, ..)]: the loop over the virtual stack, which is taken out of the
    state meanwhile; [done] are the locations before. *)
Fixpoint save_loop (fuel : nat) (regs : list GPR) (done l : list ValueLocation) : M (list ValueLocation) :=
  match fuel, l with
  | O, _ => ret (done ++ l)
  | _, [] => ret done
  | S fuel, first :: rest =>
      match first with
      | Reg vreg =>
          if decide (vreg ∈ regs) then
            new ← push_physical first;
            rest ← replace_locs first new vreg rest;
            save_loop fuel regs (done ++ [new]) rest
          else save_loop fuel regs (done ++ [first]) rest
      | _ => save_loop fuel regs (done ++ [first]) rest
      end
  end.
Definition save_regs (regs : list GPR) : M unit :=
  b ← get_bs;
  _ ← put_stack [];
  l ← save_loop (length (bs_stack b)) regs [] (bs_stack b);
  put_stack l.
Definition save_volatile : M unit := save_regs SCRATCH_REGS.

Definition set_stack_depth (depth : Z) : M unit :=
  b ← get_bs;
  if bs_depth b =? depth then ret tt
  else
    let diff := wrap_s 32 depth - wrap_s 32 (bs_depth b) in
    emit_lea ← (if Z.abs diff =? 1 then
        if bs_depth b <? depth then _ ← emit (PUSH (OReg 0)); ret false
        else
          trash ← take_reg TRq;
          match trash with
          | Some trash =>
              r ← rqM trash;
              b ← get_bs;
              _ ← iterM (λ _, emit (POP r)) (seqZ 0 (bs_depth b - depth));
              _ ← release trash;
              ret false
          | None => ret true
          end
      else ret true);
    _ ← (if (emit_lea : bool) then
        b ← get_bs;
        x ← lift (i32_checked ((wrap_s 32 (bs_depth b) - wrap_s 32 depth) * WORD_SIZE));
        emit (LEA RSP_ (Addr RSP_ None x))
      else ret tt);
    put_depth depth.

(** The arguments are passed from the last on, as many as there are. *)
Fixpoint pass_loop (dsts : list CCLoc) : M unit :=
  match dsts with
  | [] => ret tt
  | dst :: dsts =>
      _ ← match dst with
        | CReg r =>
            free ← is_free r;
            _ ← (if negb free then
                b ← get_bs;
                top ← lift (unwrap (last (bs_stack b)));
                if decide (top = Reg r) then ret tt else save_regs [r]
              else ret tt);
            mark_used r
        | CStack _ => ret tt
        end;
      _ ← pop_into dst;
      pass_loop dsts
  end.
Definition do_pass_block_args (c : BlockCallingConvention) : M unit :=
  b ← get_bs; pass_loop (take (length (bs_stack b)) (rev (arguments c))).

Definition pass_block_args (c : BlockCallingConvention) : M unit :=
  _ ← do_pass_block_args c; set_stack_depth (cc_stack_depth c).

(** Values popped and put in locations of their own, the last popped first. *)
Fixpoint pop_locs (n : nat) (out : list CCLoc) : M (list CCLoc) :=
  match n with
  | O => ret out
  | S n => val ← pop; loc ← into_temp_loc None val; pop_locs n (loc :: out)
  end.

Definition serialize_block_args (c : BlockCallingConvention) (params : Z) : M BlockCallingConvention :=
  _ ← do_pass_block_args c;
  out_args ← pop_locs (Z.to_nat params - length (arguments c)) (arguments c);
  _ ← set_stack_depth (cc_stack_depth c);
  ret (mkBlockCC (cc_stack_depth c) out_args).

Definition serialize_args (count : Z) : M BlockCallingConvention :=
  out ← pop_locs (Z.to_nat count) [];
  b ← get_bs;
  ret (mkBlockCC (bs_depth b) out).

(** ** Branches *)

Definition br_on_cond_code (label : Z) (cond : CondCode) : M unit := emit (JCC (x_cond cond) label).

(** The common part of [br_if_false] and [br_if_true]; [on] is the condition when the
    predicate is one, [off] the one after a test. *)
Definition br_if {A} (on : CondCode → CondCode) (off : CondCode) (target : BrTarget Z) (pass_args : M A) : M A :=
  val ← pop;
  label ← target_to_label target;
  '(cond, val) ← match val with
    | Cond c => ret (on c, val)
    | _ =>
        predicate ← as_reg Rq_ val;
        p ← rqM predicate;
        _ ← emit (ALU TEST W32 (OReg p) (Src (OReg p)));
        ret (off, Reg predicate)
    end;
  _ ← free_value val;
  a ← pass_args;
  _ ← br_on_cond_code label cond;
  ret a.
Definition br_if_false {A} : BrTarget Z → M A → M A := br_if CondCode_not ZF0.
Definition br_if_true {A} : BrTarget Z → M A → M A := br_if (λ c, c) ZF1.

Definition br (label : BrTarget Z) : M unit :=
  match label with Return => cg_ret | Label l => emit (JMP l) end.

(** A register for the selector or for the address of the table, and whether it has
    been pushed to make room. *)
Definition reg_or_push (other : GPR) (g : M (option GPR)) : M (GPR * bool) :=
  g ← g;
  match g with
  | Some g => ret (g, false)
  | None => _ ← push_physical (Reg other); _ ← mark_used other; ret (other, true)
  end.

(** The table is a sequence of jumps of five bytes each; the local label before it is a
    label of its own here. *)
Definition br_table {A} (targets : list (option (BrTarget Z))) (default_ : option (BrTarget Z)) (pass_args : M A) : M A :=
  selector ← pop;
  a ← pass_args;
  selector ← match imm_i32 selector with
    | Some imm =>
        _ ← match match zget targets (wrap_u 64 imm) with Some t => t | None => default_ end with
          | Some target => br target
          | None => ret tt
          end;
        ret selector
    | None =>
        end_label ← create_label;
        selector ← (if 0 <? zlen targets then
            '(sreg, pop_selector) ← reg_or_push RAX (into_temp_reg (Some TRq) selector);
            '(tmp, pop_tmp) ← reg_or_push (if decide (sreg = RAX) then RCX else RAX) (take_reg TRq);
            _ ← immediate_to_reg tmp (V.I32 (wrap_s 32 (zlen targets)));
            s ← rqM sreg;
            t ← rqM tmp;
            start_label ← create_label;
            _ ← emit (ALU CMP W64 (OReg s) (Src (OReg t)));
            _ ← emit (CMOV cA W64 s (OReg t));
            _ ← emit (LEA t (AtLabel start_label));
            _ ← emit (LEA5 s s);
            _ ← emit (ALU ADD W64 (OReg s) (Src (OReg t)));
            _ ← (if (pop_tmp : bool) then emit (POP t) else release tmp);
            _ ← (if (pop_selector : bool) then emit (POP s) else ret tt);
            _ ← emit (JMPR s);
            _ ← define_label start_label;
            _ ← iterM (λ target,
                  label ← match target with Some target => target_to_label target | None => ret end_label end;
                  emit (JMP label)) targets;
            ret (if (pop_selector : bool) then selector else Reg sreg)
          else ret selector);
        _ ← match default_ with
          | Some (Label l) => emit (JMP l)
          | Some Return => emit RET
          | None => ret tt
          end;
        _ ← define_label end_label;
        ret selector
    end;
  _ ← free_value selector;
  ret a.
