(* ===== verification/LightbeamInts.v ===== *)
(** * Lightbeam: division, shifts, bit counts and conversions of integers

    Models the remaining integer operators of [lightbeam/src/backend.rs] and [select]. *)

From S2P Require Import Prelude Microwasm X64 LightbeamRegs Lightbeam LightbeamOps LightbeamBlocks.
Import V(Value) registers.
Local Open Scope Z_scope.

(** ** Division *)

(** [full_div]: the quotient is left in [rax], the remainder in [rdx]; the registers
    that were pushed are returned. *)
Definition full_div (divisor dividend : ValueLocation) (do_div : ValueLocation → M ValueLocation)
    : M (ValueLocation * ValueLocation * list GPR) :=
  _ ← mark_used RAX;
  _ ← mark_used RDX;
  divisor ← (if decide (divisor = Reg RAX ∨ divisor = Reg RDX) then
      new_reg ← take_gpr TRq;
      _ ← copy_value divisor (CReg new_reg);
      _ ← free_value divisor;
      ret (Reg new_reg)
    else ret divisor);
  _ ← release RAX;
  _ ← release RDX;
  rax_free ← is_free RAX;
  saved_rax ← (if (rax_free : bool) then ret []
    else _ ← emit (PUSH (OReg 0)); _ ← depth_reserve 1; ret [RAX]);
  rdx_free ← is_free RDX;
  saved_rdx ← (if (rdx_free : bool) then ret []
    else _ ← emit (PUSH (OReg 2)); _ ← depth_reserve 1; ret [RDX]);
  let saved := saved_rdx ++ saved_rax in
  _ ← copy_value dividend (CReg RAX);
  _ ← mark_used RAX;
  _ ← free_value dividend;
  _ ← mark_used RDX;
  divisor ← do_div divisor;
  _ ← free_value divisor;
  rax_free ← is_free RAX;
  _ ← lift (rassert (negb rax_free));
  rdx_free ← is_free RDX;
  _ ← lift (rassert (negb rdx_free));
  ret (Reg RAX, Reg RDX, saved).

(** [xor edx, edx], [cdq] or [cqo] before the division. *)
Definition extend_rax (signed : bool) (z : Size) : M unit :=
  match signed, z with
  | false, _ => emit (ALU XOR (width_of z) (OReg 2) (Src (OReg 2)))
  | true, _32 => emit CDQ
  | true, _64 => emit CQO
  end.
(** [i32_full_div_u], [i32_full_div_s], [i64_full_div_u] and [i64_full_div_s] *)
Definition int_full_div (signed : bool) (z : Size) (divisor dividend : ValueLocation)
    : M (ValueLocation * ValueLocation * list GPR) :=
  full_div divisor dividend (λ divisor,
    match divisor with
    | Stack offset =>
        offset ← adjusted_offset offset;
        _ ← extend_rax signed z;
        _ ← emit (DIV signed (width_of z) (at_rsp offset));
        ret divisor
    | _ =>
        reg ← as_reg Rq_ divisor;
        _ ← extend_rax signed z;
        r ← rqM reg;
        _ ← emit (DIV signed (width_of z) (OReg r));
        ret (Reg reg)
    end).

Fixpoint cleanup_gprs (gprs : list GPR) : M unit :=
  match gprs with
  | [] => ret tt
  | gpr :: gprs =>
      r ← rqM gpr;
      _ ← emit (POP r);
      _ ← depth_free 1;
      cleanup_gprs gprs
  end.

(** The result out of the way of the registers that are restored. *)
Definition save_result (v : ValueLocation) (saved : list GPR) : M ValueLocation :=
  match v with
  | Reg g =>
      if decide (g ∈ saved) then
        new ← take_gpr TRq;
        n ← rqM new;
        r ← rqM g;
        _ ← emit (MOV W64 (OReg n) (Src (OReg r)));
        _ ← release g;
        ret (Reg new)
      else ret v
  | _ => ret v
  end.

(** Two constants. *)
Definition const_div (z : Size) (f : Z → Z → res Z) (dividend divisor : Z) : M unit :=
  if divisor =? 0 then
    _ ← trap; push (Immediate (value_of z 0))
  else
    x ← lift (f dividend divisor);
    push (Immediate (value_of z x)).

(** [wrapping_div] and [%]; the latter panics on overflow. *)
Definition udiv (z : Size) (a b : Z) : res Z :=
  Ret (wrap_s (size_bits z) (wrap_u (size_bits z) a / wrap_u (size_bits z) b)).
Definition sdiv (z : Size) (a b : Z) : res Z := Ret (wrap_s (size_bits z) (Z.quot a b)).
Definition urem (z : Size) (a b : Z) : res Z :=
  Ret (wrap_s (size_bits z) (wrap_u (size_bits z) a mod wrap_u (size_bits z) b)).
Definition srem (z : Size) (a b : Z) : res Z :=
  if (a =? - 2 ^ (size_bits z - 1)) && (b =? -1) then Panic else Ret (Z.rem a b).

Definition int_div (signed : bool) (z : Size) : M unit :=
  divisor ← pop;
  dividend ← pop;
  match imm_of z dividend, imm_of z divisor with
  | Some a, Some b => const_div z (if signed then sdiv z else udiv z) a b
  | _, _ =>
      '(div, rem, saved) ← int_full_div signed z divisor dividend;
      _ ← free_value rem;
      div ← save_result div saved;
      _ ← cleanup_gprs saved;
      push div
  end.
Definition int_rem_u (z : Size) : M unit :=
  divisor ← pop;
  dividend ← pop;
  match imm_of z dividend, imm_of z divisor with
  | Some a, Some b => const_div z (urem z) a b
  | _, _ =>
      '(div, rem, saved) ← int_full_div false z divisor dividend;
      _ ← free_value div;
      rem ← save_result rem saved;
      _ ← cleanup_gprs saved;
      push rem
  end.

(** The rest of [$rem_s], with the jump over the division when the divisor may be -1. *)
Definition rem_s_tail (z : Size) (divisor dividend : ValueLocation) (is_neg1 current_depth : Z)
    (gen_neg1_case : bool) : M unit :=
  '(div, rem, saved) ← int_full_div true z divisor dividend;
  _ ← free_value div;
  rem ← save_result rem saved;
  _ ← cleanup_gprs saved;
  _ ← (if gen_neg1_case then
      ret_ ← create_label;
      _ ← set_stack_depth current_depth;
      _ ← emit (JMP ret_);
      _ ← define_label is_neg1;
      dst ← lift (unwrap (CCLoc_try_from rem));
      _ ← copy_value (Immediate (value_of z 0)) dst;
      _ ← set_stack_depth current_depth;
      define_label ret_
    else ret tt);
  push rem.
Definition int_rem_s (z : Size) : M unit :=
  divisor ← pop;
  dividend ← pop;
  match imm_of z dividend, imm_of z divisor with
  | Some a, Some b => const_div z (srem z) a b
  | _, _ =>
      is_neg1 ← create_label;
      b ← get_bs;
      let current_depth := bs_depth b in
      match divisor with
      | Immediate i =>
          i ← lift (unwrap (as_of z i));
          if i =? -1 then
            _ ← push (Immediate (value_of z (-1)));
            free_value dividend
          else rem_s_tail z divisor dividend is_neg1 current_depth false
      | Reg _ =>
          reg ← as_reg Rq_ divisor;
          r ← rqM reg;
          _ ← emit (ALU CMP (width_of z) (OReg r) (Imm (-1)));
          _ ← set_stack_depth current_depth;
          _ ← emit (JCC cE is_neg1);
          rem_s_tail z (Reg reg) dividend is_neg1 current_depth true
      | Stack offset =>
          offset ← adjusted_offset offset;
          _ ← emit (ALU CMP (width_of z) (at_rsp offset) (Imm (-1)));
          _ ← set_stack_depth current_depth;
          _ ← emit (JCC cE is_neg1);
          rem_s_tail z divisor dividend is_neg1 current_depth true
      | Cond _ => rem_s_tail z divisor dividend is_neg1 current_depth false
      end
  end.

(** ** Shifts *)

(** A value that is not in [rcx]. *)
Definition out_of_rcx (val : ValueLocation) : M ValueLocation :=
  if decide (val = Reg RCX) then
    new ← take_gpr TRq;
    _ ← copy_value val (CReg new);
    _ ← free_value val;
    ret (Reg new)
  else ret val.
(** [temp_rcx]: the count is put in [cl]; the register that has what [rcx] held, and
    where the count is. *)
Definition count_to_cl (count : ValueLocation) : M (option GPR * ValueLocation) :=
  if decide (count = Reg RCX) then ret (None, count)
  else
    rcx_free ← is_free RCX;
    out ← (if (rcx_free : bool) then ret None
      else
        new_reg ← take_gpr TRq;
        n ← rqM new_reg;
        _ ← emit (MOV W64 (OReg n) (Src (OReg 1)));
        ret (Some new_reg));
    count ← match count with
      | Reg _ | Cond _ =>
          gpr ← as_reg Rq_ count;
          g ← rqM gpr;
          _ ← emit (MOV W8 (OReg 1) (Src (OReg g)));
          ret (Reg gpr)
      | Stack offset =>
          offset ← adjusted_offset offset;
          _ ← emit (MOV W8 (OReg 1) (Src (at_rsp offset)));
          ret count
      | Immediate imm =>
          i ← lift (unwrap (as_int imm));
          _ ← emit (MOV W8 (OReg 1) (Imm (wrap_s 8 i)));
          ret count
      end;
    ret (out, count).
(** The part of [shift!] for counts that are not small constants. *)
Definition shift_by_cl (op : shift_op) (z : Size) (count val : ValueLocation) : M unit :=
  val ← out_of_rcx val;
  '(temp_rcx, count) ← count_to_cl count;
  _ ← free_value count;
  _ ← mark_used RCX;
  reg ← as_temp Rq_ val;
  r ← rqM reg;
  _ ← emit (SHIFT op (width_of z) r None);
  _ ← free_value (Reg RCX);
  _ ← match temp_rcx with
    | Some gpr =>
        g ← rqM gpr;
        _ ← emit (MOV W64 (OReg 1) (Src (OReg g)));
        release gpr
    | None => ret tt
    end;
  push (Reg reg).
(** [shift!]; its constant fallback is not used. *)
Definition shift (op : shift_op) (z : Size) : M unit :=
  count ← pop;
  val ← pop;
  match (i ← immediate count; i ← as_int i; try_into_i8 i) with
  | Some imm =>
      reg ← as_temp Rq_ val;
      r ← rqM reg;
      _ ← emit (SHIFT op (width_of z) r (Some imm));
      push (Reg reg)
  | None => shift_by_cl op z count val
  end.

Definition int_shl (z : Size) : M unit := shift SHL z.
Definition int_shr_s (z : Size) : M unit := shift SAR z.
Definition int_shr_u (z : Size) : M unit := shift SHR z.
Definition int_rotl (z : Size) : M unit := shift ROL z.
Definition int_rotr (z : Size) : M unit := shift ROR z.

(** ** Bit counts *)

(** [is_x86_feature_detected!("lzcnt")]: of the machine that the compiler runs on. *)
Class HostFeatures := has_lzcnt : bool.

(** [unop!] *)
Definition unop (op : bit_op) (z : Size) (const_fallback : Z → Z) : M unit :=
  val ← pop;
  '(val, out_val) ← match val with
    | Immediate imm =>
        i ← lift (unwrap (as_int imm));
        ret (val, Immediate (value_of z (const_fallback (wrap_u (size_bits z) i))))
    | Stack offset =>
        offset ← adjusted_offset offset;
        temp ← take_gpr TRq;
        t ← rqM temp;
        _ ← emit (BITS op (width_of z) t (at_rsp offset));
        ret (val, Reg temp)
    | Reg _ | Cond _ =>
        reg ← as_reg Rq_ val;
        temp ← take_gpr TRq;
        t ← rqM temp;
        r ← rqM reg;
        _ ← emit (BITS op (width_of z) t (OReg r));
        ret (Reg reg, Reg temp)
    end;
  _ ← free_value val;
  push out_val.
Definition int_popcnt (z : Size) : M unit := unop POPCNT z (count_ones (Z.to_nat (size_bits z))).

Section counts.
Context `{HostFeatures}.

(** [leading_zeros] and [trailing_zeros] *)
Definition leading_zeros (z : Size) (x : Z) : Z :=
  let u := wrap_u (size_bits z) x in if u =? 0 then size_bits z else size_bits z - 1 - Z.log2 u.
Definition int_trailing_zeros (z : Size) (x : Z) : Z := trailing (Z.to_nat (size_bits z)) (wrap_u (size_bits z) x).

(** The instructions without [lzcnt]; [s] is a register that they overwrite. *)
Definition emit_bsr (z : Size) (t : Z) (src : operand) (s : Z) : M unit :=
  let w := width_of z in
  _ ← emit (BITS BSR w t src);
  _ ← emit (MOV w (OReg s) (Imm (2 * size_bits z - 1)));
  _ ← emit (CMOV cE w t (OReg s));
  _ ← emit (MOV w (OReg s) (Imm (size_bits z - 1)));
  emit (ALU XOR w (OReg t) (Src (OReg s))).
Definition emit_bsf (z : Size) (t : Z) (src : operand) (s : Z) : M unit :=
  let w := width_of z in
  _ ← emit (BITS BSF w t src);
  _ ← emit (MOV w (OReg s) (Imm (size_bits z)));
  emit (CMOV cE w t (OReg s)).

(** [i32_clz], [i64_clz], [i32_ctz] and [i64_ctz]; the last does not ask for the feature
    when the operand is in a register. *)
Definition bit_count (z : Size) (op : bit_op) (emit_slow : Z → operand → Z → M unit) (const : Z → Z)
    (reg_feature : bool) : M unit :=
  val ← pop;
  '(val, out_val) ← match val with
    | Immediate imm =>
        i ← lift (unwrap (as_of z imm));
        ret (val, Immediate (value_of z (const i)))
    | Stack offset =>
        offset ← adjusted_offset offset;
        temp ← take_gpr TRq;
        t ← rqM temp;
        if (has_lzcnt : bool) then
          _ ← emit (BITS op (width_of z) t (at_rsp offset));
          ret (val, Reg temp)
        else
          temp_2 ← take_gpr TRq;
          s ← rqM temp_2;
          _ ← emit_slow t (at_rsp offset) s;
          _ ← free_value (Reg temp_2);
          ret (val, Reg temp)
    | Reg _ | Cond _ =>
        reg ← as_reg Rq_ val;
        temp ← take_gpr TRq;
        t ← rqM temp;
        r ← rqM reg;
        _ ← (if reg_feature && has_lzcnt then emit (BITS op (width_of z) t (OReg r))
             else emit_slow t (OReg r) r);
        ret (Reg reg, Reg temp)
    end;
  _ ← free_value val;
  push out_val.
Definition int_clz (z : Size) : M unit := bit_count z LZCNT (emit_bsr z) (leading_zeros z) true.
Definition int_ctz (z : Size) : M unit :=
  bit_count z TZCNT (emit_bsf z) (int_trailing_zeros z) match z with _32 => true | _64 => false end.
End counts.

(** ** Conversions *)

Definition i32_extend_u : M unit :=
  val ← pop;
  out ← match val with
    | Immediate imm => i ← lift (unwrap (as_i32 imm)); ret (Immediate (V.I64 (wrap_u 32 i)))
    | _ =>
        new_reg ← take_gpr TRq;
        n ← rqM new_reg;
        _ ← match val with
          | Reg (Rx x) => emit (MOVRX W32 n x)
          | Reg (Rq r) => emit (MOV W32 (OReg n) (Src (OReg r)))
          | Stack offset => offset ← adjusted_offset offset; emit (MOV W32 (OReg n) (Src (at_rsp offset)))
          | Cond _ => copy_value val (CReg new_reg)
          | Immediate _ => lift Panic
          end;
        ret (Reg new_reg)
    end;
  _ ← free_value val;
  push out.
Definition i32_extend_s : M unit :=
  val ← pop;
  _ ← free_value val;
  new_reg ← take_gpr TRq;
  out ← match val with
    | Immediate imm =>
        _ ← release new_reg;
        i ← lift (unwrap (as_i32 imm));
        ret (Immediate (V.I64 i))
    | _ =>
        n ← rqM new_reg;
        _ ← match val with
          | Reg (Rx x) =>
              _ ← emit (MOVRX W32 n x);
              emit (MOVX true W64 n W32 (OReg n))
          | Reg (Rq r) => emit (MOVX true W64 n W32 (OReg r))
          | Stack offset => offset ← adjusted_offset offset; emit (MOVX true W64 n W32 (at_rsp offset))
          | _ => lift Panic
          end;
        ret (Reg new_reg)
    end;
  push out.

(** Methods that only change the type of what is on top, or a constant. *)
Definition retype (f : Value → option Value) : M unit :=
  val ← pop;
  out ← match val with Immediate imm => v ← lift (unwrap (f imm)); ret (Immediate v) | _ => ret val end;
  push out.
Definition i32_wrap_from_i64 : M unit := retype (λ v, x ← as_i64 v; Some (V.I32 (wrap_s 32 x))).
Definition i32_reinterpret_from_f32 : M unit := retype (λ v, x ← as_f32 v; Some (V.I32 (wrap_s 32 x))).
Definition i64_reinterpret_from_f64 : M unit := retype (λ v, x ← as_f64 v; Some (V.I64 (wrap_s 64 x))).
Definition f32_reinterpret_from_i32 : M unit := retype (λ v, x ← as_i32 v; Some (V.F32 (wrap_u 32 x))).
Definition f64_reinterpret_from_i64 : M unit := retype (λ v, x ← as_i64 v; Some (V.F64 (wrap_u 64 x))).

(** ** [select] *)

Definition cmov (cond_code : CondCode) (dst : GPR) (src : CCLoc) : M unit :=
  d ← rqM dst;
  match src with
  | CReg reg => r ← rqM reg; emit (CMOV (x_cond cond_code) W64 d (OReg r))
  | CStack offset => offset ← adjusted_offset offset; emit (CMOV (x_cond cond_code) W64 d (at_rsp offset))
  end.

(** A stack slot, or a register. *)
Definition slot_or_reg (v : ValueLocation) : M CCLoc :=
  match v with Stack o => ret (CStack o) | _ => g ← as_reg Rq_ v; ret (CReg g) end.
(** [num_usages(reg) <= 1] of a location that is a register. *)
Definition single_use (l : CCLoc) : M (option GPR) :=
  match l with CReg g => n ← usages g; ret (if n <=? 1 then Some g else None) | CStack _ => ret None end.

Definition select : M unit :=
  cond ← pop;
  else_ ← pop;
  then_ ← pop;
  match cond with
  | Immediate i =>
      i ← lift (unwrap (as_i32 i));
      if i =? 0 then _ ← free_value then_; push else_
      else _ ← free_value else_; push then_
  | _ =>
      cond_code ← match cond with
        | Cond c => ret c
        | _ =>
            cond_reg ← as_reg Rq_ cond;
            r ← rqM cond_reg;
            _ ← emit (ALU TEST W32 (OReg r) (Src (OReg r)));
            _ ← free_value (Reg cond_reg);
            ret cc.NOT_EQUAL
        end;
      else_ ← slot_or_reg else_;
      then_ ← slot_or_reg then_;
      then_single ← single_use then_;
      out_gpr ← match then_single with
        | Some then_reg =>
            _ ← cmov (CondCode_not cond_code) then_reg else_;
            _ ← free_value (ValueLocation_from else_);
            ret then_reg
        | None =>
            else_single ← single_use else_;
            match else_single with
            | Some else_reg =>
                _ ← cmov cond_code else_reg then_;
                _ ← free_value (ValueLocation_from then_);
                ret else_reg
            | None =>
                out ← take_gpr TRq;
                _ ← copy_value (ValueLocation_from else_) (CReg out);
                _ ← cmov cond_code out then_;
                _ ← free_value (ValueLocation_from then_);
                _ ← free_value (ValueLocation_from else_);
                ret out
            end
        end;
      push (Reg out_gpr)
  end.
