(* ===== verification/LightbeamCalls.v ===== *)
(** * Lightbeam: calls

    Models the calls of functions and of the library in [lightbeam/src/backend.rs].  A
    relocation is recorded with the number of items that had been emitted. *)

From S2P Require Import Prelude Microwasm X64 LightbeamRegs Lightbeam LightbeamOps LightbeamMemory LightbeamBlocks.
Import V(Value) registers.
Local Open Scope Z_scope.

(** ** Arguments and results *)

Definition out_stack_space (out_locs : list CCLoc) : Z :=
  foldr Z.max 0 (omap (λ l, match l with CStack o => if 0 <? o then Some (wrap_u 32 o) else None | CReg _ => None end) out_locs).

(** Values for the locations from the last on. *)
Fixpoint pop_pending (locs : list CCLoc) : M (list (ValueLocation * CCLoc)) :=
  match locs with
  | [] => ret []
  | loc :: locs => val ← pop; rest ← pop_pending locs; ret ((val, loc) :: rest)
  end.

(** One round: what cannot be moved yet, because a register is in use, is returned. *)
Fixpoint pass_round (l : list (ValueLocation * CCLoc)) : M (list (ValueLocation * CCLoc)) :=
  match l with
  | [] => ret []
  | (src, dst) :: l =>
      if decide (src = ValueLocation_from dst) then pass_round l
      else
        blocked ← match dst with
          | CReg r => free ← is_free r; if (free : bool) then _ ← mark_used r; ret false else ret true
          | CStack _ => ret false
          end;
        if (blocked : bool) then rest ← pass_round l; ret ((src, dst) :: rest)
        else
          _ ← copy_value src dst;
          _ ← free_value src;
          pass_round l
  end.

Definition first_source (l : list (ValueLocation * CCLoc)) : option GPR := head (omap (λ p, loc_reg p.1) l).

(** Every round moves a value, or pushes a source, which is then no register. *)
Fixpoint pass_pending (fuel : nat) (pending : list (ValueLocation * CCLoc)) : M unit :=
  match fuel, pending with
  | _, [] => ret tt
  | O, _ => lift Panic
  | S fuel, _ =>
      next ← pass_round pending;
      if (length next =? length pending)%nat then
        src ← lift (unwrap (first_source next));
        new_src ← push_physical (Reg src);
        pass_pending fuel (map (λ p, if decide (p.1 = Reg src) then (new_src, p.2) else p) next)
      else pass_pending fuel next
  end.

(** The turns that [pass_pending] may still take. *)
Definition pending_turns (l : list (ValueLocation * CCLoc)) : nat := (length l + length (omap (λ p, loc_reg p.1) l))%nat.

Lemma M_bind_Ret {A B} (f : M A) (g : A → M B) s r :
  (f ≫= g) s = Ret r → ∃ s1 a, f s = Ret (s1, a) ∧ g a s1 = Ret r.
Proof. unfold mbind, M_bind. destruct (f s) as [[s1 a]|]; [|done]. intros E. by exists s1, a. Qed.

Lemma M_bind_ext {A B} (f : M A) (g g' : A → M B) s :
  (∀ s1 a, f s = Ret (s1, a) → g a s1 = g' a s1) → (f ≫= g) s = (f ≫= g') s.
Proof. intros Hg. unfold mbind, M_bind. destruct (f s) as [[s1 a]|] eqn:E; [by apply Hg|done]. Qed.

Lemma pass_round_sublist l s s' next : pass_round l s = Ret (s', next) → next `sublist_of` l.
Proof.
  revert s s' next. induction l as [|[src dst] l IH]; intros s s' next E; cbn [pass_round] in E; [by injection E as _ <-|].
  case_decide; [by constructor; eapply IH|]. apply M_bind_Ret in E as (s1 & [] & _ & E).
  - apply M_bind_Ret in E as (s2 & rest & E & [= _ <-]). constructor. by eapply IH.
  - apply M_bind_Ret in E as (s2 & [] & _ & E). apply M_bind_Ret in E as (s3 & [] & _ & E). constructor. by eapply IH.
Qed.
Lemma push_physical_slot v s s' x : push_physical v s = Ret (s', x) → ∃ o, x = Stack o.
Proof.
  unfold push_physical. intros E. do 3 (apply M_bind_Ret in E as (? & ? & _ & E)).
  do 2 (apply M_bind_Ret in E as (? & ? & _ & E)). injection E as _ <-. by eexists.
Qed.
Lemma sources_sublist (l l' : list (ValueLocation * CCLoc)) :
  l `sublist_of` l' → (length (omap (λ p, loc_reg p.1) l) ≤ length (omap (λ p, loc_reg p.1) l'))%nat.
Proof. induction 1 as [|[v d] l l' _ IH|[v d] l l' _ IH]; cbn; [done|destruct (loc_reg v); cbn; lia..]. Qed.
Lemma pending_turns_pushed l src o :
  first_source l = Some src →
  (pending_turns (map (λ p, if decide (p.1 = Reg src) then (Stack o, p.2) else p) l) < pending_turns l)%nat.
Proof.
  unfold pending_turns, first_source. rewrite length_map. intros E. apply Nat.add_lt_mono_l.
  assert (∀ l : list (ValueLocation * CCLoc),
    (length (omap (λ p, loc_reg p.1) (map (λ p, if decide (p.1 = Reg src) then (Stack o, p.2) else p) l)) ≤
     length (omap (λ p, loc_reg p.1) l))%nat) as Hle.
  { intros k. induction k as [|[v d] k IH]; [done|]. cbn. case_decide; cbn; destruct (loc_reg v); cbn; lia. }
  induction l as [|[v d] l IH]; [done|]. cbn in *. specialize (Hle l). destruct v; cbn in *; [|auto..].
  injection E as ->. rewrite decide_True by done. cbn. lia.
Qed.

(** The turns of the loop are bounded, so that it ends with this fuel or with any more. *)
Lemma pass_pending_ends n k : ∀ pending s, (pending_turns pending ≤ n)%nat →
  pass_pending (n + k) pending s = pass_pending n pending s.
Proof.
  induction n as [|n IH]; intros [|e l] s Hn; [by destruct k|unfold pending_turns in Hn; cbn in Hn; lia|done|].
  cbn [Nat.add pass_pending]. apply M_bind_ext. intros s1 next Er.
  pose proof (pass_round_sublist _ _ _ _ Er) as Hs. pose proof (sources_sublist _ _ Hs). pose proof (sublist_length _ _ Hs).
  destruct (Nat.eqb_spec (length next) (length (e :: l))) as [El|El].
  - apply M_bind_ext. intros s2 src Ef. apply M_bind_ext. intros s3 v Ep. apply push_physical_slot in Ep as [o ->].
    apply IH. assert (first_source next = Some src) as Ef' by (destruct (first_source next); [by injection Ef as _ <-|done]).
    pose proof (pending_turns_pushed next src o Ef'). unfold pending_turns in *. lia.
  - apply IH. unfold pending_turns in *. lia.
Qed.

Definition pass_outgoing_args (out_locs : list CCLoc) : M unit :=
  b ← get_bs;
  depth ← lift (op_add 32 (bs_depth b) (out_stack_space out_locs));
  depth ← (if negb (Z.land depth 1 =? 0) then
      d ← lift (op_add 32 (bs_depth b) 1);
      _ ← set_stack_depth d;
      lift (op_add 32 depth 1)
    else ret depth);
  pending ← pop_pending (rev out_locs);
  _ ← pass_pending (S (2 * length pending)) pending;
  set_stack_depth depth.

Definition free_locs (locs : list CCLoc) : M unit := iterM (λ l, free_value (ValueLocation_from l)) locs.

Definition push_function_returns (returns : list SignlessType) : M unit :=
  locs ← lift (ret_locs returns);
  iterM (λ loc,
    _ ← match loc with CReg reg => mark_used reg | CStack _ => ret tt end;
    push (ValueLocation_from loc)) locs.

(** ** Calls through relocations *)

Definition push_vmctx : M unit := _ ← emit (PUSH (OReg VMCTX)); depth_reserve 1.
Definition pop_vmctx (depth : Z) : M unit :=
  _ ← set_stack_depth depth;
  _ ← emit (POP VMCTX);
  depth_free 1.
Definition get_depth : M Z := b ← get_bs; ret (bs_depth b).

Definition reloc_external (name : RelocName) : M unit := λ s,
  Ret (mkCtx (code s) (labels s) (next_label s) (relocs s ++ [(zlen (code s), name)]) (func_starts s) (block_state s), tt).

Definition relocated_function_call (name : RelocName) (args rets : list SignlessType) (preserve_vmctx : bool) : M unit :=
  locs ← lift (arg_locs args);
  _ ← save_volatile;
  _ ← (if preserve_vmctx then push_vmctx else ret tt);
  depth ← get_depth;
  _ ← pass_outgoing_args locs;
  _ ← reloc_external name;
  temp ← take_gpr TRq;
  t ← rqM temp;
  _ ← emit (MOV W64 (OReg t) (Imm (wrap_s 64 0xdeadbeefdeadbeef)));
  _ ← emit (CALL (OReg t));
  _ ← release temp;
  _ ← free_locs locs;
  _ ← push_function_returns rets;
  if preserve_vmctx then pop_vmctx depth else ret tt.

Module magic.
Definition get_memory32_grow_name : RelocName := UserName 1 0.
Definition get_imported_memory32_grow_name : RelocName := UserName 1 1.
Definition get_memory32_size_name : RelocName := UserName 1 2.
Definition get_imported_memory32_size_name : RelocName := UserName 1 3.
End magic.

Definition call_direct (index : Z) (arg_types return_types : list SignlessType) : M unit :=
  relocated_function_call (UserName 0 index) arg_types return_types false.

Definition call_direct_self (defined_index : Z) (arg_types return_types : list SignlessType) : M unit :=
  locs ← lift (arg_locs arg_types);
  _ ← save_volatile;
  label ← (λ s, l ← zindex (func_starts s) defined_index; Ret (s, l));
  _ ← pass_outgoing_args locs;
  _ ← emit (CALLL label);
  _ ← free_locs locs;
  push_function_returns return_types.

Section calls.
Context `{ModuleOffsets}.

Definition memory_size : M unit :=
  match defined_memory_index 0 with
  | Some i =>
      _ ← push (Immediate (V.I32 (wrap_s 32 i)));
      relocated_function_call magic.get_memory32_size_name [TInt _32] [TInt _32] true
  | None =>
      _ ← push (Immediate (V.I32 0));
      relocated_function_call magic.get_imported_memory32_size_name [TInt _32] [TInt _32] true
  end.
Definition memory_grow : M unit :=
  match defined_memory_index 0 with
  | Some i =>
      _ ← push (Immediate (V.I32 (wrap_s 32 i)));
      relocated_function_call magic.get_memory32_grow_name [TInt _32; TInt _32] [TInt _32] true
  | None =>
      _ ← push (Immediate (V.I32 0));
      relocated_function_call magic.get_imported_memory32_grow_name [TInt _32; TInt _32] [TInt _32] true
  end.

Definition call_direct_imported (index : Z) (arg_types return_types : list SignlessType) : M unit :=
  locs ← lift (arg_locs arg_types);
  _ ← push_vmctx;
  depth ← get_depth;
  _ ← save_volatile;
  _ ← pass_outgoing_args locs;
  callee ← take_gpr TRq;
  c ← rqM callee;
  body ← lift (vmctx_vmfunction_import_body index);
  vmctx ← lift (vmctx_vmfunction_import_vmctx index);
  _ ← emit (MOV W64 (OReg c) (Src (at_vmctx body)));
  _ ← emit (MOV W64 (OReg VMCTX) (Src (at_vmctx vmctx)));
  _ ← emit (CALL (OReg c));
  _ ← release callee;
  _ ← free_locs locs;
  _ ← push_function_returns return_types;
  pop_vmctx depth.

(** ** Indirect calls *)

(** [reg] and [offset]: the definition of table 0. *)
Definition table_at : M (option GPR * Z) :=
  definition_of (defined_table_index 0) vmctx_vmtable_definition (vmctx_vmtable_import_from 0).

(** The check of the signature of the element at [t0] and [c]; [temp1] is returned. *)
Definition check_signature (type_id fail t0 c : Z) : M GPR :=
  temp1 ← take_gpr TRq;
  t1 ← rqM temp1;
  id ← lift (vmctx_vmshared_signature_id type_id);
  _ ← emit (MOV W32 (OReg t1) (Src (at_vmctx id)));
  ty ← lift vmcaller_checked_anyfunc_type_index;
  _ ← emit (ALU CMP W32 (OMem (Addr t0 (Some c) ty)) (Src (OReg t1)));
  _ ← emit (JCC cNE fail);
  ret temp1.
(** The checks of the index and of the signature; [temp0] and [temp1] are returned, the
    first with the address of the table, and the index becomes the offset in it. *)
Definition check_element (type_id : Z) (callee_reg : GPR) : M (GPR * GPR) :=
  fail ← trap_label;
  '(reg, offset) ← table_at;
  temp0 ← take_gpr TRq;
  t0 ← rqM temp0;
  c ← rqM callee_reg;
  elements ← field_of reg offset vmtable_definition_current_elements;
  _ ← emit (ALU CMP W32 (OReg c) (Src (OMem elements)));
  _ ← emit (JCC cAE fail);
  size ← lift size_of_vmcaller_checked_anyfunc;
  _ ← emit (IMUL3 W32 c (OReg c) size);
  base ← field_of reg offset vmtable_definition_base;
  _ ← emit (MOV W64 (OReg t0) (Src (OMem base)));
  _ ← release_opt reg;
  temp1 ← check_signature type_id fail t0 c;
  ret (temp0, temp1).
(** The checks and the call. *)
Definition call_element (type_id : Z) (callee_reg : GPR) : M unit :=
  '(temp0, temp1) ← check_element type_id callee_reg;
  t0 ← rqM temp0;
  c ← rqM callee_reg;
  ctx_ ← lift vmcaller_checked_anyfunc_vmctx;
  _ ← emit (MOV W64 (OReg VMCTX) (Src (OMem (Addr t0 (Some c) ctx_))));
  ptr ← lift vmcaller_checked_anyfunc_func_ptr;
  _ ← emit (CALL (OMem (Addr t0 (Some c) ptr)));
  _ ← release temp0;
  release temp1.

Definition reg_locs (locs : list CCLoc) : list GPR :=
  omap (λ l, match l with CReg r => Some r | CStack _ => None end) locs.

Definition call_indirect (type_id : Z) (arg_types return_types : list SignlessType) : M unit :=
  locs ← lift (arg_locs arg_types);
  _ ← iterM mark_used (reg_locs locs);
  callee ← pop;
  callee_reg ← as_temp Rq_ callee;
  _ ← iterM release (reg_locs locs);
  _ ← save_volatile;
  _ ← push_vmctx;
  depth ← get_depth;
  _ ← pass_outgoing_args locs;
  _ ← call_element type_id callee_reg;
  _ ← free_value (Reg callee_reg);
  _ ← free_locs locs;
  _ ← push_function_returns return_types;
  pop_vmctx depth.
End calls.
