(* ===== verification/LightbeamFloats.v ===== *)
(** * Lightbeam: floating point operators

    Models the operators on floats of [lightbeam/src/backend.rs].  Both sizes have the
    same code but for the names of the instructions.  A local label of the assembler is
    a fresh label. *)

From S2P Require Import Prelude Microwasm HostFloats X64 LightbeamRegs Lightbeam LightbeamOps LightbeamMemory LightbeamBlocks LightbeamCalls.
Import V(Value) registers.
Local Open Scope Z_scope.

(** ** Sizes of floats *)

Definition imm_float (z : Size) (v : ValueLocation) : option Z := match z with _32 => imm_f32 v | _64 => imm_f64 v end.
Definition as_float (z : Size) (v : Value) : option Z := match z with _32 => as_f32 v | _64 => as_f64 v end.
Definition float_value (z : Size) (x : Z) : Value := match z with _32 => V.F32 x | _64 => V.F64 x end.
Definition fsize_of (z : Size) : fsize := match z with _32 => SS | _64 => SD end.
(** A constant of the assembler, of the size of a float. *)
Definition float_label (z : Size) (bits : Z) : LabelValue :=
  match z with _32 => LV_I32 (wrap_s 32 bits) | _64 => LV_I64 (wrap_s 64 bits) end.

Definition SIGN_MASK (z : Size) : Z := 2 ^ (size_bits z - 1).
Definition REST_MASK (z : Size) : Z := 2 ^ (size_bits z - 1) - 1.

Definition label_at (align : Z) (v : LabelValue) : M address := l ← aligned_label align (KValue v); ret (AtLabel l).

Section floats.
Context `{HostFloat}.

(** ** Arithmetic *)

(** [binop_f32!] and [binop_f64!]; constants of floats are never direct operands. *)
Definition float_kind (op : fsize → float_op) (z : Size) : binop_kind :=
  let op := op (fsize_of z) in
  mkBinopKind TRx (imm_float z) (float_value z) rxM
    (λ l r, FLOAT op l (XReg r))
    (λ l off, FLOAT op l (XMem (slot_at off)))
    (λ _ _, lift Panic).
Definition fadd (z : Size) : M unit := binop (float_kind FADD z) (float_add z) map_commutative.
Definition fmul (z : Size) : M unit := binop (float_kind FMUL z) (float_mul z) map_commutative.
Definition fsub (z : Size) : M unit := binop (float_kind FSUB z) (float_sub z) map_id.
Definition fdiv (z : Size) : M unit := binop (float_kind FDIV z) (float_div z) map_id.

(** The shape of [f32_neg], [f32_abs] and [f32_sqrt]. *)
Definition float_unop (z : Size) (const : Z → Z) (instr : Z → M instr) : M unit :=
  val ← pop;
  out ← match imm_float z val with
    | Some i => ret (Immediate (float_value z (const i)))
    | None =>
        reg ← as_temp Rx_ val;
        r ← rxM reg;
        i ← instr r;
        _ ← emit i;
        ret (Reg reg)
    end;
  push out.
Definition fneg (z : Size) : M unit := float_unop z (float_neg z) (λ r,
  mask ← label_at 16 (float_label z (SIGN_MASK z)); ret (FLOAT XORP r (XMem mask))).
Definition fabs (z : Size) : M unit := float_unop z (float_abs z) (λ r,
  mask ← label_at 16 (float_label z (REST_MASK z)); ret (FLOAT ANDP r (XMem mask))).
Definition fsqrt (z : Size) : M unit := float_unop z (float_sqrt z) (λ r,
  ret (FLOAT (FSQRT (fsize_of z)) r (XReg r))).

Definition fcopysign (z : Size) : M unit :=
  rhs ← pop;
  lhs ← pop;
  out ← match imm_float z lhs, imm_float z rhs with
    | Some a, Some b =>
        ret (Immediate (float_value z (Z.lor (Z.land a (REST_MASK z)) (Z.land b (SIGN_MASK z)))))
    | _, _ =>
        lreg ← as_temp Rx_ lhs;
        rreg ← as_reg Rx_ rhs;
        sign_mask ← label_at 16 (float_label z (SIGN_MASK z));
        rest_mask ← label_at 16 (float_label z (REST_MASK z));
        l ← rxM lreg;
        r ← rxM rreg;
        _ ← emit (FLOAT ANDP r (XMem sign_mask));
        _ ← emit (FLOAT ANDP l (XMem rest_mask));
        _ ← emit (FLOAT ORP l (XReg r));
        _ ← free_value (Reg rreg);
        ret (Reg lreg)
    end;
  push out.

(** The first operand, when it is a register that nothing else uses, and otherwise the
    second first. *)
Definition float_operands (lhs rhs : ValueLocation) : M (ValueLocation * ValueLocation) :=
  match lhs with
  | Reg r => n ← usages r; ret (if n <=? 1 then (lhs, rhs) else (rhs, lhs))
  | _ => ret (rhs, lhs)
  end.

(** [minmax_float!] *)
Definition minmax_float (z : Size) (instr : fsize → float_op) (combine : float_op) (const : Z → Z → Z) : M unit :=
  rhs ← pop;
  lhs ← pop;
  match immediate rhs, immediate lhs with
  | Some b, Some a =>
      a ← lift (unwrap (as_float z a));
      b ← lift (unwrap (as_float z b));
      push (Immediate (float_value z (const a b)))
  | _, _ =>
      '(lhs, rhs) ← float_operands lhs rhs;
      lreg ← as_temp Rx_ lhs;
      rreg ← as_reg Rx_ rhs;
      l ← rxM lreg;
      r ← rxM rreg;
      equal ← create_label;
      ret_ ← create_label;
      equal_but_not_parity ← create_label;
      _ ← emit (COMIS (fsize_of z) l (XReg r));
      _ ← emit (JCC cE equal);
      _ ← emit (FLOAT (instr (fsize_of z)) l (XReg r));
      _ ← emit (JMP ret_);
      _ ← define_label equal;
      _ ← emit (JCC cNP equal_but_not_parity);
      _ ← emit (FLOAT (FADD (fsize_of z)) l (XReg r));
      _ ← emit (JMP ret_);
      _ ← define_label equal_but_not_parity;
      _ ← emit (FLOAT combine l (XReg r));
      _ ← define_label ret_;
      _ ← push (Reg lreg);
      free_value (Reg rreg)
  end.
Definition fmin (z : Size) : M unit := minmax_float z FMIN ORP (float_min z).
Definition fmax (z : Size) : M unit := minmax_float z FMAX ANDP (float_max z).

(** ** Comparisons *)

(** [eq_float!] *)
Definition eq_float (z : Size) (instr : fsize → float_op) (const : Z → Z → bool) : M unit :=
  rhs ← pop;
  lhs ← pop;
  match immediate rhs, immediate lhs with
  | Some b, Some a =>
      a ← lift (unwrap (as_float z a));
      b ← lift (unwrap (as_float z b));
      push (bool_i32 (const a b))
  | _, _ =>
      '(lhs, rhs) ← float_operands lhs rhs;
      lreg ← as_temp Rx_ lhs;
      rreg ← as_reg Rx_ rhs;
      out ← take_gpr TRq;
      l ← rxM lreg;
      r ← rxM rreg;
      o ← rqM out;
      _ ← emit (FLOAT (instr (fsize_of z)) l (XReg r));
      _ ← emit (MOVRX W32 o l);
      _ ← emit (ALU AND W32 (OReg o) (Imm 1));
      _ ← push (Reg out);
      _ ← free_value (Reg lreg);
      free_value (Reg rreg)
  end.
Definition feq (z : Size) : M unit := eq_float z FCMPEQ (float_eqb z).
Definition fne (z : Size) : M unit := eq_float z FCMPNEQ (λ a b, negb (float_eqb z a b)).

(** The helper of [cmp_float!]; it returns the operands and the result. *)
Definition cmp_float_helper (z : Size) (set : cond) (const : Z → Z → bool) (lhs rhs : ValueLocation)
    : M (ValueLocation * ValueLocation * ValueLocation) :=
  match imm_float z lhs, imm_float z rhs with
  | Some a, Some b => ret (lhs, rhs, bool_i32 (const a b))
  | _, _ =>
      lreg ← as_reg Rx_ lhs;
      result ← take_gpr TRq;
      l ← rxM lreg;
      o ← rqM result;
      rhs ← match rhs with
        | Stack offset =>
            offset ← adjusted_offset offset;
            _ ← emit (ALU XOR W64 (OReg o) (Src (OReg o)));
            _ ← emit (COMIS (fsize_of z) l (XMem (slot_at offset)));
            _ ← emit (SETCC set (OReg o));
            ret rhs
        | _ =>
            rreg ← as_reg Rx_ rhs;
            r ← rxM rreg;
            _ ← emit (ALU XOR W64 (OReg o) (Src (OReg o)));
            _ ← emit (COMIS (fsize_of z) l (XReg r));
            _ ← emit (SETCC set (OReg o));
            ret (Reg rreg)
        end;
      ret (Reg lreg, rhs, Reg result)
  end.
Definition cmp_float (z : Size) (set : cond) (const : Z → Z → bool) : M unit :=
  rhs ← pop;
  lhs ← pop;
  '(lhs, rhs, out) ← cmp_float_helper z set const lhs rhs;
  _ ← free_value lhs;
  _ ← free_value rhs;
  push out.
Definition cmp_float_reverse (z : Size) (set : cond) (const : Z → Z → bool) : M unit :=
  rhs ← pop;
  lhs ← pop;
  '(rhs, lhs, out) ← cmp_float_helper z set const rhs lhs;
  _ ← free_value lhs;
  _ ← free_value rhs;
  push out.
Definition fgt (z : Size) : M unit := cmp_float z cA (λ a b, float_ltb z b a).
Definition flt (z : Size) : M unit := cmp_float_reverse z cA (λ a b, float_ltb z b a).
Definition fge (z : Size) : M unit := cmp_float z cAE (λ a b, float_leb z b a).
Definition fle (z : Size) : M unit := cmp_float_reverse z cAE (λ a b, float_leb z b a).

(** ** Rounding, by the library *)

Definition rounding (name32 name64 : string) (z : Size) : M unit :=
  relocated_function_call (LibCallName match z with _32 => name32 | _64 => name64 end) [TFloat z] [TFloat z] true.
Definition fceil (z : Size) : M unit := rounding "CeilF32" "CeilF64" z.
Definition ffloor (z : Size) : M unit := rounding "FloorF32" "FloorF64" z.
Definition fnearest (z : Size) : M unit := rounding "NearestF32" "NearestF64" z.
Definition ftrunc (z : Size) : M unit := rounding "TruncF32" "TruncF64" z.
End floats.
