(* ===== verification/LightbeamConversions.v ===== *)
(** * Lightbeam: conversions between floats and integers

    Models the conversions of [lightbeam/src/backend.rs] in which a float takes part. *)

From S2P Require Import Prelude Microwasm HostFloats X64 LightbeamRegs Lightbeam LightbeamOps LightbeamBlocks LightbeamFloats.
Import V(Value) registers.
Local Open Scope Z_scope.

(** The width that the assembler gives to an operand in memory that is written without
    one, when the other operand does not have it. *)
Class Assembler := default_width : width.

Section conversions.
Context `{HostFloat, Assembler}.

(** ** [conversion!] *)

(** The parameters of the macro: the registers of the operand and of the result, the
    constants, and the instruction with a stack slot or a register. *)
Record conversion_kind := mkConversionKind {
  ck_in : GPRType;
  ck_out : GPRType;
  ck_in_reg : GPR → M Z;
  ck_out_reg : GPR → M Z;
  ck_const : Value → option Value;
  ck_slot : Z → Z → instr;
  ck_reg : Z → Z → instr;
}.
Definition conversion (k : conversion_kind) : M unit :=
  val ← pop;
  '(val, out_val) ← match val with
    | Immediate imm => v ← lift (unwrap (ck_const k imm)); ret (val, Immediate v)
    | Stack offset =>
        offset ← adjusted_offset offset;
        temp ← take_gpr (ck_out k);
        t ← ck_out_reg k temp;
        _ ← emit (ck_slot k t offset);
        ret (val, Reg temp)
    | Reg _ | Cond _ =>
        reg ← as_reg (Some (ck_in k)) val;
        temp ← take_gpr (ck_out k);
        t ← ck_out_reg k temp;
        r ← ck_in_reg k reg;
        _ ← emit (ck_reg k t r);
        ret (Reg reg, Reg temp)
    end;
  _ ← free_value val;
  push out_val.

Definition f64_from_f32 : M unit := conversion (mkConversionKind TRx TRx rxM rxM
  (λ v, a ← as_f32 v; Some (V.F64 (float_cast _32 _64 a)))
  (λ t off, FLOAT CVTSS2SD t (XMem (slot_at off))) (λ t r, FLOAT CVTSS2SD t (XReg r))).
Definition f32_from_f64 : M unit := conversion (mkConversionKind TRx TRx rxM rxM
  (λ v, a ← as_f64 v; Some (V.F32 (float_cast _64 _32 a)))
  (λ t off, FLOAT CVTSD2SS t (XMem (slot_at off))) (λ t r, FLOAT CVTSD2SS t (XReg r))).
(** [f32_convert_from_i32_s] and the like *)
Definition float_convert_s (zi z : Size) : M unit := conversion (mkConversionKind TRq TRx rqM rxM
  (λ v, a ← as_of zi v; Some (float_value z (float_of_int z a)))
  (λ t off, CVTSI2 (fsize_of z) t default_width (at_rsp off))
  (λ t r, CVTSI2 (fsize_of z) t (width_of zi) (OReg r))).

(** ** Unsigned integers to floats *)

Definition float_convert_i32_u (z : Size) : M unit :=
  val ← pop;
  '(val, out_val) ← match val with
    | Immediate imm =>
        a ← lift (unwrap (as_i32 imm));
        ret (val, Immediate (float_value z (float_of_int z (wrap_u 32 a))))
    | _ =>
        reg ← as_reg Rq_ val;
        temp ← take_gpr TRx;
        r ← rqM reg;
        t ← rxM temp;
        _ ← emit (MOV W32 (OReg r) (Src (OReg r)));
        _ ← emit (CVTSI2 (fsize_of z) t W64 (OReg r));
        ret (Reg reg, Reg temp)
    end;
  _ ← free_value val;
  push out_val.

(** A number with the highest bit set is halved, with its last bit kept for rounding,
    and the result doubled. *)
Definition float_convert_i64_u (z : Size) : M unit :=
  val ← pop;
  '(val, out_val) ← match val with
    | Immediate imm =>
        a ← lift (unwrap (as_i64 imm));
        ret (val, Immediate (float_value z (float_of_int z (wrap_u 64 a))))
    | _ =>
        reg ← as_reg Rq_ val;
        out ← take_gpr TRx;
        temp ← take_gpr TRq;
        r ← rqM reg;
        o ← rxM out;
        t ← rqM temp;
        negative ← create_label;
        ret_ ← create_label;
        _ ← emit (ALU TEST W64 (OReg r) (Src (OReg r)));
        _ ← emit (JCC cS negative);
        _ ← emit (CVTSI2 (fsize_of z) o W64 (OReg r));
        _ ← emit (JMP ret_);
        _ ← define_label negative;
        _ ← emit (MOV W64 (OReg t) (Src (OReg r)));
        _ ← emit (SHIFT SHR W64 t (Some 1));
        _ ← emit (ALU AND W64 (OReg r) (Imm 1));
        _ ← emit (ALU OR W64 (OReg r) (Src (OReg t)));
        _ ← emit (CVTSI2 (fsize_of z) o W64 (OReg r));
        _ ← emit (FLOAT (FADD (fsize_of z)) o (XReg o));
        _ ← define_label ret_;
        _ ← free_value (Reg temp);
        ret (Reg reg, Reg out)
    end;
  _ ← free_value val;
  push out_val.
Definition float_convert_u (zi z : Size) : M unit :=
  match zi with _32 => float_convert_i32_u z | _64 => float_convert_i64_u z end.

(** ** Floats to integers *)

(** The shape of the eight methods: the constant, whether the operand has to be a
    temporary register, and the code between the registers. *)
Definition truncate_with (z zi : Size) (const : Z → Z) (temporary : bool) (gen : Z → Z → M unit) : M unit :=
  val ← pop;
  '(val, out_val) ← match val with
    | Immediate imm =>
        a ← lift (unwrap (as_float z imm));
        ret (val, Immediate (value_of zi (wrap_s (size_bits zi) (const a))))
    | _ =>
        reg ← (if temporary then as_temp Rx_ val else as_reg Rx_ val);
        temp ← take_gpr TRq;
        r ← rxM reg;
        t ← rqM temp;
        _ ← gen r t;
        ret (Reg reg, Reg temp)
    end;
  _ ← free_value val;
  push out_val.

(** The processor returns the least integer when the result does not fit: then the
    operand is compared with the bound, and is below zero when the result is right. *)
Definition truncate_signed (z zi : Size) (sign_mask_align bound : Z) (zero : LabelValue) (out_of_range : cond)
    (r t : Z) : M unit :=
  let s := fsize_of z in
  sign_mask ← label_at sign_mask_align (float_label zi (SIGN_MASK zi));
  float_cmp_mask ← label_at 16 (float_label z bound);
  zero ← label_at 16 zero;
  fail ← trap_label;
  ret_ ← create_label;
  _ ← emit (CVTT2SI s (width_of zi) t r);
  _ ← emit (ALU CMP (width_of zi) (OReg t) (Src (OMem sign_mask)));
  _ ← emit (JCC cNE ret_);
  _ ← emit (COMIS s r (XReg r));
  _ ← emit (JCC cP fail);
  _ ← emit (COMIS s r (XMem float_cmp_mask));
  _ ← emit (JCC out_of_range fail);
  _ ← emit (COMIS s r (XMem zero));
  _ ← emit (JCC cAE fail);
  define_label ret_.

(** From half of the range on, half of it is taken off first. *)
Definition truncate_unsigned (z zi : Size) (sign_mask_align bound : Z) (r t : Z) : M unit :=
  let s := fsize_of z in let w := width_of zi in
  sign_mask ← label_at sign_mask_align (float_label zi (SIGN_MASK zi));
  float_cmp_mask ← label_at 16 (float_label z bound);
  fail ← trap_label;
  else_ ← create_label;
  ret_ ← create_label;
  _ ← emit (COMIS s r (XMem float_cmp_mask));
  _ ← emit (JCC cAE else_);
  _ ← emit (JCC cP fail);
  _ ← emit (CVTT2SI s w t r);
  _ ← emit (ALU TEST w (OReg t) (Src (OReg t)));
  _ ← emit (JCC cS fail);
  _ ← emit (JMP ret_);
  _ ← define_label else_;
  _ ← emit (FLOAT (FSUB s) r (XMem float_cmp_mask));
  _ ← emit (CVTT2SI s w t r);
  _ ← emit (ALU TEST w (OReg t) (Src (OReg t)));
  _ ← emit (JCC cS fail);
  _ ← emit (ALU ADD W64 (OReg t) (Src (OMem sign_mask)));
  define_label ret_.

Definition i32_truncate_f32_s : M unit :=
  truncate_with _32 _32 (int_of_float true 32 _32) false (truncate_signed _32 _32 4 0xcf000000 (LV_I32 0) cB).
(** The constant is converted with a sign. *)
Definition i32_truncate_f32_u : M unit :=
  truncate_with _32 _32 (int_of_float true 32 _32) true (truncate_unsigned _32 _32 4 0x4f000000).
Definition i32_truncate_f64_s : M unit :=
  truncate_with _64 _32 (int_of_float true 32 _64) false (truncate_signed _64 _32 4 0xc1e0000000200000 (LV_I64 0) cBE).
Definition i32_truncate_f64_u : M unit :=
  truncate_with _64 _32 (int_of_float false 32 _64) true (truncate_unsigned _64 _32 4 0x41e0000000000000).
Definition i64_truncate_f32_s : M unit :=
  truncate_with _32 _64 (int_of_float true 64 _32) true (truncate_signed _32 _64 16 0xdf000000 (LV_I64 0) cB).
Definition i64_truncate_f64_s : M unit :=
  truncate_with _64 _64 (int_of_float true 64 _64) false (truncate_signed _64 _64 8 0xc3e0000000000000 (LV_I64 0) cB).
Definition i64_truncate_f32_u : M unit :=
  truncate_with _32 _64 (int_of_float false 64 _32) false (truncate_unsigned _32 _64 16 0x5f000000).
Definition i64_truncate_f64_u : M unit :=
  truncate_with _64 _64 (int_of_float false 64 _64) false (λ r t,
    sign_mask ← label_at 16 (float_label _64 (SIGN_MASK _64));
    bound ← label_at 16 (float_label _64 0x43e0000000000000);
    fail ← trap_label;
    large ← create_label;
    cont ← create_label;
    _ ← emit (COMIS SD r (XMem bound));
    _ ← emit (JCC cAE large);
    _ ← emit (JCC cP fail);
    _ ← emit (CVTT2SI SD W64 t r);
    _ ← emit (ALU CMP W64 (OReg t) (Imm 0));
    _ ← emit (JCC cGE cont);
    _ ← emit (JMP fail);
    _ ← define_label large;
    _ ← emit (FLOAT (FSUB SD) r (XMem bound));
    _ ← emit (CVTT2SI SD W64 t r);
    _ ← emit (ALU CMP W64 (OReg t) (Imm 0));
    _ ← emit (JCC cL fail);
    _ ← emit (ALU ADD W64 (OReg t) (Src (OMem sign_mask)));
    define_label cont).

(** The operator [ITruncFromF]. *)
Definition truncate (z : Size) (out : SignfulInt) : M unit :=
  match z, out with
  | _32, mkSignfulInt Signed _32 => i32_truncate_f32_s
  | _32, mkSignfulInt Unsigned _32 => i32_truncate_f32_u
  | _64, mkSignfulInt Signed _32 => i32_truncate_f64_s
  | _64, mkSignfulInt Unsigned _32 => i32_truncate_f64_u
  | _32, mkSignfulInt Signed _64 => i64_truncate_f32_s
  | _32, mkSignfulInt Unsigned _64 => i64_truncate_f32_u
  | _64, mkSignfulInt Signed _64 => i64_truncate_f64_s
  | _64, mkSignfulInt Unsigned _64 => i64_truncate_f64_u
  end.
End conversions.
