(* ===== verification/LightbeamTranslate.v ===== *)
(** * Lightbeam: translation of a function

    Models [translate] of [lightbeam/src/function_body.rs]: the loop over the Microwasm
    operators of a function, with the blocks that it keeps. *)

From S2P Require Import Prelude Microwasm HostFloats X64 LightbeamRegs Lightbeam LightbeamOps LightbeamMemory LightbeamBlocks.
From S2P Require Import LightbeamInts LightbeamCalls LightbeamFloats LightbeamConversions.
Import V(Value) Op(Operator) registers.
Local Open Scope Z_scope.

(** ** Blocks *)

Record Block := mkBlock {
  blk_label : BrTarget Z;
  blk_cc : option (BlockCallingConvention + VirtualCallingConvention);
  blk_params : Z;
  is_next : bool;
  blk_num_callers : option Z;
  actual_num_callers : Z;
  blk_backwards : bool;
}.

Definition should_serialize_args (b : Block) : bool :=
  bool_decide (blk_cc b = None) && (negb (bool_decide (blk_num_callers b = Some 1)) || blk_backwards b).

Definition set_cc (c : option (BlockCallingConvention + VirtualCallingConvention)) (b : Block) : Block :=
  mkBlock (blk_label b) c (blk_params b) (is_next b) (blk_num_callers b) (actual_num_callers b) (blk_backwards b).
Definition set_next (n : bool) (b : Block) : Block :=
  mkBlock (blk_label b) (blk_cc b) (blk_params b) n (blk_num_callers b) (actual_num_callers b) (blk_backwards b).
(** [actual_num_callers += 1] *)
Definition add_caller (b : Block) : res Block :=
  n ← op_add 32 (actual_num_callers b) 1;
  Ret (mkBlock (blk_label b) (blk_cc b) (blk_params b) (is_next b) (blk_num_callers b) n (blk_backwards b)).

(** What the code generator is given: the module, the machine it runs on, its arithmetic
    of floats and its assembler. *)
Class CodegenEnv := {
  env_types :: ModuleContext;
  env_offsets :: ModuleOffsets;
  env_features :: HostFeatures;
  env_floats :: HostFloat;
  env_assembler :: Assembler;
}.

Section translate.
Context {L : Type} `{!EqDecision L}.

(** ** The [HashMap] of blocks *)

Definition Blocks := list (BrTarget L * Block).
Definition get_block (bs : Blocks) (k : BrTarget L) : option Block :=
  match list_find (λ e, e.1 = k) bs with Some (_, e) => Some e.2 | None => None end.
Definition remove_block (bs : Blocks) (k : BrTarget L) : Blocks := filter (λ e, e.1 ≠ k) bs.
Definition insert_block (bs : Blocks) (k : BrTarget L) (b : Block) : Blocks := (k, b) :: remove_block bs k.

(** The block of [Operator::Block]. *)
Definition new_block (bs : Blocks) (l : L) (params : list SignlessType) (backwards : bool) (callers : option Z)
    : M Blocks :=
  asm_label ← create_label;
  ret (insert_block bs (Label l)
    (mkBlock (Label asm_label) None (wrap_u 32 (zlen params)) false callers 0 backwards)).

(** [drop_elements] of the arguments or of the locations, when there is something to
    drop. *)
Definition drop_args (d : option RangeInclusive) (c : BlockCallingConvention) : res BlockCallingConvention :=
  match d with
  | None => Ret c
  | Some d => l ← drop_elements (arguments c) d; Ret (mkBlockCC (cc_stack_depth c) l)
  end.
Definition drop_stack (d : option RangeInclusive) (c : VirtualCallingConvention) : res VirtualCallingConvention :=
  match d with
  | None => Ret c
  | Some d => l ← drop_elements (vcc_stack c) d; Ret (mkVirtualCC l (vcc_depth c))
  end.

(** ** Branches *)

Definition translate_br (bs : Blocks) (target : BrTarget L) : M Blocks :=
  block ← lift (unwrap (get_block bs target));
  block ← lift (add_caller block);
  match blk_label block, blk_cc block with
  | Label l, _ =>
      block ← (if should_serialize_args block then
          c ← serialize_args (blk_params block); ret (set_cc (Some (inl c)) block)
        else
          _ ← match blk_cc block with Some (inl c) => pass_block_args c | _ => ret tt end;
          ret block);
      _ ← (if is_next block then ret tt else br (Label l));
      ret (insert_block bs target block)
  | Return, Some (inl c) =>
      _ ← pass_block_args c;
      _ ← cg_ret;
      ret (insert_block bs target block)
  | _, _ => lift Panic
  end.

(** One side of a conditional branch when neither has a convention. *)
Definition side_cc (serialize : bool) (c : option BlockCallingConvention) (v : option VirtualCallingConvention)
    (to_drop : option RangeInclusive) : res (option (BlockCallingConvention + VirtualCallingConvention)) :=
  if serialize then c ← unwrap c; c ← drop_args to_drop c; Ret (Some (inl c))
  else v ← unwrap v; v ← drop_stack to_drop v; Ret (Some (inr v)).

(** The closure [f] of [BrIf]; it returns the two blocks. *)
Definition pass_br_if (then_ else_ : Block) (then_drop else_drop : option RangeInclusive) : M (Block * Block) :=
  let ts := should_serialize_args then_ in
  let es := should_serialize_args else_ in
  let max_params := Z.max (blk_params then_) (blk_params else_) in
  match blk_cc then_, blk_cc else_ with
  | Some (inl c), None =>
      c ← serialize_block_args c max_params;
      c ← lift (drop_args else_drop c);
      ret (then_, set_cc (Some (inl c)) else_)
  | None, Some (inl c) =>
      c ← serialize_block_args c max_params;
      c ← lift (drop_args then_drop c);
      ret (set_cc (Some (inl c)) then_, else_)
  | None, None =>
      v ← (if negb ts || negb es then v ← virtual_calling_convention; ret (Some v) else ret None);
      c ← (if ts || es then c ← serialize_args max_params; ret (Some c) else ret None);
      then_cc ← lift (side_cc ts c v then_drop);
      else_cc ← lift (side_cc es c v else_drop);
      ret (set_cc then_cc then_, set_cc else_cc else_)
  | _, _ => lift Panic
  end.

(** [pair_mut] panics when the keys are the same. *)
Definition translate_br_if (bs : Blocks) (then_ else_ : BrTargetDrop L) : M Blocks :=
  _ ← lift (rassert (negb (bool_decide (target then_ = target else_))));
  then_block ← lift (unwrap (get_block bs (target then_)));
  else_block ← lift (unwrap (get_block bs (target else_)));
  then_block ← lift (add_caller then_block);
  else_block ← lift (add_caller else_block);
  let f := pass_br_if then_block else_block (to_drop then_) (to_drop else_) in
  '(t, e) ← match is_next then_block, is_next else_block with
    | true, false => br_if_false (blk_label else_block) f
    | false, true => br_if_true (blk_label then_block) f
    | false, false =>
        r ← br_if_true (blk_label then_block) f;
        _ ← br (blk_label else_block);
        ret r
    | true, true => lift Panic
    end;
  ret (insert_block (insert_block bs (target then_) t) (target else_) e).

(** The number of elements of a range. *)
Definition range_count (d : option RangeInclusive) : Z :=
  match d with Some (x, y) => Z.max 0 (y - x + 1) | None => 0 end.
Definition label_unless_next (b : Block) : option (BrTarget Z) := if is_next b then None else Some (blk_label b).

#[local] Instance BrTargetDrop_eq_dec : EqDecision (BrTargetDrop L).
Proof using EqDecision0. solve_decision. Defined.

(** [Itertools::unique]: each once, at its first occurrence. *)
Definition unique (l : list (BrTargetDrop L)) : list (BrTargetDrop L) :=
  foldl (λ out t, if decide (t ∈ out) then out else out ++ [t]) [] l.

(** The first loop of the closure of [BrTable]: the convention that the targets have,
    and the largest numbers of parameters and callers. *)
Fixpoint table_conventions (bs : Blocks) (ts : list (BrTargetDrop L))
    (c : option (BlockCallingConvention + VirtualCallingConvention)) (max_params : Z) (max_callers : option Z)
    : res (Blocks * option (BlockCallingConvention + VirtualCallingConvention) * Z * option Z) :=
  match ts with
  | [] => Ret (bs, c, max_params, max_callers)
  | t :: ts =>
      block ← unwrap (get_block bs (target t));
      block ← add_caller block;
      c ← match blk_cc block with
        | None => Ret c
        | new => _ ← rassert (bool_decide (c = None) || bool_decide (c = new)); Ret new
        end;
      n ← op_add 32 (blk_params block) (wrap_u 32 (range_count (to_drop t)));
      table_conventions (insert_block bs (target t) block) ts c (Z.max max_params n)
        match max_callers with Some max => n ← blk_num_callers block; Some (Z.max max n) | None => None end
  end.
(** The second loop. *)
Fixpoint set_conventions (bs : Blocks) (ts : list (BrTargetDrop L))
    (c : BlockCallingConvention + VirtualCallingConvention) : res Blocks :=
  match ts with
  | [] => Ret bs
  | t :: ts =>
      block ← unwrap (get_block bs (target t));
      c' ← match c with
        | inl c => c ← drop_args (to_drop t) c; Ret (inl c)
        | inr v => v ← drop_stack (to_drop t) v; Ret (inr v)
        end;
      set_conventions (insert_block bs (target t) (set_cc (Some c') block)) ts c
  end.

Definition translate_br_table (bs : Blocks) (table : BrTable L) : M Blocks :=
  def ← lift (unwrap (get_block bs (target (default table))));
  params ← lift (op_add 32 (blk_params def) (wrap_u 32 (range_count (to_drop (default table)))));
  labels ← lift (mapR (λ t, b ← unwrap (get_block bs (target t)); Ret (label_unless_next b)) (targets table));
  let all := unique (targets table ++ [default table]) in
  br_table labels (label_unless_next def)
    ('(bs, c, max_params, max_callers) ← lift (table_conventions bs all None params (blk_num_callers def));
     c ← match c with
       | Some (inl c) => c ← serialize_block_args c max_params; ret (inl c)
       | Some (inr v) => ret (inr v)
       | None =>
           if match max_callers with Some n => n <=? 1 | None => false end
           then v ← virtual_calling_convention; ret (inr v)
           else c ← serialize_args max_params; ret (inl c)
       end;
     lift (set_conventions bs all c)).

(** ** Labels *)

(** Code that nothing jumps to is skipped up to the next label, but for the blocks that
    it declares. *)
Fixpoint skip_unreachable (bs : Blocks) (body : list (@Operator L)) : M (Blocks * list (@Operator L)) :=
  match body with
  | [] => ret (bs, body)
  | Op.Label_ _ :: _ => ret (bs, body)
  | Op.Block l params backwards callers :: body =>
      bs ← new_block bs l params backwards callers; skip_unreachable bs body
  | _ :: body => skip_unreachable bs body
  end.

Definition translate_label (bs : Blocks) (l : L) (body : list (@Operator L)) : M (Blocks * list (@Operator L)) :=
  block ← lift (unwrap (get_block bs (Label l)));
  if actual_num_callers block =? 0 then skip_unreachable bs body
  else
    let block := set_next false block in
    _ ← match blk_cc block with
      | Some (inl c) => apply_cc c
      | Some (inr v) => set_state v
      | None => b ← get_bs; lift (rassert (blk_params block =? zlen (bs_stack b)))
      end;
    asm_label ← lift (unwrap match blk_label block with Label a => Some a | Return => None end);
    _ ← define_label asm_label;
    ret (if blk_backwards block then insert_block bs (Label l) block else remove_block bs (Label l), body).

(** ** Operators without control flow *)

Context `{CodegenEnv} (func_idx : Z).

Definition is_signed (s : Signedness) : bool := match s with Signed => true | Unsigned => false end.

(** Operators on integers, *)
Definition gen_integer (op : @Operator L) : option (M unit) :=
  match op with
  | Op.Eq (TInt z) => Some (int_eq z)
  | Op.Eqz z => Some (int_eqz z)
  | Op.Ne (TInt z) => Some (int_neq z)
  | Op.Lt (TInt (mkSignfulInt s z)) => Some (if is_signed s then int_lt_s z else int_lt_u z)
  | Op.Le (TInt (mkSignfulInt s z)) => Some (if is_signed s then int_le_s z else int_le_u z)
  | Op.Gt (TInt (mkSignfulInt s z)) => Some (if is_signed s then int_gt_s z else int_gt_u z)
  | Op.Ge (TInt (mkSignfulInt s z)) => Some (if is_signed s then int_ge_s z else int_ge_u z)
  | Op.Add (TInt z) => Some (int_add z)
  | Op.Sub (TInt z) => Some (int_sub z)
  | Op.And z => Some (int_and z)
  | Op.Or z => Some (int_or z)
  | Op.Xor z => Some (int_xor z)
  | Op.Mul (TInt _32) => Some i32_mul
  | Op.Mul (TInt _64) => Some i64_mul
  | Op.Div (TInt (mkSignfulInt s z)) => Some (int_div (is_signed s) z)
  | Op.Rem (mkSignfulInt s z) => Some (if is_signed s then int_rem_s z else int_rem_u z)
  | Op.Shl z => Some (int_shl z)
  | Op.Shr (mkSignfulInt s z) => Some (if is_signed s then int_shr_s z else int_shr_u z)
  | Op.Rotl z => Some (int_rotl z)
  | Op.Rotr z => Some (int_rotr z)
  | Op.Clz z => Some (int_clz z)
  | Op.Ctz z => Some (int_ctz z)
  | Op.Popcnt z => Some (int_popcnt z)
  | _ => None
  end.

(** on floats, *)
Definition gen_float (op : @Operator L) : option (M unit) :=
  match op with
  | Op.Add (TFloat z) => Some (fadd z)
  | Op.Mul (TFloat z) => Some (fmul z)
  | Op.Sub (TFloat z) => Some (fsub z)
  | Op.Div (TFloat z) => Some (fdiv z)
  | Op.Min z => Some (fmin z)
  | Op.Max z => Some (fmax z)
  | Op.Copysign z => Some (fcopysign z)
  | Op.Sqrt z => Some (fsqrt z)
  | Op.Neg z => Some (fneg z)
  | Op.Abs z => Some (fabs z)
  | Op.Floor z => Some (ffloor z)
  | Op.Ceil z => Some (fceil z)
  | Op.Nearest z => Some (fnearest z)
  | Op.Trunc z => Some (ftrunc z)
  | Op.Eq (TFloat z) => Some (feq z)
  | Op.Ne (TFloat z) => Some (fne z)
  | Op.Gt (TFloat z) => Some (fgt z)
  | Op.Ge (TFloat z) => Some (fge z)
  | Op.Lt (TFloat z) => Some (flt z)
  | Op.Le (TFloat z) => Some (fle z)
  | _ => None
  end.

(** conversions, *)
Definition gen_conversion (op : @Operator L) : option (M unit) :=
  match op with
  | Op.I32WrapFromI64 => Some i32_wrap_from_i64
  | Op.I32ReinterpretFromF32 => Some i32_reinterpret_from_f32
  | Op.I64ReinterpretFromF64 => Some i64_reinterpret_from_f64
  | Op.F32ReinterpretFromI32 => Some f32_reinterpret_from_i32
  | Op.F64ReinterpretFromI64 => Some f64_reinterpret_from_i64
  | Op.ITruncFromF input_ty output_ty => Some (LightbeamConversions.truncate input_ty output_ty)
  | Op.Extend sign => Some (if is_signed sign then i32_extend_s else i32_extend_u)
  | Op.FConvertFromI (mkSignfulInt s zi) z => Some (if is_signed s then float_convert_s zi z else float_convert_u zi z)
  | Op.F64PromoteFromF32 => Some f64_from_f32
  | Op.F32DemoteFromF64 => Some f32_from_f64
  | _ => None
  end.

(** accesses of memory and globals, *)
Definition gen_memory (op : @Operator L) : option (M unit) :=
  match op with
  | Op.Load8 (mkSignfulInt Unsigned _32) memarg => Some (i32_load8_u (offset memarg))
  | Op.Load16 (mkSignfulInt Unsigned _32) memarg => Some (i32_load16_u (offset memarg))
  | Op.Load8 (mkSignfulInt Signed _32) memarg => Some (i32_load8_s (offset memarg))
  | Op.Load16 (mkSignfulInt Signed _32) memarg => Some (i32_load16_s (offset memarg))
  | Op.Load8 (mkSignfulInt Unsigned _64) memarg => Some (i64_load8_u (offset memarg))
  | Op.Load16 (mkSignfulInt Unsigned _64) memarg => Some (i64_load16_u (offset memarg))
  | Op.Load8 (mkSignfulInt Signed _64) memarg => Some (i64_load8_s (offset memarg))
  | Op.Load16 (mkSignfulInt Signed _64) memarg => Some (i64_load16_s (offset memarg))
  | Op.Load32 Unsigned memarg => Some (i64_load32_u (offset memarg))
  | Op.Load32 Signed memarg => Some (i64_load32_s (offset memarg))
  | Op.Load (TInt _32) memarg => Some (i32_load (offset memarg))
  | Op.Load (TFloat _32) memarg => Some (f32_load (offset memarg))
  | Op.Load (TInt _64) memarg => Some (i64_load (offset memarg))
  | Op.Load (TFloat _64) memarg => Some (f64_load (offset memarg))
  | Op.Store8 _ memarg => Some (store8 (offset memarg))
  | Op.Store16 _ memarg => Some (store16 (offset memarg))
  | Op.Store32 memarg | Op.Store (TInt _32) memarg | Op.Store (TFloat _32) memarg => Some (store32 (offset memarg))
  | Op.Store (TInt _64) memarg | Op.Store (TFloat _64) memarg => Some (store64 (offset memarg))
  | Op.GetGlobal idx => Some (get_global idx)
  | Op.SetGlobal idx => Some (set_global idx)
  | Op.MemorySize _ => Some memory_size
  | Op.MemoryGrow _ => Some memory_grow
  | _ => None
  end.

(** and calls. *)
Definition translate_call (function_index : Z) : M unit :=
  '(params, rets) ← lift (func_type function_index);
  match defined_func_index function_index with
  | Some defined_index =>
      if function_index =? func_idx then call_direct_self defined_index params rets
      else call_direct function_index params rets
  | None => call_direct_imported function_index params rets
  end.
Definition translate_call_indirect (type_index table_index : Z) : M unit :=
  _ ← lift (rassert (table_index =? 0));
  '(params, rets) ← lift (signature type_index);
  call_indirect type_index params rets.

(** The operators with control flow are not among these. *)
Definition gen_op (op : @Operator L) : M unit :=
  match op with
  | Op.Swap depth => swap depth
  | Op.Pick depth => pick depth
  | Op.Drop range => cg_drop range
  | Op.Const val => const_ val
  | Op.Select => select
  | Op.Call function_index => translate_call function_index
  | Op.CallIndirect type_index table_index => translate_call_indirect type_index table_index
  | op =>
      match gen_integer op, gen_float op, gen_conversion op, gen_memory op with
      | Some f, _, _, _ | _, Some f, _, _ | _, _, Some f, _ | _, _, _, Some f => f
      | _, _, _, _ => lift Panic
      end
  end.

(** ** The loop *)

(** [assertions!()], of builds with debug assertions. *)
Definition assertions (bs : Blocks) (op : @Operator L) : M unit :=
  match op with
  | Op.Label_ l =>
      block ← lift (unwrap (get_block bs (Label l)));
      lift match blk_cc block with
        | Some (inl c) => rassert (blk_params block <=? zlen (arguments c))
        | Some (inr v) => rassert (blk_params block <=? zlen (vcc_stack v))
        | None => Ret tt
        end
  | _ =>
      b ← get_bs;
      actual_regs ← lift (r ← Registers_new;
        foldM (λ r v, match v with Reg g => Registers_mark_used r g | _ => Ret r end) r (bs_stack b));
      lift (rassert (bool_decide (actual_regs = bs_regs b)))
  end.

Definition translate_step (bs : Blocks) (op : @Operator L) (body : list (@Operator L))
    : M (Blocks * list (@Operator L)) :=
  bs ← match body with
    | Op.Label_ l :: _ =>
        block ← lift (unwrap (get_block bs (Label l))); ret (insert_block bs (Label l) (set_next true block))
    | _ => ret bs
    end;
  _ ← assertions bs op;
  match op with
  | Op.Unreachable => _ ← trap; ret (bs, body)
  | Op.Label_ l => translate_label bs l body
  | Op.Block l params backwards callers => bs ← new_block bs l params backwards callers; ret (bs, body)
  | Op.Br t => bs ← translate_br bs t; ret (bs, body)
  | Op.BrIf t e => bs ← translate_br_if bs t e; ret (bs, body)
  | Op.BrTable t => bs ← translate_br_table bs t; ret (bs, body)
  | op => _ ← gen_op op; ret (bs, body)
  end.

(** Every turn takes at least one operator. *)
Fixpoint translate_loop (fuel : nat) (bs : Blocks) (body : list (@Operator L)) : M unit :=
  match fuel, body with
  | _, [] => ret tt
  | O, _ => lift Panic
  | S fuel, op :: body => '(bs, body) ← translate_step bs op body; translate_loop fuel bs body
  end.

Definition translate (params returns : list SignlessType) (body : list (@Operator L)) : M unit :=
  _ ← start_function params;
  locs ← lift (ret_locs returns);
  translate_loop (length body)
    [(Return, mkBlock Return (Some (inl (function_start locs))) (wrap_u 32 (zlen returns)) false None 0 false)]
    body.
End translate.
