(* ===== verification/LightbeamInv.v ===== *)
(** * Lightbeam: where the values are

    A method of the code generator changes the generator's state and emits code; [wp]
    speaks of both at once: of the state after the method, and of the machine after the
    code that it emitted.  The invariant [inv] says that the locations on the virtual
    stack hold the values of the operand stack; the lemmas say what the operations that
    move values do to it. *)

From S2P Require Import Prelude Microwasm Store X64 LightbeamRegs LightbeamOwns Lightbeam LightbeamOps.
Import V(Value) registers.
Local Open Scope Z_scope.

(** ** Generating and running *)

Section wp.
Context `{Sse} (la : Z → Z).

Definition wp {A} (f : M A) (b : BlockState) (m : machine) (Q : A → BlockState → machine → Prop) : Prop :=
  ∀ s, block_state s = b → ∃ s' a items m',
    f s = Ret (s', a) ∧ code s' = code s ++ items ∧ exec la None items m = Some (Next m') ∧
    Q a (block_state s') m'.

Lemma wp_mono {A} (f : M A) b m (Q Q' : A → BlockState → machine → Prop) :
  wp f b m Q → (∀ a b' m', Q a b' m' → Q' a b' m') → wp f b m Q'.
Proof. intros Hf HQ s Hs. destruct (Hf s Hs) as (s' & a & items & m' & ? & ? & ? & ?). naive_solver. Qed.

Lemma wp_bind {A B} (f : M A) (g : A → M B) b m Q :
  wp f b m (λ a b' m', wp (g a) b' m' Q) → wp (f ≫= g) b m Q.
Proof.
  intros Hf s Hs. destruct (Hf s Hs) as (s1 & a & i1 & m1 & E1 & Ec1 & Ex1 & Hg).
  destruct (Hg s1 eq_refl) as (s2 & c & i2 & m2 & E2 & Ec2 & Ex2 & HQ).
  exists s2, c, (i1 ++ i2), m2. split_and!; [|by rewrite Ec2, Ec1, app_assoc| |done].
  - unfold mbind, M_bind. by rewrite E1.
  - by rewrite (exec_app _ _ _ _ _ _ Ex1).
Qed.

Lemma wp_ret {A} (a : A) b m (Q : A → BlockState → machine → Prop) : Q a b m → wp (ret a) b m Q.
Proof. intros HQ s Hs. exists s, a, [], m. rewrite app_nil_r, Hs. done. Qed.
Lemma wp_lift {A} (r : res A) a b m (Q : A → BlockState → machine → Prop) :
  r = Ret a → Q a b m → wp (lift r) b m Q.
Proof. intros -> HQ s Hs. exists s, a, [], m. rewrite app_nil_r, Hs. done. Qed.
Lemma wp_get b m (Q : BlockState → BlockState → machine → Prop) : Q b b m → wp get_bs b m Q.
Proof. intros HQ s Hs. exists s, b, [], m. rewrite app_nil_r. unfold get_bs. by rewrite Hs. Qed.
Lemma wp_put b' b m (Q : unit → BlockState → machine → Prop) : Q tt b' m → wp (put_bs b') b m Q.
Proof. intros HQ s Hs. eexists _, tt, [], m. split; [done|]. cbn [code]. by rewrite app_nil_r. Qed.
Lemma wp_emit i m' b m (Q : unit → BlockState → machine → Prop) :
  exec1 la i m = Some (Next m') → Q tt b m' → wp (emit i) b m Q.
Proof.
  intros E HQ s Hs. eexists _, tt, [Ins i], m'. split; [done|]. split; [done|].
  split; [|by cbn; rewrite Hs]. cbn. by rewrite E.
Qed.

(** Methods that only use the state. *)
Definition with_stack (b : BlockState) l : BlockState := mkBlockState l (bs_depth b) (bs_regs b).
Definition with_regs (b : BlockState) r : BlockState := mkBlockState (bs_stack b) (bs_depth b) r.
Definition with_depth (b : BlockState) d : BlockState := mkBlockState (bs_stack b) d (bs_regs b).

Lemma wp_put_stack l b m (Q : unit → BlockState → machine → Prop) :
  Q tt (with_stack b l) m → wp (put_stack l) b m Q.
Proof. intros HQ. apply wp_bind, wp_get. by apply wp_put. Qed.
Lemma wp_release R' g b m (Q : unit → BlockState → machine → Prop) :
  Registers_release (bs_regs b) g = Ret R' → Q tt (with_regs b R') m → wp (release g) b m Q.
Proof.
  intros E HQ. apply wp_bind, wp_get, wp_bind, (wp_lift _ R'); [done|]. apply wp_bind, wp_get. by apply wp_put.
Qed.
Lemma wp_mark_used R' g b m (Q : unit → BlockState → machine → Prop) :
  Registers_mark_used (bs_regs b) g = Ret R' → Q tt (with_regs b R') m → wp (mark_used g) b m Q.
Proof.
  intros E HQ. apply wp_bind, wp_get, wp_bind, (wp_lift _ R'); [done|]. apply wp_bind, wp_get. by apply wp_put.
Qed.
Lemma wp_regs_take R' o t b m (Q : option GPR → BlockState → machine → Prop) :
  Registers_take (bs_regs b) t = Ret (R', o) → Q o (with_regs b R') m → wp (regs_take t) b m Q.
Proof.
  intros E HQ. apply wp_bind, wp_get, wp_bind, (wp_lift _ (R', o)); [done|]. cbn.
  apply wp_bind, wp_bind, wp_get, wp_put. by apply wp_ret.
Qed.
Lemma wp_usages n g b m (Q : Z → BlockState → machine → Prop) :
  num_usages (bs_regs b) g = Ret n → Q n b m → wp (usages g) b m Q.
Proof. intros E HQ. apply wp_bind, wp_get. by apply (wp_lift _ n). Qed.
Lemma wp_unwrapM {A} (f : M (option A)) b m (Q : A → BlockState → machine → Prop) :
  wp f b m (λ o b' m', ∃ a, o = Some a ∧ Q a b' m') → wp (unwrapM f) b m Q.
Proof. intros Hf. apply wp_bind. eapply wp_mono; [exact Hf|]. intros o b' m' (a & -> & HQ). by apply (wp_lift _ a). Qed.
Lemma wp_depth_reserve n b m (Q : unit → BlockState → machine → Prop) :
  0 ≤ bs_depth b + n < 2 ^ 32 → Q tt (with_depth b (bs_depth b + n)) m → wp (depth_reserve n) b m Q.
Proof.
  intros Hn HQ. apply wp_bind, wp_get, wp_bind, (wp_lift _ (bs_depth b + n)).
  - by rewrite (proj2 (checked_add_Some 32 _ n _) (conj eq_refl Hn)).
  - apply wp_bind, wp_get. by apply wp_put.
Qed.
End wp.

(** ** Values in locations *)

(** The bits that represent a value: of a value of 32 bits, only the lower half counts. *)
Definition rep (v : Value) (x : Z) : Prop :=
  match v with
  | V.I32 n => x mod 2 ^ 32 = n mod 2 ^ 32
  | V.I64 n => x mod 2 ^ 64 = n mod 2 ^ 64
  | V.F32 n => x mod 2 ^ 32 = n
  | V.F64 n => x mod 2 ^ 64 = n
  end.
Definition value_ok (v : Value) : Prop :=
  match v with
  | V.I32 n => - 2 ^ 31 ≤ n < 2 ^ 31
  | V.I64 n => - 2 ^ 63 ≤ n < 2 ^ 63
  | V.F32 n => 0 ≤ n < 2 ^ 32
  | V.F64 n => 0 ≤ n < 2 ^ 64
  end.

Lemma mod_mod_32 x : x mod 2 ^ 64 mod 2 ^ 32 = x mod 2 ^ 32.
Proof. change (2 ^ 64) with (2 ^ 32 * 2 ^ 32). rewrite Z.rem_mul_r by lia.
  rewrite Z.add_mod, Z.mul_comm, Z.mod_mul, Z.add_0_r, !Z.mod_mod by lia. done. Qed.
Lemma rep_mod v x : rep v (x mod 2 ^ 64) ↔ rep v x.
Proof. destruct v; cbn [rep]; rewrite ?mod_mod_32, ?Z.mod_mod by lia; done. Qed.

(** The bits of an immediate. *)
Lemma rep_as_bytes v : value_ok v → rep v (as_bytes v).
Proof.
  destruct v; cbn -[Z.pow wrap_s]; intros Hv; try done; [by apply Z.mod_small|].
  unfold wrap_s. rewrite (Z.mod_small v) by lia. case_match; [by apply Z.mod_small|].
  rewrite Zminus_mod, Z.mod_same, Z.sub_0_r, Z.mod_mod by lia. by apply Z.mod_small.
Qed.

Definition regs_of (l : list ValueLocation) : list GPR := omap loc_reg l.
Definition is_cond (l : ValueLocation) : bool := match l with Cond _ => true | _ => false end.
(** No location depends on the flags. *)
Definition plain (l : list ValueLocation) : Prop := Forall (λ x, is_cond x = false) l.

Lemma regs_of_app l k : regs_of (l ++ k) = regs_of l ++ regs_of k.
Proof. apply omap_app. Qed.
#[export] Instance regs_of_perm : Proper ((≡ₚ) ==> (≡ₚ)) regs_of.
Proof.
  intros l l' E. induction E as [|x l l' _ IH|x y l|l1 l2 l3 _ IH1 _ IH2]; [done| | |by etrans].
  - destruct x; cbn; by rewrite ?IH.
  - destruct x, y; cbn; try done. apply Permutation_swap.
Qed.
Lemma elem_of_regs_of g l : g ∈ regs_of l ↔ Reg g ∈ l.
Proof.
  unfold regs_of. rewrite list_elem_of_omap. split.
  - intros ([] & Hx & E); by simplify_eq/=.
  - intros Hl. by exists (Reg g).
Qed.
Lemma regs_of_zlen l : zlen (regs_of l) ≤ zlen l.
Proof. induction l as [|[] l IH]; cbn; rewrite ?zlen_cons in *; try done; unfold regs_of in *; lia. Qed.

Lemma Forall2_impl_in {A B} (P Q : A → B → Prop) l k :
  Forall2 P l k → (∀ x y, x ∈ l → P x y → Q x y) → Forall2 Q l k.
Proof. induction 1; intros HQ; constructor; [apply HQ; [by left|done]|]. apply IHForall2. set_solver. Qed.

Lemma load_store_le_mod m a n v : load_le (store_le m a n v) a n = v mod 2 ^ (8 * Z.of_nat n).
Proof.
  unfold load_le, store_le.
  assert (Z.of_nat n = zlen (le_bytes n v)) as E by (by rewrite zlen_le_bytes).
  rewrite E at 1. by rewrite load_store_same, le_val_bytes.
Qed.

(** The locations that are equal to a spilled register. *)
Definition repl (old new e : ValueLocation) : ValueLocation := if decide (e = old) then new else e.

Definition rq_count (l : list ValueLocation) : nat := length (filter (is_reg_of TRq) l).

Lemma rq_count_repl_le r o l : (rq_count (map (repl (Reg (Rq r)) (Stack o)) l) ≤ rq_count l)%nat.
Proof.
  unfold rq_count. induction l as [|e l IH]; [done|]. cbn [map]. rewrite !filter_cons. unfold repl at 1.
  repeat case_decide; cbn [length]; try lia; naive_solver.
Qed.
Lemma repl_split r o pre post :
  Reg (Rq r) ∉ pre →
  map (repl (Reg (Rq r)) (Stack o)) (pre ++ Reg (Rq r) :: post) =
  pre ++ Stack o :: map (repl (Reg (Rq r)) (Stack o)) post.
Proof.
  intros Hpre. induction pre as [|e pre IH]; cbn; unfold repl at 1.
  - by rewrite decide_True.
  - rewrite decide_False by set_solver. f_equal. apply IH. set_solver.
Qed.
Lemma rq_count_repl_lt r o pre post :
  Reg (Rq r) ∉ pre →
  (rq_count (map (repl (Reg (Rq r)) (Stack o)) (pre ++ Reg (Rq r) :: post)) < rq_count (pre ++ Reg (Rq r) :: post))%nat.
Proof.
  intros Hpre. rewrite (repl_split r o _ _ Hpre). pose proof (rq_count_repl_le r o post). unfold rq_count in *.
  rewrite !filter_app, !length_app. rewrite (filter_cons_False _ (Stack o)) by (cbn; tauto).
  rewrite (filter_cons_True _ (Reg (Rq r))) by done. cbn [length]. lia.
Qed.
Lemma regs_of_repl_le r o l : zlen (regs_of (map (repl (Reg (Rq r)) (Stack o)) l)) ≤ zlen (regs_of l).
Proof.
  induction l as [|e l IH]; [done|]. cbn [map]. unfold repl at 1. case_decide as He; [subst e|].
  - change (regs_of (Reg (Rq r) :: l)) with (Rq r :: regs_of l). rewrite zlen_cons. etrans; [exact IH|lia].
  - destruct e; try exact IH. change (regs_of (Reg g :: ?k)) with (g :: regs_of k). rewrite !zlen_cons. lia.
Qed.
Lemma plain_repl r o l : plain l → plain (map (repl (Reg (Rq r)) (Stack o)) l).
Proof. intros Hl. apply Forall_map. eapply Forall_impl; [exact Hl|]. intros e He. unfold repl. by case_decide. Qed.

Lemma regs_of_repl_sub r o l : regs_of (map (repl (Reg (Rq r)) (Stack o)) l) ⊆ regs_of l.
Proof.
  intros g. rewrite !elem_of_regs_of. intros (e & He & Hin)%list_elem_of_fmap. unfold repl in He.
  case_decide; [done|by subst].
Qed.

(** What a method leaves as it was that only moves values about. *)
Record moved (b : BlockState) (m : machine) (b' : BlockState) (m' : machine) : Prop := {
  moved_fl : fl m' = fl m;
  moved_plain : plain (bs_stack b) → plain (bs_stack b');
  moved_regs : regs_of (bs_stack b') ⊆ regs_of (bs_stack b);
  moved_depth : bs_depth b ≤ bs_depth b';
}.
Lemma moved_refl b m : moved b m b m.
Proof. by split. Qed.
Lemma moved_trans b1 m1 b2 m2 b3 m3 : moved b1 m1 b2 m2 → moved b2 m2 b3 m3 → moved b1 m1 b3 m3.
Proof. intros [] []. split; [congruence|auto|by etrans|lia]. Qed.

(** There are eight general-purpose scratch registers. *)
Lemma room l : (length l < 8)%nat → ∃ r, Rq r ∈ SCRATCH_REGS ∧ Rq r ∉ l.
Proof.
  intros Hl. destruct (decide (Forall (λ r, Rq r ∈ l) [6; 2; 1; 8; 9; 0; 10; 11])) as [Hall|Hne].
  - exfalso. assert (map Rq [6; 2; 1; 8; 9; 0; 10; 11] ⊆+ l) as Hs.
    { apply NoDup_submseteq; [apply (bool_decide_unpack _); by vm_compute|].
      intros g (r & -> & Hr)%list_elem_of_fmap. rewrite Forall_forall in Hall. by apply Hall. }
    apply submseteq_length in Hs. cbn in Hs. lia.
  - apply not_Forall_Exists in Hne; [|apply _]. apply Exists_exists in Hne as (r & Hr & Hn).
    exists r. split; [|done]. assert (Forall (λ r, Rq r ∈ SCRATCH_REGS) [6; 2; 1; 8; 9; 0; 10; 11]) as HF
      by (apply (bool_decide_unpack _); by vm_compute).
    rewrite Forall_forall in HF. by apply HF.
Qed.

Section inv.
Context (rsp0 : Z) (m0 : machine).

Definition slot_addr (o : Z) : Z := rsp0 + 8 * o.
Definition holds (m : machine) (l : ValueLocation) (v : Value) : Prop :=
  match l with
  | Reg (Rq r) => rep v (gpr m r)
  | Reg (Rx r) => rep v (xmm m r)
  | Stack o => rep v (load_le (mm m) (slot_addr o) 8)
  | Immediate i => i = v
  | Cond c => ∃ t, holds_cond (fl m) (x_cond c) = Some t ∧ v = V.I32 (Z.b2z t)
  end.

Definition slot_ok (depth : Z) (l : ValueLocation) : Prop :=
  match l with Stack o => - depth ≤ o < 2 ^ 20 | _ => True end.

(** The function's own part of the stack is below its return address; of the registers it changes
    the scratch registers and the stack pointer. *)
Definition kept (m m' : machine) : Prop :=
  (∀ r, Rq r ∉ SCRATCH_REGS → r ≠ RSP_ → gpr m' r = gpr m r) ∧
  (∀ a, ¬ (rsp0 - 2 ^ 19 ≤ a < rsp0 - 8) → mm m' a = mm m a).

(** The values [vs] are on the virtual stack; the locations in [held] have been popped
    and not been freed, the registers in [own] have been taken.  [B] bounds the depth
    that the stack may grow to by spilling. *)
Record inv (B : Z) (b : BlockState) (m : machine) (held : list (ValueLocation * Value)) (own : list GPR)
    (vs : list Value) : Prop := {
  inv_owns : owns (bs_regs b) (regs_of (bs_stack b) ++ regs_of (map fst held) ++ own);
  inv_stack : Forall2 (holds m) (bs_stack b) vs;
  inv_held : Forall (λ p, holds m p.1 p.2) held;
  inv_values : Forall value_ok vs ∧ Forall (λ p, value_ok p.2) held;
  inv_rsp : gpr m RSP_ = rsp0 - 8 * bs_depth b;
  inv_slots : Forall (slot_ok (bs_depth b)) (bs_stack b) ∧ Forall (λ p, slot_ok (bs_depth b) p.1) held;
  inv_depth : 1 ≤ bs_depth b ∧ bs_depth b + zlen (regs_of (bs_stack b)) ≤ B ≤ 2 ^ 16;
  inv_small : zlen vs + zlen held + zlen own < 200;
  inv_kept : kept m0 m;
}.

Context (Hrsp0 : 2 ^ 20 ≤ rsp0 < 2 ^ 63).
Set Default Proof Using "Type*".

Lemma rsp_not_scratch : Rq RSP_ ∉ SCRATCH_REGS.
Proof. apply (bool_decide_unpack _). by vm_compute. Qed.
Lemma scratch_not_rsp r : Rq r ∈ SCRATCH_REGS → r ≠ RSP_.
Proof. intros Hr ->. by apply rsp_not_scratch. Qed.

(** *** What a write leaves alone *)

Lemma holds_with_gpr m r x l v : l ≠ Reg (Rq r) → holds m l v → holds (with_gpr m r x) l v.
Proof.
  destruct l as [[k|k]|o|i|c]; intros Hl Hv; try done. cbn. by rewrite (proj2 (Z.eqb_neq _ _)) by congruence.
Qed.
Lemma holds_with_fl m f l v : is_cond l = false → holds m l v → holds (with_fl m f) l v.
Proof. by destruct l as [[]| | |]. Qed.
Lemma holds_with_mm m mem l v :
  (∀ o, l = Stack o → ∀ x, slot_addr o ≤ x < slot_addr o + 8 → mem x = mm m x) →
  holds m l v → holds (with_mm m mem) l v.
Proof.
  intros Hmem Hv. destruct l as [[]|o| |]; try done. cbn [holds with_mm mm] in *.
  rewrite (load_le_ext (mm m) mem) in Hv; [done|]. intros x Hx. symmetry. by apply (Hmem o).
Qed.

(** A change of the machine that no location sees. *)
Lemma inv_step B b m m' held own vs :
  inv B b m held own vs →
  (∀ l v, l ∈ bs_stack b ++ map fst held → holds m l v → holds m' l v) →
  gpr m' RSP_ = gpr m RSP_ → kept m m' → inv B b m' held own vs.
Proof.
  intros [? Hst Hh ? Hr ? ? ? [Hk1 Hk2]] Hsee Hrsp [Hk3 Hk4]. split; try done.
  - eapply Forall2_impl_in; [exact Hst|]. intros l v Hl Hv. apply Hsee; [set_solver|done].
  - rewrite Forall_forall in Hh |- *. intros p Hp. apply Hsee; [|by apply Hh].
    apply elem_of_app. right. by apply (list_elem_of_fmap_2 fst).
  - congruence.
  - split; intros; rewrite ?Hk3, ?Hk4 by done; auto.
Qed.

(** Writing a register that nothing uses, with the flags as they were or with no
    location that depends on them. *)
Lemma inv_write B b m held own vs r x f :
  inv B b m held own vs → Rq r ∈ SCRATCH_REGS →
  Rq r ∉ regs_of (bs_stack b) ++ regs_of (map fst held) →
  (f = fl m ∨ plain (bs_stack b ++ map fst held)) →
  inv B b (with_fl (with_gpr m r x) f) held own vs.
Proof.
  intros Hi Hs Hr Hf. apply (inv_step _ _ m); [done| | |].
  - intros l v Hl Hv. assert (l ≠ Reg (Rq r)) as Hne.
    { intros ->. apply Hr. rewrite <-regs_of_app. by apply elem_of_regs_of. }
    pose proof (holds_with_gpr m r x l v Hne Hv) as Hv'. destruct Hf as [->|Hp].
    + by destruct l as [[]| | |].
    + apply holds_with_fl; [|done]. unfold plain in Hp. rewrite Forall_forall in Hp. by apply Hp.
  - cbn [with_fl with_gpr gpr]. rewrite (proj2 (Z.eqb_neq _ _)); [done|]. apply not_eq_sym. by apply scratch_not_rsp.
  - split; [|done]. intros k Hk _. cbn [with_fl with_gpr gpr]. rewrite (proj2 (Z.eqb_neq _ _)); [done|]. congruence.
Qed.

(** *** Ownership *)

Lemma inv_perm_held B b m held held' own vs :
  inv B b m held own vs → held ≡ₚ held' → inv B b m held' own vs.
Proof.
  intros [Ho ? Hh [? Hv] ? [? Hs] ? Hsm ?] E. split; try done.
  - by rewrite <-E.
  - by rewrite <-E.
  - split; [done|by rewrite <-E].
  - split; [done|by rewrite <-E].
  - unfold zlen in *. by rewrite <-E.
Qed.

(** A register that has been taken holds a value, and the reverse. *)
Lemma inv_own_held B b m held own vs g v :
  inv B b m held (g :: own) vs → holds m (Reg g) v → value_ok v → inv B b m ((Reg g, v) :: held) own vs.
Proof.
  intros [Ho ? ? [? ?] ? [? ?] ? Hsm ?] Hv Hok. split; try done.
  - cbn [map fst regs_of omap loc_reg]. cbn. revert Ho.
    apply owns_perm. by rewrite <-!Permutation_middle.
  - by constructor.
  - split; [done|by constructor].
  - split; [done|by constructor].
  - rewrite zlen_cons in Hsm. rewrite zlen_cons. lia.
Qed.

Lemma wp_free_value `{Sse} la B b m held own vs l v (Q : unit → BlockState → machine → Prop) :
  inv B b m ((l, v) :: held) own vs →
  (∀ b', inv B b' m held own vs → bs_stack b' = bs_stack b → bs_depth b' = bs_depth b → Q tt b' m) →
  wp la (free_value l) b m Q.
Proof.
  intros Hi HQ. destruct Hi as [Ho ? Hh [? Hv] ? [? Hs] ? Hsm ?].
  apply Forall_cons in Hh as [_ Hh], Hv as [_ Hv], Hs as [_ Hs]. rewrite zlen_cons in Hsm.
  destruct l as [g|o|i|c]; cbn [free_value]; cbn [map fst] in Ho;
    try (apply wp_ret, HQ; [split; first [exact Ho|done|lia]|done|done]).
  change (regs_of (Reg g :: map fst held)) with (g :: regs_of (map fst held)) in Ho.
  cbn [app] in Ho. rewrite <-Permutation_middle in Ho.
  destruct (release_owns _ _ g Ho) as (R' & E & Ho').
  { pose proof (uses_le g (regs_of (bs_stack b) ++ regs_of (map fst held) ++ own)) as Hle.
    rewrite !zlen_app in Hle. pose proof (regs_of_zlen (bs_stack b)). pose proof (regs_of_zlen (map fst held)).
    assert (zlen (map fst held) = zlen held) by (unfold zlen; by rewrite length_map).
    assert (zlen (bs_stack b) = zlen vs) by (unfold zlen; f_equal; by eapply Forall2_length). lia. }
  apply (wp_release _ R' g); [done|]. apply HQ; [split; try done; lia|done|done].
Qed.

(** *** Spilling *)

Definition pushed (m : machine) (x : Z) : machine :=
  write_mm (with_gpr m RSP_ (gpr m RSP_ - 8)) W64 (gpr m RSP_ - 8) x.

Lemma exec_push `{Sse} la m o :
  8 ≤ gpr m RSP_ < 2 ^ 64 → exec1 la (PUSH o) m = Some (Next (pushed m (read_op la m W64 o))).
Proof. intros Hr. cbn [exec1]. rewrite Z.mod_small by lia. done. Qed.

Lemma inv_rsp_bounds B b m held own vs :
  inv B b m held own vs → 0 ≤ bs_depth b ≤ 2 ^ 16 ∧ 2 ^ 19 ≤ gpr m RSP_ < 2 ^ 63.
Proof.
  intros Hi. pose proof (inv_rsp _ _ _ _ _ _ Hi). pose proof (inv_depth _ _ _ _ _ _ Hi).
  pose proof (zlen_nonneg (regs_of (bs_stack b))). lia.
Qed.

Lemma holds_pushed B b m held own vs x l v :
  inv B b m held own vs → slot_ok (bs_depth b) l → holds m l v → l ≠ Reg (Rq RSP_) → holds (pushed m x) l v.
Proof.
  intros Hi Hs Hv Hl. apply holds_with_mm; [|by apply holds_with_gpr]. intros o -> y Hy. cbn [mm with_gpr].
  unfold store_le. apply store_bytes_out. rewrite zlen_le_bytes. cbn in Hs. unfold slot_addr in Hy.
  rewrite (inv_rsp _ _ _ _ _ _ Hi). cbn. lia.
Qed.
Lemma pushed_slot B b m held own vs x v :
  inv B b m held own vs → rep v x → holds (pushed m x) (Stack (- (bs_depth b + 1))) v.
Proof.
  intros Hi Hv. cbn [holds pushed write_mm with_mm mm wbytes].
  assert (slot_addr (- (bs_depth b + 1)) = gpr m RSP_ - 8) as ->
    by (unfold slot_addr; rewrite (inv_rsp _ _ _ _ _ _ Hi); lia).
  rewrite load_store_le_mod. change (8 * Z.of_nat 8) with 64. by rewrite rep_mod.
Qed.
Lemma pushed_kept B b m held own vs x :
  inv B b m held own vs → bs_depth b < 2 ^ 16 → kept m (pushed m x).
Proof.
  intros Hi Hd. split.
  - intros r _ Hr. cbn [pushed write_mm with_mm gpr with_gpr]. by rewrite (proj2 (Z.eqb_neq _ _)).
  - intros a Ha. cbn [pushed write_mm with_mm mm with_gpr]. unfold store_le. apply store_bytes_out.
    rewrite zlen_le_bytes, (inv_rsp _ _ _ _ _ _ Hi). pose proof (inv_depth _ _ _ _ _ _ Hi). cbn. lia.
Qed.

Lemma wp_replace_locs `{Sse} la g o l : ∀ b m k (Q : list ValueLocation → BlockState → machine → Prop),
  owns (bs_regs b) (regs_of l ++ k) → zlen (regs_of l ++ k) < 200 →
  (∀ R', owns R' (regs_of (map (repl (Reg g) (Stack o)) l) ++ k) →
     Q (map (repl (Reg g) (Stack o)) l) (with_regs b R') m) →
  wp la (replace_locs (Reg g) (Stack o) g l) b m Q.
Proof.
  induction l as [|e l IH]; intros b m k Q Ho Hk HQ; cbn [replace_locs].
  { apply wp_ret. destruct b as [st d R]. by apply HQ. }
  unfold repl in HQ at 1 2. cbn [map] in HQ. destruct (decide (e = Reg g)) as [->|Hne].
  - change (regs_of (Reg g :: l)) with (g :: regs_of l) in *. cbn [app] in *. rewrite zlen_cons in Hk.
    destruct (release_owns _ _ _ Ho) as (R1 & E1 & Ho1).
    { pose proof (uses_le g (regs_of l ++ k)). lia. }
    apply wp_bind, (wp_release _ R1); [done|]. apply wp_bind.
    apply (IH _ _ k); [done|lia|]. intros R' Ho'. by apply wp_ret, HQ.
  - apply wp_bind. change (e :: l) with ([e] ++ l) in Ho, Hk. rewrite regs_of_app in Ho, Hk.
    apply (IH _ _ (regs_of [e] ++ k)).
    + revert Ho. apply owns_perm. by rewrite !(assoc_L (++)), (comm (++) (regs_of [e])).
    + rewrite !zlen_app in *. lia.
    + intros R' Ho'. apply wp_ret, HQ. revert Ho'. apply owns_perm.
      change (e :: map ?f l) with ([e] ++ map f l). rewrite regs_of_app.
      by rewrite !(assoc_L (++)), (comm (++) (regs_of [e])).
Qed.

Lemma i32_checked_small x : - 2 ^ 31 ≤ x < 2 ^ 31 → i32_checked x = Ret x.
Proof. intros Hx. unfold i32_checked, in_i32. by rewrite (proj2 (Z.leb_le _ _)), (proj2 (Z.ltb_lt _ _)) by lia. Qed.
Lemma wrap_s_small x : 0 ≤ x < 2 ^ 31 → wrap_s 32 x = x.
Proof. intros Hx. unfold wrap_s. rewrite Z.mod_small by lia. by rewrite (proj2 (Z.ltb_lt _ _)) by lia. Qed.

(** Any way to take registers will do here: a general-purpose register is spilled
    without taking another. *)
Lemma wp_push_physical_rq `{Sse} la `{TakeReg} r l b m (Q : ValueLocation → BlockState → machine → Prop) :
  owns (bs_regs b) (Rq r :: l) → zlen l < 199 → 0 ≤ bs_depth b < 2 ^ 16 → 8 ≤ gpr m RSP_ < 2 ^ 64 →
  (∀ R', owns R' l →
     Q (Stack (- (bs_depth b + 1))) (mkBlockState (bs_stack b) (bs_depth b + 1) R') (pushed m (gpr m r mod 2 ^ 64))) →
  wp la (push_physical (Reg (Rq r))) b m Q.
Proof.
  intros Ho Hl Hd Hrsp HQ. unfold push_physical. apply wp_bind, wp_get.
  rewrite wrap_s_small by lia. apply wp_bind, (wp_lift _ _ (bs_depth b + 1)); [apply i32_checked_small; lia|].
  apply wp_bind, (wp_lift _ _ (- (bs_depth b + 1))); [apply i32_checked_small; lia|].
  apply wp_bind, wp_bind. unfold into_reg, to_reg. cbn [type_matches gpr_type bool_decide].
  rewrite bool_decide_eq_true_2 by done.
  assert (Rq r ∈ SCRATCH_REGS) as Hs by (apply (owns_scratch _ _ Ho); by left).
  pose proof (uses_le (Rq r) l).
  destruct (mark_used_owns _ _ (Rq r) Ho Hs) as (R1 & E1 & Ho1); [rewrite uses_cons, decide_True by done; lia|].
  apply wp_bind, wp_bind, (wp_mark_used _ R1); [done|]. apply wp_ret, wp_bind. cbn [free_value].
  destruct (release_owns _ _ _ Ho1) as (R2 & E2 & Ho2); [rewrite uses_cons, decide_True by done; lia|].
  apply (wp_release _ R2); [done|]. apply wp_ret, wp_bind, (wp_lift _ _ r); [done|].
  apply wp_bind, (wp_emit _ _ (pushed m (gpr m r mod 2 ^ 64))); [by rewrite exec_push|].
  destruct (release_owns _ _ _ Ho2) as (R3 & E3 & Ho3); [lia|].
  apply (wp_release _ R3); [done|]. apply wp_bind, wp_depth_reserve; [cbn; lia|]. apply wp_ret. by apply HQ.
Qed.

Lemma inv_zlen B b m held own vs :
  inv B b m held own vs → zlen (regs_of (bs_stack b) ++ regs_of (map fst held) ++ own) < 200.
Proof.
  intros Hi. pose proof (inv_small _ _ _ _ _ _ Hi). rewrite !zlen_app.
  pose proof (regs_of_zlen (bs_stack b)). pose proof (regs_of_zlen (map fst held)).
  assert (zlen (map fst held) = zlen held) by (unfold zlen; by rewrite length_map).
  assert (zlen (bs_stack b) = zlen vs)
    by (unfold zlen; f_equal; eapply Forall2_length, (inv_stack _ _ _ _ _ _ Hi)). lia.
Qed.

(** The values are where they were, but for those of the spilled register. *)
Lemma inv_spilled B b m held own vs r R l :
  inv B b m held own vs → Reg (Rq r) ∈ bs_stack b → bs_depth b < 2 ^ 16 →
  l = map (repl (Reg (Rq r)) (Stack (- (bs_depth b + 1)))) (bs_stack b) →
  zlen (regs_of l) + 1 ≤ zlen (regs_of (bs_stack b)) →
  owns R (regs_of l ++ regs_of (map fst held) ++ own) →
  inv B (mkBlockState l (bs_depth b + 1) R) (pushed m (gpr m r mod 2 ^ 64)) held own vs.
Proof.
  intros Hi Hr Hd -> Hregs Ho. pose proof (pushed_kept _ _ _ _ _ _ (gpr m r mod 2 ^ 64) Hi Hd) as [Hk3 Hk4].
  pose proof Hi as [Ho0 Hst Hh [Hv1 Hv2] Hrsp [Hs1 Hs2] [Hd0 Hd1] Hsm [Hk1 Hk2]].
  assert (Reg (Rq RSP_) ∉ bs_stack b ++ map fst held) as Hnrsp.
  { rewrite <-elem_of_regs_of, regs_of_app. intros HR. apply rsp_not_scratch, (owns_scratch _ _ Ho0). set_solver. }
  split; cbn [bs_stack bs_depth bs_regs]; try done.
  - apply Forall2_fmap_l. eapply Forall2_impl_in; [exact Hst|]. intros e v He Hv. cbn. unfold repl.
    case_decide as Heq.
    + subst e. eapply pushed_slot; [done|]. by apply rep_mod.
    + eapply holds_pushed; [done| |done|set_solver]. rewrite Forall_forall in Hs1. by apply Hs1.
  - rewrite Forall_forall in Hh, Hs2 |- *. intros p Hp. eapply holds_pushed; [done|by apply Hs2|by apply Hh|].
    intros E. apply Hnrsp, elem_of_app. right. rewrite <-E. by apply (list_elem_of_fmap_2 fst).
  - cbn [pushed write_mm with_mm gpr with_gpr]. rewrite Z.eqb_refl. lia.
  - split.
    + apply Forall_map. eapply Forall_impl; [exact Hs1|]. intros e He. unfold repl.
      case_decide; [cbn; lia|]. destruct e; cbn in *; lia || done.
    + eapply Forall_impl; [exact Hs2|]. intros [[] w] He; cbn in *; lia || done.
  - lia.
  - split; intros; rewrite ?Hk3, ?Hk4 by done; auto.
Qed.

(** Spilling the first register on the virtual stack. *)
Lemma wp_free_reg `{Sse} la `{TakeReg} B b m held own vs (Q : bool → BlockState → machine → Prop) :
  inv B b m held own vs → (∃ r, Reg (Rq r) ∈ bs_stack b) →
  (∀ b' m', inv B b' m' held own vs → moved b m b' m' →
     (rq_count (bs_stack b') < rq_count (bs_stack b))%nat → Q true b' m') →
  wp la (free_reg TRq) b m Q.
Proof.
  intros Hi [r0 Hr0] HQ. unfold free_reg. apply wp_bind, wp_get.
  destruct (list_find_elem_of (is_reg_of TRq) (bs_stack b) _ Hr0 eq_refl) as [[pos old] Hfind].
  rewrite Hfind. apply list_find_Some in Hfind as (Hpos & Hold & Hpre).
  destruct old as [[r|r]| | |]; try done. clear Hold r0 Hr0.
  pose proof (take_drop_middle _ _ _ Hpos) as Hsplit.
  set (pre := take pos (bs_stack b)) in *. set (post := drop (S pos) (bs_stack b)) in *.
  assert (Reg (Rq r) ∉ pre) as Hnin.
  { intros [j Hj]%list_elem_of_lookup. apply lookup_take_Some in Hj as [Hj Hlt]. by apply (Hpre j _ Hj Hlt). }
  clear Hpre Hpos. set (o := - (bs_depth b + 1)). set (k := regs_of pre ++ regs_of (map fst held) ++ own).
  assert (regs_of (bs_stack b) = regs_of pre ++ Rq r :: regs_of post) as Hregs
    by (rewrite <-Hsplit, regs_of_app; done).
  assert (regs_of (bs_stack b) ++ regs_of (map fst held) ++ own ≡ₚ Rq r :: regs_of post ++ k) as Hperm.
  { rewrite Hregs. subst k. rewrite <-!app_assoc. cbn [app]. rewrite <-Permutation_middle.
    by rewrite !(assoc_L (++)), (comm (++) (regs_of pre)). }
  pose proof (inv_zlen _ _ _ _ _ _ Hi) as Hz. pose proof (inv_rsp_bounds _ _ _ _ _ _ Hi) as [Hd Hrsp].
  assert (zlen (regs_of (bs_stack b)) = zlen (regs_of pre) + zlen (regs_of post) + 1) as Hzr
    by (rewrite Hregs, zlen_app, zlen_cons; lia).
  pose proof (inv_depth _ _ _ _ _ _ Hi) as [Hd0 Hd1]. pose proof (inv_owns _ _ _ _ _ _ Hi) as Ho.
  rewrite Hperm in Ho. assert (zlen (Rq r :: regs_of post ++ k) < 200) as Hk by (unfold zlen in *; by rewrite <-Hperm).
  rewrite zlen_cons in Hk. pose proof (zlen_nonneg (regs_of pre)). pose proof (zlen_nonneg (regs_of post)).
  apply wp_bind, (wp_push_physical_rq la r (regs_of post ++ k)); [done|lia|lia|lia|].
  intros R1 Ho1. apply wp_bind, (wp_lift _ _ (Rq r)); [done|]. apply wp_bind, wp_get, wp_bind. cbn [bs_stack].
  change (drop (S pos) (bs_stack b)) with post. apply (wp_replace_locs la (Rq r) _ _ _ _ k); [done|lia|].
  intros R2 Ho2. apply wp_bind, wp_put_stack, wp_ret. cbn [bs_stack with_regs]. fold pre post o in Ho2 |- *.
  pose proof (repl_split r o pre post Hnin) as Hrs. rewrite Hsplit in Hrs. rewrite <-Hrs.
  pose proof (regs_of_repl_le r o post).
  apply HQ; [|split; [done|apply plain_repl|apply regs_of_repl_sub|cbn; lia]|rewrite <-Hsplit; by apply rq_count_repl_lt].
  apply (inv_spilled _ _ _ _ _ _ _ _ _ Hi); [rewrite <-Hsplit; set_solver|lia|done| |]; rewrite Hrs, regs_of_app.
  - rewrite zlen_app. change (regs_of (Stack o :: ?l)) with (regs_of l). lia.
  - change (regs_of (Stack o :: ?l)) with (regs_of l). revert Ho2. apply owns_perm. subst k.
    by rewrite !(assoc_L (++)), (comm (++) (regs_of pre)).
Qed.

(** *** Taking a register *)

(** The register taken is a scratch register that nothing else uses. *)
Definition fresh (b : BlockState) (held : list (ValueLocation * Value)) (own : list GPR) (r : Z) : Prop :=
  Rq r ∈ SCRATCH_REGS ∧ Rq r ∉ regs_of (bs_stack b) ++ regs_of (map fst held) ++ own.

Lemma wp_take_loop `{Sse} la `{TakeReg} fuel : ∀ B b m held own vs (Q : option GPR → BlockState → machine → Prop),
  (rq_count (bs_stack b) < fuel)%nat → inv B b m held own vs → (length held + length own < 8)%nat → zlen vs + zlen held + zlen own < 199 →
  (∀ r b' m', inv B b' m' held (Rq r :: own) vs → fresh b' held own r → moved b m b' m' → Q (Some (Rq r)) b' m') →
  wp la (take_loop fuel TRq) b m Q.
Proof.
  induction fuel as [|fuel IH]; intros B b m held own vs Q Hf Hi Hroom Hsm HQ; [lia|]. cbn [take_loop].
  destruct (take_owns _ _ TRq (inv_owns _ _ _ _ _ _ Hi)) as [(R' & g & E & Hg & Hs & Hn & Ho)|[E Hall]].
  - apply wp_bind, (wp_regs_take _ R' (Some g)); [done|]. destruct g as [r|]; [|done].
    apply wp_ret, HQ; [|done|by split]. destruct Hi. split; try done.
    + cbn [bs_regs with_regs bs_stack]. revert Ho. apply owns_perm. by rewrite <-!Permutation_middle.
    + rewrite zlen_cons. lia.
  - apply wp_bind, (wp_regs_take _ (bs_regs b) None); [done|].
    replace (with_regs b (bs_regs b)) with b by (by destruct b).
    destruct (room (regs_of (map fst held) ++ own)) as (r & Hr & Hn).
    { rewrite length_app. pose proof (regs_of_zlen (map fst held)) as Hz. unfold zlen in Hz.
      rewrite length_map in Hz. lia. }
    assert (Reg (Rq r) ∈ bs_stack b) as Hin by (apply elem_of_regs_of; specialize (Hall _ Hr eq_refl); set_solver).
    apply wp_bind, (wp_free_reg la _ _ _ _ _ _ _ Hi); [by exists r|].
    intros b' m' Hi' Hmv Hc. apply (IH B b' m' held own vs); [lia|done|done|done|].
    intros r' b2 m2 Hi2 Hfr Hmv2. apply HQ; [done|done|by eapply moved_trans].
Qed.

Lemma wp_take `{Sse} la B b m held own vs (Q : option GPR → BlockState → machine → Prop) :
  inv B b m held own vs → (length held + length own < 8)%nat → zlen vs + zlen held + zlen own < 199 →
  (∀ r b' m', inv B b' m' held (Rq r :: own) vs → fresh b' held own r → moved b m b' m' → Q (Some (Rq r)) b' m') →
  wp la (take_reg TRq) b m Q.
Proof.
  intros Hi Hroom Hsm HQ. unfold take_reg, Context_take_reg. cbn [take_reg_depth]. apply wp_bind, wp_get.
  apply (wp_take_loop la _ B b m held own vs); try done. unfold rq_count.
  pose proof (length_filter (is_reg_of TRq) (bs_stack b)). lia.
Qed.
End inv.
