(* ===== verification/LightbeamMoves.v ===== *)
(** * Lightbeam: moving values

    What the methods that bring a value into a register, pop and push do to the
    invariant of LightbeamInv. *)

From S2P Require Import Prelude Microwasm MicrowasmProofs Store X64 LightbeamRegs LightbeamOwns Lightbeam.
From S2P Require Import LightbeamOps LightbeamInv.
Import V(Value) registers.
Local Open Scope Z_scope.

(** The machine after writing one register. *)
Record upd (r : Z) (f : flags) (m m' : machine) : Prop := {
  upd_gpr k : k ≠ r → gpr m' k = gpr m k;
  upd_xmm : xmm m' = xmm m;
  upd_mm : mm m' = mm m;
  upd_fl : fl m' = f;
}.

Lemma upd_with_gpr r x m : upd r (fl m) m (with_gpr m r x).
Proof. split; try done. intros k Hk. cbn. by rewrite (proj2 (Z.eqb_neq _ _)). Qed.
Lemma upd_with_fl r x f m : upd r f m (with_fl (with_gpr m r x) f).
Proof. split; try done. intros k Hk. cbn. by rewrite (proj2 (Z.eqb_neq _ _)). Qed.
Lemma upd_again r f x m m' : upd r f m m' → upd r f m (with_gpr m' r x).
Proof.
  intros [A1 A2 A3 A4]. split; try done. intros k Hk. cbn. rewrite (proj2 (Z.eqb_neq _ _)) by done. auto.
Qed.
Lemma gpr_with_gpr m r x : gpr (with_gpr m r x) r = x.
Proof. cbn. by rewrite Z.eqb_refl. Qed.

Lemma wrap_s_mod n x : 0 < n → wrap_s n x mod 2 ^ n = x mod 2 ^ n.
Proof.
  intros Hn. pose proof (Z.pow_pos_nonneg 2 n). unfold wrap_s. case_match; [by rewrite Z.mod_mod by lia|].
  rewrite Zminus_mod, Z.mod_same, Z.sub_0_r, !Z.mod_mod by lia. done.
Qed.
Lemma wrap_s_range n x : 0 < n → - 2 ^ (n - 1) ≤ wrap_s n x < 2 ^ (n - 1).
Proof.
  intros Hn. pose proof (Z.pow_pos_nonneg 2 (n - 1)). assert (2 ^ n = 2 * 2 ^ (n - 1)) as E
    by (rewrite <-Z.pow_succ_r by lia; f_equal; lia).
  pose proof (Z.mod_pos_bound x (2 ^ n)). unfold wrap_s. case_match eqn:C;
    [apply Z.ltb_lt in C|apply Z.ltb_ge in C]; lia.
Qed.
Lemma wrap_s_fits n x : 0 < n → - 2 ^ (n - 1) ≤ x < 2 ^ (n - 1) → wrap_s n x = x.
Proof.
  intros Hn Hx. assert (2 ^ n = 2 * 2 ^ (n - 1)) as E
    by (rewrite <-Z.pow_succ_r by lia; f_equal; lia).
  unfold wrap_s. destruct (decide (0 ≤ x)).
  - rewrite Z.mod_small by lia. by rewrite (proj2 (Z.ltb_lt _ _)) by lia.
  - assert (x mod 2 ^ n = x + 2 ^ n) as ->.
    { symmetry. apply (Z.mod_unique_pos _ _ (-1)); lia. }
    rewrite (proj2 (Z.ltb_ge _ _)) by lia. lia.
Qed.

(** What [immediate_to_reg] writes: the lower half is enough for a small constant. *)
Lemma rep_immediate v :
  value_ok v → rep v (if wrap_u 64 (as_bytes v) <=? 2 ^ 32 - 1
                      then wrap_s 32 (as_bytes v) mod 2 ^ 32 else as_bytes v mod 2 ^ 64).
Proof.
  intros Hv. pose proof (rep_as_bytes v Hv) as Hr. unfold wrap_u. case_match eqn:E; [|by rewrite rep_mod].
  apply Z.leb_le in E. rewrite wrap_s_mod by lia. rewrite <-rep_mod in Hr.
  rewrite <-mod_mod_32, (Z.mod_small (as_bytes v mod 2 ^ 64) (2 ^ 32)); [done|].
  pose proof (Z.mod_pos_bound (as_bytes v) (2 ^ 64)). lia.
Qed.

(** No condition but on top of the stack. *)
Definition flags_on_top (l : list ValueLocation) : Prop := plain (removelast l).

Lemma plain_app l k : plain (l ++ k) ↔ plain l ∧ plain k.
Proof. apply Forall_app. Qed.
Lemma flags_on_top_snoc l x : flags_on_top (l ++ [x]) ↔ plain l.
Proof. unfold flags_on_top. by rewrite removelast_last. Qed.
Lemma plain_on_top l : plain l → flags_on_top l.
Proof. destruct l as [|x l _] using rev_ind; [by constructor|]. rewrite plain_app, flags_on_top_snoc. tauto. Qed.

Section moves.
Context (rsp0 : Z) (m0 : machine) (Hrsp0 : 2 ^ 20 ≤ rsp0 < 2 ^ 63) `{Sse} (la : Z → Z).
Set Default Proof Using "Type*".
Notation inv := (inv rsp0 m0).
Notation holds := (holds rsp0).
Notation wp := (wp la).
Implicit Types (held : list (ValueLocation * Value)) (own : list GPR) (vs : list Value).

Lemma holds_upd r f m m' l v :
  upd r f m m' → l ≠ Reg (Rq r) → f = fl m ∨ is_cond l = false → holds m l v → holds m' l v.
Proof.
  intros [U1 U2 U3 U4] Hl Hf Hv. destruct l as [[k|k]|o|i|c]; cbn in *; try done.
  - rewrite U1 by congruence. done.
  - by rewrite U2.
  - by rewrite U3.
  - destruct Hf as [->|]; [|done]. by rewrite U4.
Qed.

Lemma inv_upd B b m m' held own vs r f :
  inv B b m held own vs → upd r f m m' → Rq r ∈ SCRATCH_REGS →
  Rq r ∉ regs_of (bs_stack b) ++ regs_of (map fst held) →
  (f = fl m ∨ plain (bs_stack b ++ map fst held)) → inv B b m' held own vs.
Proof.
  intros Hi Hu Hs Hr Hf. apply (inv_step _ _ Hrsp0 _ _ m); [done| | |].
  - intros l v Hl Hv. apply (holds_upd r f m); try done.
    + intros ->. apply Hr. rewrite <-regs_of_app. by apply elem_of_regs_of.
    + destruct Hf as [|Hp]; [by left|right]. unfold plain in Hp. rewrite Forall_forall in Hp. by apply Hp.
  - apply Hu. apply not_eq_sym. by apply scratch_not_rsp.
  - split; [|intros; by rewrite (upd_mm _ _ _ _ Hu)]. intros k Hk _. apply Hu. congruence.
Qed.

(** *** Stack slots *)

Lemma wp_adjusted_offset B b m held own vs o (Q : Z → BlockState → machine → Prop) :
  inv B b m held own vs → slot_ok (bs_depth b) (Stack o) →
  Q ((bs_depth b + o) * 8) b m → wp (adjusted_offset o) b m Q.
Proof.
  intros Hi Ho HQ. cbn in Ho. pose proof (inv_rsp_bounds _ _ Hrsp0 _ _ _ _ _ _ Hi) as [Hd _].
  apply wp_bind, wp_get, wp_bind. rewrite wrap_s_small by lia.
  apply (wp_lift _ _ (bs_depth b + o)); [apply i32_checked_small; lia|].
  apply (wp_lift _ _ ((bs_depth b + o) * 8)); [apply i32_checked_small; unfold WORD_SIZE; lia|done].
Qed.

Lemma ea_slot B b m held own vs o :
  inv B b m held own vs → slot_ok (bs_depth b) (Stack o) →
  ea la m (Addr RSP_ None ((bs_depth b + o) * 8)) = slot_addr rsp0 o.
Proof.
  intros Hi Ho. cbn in Ho. pose proof (inv_rsp_bounds _ _ Hrsp0 _ _ _ _ _ _ Hi) as [Hd _].
  cbn [ea]. rewrite (inv_rsp _ _ _ _ _ _ _ _ Hi). unfold slot_addr. rewrite Z.mod_small; lia.
Qed.

(** *** Copying into a register that has been taken *)

Lemma wp_copy_cond_reg c r t b m (Q : unit → BlockState → machine → Prop) :
  holds_cond (fl m) (x_cond c) = Some t →
  (∀ m', upd r (fl m) m m' → gpr m' r = Z.b2z t → Q tt b m') → wp (copy_cond_reg c r) b m Q.
Proof.
  intros Hc HQ. apply wp_bind. eapply wp_emit; [reflexivity|]. eapply wp_emit.
  - cbn [exec1]. cbn [write_op write_gpr with_gpr fl] in *. rewrite Hc. reflexivity.
  - apply HQ.
    + apply upd_again, upd_with_gpr.
    + unfold write_op, write_gpr. rewrite !gpr_with_gpr. by destruct t.
Qed.

Lemma wp_copy_value `{TakeReg} B b m held own vs l v r (Q : unit → BlockState → machine → Prop) :
  inv B b m ((l, v) :: held) own vs → l ≠ Reg (Rq r) →
  (∀ m', upd r (fl m) m m' → rep v (gpr m' r) → Q tt b m') →
  wp (copy_value l (CReg (Rq r))) b m Q.
Proof.
  intros Hi Hl HQ. pose proof (inv_held _ _ _ _ _ _ _ _ Hi) as Hv. apply Forall_cons in Hv as [Hv _].
  pose proof (inv_values _ _ _ _ _ _ _ _ Hi) as [_ Hok]. apply Forall_cons in Hok as [Hok _].
  pose proof (inv_slots _ _ _ _ _ _ _ _ Hi) as [_ Hs]. apply Forall_cons in Hs as [Hs _]. cbn [fst snd] in *.
  destruct l as [[k|k]|o|i|c]; cbn [copy_value].
  - rewrite decide_False by congruence. cbn [copy_reg_reg]. eapply wp_emit; [reflexivity|].
    apply HQ; [apply upd_with_gpr|]. unfold write_op, write_gpr. rewrite gpr_with_gpr.
    unfold read_src, read_op, read_gpr. cbn [bits]. by rewrite !rep_mod.
  - rewrite decide_False by congruence. cbn [copy_reg_reg]. eapply wp_emit; [reflexivity|].
    apply HQ; [apply upd_with_gpr|]. unfold write_gpr. rewrite gpr_with_gpr. by rewrite rep_mod.
  - apply wp_bind. eapply wp_adjusted_offset; [done|done|]. eapply wp_emit; [reflexivity|].
    apply HQ; [apply upd_with_gpr|]. unfold write_op, write_gpr. rewrite gpr_with_gpr, rep_mod.
    unfold read_src, read_op, at_rsp, read_mm. erewrite ea_slot by done. cbn [bits]. by rewrite rep_mod.
  - cbn [holds] in Hv. cbn in Hv. subst i. unfold immediate_to_reg. pose proof (rep_immediate v Hok) as Hr.
    destruct (wrap_u 64 (as_bytes v) <=? 2 ^ 32 - 1); (eapply wp_emit; [reflexivity|]);
      (apply HQ; [apply upd_with_gpr|]); unfold write_op, write_gpr; rewrite gpr_with_gpr;
      cbn [read_src bits]; rewrite Z.mod_mod by lia; done.
  - destruct Hv as (t & Ht & ->). apply (wp_copy_cond_reg c r t); [done|].
    intros m' Hu Hr. apply HQ; [done|]. rewrite Hr. done.
Qed.

(** *** Bringing a value into a register *)

Lemma inv_scratch B b m held own vs g :
  inv B b m held own vs → g ∈ regs_of (bs_stack b) ++ regs_of (map fst held) ++ own → g ∈ SCRATCH_REGS.
Proof. intros Hi. apply (owns_scratch _ _ (inv_owns _ _ _ _ _ _ _ _ Hi)). Qed.

(** One more use of a register that is in use. *)
Lemma wp_mark_used_inv B b m held own vs g (Q : unit → BlockState → machine → Prop) :
  inv B b m held own vs → g ∈ SCRATCH_REGS → zlen vs + zlen held + zlen own < 199 →
  (∀ b', inv B b' m held (g :: own) vs → bs_stack b' = bs_stack b → bs_depth b' = bs_depth b → Q tt b' m) →
  wp (mark_used g) b m Q.
Proof.
  intros Hi Hg Hsm HQ. pose proof (inv_zlen _ _ Hrsp0 _ _ _ _ _ _ Hi) as Hz.
  pose proof (uses_le g (regs_of (bs_stack b) ++ regs_of (map fst held) ++ own)).
  destruct (mark_used_owns _ _ g (inv_owns _ _ _ _ _ _ _ _ Hi) Hg) as (R' & E & Ho); [lia|].
  apply (wp_mark_used _ R'); [done|]. apply HQ; [|done|done]. destruct Hi. split; try done.
  - cbn [bs_regs with_regs bs_stack]. revert Ho. apply owns_perm. by rewrite <-!Permutation_middle.
  - rewrite zlen_cons. lia.
Qed.

(** What brings a value into a register ends with: a register of [own] holds it, the one
    that it was in or a fresh one. *)
Definition in_own B b m held own vs l v (Q : GPR → BlockState → machine → Prop) : Prop :=
  ∀ r b' m', inv B b' m' held (Rq r :: own) vs → rep v (gpr m' r) → moved b m b' m' →
    (l = Reg (Rq r) ∨ fresh b' held own r) → Q (Rq r) b' m'.
Definition in_fresh B b m held own vs v (Q : GPR → BlockState → machine → Prop) : Prop :=
  ∀ r b' m', inv B b' m' held (Rq r :: own) vs → rep v (gpr m' r) → moved b m b' m' →
    fresh b' held own r → Q (Rq r) b' m'.

(** The end of [into_reg] and [into_temp_reg]. *)
Definition freed (l : ValueLocation) (Q : GPR → BlockState → machine → Prop)
    (out : option GPR) (b : BlockState) (m : machine) : Prop :=
  wp match out with None => ret None | Some out => _ ← free_value l; ret (Some out) end b m
    (λ o b' m', ∃ g, o = Some g ∧ Q g b' m').

Lemma wp_copy_to_scratch B b m held own vs l v (Q : GPR → BlockState → machine → Prop) :
  inv B b m ((l, v) :: held) own vs → (length held + length own < 7)%nat →
  zlen vs + zlen held + zlen own < 198 → in_fresh B b m held own vs v Q →
  wp (copy_to_scratch Rq_ l) b m (freed l Q).
Proof.
  intros Hi Hroom Hsm HQ. apply wp_bind. unfold ty_or_rq, Rq_.
  eapply wp_take; [done|done|cbn; lia|rewrite zlen_cons; lia|]. intros r b1 m1 Hi1 [Hs Hfr] Hmv.
  cbn [map fst] in Hfr.
  assert (l ≠ Reg (Rq r)) as Hne by (intros ->; apply Hfr; cbn; set_solver).
  apply wp_bind. eapply wp_copy_value; [done|done|]. intros m2 Hu Hrep. apply wp_ret, wp_bind.
  eapply inv_upd in Hi1; [|done|done|set_solver|by left].
  eapply wp_free_value; [done|done|]. intros b3 Hi3 Est Edep. apply wp_ret. exists (Rq r). split; [done|].
  apply HQ; [done|done| |].
  - destruct Hmv as [Hf Hp Hg Hd]. split; [by rewrite (upd_fl _ _ _ _ Hu)|by rewrite ?Est, ?Edep..].
  - split; [done|]. rewrite Est. intros Hin. apply Hfr. destruct l; set_solver.
Qed.

(** A register that the value is in already gets one use more, and then one less. *)
Lemma wp_use_again B b m held own vs r v (Q : GPR → BlockState → machine → Prop) :
  inv B b m ((Reg (Rq r), v) :: held) own vs → zlen vs + zlen held + zlen own < 198 →
  (∀ b', inv B b' m held (Rq r :: own) vs → rep v (gpr m r) → moved b m b' m → bs_stack b' = bs_stack b → Q (Rq r) b' m) →
  wp (_ ← mark_used (Rq r); ret (Some (Rq r))) b m (freed (Reg (Rq r)) Q).
Proof.
  intros Hi Hsm HQ. apply wp_bind.
  eapply wp_mark_used_inv; [done|eapply inv_scratch; [done|]; cbn; set_solver|rewrite zlen_cons; lia|].
  intros b1 Hi1 E1 D1. apply wp_ret, wp_bind. eapply wp_free_value; [done|done|]. intros b2 Hi2 E2 D2.
  apply wp_ret. eexists. split; [done|]. apply HQ; [done| |split; rewrite ?E2, ?E1; done || lia|congruence].
  pose proof (inv_held _ _ _ _ _ _ _ _ Hi) as Hv. by apply Forall_cons in Hv as [Hv _].
Qed.

Lemma wp_as_reg B b m held own vs l v (Q : GPR → BlockState → machine → Prop) :
  inv B b m ((l, v) :: held) own vs → (length held + length own < 7)%nat →
  zlen vs + zlen held + zlen own < 198 → in_own B b m held own vs l v Q → wp (as_reg Rq_ l) b m Q.
Proof.
  intros Hi Hroom Hsm HQ. apply wp_unwrapM, wp_bind. fold (freed l Q).
  assert (wp (copy_to_scratch Rq_ l) b m (freed l Q)) as Hcopy
    by (eapply wp_copy_to_scratch; [done..|]; intros r b' m' ? ? ? ?; apply HQ; auto).
  destruct l as [[r|r]|o|i|c]; try exact Hcopy. cbn [to_reg type_matches gpr_type Rq_].
  rewrite bool_decide_eq_true_2 by done. eapply wp_use_again; [done|done|].
  intros b' Hi' Hr Hmv E. apply HQ; [done|done|done|by left].
Qed.

Lemma wp_as_temp B b m held own vs l v (Q : GPR → BlockState → machine → Prop) :
  inv B b m ((l, v) :: held) own vs → (length held + length own < 7)%nat →
  zlen vs + zlen held + zlen own < 198 → in_fresh B b m held own vs v Q → wp (as_temp Rq_ l) b m Q.
Proof.
  intros Hi Hroom Hsm HQ. apply wp_unwrapM, wp_bind. fold (freed l Q).
  assert (wp (copy_to_scratch Rq_ l) b m (freed l Q)) as Hcopy by (by eapply wp_copy_to_scratch).
  destruct l as [[r|r]|o|i|c]; try exact Hcopy; cbn [to_temp_reg type_matches gpr_type Rq_].
  2: { apply wp_bind.
       assert (Rx r ∈ SCRATCH_REGS) as Hs by (eapply inv_scratch; [done|]; cbn; set_solver).
       eapply wp_usages; [exact (usages_owns _ _ _ (inv_owns _ _ _ _ _ _ _ _ Hi) Hs)|].
       by rewrite bool_decide_eq_false_2, andb_false_r by done. }
  assert (Rq r ∈ SCRATCH_REGS) as Hs by (eapply inv_scratch; [done|]; cbn; set_solver).
  apply wp_bind. eapply wp_usages; [exact (usages_owns _ _ _ (inv_owns _ _ _ _ _ _ _ _ Hi) Hs)|].
  cbn [map fst]. change (regs_of (Reg (Rq r) :: ?k)) with (Rq r :: regs_of k).
  rewrite bool_decide_eq_true_2, andb_true_r by done. case_match eqn:Hle; [|exact Hcopy].
  apply Z.leb_le in Hle. eapply wp_use_again; [done|done|]. intros b' Hi' Hr Hmv E.
  apply HQ; [done|done|done|]. split; [done|]. rewrite E. apply uses_zero.
  rewrite uses_app in *. cbn [app] in Hle. rewrite uses_cons, decide_True in Hle by done.
  pose proof (uses_nonneg (Rq r) (regs_of (bs_stack b))).
  pose proof (uses_nonneg (Rq r) (regs_of (map fst held) ++ own)). lia.
Qed.

(** *** The virtual stack *)

Lemma inv_popped B b m held own vs l x v :
  inv B b m held own (vs ++ [v]) → bs_stack b = l ++ [x] →
  inv B (with_stack b l) m ((x, v) :: held) own vs.
Proof.
  intros [Ho Hst Hh [Hv1 Hv2] Hr [Hs1 Hs2] [Hd1 Hd2] Hsm Hk] E. rewrite E in *.
  apply Forall2_app_inv in Hst as [Hst Hx]; [|apply Forall2_length in Hst; rewrite !length_app in Hst; cbn in Hst; lia].
  apply Forall2_cons in Hx as [Hx _].
  apply Forall_app in Hv1 as [Hv1 Hv], Hs1 as [Hs1 Hs]. apply Forall_cons in Hv as [Hv _], Hs as [Hs _].
  rewrite zlen_app in Hsm. change (zlen [v]) with 1 in Hsm.
  rewrite regs_of_app, zlen_app in Hd2. pose proof (zlen_nonneg (regs_of [x])).
  split; cbn [bs_regs with_stack bs_stack bs_depth map fst]; try done.
  - revert Ho. apply owns_perm. rewrite regs_of_app.
    change (regs_of (x :: map fst held)) with (regs_of ([x] ++ map fst held)). rewrite regs_of_app.
    by rewrite !(assoc_L (++)).
  - by constructor.
  - split; [done|by constructor].
  - split; [done|by constructor].
  - lia.
  - rewrite zlen_cons. lia.
Qed.

Lemma wp_pop B b m held own vs v (Q : ValueLocation → BlockState → machine → Prop) :
  inv B b m held own (vs ++ [v]) →
  (∀ l x, bs_stack b = l ++ [x] → inv B (with_stack b l) m ((x, v) :: held) own vs → Q x (with_stack b l) m) →
  wp pop b m Q.
Proof.
  intros Hi HQ. pose proof (Forall2_length _ _ _ (inv_stack _ _ _ _ _ _ _ _ Hi)) as Hlen.
  destruct (bs_stack b) as [|x l _] eqn:E using rev_ind; [rewrite length_app in Hlen; cbn in Hlen; lia|].
  apply wp_bind, wp_get, wp_bind, (wp_lift _ _ (l, x)); [by rewrite E, vec_pop_snoc|].
  apply wp_bind, wp_put_stack, wp_ret, HQ; [done|]. by eapply inv_popped.
Qed.

Lemma inv_push B b m held own vs x v :
  inv B b m ((x, v) :: held) own vs → B < 2 ^ 16 →
  inv (B + 1) (with_stack b (bs_stack b ++ [x])) m held own (vs ++ [v]).
Proof.
  intros [Ho Hst Hh [Hv1 Hv2] Hr [Hs1 Hs2] [Hd1 Hd2] Hsm Hk] HB.
  apply Forall_cons in Hh as [Hx Hh], Hv2 as [Hv Hv2], Hs2 as [Hs Hs2]. rewrite zlen_cons in Hsm.
  split; cbn [bs_regs with_stack bs_stack bs_depth]; try done.
  - revert Ho. apply owns_perm. cbn [map fst]. rewrite regs_of_app.
    change (regs_of (x :: map fst held)) with (regs_of ([x] ++ map fst held)). rewrite regs_of_app.
    by rewrite !(assoc_L (++)).
  - apply Forall2_app; [done|by constructor].
  - split; [|done]. apply Forall_app. by split; [|constructor].
  - split; [|done]. apply Forall_app. by split; [|constructor].
  - rewrite regs_of_app, zlen_app. pose proof (regs_of_zlen [x]). change (zlen [x]) with 1 in *. lia.
  - rewrite zlen_app. change (zlen [v]) with 1. lia.
Qed.

Lemma wp_push_raw B b m held own vs x v (Q : unit → BlockState → machine → Prop) :
  inv B b m ((x, v) :: held) own vs → B < 2 ^ 16 →
  (∀ b', inv (B + 1) b' m held own (vs ++ [v]) → bs_stack b' = bs_stack b ++ [x] → Q tt b' m) →
  wp (push_raw x) b m Q.
Proof. intros Hi HB HQ. apply wp_bind, wp_get, wp_put_stack, HQ; [|done]. by apply inv_push. Qed.

(** Pushing when no condition is on the stack. *)
Lemma wp_push_eq b m x (Q : unit → BlockState → machine → Prop) :
  plain (bs_stack b) → Q tt (with_stack b (bs_stack b ++ [x])) m → wp (push x) b m Q.
Proof.
  intros Hp HQ. apply wp_bind, wp_get, wp_bind.
  assert (∀ Q' : unit → BlockState → machine → Prop, Q' tt b m →
    wp match vec_pop (bs_stack b) with
       | Some (l, Cond c) => _ ← put_stack l; top ← unwrapM (into_reg (Some TRq) (Cond c));
           b ← get_bs; put_stack (bs_stack b ++ [Reg top])
       | _ => ret tt end b m Q') as Hm.
  { intros Q' HQ'. destruct (bs_stack b) as [|y l _] using rev_ind; [by apply wp_ret|]. rewrite vec_pop_snoc.
    apply Forall_app in Hp as [_ Hy]. apply Forall_cons in Hy as [Hy _]. destruct y; first [done|by apply wp_ret]. }
  apply Hm. by apply wp_bind, wp_get, wp_put_stack.
Qed.

Lemma wp_push_plain B b m held own vs x v (Q : unit → BlockState → machine → Prop) :
  inv B b m ((x, v) :: held) own vs → B < 2 ^ 16 → plain (bs_stack b) →
  (∀ b', inv (B + 1) b' m held own (vs ++ [v]) → bs_stack b' = bs_stack b ++ [x] → Q tt b' m) →
  wp (push x) b m Q.
Proof. intros Hi HB Hp HQ. apply wp_push_eq, HQ; [done| |done]. by apply inv_push. Qed.

Lemma inv_mono B B' b m held own vs : inv B b m held own vs → B ≤ B' ≤ 2 ^ 16 → inv B' b m held own vs.
Proof. intros [? ? ? ? ? ? [? ?] ? ?] HB. split; try done. lia. Qed.

(** Pushing when there may be a condition on top. *)
Lemma wp_push B b m held own vs x v (Q : unit → BlockState → machine → Prop) :
  inv B b m ((x, v) :: held) own vs → B + 1 < 2 ^ 16 → flags_on_top (bs_stack b) →
  (length held + length own < 6)%nat → zlen vs + zlen held + zlen own < 197 → is_cond x = false →
  (∀ b' m', inv (B + 2) b' m' held own (vs ++ [v]) → plain (bs_stack b') → Q tt b' m') →
  wp (push x) b m Q.
Proof.
  intros Hi HB Hp Hroom Hsm Hx HQ.
  assert (plain (bs_stack b) → wp (push x) b m Q) as Hplain.
  { intros Hpl. eapply wp_push_plain; [done|lia|done|]. intros b' Hi' E. apply HQ.
    - eapply inv_mono; [done|]. lia.
    - rewrite E. apply plain_app. by split; [|constructor]. }
  destruct (bs_stack b) as [|y l _] eqn:E using rev_ind; [apply Hplain; constructor|].
  apply flags_on_top_snoc in Hp. destruct (is_cond y) eqn:Hy;
    [|apply Hplain, plain_app; by split; [|constructor]]. destruct y as [| | |c]; try done. clear Hplain.
  destruct vs as [|w vs _] using rev_ind.
  { pose proof (Forall2_length _ _ _ (inv_stack _ _ _ _ _ _ _ _ Hi)) as Hl. rewrite E, length_app in Hl. cbn in Hl. lia. }
  rewrite zlen_app in Hsm. change (zlen [w]) with 1 in Hsm.
  apply wp_bind, wp_get, wp_bind. rewrite E, vec_pop_snoc. apply wp_bind, wp_put_stack, wp_bind.
  eapply (wp_as_reg B _ _ ((x, v) :: held) own vs (Cond c) w); [by eapply inv_popped|cbn; lia|rewrite zlen_cons; lia|].
  intros r b1 m1 Hi1 Hr [_ Hpl _ _] _. apply wp_bind, wp_get, wp_put_stack, wp_bind, wp_get, wp_put_stack.
  pose proof (inv_values _ _ _ _ _ _ _ _ Hi) as [Hok _]. apply Forall_app in Hok as [_ Hok]. apply Forall_cons in Hok as [Hok _].
  eapply inv_own_held in Hi1; [|done|exact Hr|done]. apply inv_push in Hi1; [|lia]. apply inv_push in Hi1; [|lia].
  cbn [with_stack bs_stack bs_depth bs_regs] in *. apply HQ.
  - eapply inv_mono; [exact Hi1|]. lia.
  - cbn [with_stack bs_stack]. rewrite !plain_app. split_and!; [by apply Hpl|by constructor|by constructor].
Qed.
End moves.
