(* ===== verification/LightbeamArith.v ===== *)
(** * Lightbeam: arithmetic and comparisons

    The code that the operators on integers emit computes what WebAssembly prescribes:
    first for the instructions of the processor, then for the methods of
    LightbeamOps, which choose among them by where the operands are. *)

From S2P Require Import Prelude Microwasm MicrowasmProofs Store X64 LightbeamRegs LightbeamOwns Lightbeam.
From S2P Require Import LightbeamOps LightbeamInv LightbeamMoves.
Import V(Value) registers.
Local Open Scope Z_scope.

(** ** Integers of 32 and 64 bits *)

Notation wbits z := (bits (width_of z)).
Definition fits (z : Size) (a : Z) : Prop := - 2 ^ (wbits z - 1) ≤ a < 2 ^ (wbits z - 1).

Lemma value_ok_int z a : value_ok (value_of z a) ↔ fits z a.
Proof. by destruct z. Qed.
Lemma rep_int z a x : rep (value_of z a) x ↔ x mod 2 ^ wbits z = a mod 2 ^ wbits z.
Proof. by destruct z. Qed.
Lemma wbits_pos z : 0 < wbits z ∧ 0 < 2 ^ wbits z.
Proof. by destruct z. Qed.
Lemma wbits_double z : 2 ^ wbits z = 2 * 2 ^ (wbits z - 1).
Proof. by destruct z. Qed.
Lemma size_wbits z : size_bits z = wbits z.
Proof. by destruct z. Qed.
Lemma write_gpr_int m z r v : write_gpr m (width_of z) r v = with_gpr m r (v mod 2 ^ wbits z).
Proof. by destruct z. Qed.
Lemma fits_wrap z x : fits z (wrap_s (size_bits z) x).
Proof. rewrite size_wbits. apply wrap_s_range, wbits_pos. Qed.

(** The upper bits of a number that fits are all the same. *)
Lemma fits_shiftr z a : fits z a ↔ Z.shiftr a (wbits z - 1) = 0 ∨ Z.shiftr a (wbits z - 1) = -1.
Proof.
  unfold fits. assert (0 < 2 ^ (wbits z - 1)) by (by destruct z).
  rewrite Z.shiftr_div_pow2 by (by destruct z). set (p := 2 ^ (wbits z - 1)) in *. clearbody p.
  pose proof (Z.div_mod a p ltac:(lia)). pose proof (Z.mod_pos_bound a p). nia.
Qed.

Lemma land_fits z a b : fits z a → fits z b → fits z (Z.land a b).
Proof. rewrite !fits_shiftr, Z.shiftr_land. by intros [->| ->] [->| ->]; cbn; auto. Qed.
Lemma lor_fits z a b : fits z a → fits z b → fits z (Z.lor a b).
Proof. rewrite !fits_shiftr, Z.shiftr_lor. by intros [->| ->] [->| ->]; cbn; auto. Qed.
Lemma lxor_fits z a b : fits z a → fits z b → fits z (Z.lxor a b).
Proof. rewrite !fits_shiftr, Z.shiftr_lxor. by intros [->| ->] [->| ->]; cbn; auto. Qed.

Ltac by_bits n :=
  apply Z.bits_inj'; intros i Hi;
  repeat rewrite ?Z.land_spec, ?Z.lor_spec, ?Z.lxor_spec, ?Z.mod_pow2_bits_low, ?Z.mod_pow2_bits_high by lia;
  destruct (decide (i < n)); [rewrite !Z.mod_pow2_bits_low by lia|rewrite !Z.mod_pow2_bits_high by lia];
  rewrite ?Z.land_spec, ?Z.lor_spec, ?Z.lxor_spec, ?Z.mod_pow2_bits_low by lia; try done.

Lemma land_mod n a b : 0 ≤ n → Z.land (a mod 2 ^ n) (b mod 2 ^ n) = Z.land a b mod 2 ^ n.
Proof. intros Hn. by_bits n. Qed.
Lemma lor_mod n a b : 0 ≤ n → Z.lor (a mod 2 ^ n) (b mod 2 ^ n) = Z.lor a b mod 2 ^ n.
Proof. intros Hn. by_bits n. Qed.
Lemma lxor_mod n a b : 0 ≤ n → Z.lxor (a mod 2 ^ n) (b mod 2 ^ n) = Z.lxor a b mod 2 ^ n.
Proof. intros Hn. by_bits n. Qed.

(** ** What the instructions compute *)

(** [op] computes [f] on integers of the size. *)
Definition computes (op : alu) (z : Size) (f : Z → Z → Z) : Prop :=
  ∀ a b, fits z a → fits z b → fits z (f a b) ∧ ∃ r,
    (alu_result op (width_of z) (a mod 2 ^ wbits z) (b mod 2 ^ wbits z)).1 = Some r ∧
    r mod 2 ^ wbits z = f a b mod 2 ^ wbits z.

Lemma computes_add z : computes ADD z (wrapping z Z.add).
Proof.
  intros a b _ _. split; [apply fits_wrap|]. eexists. split; [done|]. unfold wrapping.
  rewrite size_wbits, wrap_s_mod by apply wbits_pos. pose proof (wbits_pos z).
  by rewrite Z.mod_mod, <-Zplus_mod by lia.
Qed.
Lemma computes_sub z : computes SUB z (wrapping z Z.sub).
Proof.
  intros a b _ _. split; [apply fits_wrap|]. eexists. split; [done|]. unfold wrapping.
  rewrite size_wbits, wrap_s_mod by apply wbits_pos. pose proof (wbits_pos z).
  by rewrite Z.mod_mod, <-Zminus_mod by lia.
Qed.
Lemma computes_and z : computes AND z Z.land.
Proof.
  intros a b Ha Hb. split; [by apply land_fits|]. eexists. split; [done|]. pose proof (wbits_pos z).
  by rewrite land_mod, Z.mod_mod by lia.
Qed.
Lemma computes_or z : computes OR z Z.lor.
Proof.
  intros a b Ha Hb. split; [by apply lor_fits|]. eexists. split; [done|]. pose proof (wbits_pos z).
  by rewrite lor_mod, Z.mod_mod by lia.
Qed.
Lemma computes_xor z : computes XOR z Z.lxor.
Proof.
  intros a b Ha Hb. split; [by apply lxor_fits|]. eexists. split; [done|]. pose proof (wbits_pos z).
  by rewrite lxor_mod, Z.mod_mod by lia.
Qed.

(** The flags after a comparison. *)
Definition condition (z : Size) (c : CondCode) (a b : Z) : bool :=
  match c with
  | ZF0 => a =? b
  | ZF1 => negb (a =? b)
  | CF0 => unsigned z Z.geb a b
  | CF1 => unsigned z Z.ltb a b
  | CF0AndZF0 => unsigned z Z.gtb a b
  | CF1OrZF1 => unsigned z Z.leb a b
  | SFEqOF => Z.geb a b
  | SFNeOF => Z.ltb a b
  | ZF0AndSFEqOF => Z.gtb a b
  | ZF1OrSFNeOF => Z.leb a b
  end.

Lemma mod_fits z a : fits z a → a mod 2 ^ wbits z = if 0 <=? a then a else a + 2 ^ wbits z.
Proof.
  unfold fits. rewrite (wbits_double z). intros Ha. case_match eqn:E.
  - apply Z.leb_le in E. apply Z.mod_small. lia.
  - apply Z.leb_gt in E. symmetry. apply (Z.mod_unique_pos _ _ (-1)); lia.
Qed.

Section compare.
Context (z : Size) (a b : Z) (Ha : fits z a) (Hb : fits z b).
Let a' := a mod 2 ^ wbits z.
Let b' := b mod 2 ^ wbits z.
Let f := sub_flags (width_of z) a' b'.

Lemma cmp_ZF : ZF f = Some (a =? b).
Proof using Ha Hb.
  cbn [ZF f sub_flags]. unfold f, sub_flags; cbn [ZF]. f_equal. unfold a', b'. rewrite <-Zminus_mod.
  unfold fits in *. rewrite (wbits_double z) in *. apply Z.b2z_inj.
  destruct (Z.eqb_spec a b) as [->|Hne]; [by rewrite Z.sub_diag|]. rewrite (proj2 (Z.eqb_neq _ _)); [done|].
  intros E. apply Z.mod_divide in E; [|lia]. destruct E as [k E]. assert (k = 0) by nia. lia.
Qed.
Lemma cmp_signs :
  SF f = Some (sign (width_of z) ((a - b) mod 2 ^ wbits z)) ∧
  OF f = Some (negb (Bool.eqb (a <? 0) (b <? 0)) && negb (Bool.eqb (sign (width_of z) ((a - b) mod 2 ^ wbits z)) (a <? 0))).
Proof using Ha Hb.
  assert (∀ x, fits z x → sign (width_of z) (x mod 2 ^ wbits z) = (x <? 0)) as Hsign.
  { intros x Hx. unfold sign. rewrite (mod_fits z x Hx). unfold fits in Hx. rewrite (wbits_double z).
    set (p := 2 ^ (wbits z - 1)) in *. clearbody p. destruct (Z.leb_spec 0 x); lia. }
  unfold f, sub_flags, a', b'. cbn [SF OF]. by rewrite <-Zminus_mod, (Hsign a Ha), (Hsign b Hb).
Qed.
Lemma cmp_lt : ∃ s o, SF f = Some s ∧ OF f = Some o ∧ negb (Bool.eqb s o) = (a <? b).
Proof using Ha Hb.
  destruct cmp_signs as [-> ->]. eexists _, _. split; [done|]. split; [done|].
  unfold sign, fits in *. pose proof (wbits_double z) as E2. set (p := 2 ^ (wbits z - 1)) in *. rewrite E2. clearbody p.
  assert (∃ k, (a - b) mod (2 * p) = a - b + k * (2 * p) ∧ 0 ≤ a - b + k * (2 * p) < 2 * p) as (k & -> & Hk).
  { exists (- ((a - b) / (2 * p))). pose proof (Z.div_mod (a - b) (2 * p)). pose proof (Z.mod_pos_bound (a - b) (2 * p)). nia. }
  assert (k = 0 ∨ k = 1) as [->| ->] by nia;
    destruct (Z.ltb_spec a 0), (Z.ltb_spec b 0), (Z.ltb_spec a b); cbn [Bool.eqb negb andb];
    match goal with |- context [Z.leb ?x ?y] => destruct (Z.leb_spec x y) end; cbn; try done; exfalso; lia.
Qed.

Lemma compare_flags c : holds_cond f (x_cond c) = Some (condition z c a b).
Proof using Ha Hb.
  destruct cmp_lt as (s & o & ES & EO & Elt). pose proof cmp_ZF as EZ.
  assert (CF f = Some (unsigned z Z.ltb a b)) as EC
    by (unfold f, sub_flags, unsigned, wrap_u; cbn [CF]; by rewrite size_wbits).
  assert (Eeq : (a' =? b') = (a =? b)).
  { unfold a', b'. rewrite !mod_fits by done. unfold fits in *. rewrite (wbits_double z).
    destruct (Z.leb_spec 0 a), (Z.leb_spec 0 b); apply Bool.eq_iff_eq_true; rewrite !Z.eqb_eq; lia. }
  assert (Bool.eqb s o = (b <=? a)) as Ege by (destruct (Bool.eqb s o); cbn in Elt; lia).
  destruct c; cbn [x_cond holds_cond condition]; rewrite ?EZ, ?EC, ?ES, ?EO; cbn [mbind option_bind];
    f_equal; unfold unsigned, wrap_u; rewrite ?size_wbits; fold a' b'; rewrite ?Ege;
    try lia; rewrite <-Eeq; lia.
Qed.
End compare.

(** ** Operators on two integers *)

(** The sizes of lists that are known to be short. *)
Ltac size := unfold zlen in *; cbn [length] in *; rewrite ?length_app in *; cbn [length] in *; lia.

Lemma load_le_low m a : load_le m a 4 mod 2 ^ 32 = load_le m a 8 mod 2 ^ 32.
Proof.
  assert (load_le m a 8 = load_le m a 4 + load_le m (a + 4) 4 * 2 ^ 32) as ->.
  { unfold load_le, load_bytes. change (seqZ 0 (Z.of_nat 8)) with [0; 1; 2; 3; 4; 5; 6; 7].
    change (seqZ 0 (Z.of_nat 4)) with [0; 1; 2; 3]. cbn [map le_val]. rewrite <-!Z.add_assoc.
    change (4 + 0) with 4. change (4 + 1) with 5. change (4 + 2) with 6. change (4 + 3) with 7. lia. }
  by rewrite Z.mod_add by lia.
Qed.

Section arith.
Context (rsp0 : Z) (m0 : machine) (Hrsp0 : 2 ^ 20 ≤ rsp0 < 2 ^ 63) `{Sse} (la : Z → Z).
Set Default Proof Using "Type*".
Notation inv := (inv rsp0 m0).
Notation holds := (holds rsp0).
Notation wp := (wp la).
Implicit Types (held : list (ValueLocation * Value)) (own : list GPR) (vs : list Value).

Lemma inv_perm_own B b m held own own' vs :
  inv B b m held own vs → own ≡ₚ own' → inv B b m held own' vs.
Proof. intros [Ho ? ? ? ? ? ? Hsm ?] E. split; try done; [by rewrite <-E|]. unfold zlen in *. by rewrite <-E. Qed.

(** The reverse of [inv_own_held]. *)
Lemma inv_held_own B b m held own vs g v :
  inv B b m ((Reg g, v) :: held) own vs → holds m (Reg g) v ∧ inv B b m held (g :: own) vs.
Proof.
  intros [Ho ? Hh [? Hv] ? [? Hs] ? Hsm ?]. apply Forall_cons in Hh as [Hg Hh], Hv as [_ Hv], Hs as [_ Hs].
  split; [done|]. split; try done.
  - revert Ho. apply owns_perm. cbn [map fst]. change (regs_of (Reg g :: ?k)) with (g :: regs_of k).
    cbn [app]. by rewrite <-!Permutation_middle.
  - rewrite zlen_cons in Hsm. rewrite zlen_cons. lia.
Qed.

Lemma inv_head_ok B b m l v held own vs : inv B b m ((l, v) :: held) own vs → holds m l v ∧ value_ok v ∧ slot_ok (bs_depth b) l.
Proof.
  intros [_ _ Hh [_ Hv] _ [_ Hs] _ _ _]. apply Forall_cons in Hh as [Hg _], Hv as [Hv _], Hs as [Hs _]. done.
Qed.

(** The instruction with the register that it changes and its other operand. *)
Lemma exec_alu op z f l src m a c :
  computes op z f → fits z a → fits z c → rep (value_of z a) (gpr m l) →
  read_src la m (width_of z) src = c mod 2 ^ wbits z →
  ∃ m' fl', exec1 la (ALU op (width_of z) (OReg l) src) m = Some (Next m') ∧ upd l fl' m m' ∧
    rep (value_of z (f a c)) (gpr m' l).
Proof.
  intros Hop Ha Hc Hl Hr. apply rep_int in Hl. destruct (Hop a c Ha Hc) as (_ & r & E & Hres).
  cbn [exec1 read_op]. unfold read_gpr. rewrite Hl, Hr.
  destruct (alu_result op (width_of z) _ _) as [o fl'] eqn:Ealu. cbn in E. subst o.
  eexists _, fl'. split; [done|]. cbn [write_op]. rewrite write_gpr_int. split; [apply upd_with_fl|].
  apply rep_int. cbn [with_fl gpr with_gpr]. rewrite Z.eqb_refl. pose proof (wbits_pos z).
  by rewrite Z.mod_mod by lia.
Qed.

(** What is in a register or in a slot, as second operand. *)
Lemma read_reg z m r c : rep (value_of z c) (gpr m r) → read_src la m (width_of z) (Src (OReg r)) = c mod 2 ^ wbits z.
Proof. intros Hr. by apply rep_int in Hr. Qed.
Lemma read_slot B b m held own vs z o c :
  inv B b m ((Stack o, value_of z c) :: held) own vs →
  read_op la m (width_of z) (at_rsp ((bs_depth b + o) * 8)) = c mod 2 ^ wbits z.
Proof.
  intros Hi. destruct (inv_head_ok _ _ _ _ _ _ _ _ Hi) as (Hv & _ & Hs). cbn [read_op at_rsp].
  erewrite ea_slot by done. cbn in Hv. apply rep_int in Hv. unfold read_mm. destruct z; [|done].
  cbn [width_of wbytes bits] in *. rewrite <-Hv. apply load_le_low.
Qed.

(** *** [binop!] *)

(** The last steps: the second operand is freed, the register is pushed. *)
Lemma wp_finish B b m vs l rhs w v (Q : unit → BlockState → machine → Prop) :
  inv B b m [(rhs, w)] [Rq l] vs → rep v (gpr m l) → value_ok v → B < 2 ^ 16 → plain (bs_stack b) →
  (∀ b' m', inv (B + 1) b' m' [] [] (vs ++ [v]) → plain (bs_stack b') → Q tt b' m') →
  wp (_ ← free_value rhs; push (Reg (Rq l))) b m Q.
Proof.
  intros Hi Hl Hv HB Hp HQ. apply wp_bind. eapply wp_free_value; [done|done|]. intros b1 Hi1 E _.
  eapply inv_own_held in Hi1; [|done|exact Hl|done].
  eapply wp_push_plain; [done|done|done|by rewrite E|]. intros b2 Hi2 E2. apply HQ; [done|].
  rewrite E2, E. apply plain_app. by split; [|constructor].
Qed.

(** A write to a register that only [own] has. *)
Lemma inv_own_write B b m m' held own vs l f :
  inv B b m held (Rq l :: own) vs → upd l f m m' →
  Rq l ∉ regs_of (bs_stack b) ++ regs_of (map fst held) → plain (bs_stack b ++ map fst held) →
  inv B b m' held (Rq l :: own) vs.
Proof using Hrsp0 la m0 rsp0.
  intros Hi Hu Hl Hp. eapply inv_upd; [done|done|done| |done|by right].
  eapply inv_scratch; [done|done|]. set_solver.
Qed.

(** The second operand while the first is in a register of its own. *)
Section second.
Context (B : Z) vs (z : Size) (op : alu) (f : Z → Z → Z) (l a c : Z) (Hop : computes op z f) (Ha : fits z a) (Hc : fits z c) (Hsm : zlen vs < 190).
Context (Q : ValueLocation → BlockState → machine → Prop)
  (HQ : ∀ rhs b m, inv B b m [(rhs, value_of z c)] [Rq l] vs → rep (value_of z (f a c)) (gpr m l) →
     plain (bs_stack b) → Q rhs b m).

Lemma inv_first_held b m rhs :
  inv B b m [(rhs, value_of z c)] [Rq l] vs → rep (value_of z a) (gpr m l) →
  inv B b m [(rhs, value_of z c); (Reg (Rq l), value_of z a)] [] vs.
Proof.
  intros Hi Hl. eapply inv_perm_held; [done| |apply Permutation_swap].
  eapply inv_own_held; [done|done|exact Hl|by apply value_ok_int].
Qed.

(** The operation on two registers, of which [own] has both. *)
Lemma alu_registers b m r k :
  inv B b m ((Reg (Rq l), value_of z a) :: k) [Rq r] vs → rep (value_of z c) (gpr m r) → r ≠ l →
  Rq l ∉ regs_of (bs_stack b) ++ regs_of (map fst k) → plain (bs_stack b ++ map fst k) →
  ∃ m', exec1 la (ALU op (width_of z) (OReg l) (Src (OReg r))) m = Some (Next m') ∧
    rep (value_of z (f a c)) (gpr m' l) ∧ inv B b m' ((Reg (Rq r), value_of z c) :: k) [Rq l] vs.
Proof.
  intros Hi Hr Hne Hl Hp. apply inv_held_own in Hi as [Hl2 Hi].
  destruct (exec_alu op z f l (Src (OReg r)) m a c) as (m' & f' & E & Hu & Hres); [done..|by apply read_reg|].
  exists m'. split_and!; [done|done|]. eapply (inv_own_write _ _ _ m') in Hi; [|done..].
  eapply inv_perm_own in Hi; [|apply Permutation_swap].
  eapply (inv_own_held rsp0 m0 Hrsp0) in Hi; [exact Hi|cbn; by rewrite (upd_gpr _ _ _ _ Hu)|by apply value_ok_int].
Qed.

Lemma wp_second_reg b m rhs :
  inv B b m [(rhs, value_of z c)] [Rq l] vs → rep (value_of z a) (gpr m l) →
  fresh b [(rhs, value_of z c)] [] l → plain (bs_stack b) →
  wp (rhs_reg ← as_reg (Some TRq) rhs; r ← rqM rhs_reg;
      _ ← emit (ALU op (width_of z) (OReg l) (Src (OReg r))); ret (Reg rhs_reg)) b m Q.
Proof.
  intros Hi Hl [Hls Hlf] Hp. rewrite app_nil_r in Hlf. apply wp_bind.
  eapply wp_as_reg; [done|by apply inv_first_held|size|size|]. intros r b1 m1 Hi2 Hr [_ Hpl Hrg _] Hfr.
  apply wp_bind, (wp_lift _ _ r); [done|].
  destruct (alu_registers b1 m1 r []) as (m2 & E & Hres & Hi3); [done|done| | |cbn; rewrite app_nil_r; by apply Hpl|].
  - intros ->. destruct Hfr as [->|[_ Hn]]; [apply Hlf; cbn; set_solver|]. apply Hn. cbn. set_solver.
  - cbn. rewrite app_nil_r. intros Hin%Hrg. apply Hlf. set_solver.
  - apply wp_bind. eapply wp_emit; [exact E|]. apply wp_ret, HQ; [done|done|by apply Hpl].
Qed.

Lemma wp_second_stack b m o :
  inv B b m [(Stack o, value_of z c)] [Rq l] vs → rep (value_of z a) (gpr m l) →
  fresh b [(Stack o, value_of z c)] [] l → plain (bs_stack b) →
  wp (offset ← adjusted_offset o;
      _ ← emit (ALU op (width_of z) (OReg l) (Src (at_rsp offset))); ret (Stack o)) b m Q.
Proof.
  intros Hi Hl [Hls Hlf] Hp. rewrite app_nil_r in Hlf.
  apply wp_bind. eapply wp_adjusted_offset; [done|done|by eapply inv_head_ok|].
  destruct (exec_alu op z f l (Src (at_rsp ((bs_depth b + o) * 8))) m a c) as (m2 & f2 & E2 & Hu & Hres);
    [done..|cbn [read_src]; by eapply read_slot|].
  apply wp_bind. eapply wp_emit; [exact E2|]. apply wp_ret, HQ; [|done|done].
  eapply inv_own_write; [done|done|cbn; by rewrite app_nil_r|]. apply plain_app. by split; [|constructor].
Qed.

Lemma wp_second_imm b m i :
  inv B b m [(Immediate i, value_of z c)] [Rq l] vs → rep (value_of z a) (gpr m l) →
  fresh b [(Immediate i, value_of z c)] [] l → plain (bs_stack b) →
  wp (_ ← match as_int i ≫= try_into_i32 with
        | Some i => emit (ALU op (width_of z) (OReg l) (Imm i))
        | None =>
            scratch ← take_gpr TRq; _ ← immediate_to_reg scratch i; r ← rqM scratch;
            _ ← emit (ALU op (width_of z) (OReg l) (Src (OReg r))); release scratch
        end;
      ret (Immediate i)) b m Q.
Proof.
  intros Hi Hl [Hls Hlf] Hp. rewrite app_nil_r in Hlf.
  destruct (inv_head_ok _ _ _ _ _ _ _ _ Hi) as (Hv & _ & _). cbn in Hv. subst i.
  assert (as_int (value_of z c) = Some c) as -> by (by destruct z). cbn [mbind option_bind].
  apply wp_bind. unfold try_into_i32. destruct (in_i32 c).
  { destruct (exec_alu op z f l (Imm c) m a c) as (m2 & f2 & E2 & Hu & Hres); [done..|].
    eapply wp_emit; [exact E2|]. apply wp_ret, HQ; [|done|done]. eapply inv_own_write; [done|done|cbn; by rewrite app_nil_r|].
    apply plain_app. by split; [|constructor]. }
  apply wp_bind, wp_unwrapM. eapply wp_take; [done|by apply inv_first_held|size|size|].
  intros r b1 m1 Hi2 [Hrs Hrf] [_ Hpl Hrg _]. exists (Rq r). split; [done|]. apply wp_bind.
  eapply (wp_copy_value rsp0 m0 Hrsp0 la _ _ _ _ _ _ (Immediate (value_of z c))); [done|done|].
  intros m2 Hu2 Hr2. apply wp_bind, (wp_lift _ _ r); [done|].
  eapply (inv_upd rsp0 m0 Hrsp0) in Hi2; [|exact Hu2|done|set_solver|by left].
  eapply (inv_perm_held rsp0 m0 Hrsp0) in Hi2; [|apply Permutation_swap].
  destruct (alu_registers b1 m2 r _ Hi2) as (m3 & E & Hres & Hi3); [done| | | |].
  - intros ->. apply Hrf. cbn. set_solver.
  - cbn. rewrite app_nil_r. intros Hin%Hrg. apply Hlf. set_solver.
  - apply plain_app. split; [by apply Hpl|by constructor].
  - apply wp_bind. eapply wp_emit; [exact E|].
    change (release (Rq r)) with (free_value (Reg (Rq r))). eapply (wp_free_value rsp0 m0 Hrsp0); [exact Hi3|].
    intros b3 Hi4 Eb _. apply wp_ret, HQ; [done|done|rewrite Eb; by apply Hpl].
Qed.
End second.

Definition commutes (f : Z → Z → Z) : Prop := ∀ x y, f x y = f y x.
Definition maps_operands (mo : ValueLocation → ValueLocation → ValueLocation * ValueLocation) (f : Z → Z → Z) : Prop :=
  ∀ l r, mo l r = (l, r) ∨ (mo l r = (r, l) ∧ commutes f).
Lemma maps_id f : maps_operands map_id f.
Proof. by left. Qed.
Lemma maps_commutative f : commutes f → maps_operands map_commutative f.
Proof. intros Hf l r. destruct l; cbn; auto; destruct r; cbn; auto. Qed.

(** What is not in a register needs nothing to hold it. *)
Lemma inv_drop B b m held own vs l v :
  inv B b m ((l, v) :: held) own vs → loc_reg l = None → inv B b m held own vs.
Proof.
  intros [Ho ? Hh [? Hv] ? [? Hs] ? Hsm ?] Hl. apply Forall_cons in Hh as [_ Hh], Hv as [_ Hv], Hs as [_ Hs].
  rewrite zlen_cons in Hsm. split; try done; [by destruct l|lia].
Qed.
Lemma inv_add B b m held own vs l v :
  inv B b m held own vs → loc_reg l = None → loc_stack l = None → holds m l v → value_ok v →
  zlen vs + zlen held + zlen own < 199 → inv B b m ((l, v) :: held) own vs.
Proof.
  intros [Ho ? Hh [? Hv] ? [? Hs] ? Hsm ?] Hr Hst Hl Hok Hlen. split; try done.
  - cbn [map fst]. by destruct l.
  - by constructor.
  - split; [done|by constructor].
  - split; [done|constructor; [by destruct l|done]].
  - rewrite zlen_cons. lia.
Qed.

Lemma imm_of_holds z x a m i : holds m x (value_of z a) → imm_of z x = Some i → x = Immediate (value_of z a) ∧ i = a.
Proof.
  intros Hx Hi. destruct x as [| |j|]; [by destruct z| by destruct z| |by destruct z]. cbn in Hx. subst j.
  destruct z; cbn in Hi; by simplify_eq.
Qed.

(** The two operands, popped. *)
Lemma wp_pop2 B b m vs v w (k : ValueLocation → ValueLocation → M unit) Q :
  inv B b m [] [] (vs ++ [v; w]) → flags_on_top (bs_stack b) →
  (∀ lhs rhs b', inv B b' m [(lhs, v); (rhs, w)] [] vs → plain (bs_stack b') → is_cond lhs = false →
     wp (k lhs rhs) b' m Q) →
  wp (rhs ← pop; lhs ← pop; k lhs rhs) b m Q.
Proof.
  intros Hi Hp Hk. change [v; w] with ([v] ++ [w]) in Hi. rewrite app_assoc in Hi.
  apply wp_bind. eapply wp_pop; [done|done|]. intros l1 rhs E1 Hi1. rewrite E1 in Hp. apply flags_on_top_snoc in Hp.
  apply wp_bind. eapply wp_pop; [done|done|]. intros l2 lhs E2 Hi2. cbn [bs_stack with_stack] in E2. subst l1.
  apply plain_app in Hp as [Hp Hl]. apply Forall_cons in Hl as [Hl _]. by apply Hk.
Qed.

Lemma wp_binop_on op z f B b m vs lhs rhs a c (Q : unit → BlockState → machine → Prop) :
  computes op z f → inv B b m [(lhs, value_of z a); (rhs, value_of z c)] [] vs → plain (bs_stack b) →
  B < 2 ^ 16 → zlen vs < 190 →
  (∀ b' m', inv (B + 1) b' m' [] [] (vs ++ [value_of z (f a c)]) → plain (bs_stack b') → Q tt b' m') →
  wp (binop_on (int_kind op z) lhs rhs) b m Q.
Proof.
  intros Hop Hi Hp HB Hsm HQ. destruct (inv_head_ok _ _ _ _ _ _ _ _ Hi) as (_ & Ha%value_ok_int & _).
  destruct (inv_head_ok _ _ _ _ _ _ _ _ (inv_perm_held _ _ Hrsp0 _ _ _ _ _ _ _ Hi (Permutation_swap _ _ _)))
    as (_ & Hc%value_ok_int & _).
  unfold binop_on. apply wp_bind. cbn [bk_ty int_kind].
  eapply wp_as_temp; [done|exact Hi|size|size|]. intros l b1 m1 Hi1 Hl1 [_ Hpl _ _] Hfr.
  cbn [bk_reg int_kind bk_rr bk_rm bk_direct]. apply wp_bind, (wp_lift _ _ l); [done|]. apply wp_bind.
  assert (∀ rhs2 b2 m2, inv B b2 m2 [(rhs2, value_of z c)] [Rq l] vs → rep (value_of z (f a c)) (gpr m2 l) →
     plain (bs_stack b2) → wp (_ ← free_value rhs2; push (Reg (Rq l))) b2 m2 Q) as Hend
    by (intros; eapply wp_finish; [done|done|by apply value_ok_int, (Hop a c)|done|done|done]).
  destruct rhs as [g|o|i|cc].
  - apply (wp_second_reg B vs z op f l a c); auto.
  - apply (wp_second_stack B vs z op f l a c); auto.
  - apply (wp_second_imm B vs z op f l a c); auto.
  - apply (wp_second_reg B vs z op f l a c); auto.
Qed.

Lemma wp_binop op z f mo B b m vs a c (Q : unit → BlockState → machine → Prop) :
  computes op z f → maps_operands mo f →
  inv B b m [] [] (vs ++ [value_of z a; value_of z c]) → flags_on_top (bs_stack b) → B < 2 ^ 16 → zlen vs < 190 →
  (∀ b' m', inv (B + 1) b' m' [] [] (vs ++ [value_of z (f a c)]) → plain (bs_stack b') → Q tt b' m') →
  wp (binop (int_kind op z) f mo) b m Q.
Proof.
  intros Hop Hmo Hi Hp HB Hsm HQ. unfold binop. eapply wp_pop2; [done|done|]. clear b Hi Hp.
  intros lhs rhs b Hi Hp _. pose proof (inv_perm_held _ _ Hrsp0 _ _ _ _ _ _ _ Hi (Permutation_swap _ _ _)) as Hi'.
  destruct (inv_head_ok _ _ _ _ _ _ _ _ Hi) as (Hl & Ha%value_ok_int & _).
  destruct (inv_head_ok _ _ _ _ _ _ _ _ Hi') as (Hr & Hc%value_ok_int & _).
  assert (wp (let '(lhs, rhs) := mo lhs rhs in binop_on (int_kind op z) lhs rhs) b m Q) as Hrest.
  { destruct (Hmo lhs rhs) as [->|[-> Hf]]; [by eapply wp_binop_on|].
    eapply wp_binop_on; [done|exact Hi'|done|done|done|]. by rewrite Hf. }
  destruct (bk_imm (int_kind op z) lhs) as [i1|] eqn:E1; [|done].
  destruct (bk_imm (int_kind op z) rhs) as [i0|] eqn:E0; [|done].
  destruct (imm_of_holds _ _ _ _ _ Hl E1) as [-> ->]. destruct (imm_of_holds _ _ _ _ _ Hr E0) as [-> ->].
  do 2 (apply inv_drop in Hi; [|done]). cbn [bk_value int_kind].
  eapply (inv_add _ _ _ _ _ _ (Immediate (value_of z (f a c)))) in Hi; [|done|done|reflexivity|apply value_ok_int, (Hop a c Ha Hc)|size].
  eapply wp_push_raw; [done|done|done|]. intros b' Hi2 E. apply HQ; [done|]. rewrite E. apply plain_app.
  by split; [|constructor].
Qed.

(** *** Comparisons *)

Lemma inv_with_fl B b m held own vs f :
  inv B b m held own vs → plain (bs_stack b ++ map fst held) → inv B b (with_fl m f) held own vs.
Proof.
  intros Hi Hp. apply (inv_step _ _ Hrsp0 _ _ m); [done| |done|by split].
  intros l v Hl Hv. apply holds_with_fl; [done| |done]. unfold plain in Hp. rewrite Forall_forall in Hp. by apply Hp.
Qed.

(** The operands are freed, the result is pushed. *)
Lemma wp_cmp_end B b m vs lhs rhs v w out t (Q : unit → BlockState → machine → Prop) :
  inv B b m [(lhs, v); (rhs, w)] [] vs → plain (bs_stack b) → loc_reg out = None → loc_stack out = None →
  holds m out (V.I32 (Z.b2z t)) → B < 2 ^ 16 → zlen vs < 190 →
  (∀ b' m', inv (B + 1) b' m' [] [] (vs ++ [V.I32 (Z.b2z t)]) → flags_on_top (bs_stack b') → Q tt b' m') →
  wp (_ ← free_value lhs; _ ← free_value rhs; push out) b m Q.
Proof.
  intros Hi Hp Hr Hs Ho HB Hsm HQ. apply wp_bind. eapply wp_free_value; [done|done|]. intros b1 Hi1 E1 _.
  apply wp_bind. eapply wp_free_value; [done|done|]. intros b2 Hi2 E2 _.
  eapply (inv_add _ _ _ _ _ _ out) in Hi2; [|done|done|exact Ho|by destruct t|size].
  eapply wp_push_plain; [done|done|done|by rewrite E2, E1|]. intros b3 Hi3 E3. apply HQ; [done|].
  rewrite E3, E2, E1. by apply flags_on_top_snoc.
Qed.

(** The two conditions of a comparison are those of its constants. *)
Definition compares (z : Size) (flags reverse_flags : CondCode) (f : Z → Z → bool) : Prop :=
  ∀ a c, condition z flags a c = f a c ∧ condition z reverse_flags c a = f a c.

(** The operands in the places that the instruction takes them from. *)
Lemma wp_cmp_ins B b m vs z dst src c0 x y lhs rhs v w (Q : unit → BlockState → machine → Prop) :
  inv B b m [(lhs, v); (rhs, w)] [] vs → plain (bs_stack b) → is_cond lhs = false → is_cond rhs = false →
  fits z x → fits z y →
  read_op la m (width_of z) dst = x mod 2 ^ wbits z → read_src la m (width_of z) src = y mod 2 ^ wbits z →
  (∀ m', inv B b m' [(lhs, v); (rhs, w)] [] vs → holds m' (Cond c0) (V.I32 (Z.b2z (condition z c0 x y))) → Q tt b m') →
  wp (emit (ALU CMP (width_of z) dst src)) b m Q.
Proof.
  intros Hi Hp Hl Hr Hx Hy Ed Es HQ. eapply wp_emit; [reflexivity|]. cbn [alu_result]. rewrite Ed, Es. apply HQ.
  - apply inv_with_fl; [done|]. apply plain_app. split; [done|]. by repeat constructor.
  - eexists. split; [|done]. cbn [fl with_fl]. by apply compare_flags.
Qed.

(** The second operand brought into a register while the first is held. *)
Lemma wp_hold_reg B b m vs x l v w (Q : GPR → BlockState → machine → Prop) :
  inv B b m [(x, v); (l, w)] [] vs → plain (bs_stack b) → zlen vs < 190 →
  (∀ r b' m', inv B b' m' [(Reg (Rq r), v); (l, w)] [] vs → plain (bs_stack b') → Q (Rq r) b' m') →
  wp (as_reg Rq_ x) b m Q.
Proof.
  intros Hi Hp Hsm HQ. destruct (inv_head_ok _ _ _ _ _ _ _ _ Hi) as (_ & Hok & _).
  eapply wp_as_reg; [done|done|size|size|]. intros r b1 m1 Hi1 Hr [_ Hpl _ _] _. apply HQ; [|by apply Hpl].
  by eapply inv_own_held; [| |exact Hr|].
Qed.

Lemma inv_swap B b m x y own vs : inv B b m [x; y] own vs → inv B b m [y; x] own vs.
Proof. intros Hi. eapply inv_perm_held; [done|exact Hi|apply Permutation_swap]. Qed.

Section cmp32.
Context (fl rev : CondCode) (f : Z → Z → bool) (Hf : compares _32 fl rev f).
Context (B : Z) vs (a c : Z) (HB : B < 2 ^ 16) (Hsm : zlen vs < 190) (Q : unit → BlockState → machine → Prop)
  (HQ : ∀ b' m', inv (B + 1) b' m' [] [] (vs ++ [V.I32 (Z.b2z (f a c))]) → flags_on_top (bs_stack b') → Q tt b' m').
Context (Ha : fits _32 a) (Hc : fits _32 c).

Lemma cmp_direct b m lhs rhs :
  inv B b m [(lhs, V.I32 a); (rhs, V.I32 c)] [] vs → plain (bs_stack b) →
  holds m (Cond fl) (V.I32 (Z.b2z (condition _32 fl a c))) →
  wp (_ ← free_value lhs; _ ← free_value rhs; push (Cond fl)) b m Q.
Proof. intros Hi Hp Ho. rewrite (proj1 (Hf a c)) in Ho. by eapply wp_cmp_end. Qed.
Lemma cmp_reverse b m lhs rhs :
  inv B b m [(lhs, V.I32 a); (rhs, V.I32 c)] [] vs → plain (bs_stack b) →
  holds m (Cond rev) (V.I32 (Z.b2z (condition _32 rev c a))) →
  wp (_ ← free_value lhs; _ ← free_value rhs; push (Cond rev)) b m Q.
Proof. intros Hi Hp Ho. rewrite (proj2 (Hf a c)) in Ho. by eapply wp_cmp_end. Qed.

(** What is left to do with the operands and the result. *)
Definition cmp_post (p : ValueLocation * ValueLocation * ValueLocation) (b : BlockState) (m : machine) : Prop :=
  wp (let '(lhs, rhs, out) := p in _ ← free_value lhs; _ ← free_value rhs; push out) b m Q.

Lemma cmp_imm_reg b m rhs :
  inv B b m [(rhs, V.I32 c); (Immediate (V.I32 a), V.I32 a)] [] vs → plain (bs_stack b) →
  wp (rreg ← as_reg Rq_ rhs; r ← rqM rreg; _ ← emit (ALU CMP W32 (OReg r) (Imm a));
      ret (Immediate (V.I32 a), Reg rreg, Cond rev)) b m cmp_post.
Proof.
  intros Hi Hp. apply wp_bind. eapply wp_hold_reg; [done|done|done|]. intros r b1 m1 Hi1 Hp1.
  apply wp_bind, (wp_lift _ _ r); [done|]. apply wp_bind. destruct (inv_head_ok _ _ _ _ _ _ _ _ Hi1) as (Hr & _ & _).
  apply inv_swap in Hi1. eapply (wp_cmp_ins _ _ _ _ _32 _ _ rev c a); [done..|by apply (read_reg _32)|done|].
  intros m2 Hi2 Ho. apply wp_ret. by apply cmp_reverse.
Qed.

Lemma cmp_reg_reg b m l rhs :
  inv B b m [(Reg (Rq l), V.I32 a); (rhs, V.I32 c)] [] vs → plain (bs_stack b) →
  wp (rreg ← as_reg Rq_ rhs; r ← rqM rreg; _ ← emit (ALU CMP W32 (OReg l) (Src (OReg r))); ret (Reg rreg)) b m
    (λ rhs b m, cmp_post (Reg (Rq l), rhs, Cond fl) b m).
Proof.
  intros Hi Hp. apply wp_bind. apply inv_swap in Hi. eapply wp_hold_reg; [done|done|done|]. intros r b1 m1 Hi1 Hp1.
  apply wp_bind, (wp_lift _ _ r); [done|]. apply wp_bind.
  destruct (inv_head_ok _ _ _ _ _ _ _ _ Hi1) as (Hr & _ & _). apply inv_swap in Hi1.
  destruct (inv_head_ok _ _ _ _ _ _ _ _ Hi1) as (Hl & _ & _).
  eapply (wp_cmp_ins _ _ _ _ _32 _ _ fl a c); [done..|by apply (read_reg _32)|by apply (read_reg _32)|].
  intros m2 Hi2 Ho. apply wp_ret. by apply cmp_direct.
Qed.

Lemma wp_cmp_i32 b m :
  inv B b m [] [] (vs ++ [V.I32 a; V.I32 c]) → flags_on_top (bs_stack b) → wp (cmp_i32 fl rev f) b m Q.
Proof.
  intros Hi Hp. unfold cmp_i32. eapply wp_pop2; [done|done|]. clear b Hi Hp. intros lhs rhs b Hi Hp Hlc.
  apply wp_bind. fold cmp_post. destruct (imm_i32 lhs) as [i|] eqn:El.
  - destruct (imm_of_holds _32 lhs a m i) as [-> ->]; [by eapply inv_head_ok|done|]. apply inv_swap in Hi.
    destruct rhs as [g|o|j|cc]; [by apply cmp_imm_reg| | |by apply cmp_imm_reg].
    + apply wp_bind. eapply wp_adjusted_offset; [done|done|by eapply inv_head_ok|]. apply wp_bind.
      eapply (wp_cmp_ins _ _ _ _ _32 _ _ rev c a); [by apply inv_swap|done..|by eapply (read_slot _ _ _ _ _ _ _32)|done|].
      intros m2 Hi2 Ho. apply wp_ret. by apply cmp_reverse.
    + destruct (inv_head_ok _ _ _ _ _ _ _ _ Hi) as (Hr & _ & _). cbn in Hr. subst j.
      apply wp_bind, (wp_lift _ _ c); [done|]. apply wp_ret. apply inv_swap in Hi.
      eapply (wp_cmp_end _ _ _ _ _ _ _ _ _ (f a c)); [done|done|done|done| |done..]. by destruct (f a c).
  - apply wp_bind. eapply wp_hold_reg; [done|done|done|]. clear lhs Hlc El b Hp Hi m. intros l b m Hi Hp.
    apply wp_bind, (wp_lift _ _ l); [done|]. destruct (inv_head_ok _ _ _ _ _ _ _ _ Hi) as (Hl & _ & _).
    apply wp_bind. destruct rhs as [g|o|j|cc].
    + eapply wp_mono; [by apply cmp_reg_reg|]. intros. by apply wp_ret.
    + apply wp_bind. eapply wp_adjusted_offset; [done|done|apply inv_swap in Hi; by eapply inv_head_ok|]. apply wp_bind.
      eapply (wp_cmp_ins _ _ _ _ _32 _ _ fl a c); [done..|by apply (read_reg _32)|by eapply (read_slot _ _ _ _ _ _ _32), inv_swap|].
      intros m2 Hi2 Ho. apply wp_ret, wp_ret. by apply cmp_direct.
    + destruct (inv_head_ok _ _ _ _ _ _ _ _ (inv_swap _ _ _ _ _ _ _ Hi)) as (Hr & _ & _). cbn in Hr. subst j.
      apply wp_bind, (wp_lift _ _ c); [done|]. apply wp_bind.
      eapply (wp_cmp_ins _ _ _ _ _32 _ _ fl a c); [done..|by apply (read_reg _32)|done|].
      intros m2 Hi2 Ho. apply wp_ret, wp_ret. by apply cmp_direct.
    + eapply wp_mono; [by apply cmp_reg_reg|]. intros. by apply wp_ret.
Qed.
End cmp32.

(** *** [i32.eqz] and [i64.eqz] *)

Lemma cond_not f c t : holds_cond f (x_cond c) = Some t → holds_cond f (x_cond (CondCode_not c)) = Some (negb t).
Proof.
  destruct c, (CF f) eqn:EC, (ZF f) eqn:EZ, (SF f) eqn:ES, (OF f) eqn:EO; cbn; rewrite ?EC, ?EZ, ?ES, ?EO; cbn;
    intros E; simplify_eq; by rewrite ?negb_involutive.
Qed.

(** The test of a register, its result in another. *)
Lemma wp_test B b m held own vs z r o a (k : M unit) (Q : unit → BlockState → machine → Prop) :
  inv B b m held (Rq o :: own) vs → fresh b held own o → plain (bs_stack b ++ map fst held) → r ≠ o →
  rep (value_of z a) (gpr m r) → fits z a →
  (∀ m', inv B b m' held (Rq o :: own) vs → rep (V.I32 (Z.b2z (a =? 0))) (gpr m' o) → wp k b m' Q) →
  wp (_ ← emit (ALU XOR W32 (OReg o) (Src (OReg o))); _ ← emit (ALU TEST (width_of z) (OReg r) (Src (OReg r)));
      _ ← emit (SETCC cE (OReg o)); k) b m Q.
Proof.
  intros Hi [Hs Hf] Hp Hne Hr Ha Hk. apply rep_int in Hr.
  apply wp_bind. eapply wp_emit; [cbn [exec1 alu_result]; rewrite Z.lxor_nilpotent; reflexivity|].
  set (m1 := with_fl _ _). apply wp_bind. eapply wp_emit; [reflexivity|]. set (m2 := with_fl _ _).
  assert (read_gpr m1 (width_of z) r = a mod 2 ^ wbits z) as Hread.
  { unfold read_gpr, m1, write_op, write_gpr. cbn [with_fl gpr with_gpr]. by rewrite (proj2 (Z.eqb_neq _ _)). }
  assert (ZF (fl m2) = Some (a =? 0)) as HZ.
  { subst m2. unfold read_op, read_src, read_op. rewrite Hread. cbn [fl with_fl logic_flags ZF].
    rewrite Z.land_diag. f_equal. rewrite mod_fits by done. unfold fits in Ha. rewrite (wbits_double z).
    destruct (Z.leb_spec 0 a); lia. }
  apply wp_bind. eapply wp_emit; [cbn [exec1 holds_cond]; rewrite HZ; reflexivity|].
  apply Hk.
  - eapply (inv_own_write _ _ m _ _ _ _ _ (fl m2)); [done| |set_solver|done]. apply upd_again.
    split; try done. intros x Hx. cbn. by rewrite (proj2 (Z.eqb_neq _ _)).
  - unfold write_op, write_gpr. rewrite gpr_with_gpr. subst m2 m1. unfold write_op, write_gpr.
    cbn [with_fl gpr]. rewrite gpr_with_gpr. by destruct (a =? 0).
Qed.

Lemma wp_eqz_reg z B b m vs x a (Q : unit → BlockState → machine → Prop) :
  inv B b m [(x, value_of z a)] [] vs → plain (bs_stack b) → B < 2 ^ 16 → zlen vs < 190 → fits z a →
  (∀ b' m', inv (B + 1) b' m' [] [] (vs ++ [V.I32 (Z.b2z (a =? 0))]) → plain (bs_stack b') → Q tt b' m') →
  wp (reg ← as_reg Rq_ x; out ← take_gpr TRq; r ← rqM reg; o ← rqM out;
      _ ← emit (ALU XOR W32 (OReg o) (Src (OReg o))); _ ← emit (ALU TEST (width_of z) (OReg r) (Src (OReg r)));
      _ ← emit (SETCC cE (OReg o)); _ ← free_value (Reg reg); push (Reg out)) b m Q.
Proof.
  intros Hi Hp HB Hsm Ha HQ. apply wp_bind. eapply wp_as_reg; [done|done|size|size|].
  intros r b1 m1 Hi1 Hr [_ Hpl _ _] _. eapply inv_own_held in Hi1; [|done|exact Hr|by apply value_ok_int].
  apply wp_bind, wp_unwrapM. eapply wp_take; [done|done|size|size|]. intros o b2 m2 Hi2 Hfr [_ Hpl2 _ _].
  exists (Rq o). split; [done|]. apply wp_bind, (wp_lift _ _ r); [done|]. apply wp_bind, (wp_lift _ _ o); [done|].
  destruct (inv_head_ok _ _ _ _ _ _ _ _ Hi2) as (Hr2 & _ & _).
  eapply wp_test; [done|done| | |exact Hr2|done|].
  - apply plain_app. split; [by apply Hpl2, Hpl|by constructor].
  - intros ->. apply Hfr. cbn. set_solver.
  - intros m3 Hi3 Ho. eapply wp_finish; [done|exact Ho|by destruct (a =? 0)|done|by apply Hpl2, Hpl|done].
Qed.

Lemma wp_eqz z B b m vs a (Q : unit → BlockState → machine → Prop) :
  inv B b m [] [] (vs ++ [value_of z a]) → flags_on_top (bs_stack b) → B < 2 ^ 16 → zlen vs < 190 →
  (∀ b' m', inv (B + 1) b' m' [] [] (vs ++ [V.I32 (Z.b2z (a =? 0))]) → flags_on_top (bs_stack b') → Q tt b' m') →
  wp (int_eqz z) b m Q.
Proof.
  intros Hi Hp HB Hsm HQ. unfold int_eqz. apply wp_bind. eapply wp_pop; [done|done|]. intros l x E Hi1.
  rewrite E in Hp. apply flags_on_top_snoc in Hp. destruct (inv_head_ok _ _ _ _ _ _ _ _ Hi1) as (Hx & Ha%value_ok_int & _).
  assert (∀ out, loc_reg out = None → loc_stack out = None → holds m out (V.I32 (Z.b2z (a =? 0))) → loc_reg x = None →
    wp (push out) (with_stack b l) m Q) as Hpush.
  { intros out Hr Hs Ho Hxr. apply inv_drop in Hi1; [|done].
    eapply (inv_add _ _ _ _ _ _ out) in Hi1; [|done|done|exact Ho|by destruct (a =? 0)|size].
    eapply wp_push_plain; [done|done|done|done|]. intros b' Hi' E'. apply HQ; [done|].
    rewrite E'. by apply flags_on_top_snoc. }
  destruct (imm_of z x) as [i|] eqn:Ei.
  { destruct (imm_of_holds _ _ _ _ _ Hx Ei) as [-> ->]. apply Hpush; try done; cbn; by destruct (a =? 0). }
  assert (∀ b' m', inv (B + 1) b' m' [] [] (vs ++ [V.I32 (Z.b2z (a =? 0))]) → plain (bs_stack b') → Q tt b' m') as HQ'
    by (intros; apply HQ; [done|by apply plain_on_top]).
  destruct x as [g|o|i|c]; [by eapply wp_eqz_reg..|].
  destruct Hx as (t & Ht & Ev). apply Hpush; try done. exists (negb t). split; [by apply cond_not|].
  destruct z; [|done]. injection Ev as ->. by destruct t.
Qed.
End arith.
