(* ===== verification/LightbeamStack.v ===== *)
(** * Lightbeam: the operators that move values

    What [pick], [swap], [drop] and constants do to the invariant of LightbeamInv, over
    the operations on lists that MicrowasmProofs is about. *)

From S2P Require Import Prelude Microwasm MicrowasmProofs X64 LightbeamRegs LightbeamOwns Lightbeam.
From S2P Require Import LightbeamInv LightbeamMoves LightbeamArith.
Import V(Value) registers.
Local Open Scope Z_scope.

(** ** Operators that move values, on any list *)

Section lists.
Context {A C : Type} (P : A → C → Prop).
Implicit Types (s : list A) (t : list C).

Lemma zget_Forall2 s t i y : Forall2 P s t → zget t i = Some y → ∃ x, zget s i = Some x ∧ P x y.
Proof.
  intros HF Hy. pose proof (zget_Some_lt _ _ _ Hy). unfold zget in *.
  rewrite (proj2 (Z.leb_le 0 i)) in * by lia. destruct (Forall2_lookup_r _ _ _ _ _ HF Hy) as (x & ? & ?). by exists x.
Qed.

Lemma ctx_pick_inv t d t' :
  ctx_pick t d = Ret t' → ∃ v, t' = t ++ [v] ∧ zget t (zlen t - 1 - d) = Some v ∧
    op_sub 64 (zlen t) 1 = Ret (zlen t - 1) ∧ op_sub 64 (zlen t - 1) d = Ret (zlen t - 1 - d).
Proof.
  unfold ctx_pick, op_sub, unwrap. intros E. destruct (checked_sub 64 (zlen t) 1) as [n|] eqn:E1; [|done].
  apply checked_sub_Some in E1 as [-> _]. cbn in E. destruct (checked_sub 64 (zlen t - 1) d) as [i|] eqn:E2; [|done].
  apply checked_sub_Some in E2 as [-> _]. cbn in E. unfold zindex in E.
  destruct (zget t _) as [v|] eqn:Ev; [|done]. cbn in E. exists v. by injection E as <-.
Qed.

Lemma insert_perm {D} (l : list D) i x v : zget l i = Some v → <[Z.to_nat i := x]> l ++ [v] ≡ₚ l ++ [x].
Proof.
  intros Hv. pose proof (zget_Some_lt _ _ _ Hv) as Hi. unfold zget in Hv. rewrite (proj2 (Z.leb_le 0 i)) in Hv by lia.
  unfold zlen in Hi. rewrite insert_take_drop by lia. rewrite <-(take_drop_middle l _ _ Hv) at 3.
  rewrite <-!app_assoc. apply Permutation_app_head. cbn. rewrite (Permutation_app_comm _ [v]), (Permutation_app_comm _ [x]).
  cbn. apply Permutation_swap.
Qed.

Lemma ctx_swap_top {D} (l : list D) x : zlen l + 1 < 2 ^ 64 → ctx_swap (l ++ [x]) 0 = Ret (l ++ [x]).
Proof.
  intros Hl. pose proof (zlen_nonneg l). unfold ctx_swap. rewrite zlen_app. change (zlen [x]) with 1.
  rewrite op_sub_fits, bind_Ret_l, op_sub_fits, bind_Ret_l by lia.
  replace (zlen l + 1 - 1 - 0) with (zlen l) by lia. replace (zlen l + 1 - 1) with (zlen l) by lia.
  assert (zindex (l ++ [x]) (zlen l) = Ret x) as -> by (apply zindex_Ret; by rewrite zget_app_r, Z.sub_diag by lia).
  rewrite !bind_Ret_l. assert (<[Z.to_nat (zlen l) := x]> (l ++ [x]) = l ++ [x]) as Eq.
  { apply list_insert_id. unfold zlen. rewrite Nat2Z.id. apply list_lookup_middle. done. }
  rewrite zset_Ret, bind_Ret_l by (rewrite zlen_app; change (zlen [x]) with 1; lia).
  rewrite Eq, zset_Ret, Eq by (rewrite zlen_app; change (zlen [x]) with 1; lia). done.
Qed.

Lemma ctx_swap_rel s t d t' :
  Forall2 P s t → zlen t + 1 < 2 ^ 64 → ctx_swap t d = Ret t' →
  ∃ s', ctx_swap s d = Ret s' ∧ Forall2 P s' t' ∧ s' ≡ₚ s ∧ t' ≡ₚ t.
Proof.
  intros HF Hl E. destruct t as [|y t _] using rev_ind; [done|].
  apply Forall2_app_inv_r in HF as (s0 & s1 & HF & H1 & ->).
  apply Forall2_cons_inv_r in H1 as (x & s2 & Hx & H2%Forall2_nil_inv_r & ->). subst s2.
  assert (zlen s0 = zlen t) as El by (unfold zlen; f_equal; by eapply Forall2_length).
  rewrite zlen_app in Hl. change (zlen [y]) with 1 in Hl. destruct (decide (d = 0)) as [->|Hd].
  - rewrite ctx_swap_top in E by lia. injection E as <-. exists (s0 ++ [x]). rewrite ctx_swap_top by lia.
    split_and!; try done. apply Forall2_app; [done|by constructor].
  - assert (∃ w, zget t (zlen t - d) = Some w) as (w & Hw).
    { pose proof (zlen_nonneg t). apply zget_is_Some. revert E. unfold ctx_swap, op_sub, unwrap.
      rewrite zlen_app. change (zlen [y]) with 1.
      rewrite (proj2 (checked_sub_Some 64 _ 1 (zlen t))) by lia. cbn.
      destruct (checked_sub 64 (zlen t) d) as [i|] eqn:Ei; [|done]. apply checked_sub_Some in Ei as [-> Hi]. cbn.
      unfold zindex, unwrap. rewrite (zget_app_r t [y] (zlen t)), Z.sub_diag by lia. cbn.
      destruct (zget (t ++ [y]) (zlen t - d)) as [z|] eqn:Ez; [|done]. intros _.
      apply zget_Some_lt in Ez. rewrite zlen_app in Ez. change (zlen [y]) with 1 in Ez. lia. }
    destruct (zget_Forall2 _ _ _ _ HF Hw) as (z & Hz & Hzw).
    pose proof (ctx_swap_spec t y (zlen t - d) w Hw ltac:(lia)) as E1.
    replace (zlen t - (zlen t - d)) with d in E1 by lia. rewrite E1 in E. injection E as <-.
    rewrite <-El in Hz. pose proof (ctx_swap_spec s0 x (zlen s0 - d) z Hz ltac:(lia)) as E2.
    replace (zlen s0 - (zlen s0 - d)) with d in E2 by lia. eexists. split; [exact E2|].
    rewrite El in *. split_and!; [|by apply insert_perm..].
    apply Forall2_app; [by apply Forall2_insert|by constructor].
Qed.

Lemma ctx_pops_inv n : ∀ t p t' p', ctx_pops n t p = Ret (t', p') → ∃ w, t = t' ++ w ∧ p' = w ++ p ∧ length w = n.
Proof.
  induction n as [|n IH]; intros t p t' p' E; cbn in E.
  { injection E as <- <-. exists []. by rewrite app_nil_r. }
  destruct t as [|y t _] using rev_ind; [done|]. rewrite vec_pop_snoc in E. cbn in E.
  apply IH in E as (w & -> & -> & Hn). exists (w ++ [y]). rewrite <-!app_assoc, length_app. cbn. split_and!; [done..|lia].
Qed.
Lemma ctx_drop_inv t r t' :
  ctx_drop t r = Ret t' → ∃ b x k, t = b ++ x ++ k ∧ t' = b ++ k ∧ length k = Z.to_nat r.1 ∧
    length x = Z.to_nat (r.2 - r.1 + 1).
Proof.
  unfold ctx_drop. intros E. destruct (ctx_pops _ t []) as [[t1 k]|] eqn:E1; [|done]. cbn in E.
  destruct (ctx_pops _ t1 []) as [[b x]|] eqn:E2; [|done]. cbn in E. injection E as <-.
  apply ctx_pops_inv in E1 as (w1 & -> & -> & H1). apply ctx_pops_inv in E2 as (w2 & -> & -> & H2).
  exists b, w2, w1. rewrite app_nil_r, <-app_assoc. done.
Qed.
End lists.

(** ** Moves in the code generator *)

Section moves.
Context (rsp0 : Z) (m0 : machine) (Hrsp0 : 2 ^ 20 ≤ rsp0 < 2 ^ 63) `{Sse} (la : Z → Z).
Set Default Proof Using "Type*".
Notation inv := (inv rsp0 m0).
Notation holds := (holds rsp0).
Notation wp := (wp la).
Implicit Types (held : list (ValueLocation * Value)) (own : list GPR) (vs : list Value).

Lemma inv_zlens B b m held own vs : inv B b m held own vs → zlen (bs_stack b) = zlen vs.
Proof. intros Hi. unfold zlen. f_equal. apply (Forall2_length _ _ _ (inv_stack _ _ _ _ _ _ _ _ Hi)). Qed.

Lemma wp_const B b m vs v (Q : unit → BlockState → machine → Prop) :
  inv B b m [] [] vs → value_ok v → flags_on_top (bs_stack b) → B + 1 < 2 ^ 16 → zlen vs < 190 →
  (∀ b' m', inv (B + 2) b' m' [] [] (vs ++ [v]) → plain (bs_stack b') → Q tt b' m') →
  wp (const_ v) b m Q.
Proof.
  intros Hi Hv Hp HB Hsm HQ. unfold const_.
  eapply (inv_add rsp0 m0 Hrsp0 _ _ _ _ _ _ (Immediate v) v) in Hi; [|done|done|done|done|size].
  eapply wp_push; [done|done|done|done|size|size|done|done].
Qed.

(** A copy of a location: one more use of its register. *)
Lemma wp_pick B b m vs d vs' (Q : unit → BlockState → machine → Prop) :
  inv B b m [] [] vs → plain (bs_stack b) → B < 2 ^ 16 → zlen vs < 190 → ctx_pick vs d = Ret vs' →
  (∀ b' m', inv (B + 1) b' m' [] [] vs' → plain (bs_stack b') → Q tt b' m') →
  wp (pick d) b m Q.
Proof.
  intros Hi Hp HB Hsm (v & -> & Hv & E1 & E2)%ctx_pick_inv HQ. pose proof (inv_zlens _ _ _ _ _ _ Hi) as El.
  destruct (zget_Forall2 _ _ _ _ _ (inv_stack _ _ _ _ _ _ _ _ Hi) Hv) as (x & Hx & Hxv).
  apply wp_bind, wp_get, wp_bind. rewrite El. eapply wp_lift; [exact E1|]. apply wp_bind.
  eapply wp_lift; [exact E2|]. apply wp_bind, (wp_lift _ _ x); [by apply zindex_Ret|].
  pose proof (zget_elem_of _ _ _ Hx) as Hin. pose proof (zget_elem_of _ _ _ Hv) as Hvin.
  assert (is_cond x = false) as Hxc by (unfold plain in Hp; rewrite Forall_forall in Hp; by apply Hp).
  assert (value_ok v) as Hok.
  { pose proof (inv_values _ _ _ _ _ _ _ _ Hi) as [HF _]. rewrite Forall_forall in HF. by apply HF. }
  assert (slot_ok (bs_depth b) x) as Hslot.
  { pose proof (inv_slots _ _ _ _ _ _ _ _ Hi) as [HF _]. rewrite Forall_forall in HF. by apply HF. }
  apply wp_bind.
  assert (∀ b1, inv B b1 m [(x, v)] [] vs → bs_stack b1 = bs_stack b → wp (push_raw x) b1 m Q) as Hpush.
  { intros b1 Hi1 Eb. eapply wp_push_raw; [done|done|done|]. intros b2 Hi2 E. apply HQ; [done|].
    rewrite E, Eb. apply plain_app. by split; [|constructor]. }
  destruct x as [g|o|i|c]; try done.
  - eapply wp_mark_used_inv; [done|done|eapply inv_scratch; [done|done|]|size|].
    + apply elem_of_app. left. by apply elem_of_regs_of.
    + intros b1 Hi1 Eb _. apply Hpush; [|done]. eapply inv_own_held; done.
  - apply wp_ret. apply Hpush; [|done]. destruct Hi as [? ? ? [? ?] ? [? ?] ? ? ?].
    split; try done; [by constructor|split; [done|by constructor]|split; [done|by constructor]|size].
  - apply wp_ret. apply Hpush; [|done]. eapply inv_add; [done|done|done|done|exact Hxv|done|size].
Qed.

Lemma wp_swap B b m vs d vs' (Q : unit → BlockState → machine → Prop) :
  inv B b m [] [] vs → plain (bs_stack b) → zlen vs < 190 → ctx_swap vs d = Ret vs' →
  (∀ b' m', inv B b' m' [] [] vs' → plain (bs_stack b') → Q tt b' m') →
  wp (swap d) b m Q.
Proof.
  intros Hi Hp Hsm E HQ. pose proof Hi as [Ho Hst Hh [Hv1 Hv2] Hr [Hs1 Hs2] [Hd1 Hd2] Hl Hk].
  destruct (ctx_swap_rel _ _ _ _ _ Hst ltac:(lia) E) as (s' & Es & HF & Hps & Hpv).
  apply wp_bind, wp_get, wp_bind. eapply wp_lift; [exact Es|]. apply wp_put_stack, HQ.
  - split; cbn [with_stack bs_stack bs_regs bs_depth]; try done.
    + by rewrite Hps.
    + split; [by rewrite Hpv|done].
    + split; [by rewrite Hps|done].
    + split; [done|]. unfold zlen. by rewrite Hps.
    + unfold zlen. by rewrite Hpv.
  - cbn [with_stack bs_stack]. unfold plain. by rewrite Hps.
Qed.

(** *** [Context::drop] *)

Lemma wp_pops n : ∀ B b m held own vs w (Q : list ValueLocation → BlockState → machine → Prop),
  length w = n → inv B b m held own (vs ++ w) →
  (∀ l k, bs_stack b = l ++ k → length k = n → inv B (with_stack b l) m (zip k w ++ held) own vs →
     Q (rev k) (with_stack b l) m) →
  wp (pops n) b m Q.
Proof.
  induction n as [|n IH]; intros B b m held own vs w Q Hw Hi HQ; cbn [pops].
  { apply wp_ret. destruct w; [|done]. rewrite app_nil_r in Hi. specialize (HQ (bs_stack b) []).
    rewrite app_nil_r in HQ. destruct b. by apply HQ. }
  destruct w as [|y w _] using rev_ind; [done|]. rewrite length_app in Hw. cbn in Hw. rewrite app_assoc in Hi.
  apply wp_bind. eapply wp_pop; [done|done|]. intros l x E Hi1. apply wp_bind.
  eapply (IH B _ m _ own vs w); [lia|done|]. intros l0 k0 E0 Hk Hi2. cbn [with_stack bs_stack] in E0. subst l.
  apply wp_ret. specialize (HQ l0 (k0 ++ [x])). rewrite rev_app_distr in HQ. apply HQ.
  - by rewrite E, app_assoc.
  - rewrite length_app. cbn. lia.
  - rewrite zip_with_app by lia. cbn [zip_with]. by rewrite <-app_assoc.
Qed.

Lemma wp_free_pops {A} (js : list A) : ∀ B b m held own vs w (Q : unit → BlockState → machine → Prop),
  length w = length js → inv B b m held own (vs ++ w) →
  (∀ b' l k, bs_stack b = l ++ k → length k = length js → bs_stack b' = l → bs_depth b' = bs_depth b →
     inv B b' m held own vs → Q tt b' m) →
  wp (iterM (λ _, val ← pop; free_value val) js) b m Q.
Proof.
  induction js as [|j js IH]; intros B b m held own vs w Q Hw Hi HQ; cbn [iterM].
  { apply wp_ret. destruct w; [|done]. rewrite app_nil_r in Hi. eapply (HQ b (bs_stack b) []); try done. by rewrite app_nil_r. }
  destruct w as [|y w _] using rev_ind; [done|]. rewrite length_app in Hw. cbn in Hw. rewrite app_assoc in Hi.
  apply wp_bind, wp_bind. eapply wp_pop; [done|done|]. intros l x E Hi1. eapply wp_free_value; [done|done|].
  intros b1 Hi2 E1 Ed. cbn [with_stack bs_stack bs_depth] in *. eapply (IH B b1 m held own vs w); [lia|done|].
  intros b2 l2 k2 E2 Hk2 E3 Ed2 Hi3. eapply (HQ b2 l2 (k2 ++ [x])); try done; [|rewrite length_app; cbn; lia|congruence].
  rewrite E, <-E1, E2. by rewrite app_assoc.
Qed.

Lemma wp_pushes k : ∀ B b m held own vs w (Q : unit → BlockState → machine → Prop),
  length w = length k → inv B b m (zip k w ++ held) own vs → B + zlen k < 2 ^ 16 →
  plain (bs_stack b) → flags_on_top k →
  (∀ b', inv (B + zlen k) b' m held own (vs ++ w) → bs_stack b' = bs_stack b ++ k → bs_depth b' = bs_depth b → Q tt b' m) →
  wp (iterM push k) b m Q.
Proof.
  induction k as [|x k IH]; intros B b m held own vs w Q Hw Hi HB Hp Hk HQ; cbn [iterM].
  { apply wp_ret, HQ; [|by rewrite app_nil_r|done]. destruct w; [|done]. rewrite app_nil_r. change (zlen []) with 0.
    by rewrite Z.add_0_r. }
  destruct w as [|y w]; [done|]. cbn in Hw. cbn [zip_with app] in Hi. rewrite zlen_cons in HB.
  pose proof (zlen_nonneg k). apply (inv_push rsp0 m0 Hrsp0) in Hi; [|lia]. apply wp_bind, wp_push_eq; [done|].
  assert (k = [] ∨ (plain [x] ∧ flags_on_top k)) as [->|[Hx Hk']].
  { destruct k as [|x' k]; [by left|right]. apply Forall_cons in Hk as [Hx Hk]. split; [by constructor|done]. }
  - destruct w; [|done]. apply wp_ret, HQ; done.
  - eapply (IH (B + 1) _ m held own (vs ++ [y]) w); [lia|exact Hi|lia|by apply plain_app|done|].
    intros b' Hi' Eb Ed. cbn [with_stack bs_stack bs_depth] in *. apply HQ; [|by rewrite Eb, <-app_assoc|done].
    rewrite <-app_assoc in Hi'. rewrite zlen_cons. by replace (B + (zlen k + 1)) with (B + 1 + zlen k) by lia.
Qed.

Lemma flags_on_top_app l k : flags_on_top (l ++ k) ↔ (k = [] ∧ flags_on_top l) ∨ (k ≠ [] ∧ plain l ∧ flags_on_top k).
Proof.
  destruct k as [|x k _] using rev_ind.
  { rewrite app_nil_r. split; [by left|]. by intros [[_ ?]|[? _]]. }
  rewrite app_assoc, !flags_on_top_snoc, plain_app. split.
  - intros [? ?]. right. split_and!; [by destruct k|done|done].
  - intros [[E _]|(_ & ? & ?)]; [by destruct k|done].
Qed.

(** How far the stack may grow by spilling, no more than it can. *)
Lemma inv_tight B B' b m held own vs :
  inv B b m held own vs → bs_depth b + zlen (regs_of (bs_stack b)) ≤ B' ≤ 2 ^ 16 → inv B' b m held own vs.
Proof. intros [? ? ? ? ? ? [? ?] ? ?] HB. by split. Qed.

Lemma wp_drop B b m vs r vs' (Q : unit → BlockState → machine → Prop) :
  inv B b m [] [] vs → flags_on_top (bs_stack b) → B + zlen vs < 2 ^ 16 → ctx_drop vs r = Ret vs' →
  (∀ b' m', inv B b' m' [] [] vs' → flags_on_top (bs_stack b') →
     ((plain (bs_stack b) ∨ (r.1 = 0 ∧ 0 ≤ r.2)) → plain (bs_stack b')) → Q tt b' m') →
  wp (cg_drop r) b m Q.
Proof.
  intros Hi Hp HB (v & x & k & -> & -> & Hk & Hx)%ctx_drop_inv HQ. unfold cg_drop. apply wp_bind.
  pose proof (inv_depth _ _ _ _ _ _ _ _ Hi) as [_ Hd].
  rewrite app_assoc in Hi. eapply (wp_pops _ _ _ _ [] [] (v ++ x) k); [done|done|]. intros l1 ks Es Hlk Hi1.
  apply wp_bind. eapply (wp_free_pops _ _ _ _ _ [] v x); [by rewrite length_seqZ|exact Hi1|].
  intros b2 l2 xs Es2 Hlx Eb2 Ed2 Hi2. cbn [with_stack bs_stack bs_depth] in *. rewrite rev_involutive. subst l1.
  rewrite length_seqZ in Hlx. rewrite Es in Hp, Hd, HQ. rewrite !zlen_app in HB.
  rewrite !regs_of_app, !zlen_app in Hd. pose proof (zlen_nonneg (regs_of xs)). pose proof (zlen_nonneg v). pose proof (zlen_nonneg x).
  assert (zlen ks = zlen k) as Ezk by (unfold zlen; lia).
  assert (∀ b', bs_stack b' = l2 ++ ks → bs_depth b' = bs_depth b → bs_depth b' + zlen (regs_of (bs_stack b')) ≤ B ≤ 2 ^ 16) as Htight
    by (intros b' -> ->; rewrite regs_of_app, zlen_app; lia).
  apply flags_on_top_app in Hp as [[-> Hp]|(Hks & Hp & Hpk)].
  - destruct k; [|done]. apply wp_ret, HQ; [by rewrite app_nil_r|rewrite Eb2|rewrite Eb2].
    + apply flags_on_top_app in Hp as [[_ Hp]|(_ & Hp & _)]; [done|by apply plain_on_top].
    + rewrite app_nil_r, plain_app. intros [[? _]|Hr]; [done|].
      apply flags_on_top_app in Hp as [[-> _]|(_ & Hp & _)]; [cbn in Hlx; lia|done].
  - apply plain_app in Hp as [Hp2 Hpx].
    eapply (wp_pushes ks B b2 m [] [] v k); [lia|exact Hi2|lia|by rewrite Eb2|done|].
    intros b3 Hi3 E3 Ed3. rewrite Eb2 in E3. apply HQ.
    + eapply inv_tight; [exact Hi3|]. apply Htight; [done|congruence].
    + rewrite E3. apply flags_on_top_app. by right.
    + rewrite E3, !plain_app. intros [[[_ _] ?]|Hr]; [done|]. destruct ks; [done|]. cbn in Hlk. lia.
Qed.
End moves.
