(* ===== verification/LightbeamReturn.v ===== *)
(** * Lightbeam: entering and leaving a function

    The state that [start_function] sets up, the check of the counts of uses that
    [translate] makes, and the passing of a result to the caller. *)

From S2P Require Import Prelude Microwasm MicrowasmProofs Store X64 LightbeamRegs LightbeamOwns Lightbeam.
From S2P Require Import LightbeamOps LightbeamBlocks LightbeamTranslate LightbeamInv LightbeamMoves LightbeamArith LightbeamStack.
Import V(Value) Op(Operator) registers.
Local Open Scope Z_scope.

(** ** Counting the uses of the locations *)

Definition mark_loc (r : Registers) (v : ValueLocation) : res Registers :=
  match v with Reg g => Registers_mark_used r g | _ => Ret r end.

Lemma mark_locs_owns l : ∀ R k,
  owns R k → (∀ g, g ∈ regs_of l → g ∈ SCRATCH_REGS) → zlen l + zlen k < 200 →
  ∃ R', foldM mark_loc R l = Ret R' ∧ owns R' (regs_of l ++ k).
Proof.
  induction l as [|x l IH]; intros R k Ho Hs Hn; [by exists R|]. rewrite zlen_cons in Hn. cbn [foldM].
  destruct x as [g|o|i|c]; try (apply IH; [done|done|lia]).
  change (regs_of (Reg g :: l)) with (g :: regs_of l) in *. pose proof (uses_le g k). pose proof (zlen_nonneg l).
  destruct (mark_used_owns R k g) as (R1 & E1 & Ho1); [done|set_solver|lia|]. cbn [mark_loc]. rewrite E1, bind_Ret_l.
  destruct (IH R1 (g :: k)) as (R2 & E2 & Ho2); [done|set_solver|rewrite zlen_cons; lia|]. exists R2. split; [done|].
  revert Ho2. apply owns_perm. by rewrite <-Permutation_middle.
Qed.

Lemma new_marked_owns l :
  (∀ g, g ∈ regs_of l → g ∈ SCRATCH_REGS) → zlen l < 200 →
  ∃ R, (r ← Registers_new; foldM mark_loc r l) = Ret R ∧ owns R (regs_of l).
Proof.
  intros Hs Hn. destruct new_owns as (R0 & -> & H0). rewrite bind_Ret_l.
  destruct (mark_locs_owns l R0 [] H0 Hs) as (R & E & Ho); [change (zlen []) with 0; lia|].
  exists R. split; [done|]. by rewrite app_nil_r in Ho.
Qed.

(** ** Arguments *)

Lemma arg_locs_from_spec types : ∀ ints floats idx locs,
  arg_locs_from ints floats idx types = Ret locs → 0 ≤ idx →
  Forall (λ l, match l with CReg g => g ∈ ints ++ floats | CStack o => 0 ≤ o < idx + zlen types end) locs.
Proof.
  induction types as [|t types IH]; intros ints floats idx locs E Hidx; cbn in E.
  { injection E as <-. constructor. }
  rewrite zlen_cons. pose proof (zlen_nonneg types).
  assert (∀ ints' floats' idx' out, arg_locs_from ints' floats' idx' types = Ret out → ints' ⊆ ints → floats' ⊆ floats →
    0 ≤ idx' ≤ idx + 1 → Forall (λ l, match l with CReg g => g ∈ ints ++ floats | CStack o => 0 ≤ o < idx + (zlen types + 1) end) out) as Hrec.
  { intros ints' floats' idx' out E' Hi Hf Hx. eapply Forall_impl; [apply (IH _ _ _ _ E'); lia|].
    intros [g|o]; [set_solver|lia]. }
  destruct t as [z|z].
  - destruct ints as [|r ints]; destruct (arg_locs_from _ _ _ _) as [out|] eqn:E'; try done; cbn in E; injection E as <-.
    + constructor; [lia|]. eapply Hrec; [exact E'|set_solver|set_solver|lia].
    + constructor; [set_solver|]. eapply Hrec; [exact E'|set_solver|set_solver|lia].
  - destruct floats as [|r floats]; [done|]. destruct (arg_locs_from _ _ _ _) as [out|] eqn:E'; try done; cbn in E; injection E as <-.
    constructor; [set_solver|]. eapply Hrec; [exact E'|set_solver|set_solver|lia].
Qed.

Lemma arg_registers_scratch g : g ∈ INTEGER_ARGS_IN_GPRS ++ FLOAT_ARGS_IN_GPRS → g ∈ SCRATCH_REGS.
Proof.
  intros Hg. assert (Forall (λ g, g ∈ SCRATCH_REGS) (INTEGER_ARGS_IN_GPRS ++ FLOAT_ARGS_IN_GPRS)) as HF
    by (apply (bool_decide_unpack _); by vm_compute).
  rewrite Forall_forall in HF. by apply HF.
Qed.
Lemma arg_locs_length types : ∀ ints floats idx locs,
  arg_locs_from ints floats idx types = Ret locs → length locs = length types.
Proof.
  induction types as [|t types IH]; intros ints floats idx locs E; cbn in E; [by injection E as <-|].
  destruct t as [z|z]; [destruct ints|destruct floats; [done|]];
    (destruct (arg_locs_from _ _ _ _) as [out|] eqn:E'; [|done]); cbn in E; injection E as <-; cbn; f_equal; by eapply IH.
Qed.

Section enter.
Context `{Sse} (la : Z → Z).

Lemma wp_mark_iter l : ∀ b m R (Q : unit → BlockState → machine → Prop),
  foldM mark_loc (bs_regs b) l = Ret R → Q tt (with_regs b R) m →
  wp la (iterM (λ v, match v with Reg r => mark_used r | _ => ret tt end) l) b m Q.
Proof.
  induction l as [|x l IH]; intros b m R Q E HQ; cbn [iterM foldM] in *.
  { injection E as <-. apply wp_ret. by destruct b. }
  apply wp_bind. destruct x as [g|o|i|c]; cbn [mark_loc] in E; try (apply wp_ret; by eapply IH).
  destruct (Registers_mark_used (bs_regs b) g) as [R1|] eqn:E1; [|done]. cbn in E.
  apply (wp_mark_used _ R1); [done|]. by eapply IH.
Qed.

(** The locations of the arguments are the virtual stack; nothing is emitted. *)
Lemma wp_start_function (m : machine) params locs vs b (Q : unit → BlockState → machine → Prop) :
  arg_locs params = Ret locs → 2 ^ 20 ≤ gpr m RSP_ + 8 < 2 ^ 63 → zlen params < 190 →
  Forall2 (holds (gpr m RSP_ + 8) m) (map ValueLocation_from locs) vs → Forall value_ok vs →
  (∀ b', inv (gpr m RSP_ + 8) m (1 + zlen vs) b' m [] [] vs → plain (bs_stack b') → Q tt b' m) →
  wp la (start_function params) b m Q.
Proof.
  intros E Hrsp Hn Hst Hv HQ. apply wp_bind, (wp_lift _ _ locs); [done|]. unfold apply_cc, function_start, mark_locs.
  cbn [arguments cc_stack_depth]. set (l := map ValueLocation_from locs) in *.
  pose proof (arg_locs_from_spec _ _ _ _ _ E ltac:(lia)) as HF. pose proof (arg_locs_length _ _ _ _ _ E) as Hlen.
  assert (zlen vs = zlen params) as Elen.
  { unfold zlen. rewrite <-Hlen, <-(length_map ValueLocation_from locs). fold l. by rewrite (Forall2_length _ _ _ Hst). }
  assert (zlen l = zlen vs) as El by (unfold zlen; by rewrite (Forall2_length _ _ _ Hst)).
  assert (∀ g, g ∈ regs_of l → g ∈ SCRATCH_REGS) as Hs.
  { intros g (c & Hc & Hin)%elem_of_regs_of%list_elem_of_fmap. rewrite Forall_forall in HF. specialize (HF _ Hin).
    destruct c as [g'|]; [|done]. injection Hc as ->. by apply arg_registers_scratch. }
  destruct (new_marked_owns l Hs ltac:(lia)) as (R & ER & Ho). destruct new_owns as (R0 & E0 & _).
  rewrite E0, bind_Ret_l in ER.
  apply wp_bind, wp_bind, (wp_lift _ _ R0); [done|]. apply wp_bind, wp_bind, wp_get, wp_put.
  apply (wp_mark_iter _ _ _ R); [done|]. apply wp_bind, wp_put_stack, wp_bind, wp_get, wp_put. apply HQ.
  - pose proof (regs_of_zlen l). split; cbn [bs_stack bs_regs bs_depth with_stack with_regs]; try done.
    + by rewrite app_nil_r.
    + lia.
    + split; [|done]. apply Forall_map. eapply Forall_impl; [exact HF|]. intros [g|o] Ho'; cbn in *; [done|lia].
    + lia.
    + change (zlen []) with 0. lia.
  - cbn [bs_stack with_stack]. apply Forall_map, Forall_true. by intros [].
Qed.
End enter.

(** ** The check of the counts *)

Section leave.
Context (rsp0 : Z) (m0 : machine) (Hrsp0 : 2 ^ 20 ≤ rsp0 < 2 ^ 63) `{Sse} (la : Z → Z).
Notation inv := (inv rsp0 m0).
Notation wp := (wp la).

Lemma wp_assertions {L} `{!EqDecision L} bs (op : @Operator L) B b m vs (Q : unit → BlockState → machine → Prop) :
  inv B b m [] [] vs → (∀ l, op ≠ Op.Label_ l) → Q tt b m → wp (assertions bs op) b m Q.
Proof using Hrsp0.
  intros Hi Hop HQ. assert (owns (bs_regs b) (regs_of (bs_stack b))) as Ho.
  { rewrite <-(app_nil_r (regs_of (bs_stack b))). exact (inv_owns _ _ _ _ _ _ _ _ Hi). }
  pose proof (inv_zlens _ _ Hrsp0 _ _ _ _ _ _ Hi). pose proof (inv_small _ _ _ _ _ _ _ _ Hi) as Hsm.
  destruct (new_marked_owns (bs_stack b)) as (R & E & HoR).
  { intros g Hg. by apply (owns_scratch _ _ Ho). }
  { change (zlen []) with 0 in Hsm. lia. }
  assert (wp (b ← get_bs;
      actual_regs ← lift (r ← Registers_new; foldM mark_loc r (bs_stack b));
      lift (rassert (bool_decide (actual_regs = bs_regs b)))) b m Q) as Hc.
  { apply wp_bind, wp_get, wp_bind, (wp_lift _ _ R); [done|]. apply (wp_lift _ _ tt); [|done].
    rewrite bool_decide_eq_true_2; [done|]. by eapply owns_unique. }
  destruct op; try exact Hc. by edestruct Hop.
Qed.

(** ** The result *)

(** What the caller sees when the function returns. *)
Record returns (v : Value) (m : machine) : Prop := {
  ret_value : rep v (gpr m 0);
  ret_rsp : gpr m RSP_ = rsp0 - 8;
  ret_kept : kept rsp0 m0 m;
}.

(** Saving one register: it is pushed where it is first used, and its other uses follow. *)
Lemma save_loop_none g l : ∀ d s, Reg g ∉ l → save_loop (length l) [g] d l s = Ret (s, d ++ l).
Proof.
  induction l as [|e l IH]; intros d s Hl; cbn [length save_loop]; [by rewrite app_nil_r|].
  apply not_elem_of_cons in Hl as [He Hl].
  destruct e as [g'|o|i|c]; [rewrite decide_False by set_solver|..]; (rewrite IH by done; by rewrite <-app_assoc).
Qed.
Lemma wp_save_loop r post : ∀ pre d b m k (Q : list ValueLocation → BlockState → machine → Prop),
  Reg (Rq r) ∉ pre → owns (bs_regs b) (Rq r :: regs_of post ++ k) → zlen (regs_of post ++ k) < 199 →
  0 ≤ bs_depth b < 2 ^ 16 → 8 ≤ gpr m RSP_ < 2 ^ 64 →
  (∀ R, let post' := map (repl (Reg (Rq r)) (Stack (- (bs_depth b + 1)))) post in
     owns R (regs_of post' ++ k) →
     Q (d ++ pre ++ Stack (- (bs_depth b + 1)) :: post') (mkBlockState (bs_stack b) (bs_depth b + 1) R)
       (pushed m (gpr m r mod 2 ^ 64))) →
  wp (save_loop (length (pre ++ Reg (Rq r) :: post)) [Rq r] d (pre ++ Reg (Rq r) :: post)) b m Q.
Proof using Hrsp0.
  induction pre as [|e pre IH]; intros d b m k Q Hpre Ho Hk Hd Hsp HQ; cbn [app length save_loop].
  - rewrite decide_True by set_solver.
    apply wp_bind, (wp_push_physical_rq la r (regs_of post ++ k)); [done|lia|lia|lia|]. intros R1 Ho1.
    apply wp_bind, (wp_replace_locs la (Rq r) _ _ _ _ k); [done|lia|]. intros R2 Ho2.
    set (post' := map _ post) in *. intros s Hs. exists s, ((d ++ [Stack (- (bs_depth b + 1))]) ++ post'), [], (pushed m (gpr m r mod 2 ^ 64)).
    split_and!; [|by rewrite app_nil_r|done|rewrite Hs, <-app_assoc; by apply HQ].
    replace (length post) with (length post') by apply length_map. apply save_loop_none.
    intros (e & He & _)%list_elem_of_fmap. unfold repl in He. by case_decide.
  - apply not_elem_of_cons in Hpre as [He Hpre].
    destruct e as [g|o|i|c]; [rewrite decide_False by set_solver|..];
      (eapply IH; [done|exact Ho|done|done|done|]; intros R; cbn; rewrite <-app_assoc; apply HQ).
Qed.
Lemma wp_save_one B b m held own vs r (Q : unit → BlockState → machine → Prop) :
  inv B b m held own vs → Reg (Rq r) ∈ bs_stack b →
  (∀ b' m', inv B b' m' held own vs →
     bs_stack b' = map (repl (Reg (Rq r)) (Stack (- (bs_depth b + 1)))) (bs_stack b) → Q tt b' m') →
  wp (save_regs [Rq r]) b m Q.
Proof using Hrsp0.
  intros Hi Hin HQ. unfold save_regs. apply wp_bind, wp_get, wp_bind, wp_put_stack, wp_bind.
  destruct (list_elem_of_split_l _ _ Hin) as (pre & post & Est & Hnin).
  pose proof (inv_zlen _ _ Hrsp0 _ _ _ _ _ _ Hi) as Hz. pose proof (inv_rsp_bounds _ _ Hrsp0 _ _ _ _ _ _ Hi) as [Hd Hsp].
  pose proof (inv_depth _ _ _ _ _ _ _ _ Hi) as [Hd0 Hd1]. pose proof (inv_owns _ _ _ _ _ _ _ _ Hi) as Ho.
  set (k := regs_of pre ++ regs_of (map fst held) ++ own).
  assert (regs_of (bs_stack b) ++ regs_of (map fst held) ++ own ≡ₚ Rq r :: regs_of post ++ k) as Hperm.
  { rewrite Est, regs_of_app. change (regs_of (Reg ?g :: post)) with (g :: regs_of post). subst k.
    rewrite <-!app_assoc. cbn [app]. rewrite <-Permutation_middle. by rewrite !(assoc_L (++)), (comm (++) (regs_of pre)). }
  rewrite Hperm in Ho. assert (zlen (Rq r :: regs_of post ++ k) < 200) as Hk by (unfold zlen in *; by rewrite <-Hperm).
  assert (zlen (regs_of (bs_stack b)) = zlen (regs_of pre) + zlen (regs_of post) + 1) as Hzr.
  { rewrite Est, regs_of_app. change (regs_of (Reg ?g :: post)) with (g :: regs_of post). rewrite zlen_app, zlen_cons. lia. }
  rewrite zlen_cons in Hk. pose proof (zlen_nonneg (regs_of pre)). pose proof (zlen_nonneg (regs_of post)).
  rewrite Est. apply (wp_save_loop _ _ _ _ _ _ k); cbn [with_stack bs_regs bs_depth]; [done|exact Ho|lia|lia|lia|].
  intros R. cbn [bs_stack app]. intros HoR. rewrite <-(repl_split _ _ _ _ Hnin) in *. apply wp_put_stack. cbn [with_stack bs_depth bs_regs].
  rewrite <-Est. pose proof (regs_of_repl_le r (- (bs_depth b + 1)) post). apply HQ; [|done].
  eapply (inv_spilled rsp0 m0 Hrsp0); [done|done|lia|done| |]; rewrite Est, (repl_split _ _ _ _ Hnin), regs_of_app.
  - rewrite zlen_app. change (regs_of (Stack ?o :: ?l)) with (regs_of l). rewrite Est in Hzr. lia.
  - change (regs_of (Stack ?o :: ?l)) with (regs_of l). revert HoR. apply owns_perm. subst k.
    by rewrite !(assoc_L (++)), (comm (++) (regs_of pre)).
Qed.

(** The result goes to [rax], whatever else is on the virtual stack. *)
Lemma wp_pass_result B b m vs v (Q : unit → BlockState → machine → Prop) :
  inv B b m [] [] (vs ++ [v]) → zlen vs < 190 →
  (∀ b' m', inv B b' m' [] [RAX] vs → rep v (gpr m' 0) → Q tt b' m') →
  wp (do_pass_block_args (function_start [CReg RAX])) b m Q.
Proof using Hrsp0.
  intros Hi Hvs HQ. pose proof (inv_owns _ _ _ _ _ _ _ _ Hi) as Ho.
  destruct (proj1 (Forall2_app_inv_r _ _ _ _) (inv_stack _ _ _ _ _ _ _ _ Hi)) as (l & k & Hl & Hk & Est).
  apply Forall2_cons_inv_r in Hk as (x & k' & _ & Hk & ->). apply Forall2_nil_inv_r in Hk as ->.
  assert (RAX ∈ SCRATCH_REGS) as Hs by (apply (bool_decide_unpack _); by vm_compute).
  unfold do_pass_block_args. apply wp_bind, wp_get. rewrite Est, length_app, Nat.add_comm.
  cbn [length Nat.add rev arguments function_start app]. cbn [take pass_loop]. rewrite take_nil. cbn [pass_loop].
  apply wp_bind, wp_bind, wp_bind, wp_get, wp_ret. rewrite (is_free_owns _ _ _ Ho Hs). apply wp_bind.
  (** afterwards [rax] is not in use, or is what holds the value *)
  set (after := λ (_ : unit) b m, wp (mark_used RAX) b m (λ _ b m, wp (_ ← pop_into (CReg RAX); ret tt) b m Q)).
  assert (∀ b1 m1 l1, inv B b1 m1 [] [] (vs ++ [v]) → bs_stack b1 = l1 ++ [x] → RAX ∉ regs_of l1 ∨ x = Reg RAX → after tt b1 m1) as Hafter.
  { intros b1 m1 l1 Hi1 E1 Hx. unfold after. eapply wp_mark_used_inv; [done|done|done|rewrite zlen_app; change (zlen [_]) with 1; change (zlen []) with 0; lia|].
    intros b2 Hi2 E2 _. apply wp_bind, wp_bind. eapply (wp_pop rsp0 m0 Hrsp0 la _ _ _ [] _ vs); [exact Hi2|]. intros l2 y E Hi3.
    rewrite E2, E1 in E. apply app_inj_tail in E as [<- <-].
    assert (∀ b2 m2, inv B b2 m2 [(x, v)] [RAX] vs → rep v (gpr m2 0) →
      wp (free_value x) b2 m2 (λ _ b m, wp (ret tt) b m Q)) as Hend.
    { intros b4 m4 Hi4 Hr. eapply wp_free_value; [done|done|]. intros b5 Hi5 _ _. apply wp_ret. by apply HQ. }
    destruct (decide (x = Reg RAX)) as [->|Hne].
    - apply wp_bind, wp_ret, Hend; [done|]. by destruct (inv_head_ok _ _ Hrsp0 _ _ _ _ _ _ _ _ Hi3) as (Hv & _).
    - destruct Hx as [Hx|]; [|done]. apply wp_bind. eapply wp_copy_value; [done|exact Hi3|done|]. intros m3 Hu Hr.
      apply Hend; [|done]. eapply (inv_upd rsp0 m0 Hrsp0); [exact Hi3|exact Hu|done| |by left].
      cbn [bs_stack with_stack map fst]. rewrite <-regs_of_app, elem_of_regs_of. rewrite elem_of_regs_of in Hx. set_solver. }
  change (wp (if negb (bool_decide (RAX ∉ regs_of (bs_stack b) ++ regs_of (map fst ([] : list (ValueLocation * Value))) ++ []))
    then b ← get_bs; top ← lift (unwrap (last (bs_stack b))); if decide (top = Reg RAX) then ret tt else save_regs [RAX]
    else ret tt) b m after).
  rewrite app_nil_r in *. case_bool_decide as Hin; cbn [negb].
  { apply wp_ret. eapply Hafter; [done|done|]. left. rewrite Est, regs_of_app in Hin. set_solver. }
  apply wp_bind, wp_get, wp_bind. rewrite Est at 1. eapply wp_lift; [by rewrite last_snoc|].
  case_decide as Hx; [apply wp_ret; eapply Hafter; [done|done|by right]|].
  apply elem_of_regs_of in Hin. eapply wp_save_one; [done|done|]. intros b1 m1 Hi1 E1.
  rewrite Est, map_app in E1. cbn [map] in E1. unfold repl in E1 at 2. rewrite decide_False in E1 by done.
  eapply Hafter; [done|done|]. left. rewrite elem_of_regs_of. intros (e & He & _)%list_elem_of_fmap. unfold repl in He. by case_decide.
Qed.

(** The stack pointer moved back; of the registers, at most one that is free changes. *)
Lemma returns_step m m' v :
  rep v (gpr m 0) → kept rsp0 m0 m → mm m' = mm m → gpr m' 0 = gpr m 0 → gpr m' RSP_ = rsp0 - 8 →
  (∀ k, Rq k ∉ SCRATCH_REGS → k ≠ RSP_ → gpr m' k = gpr m k) → returns v m'.
Proof.
  intros Hv [Hk1 Hk2] Hm H0 Hr Hg. split; [by rewrite H0|done|]. split; intros; rewrite ?Hm; [|by apply Hk2].
  rewrite Hg by done. by apply Hk1.
Qed.

Lemma wp_lea B b m v vs (Q : unit → BlockState → machine → Prop) :
  inv B b m [(Reg RAX, v)] [] vs → (∀ b' m', returns v m' → Q tt b' m') →
  wp (b ← get_bs; x ← lift (i32_checked ((wrap_s 32 (bs_depth b) - 1) * WORD_SIZE)); emit (LEA RSP_ (Addr RSP_ None x)))
    b m (λ _ b m, wp (put_depth 1) b m Q).
Proof using Hrsp0.
  intros Hi HQ. pose proof (inv_rsp_bounds _ _ Hrsp0 _ _ _ _ _ _ Hi) as [Hd Hr].
  destruct (inv_head_ok _ _ Hrsp0 _ _ _ _ _ _ _ _ Hi) as (Hv & _).
  apply wp_bind, wp_get, wp_bind. rewrite wrap_s_small by lia. unfold WORD_SIZE.
  eapply wp_lift; [apply i32_checked_small; lia|]. eapply wp_emit; [reflexivity|]. apply wp_bind, wp_get, wp_put, HQ.
  apply (returns_step m); [done|by eapply inv_kept|done|done| |].
  - unfold write_gpr. rewrite gpr_with_gpr. cbn [ea].
    rewrite (inv_rsp _ _ _ _ _ _ _ _ Hi), Z.mod_mod, Z.mod_small by lia. lia.
  - intros k _ Hk'. unfold write_gpr. cbn [with_gpr gpr]. by rewrite (proj2 (Z.eqb_neq _ _)).
Qed.

(** Popping to a register that nothing uses. *)
Lemma wp_pops_to {A} r (l : list A) : ∀ b m (Q : unit → BlockState → machine → Prop),
  r ≠ RSP_ → 0 ≤ gpr m RSP_ → gpr m RSP_ + 8 * zlen l < 2 ^ 64 →
  (∀ m', mm m' = mm m → gpr m' RSP_ = gpr m RSP_ + 8 * zlen l → (∀ k, k ≠ r → k ≠ RSP_ → gpr m' k = gpr m k) → Q tt b m') →
  wp (iterM (λ _, emit (POP r)) l) b m Q.
Proof.
  induction l as [|x l IH]; intros b m Q Hr H0 Hsp HQ; cbn [iterM].
  { apply wp_ret, HQ; try done. change (zlen []) with 0. lia. }
  rewrite zlen_cons in *. pose proof (zlen_nonneg l). apply wp_bind. eapply wp_emit; [reflexivity|].
  assert (∀ y, gpr (write_gpr (with_gpr m RSP_ ((gpr m RSP_ + 8) mod 2 ^ 64)) W64 r y) RSP_ = gpr m RSP_ + 8) as E.
  { intros y. unfold write_gpr. cbn [with_gpr gpr]. rewrite (proj2 (Z.eqb_neq RSP_ r)), Z.eqb_refl, Z.mod_small by (done || lia). done. }
  apply IH; [done|rewrite E; lia|rewrite E; lia|]. intros m' Hm Hs Hk. rewrite E in Hs. apply HQ; [done|lia|].
  intros k Hk1 Hk2. rewrite Hk by done. unfold write_gpr. cbn [with_gpr gpr]. by rewrite !(proj2 (Z.eqb_neq k _)).
Qed.
Lemma wp_pop_trash B b m v vs r (Q : bool → BlockState → machine → Prop) :
  inv B b m [(Reg RAX, v)] [Rq r] vs → r ≠ 0 → r ≠ RSP_ →
  (∀ b' m', returns v m' → Q false b' m') →
  wp (b ← get_bs; _ ← iterM (λ _, emit (POP r)) (seqZ 0 (bs_depth b - 1)); _ ← release (Rq r); ret false) b m Q.
Proof using Hrsp0.
  intros Hi Hr0 Hrs HQ. pose proof (inv_rsp_bounds _ _ Hrsp0 _ _ _ _ _ _ Hi) as [Hd Hr].
  pose proof (inv_depth _ _ _ _ _ _ _ _ Hi) as [Hd1 _].
  destruct (inv_head_ok _ _ Hrsp0 _ _ _ _ _ _ _ _ Hi) as (Hv & _).
  assert (zlen (seqZ 0 (bs_depth b - 1)) = bs_depth b - 1) as Hlen by (unfold zlen; rewrite length_seqZ; lia).
  assert (Rq r ∈ SCRATCH_REGS) as Hs by (eapply inv_scratch; [done|exact Hi|cbn; set_solver]).
  apply wp_bind, wp_get, wp_bind, wp_pops_to; [done|lia|rewrite Hlen; lia|]. intros m' Hm Hsp Hk. rewrite Hlen in Hsp.
  pose proof (inv_owns _ _ _ _ _ _ _ _ Hi) as Ho. rewrite app_assoc, (Permutation_app_comm _ [Rq r]) in Ho.
  pose proof (inv_zlen _ _ Hrsp0 _ _ _ _ _ _ Hi) as Hz. rewrite app_assoc, zlen_app in Hz. change (zlen [Rq r]) with 1 in Hz.
  destruct (release_owns _ _ _ Ho) as (R' & ER & _).
  { pose proof (uses_le (Rq r) (regs_of (bs_stack b) ++ regs_of (map fst [(Reg RAX, v)]))). lia. }
  apply wp_bind, (wp_release _ R'); [done|]. apply wp_ret, HQ.
  apply (returns_step m); [exact Hv|by eapply inv_kept|done|by apply Hk| |].
  - rewrite Hsp, (inv_rsp _ _ _ _ _ _ _ _ Hi). lia.
  - intros k Hk1 Hk2. apply Hk; [intros ->; done|done].
Qed.

Lemma wp_set_depth_1 B b m v vs (Q : unit → BlockState → machine → Prop) :
  inv B b m [] [RAX] vs → rep v (gpr m 0) → value_ok v → zlen vs < 190 →
  (∀ b' m', returns v m' → Q tt b' m') → wp (set_stack_depth 1) b m Q.
Proof using Hrsp0.
  intros Hi Hv Hok Hvs HQ. eapply (inv_own_held rsp0 m0 Hrsp0 _ _ _ _ _ _ RAX v) in Hi; [|exact Hv|done].
  pose proof (inv_rsp_bounds _ _ Hrsp0 _ _ _ _ _ _ Hi) as [Hd Hr]. pose proof (inv_depth _ _ _ _ _ _ _ _ Hi) as [Hd1 _].
  unfold set_stack_depth. apply wp_bind, wp_get. destruct (Z.eqb_spec (bs_depth b) 1) as [E1|E1].
  { apply wp_ret, HQ. split; [done|rewrite (inv_rsp _ _ _ _ _ _ _ _ Hi); lia|by eapply inv_kept]. }
  change (wrap_s 32 1) with 1. rewrite wrap_s_small by lia. apply wp_bind.
  destruct (Z.eqb_spec (Z.abs (1 - bs_depth b)) 1) as [E2|E2].
  - rewrite (proj2 (Z.ltb_ge _ _)) by lia. apply wp_bind.
    eapply wp_take; [done|exact Hi|cbn; lia|change (zlen [_]) with 1; change (zlen []) with 0; lia|].
    intros r b1 m1 Hi1 [Hs Hfr] _. apply wp_bind, (wp_lift _ _ r); [done|].
    eapply wp_pop_trash; [done|intros ->; apply Hfr; cbn; set_solver|by apply scratch_not_rsp|].
    intros b2 m2 Hret. apply wp_bind, wp_ret, wp_bind, wp_get, wp_put. by apply HQ.
  - apply wp_ret, wp_bind. by eapply wp_lea.
Qed.

(** [pass_block_args] to the caller. *)
Lemma wp_pass_to_caller B b m vs v (Q : unit → BlockState → machine → Prop) :
  inv B b m [] [] (vs ++ [v]) → zlen vs < 190 → (∀ b' m', returns v m' → Q tt b' m') →
  wp (pass_block_args (function_start [CReg RAX])) b m Q.
Proof using Hrsp0.
  intros Hi Hvs HQ. pose proof (inv_values _ _ _ _ _ _ _ _ Hi) as [Hok _].
  apply Forall_app in Hok as [_ Hok]. apply Forall_cons in Hok as [Hok _].
  apply wp_bind. eapply wp_pass_result; [done|done|]. intros b1 m1 Hi1 Hv. by eapply wp_set_depth_1.
Qed.
End leave.

(** ** Code that ends with a return *)

Section wpr.
Context `{Sse} (la : Z → Z).

Definition wpr {A} (f : M A) (b : BlockState) (m : machine) (Q : A → machine → Prop) : Prop :=
  ∀ s, block_state s = b → ∃ s' a items m',
    f s = Ret (s', a) ∧ code s' = code s ++ items ∧ exec la None items m = Some (Returned m') ∧ Q a m'.

Lemma wpr_bind {A B} (f : M A) (g : A → M B) b m Q :
  wp la f b m (λ a b' m', wpr (g a) b' m' Q) → wpr (f ≫= g) b m Q.
Proof.
  intros Hf s Hs. destruct (Hf s Hs) as (s1 & a & i1 & m1 & E1 & Ec1 & Ex1 & Hg).
  destruct (Hg s1 eq_refl) as (s2 & c & i2 & m2 & E2 & Ec2 & Ex2 & HQ).
  exists s2, c, (i1 ++ i2), m2. split_and!; [|by rewrite Ec2, Ec1, app_assoc| |done].
  - unfold mbind, M_bind. by rewrite E1.
  - by rewrite (exec_app _ _ _ _ _ _ Ex1).
Qed.
(** After the return, only what neither emits code nor changes the state. *)
Lemma wpr_then {A B} (f : M A) (g : A → M B) b m (Q : B → machine → Prop) :
  wpr f b m (λ a m', ∃ c, (∀ s, g a s = Ret (s, c)) ∧ Q c m') → wpr (f ≫= g) b m Q.
Proof.
  intros Hf s Hs. destruct (Hf s Hs) as (s1 & a & i1 & m1 & E1 & Ec1 & Ex1 & c & Ec & HQ).
  exists s1, c, i1, m1. split; [|done]. unfold mbind, M_bind. rewrite E1. apply Ec.
Qed.
Lemma wpr_ret b m (Q : unit → machine → Prop) : Q tt m → wpr cg_ret b m Q.
Proof. intros HQ s Hs. eexists _, tt, [Ins RET], m. by split_and!. Qed.
End wpr.
