(* ===== verification/LightbeamTraps.v ===== *)
(** * Lightbeam: code that may trap

    [wpx] extends [wp] to methods that emit conditional jumps to the trap label: the
    code runs to its end, or leaves by such a jump.  The generator goes on in either
    case, so that after a jump the method is only required not to panic. *)

From S2P Require Import Prelude Microwasm Store X64 LightbeamRegs Lightbeam LightbeamOps LightbeamMemory LightbeamInv.
Import V(Value) registers.
Local Open Scope Z_scope.

(** ** Methods that emit instructions only *)

Definition straight {A} (f : M A) : Prop := ∀ s s' a, f s = Ret (s', a) →
  ∃ ins ls, code s' = code s ++ map Ins ins ∧ labels s' = labels s ++ ls.

Create HintDb straight.

Lemma straight_bind {A B} (f : M A) (g : A → M B) : straight f → (∀ a, straight (g a)) → straight (f ≫= g).
Proof.
  intros Hf Hg s s' b E. unfold mbind, M_bind in E. destruct (f s) as [[s1 a]|] eqn:Ef; [|done]. cbn in E.
  destruct (Hf _ _ _ Ef) as (i1 & l1 & C1 & L1), (Hg _ _ _ _ E) as (i2 & l2 & C2 & L2).
  exists (i1 ++ i2), (l1 ++ l2). by rewrite C2, C1, L2, L1, map_app, !app_assoc.
Qed.
Lemma straight_ret {A} (a : A) : straight (ret a).
Proof. intros s s' b [= <- <-]. exists [], []. by rewrite !app_nil_r. Qed.
Lemma straight_lift {A} (r : res A) : straight (lift r).
Proof. intros s s' a E. unfold lift in E. destruct r; [|done]. injection E as <- <-. exists [], []. by rewrite !app_nil_r. Qed.
Lemma straight_get : straight get_bs.
Proof. intros s s' a [= <- <-]. exists [], []. by rewrite !app_nil_r. Qed.
Lemma straight_put b : straight (put_bs b).
Proof. intros s s' a [= <- <-]. exists [], []. by rewrite !app_nil_r. Qed.
Lemma straight_emit i : straight (emit i).
Proof. intros s s' a [= <- <-]. exists [i], []. by rewrite app_nil_r. Qed.
Lemma straight_label al k : straight (aligned_label al k).
Proof.
  intros s s' a E. unfold aligned_label in E. destruct (lookup_label _ _).
  - injection E as <- <-. exists [], []. by rewrite !app_nil_r.
  - injection E as <- <-. eexists [], _. cbn. by rewrite app_nil_r.
Qed.
#[export] Hint Resolve straight_ret straight_lift straight_get straight_put straight_emit straight_label : straight.

Ltac straight := repeat first
  [ solve [eauto 2 with straight]
  | match goal with |- straight (_ ≫= _) => apply straight_bind; [|intros ?] end
  | case_match ].

Lemma straight_release g : straight (release g).
Proof. unfold release, put_regs. straight. Qed.
Lemma straight_mark_used g : straight (mark_used g).
Proof. unfold mark_used, put_regs. straight. Qed.
Lemma straight_rqM g : straight (rqM g).
Proof. unfold rqM. straight. Qed.
Lemma straight_put_stack l : straight (put_stack l).
Proof. unfold put_stack. straight. Qed.
Lemma straight_unwrapM {A} (f : M (option A)) : straight f → straight (unwrapM f).
Proof. intros Hf. unfold unwrapM. straight. Qed.
Lemma straight_regs_take t : straight (regs_take t).
Proof. unfold regs_take, put_regs. straight. Qed.
Lemma straight_adjusted_offset o : straight (adjusted_offset o).
Proof. unfold adjusted_offset. straight. Qed.
Lemma straight_free_value v : straight (free_value v).
Proof. unfold free_value. destruct v; eauto using straight_release, straight_ret. Qed.
Lemma straight_immediate g v : straight (immediate_to_reg g v).
Proof. unfold immediate_to_reg. straight. Qed.
#[export] Hint Resolve straight_release straight_mark_used straight_rqM straight_put_stack straight_unwrapM
  straight_regs_take straight_adjusted_offset straight_free_value straight_immediate : straight.

(** *** Moving values *)

Section straight.
Context `{TakeReg} (Htake : ∀ t, straight (take_reg t)).

Lemma straight_copy_value v l : straight (copy_value v l).
Proof using Htake. unfold copy_value, copy_cond_reg, copy_reg_reg. straight. Qed.
#[local] Hint Resolve straight_copy_value : straight.
Lemma straight_copy_to_scratch t v : straight (copy_to_scratch t v).
Proof using Htake. unfold copy_to_scratch. straight. Qed.
#[local] Hint Resolve straight_copy_to_scratch : straight.
Lemma straight_to_reg t v : straight (to_reg t v).
Proof using Htake. unfold to_reg. straight. Qed.
#[local] Hint Resolve straight_to_reg : straight.
Lemma straight_to_temp_reg t v : straight (to_temp_reg t v).
Proof using Htake. unfold to_temp_reg, usages. straight. Qed.
#[local] Hint Resolve straight_to_temp_reg : straight.
Lemma straight_into_reg t v : straight (into_reg t v).
Proof using Htake. unfold into_reg. straight. Qed.
#[local] Hint Resolve straight_into_reg : straight.
Lemma straight_into_temp_reg t v : straight (into_temp_reg t v).
Proof using Htake. unfold into_temp_reg. straight. Qed.
#[local] Hint Resolve straight_into_temp_reg : straight.
Lemma straight_push_physical v : straight (push_physical v).
Proof using Htake.
  unfold push_physical, depth_reserve, put_depth. straight.
Qed.
#[local] Hint Resolve straight_push_physical : straight.
Lemma straight_replace_locs old new g l : straight (replace_locs old new g l).
Proof using. induction l; cbn [replace_locs]; straight. Qed.
#[local] Hint Resolve straight_replace_locs : straight.
Lemma straight_free_reg t : straight (free_reg t).
Proof using Htake. unfold free_reg. straight. Qed.
#[local] Hint Resolve straight_free_reg : straight.
Lemma straight_take_loop fuel t : straight (take_loop fuel t).
Proof using Htake. induction fuel; cbn [take_loop]; straight. Qed.
#[local] Hint Resolve straight_take_loop : straight.
End straight.

Lemma straight_take t : straight (take_reg t).
Proof.
  assert (∀ n t, straight (take_reg_depth n t)) as Hd; [|apply Hd].
  induction n as [|n IH]; intros t'; cbn [take_reg_depth]; straight. by apply straight_take_loop.
Qed.
Lemma straight_take_gpr t : straight (take_gpr t).
Proof. apply straight_unwrapM, straight_take. Qed.
Lemma straight_as_reg t v : straight (as_reg t v).
Proof. apply straight_unwrapM, straight_into_reg, straight_take. Qed.
Lemma straight_as_temp t v : straight (as_temp t v).
Proof. apply straight_unwrapM, straight_into_temp_reg, straight_take. Qed.
Lemma straight_pop : straight pop.
Proof. unfold pop. straight. Qed.
Lemma straight_push v : straight (push v).
Proof. unfold push. straight. apply straight_unwrapM, straight_into_reg, straight_take. Qed.
#[export] Hint Resolve straight_take straight_take_gpr straight_as_reg straight_as_temp straight_pop straight_push : straight.

(** ** Running *)

Definition trap_of (s : ctx) : option Z := lookup_label (labels s) (1, KTrap).

Section wpx.
Context `{Sse} (la : Z → Z).

Lemma exec_skip l ins m : exec la (Some l) (map Ins ins) m = Some (Goto l m).
Proof. by induction ins. Qed.
Lemma exec_goto l mt ins ins' m :
  exec la None (map Ins ins) m = Some (Goto l mt) → exec la None (map Ins ins ++ map Ins ins') m = Some (Goto l mt).
Proof.
  revert m. induction ins as [|i ins IH]; intros m E; cbn [map app exec] in *; [done|].
  destruct (exec1 la i m) as [[]|]; try done; [by apply IH|].
  rewrite exec_skip in E. injection E as -> ->. rewrite <-map_app. apply exec_skip.
Qed.
Lemma trap_of_more s s' ls l : labels s' = labels s ++ ls → trap_of s = Some l → trap_of s' = Some l.
Proof.
  unfold trap_of, lookup_label. intros ->. destruct (list_find _ (labels s)) as [[i e]|] eqn:E; [|done].
  intros [= <-]. by rewrite (list_find_app_l _ _ _ _ _ E).
Qed.

(** Where the run is: in a machine, or left to a label with a machine. *)
Definition left_to := option (Z * machine).
Definition runs (ins : list instr) (m m' : machine) (o o' : left_to) (l' : option Z) : Prop :=
  match o, o' with
  | None, None => exec la None (map Ins ins) m = Some (Next m')
  | None, Some (l, mt) => exec la None (map Ins ins) m = Some (Goto l mt) ∧ l' = Some l
  | Some e, Some e' => e' = e
  | Some _, None => False
  end.

(** [L]: the trap label, if it is known. *)
Definition wpx {A} (L : option Z) (f : M A) (b : BlockState) (m : machine) (o : left_to)
    (Q : A → BlockState → machine → left_to → Prop) : Prop :=
  ∀ s, block_state s = b → (∀ l, L = Some l → trap_of s = Some l) →
  ∃ s' a ins ls m' o', f s = Ret (s', a) ∧ code s' = code s ++ map Ins ins ∧ labels s' = labels s ++ ls ∧
    runs ins m m' o o' (trap_of s') ∧ Q a (block_state s') m' o'.

Lemma wpx_of_wp {A} L (f : M A) b m o (Q : A → BlockState → machine → left_to → Prop) :
  straight f → wp la f b m (λ a b' m', Q a b' m' o) → wpx L f b m o Q.
Proof.
  intros Hst Hf s Hs _. destruct (Hf s Hs) as (s' & a & items & m' & E & Ec & Ex & HQ).
  destruct (Hst _ _ _ E) as (ins & ls & Ec' & El). rewrite Ec' in Ec. apply app_inv_head in Ec. subst items.
  exists s', a, ins, ls, m', o. split_and!; try done. by destruct o.
Qed.

Lemma wpx_bind {A B} L (f : M A) (g : A → M B) b m o Q :
  wpx L f b m o (λ a b' m' o', wpx L (g a) b' m' o' Q) → wpx L (f ≫= g) b m o Q.
Proof.
  intros Hf s Hs HL. destruct (Hf s Hs HL) as (s1 & a & i1 & l1 & m1 & o1 & E1 & C1 & L1 & R1 & Hg).
  destruct (Hg s1 eq_refl) as (s2 & c & i2 & l2 & m2 & o2 & E2 & C2 & L2 & R2 & HQ).
  { intros l Hl. eapply trap_of_more; [exact L1|by apply HL]. }
  exists s2, c, (i1 ++ i2), (l1 ++ l2), m2, o2. split_and!; try done.
  - unfold mbind, M_bind. by rewrite E1.
  - by rewrite C2, C1, map_app, app_assoc.
  - by rewrite L2, L1, app_assoc.
  - unfold runs in *. rewrite map_app. destruct o as [e|], o1 as [[l1' mt]|]; try done.
    + destruct o2; naive_solver.
    + destruct R1 as [R1 Ht]. destruct o2 as [[l' mt']|]; [|done]. injection R2 as -> ->.
      split; [by apply exec_goto|]. by eapply trap_of_more.
    + destruct o2 as [[l' mt']|]; rewrite (exec_app _ _ _ _ _ _ R1); done.
Qed.
Lemma wpx_step {A B} L (f : M A) (g : A → M B) b m o Q :
  straight f → wp la f b m (λ a b' m', wpx L (g a) b' m' o Q) → wpx L (f ≫= g) b m o Q.
Proof. intros Hst Hf. by apply wpx_bind, wpx_of_wp. Qed.
Lemma wpx_mono {A} L (f : M A) b m o (Q Q' : A → BlockState → machine → left_to → Prop) :
  wpx L f b m o Q → (∀ a b' m' o', Q a b' m' o' → Q' a b' m' o') → wpx L f b m o Q'.
Proof.
  intros Hf HQ s Hs HL. destruct (Hf s Hs HL) as (s' & a & ins & ls & m' & o' & ? & ? & ? & ? & ?).
  exists s', a, ins, ls, m', o'. eauto 10.
Qed.
Lemma wpx_trap_label {A} L (k : Z → M A) b m o Q :
  (∀ l, wpx (Some l) (k l) b m o Q) → wpx L (trap_label ≫= k) b m o Q.
Proof.
  intros Hk s Hs HL. unfold trap_label.
  assert (∃ s1 l ls, aligned_label 1 KTrap s = Ret (s1, l) ∧ code s1 = code s ∧ labels s1 = labels s ++ ls ∧
    block_state s1 = block_state s ∧ trap_of s1 = Some l) as (s1 & l & ls & E & Ec & El & Eb & Et).
  { unfold aligned_label. destruct (lookup_label (labels s) (1, KTrap)) as [l|] eqn:E.
    - exists s, l, []. by rewrite app_nil_r.
    - cbn. eexists _, _, _. split_and!; try done. unfold trap_of, lookup_label in *. cbn [labels].
      destruct (list_find _ (labels s)) as [[]|] eqn:Ef; [done|].
      rewrite list_find_app_r by done. cbn. by rewrite decide_True. }
  destruct (Hk l s1) as (s' & a & ins & ls' & m' & o' & E' & C' & L' & R & HQ); [congruence|by intros ? [= <-]|].
  exists s', a, ins, (ls ++ ls'), m', o'. split_and!; try done.
  - unfold mbind, M_bind. by rewrite E.
  - by rewrite C', Ec.
  - by rewrite L', El, app_assoc.
Qed.
(** A jump to the trap label. *)
Lemma wpx_jcc c l t b m (Q : unit → BlockState → machine → left_to → Prop) :
  holds_cond (fl m) c = Some t → Q tt b m (if t then Some (l, m) else None) →
  wpx (Some l) (emit (JCC c l)) b m None Q.
Proof.
  intros Hc HQ s Hs HL. eexists _, tt, [JCC c l], [], m, _. split_and!; [done|done|cbn; by rewrite app_nil_r| |cbn; rewrite Hs; exact HQ].
  unfold runs. cbn [map exec exec1]. rewrite Hc. destruct t; cbn; [|done]. split; [done|]. by apply HL.
Qed.
(** An instruction after the jump has not been executed. *)
Lemma wpx_emit L i b m o (Q : unit → BlockState → machine → left_to → Prop) :
  (∀ m', (o = None → exec1 la i m = Some (Next m')) → (o ≠ None → m' = m) → Q tt b m' o) →
  (o = None → ∃ m', exec1 la i m = Some (Next m')) → wpx L (emit i) b m o Q.
Proof.
  intros HQ He. destruct o as [e|].
  - intros s Hs HL. eexists _, tt, [i], [], m, (Some e). split_and!; [done|done|cbn; by rewrite app_nil_r|done|].
    cbn. rewrite Hs. by apply HQ.
  - destruct (He eq_refl) as [m' Em]. apply wpx_of_wp; [apply straight_emit|]. eapply wp_emit; [done|]. by apply HQ.
Qed.
Lemma wpx_assoc {A B D} L (f : M A) (g : A → M B) (h : B → M D) b m o Q :
  wpx L (f ≫= λ a, g a ≫= h) b m o Q → wpx L ((f ≫= g) ≫= h) b m o Q.
Proof.
  intros Hf s Hs HL. destruct (Hf s Hs HL) as (s' & a & ins & ls & m' & o' & E & HQ).
  exists s', a, ins, ls, m', o'. split; [|done]. rewrite <-E. unfold mbind, M_bind. by destruct (f s) as [[]|].
Qed.
End wpx.
