(* ===== verification/LightbeamAccess.v ===== *)
(** * Lightbeam: accesses of linear memory are checked

    The code that [load!] and [store!] emit, for the definition of memory 0 in the
    context of an instance. *)

From S2P Require Import Prelude Microwasm MicrowasmProofs Store X64 LightbeamRegs LightbeamOwns Lightbeam.
From S2P Require Import LightbeamOps LightbeamMemory LightbeamInv LightbeamMoves LightbeamArith LightbeamTraps.
Import V(Value) registers.
Local Open Scope Z_scope.

(** ** Words in registers *)

Definition word (x : Z) : Value := V.I64 (wrap_s 64 x).
Lemma rep_word x y : rep (word x) y ↔ y mod 2 ^ 64 = x mod 2 ^ 64.
Proof. cbn [rep word]. by rewrite wrap_s_mod by lia. Qed.
Lemma word_ok x : value_ok (word x).
Proof. cbn [value_ok word]. pose proof (wrap_s_range 64 x). cbn in *. lia. Qed.

Lemma le_bytes_mod n x y :
  x mod 2 ^ (8 * Z.of_nat n) = y mod 2 ^ (8 * Z.of_nat n) → le_bytes n x = le_bytes n y.
Proof.
  revert x y. induction n as [|n IH]; intros x y E; [done|]. cbn [le_bytes].
  pose proof (Z.pow_pos_nonneg 2 (8 * Z.of_nat n)).
  assert (2 ^ (8 * Z.of_nat (S n)) = 256 * 2 ^ (8 * Z.of_nat n)) as E2
    by (change 256 with (2 ^ 8); rewrite <-Z.pow_add_r by lia; f_equal; lia).
  rewrite E2, !Z.rem_mul_r in E by lia. pose proof (Z.mod_pos_bound x 256). pose proof (Z.mod_pos_bound y 256).
  f_equal; [lia|]. apply IH. lia.
Qed.
Lemma wbits_bytes w : bits w = 8 * Z.of_nat (wbytes w).
Proof. by destruct w. Qed.
Lemma wbytes_le w : Z.of_nat (wbytes w) ≤ 8.
Proof. destruct w; cbn; lia. Qed.
Lemma bits_pow w : 2 ^ bits w ≠ 0.
Proof. by destruct w. Qed.
Lemma rep_low z c w y : bits w ≤ wbits z → rep (value_of z c) y → y mod 2 ^ bits w = c mod 2 ^ bits w.
Proof.
  intros Hw Hr. apply rep_int in Hr. assert (0 ≤ bits w) by (by destruct w).
  assert (wbits z = bits w + (wbits z - bits w)) as E by lia. rewrite E, Z.pow_add_r in Hr by lia.
  pose proof (Z.pow_pos_nonneg 2 (bits w)). pose proof (Z.pow_pos_nonneg 2 (wbits z - bits w)).
  rewrite !Z.rem_mul_r in Hr by lia. pose proof (Z.mod_pos_bound y (2 ^ bits w)). pose proof (Z.mod_pos_bound c (2 ^ bits w)).
  apply (f_equal (λ u, u mod 2 ^ bits w)) in Hr.
  by rewrite !(Z.mul_comm (2 ^ bits w)), !Z.mod_add, !Z.mod_mod in Hr by lia.
Qed.

Section access.
Context (rsp0 : Z) (m0 : machine) (Hrsp0 : 2 ^ 20 ≤ rsp0 < 2 ^ 63) `{Sse} (la : Z → Z) `{ModuleOffsets}.
Set Default Proof Using "Type*".
Notation inv := (inv rsp0 m0).
Notation holds := (holds rsp0).
Notation wp := (wp la).
Notation wpx := (wpx la).
Implicit Types (held : list (ValueLocation * Value)) (own : list GPR) (vs : list Value).

Lemma inv_word B b m held own vs r x :
  inv B b m held own vs → (Reg (Rq r), word x) ∈ held → gpr m r mod 2 ^ 64 = x mod 2 ^ 64.
Proof.
  intros Hi Hin. pose proof (inv_held _ _ _ _ _ _ _ _ Hi) as Hh. rewrite Forall_forall in Hh.
  specialize (Hh _ Hin). by apply rep_word.
Qed.

(** The 64 bits of a location; a constant is sign-extended. *)
Definition content (m : machine) (l : ValueLocation) : Z :=
  match l with
  | Reg (Rq r) => gpr m r mod 2 ^ 64
  | Reg (Rx r) => xmm m r mod 2 ^ 64
  | Stack o => load_le (mm m) (slot_addr rsp0 o) 8 mod 2 ^ 64
  | Immediate (V.I32 n) | Immediate (V.I64 n) | Immediate (V.F32 n) | Immediate (V.F64 n) => n
  | Cond c => match holds_cond (fl m) (x_cond c) with Some t => Z.b2z t | None => 0 end
  end.

Lemma content_rep m l a : holds m l (V.I32 a) → rep (V.I32 a) (content m l).
Proof using.
  destruct l as [[r|r]|o|i|c]; cbn [holds content rep].
  1, 2, 3: intros E; rewrite <-E; symmetry; apply Znumtheory.Zmod_div_mod; [lia|lia|by exists (2 ^ 32)].
  - by intros ->.
  - by intros (t & -> & [= ->]).
Qed.

Lemma immediate_or_not (l : ValueLocation) : (∃ i, l = Immediate i) ∨ ∀ i, l ≠ Immediate i.
Proof using. destruct l; [by right..|left; by eexists|by right]. Qed.

(** A location may be held with all its bits. *)
Lemma inv_full B b m held own vs l v :
  inv B b m ((l, v) :: held) own vs → (∀ i, l ≠ Immediate i) → is_cond l = false →
  inv B b m ((l, word (content m l)) :: held) own vs.
Proof using.
  intros [Ho Hst Hh [Hv1 Hv2] Hr [Hs1 Hs2] Hdp Hsz Hk] Hni Hnc. split; try done.
  - apply Forall_cons in Hh as [_ Hh]. constructor; [|done]. cbn [fst snd].
    destruct l as [[r|r]|o|i|c]; cbn [holds content]; [..|by edestruct Hni|done];
      apply rep_word; by rewrite Z.mod_mod by lia.
  - split; [done|]. apply Forall_cons in Hv2 as [_ Hv2]. constructor; [apply word_ok|done].
  - split; [done|]. apply Forall_cons in Hs2 as [Hs2 Hs3]. by constructor.
Qed.

Lemma wp_take_gpr B b m held own vs (Q : GPR → BlockState → machine → Prop) :
  inv B b m held own vs → (length held + length own < 8)%nat → zlen vs + zlen held + zlen own < 199 →
  (∀ r b' m', inv B b' m' held (Rq r :: own) vs → fresh b' held own r → moved b m b' m' → Q (Rq r) b' m') →
  wp (take_gpr TRq) b m Q.
Proof.
  intros Hi Hroom Hsm HQ. apply wp_unwrapM. eapply wp_take; [done..|]. intros r b' m' ???. eauto.
Qed.

Lemma inv_set B b m m' held own vs r f x :
  inv B b m held (Rq r :: own) vs → fresh b held own r → upd r f m m' →
  (f = fl m ∨ plain (bs_stack b ++ map fst held)) → gpr m' r mod 2 ^ 64 = x mod 2 ^ 64 →
  inv B b m' ((Reg (Rq r), word x) :: held) own vs.
Proof using Hrsp0 la m0 rsp0.
  intros Hi [Hs Hfr] Hu Hf Hx. apply inv_own_held; [done| |by cbn; apply rep_word|apply word_ok].
  eapply inv_upd; [done..| |done]. set_solver.
Qed.

Lemma vmctx_kept B b m held own vs : inv B b m held own vs → gpr m VMCTX = gpr m0 VMCTX.
Proof.
  intros Hi. apply (inv_kept _ _ _ _ _ _ _ _ Hi); [|done]. apply (bool_decide_unpack _). by vm_compute.
Qed.

(** ** The definition of the memory *)

(** A range that is not in the function's own part of the stack. *)
Definition outside (a n : Z) : Prop := a + n ≤ rsp0 - 2 ^ 19 ∨ rsp0 - 8 ≤ a.

Lemma kept_read B b m held own vs w a :
  inv B b m held own vs → outside a (Z.of_nat (wbytes w)) → read_mm m w a = read_mm m0 w a.
Proof.
  intros Hi Ho. unfold read_mm. f_equal. apply load_le_ext. intros x Hx.
  apply (inv_kept _ _ _ _ _ _ _ _ Hi). unfold outside in Ho. lia.
Qed.

(** [d] is the address of a definition, whose fields are at [bo] and [lo]. *)
Record defined_at (defined : option Z) (definition : Z → res Z) (import_from first second : res Z)
    (d bo lo : Z) : Prop := {
  da_vmctx : 0 ≤ gpr m0 VMCTX < 2 ^ 64;
  da_where : match defined with
    | Some i => ∃ o, definition i = Ret o ∧ 0 ≤ o < 2 ^ 31 - 2 ^ 8 ∧ d = gpr m0 VMCTX + o
    | None => ∃ o, import_from = Ret o ∧ 0 ≤ o < 2 ^ 31 ∧ gpr m0 VMCTX + o < 2 ^ 64 ∧
        outside (gpr m0 VMCTX + o) 8 ∧ d = read_mm m0 W64 (gpr m0 VMCTX + o)
    end;
  da_base : first = Ret bo ∧ 0 ≤ bo < 2 ^ 8 ∧ outside (d + bo) 8;
  da_length : second = Ret lo ∧ 0 ≤ lo < 2 ^ 8 ∧ outside (d + lo) 8;
  da_range : 0 ≤ d ∧ d + 2 ^ 8 ≤ 2 ^ 64;
}.
#[global] Arguments da_vmctx {_ _ _ _ _} _ _ _ _.
#[global] Arguments da_where {_ _ _ _ _} _ _ _ _.
#[global] Arguments da_base {_ _ _ _ _} _ _ _ _.
#[global] Arguments da_length {_ _ _ _ _} _ _ _ _.
#[global] Arguments da_range {_ _ _ _ _} _ _ _ _.
(** The definition of memory 0, with its base and its length. *)
Definition definition_at : Z → Z → Z → Prop :=
  defined_at (defined_memory_index 0) vmctx_vmmemory_definition (vmctx_vmmemory_import_from 0)
    vmmemory_definition_base vmmemory_definition_current_length.

(** Where [definition_of] finds it. *)
Definition locates (reg : option GPR) (d : Z) held : list (ValueLocation * Value) :=
  match reg with None => held | Some g => (Reg g, word d) :: held end.
Definition located (reg : option GPR) (mem_offset d : Z) : Prop :=
  match reg with
  | None => 0 ≤ mem_offset < 2 ^ 31 - 2 ^ 8 ∧ d = gpr m0 VMCTX + mem_offset
  | Some (Rq _) => mem_offset = 0
  | Some (Rx _) => False
  end.

Lemma wp_definition_of def definition imp first second B b m held own vs d bo lo (Q : option GPR * Z → BlockState → machine → Prop) :
  inv B b m held own vs → defined_at def definition imp first second d bo lo → (length held + length own < 8)%nat →
  zlen vs + zlen held + zlen own < 199 →
  (∀ reg mo b' m', located reg mo d → inv B b' m' (locates reg d held) own vs → moved b m b' m' →
     (∀ g, reg = Some g → g ∉ regs_of (map fst held)) → Q (reg, mo) b' m') →
  wp (definition_of def definition imp) b m Q.
Proof.
  intros Hi Hd Hroom Hsm HQ. pose proof (da_where _ _ _ Hd) as Hw. pose proof (da_vmctx _ _ _ Hd). unfold definition_of.
  destruct def as [i|].
  - destruct Hw as (o & E & Ho & ->). apply wp_bind, (wp_lift _ _ o); [done|]. rewrite wrap_s_small by lia.
    by apply wp_ret, HQ; [..|apply moved_refl|].
  - destruct Hw as (o & E & Ho & Hov & Hout & ->). apply wp_bind. eapply wp_take_gpr; [done..|].
    intros r b1 m1 Hi1 Hfr Hmv. apply wp_bind, (wp_lift _ _ r); [done|]. apply wp_bind, (wp_lift _ _ o); [done|].
    apply wp_bind. eapply wp_emit; [reflexivity|]. apply wp_ret.
    pose proof (vmctx_kept _ _ _ _ _ _ Hi1) as Ev. cbn [locates] in HQ.
    apply HQ; [done| | |intros g [= <-]; destruct Hfr; set_solver].
    + eapply inv_set; [done|done|apply upd_with_gpr|by left|]. unfold write_op, write_gpr. rewrite gpr_with_gpr.
      rewrite !Z.mod_mod by lia. f_equal. cbn [read_src read_op at_vmctx ea]. rewrite Ev, Z.add_0_r, wrap_s_small by lia.
      rewrite Z.mod_small by lia. by eapply kept_read.
    + eapply moved_trans; [done|]. by split.
Qed.

Lemma wp_field_of B b m held held' own vs reg mo d o (Q : address → BlockState → machine → Prop) :
  inv B b m (held' ++ locates reg d held) own vs → located reg mo d → 0 ≤ o < 2 ^ 8 → 0 ≤ d ∧ d + 2 ^ 8 ≤ 2 ^ 64 →
  (∀ a, ea la m a = d + o → Q a b m) → wp (field_of reg mo (Ret o)) b m Q.
Proof.
  intros Hi Hl Ho Hd HQ. unfold field_of. apply wp_bind.
  assert (∃ r, or_vmctx reg = ret r ∧ (gpr m r + mo) mod 2 ^ 64 = d mod 2 ^ 64 ∧ 0 ≤ mo < 2 ^ 31 - 2 ^ 8)
    as (r & -> & Er & Hmo).
  { destruct reg as [[r|]|]; cbn in Hl; [|done|].
    - subst mo. exists r. split; [done|]. rewrite Z.add_0_r. split; [|lia]. eapply inv_word; [done|]. set_solver.
    - exists VMCTX. split; [done|]. destruct Hl as [? ->]. by rewrite (vmctx_kept _ _ _ _ _ _ Hi). }
  apply wp_ret, wp_bind, (wp_lift _ _ o); [done|].
  apply wp_bind, (wp_lift _ _ (mo + o)); [apply i32_checked_small; lia|]. apply wp_ret, HQ. cbn [ea].
  rewrite Z.add_0_r, Z.add_assoc, <-Z.add_mod_idemp_l, Er, Z.add_mod_idemp_l by lia. apply Z.mod_small. lia.
Qed.

(** ** The address *)

(** The operand of the access as a constant or as a register, all 64 bits of it. *)
Definition operand_is (ro : Z + GPR) (x : Z) held : Prop :=
  match ro with
  | inl imm => imm = x
  | inr (Rq r) => (Reg (Rq r), word x) ∈ held
  | inr (Rx _) => False
  end.

Lemma wp_release_word B b m held own vs g x (Q : unit → BlockState → machine → Prop) :
  inv B b m ((Reg g, word x) :: held) own vs →
  (∀ b', inv B b' m held own vs → bs_stack b' = bs_stack b → bs_depth b' = bs_depth b → Q tt b' m) →
  wp (release g) b m Q.
Proof. apply (wp_free_value _ _ Hrsp0 la B b m held own vs (Reg g)). Qed.

(** The offset that the check adds to the operand: that of the access, but for a
    negative one a register is loaded with 32 bits of it. *)
Definition check_offset (ro : Z + GPR) (offset : Z) : Z :=
  match ro with inl _ => offset | inr _ => offset mod 2 ^ 32 end.

(** The sum for a negative offset. *)
Lemma wp_negative_offset B b m held own vs g x offset (Q : GPR → BlockState → machine → Prop) :
  inv B b m held own vs → (Reg (Rq g), word x) ∈ held → plain (bs_stack b) → plain (map fst held) →
  (length held + length own < 7)%nat → zlen vs + zlen held + zlen own < 198 →
  (∀ r b' m', inv B b' m' ((Reg (Rq r), word (x + offset mod 2 ^ 32)) :: held) own vs →
     plain (bs_stack b') → regs_of (bs_stack b') ⊆ regs_of (bs_stack b) → Q (Rq r) b' m') →
  wp (addr_reg ← take_gpr TRq;
      offset_reg ← take_gpr TRq;
      o ← rqM offset_reg;
      a ← rqM addr_reg;
      g ← rqM (Rq g);
      _ ← emit (MOV W32 (OReg o) (Imm offset));
      _ ← emit (MOV W64 (OReg a) (Src (OReg g)));
      _ ← emit (ALU ADD W64 (OReg a) (Src (OReg o)));
      _ ← release offset_reg;
      ret addr_reg) b m Q.
Proof.
  intros Hi Hx Hp1 Hp2 Hroom Hsm HQ.
  apply wp_bind. eapply wp_take_gpr; [done|lia|lia|]. intros r b1 m1 Hi1 Hfr Hmv1.
  apply wp_bind. eapply wp_take_gpr; [exact Hi1|cbn [length]; lia|rewrite zlen_cons; lia|]. intros o b2 m2 Hi2 Hfo Hmv2.
  apply wp_bind, (wp_lift _ _ o); [done|]. apply wp_bind, (wp_lift _ _ r); [done|]. apply wp_bind, (wp_lift _ _ g); [done|].
  assert (plain (bs_stack b2)) as Hp3 by (apply Hmv2, Hmv1, Hp1).
  pose proof (moved_regs _ _ _ _ Hmv1) as Hs1. pose proof (moved_regs _ _ _ _ Hmv2) as Hs2.
  destruct Hfr as [Hrs Hrf], Hfo as [Hos Hof].
  apply wp_bind. eapply wp_emit; [reflexivity|].
  set (m3 := write_op la m2 W32 (OReg o) (read_src la m2 W32 (Imm offset))).
  assert (inv B b2 m3 ((Reg (Rq o), word (offset mod 2 ^ 32)) :: held) (Rq r :: own) vs) as Hi3.
  { eapply inv_set; [exact Hi2|done|apply upd_with_gpr|by left|]. unfold m3, write_op, write_gpr. rewrite gpr_with_gpr.
    cbn [read_src bits]. by rewrite !Z.mod_mod by lia. }
  apply wp_bind. eapply wp_emit; [reflexivity|].
  set (m4 := write_op la m3 W64 (OReg r) (read_src la m3 W64 (Src (OReg g)))).
  assert (Rq r ∉ regs_of (bs_stack b2) ++ regs_of (map fst ((Reg (Rq o), word (offset mod 2 ^ 32)) :: held))) as Hrf2.
  { cbn [map fst]. change (regs_of (Reg (Rq o) :: ?k)) with (Rq o :: regs_of k). set_solver. }
  assert (inv B b2 m4 ((Reg (Rq o), word (offset mod 2 ^ 32)) :: held) (Rq r :: own) vs) as Hi4.
  { eapply inv_upd; [done|exact Hi3|apply upd_with_gpr|done|exact Hrf2|by left]. }
  assert (gpr m4 r mod 2 ^ 64 = x mod 2 ^ 64) as Er.
  { unfold m4, write_op, write_gpr. rewrite gpr_with_gpr. cbn [read_src read_op bits]. unfold read_gpr. cbn [bits].
    rewrite !Z.mod_mod by lia. eapply inv_word; [exact Hi3|]. by right. }
  pose proof (inv_word _ _ _ _ _ _ o (offset mod 2 ^ 32) Hi4 ltac:(by left)) as Eo.
  apply wp_bind. eapply wp_emit; [reflexivity|].
  match goal with |- wp _ _ ?m' _ => assert (inv B b2 m' ((Reg (Rq r), word (x + offset mod 2 ^ 32)) ::
    (Reg (Rq o), word (offset mod 2 ^ 32)) :: held) own vs) as Hi5 end.
  { eapply (inv_set _ _ m4 _ _ _ _ r _ (x + offset mod 2 ^ 32)); [exact Hi4| | | | ].
    - split; [done|]. set_solver.
    - apply upd_with_fl.
    - right. apply plain_app. split; [done|by constructor].
    - cbn [alu_result with_fl write_op]. unfold write_gpr.
      match goal with |- gpr (with_fl ?k ?f) r mod _ = _ => change (gpr (with_fl k f) r) with (gpr k r) end.
      rewrite gpr_with_gpr. cbn [read_op read_src]. unfold read_gpr. cbn [bits].
      rewrite Er, Eo, !Z.mod_mod, <-Z.add_mod by lia. done. }
  eapply inv_perm_held in Hi5; [|done|apply Permutation_swap].
  apply wp_bind. eapply wp_release_word; [exact Hi5|]. clear Hi5.
  intros b5 Hi5 E5 D5. apply wp_ret, HQ; [exact Hi5|by rewrite E5|]. rewrite E5. set_solver.
Qed.

Lemma wp_address_reg B b m held own vs ro x offset (Q : GPR → BlockState → machine → Prop) :
  inv B b m held own vs → operand_is ro x held → - 2 ^ 31 ≤ offset < 2 ^ 31 →
  plain (bs_stack b) → plain (map fst held) → (length held + length own < 7)%nat →
  zlen vs + zlen held + zlen own < 198 →
  (∀ r b' m', inv B b' m' ((Reg (Rq r), word (x + check_offset ro offset)) :: held) own vs →
     plain (bs_stack b') → regs_of (bs_stack b') ⊆ regs_of (bs_stack b) → Q (Rq r) b' m') →
  wp (address_reg offset ro) b m Q.
Proof.
  intros Hi Hx Ho Hp1 Hp2 Hroom Hsm HQ. unfold address_reg.
  destruct ro as [imm|[g|]]; cbn in Hx; [subst imm| |done]; cbn [check_offset] in HQ.
  - apply wp_bind. eapply wp_take_gpr; [done|lia|lia|]. intros r b1 m1 Hi1 Hfr Hmv.
    apply wp_bind, (wp_lift _ _ r); [done|]. apply wp_bind. eapply wp_emit; [reflexivity|]. apply wp_ret, HQ.
    + eapply inv_set; [done|done|apply upd_with_gpr|by left|]. unfold write_op, write_gpr. rewrite gpr_with_gpr.
      cbn [read_src bits]. by rewrite !Z.mod_mod by lia.
    + by apply Hmv.
    + by apply moved_regs in Hmv.
  - destruct (Z.eqb_spec offset 0) as [->|Hne].
    + rewrite Z.add_0_r in HQ. apply wp_unwrapM. cbn [to_reg type_matches gpr_type Rq_].
      rewrite bool_decide_eq_true_2 by done. apply wp_bind. eapply wp_mark_used_inv; [done|done| |lia|].
      { eapply inv_scratch; [done|done|]. apply elem_of_app. right. apply elem_of_app. left. apply elem_of_regs_of.
        by apply (list_elem_of_fmap_2 fst _ _ Hx). }
      intros b1 Hi1 E1 D1. apply wp_ret. eexists. split; [done|]. apply HQ; rewrite ?E1; try done.
      apply inv_own_held; [done|done| |apply word_ok]. cbn. apply rep_word. by eapply inv_word.
    + destruct (Z.ltb_spec 0 offset) as [Hpos|Hneg].
      2:{ by eapply wp_negative_offset. }
      rewrite Z.mod_small in HQ by lia. apply wp_bind. eapply wp_take_gpr; [done|lia|lia|].
      intros r b1 m1 Hi1 Hfr Hmv. apply wp_bind, (wp_lift _ _ r); [done|]. apply wp_bind, (wp_lift _ _ g); [done|].
      apply wp_bind. eapply wp_emit; [reflexivity|]. apply wp_ret, HQ; [|by apply Hmv|by apply moved_regs in Hmv].
      eapply inv_set; [done|done|apply upd_with_gpr|by left|]. unfold write_gpr. rewrite gpr_with_gpr. cbn [ea].
      rewrite !Z.mod_mod, Z.add_0_r by lia.
      rewrite <-Z.add_mod_idemp_l, (inv_word _ _ _ _ _ _ _ _ Hi1 Hx), Z.add_mod_idemp_l by lia. done.
Qed.

Lemma wp_mem_pointer B b m held own vs reg mo d bo lo (Q : GPR → BlockState → machine → Prop) :
  inv B b m (locates reg d held) own vs → located reg mo d → definition_at d bo lo →
  (length held + length own < 7)%nat → zlen vs + zlen held + zlen own < 198 →
  (∀ r b' m', inv B b' m' ((Reg (Rq r), word (read_mm m0 W64 (d + bo))) :: held) own vs → moved b m b' m' →
     Rq r ∉ own → Q (Rq r) b' m') →
  wp (mem_pointer reg mo) b m Q.
Proof.
  intros Hi Hl Hd Hroom Hsm HQ. pose proof (da_range _ _ _ Hd). destruct (da_base _ _ _ Hd) as (Eb & Hbo & Hout).
  assert (length (locates reg d held) ≤ S (length held))%nat as Hlen by (destruct reg; cbn; lia).
  assert (zlen (locates reg d held) ≤ zlen held + 1) by (unfold zlen; lia).
  unfold mem_pointer. apply wp_bind. eapply wp_take_gpr; [done|lia|lia|]. intros r b1 m1 Hi1 Hfr Hmv.
  apply wp_bind, (wp_lift _ _ r); [done|]. apply wp_bind. rewrite Eb.
  eapply (wp_field_of B b1 m1 held []); [done|done|done|done|]. intros a Ea.
  apply wp_bind. eapply wp_emit; [reflexivity|]. apply wp_bind.
  assert (inv B b1 (write_op la m1 W64 (OReg r) (read_src la m1 W64 (Src (OMem a))))
    ((Reg (Rq r), word (read_mm m0 W64 (d + bo))) :: locates reg d held) own vs) as Hi2.
  { eapply inv_set; [done|done|apply upd_with_gpr|by left|]. unfold write_op, write_gpr. rewrite gpr_with_gpr.
    cbn [read_src read_op]. rewrite Ea, (kept_read _ _ _ _ _ _ W64 _ Hi1) by done. by rewrite !Z.mod_mod by lia. }
  assert (moved b m b1 (write_op la m1 W64 (OReg r) (read_src la m1 W64 (Src (OMem a))))) as Hmv2
    by (eapply moved_trans; [done|]; by split).
  assert (Rq r ∉ own) by (destruct Hfr; set_solver).
  destruct reg as [g|]; cbn [release_opt locates] in *.
  - eapply inv_perm_held in Hi2; [|done|apply Permutation_swap].
    eapply wp_release_word; [done|]. intros b2 Hi3 E3 D3. apply wp_ret, HQ; [done| |done].
    eapply moved_trans; [done|]. split; rewrite ?E3; done || lia.
  - by apply wp_ret, wp_ret, HQ.
Qed.

Lemma wp_access_at B b m held own vs p ro x offset base (Q : address → BlockState → machine → Prop) :
  inv B b m held own vs → (Reg (Rq p), word base) ∈ held → operand_is ro x held →
  (∀ i, ro = inl i → - 2 ^ 31 ≤ i + offset < 2 ^ 31) →
  (∀ a, ea la m a = (base + (x + offset)) mod 2 ^ 64 → Q a b m) → wp (access_at (Rq p) ro offset) b m Q.
Proof.
  intros Hi Hp Hx Hc HQ. unfold access_at. apply wp_bind, (wp_lift _ _ p); [done|].
  pose proof (inv_word _ _ _ _ _ _ _ _ Hi Hp) as Ep. destruct ro as [i|[g|]]; cbn in Hx; [subst i| |done].
  - specialize (Hc _ eq_refl). apply wp_bind, (wp_lift _ _ (offset + x)); [apply i32_checked_small; lia|].
    apply wp_ret, HQ. cbn [ea]. rewrite Z.add_0_r, <-Z.add_mod_idemp_l, Ep, Z.add_mod_idemp_l by lia. f_equal. lia.
  - apply wp_bind, (wp_lift _ _ g); [done|]. apply wp_ret, HQ. cbn [ea].
    pose proof (inv_word _ _ _ _ _ _ _ _ Hi Hx) as Eg.
    rewrite <-Z.add_mod_idemp_l, (Z.add_mod (gpr m p)), Ep, Eg by lia.
    rewrite <-Z.add_mod, Z.add_mod_idemp_l by lia. f_equal. lia.
Qed.

(** Bringing a value into a register of either kind. *)
Lemma wp_as_any_reg B b m held own vs l v (Q : GPR → BlockState → machine → Prop) :
  inv B b m ((l, v) :: held) own vs → (length held + length own < 7)%nat → zlen vs + zlen held + zlen own < 198 →
  (∀ g b' m', inv B b' m' ((Reg g, v) :: held) own vs → moved b m b' m' → Q g b' m') → wp (as_reg None l) b m Q.
Proof using Hrsp0.
  intros Hi Hroom Hsm HQ. destruct (inv_head_ok _ _ Hrsp0 _ _ _ _ _ _ _ _ Hi) as (Hv & Hok & _).
  assert ((∀ g, l ≠ Reg g) → wp (as_reg None l) b m Q) as Hcopy.
  { intros Hne. assert (as_reg None l = as_reg Rq_ l) as -> by (destruct l; [by edestruct Hne|done..]).
    eapply wp_as_reg; [done..|]. intros r b' m' Hi' Hr Hmv _. apply HQ; [|done]. by apply inv_own_held. }
  destruct l as [g|o|i|c]; try (apply Hcopy; done). clear Hcopy.
  apply wp_unwrapM. unfold into_reg. cbn [to_reg type_matches]. apply wp_bind, wp_bind.
  eapply wp_mark_used_inv; [done|done|eapply inv_scratch; [done|done|]; cbn; set_solver|rewrite zlen_cons; lia|].
  intros b1 Hi1 E1 D1. apply wp_ret, wp_bind. eapply wp_free_value; [done|exact Hi1|]. intros b2 Hi2 E2 D2.
  apply wp_ret. eexists. split; [done|]. apply HQ; [by apply inv_own_held|]. split; rewrite ?E2, ?E1; done || lia.
Qed.

(** ** Loads *)

(** The run goes on when the address is below the length, and leaves to the trap label
    otherwise. *)
Definition checked (addr len : Z) (o : left_to) : Prop :=
  match o with None => addr < len | Some (_, mt) => len ≤ addr ∧ kept rsp0 m0 mt end.

(** What an instruction loads from memory. *)
Definition loads_as (i : Z → operand → instr) (w : width) (ext : Z → Value) : Prop := ∀ m r a,
  ∃ m', exec1 la (i r (OMem a)) m = Some (Next m') ∧ upd r (fl m) m m' ∧
    rep (ext (read_mm m w (ea la m a))) (gpr m' r) ∧ value_ok (ext (read_mm m w (ea la m a))).

Definition emits_load (e : GPR → GPR → Z + GPR → Z → M unit) (i : Z → operand → instr) : Prop :=
  e = emit_int_load i ∨ ∃ xw, e = emit_any_load xw i.

Lemma wp_emit_load e i t p ro offset b m (Q : unit → BlockState → machine → Prop) :
  emits_load e i → wp (access_at p ro offset) b m (λ a b' m', wp (emit (i t (OMem a))) b' m' Q) →
  wp (e (Rq t) p ro offset) b m Q.
Proof.
  intros [->|[xw ->]] Ha.
  - unfold emit_int_load. apply wp_bind. eapply wp_mono; [exact Ha|]. intros a b' m' Hw. cbn beta in *.
    by apply wp_bind, (wp_lift _ _ t).
  - unfold emit_any_load. apply wp_bind. exact Ha.
Qed.
Lemma straight_access_at p ro offset : straight (access_at p ro offset).
Proof using. unfold access_at. straight. Qed.
Hint Resolve straight_access_at : straight.
Lemma straight_emit_load e i t p ro offset : emits_load e i → straight (e (Rq t) p ro offset).
Proof using. intros [->|[xw ->]]; [unfold emit_int_load|unfold emit_any_load]; straight. Qed.
Lemma straight_memory_at : straight memory_at.
Proof using. unfold memory_at, definition_of. straight. Qed.
Lemma straight_field_of reg mo r : straight (field_of reg mo r).
Proof using. unfold field_of, or_vmctx. straight. Qed.
Lemma straight_address_reg offset ro : straight (address_reg offset ro).
Proof using.
  unfold address_reg. straight. apply straight_unwrapM, straight_to_reg. intros. apply straight_take.
Qed.
Hint Resolve straight_memory_at straight_field_of straight_address_reg : straight.
Lemma straight_mem_pointer reg mo : straight (mem_pointer reg mo).
Proof using. unfold mem_pointer, release_opt. straight. Qed.
Hint Resolve straight_mem_pointer : straight.

Context (d bo lo : Z) (Hd : definition_at d bo lo).
Notation base := (read_mm m0 W64 (d + bo)).
Notation len := (read_mm m0 W64 (d + lo)).

(** The comparison of the length with the address, and the condition of the jump. *)
Definition compares_length (cmp : address → Z → instr) (c : cond) : Prop := ∀ m ad a,
  ∃ f, exec1 la (cmp ad a) m = Some (Next (with_fl m f)) ∧
    holds_cond f c = Some (read_mm m W64 (ea la m ad) <=? read_gpr m W64 a).

Lemma operand_more ro x held held' : operand_is ro x held → held ⊆ held' → operand_is ro x held'.
Proof using. intros Hx Hs. destruct ro as [|[|]]; cbn in *; [done|by apply Hs|done]. Qed.

Lemma wpx_check cmp c B b m held own vs reg mo ro x offset L (Q : unit → BlockState → machine → left_to → Prop) :
  compares_length cmp c → inv B b m (locates reg d held) own vs → located reg mo d →
  plain (bs_stack b) → plain (map fst held) → operand_is ro x held → - 2 ^ 31 ≤ offset < 2 ^ 31 →
  (length held + length own < 6)%nat → zlen vs + zlen held + zlen own < 197 →
  (∀ b' m' o, inv B b' m' (locates reg d held) own vs → plain (bs_stack b') →
     regs_of (bs_stack b') ⊆ regs_of (bs_stack b) →
     checked ((x + check_offset ro offset) mod 2 ^ 64) len o → Q tt b' m' o) →
  wpx L (trap_label ← trap_label;
    addr_reg ← address_reg offset ro;
    length ← field_of reg mo vmmemory_definition_current_length;
    a ← rqM addr_reg;
    _ ← emit (cmp length a);
    _ ← emit (JCC c trap_label);
    release addr_reg) b m None Q.
Proof using Hd Hrsp0.
  intros Hcmp Hi Hl Hp1 Hp2 Hx Ho Hroom Hsm HQ. pose proof (da_range _ _ _ Hd) as Hdr.
  destruct (da_length _ _ _ Hd) as (El & Hlo & Hout).
  assert (length (locates reg d held) ≤ S (length held))%nat as Hlen by (destruct reg; cbn; lia).
  assert (zlen (locates reg d held) ≤ zlen held + 1) by (unfold zlen; lia).
  assert (held ⊆ locates reg d held) as Hsub by (destruct reg; cbn; set_solver).
  assert (plain (map fst (locates reg d held))) as Hpl by (destruct reg; cbn; [by constructor|done]).
  apply wpx_trap_label. intros tl. apply wpx_step; [eauto with straight|].
  eapply (wp_address_reg _ _ _ _ _ _ ro x); [done|by eapply operand_more|done..|lia|lia|].
  intros r b1 m1 Hi1 Hp1' Hrg. set (y := x + check_offset ro offset) in *.
  apply wpx_step; [eauto with straight|]. rewrite El.
  eapply (wp_field_of B b1 m1 held [(Reg (Rq r), word y)]); [exact Hi1|done|done|done|]. intros a Ea.
  apply wpx_step; [eauto with straight|]. apply (wp_lift _ _ r); [done|].
  apply wpx_step; [eauto with straight|]. destruct (Hcmp m1 a r) as (f & Ef & Hc). eapply wp_emit; [done|].
  rewrite Ea, (kept_read _ _ _ _ _ _ W64 (d + lo) Hi1) in Hc by done.
  apply (inv_with_fl _ _ Hrsp0 _ _ _ _ _ _ f) in Hi1; [|apply plain_app; split; [done|by constructor]].
  assert (read_gpr m1 W64 r = y mod 2 ^ 64) as Er.
  { unfold read_gpr. change (gpr m1 r) with (gpr (with_fl m1 f) r). eapply inv_word; [done|by left]. }
  rewrite Er in Hc. apply wpx_bind. eapply wpx_jcc; [exact Hc|].
  apply wpx_of_wp; [eauto with straight|]. eapply wp_release_word; [done|]. intros b2 Hi2 E2 D2.
  apply HQ; [done|by rewrite E2| |].
  - by rewrite E2.
  - destruct (Z.leb_spec len (y mod 2 ^ 64)); cbn [checked]; [|done]. split; [done|].
    exact (inv_kept _ _ _ _ _ _ _ _ Hi1).
Qed.

Lemma load_compares : compares_length (λ l a, ALU CMP W64 (OMem l) (Src (OReg a))) cBE.
Proof using.
  intros m ad a. cbn [exec1 alu_result read_op read_src]. eexists. split; [done|]. cbn [holds_cond sub_flags CF ZF].
  cbn. f_equal. set (l := read_mm m W64 _). set (y := read_gpr m W64 a).
  assert (0 ≤ l < 2 ^ 64) by (apply Z.mod_pos_bound; lia). assert (0 ≤ y < 2 ^ 64) by (apply Z.mod_pos_bound; lia).
  destruct (Z.ltb_spec l y), (Z.leb_spec l y); cbn [orb]; try lia; try done.
  - apply Z.eqb_eq. assert (l = y) as -> by lia. by rewrite Z.sub_diag.
  - apply Z.eqb_neq. change (2 ^ bits W64) with (2 ^ 64). rewrite Z.mod_small by lia. lia.
Qed.
Lemma store_compares : compares_length (λ l a, ALU CMP W64 (OReg a) (Src (OMem l))) cAE.
Proof using.
  intros m ad a. cbn [exec1 alu_result read_op read_src]. eexists. split; [done|]. cbn. f_equal.
  by rewrite Z.leb_antisym.
Qed.

Section load.
Context (B : Z) vs (e : GPR → GPR → Z + GPR → Z → M unit) (i : Z → operand → instr) (w : width) (ext : Z → Value).
Context (He : emits_load e i) (Hi : loads_as i w ext) (Hsm : zlen vs < 190).

Lemma wpx_load_to_reg offset b m held t ro x L (Q : unit → BlockState → machine → left_to → Prop) :
  - 2 ^ 31 ≤ offset < 2 ^ 31 → inv B b m held [Rq t] vs → Rq t ∉ regs_of (bs_stack b) ++ regs_of (map fst held) →
  plain (bs_stack b) → plain (map fst held) → operand_is ro x held → (length held ≤ 1)%nat →
  (∀ i, ro = inl i → - 2 ^ 31 ≤ i + offset < 2 ^ 31) →
  (∀ b' m' o, inv B b' m' ((Reg (Rq t), ext (read_mm m' w ((base + (x + offset)) mod 2 ^ 64))) :: held) [] vs →
     plain (bs_stack b') → checked ((x + check_offset ro offset) mod 2 ^ 64) len o → Q tt b' m' o) →
  wpx L (load_to_reg e (Rq t) offset ro) b m None Q.
Proof using Hd Hrsp0 He Hi Hsm.
  intros Hoff Hinv Ht Hp1 Hp2 Hx Hh Hc HQ. assert (zlen held ≤ 1) by (unfold zlen; lia).
  unfold load_to_reg. apply wpx_step; [eauto with straight|].
  eapply wp_definition_of; [done|exact Hd|size|size|]. intros reg mo b1 m1 Hl Hi1 Hmv1 _. cbn [emit_memory_bounds_check].
  apply wpx_bind. eapply wpx_check; [exact load_compares|exact Hi1|done|by apply Hmv1|done|exact Hx|done|size|size|].
  intros b2 m2 o Hi2 Hp2' Hr2 Hck. apply wpx_of_wp; [straight; by eapply straight_emit_load|].
  apply wp_bind. eapply wp_mem_pointer; [done|done|exact Hd|size|size|]. intros p b3 m3 Hi3 Hmv3 Hpt.
  apply wp_bind. eapply wp_emit_load; [exact He|].
  eapply (wp_access_at _ _ _ _ _ _ _ _ x); [done|by left|eapply operand_more; [done|set_solver]|done|].
  intros a Ea. destruct (Hi m3 t a) as (m4 & E4 & Hu & Hrep & Hok). eapply wp_emit; [done|].
  assert (read_mm m4 w (ea la m3 a) = read_mm m3 w (ea la m3 a)) as Em by (unfold read_mm; by rewrite (upd_mm _ _ _ _ Hu)).
  rewrite Ea in *. assert (regs_of (bs_stack b3) ⊆ regs_of (bs_stack b)) as Hsub.
  { etrans; [apply Hmv3|]. etrans; [exact Hr2|apply Hmv1]. }
  eapply inv_upd in Hi3; [|done|exact Hu| | |by left].
  - eapply wp_release_word; [done|]. intros b4 Hi4 E4' D4. apply HQ; [|rewrite E4'; by apply Hmv3|done].
    apply inv_own_held; [done|done| |by rewrite Em]. cbn. by rewrite Em.
  - eapply inv_scratch; [done|exact Hinv|]. set_solver.
  - cbn [map fst]. change (regs_of (Reg (Rq p) :: ?k)) with (Rq p :: regs_of k). set_solver.
Qed.

(** The offset of the check and of the access, for an operand in the location [y]. *)
Definition checks_offset (y : ValueLocation) (offset : Z) : Z :=
  match y with Immediate _ => wrap_s 32 offset | _ => offset end.

Lemma wpx_load offset b m a y L (Q : unit → BlockState → machine → left_to → Prop) :
  0 ≤ offset < 2 ^ 32 → inv B b m [] [] (vs ++ [V.I32 a]) → plain (bs_stack b) → B < 2 ^ 16 →
  last (bs_stack b) = Some y →
  (∀ i, y = Immediate i → - 2 ^ 31 ≤ a + wrap_s 32 offset < 2 ^ 31) →
  (∀ b' m' o, checked ((content m y + checks_offset y offset) mod 2 ^ 64) len o →
     inv (B + 1) b' m' [] [] (vs ++ [ext (read_mm m' w ((base + (content m y + wrap_s 32 offset)) mod 2 ^ 64))]) →
     plain (bs_stack b') → Q tt b' m' o) →
  wpx L (load TRq e offset) b m None Q.
Proof using Hd Hrsp0 He Hi Hsm.
  intros Hoff Hinv Hpl HB Hy Hconst HQ. unfold load. apply wpx_step; [eauto with straight|].
  assert (wrap_s 32 offset mod 2 ^ 32 = offset) as Ewrap by (rewrite wrap_s_mod by lia; by apply Z.mod_small).
  pose proof (wrap_s_range 32 offset ltac:(lia)) as Hwr. cbn in Hwr. set (x := content m y) in *.
  eapply wp_pop; [done|done|]. intros l y' E Hi1. rewrite E, last_snoc in Hy. injection Hy as ->.
  rewrite E in Hpl. apply plain_app in Hpl as [Hpl Hpy]. apply Forall_cons in Hpy as [Hpy _].
  destruct (inv_head_ok _ _ Hrsp0 _ _ _ _ _ _ _ _ Hi1) as (Hv & Hok & _).
  assert (∀ t b3 m3 o, inv B b3 m3 [(Reg (Rq t), ext (read_mm m3 w ((base + (x + wrap_s 32 offset)) mod 2 ^ 64)))] [] vs →
     plain (bs_stack b3) → checked ((x + checks_offset y offset) mod 2 ^ 64) len o →
     wpx L (push (Reg (Rq t))) b3 m3 o Q) as Hpush.
  { intros t b3 m3 o Hi3 Hp3 Hck. apply wpx_of_wp; [eauto with straight|].
    eapply wp_push_plain; [done|done|done|done|]. intros b4 Hi4 E4. eapply HQ; [done|done|].
    rewrite E4. apply plain_app. split; [done|by constructor]. }
  destruct (immediate_or_not y) as [[i' ->]|Hni'].
  - apply wpx_step; [eauto with straight|]. eapply wp_take_gpr; [done|size|size|].
    intros t b2 m2 Hi2 [Hts Htf] Hmv2. assert (plain (bs_stack b2)) as Hp2 by (by apply Hmv2).
    cbn in Hv. subst i'.
    apply wpx_assoc, wpx_step; [eauto with straight|]. apply (wp_lift _ _ a); [done|]. apply wpx_bind.
    eapply inv_drop in Hi2; [|done..].
    eapply (wpx_load_to_reg _ _ _ _ _ (inl a) a); [done|exact Hi2|set_solver|done|by constructor|done|size| |].
    + intros i' [= <-]. by eapply Hconst.
    + intros b3 m3 o Hi3 Hp3 Hck. by apply Hpush.
  - eapply inv_full in Hi1; [|exact Hni'|exact Hpy]. fold x in Hi1.
    apply wpx_step; [eauto with straight|]. eapply wp_take_gpr; [done|size|size|].
    intros t b2 m2 Hi2 [Hts Htf] Hmv2. assert (plain (bs_stack b2)) as Hp2 by (by apply Hmv2).
    assert (checks_offset y offset = offset) as Eco by (by destruct y; [..|edestruct Hni'|]). rewrite Eco in Hpush.
    assert (wpx L
      (_ ← (gpr ← as_reg Rq_ y; _ ← load_to_reg e (Rq t) (wrap_s 32 offset) (inr gpr); free_value (Reg gpr)); push (Reg (Rq t)))
      b2 m2 None Q) as Hreg; [|by destruct y; [..|edestruct Hni'|]].
    apply wpx_assoc, wpx_step; [eauto with straight|].
    eapply wp_as_reg; [done|exact Hi2|size|size|]. intros r b3 m3 Hi3 Hrep Hmv3 Hr.
    eapply inv_own_held in Hi3; [|done|exact Hrep|apply word_ok].
    apply wpx_assoc, wpx_bind. eapply (wpx_load_to_reg _ _ _ _ _ _ x); [done|exact Hi3| |by apply Hmv3|by constructor|by left|done|done|].
    { assert (Rq t ≠ Rq r). { destruct Hr as [->|[_ Hr]]; [|set_solver]. intros [= ->]. apply Htf. cbn. set_solver. }
      cbn [map fst]. change (regs_of [Reg (Rq r)]) with [Rq r]. pose proof (moved_regs _ _ _ _ Hmv3). set_solver. }
    cbn [check_offset]. rewrite Ewrap.
    intros b4 m4 o Hi4 Hp4 Hck. eapply inv_perm_held in Hi4; [|done|apply Permutation_swap].
    apply wpx_step; [eauto with straight|]. eapply wp_release_word; [done|]. intros b5 Hi5 E5 D5.
    eapply Hpush; [done|by rewrite E5|done].
Qed.
End load.

(** ** Stores *)

(** A range that is neither in the function's own part of the stack nor where its
    arguments may be. *)
Definition apart (a n : Z) : Prop := a + n ≤ rsp0 - 2 ^ 19 ∨ rsp0 + 2 ^ 23 ≤ a.

(** A value in memory that no location is in. *)
Lemma inv_store B b m held own vs w a x :
  inv B b m held own vs → apart a (Z.of_nat (wbytes w)) →
  LightbeamInv.inv rsp0 (write_mm m0 w a x) B b (write_mm m w a x) held own vs.
Proof using Hrsp0.
  intros [Ho Hst Hh Hv Hr [Hs1 Hs2] Hdp Hsz [Hk1 Hk2]] Ha.
  assert (∀ l u, slot_ok (bs_depth b) l → holds m l u → holds (write_mm m w a x) l u) as Hkeep.
  { intros l u Hs Hl. apply holds_with_mm; [done| |done]. intros o -> y Hy. unfold store_le. apply store_bytes_out.
    rewrite zlen_le_bytes. cbn in Hs. unfold slot_addr in Hy. unfold apart in Ha. pose proof Hdp. 
    pose proof (zlen_nonneg (regs_of (bs_stack b))). lia. }
  split; try done.
  - eapply Forall2_impl_in; [exact Hst|]. intros l u Hl. apply Hkeep. rewrite Forall_forall in Hs1. by apply Hs1.
  - rewrite Forall_forall in Hh, Hs2 |- *. intros p Hp. apply Hkeep; [by apply Hs2|by apply Hh].
  - split; [done|]. intros y Hy. cbn [write_mm with_mm mm]. unfold store_le.
    destruct (decide (a ≤ y < a + zlen (le_bytes (wbytes w) x))).
    + unfold store_bytes. by rewrite !(proj2 (in_range_true _ _ _)) by lia.
    + rewrite !store_bytes_out by lia. by apply Hk2.
Qed.

Section store.
Context (B : Z) vs (z : Size) (c : Z) (w : width) (Hw : bits w ≤ wbits z) (Hc : fits z c).
Context (mf : GPR → Z + GPR → Z → GPR → M GPR) (Hmf : mf = store_int w ∨ mf = store_any w).
Context (Hsm : zlen vs < 190) (offset : Z) (Hoff : 0 ≤ offset < 2 ^ 31).
Context (Hmem : 0 ≤ base ∧ base + len + 8 ≤ 2 ^ 64 ∧ apart base (len + 8)).

(** The machine at the start with the value stored, if it is. *)
Definition after (o : left_to) (x : Z) : machine :=
  match o with None => write_mm m0 w (base + (x + offset) mod 2 ^ 64) c | Some _ => m0 end.

Lemma wpx_store_ins i b m held a y x o L (Q : unit → BlockState → machine → left_to → Prop) :
  exec1 la i m = Some (Next (write_mm m w (ea la m a) y)) → y mod 2 ^ bits w = c mod 2 ^ bits w →
  ea la m a = (base + (x + offset)) mod 2 ^ 64 → inv B b m held [] vs → checked ((x + offset) mod 2 ^ 64) len o →
  (∀ m', LightbeamInv.inv rsp0 (after o x) B b m' held [] vs → Q tt b m' o) → wpx L (emit i) b m o Q.
Proof using Hrsp0 Hmem.
  intros Ei Hy Ea Hi Hck HQ. apply wpx_emit; [|eauto]. intros m' Hlive Hdead. apply HQ.
  destruct o as [e|]; cbn [after checked] in *; [by rewrite Hdead|]. rewrite Ei in Hlive.
  specialize (Hlive eq_refl). injection Hlive as <-.
  assert (ea la m a = base + (x + offset) mod 2 ^ 64) as Ep.
  { pose proof (Z.mod_pos_bound (x + offset) (2 ^ 64)). rewrite Ea, <-Z.add_mod_idemp_r by lia. apply Z.mod_small. lia. }
  rewrite Ep. assert (∀ n a, write_mm n w a y = write_mm n w a c) as Eyc.
  { intros n a'. unfold write_mm, store_le. by rewrite (le_bytes_mod _ y c) by (by rewrite <-wbits_bytes). }
  rewrite Eyc. apply inv_store; [done|]. unfold apart in *. pose proof (Z.mod_pos_bound (x + offset) (2 ^ 64)).
  pose proof (wbytes_le w). lia.
Qed.

Lemma wpx_match_offset b m held p gs ro x o L (Q : GPR → BlockState → machine → left_to → Prop) :
  inv B b m ((Reg gs, value_of z c) :: (Reg (Rq p), word base) :: held) [] vs → operand_is ro x held →
  (length held ≤ 2)%nat → (∀ i, ro = inl i → - 2 ^ 31 ≤ i + offset < 2 ^ 31) →
  checked ((x + offset) mod 2 ^ 64) len o →
  (∀ g b' m', LightbeamInv.inv rsp0 (after o x) B b' m' ((Reg g, value_of z c) :: (Reg (Rq p), word base) :: held) [] vs →
     Q g b' m' o) →
  wpx L (mf (Rq p) ro offset gs) b m o Q.
Proof using Hd Hrsp0 Hmem Hmf Hw Hc Hsm Hoff.
  intros Hi Hx Hh Hcst Hck HQ. destruct (inv_head_ok _ _ Hrsp0 _ _ _ _ _ _ _ _ Hi) as (Hv & Hok & _).
  destruct Hmf as [->| ->].
  - unfold store_int. apply wpx_step; [eauto with straight|]. eapply wp_as_temp; [done|exact Hi|size|size|].
    intros r b1 m1 Hi1 Hr Hmv _. eapply inv_own_held in Hi1; [|done|exact Hr|done].
    apply wpx_step; [eauto using straight_access_at|].
    eapply (wp_access_at _ _ _ _ _ _ _ _ x); [exact Hi1|by right; left|eapply operand_more; [done|set_solver]|done|].
    intros a Ea. apply wpx_step; [eauto with straight|]. apply (wp_lift _ _ r); [done|].
    apply wpx_bind. eapply (wpx_store_ins _ _ _ _ a (gpr m1 r mod 2 ^ bits w) x); [done| |done|exact Hi1|done|].
    + rewrite Z.mod_mod by apply bits_pow. by eapply rep_low.
    + intros m2 Hi2. apply wpx_of_wp; [eauto with straight|]. by apply wp_ret, HQ.
  - unfold store_any. apply wpx_step; [eauto using straight_access_at|].
    eapply (wp_access_at _ _ _ _ _ _ _ _ x); [exact Hi|by right; left|eapply operand_more; [done|set_solver]|done|].
    intros a Ea. apply wpx_bind. destruct gs as [r|r]; cbn in Hv.
    + eapply (wpx_store_ins _ _ _ _ a (gpr m r mod 2 ^ bits w) x); [done| |done|exact Hi|done|].
      * rewrite Z.mod_mod by apply bits_pow. by eapply rep_low.
      * intros m2 Hi2. apply wpx_of_wp; [eauto with straight|]. by apply wp_ret, HQ.
    + eapply (wpx_store_ins _ _ _ _ a (xmm m r) x); [done|by eapply rep_low|done|exact Hi|done|].
      intros m2 Hi2. apply wpx_of_wp; [eauto with straight|]. by apply wp_ret, HQ.
Qed.

Lemma wpx_store_from_reg b m held gs ro x L (Q : unit → BlockState → machine → left_to → Prop) :
  inv B b m ((Reg gs, value_of z c) :: held) [] vs → plain (bs_stack b) → plain (map fst held) →
  operand_is ro x held → (length held ≤ 1)%nat → (∀ i, ro = inl i → - 2 ^ 31 ≤ i + offset < 2 ^ 31) →
  (∀ b' m' o, LightbeamInv.inv rsp0 (after o x) B b' m' held [] vs → checked ((x + offset) mod 2 ^ 64) len o → Q tt b' m' o) →
  wpx L (store_from_reg mf gs offset ro) b m None Q.
Proof using Hd Hrsp0 Hmem Hmf Hw Hc Hsm Hoff.
  intros Hi Hp1 Hp2 Hx Hh Hcst HQ. unfold store_from_reg. apply wpx_step; [eauto with straight|].
  eapply wp_definition_of; [done|exact Hd|size|size|]. intros reg mo b1 m1 Hl Hi1 Hmv1 _. cbn [emit_memory_bounds_check].
  assert (held ⊆ (Reg gs, value_of z c) :: held) as Hsub by set_solver.
  apply wpx_bind. eapply wpx_check; [exact store_compares|exact Hi1|done|by apply Hmv1|by constructor|by eapply operand_more|lia|size|size|].
  intros b2 m2 o Hi2 Hp2' Hr2 Hck.
  assert (check_offset ro offset = offset) as Eco by (destruct ro; cbn; [done|by rewrite Z.mod_small by lia]).
  rewrite Eco in Hck. apply wpx_step; [eauto with straight|].
  eapply wp_mem_pointer; [done|done|exact Hd|size|size|]. intros p b3 m3 Hi3 Hmv3 _.
  eapply inv_perm_held in Hi3; [|done|apply Permutation_swap].
  apply wpx_bind. eapply wpx_match_offset; [exact Hi3|done|lia|done|done|]. intros g b4 m4 Hi4.
  eapply inv_perm_held in Hi4; [|done|apply Permutation_swap].
  apply wpx_step; [eauto with straight|]. eapply (wp_free_value _ _ Hrsp0 la _ _ _ _ _ _ (Reg (Rq p))); [exact Hi4|]. intros b5 Hi5 _ _.
  apply wpx_of_wp; [eauto with straight|]. eapply (wp_free_value _ _ Hrsp0 la _ _ _ _ _ _ (Reg g)); [exact Hi5|]. intros b6 Hi6 _ _.
  by apply HQ.
Qed.

Lemma wpx_store b m a l u y L (Q : unit → BlockState → machine → left_to → Prop) :
  inv B b m [] [] (vs ++ [V.I32 a; value_of z c]) → plain (bs_stack b) → bs_stack b = l ++ [u; y] →
  (∀ i, u = Immediate i → a + offset < 2 ^ 31) →
  (∀ b' m' o, checked ((content m u + offset) mod 2 ^ 64) len o →
     LightbeamInv.inv rsp0 (after o (content m u)) B b' m' [] [] vs → Q tt b' m' o) →
  wpx L (store mf offset) b m None Q.
Proof using Hd Hrsp0 Hmem Hmf Hw Hc Hsm Hoff.
  intros Hinv Hpl Estk Hconst HQ. unfold store. apply wpx_step; [eauto with straight|].
  apply (wp_lift _ _ tt); [by rewrite (proj2 (Z.leb_le _ _)) by lia|].
  change (vs ++ [?u; ?v]) with (vs ++ [u] ++ [v]) in Hinv. rewrite (assoc_L (++)) in Hinv.
  apply wpx_step; [eauto with straight|]. eapply wp_pop; [done|exact Hinv|]. intros l1 y' E1 Hi1.
  apply wpx_step; [eauto with straight|]. eapply wp_pop; [done|exact Hi1|]. intros l2 u' E2 Hi2.
  cbn [with_stack bs_stack] in E2. subst l1.
  assert (l2 = l ∧ u' = u ∧ y' = y) as (-> & -> & ->).
  { rewrite Estk in E1. change (l ++ [u; y]) with (l ++ [u] ++ [y]) in E1. rewrite (assoc_L (++)) in E1.
    apply app_inj_tail in E1 as [E1 <-]. by apply app_inj_tail in E1 as [<- <-]. }
  rewrite E1 in Hpl. apply plain_app in Hpl as [[Hp2 Hpu]%plain_app Hpy]. apply Forall_cons in Hpu as [Hpu _].
  destruct (immediate_or_not u) as [[i ->]|Hni'].
  - destruct (inv_head_ok _ _ Hrsp0 _ _ _ _ _ _ _ _ Hi2) as (Hv & Hok & _). cbn in Hv. subst i.
    eapply inv_drop in Hi2; [|done..].
    apply wpx_step; [eauto with straight|]. eapply wp_as_any_reg; [exact Hi2|size|size|]. intros gs b3 m3 Hi3 Hmv3.
    assert (plain (bs_stack b3)) as Hp3 by (by apply Hmv3). rewrite wrap_s_small by lia.
    apply wpx_step; [eauto with straight|]. apply (wp_lift _ _ a); [done|].
    eapply (wpx_store_from_reg _ _ _ _ (inl a) a); [exact Hi3|done|by constructor|done|cbn; lia| |].
    + intros i' [= <-]. specialize (Hconst _ eq_refl). cbn in Hok. lia.
    + intros b4 m4 o Hi4 Hck. by eapply HQ.
  - eapply inv_full in Hi2; [|exact Hni'|exact Hpu].
    eapply inv_perm_held in Hi2; [|done|apply Permutation_swap].
    apply wpx_step; [eauto with straight|]. eapply wp_as_any_reg; [exact Hi2|size|size|]. intros gs b3 m3 Hi3 Hmv3.
    assert (plain (bs_stack b3)) as Hp3 by (by apply Hmv3). rewrite wrap_s_small by lia.
    eapply inv_perm_held in Hi3; [|done|apply Permutation_swap]. set (x := content m u) in *.
    assert (wpx L
      (gpr ← as_reg Rq_ u; _ ← store_from_reg mf gs offset (inr gpr); free_value (Reg gpr)) b3 m3 None Q) as Hreg;
      [|by destruct u; [..|edestruct Hni'|]].
    apply wpx_step; [eauto with straight|].
    eapply wp_as_reg; [done|exact Hi3|size|size|]. intros r b4 m4 Hi4 Hrep Hmv4 _.
    eapply inv_own_held in Hi4; [|done|exact Hrep|apply word_ok].
    eapply inv_perm_held in Hi4; [|done|apply Permutation_swap].
    apply wpx_bind. eapply (wpx_store_from_reg _ _ _ _ _ x); [exact Hi4|by apply Hmv4|by constructor|by left|done|done|].
    intros b5 m5 o Hi5 Hck. apply wpx_of_wp; [eauto with straight|].
    eapply wp_free_value; [done|exact Hi5|]. intros b6 Hi6 _ _. by eapply HQ.
Qed.
End store.
End access.
