(* ===== verification/LightbeamSandbox.v ===== *)
(** * Lightbeam: the sandbox of linear memory

    What the code for loads and stores does at every address, and the offsets for which
    its check does not hold. *)

From S2P Require Import FuncEnviron FuncEnvironProofs.
From S2P Require Import Prelude Microwasm MicrowasmProofs Store X64 LightbeamRegs LightbeamOwns Lightbeam.
From S2P Require Import LightbeamOps LightbeamMemory LightbeamBlocks LightbeamInv LightbeamMoves LightbeamArith.
From S2P Require Import LightbeamReturn LightbeamTraps LightbeamAccess.
Import V(Value) registers.
Local Open Scope Z_scope.

(** ** The instructions for loads *)

Section loads.
Context `{ModuleOffsets}.

(** The loads of integers: the method, the width in memory, and the value of the bits. *)
Definition int_loads : list ((Z → M unit) * width * (Z → Value)) := [
  (i32_load, W32, λ x, V.I32 (wrap_s 32 x)); (i64_load, W64, λ x, V.I64 (wrap_s 64 x));
  (i32_load8_u, W8, V.I32); (i32_load8_s, W8, λ x, V.I32 (wrap_s 8 x));
  (i32_load16_u, W16, V.I32); (i32_load16_s, W16, λ x, V.I32 (wrap_s 16 x));
  (i64_load8_u, W8, V.I64); (i64_load8_s, W8, λ x, V.I64 (wrap_s 8 x));
  (i64_load16_u, W16, V.I64); (i64_load16_s, W16, λ x, V.I64 (wrap_s 16 x));
  (i64_load32_u, W32, V.I64); (i64_load32_s, W32, λ x, V.I64 (wrap_s 32 x)) ].
Definition int_stores : list ((Z → M unit) * width) := [(store8, W8); (store16, W16); (store32, W32); (store64, W64)].

Lemma loads_mov `{Sse} la z ext :
  (∀ x, ext x = value_of z (wrap_s (wbits z) x)) → loads_as la (mov_load (width_of z)) (width_of z) ext.
Proof.
  intros He m r a. eexists. split; [done|]. cbn [write_op]. rewrite write_gpr_int. split; [apply upd_with_gpr|].
  rewrite gpr_with_gpr, He. split.
  - apply rep_int. destruct (wbits_pos z). rewrite wrap_s_mod, !Z.mod_mod by lia. done.
  - apply value_ok_int. rewrite <-size_wbits. apply fits_wrap.
Qed.
Lemma loads_mov32_u `{Sse} la : loads_as la (mov_load W32) W32 V.I64.
Proof.
  intros m r a. eexists. split; [done|]. split; [apply upd_with_gpr|]. unfold write_op, write_gpr. rewrite gpr_with_gpr.
  cbn [read_src read_op rep value_ok]. unfold read_mm. cbn [bits wbytes].
  set (x := load_le _ _ _). pose proof (Z.mod_pos_bound x (2 ^ 32)). rewrite !Z.mod_mod by lia. split; [done|lia].
Qed.
Lemma loads_movx `{Sse} la z signed w ext :
  bits w < wbits z → (∀ x, ext x = value_of z (if signed : bool then wrap_s (bits w) x else x)) →
  loads_as la (movx_load signed (width_of z) w) w ext.
Proof.
  intros Hw He m r a. eexists. split; [done|]. rewrite write_gpr_int. split; [apply upd_with_gpr|].
  rewrite gpr_with_gpr, He. cbn [read_op]. set (x := read_mm m w _). destruct (wbits_pos z).
  split; [apply rep_int; by rewrite Z.mod_mod by lia|]. apply value_ok_int. unfold fits.
  assert (0 < bits w) by (by destruct w).
  pose proof (Z.pow_le_mono_r 2 (bits w) (wbits z - 1)). destruct signed.
  - pose proof (wrap_s_range (bits w) x). pose proof (Z.pow_le_mono_r 2 (bits w - 1) (bits w)). lia.
  - assert (0 ≤ x < 2 ^ bits w); [|lia]. apply Z.mod_pos_bound. lia.
Qed.

Lemma int_loads_ok `{Sse} la f w ext :
  (f, w, ext) ∈ int_loads → ∃ e i, f = load TRq e ∧ emits_load e i ∧ loads_as la i w ext.
Proof.
  intros Hin. unfold int_loads in Hin.
  repeat (apply elem_of_cons in Hin as [E|Hin]; [injection E as -> -> ->; eexists _, _; split; [reflexivity|]|]).
  13: by apply elem_of_nil in Hin.
  all: split; [first [by left|right; by eexists]|].
  - by apply (loads_mov la _32).
  - by apply (loads_mov la _64).
  - by apply (loads_movx la _32 false).
  - by apply (loads_movx la _32 true).
  - by apply (loads_movx la _32 false).
  - by apply (loads_movx la _32 true).
  - by apply (loads_movx la _64 false).
  - by apply (loads_movx la _64 true).
  - by apply (loads_movx la _64 false).
  - by apply (loads_movx la _64 true).
  - by apply loads_mov32_u.
  - by apply (loads_movx la _64 true).
Qed.
Lemma int_stores_ok f w : (f, w) ∈ int_stores → ∃ mf, f = store mf ∧ (mf = store_int w ∨ mf = store_any w).
Proof.
  intros Hin. unfold int_stores in Hin.
  repeat (apply elem_of_cons in Hin as [E|Hin]; [injection E as -> ->; eexists; split; [reflexivity|]; tauto|]).
  by apply elem_of_nil in Hin.
Qed.
End loads.

(** ** Accesses *)

(** The values of the topmost locations. *)
Lemma last_holds rsp0 m0 B b m vs a y (held : list (ValueLocation * Value)) own :
  inv rsp0 m0 B b m held own (vs ++ [V.I32 a]) → last (bs_stack b) = Some y →
  holds rsp0 m y (V.I32 a) ∧ value_ok (V.I32 a).
Proof.
  intros Hi [l E]%last_Some. pose proof (inv_stack _ _ _ _ _ _ _ _ Hi) as Hs. rewrite E in Hs.
  apply Forall2_app_inv_r in Hs as (k1 & k2 & Hs1 & Hs2 & Ek).
  assert (length k1 = length l ∧ k2 = [y]) as [_ ->].
  { inversion Hs2 as [|? ? ? ? ? H2]; subst. inversion H2; subst. by apply app_inj_tail in Ek as [-> ->]. }
  split; [by inversion Hs2|]. destruct (inv_values _ _ _ _ _ _ _ _ Hi) as [Hv _].
  apply Forall_app in Hv as [_ Hv]. by inversion Hv.
Qed.
Lemma second_holds rsp0 m0 B b m vs a v l u y (held : list (ValueLocation * Value)) own :
  inv rsp0 m0 B b m held own (vs ++ [V.I32 a; v]) → bs_stack b = l ++ [u; y] → holds rsp0 m u (V.I32 a).
Proof.
  intros Hi E. pose proof (inv_stack _ _ _ _ _ _ _ _ Hi) as Hs. rewrite E in Hs.
  apply Forall2_app_inv_r in Hs as (k1 & k2 & Hs1 & Hs2 & Ek).
  inversion Hs2 as [|u' ? k3 ? Hu Hs3]; subst. inversion Hs3 as [|y' ? k4 ? Hy Hs4]; subst. inversion Hs4; subst.
  assert (l ++ [u] ++ [y] = k1 ++ [u'] ++ [y']) as E2 by done. rewrite !(assoc_L (++)) in E2.
  apply app_inj_tail in E2 as [E2 _]. by apply app_inj_tail in E2 as [_ ->].
Qed.

(** The code that a load emits, for every offset: the check is made with the offset as
    it is unless the address is a constant, the access with the offset as a signed
    number of 32 bits. *)
Lemma load_runs `{Sse} `{ModuleOffsets} (la : Z → Z) (rsp0 d bo lo offset B a : Z) (m0 m : machine)
    (f : Z → M unit) (w : width) (ext : Z → Value) (vs : list Value) (y : ValueLocation) (s : ctx)
    (base := read_mm m0 W64 (d + bo)) (len := read_mm m0 W64 (d + lo)) (x := content rsp0 m y)
    (addr := (x + checks_offset y offset) mod 2 ^ 64) (at_ := (base + (x + wrap_s 32 offset)) mod 2 ^ 64) :
  2 ^ 20 ≤ rsp0 < 2 ^ 63 → (f, w, ext) ∈ int_loads → 0 ≤ offset < 2 ^ 32 → definition_at rsp0 m0 d bo lo →
  inv rsp0 m0 B (block_state s) m [] [] (vs ++ [V.I32 a]) → plain (bs_stack (block_state s)) →
  last (bs_stack (block_state s)) = Some y → B < 2 ^ 16 → zlen vs < 190 →
  (∀ i, y = Immediate i → - 2 ^ 31 ≤ a + wrap_s 32 offset < 2 ^ 31) →
  (addr < len → outside rsp0 at_ 8) →
  ∃ s' items, f offset s = Ret (s', tt) ∧ code s' = code s ++ items ∧
    if decide (addr < len)
    then ∃ m', exec la None items m = Some (Next m') ∧
           inv rsp0 m0 (B + 1) (block_state s') m' [] [] (vs ++ [ext (read_mm m0 w at_)])
    else ∃ l m', exec la None items m = Some (Goto l m') ∧ trap_of s' = Some l ∧ kept rsp0 m0 m'.
Proof.
  intros Hrsp0 Hf Hoff Hd Hinv Hpl Hy HB Hvs Hconst Hout.
  destruct (int_loads_ok la f w ext Hf) as (e & i & -> & He & Hi).
  assert (wpx la None (load TRq e offset) (block_state s) m None (λ _ b' m' o,
    checked rsp0 m0 addr len o ∧ inv rsp0 m0 (B + 1) b' m' [] [] (vs ++ [ext (read_mm m' w at_)]))) as Hw
    by (eapply wpx_load; eauto).
  destruct (Hw s eq_refl) as (s' & [] & ins & ls & m' & o & E & Ec & _ & Hr & Hck & Hi'); [done|].
  exists s', (map Ins ins). split_and!; [done|done|].
  destruct o as [[l mt]|]; cbn [checked runs] in *.
  - destruct Hck, Hr. rewrite decide_False by lia. by exists l, mt.
  - rewrite decide_True by done. exists m'. split; [done|]. specialize (Hout Hck).
    rewrite <-(kept_read rsp0 m0 Hrsp0 _ _ _ _ _ _ w at_ Hi'); [done|].
    pose proof (wbytes_le w). unfold outside in *. lia.
Qed.




(** ** Examples *)

#[local] Instance sandbox_sse : Sse := Build_Sse (λ _ _ _, 0) (λ _ _ _, no_flags) (λ _ _ _, 0) (λ _ _ _ _, 0).
Definition sandbox_ctx : ctx := mkCtx [] [] 0 [] [] (mkBlockState [] 0 (mkRegisters (0, []) (0, []))).
(** The context at 0x1000, the stack pointer at 2^30, two arguments. *)
Definition sandbox_machine (rsi rdx : Z) (mem : Store.mem) : machine :=
  mkMachine (λ r, if r =? VMCTX then 0x1000 else if r =? RSP_ then 2 ^ 30 else if r =? 6 then rsi
    else if r =? 2 then rdx else 0) (λ _, 0) no_flags mem.
(** 99 at the address 12 of the memory of an instance, which is at 0x10000 and has 65536
    bytes. *)
Definition sandbox_mem : Store.mem := store_le fx_mem 0x1000C 4 99.
#[local] Instance sandbox_offsets : ModuleOffsets := environment_offsets fx_fe.

Lemma sandbox_definition mem rsi rdx : definition_at (2 ^ 30 + 8) (sandbox_machine rsi rdx mem) (0x1000 + 36) 0 8.
Proof.
  split; unfold outside; cbn; try lia.
  - exists 36. split; [reflexivity|lia].
  - split; [reflexivity|lia].
  - split; [reflexivity|lia].
Qed.

Lemma sandbox_started mem rsi rdx : 0 ≤ rsi < 2 ^ 31 → 0 ≤ rdx < 2 ^ 31 →
  let m := sandbox_machine rsi rdx mem in
  ∃ s, start_function [TInt _32; TInt _32] sandbox_ctx = Ret (s, tt) ∧
    inv (2 ^ 30 + 8) m 3 (block_state s) m [] [] [V.I32 rsi; V.I32 rdx] ∧ plain (bs_stack (block_state s)) ∧
    bs_stack (block_state s) = [Reg RSI; Reg RDX].
Proof.
  intros Hrsi Hrdx m.
  assert (wp (λ _, 0) (start_function [TInt _32; TInt _32]) (block_state sandbox_ctx) m (λ _ b m',
    inv (2 ^ 30 + 8) m 3 b m [] [] [V.I32 rsi; V.I32 rdx] ∧ plain (bs_stack b))) as Hw.
  { apply (wp_start_function (λ _, 0) m _ [CReg RSI; CReg RDX] [V.I32 rsi; V.I32 rdx]); [done|cbn; lia|done| | |].
    - by repeat constructor.
    - repeat constructor; cbn; lia.
    - intros b' Hi Hp. by split. }
  destruct (Hw sandbox_ctx eq_refl) as (s & [] & items & m' & E & _ & _ & Hi & Hp).
  exists s. split_and!; try done. vm_compute in E. by injection E as <-.
Qed.



(** A memory of 3 GiB at 2^40, and 1234 at 2 GiB below it. *)
Definition large_mem : Store.mem :=
  store_le (store_le (store_le (λ _, 0) (0x1000 + 36) 8 (2 ^ 40)) (0x1000 + 44) 8 (3 * 2 ^ 30))
    (2 ^ 40 - 2 ^ 31) 4 1234.


(** ** Addresses that are computed wrongly *)

(** The lower 32 bits of what a load at the second argument gives, in a memory of [len]
    bytes at 2^40; the first argument may be a constant. *)
Definition run_load (len offset : Z) (operand : option Z) (mem : Store.mem) : res (option Z) :=
  let mem := store_le (store_le mem (0x1000 + 36) 8 (2 ^ 40)) (0x1000 + 44) 8 len in
  '(s, _) ← (_ ← start_function [TInt _32; TInt _32];
             _ ← match operand with Some a => const_ (V.I32 a) | None => ret tt end;
             _ ← i32_load offset;
             pop_into (CReg RAX)) sandbox_ctx;
  Ret match exec (λ _, 0) None (code s) (sandbox_machine 0 0 mem) with
      | Some (Next m) => Some (gpr m 0 mod 2 ^ 32)
      | _ => None
      end.

(** A constant address is sign-extended: the last address with an offset of 1, which is
    beyond every memory, loads from the address 0. *)
Lemma constant_address_wraps :
  run_load 65536 1 (Some (-1)) (store_le (λ _, 0) (2 ^ 40) 4 1234) = Ret (Some 1234).
Proof. vm_compute. reflexivity. Qed.

(** A constant address and an offset whose sum is 2^31 make the generator panic. *)
Lemma constant_address_overflows : run_load 65536 1 (Some (2 ^ 31 - 1)) (λ _, 0) = Panic.
Proof. vm_compute. reflexivity. Qed.
