(* ===== verification/LightbeamIndirect.v ===== *)
(** * Lightbeam: indirect calls are checked

    What the code for [call_indirect] does with the index, for a table in the context of
    an instance. *)

From S2P Require Import FuncEnviron FuncEnvironProofs.
From S2P Require Import Prelude Microwasm MicrowasmProofs Store X64 LightbeamRegs LightbeamOwns Lightbeam.
From S2P Require Import LightbeamOps LightbeamMemory LightbeamBlocks LightbeamCalls LightbeamInv LightbeamMoves LightbeamArith.
From S2P Require Import LightbeamTraps LightbeamAccess LightbeamSandbox.
Import V(Value) registers.
Local Open Scope Z_scope.

(** Changing a register that is held. *)
Lemma inv_set_held rsp0 m0 (Hrsp0 : 2 ^ 20 ≤ rsp0 < 2 ^ 63) B b m m' held own vs c v f x :
  inv rsp0 m0 B b m ((Reg (Rq c), v) :: held) own vs → Rq c ∉ regs_of (bs_stack b) ++ regs_of (map fst held) →
  upd c f m m' → (f = fl m ∨ plain (bs_stack b ++ map fst held)) → gpr m' c mod 2 ^ 64 = x mod 2 ^ 64 →
  inv rsp0 m0 B b m' ((Reg (Rq c), word x) :: held) own vs.
Proof.
  intros Hi Hc Hu Hf Hx. assert (Rq c ∈ SCRATCH_REGS) as Hs.
  { eapply (inv_scratch rsp0 m0 Hrsp0); [exact Hi|]. cbn [map fst]. change (regs_of (Reg (Rq c) :: ?k)) with (Rq c :: regs_of k). set_solver. }
  apply (inv_held_own rsp0 m0 Hrsp0) in Hi as [_ Hi]. apply (inv_own_held rsp0 m0 Hrsp0); [|by cbn; apply rep_word|apply word_ok].
  eapply (inv_upd rsp0 m0 Hrsp0); [exact Hi|exact Hu|exact Hs|exact Hc|exact Hf].
Qed.

Lemma vmctx_not_scratch : Rq VMCTX ∉ SCRATCH_REGS.
Proof. apply (bool_decide_unpack _). by vm_compute. Qed.

Section indirect.
Context (rsp0 : Z) (m0 : machine) (Hrsp0 : 2 ^ 20 ≤ rsp0 < 2 ^ 63) `{Sse} (la : Z → Z) `{ModuleOffsets}.
Notation inv := (inv rsp0 m0).
Notation outside := (outside rsp0).
Implicit Types (held : list (ValueLocation * Value)) (own : list GPR) (vs : list Value).

(** The definition of table 0, with its elements, and the layout of an element.  The
    first 2^32 bytes of the elements are not in the function's own part of the stack. *)
Record table_with (type_id d bo no sz ty vo fo so : Z) : Prop := {
  tw_definition : defined_at rsp0 m0 (defined_table_index 0) vmctx_vmtable_definition (vmctx_vmtable_import_from 0)
    vmtable_definition_base vmtable_definition_current_elements d bo no;
  tw_size : size_of_vmcaller_checked_anyfunc = Ret sz ∧ 0 ≤ sz;
  tw_type : vmcaller_checked_anyfunc_type_index = Ret ty ∧ 0 ≤ ty < 2 ^ 8;
  tw_vmctx : vmcaller_checked_anyfunc_vmctx = Ret vo ∧ 0 ≤ vo < 2 ^ 8;
  tw_func : vmcaller_checked_anyfunc_func_ptr = Ret fo ∧ 0 ≤ fo < 2 ^ 8;
  tw_signature : vmctx_vmshared_signature_id type_id = Ret so ∧ 0 ≤ so < 2 ^ 31 ∧
    gpr m0 VMCTX + so < 2 ^ 64 ∧ outside (gpr m0 VMCTX + so) 4;
  tw_elements : let n := read_mm m0 W32 (d + no) in let base := read_mm m0 W64 (d + bo) in
    let bytes := Z.min (n * sz) (2 ^ 32) in
    base + bytes + 2 ^ 9 ≤ 2 ^ 64 ∧ outside base (bytes + 2 ^ 9);
}.

Context (type_id d bo no sz ty vo fo so : Z) (Ht : table_with type_id d bo no sz ty vo fo so).
Notation base := (read_mm m0 W64 (d + bo)).
Notation n := (read_mm m0 W32 (d + no)).
Notation sig := (read_mm m0 W32 (gpr m0 VMCTX + so)).

(** Whether the element [u] may be called. *)
Definition element_ok (u : Z) : Prop := u < n ∧ read_mm m0 W32 (base + u * sz mod 2 ^ 32 + ty) = sig.

Lemma element_in_table u w o :
  0 ≤ u < n → 0 ≤ o < 2 ^ 8 → 0 ≤ base + u * sz mod 2 ^ 32 + o < 2 ^ 64 ∧ outside (base + u * sz mod 2 ^ 32 + o) (Z.of_nat (wbytes w)).
Proof using Ht Hrsp0.
  intros Hu Ho. destruct (tw_elements _ _ _ _ _ _ _ _ _ Ht) as (Hb & Hout). destruct (tw_size _ _ _ _ _ _ _ _ _ Ht) as [_ Hs].
  assert (0 ≤ base < 2 ^ 64) by (apply Z.mod_pos_bound; lia). assert (0 ≤ u * sz ≤ n * sz) by nia. pose proof (wbytes_le w).
  pose proof (Z.mod_pos_bound (u * sz) (2 ^ 32)). pose proof (Z.mod_le (u * sz) (2 ^ 32)).
  unfold LightbeamAccess.outside in *. lia.
Qed.

Lemma element_address B b mi m held own vs t0 c u o :
  inv B b mi held own vs → (Reg (Rq t0), word base) ∈ held → (Reg (Rq c), word (u * sz mod 2 ^ 32)) ∈ held →
  gpr m t0 = gpr mi t0 → gpr m c = gpr mi c →
  0 ≤ u < n → 0 ≤ o < 2 ^ 8 → ea la m (Addr t0 (Some c) o) = base + u * sz mod 2 ^ 32 + o.
Proof using Ht Hrsp0.
  intros Hi Hb Hc Eb Ec Hu Ho. destruct (element_in_table u W32 o Hu Ho) as [Hea _].
  pose proof (inv_word rsp0 m0 Hrsp0 _ _ _ _ _ _ _ _ Hi Hb) as E0. pose proof (inv_word rsp0 m0 Hrsp0 _ _ _ _ _ _ _ _ Hi Hc) as E1.
  rewrite <-Eb in E0. rewrite <-Ec in E1. cbn [ea]. rewrite <-Z.add_mod_idemp_l, (Z.add_mod (gpr m t0)), E0, E1 by lia.
  rewrite <-Z.add_mod, Z.add_mod_idemp_l by lia. apply Z.mod_small. lia.
Qed.

Lemma straight_release_opt reg : straight (release_opt reg).
Proof. destruct reg; unfold release_opt; eauto with straight. Qed.
Lemma straight_table_at : straight table_at.
Proof. unfold table_at, definition_of. straight. Qed.
Hint Resolve straight_release_opt straight_table_at straight_field_of : straight.

Lemma cmp_elements m c a :
  exec1 la (ALU CMP W32 (OReg c) (Src (OMem a))) m = Some (Next (with_fl m (sub_flags W32 (read_gpr m W32 c) (read_mm m W32 (ea la m a))))) ∧
  holds_cond (sub_flags W32 (read_gpr m W32 c) (read_mm m W32 (ea la m a))) cAE = Some (read_mm m W32 (ea la m a) <=? read_gpr m W32 c).
Proof. split; [done|]. cbn. f_equal. by rewrite Z.leb_antisym. Qed.
Lemma cmp_signature m a t :
  exec1 la (ALU CMP W32 (OMem a) (Src (OReg t))) m = Some (Next (with_fl m (sub_flags W32 (read_mm m W32 (ea la m a)) (read_gpr m W32 t)))) ∧
  holds_cond (sub_flags W32 (read_mm m W32 (ea la m a)) (read_gpr m W32 t)) cNE = Some (negb (read_mm m W32 (ea la m a) =? read_gpr m W32 t)).
Proof.
  split; [done|]. cbn. do 2 f_equal. set (x := read_mm m W32 _). set (y := read_gpr m W32 t).
  assert (0 ≤ x < 2 ^ 32) by (apply Z.mod_pos_bound; lia). assert (0 ≤ y < 2 ^ 32) by (apply Z.mod_pos_bound; lia).
  apply eq_bool_prop_intro. rewrite !Is_true_true, !Z.eqb_eq. change (2 ^ bits W32) with (2 ^ 32).
  split; [|intros ->; by rewrite Z.sub_diag]. intros E. apply Z.mod_divide in E as [k E]; [|lia]. nia.
Qed.

(** The result of the checks. *)
Definition checked_element (c t0 t1 u B : Z) own vs (b : BlockState) (m : machine) (o : left_to) : Prop :=
  inv B b m [(Reg (Rq t1), word sig); (Reg (Rq t0), word base); (Reg (Rq c), word (u * sz mod 2 ^ 32))] own vs ∧
  match o with None => element_ok u | Some (_, mt) => ¬ element_ok u ∧ kept rsp0 m0 mt end.

Lemma wpx_check_signature B b m own vs c t0 u fail o (Q : GPR → BlockState → machine → left_to → Prop) :
  inv B b m [(Reg (Rq t0), word base); (Reg (Rq c), word (u * sz mod 2 ^ 32))] own vs → plain (bs_stack b) →
  (length own ≤ 5)%nat → zlen vs < 190 → 0 ≤ u →
  match o with None => u < n | Some (_, mt) => n ≤ u ∧ kept rsp0 m0 mt end →
  (∀ t1 b' m' o', checked_element c t0 t1 u B own vs b' m' o' → Q (Rq t1) b' m' o') →
  wpx la (Some fail) (check_signature type_id fail t0 c) b m o Q.
Proof using Ht Hrsp0.
  intros Hi Hp Hown Hvs Hu Ho HQ. unfold check_signature.
  destruct (tw_signature _ _ _ _ _ _ _ _ _ Ht) as (Eso & Hso & Hov & Hout). destruct (tw_type _ _ _ _ _ _ _ _ _ Ht) as [Ety Hty].
  pose proof (da_vmctx _ _ _ _ _ (tw_definition _ _ _ _ _ _ _ _ _ Ht)) as Hvm.
  apply wpx_step; [eauto with straight|]. eapply (wp_take_gpr rsp0 m0 Hrsp0); [exact Hi|cbn; lia|size|]. intros t1 b1 m1 Hi1 Hfr Hmv.
  apply wpx_step; [eauto with straight|]. apply (wp_lift _ _ t1); [done|].
  apply wpx_step; [eauto with straight|]. apply (wp_lift _ _ so); [done|].
  apply wpx_step; [eauto with straight|]. eapply wp_emit; [reflexivity|].
  set (m2 := write_op la m1 W32 (OReg t1) (read_src la m1 W32 (Src (at_vmctx so)))).
  assert (read_src la m1 W32 (Src (at_vmctx so)) = sig) as Esig.
  { cbn [read_src read_op at_vmctx ea]. rewrite (vmctx_kept rsp0 m0 Hrsp0 _ _ _ _ _ _ Hi1), Z.add_0_r, wrap_s_small by lia.
    rewrite Z.mod_small by lia. by eapply (kept_read rsp0 m0 Hrsp0). }
  assert (0 ≤ sig < 2 ^ 32) as Hsig by (apply Z.mod_pos_bound; lia).
  assert (gpr m2 t1 = sig) as Et1.
  { subst m2. rewrite Esig. unfold write_op, write_gpr. rewrite gpr_with_gpr. by apply Z.mod_small. }
  assert (plain (bs_stack b1)) as Hp1 by (by apply Hmv).
  assert (inv B b1 m2 [(Reg (Rq t1), word sig); (Reg (Rq t0), word base); (Reg (Rq c), word (u * sz mod 2 ^ 32))] own vs) as Hi2.
  { eapply (inv_set rsp0 m0 Hrsp0 la); [exact Hi1|exact Hfr|apply upd_with_gpr|by left|by rewrite Et1]. }
  apply wpx_step; [eauto with straight|]. apply (wp_lift _ _ ty); [done|].
  apply wpx_step; [eauto with straight|]. destruct (cmp_signature m2 (Addr t0 (Some c) ty) t1) as [Ec Hc]. eapply wp_emit; [exact Ec|].
  set (f := sub_flags _ _ _) in *.
  eapply (inv_with_fl rsp0 m0 Hrsp0 _ _ _ _ _ _ f) in Hi2; [|apply plain_app; split; [done|by repeat constructor]].
  apply wpx_bind. destruct o as [[l mt]|].
  - apply wpx_emit; [|done]. intros m' _ ->; [|done]. apply wpx_of_wp; [eauto with straight|]. apply wp_ret, HQ.
    split; [done|]. destruct Ho as [Hn Hk]. split; [|done]. intros [? _]. lia.
  - destruct (element_in_table u W32 ty) as [Hea Heo]; [done|done|].
    assert (ea la m2 (Addr t0 (Some c) ty) = base + u * sz mod 2 ^ 32 + ty) as Ea
      by (eapply element_address; [exact Hi2|set_solver|set_solver|done..]).
    assert (read_mm m2 W32 (base + u * sz mod 2 ^ 32 + ty) = read_mm m0 W32 (base + u * sz mod 2 ^ 32 + ty)) as Er.
    { change (read_mm m2 W32 (base + u * sz mod 2 ^ 32 + ty)) with (read_mm (with_fl m2 f) W32 (base + u * sz mod 2 ^ 32 + ty)).
      by eapply (kept_read rsp0 m0 Hrsp0). }
    assert (read_gpr m2 W32 t1 = sig) as Eg by (unfold read_gpr; rewrite Et1; by apply Z.mod_small).
    rewrite Ea, Er, Eg in Hc. eapply wpx_jcc; [exact Hc|]. apply wpx_of_wp; [eauto with straight|]. apply wp_ret, HQ.
    split; [done|]. unfold element_ok. destruct (Z.eqb_spec (read_mm m0 W32 (base + u * sz mod 2 ^ 32 + ty)) sig); cbn [negb]; [done|].
    split; [tauto|]. exact (inv_kept _ _ _ _ _ _ _ _ Hi2).
Qed.

Lemma wp_release_opt B b m held own vs reg (Q : unit → BlockState → machine → Prop) :
  inv B b m (locates reg d held) own vs →
  (∀ b', inv B b' m held own vs → bs_stack b' = bs_stack b → Q tt b' m) → wp la (release_opt reg) b m Q.
Proof using Hrsp0.
  intros Hi HQ. destruct reg as [g|]; cbn [release_opt locates] in *; [|by apply wp_ret, HQ].
  eapply (wp_release_word rsp0 m0 Hrsp0); [exact Hi|]. intros b' Hi' E _. by apply HQ.
Qed.

Lemma wpx_check_element B b m own vs c idx L (Q : GPR * GPR → BlockState → machine → left_to → Prop) :
  let u := idx mod 2 ^ 32 in
  inv B b m [(Reg (Rq c), V.I32 idx)] own vs → plain (bs_stack b) → Rq c ∉ regs_of (bs_stack b) →
  (length own ≤ 5)%nat → zlen vs < 190 →
  (∀ t0 t1 b' m' o, checked_element c t0 t1 u B own vs b' m' o → Q (Rq t0, Rq t1) b' m' o) →
  wpx la L (check_element type_id (Rq c)) b m None Q.
Proof using Ht Hrsp0.
  intros u Hi Hp Hc Hown Hvs HQ. unfold check_element. pose proof (tw_definition _ _ _ _ _ _ _ _ _ Ht) as Hd.
  destruct (tw_size _ _ _ _ _ _ _ _ _ Ht) as [Esz Hsz]. destruct (da_length _ _ _ _ _ Hd) as (En & Hno & Hnout).
  destruct (da_base _ _ _ _ _ Hd) as (Eb & Hbo & Hbout). pose proof (da_range _ _ _ _ _ Hd) as Hdr.
  assert (0 ≤ u < 2 ^ 32) as Hu by (apply Z.mod_pos_bound; lia).
  apply wpx_trap_label. intros fail. apply wpx_step; [eauto with straight|].
  eapply (wp_definition_of rsp0 m0 Hrsp0 la); [exact Hi|exact Hd|cbn; lia|size|]. intros reg mo b1 m1 Hl Hi1 Hmv1 Hg.
  assert (length (locates reg d [(Reg (Rq c), V.I32 idx)]) ≤ 2)%nat as Hlen by (destruct reg; cbn; lia).
  apply wpx_step; [eauto with straight|]. eapply (wp_take_gpr rsp0 m0 Hrsp0); [exact Hi1|lia|size|]. intros t0 b2 m2 Hi2 [Hs2 Hf2] Hmv2.
  apply wpx_step; [eauto with straight|]. apply (wp_lift _ _ t0); [done|].
  apply wpx_step; [eauto with straight|]. apply (wp_lift _ _ c); [done|].
  apply wpx_step; [eauto with straight|]. rewrite En.
  eapply (wp_field_of rsp0 m0 Hrsp0 la B b2 m2 _ []); [exact Hi2|done|done|done|]. intros a1 Ea1.
  apply wpx_step; [eauto with straight|]. destruct (cmp_elements m2 c a1) as [Ec Hcond]. eapply wp_emit; [exact Ec|].
  set (f := sub_flags _ _ _) in *. assert (plain (bs_stack b2)) as Hp2 by (by apply Hmv2, Hmv1).
  assert (plain (map fst (locates reg d [(Reg (Rq c), V.I32 idx)]))) as Hpl by (destruct reg; by repeat constructor).
  assert (regs_of (bs_stack b2) ⊆ regs_of (bs_stack b)) as Hsub by (etrans; [apply Hmv2|apply Hmv1]).
  assert ((Reg (Rq c), V.I32 idx) ∈ locates reg d [(Reg (Rq c), V.I32 idx)]) as Hin by (destruct reg; cbn; set_solver).
  assert (read_gpr m2 W32 c = u) as Eu.
  { pose proof (inv_held _ _ _ _ _ _ _ _ Hi2) as Hh. rewrite Forall_forall in Hh. exact (Hh _ Hin). }
  rewrite Eu, Ea1, (kept_read rsp0 m0 Hrsp0 _ _ _ _ _ _ W32 _ Hi2) in Hcond by (unfold LightbeamAccess.outside in *; cbn; lia).
  eapply (inv_with_fl rsp0 m0 Hrsp0 _ _ _ _ _ _ f) in Hi2; [|by apply plain_app].
  apply wpx_bind. eapply wpx_jcc; [exact Hcond|].
  assert (match (if n <=? u then Some (fail, with_fl m2 f) else None) with
          | None => u < n | Some (_, mt) => n ≤ u ∧ kept rsp0 m0 mt end) as Hck.
  { destruct (Z.leb_spec n u); [|done]. split; [done|]. exact (inv_kept _ _ _ _ _ _ _ _ Hi2). }
  apply wpx_step; [eauto with straight|]. apply (wp_lift _ _ sz); [done|].
  apply wpx_step; [eauto with straight|]. eapply wp_emit; [reflexivity|].
  set (m3 := with_fl (write_gpr _ W32 c _) no_flags).
  assert (locates reg d [(Reg (Rq c), V.I32 idx)] ≡ₚ (Reg (Rq c), V.I32 idx) :: locates reg d []) as Eperm
    by (destruct reg; cbn; [apply Permutation_swap|done]).
  eapply (inv_perm_held rsp0 m0 Hrsp0) in Hi2; [|exact Eperm].
  assert (inv B b2 m3 ((Reg (Rq c), word (u * sz mod 2 ^ 32)) :: locates reg d []) (Rq t0 :: own) vs) as Hi3.
  { eapply (inv_set_held rsp0 m0 Hrsp0); [exact Hi2| | | |].
    - rewrite elem_of_app. intros [?|Hin']; [set_solver|]. destruct reg as [g|]; [|set_solver].
      cbn in Hin'. apply list_elem_of_singleton in Hin'. subst g. apply (Hg _ eq_refl). cbn. set_solver.
    - unfold m3, write_gpr. apply upd_with_fl.
    - right. apply plain_app. split; [done|]. destruct reg; by repeat constructor.
    - unfold m3, write_gpr. cbn [with_fl gpr]. rewrite gpr_with_gpr. cbn [read_op].
      change (read_gpr (with_fl m2 f) W32 c) with (read_gpr m2 W32 c). by rewrite Eu. }
  assert (Rq t0 ≠ Rq c) as Hne.
  { intros [= ->]. apply Hf2. apply elem_of_app. right. apply elem_of_app. left. apply elem_of_regs_of. by apply (list_elem_of_fmap_2 fst _ _ Hin). }
  assert (Rq t0 ∉ regs_of (map fst (locates reg d []))) as Hnr.
  { intros Hin'. apply Hf2. apply elem_of_app. right. apply elem_of_app. left. revert Hin'.
    rewrite !elem_of_regs_of. destruct reg; cbn; set_solver. }
  apply wpx_step; [eauto with straight|]. rewrite Eb.
  eapply (wp_field_of rsp0 m0 Hrsp0 la B b2 m3 [] [(Reg (Rq c), word (u * sz mod 2 ^ 32))]); [exact Hi3|done|done|done|]. intros a2 Ea2.
  apply wpx_step; [eauto with straight|]. eapply wp_emit; [reflexivity|].
  set (m4 := write_op la m3 W64 (OReg t0) (read_src la m3 W64 (Src (OMem a2)))).
  assert (inv B b2 m4 ((Reg (Rq t0), word base) :: (Reg (Rq c), word (u * sz mod 2 ^ 32)) :: locates reg d []) own vs) as Hi4.
  { eapply (inv_set rsp0 m0 Hrsp0 la); [exact Hi3| |apply upd_with_gpr|by left|].
    - split; [done|]. cbn [map fst]. change (regs_of (Reg (Rq c) :: ?k)) with (Rq c :: regs_of k). set_solver.
    - unfold m4, write_op, write_gpr. rewrite gpr_with_gpr. cbn [read_src read_op].
      rewrite Ea2, (kept_read rsp0 m0 Hrsp0 _ _ _ _ _ _ W64 _ Hi3) by done. by rewrite !Z.mod_mod by lia. }
  apply wpx_step; [eauto with straight|].
  eapply (wp_release_opt _ _ _ [(Reg (Rq t0), word base); (Reg (Rq c), word (u * sz mod 2 ^ 32))]).
  { eapply (inv_perm_held rsp0 m0 Hrsp0); [exact Hi4|]. destruct reg; cbn; [|done].
    etrans; [apply perm_skip, Permutation_swap|apply Permutation_swap]. }
  intros b5 Hi5 E5. apply wpx_bind.
  eapply wpx_check_signature; [exact Hi5|by rewrite E5|done|done|lia|exact Hck|]. intros t1 b6 m6 o6 Hres.
  apply wpx_of_wp; [eauto with straight|]. by apply wp_ret, HQ.
Qed.

(** The call itself, with the registers released. *)
Lemma release_two B b m own vs (t1 t0 : GPR) x1 x0 held s :
  inv B b m ((Reg t1, word x1) :: (Reg t0, word x0) :: held) own vs → block_state s = b →
  ∃ s', (_ ← release t0; release t1) s = Ret (s', tt) ∧ code s' = code s ∧ labels s' = labels s ∧
    bs_stack (block_state s') = bs_stack b.
Proof using Hrsp0 H la.
  intros Hi Hs. assert (inv B b m ((Reg t0, word x0) :: (Reg t1, word x1) :: held) own vs) as Hi'
    by (eapply (inv_perm_held rsp0 m0 Hrsp0); [exact Hi|apply Permutation_swap]).
  assert (wp la (_ ← release t0; release t1) b m (λ _ b' _, bs_stack b' = bs_stack b)) as Hw.
  { apply wp_bind. eapply (wp_release_word rsp0 m0 Hrsp0); [exact Hi'|]. intros b1 Hi1 E1 _.
    eapply (wp_release_word rsp0 m0 Hrsp0); [exact Hi1|]. intros b2 _ E2 _. congruence. }
  destruct (Hw s Hs) as (s' & [] & items & m' & E & _ & _ & Hb). exists s'. split; [done|].
  revert E. unfold release, put_regs, get_bs, put_bs, lift, mbind, M_bind. cbn. destruct (Registers_release _ t0); [|done]. cbn.
  destruct (Registers_release _ t1); [|done]. cbn. intros [= <-]. by split_and!.
Qed.

(** Registers of the stack are not the register of the context. *)
Lemma holds_new_context B b m held own vs x :
  inv B b m held own vs → Forall2 (holds rsp0 (with_gpr m VMCTX x)) (bs_stack b) vs.
Proof using Hrsp0.
  intros Hi. pose proof (inv_stack _ _ _ _ _ _ _ _ Hi) as Hst.
  assert (∀ l, l ∈ bs_stack b → l ≠ Reg (Rq VMCTX)) as Hne.
  { intros l Hl ->. apply vmctx_not_scratch.
    eapply (inv_scratch rsp0 m0 Hrsp0); [exact Hi|]. apply elem_of_app. left. by apply elem_of_regs_of. }
  clear Hi. induction Hst as [|l v ls vs' Hl _ IH]; constructor.
  - eapply holds_with_gpr; [exact Hrsp0|apply Hne; by left|done].
  - apply IH. intros l' Hl'. apply Hne. by right.
Qed.
End indirect.

(** C9: indirect calls are checked.  The part of [call_indirect] after the arguments have
    been passed: in every state of the generator with the index of a callee in a register
    of its own, at most five registers of arguments and no comparison in the flags, for a
    table that is defined or imported, the generator does not panic, and the code that it
    emits takes the element at the index times the size of an element, a product of 32
    bits.  It calls the function of the element, with the context of the element, exactly
    if the index is below the number of elements and the signature of the element is the
    one that the instruction expects; the values of the caller are where they were, and no
    memory but the function's own part of the stack has changed.  Otherwise it jumps to
    the trap label.  In a table of at most 2^32 bytes the element is the one with that
    index; in a larger one, of more than 178,956,970 elements of 24 bytes, the product
    wraps around for the indices above. *)
Theorem indirect_calls_checked `{Sse} `{ModuleOffsets} (la : Z → Z) (rsp0 type_id d bo no sz ty vo fo so B idx c : Z)
    (m0 m : machine) (own : list GPR) (vs : list Value) (s : ctx)
    (Hrsp0 : 2 ^ 20 ≤ rsp0 < 2 ^ 63) (Ht : table_with rsp0 m0 type_id d bo no sz ty vo fo so)
    (Hinv : inv rsp0 m0 B (block_state s) m [(Reg (Rq c), V.I32 idx)] own vs)
    (Hplain : plain (bs_stack (block_state s))) (Hfresh : Rq c ∉ regs_of (bs_stack (block_state s)))
    (Hown : (length own ≤ 5)%nat) (Hvs : zlen vs < 190) :
  let element := read_mm m0 W64 (d + bo) + (idx mod 2 ^ 32 * sz) mod 2 ^ 32 in
  let ok := idx mod 2 ^ 32 < read_mm m0 W32 (d + no) ∧ read_mm m0 W32 (element + ty) = read_mm m0 W32 (gpr m0 VMCTX + so) in
  (read_mm m0 W32 (d + no) * sz ≤ 2 ^ 32 → idx mod 2 ^ 32 < read_mm m0 W32 (d + no) → 0 < sz →
     element = read_mm m0 W64 (d + bo) + idx mod 2 ^ 32 * sz) ∧
  ∃ s' items, call_element type_id (Rq c) s = Ret (s', tt) ∧ code s' = code s ++ items ∧
    (ok ∧ (∃ m', exec la None items m = Some (CallsAddr (read_mm m0 W64 (element + fo)) m') ∧
       gpr m' VMCTX = read_mm m0 W64 (element + vo) ∧ Forall2 (holds rsp0 m') (bs_stack (block_state s')) vs ∧
       ∀ a, ¬ (rsp0 - 2 ^ 19 ≤ a < rsp0 - 8) → mm m' a = mm m0 a) ∨
     ¬ ok ∧ ∃ l m', exec la None items m = Some (Goto l m') ∧ trap_of s' = Some l ∧ kept rsp0 m0 m').
Proof.
  intros element ok. set (u := idx mod 2 ^ 32) in *. assert (0 ≤ u < 2 ^ 32) as Hu by (apply Z.mod_pos_bound; lia).
  split; [intros ???; unfold element; rewrite (Z.mod_small (u * sz)) by nia; done|].
  destruct (wpx_check_element rsp0 m0 Hrsp0 la type_id d bo no sz ty vo fo so Ht B _ m own vs c idx None
    (λ r b' m' o, ∃ t0 t1, r = (Rq t0, Rq t1) ∧ checked_element rsp0 m0 d bo no sz ty so c t0 t1 u B own vs b' m' o)
    Hinv Hplain Hfresh Hown Hvs ltac:(intros; by eexists _, _) s eq_refl ltac:(done))
    as (s1 & ? & ins & ls & m1 & o & E1 & C1 & L1 & R1 & t0 & t1 & -> & Hi1 & Ho).
  destruct (tw_vmctx _ _ _ _ _ _ _ _ _ _ _ Ht) as [Evo Hvo]. destruct (tw_func _ _ _ _ _ _ _ _ _ _ _ Ht) as [Efo Hfo].
  set (i1 := MOV W64 (OReg VMCTX) (Src (OMem (Addr t0 (Some c) vo)))). set (i2 := CALL (OMem (Addr t0 (Some c) fo))).
  destruct (release_two rsp0 m0 Hrsp0 la _ _ _ _ _ _ _ _ _ _
    (mkCtx ((code s1 ++ [Ins i1]) ++ [Ins i2]) (labels s1) (next_label s1) (relocs s1) (func_starts s1) (block_state s1))
    Hi1 eq_refl) as (s' & E' & C' & L' & B').
  exists s', (map Ins ins ++ map Ins [i1; i2]). split.
  { unfold call_element, mbind, M_bind in *. rewrite E1. cbn. rewrite Evo. cbn. rewrite Efo. cbn. exact E'. }
  split; [rewrite C', C1; cbn; by rewrite <-!app_assoc|]. destruct o as [[l mt]|]; cbn [runs] in R1.
  - right. destruct Ho as [Hn Hk]. split; [done|]. destruct R1 as [R1 Tl]. exists l, mt. split_and!; [by apply exec_goto| |done].
    eapply trap_of_more; [|exact Tl]. rewrite L'. by rewrite app_nil_r.
  - left. split; [exact Ho|]. destruct Ho as [Hlt Hsig].
    rewrite (exec_app _ _ _ _ _ _ R1). cbn [map exec exec1 i1 i2]. set (m2 := write_op la m1 W64 (OReg VMCTX) _).
    assert (∀ r x, (Reg (Rq r), x) ∈ [(Reg (Rq t0), word (read_mm m0 W64 (d + bo))); (Reg (Rq c), word (u * sz mod 2 ^ 32))] →
      gpr m2 r = gpr m1 r) as Hr.
    { intros r x Hr. apply (upd_gpr VMCTX (fl m1) m1 m2); [apply upd_with_gpr|]. intros ->. apply vmctx_not_scratch.
      eapply (inv_scratch rsp0 m0 Hrsp0); [exact Hi1|]. apply elem_of_app. right. apply elem_of_app. left. apply elem_of_regs_of.
      cbn [map fst]. right. by apply (list_elem_of_fmap_2 fst) in Hr. }
    assert (∀ mi o, gpr mi t0 = gpr m1 t0 → gpr mi c = gpr m1 c → mm mi = mm m1 → 0 ≤ o < 2 ^ 8 →
      read_mm mi W64 (ea la mi (Addr t0 (Some c) o)) = read_mm m0 W64 (element + o)) as Hread.
    { intros mi o Et Ec Em Ho. destruct (element_in_table rsp0 m0 Hrsp0 _ _ _ _ _ _ _ _ _ Ht u W64 o) as [_ Hout]; [split; [apply Hu|exact Hlt]|done|].
      assert (ea la mi (Addr t0 (Some c) o) = element + o) as ->.
      { eapply (element_address rsp0 m0 Hrsp0 la _ _ _ _ _ _ _ _ _ Ht); [exact Hi1|set_solver|set_solver|done|done| |done].
        split; [apply Hu|exact Hlt]. }
      unfold read_mm in *. rewrite Em. by eapply (kept_read rsp0 m0 Hrsp0 _ _ _ _ _ _ W64 _ Hi1). }
    exists m2. split_and!.
    + f_equal. f_equal. cbn [read_op]. apply Hread; [eapply Hr; left|eapply Hr; right; left|done|done].
    + unfold m2, write_op, write_gpr. rewrite gpr_with_gpr. cbn [read_src read_op]. rewrite Hread by done.
      apply Z.mod_small. apply Z.mod_pos_bound. lia.
    + rewrite B'. by eapply (holds_new_context rsp0 m0 Hrsp0).
    + intros a Ha. apply (inv_kept _ _ _ _ _ _ _ _ Hi1). done.
Qed.

(** The table of an instance has one element: its function is at 0x3000, with the context
    0x4000.  The index is the second argument. *)
Lemma fixture_table rsi rdx :
  table_with (H0 := environment_offsets fx_fe) (2 ^ 30 + 8) (sandbox_machine rsi rdx sandbox_mem) 0 (0x1000 + 20) 0 8 24 8 16 0 0.
Proof.
  split; [split|..]; unfold outside; cbn; try lia.
  all: try (split; [reflexivity|lia]).
  { exists 20. split; [reflexivity|lia]. }
  assert (read_mm (sandbox_machine rsi rdx sandbox_mem) W32 (4096 + 20 + 8) = 1) as -> by (vm_compute; reflexivity).
  assert (read_mm (sandbox_machine rsi rdx sandbox_mem) W64 (4096 + 20 + 0) = 0x2000) as -> by (vm_compute; reflexivity). lia.
Qed.

Lemma indirect_calls_checked_witness :
  ∃ s s' items m', (_ ← start_function [TInt _32; TInt _32]; pop) sandbox_ctx = Ret (s, Reg RDX) ∧
    call_element (H := environment_offsets fx_fe) 0 RDX s = Ret (s', tt) ∧ code s' = code s ++ items ∧
    exec (H := sandbox_sse) (λ _, 0) None items (sandbox_machine 1 0 sandbox_mem) = Some (CallsAddr 0x3000 m') ∧ gpr m' VMCTX = 0x4000.
Proof.
  destruct (sandbox_started sandbox_mem 1 0) as (s & E & Hi & Hp & Es); [lia|lia|].
  set (m := sandbox_machine 1 0 sandbox_mem) in *.
  assert (wp (H := sandbox_sse) (λ _, 0) pop (block_state s) m (λ x b' _, x = Reg RDX ∧ bs_stack b' = [Reg RSI] ∧
    inv (2 ^ 30 + 8) m 3 b' m [(Reg RDX, V.I32 0)] [] [V.I32 1])) as Hw.
  { apply (wp_pop (2 ^ 30 + 8) m ltac:(lia) (λ _, 0) 3 _ _ [] [] [V.I32 1] (V.I32 0)); [exact Hi|]. intros l x El Hi'.
    rewrite Es in El. change [Reg RSI; Reg RDX] with ([Reg RSI] ++ [Reg RDX]) in El.
    apply app_inj_tail in El as [<- <-]. by split_and!. }
  destruct (Hw s eq_refl) as (s1 & x & items & m' & E1 & _ & _ & -> & Es1 & Hi1).
  destruct (indirect_calls_checked (H := sandbox_sse) (H0 := environment_offsets fx_fe) (λ _, 0) (2 ^ 30 + 8) 0 (0x1000 + 20) 0 8 24 8 16 0 0 3 0 2 m m [] [V.I32 1] s1)
    as (_ & s' & its & E' & Ec & Hr).
  - lia.
  - apply fixture_table.
  - exact Hi1.
  - rewrite Es1. by repeat constructor.
  - rewrite Es1. apply (bool_decide_unpack _). by vm_compute.
  - cbn. lia.
  - vm_compute. reflexivity.
  - exists s1, s', its. destruct Hr as [[_ (m'' & Ex & Ev & _)]|[Hn _]].
    + exists m''. split_and!; [|exact E'|exact Ec| |].
      * unfold mbind, M_bind. rewrite E. exact E1.
      * rewrite Ex. vm_compute. reflexivity.
      * rewrite Ev. vm_compute. reflexivity.
    + exfalso. apply Hn. split; vm_compute; reflexivity.
Defined.
