(* ===== verification/LightbeamTheorems.v ===== *)
(** * Lightbeam: straight-line functions

    A function whose body is a sequence of integer operators, compiled and run: what
    the operators mean, the translation of the body, and the return of the result. *)

From S2P Require Import Prelude Microwasm MicrowasmTyping MicrowasmProofs X64 LightbeamRegs LightbeamOwns.
From S2P Require Import Lightbeam LightbeamOps LightbeamMemory LightbeamBlocks LightbeamInts LightbeamConversions HostFloats LightbeamTranslate LightbeamInv LightbeamMoves LightbeamArith LightbeamStack LightbeamReturn.
Import V(Value) Op(Operator) registers.
Local Open Scope Z_scope.

(** ** What the operators mean *)

#[export] Instance value_ok_dec v : Decision (value_ok v).
Proof. destruct v; apply _. Defined.

Definition pop_int (z : Size) (vs : list Value) : option (list Value * Z) :=
  '(vs, v) ← vec_pop vs; a ← as_of z v; Some (vs, a).
Definition eval_bin (z : Size) (f : Z → Z → Value) (vs : list Value) : option (list Value) :=
  '(vs, c) ← pop_int z vs; '(vs, a) ← pop_int z vs; Some (vs ++ [f a c]).
Definition of_bool (b : bool) : Value := V.I32 (Z.b2z b).
Definition eval_cmp (z : Size) (f : Z → Z → bool) : list Value → option (list Value) :=
  eval_bin z (λ a c, of_bool (f a c)).
(** A comparison of integers as WebAssembly has it, signed or unsigned. *)
Definition by_sign (s : Signedness) (z : Size) (f : Z → Z → bool) (a c : Z) : bool :=
  match s with Signed => f a c | Unsigned => f (a mod 2 ^ size_bits z) (c mod 2 ^ size_bits z) end.

Section straight.
Context {L : Type} `{!EqDecision L} `{!CodegenEnv} (func_idx : Z).

(** The operators with their values; the others are not part of what follows. *)
Definition eval_op (vs : list Value) (op : @Operator L) : option (list Value) :=
  match op with
  | Op.Pick d => res_option (ctx_pick vs d)
  | Op.Swap d => res_option (ctx_swap vs d)
  | Op.Drop r => res_option (ctx_drop vs r)
  | Op.Const v => Some (vs ++ [v])
  | Op.Add (TInt z) => eval_bin z (λ a c, value_of z (wrap_s (size_bits z) (a + c))) vs
  | Op.Sub (TInt z) => eval_bin z (λ a c, value_of z (wrap_s (size_bits z) (a - c))) vs
  | Op.Mul (TInt z) => eval_bin z (λ a c, value_of z (wrap_s (size_bits z) (a * c))) vs
  | Op.And z => eval_bin z (λ a c, value_of z (Z.land a c)) vs
  | Op.Or z => eval_bin z (λ a c, value_of z (Z.lor a c)) vs
  | Op.Xor z => eval_bin z (λ a c, value_of z (Z.lxor a c)) vs
  | Op.Eqz z => '(vs, a) ← pop_int z vs; Some (vs ++ [of_bool (a =? 0)])
  | Op.Eq (TInt z) => eval_cmp z Z.eqb vs
  | Op.Ne (TInt z) => eval_cmp z (λ a c, negb (a =? c)) vs
  | Op.Lt (TInt (mkSignfulInt s z)) => eval_cmp z (by_sign s z Z.ltb) vs
  | Op.Le (TInt (mkSignfulInt s z)) => eval_cmp z (by_sign s z Z.leb) vs
  | Op.Gt (TInt (mkSignfulInt s z)) => eval_cmp z (by_sign s z Z.gtb) vs
  | Op.Ge (TInt (mkSignfulInt s z)) => eval_cmp z (by_sign s z Z.geb) vs
  | _ => None
  end.
Fixpoint eval_ops (vs : list Value) (ops : list (@Operator L)) : option (list Value) :=
  match ops with [] => Some vs | op :: ops => vs ← eval_op vs op; eval_ops vs ops end.

(** Whether the result of a comparison may still be in the flags.  Nothing may be moved
    over it then: [pick] and [swap] do not put it in a register first. *)
Definition flag_after (flagged : bool) (op : @Operator L) : option bool :=
  match op with
  | Op.Pick _ | Op.Swap _ => if flagged then None else Some false
  | Op.Drop r => Some (flagged && negb ((r.1 =? 0) && (0 <=? r.2)))
  | Op.Const v => if decide (value_ok v) then Some false else None
  | Op.Add (TInt _) | Op.Sub (TInt _) | Op.And _ | Op.Or _ | Op.Xor _ => Some false
  | Op.Eqz _ | Op.Eq (TInt _32) | Op.Ne (TInt _32) | Op.Lt (TInt (mkSignfulInt _ _32))
  | Op.Le (TInt (mkSignfulInt _ _32)) | Op.Gt (TInt (mkSignfulInt _ _32)) | Op.Ge (TInt (mkSignfulInt _ _32)) => Some true
  | _ => None
  end.
Fixpoint flag_safe (flagged : bool) (ops : list (@Operator L)) : bool :=
  match ops with
  | [] => true
  | op :: ops => match flag_after flagged op with Some f => flag_safe f ops | None => false end
  end.

Lemma pop_int_inv z vs vs' a : pop_int z vs = Some (vs', a) → vs = vs' ++ [value_of z a].
Proof.
  unfold pop_int. destruct vs as [|v vs _] using rev_ind; [done|]. rewrite vec_pop_snoc. cbn.
  destruct z, v; cbn; intros; by simplify_eq.
Qed.
Lemma eval_bin_inv z f vs vs' :
  eval_bin z f vs = Some vs' → ∃ vs0 a c, vs = vs0 ++ [value_of z a; value_of z c] ∧ vs' = vs0 ++ [f a c].
Proof.
  unfold eval_bin. destruct (pop_int z vs) as [[vs1 c]|] eqn:E1; [|done]. cbn.
  destruct (pop_int z vs1) as [[vs2 a]|] eqn:E2; [|done]. cbn. intros [= <-].
  apply pop_int_inv in E1, E2. subst. exists vs2, a, c. by rewrite <-app_assoc.
Qed.
Lemma res_option_Some {A} (r : res A) x : res_option r = Some x → r = Ret x.
Proof. destruct r; cbn; intros; by simplify_eq. Qed.

(** ** An operator *)

Definition flags_ok (flagged : bool) (l : list ValueLocation) : Prop :=
  if flagged then flags_on_top l else plain l.
Lemma flags_ok_top f l : flags_ok f l → flags_on_top l.
Proof. destruct f; [done|apply plain_on_top]. Qed.

Context (rsp0 : Z) (m0 : machine) (Hrsp0 : 2 ^ 20 ≤ rsp0 < 2 ^ 63) `{Sse} (la : Z → Z).
Notation inv := (inv rsp0 m0).
Notation wp := (wp la).

(** What an operator leaves: the values that it is to leave. *)
Definition leaves B vs f (Q : unit → BlockState → machine → Prop) : Prop :=
  ∀ b m, inv (B + 2) b m [] [] vs → flags_ok f (bs_stack b) → Q tt b m.

Lemma leaves_one B vs f Q b m :
  leaves B vs f Q → B + 2 ≤ 2 ^ 16 → inv (B + 1) b m [] [] vs → flags_ok f (bs_stack b) → Q tt b m.
Proof. intros HQ HB Hi Hf. apply HQ; [|done]. eapply inv_mono; [done|done|]. lia. Qed.
Lemma leaves_same B vs f Q b m :
  leaves B vs f Q → B + 2 ≤ 2 ^ 16 → inv B b m [] [] vs → flags_ok f (bs_stack b) → Q tt b m.
Proof. intros HQ HB Hi Hf. apply HQ; [|done]. eapply inv_mono; [done|done|]. lia. Qed.

Section operator.
Context (B : Z) (b : BlockState) (m : machine) (vs vs' : list Value) (flagged : bool)
  (Hi : inv B b m [] [] vs) (Hf : flags_ok flagged (bs_stack b)) (HB : B + 200 ≤ 2 ^ 16) (Hsm : zlen vs < 190).

Lemma step_binop op z f g mo Q :
  computes op z f → maps_operands mo f → (∀ a c, g a c = value_of z (f a c)) →
  eval_bin z g vs = Some vs' → leaves B vs' false Q → wp (binop (int_kind op z) f mo) b m Q.
Proof using Hi Hf HB Hsm Hrsp0.
  intros Hop Hmo Hg (vs0 & a & c & -> & ->)%eval_bin_inv HQ. rewrite zlen_app in Hsm.
  eapply wp_binop; [done..|by eapply flags_ok_top|lia|change (zlen [_; _]) with 2 in Hsm; lia|].
  intros b' m' Hi' Hp. eapply leaves_one; [done|lia| |done]. by rewrite Hg.
Qed.

Lemma step_cmp fl rev f g Q :
  compares _32 fl rev f → (∀ a c, g a c = f a c) →
  eval_cmp _32 g vs = Some vs' → leaves B vs' true Q → wp (cmp_i32 fl rev f) b m Q.
Proof using Hi Hf HB Hsm Hrsp0.
  intros Hc Hg (vs0 & a & c & -> & ->)%eval_bin_inv HQ. rewrite zlen_app in Hsm. change (zlen [_; _]) with 2 in Hsm.
  pose proof (inv_values _ _ _ _ _ _ _ _ Hi) as [HF _]. apply Forall_app in HF as [_ HF].
  apply Forall_cons in HF as [Ha HF]. apply Forall_cons in HF as [Hv _].
  eapply (wp_cmp_i32 rsp0 m0 Hrsp0 la _ _ _ Hc B vs0 a c); [lia|lia| |by apply (value_ok_int _32)..|done|by eapply flags_ok_top].
  intros b' m' Hi' Hp. eapply leaves_one; [done|lia| |done]. by rewrite Hg.
Qed.

Lemma step_eqz z Q :
  eval_op vs (Op.Eqz z) = Some vs' → leaves B vs' true Q → wp (int_eqz z) b m Q.
Proof using Hi Hf HB Hsm Hrsp0.
  cbn. destruct (pop_int z vs) as [[vs0 a]|] eqn:E; [|done]. cbn. intros [= <-] HQ. apply pop_int_inv in E. subst vs.
  rewrite zlen_app in Hsm. change (zlen [_]) with 1 in Hsm.
  eapply wp_eqz; [done|done|by eapply flags_ok_top|lia|lia|]. intros b' m' Hi' Hp. eapply leaves_one; [done|lia|done|done].
Qed.

Lemma step_move op f Q :
  match op with Op.Pick _ | Op.Swap _ | Op.Drop _ | Op.Const _ => True | _ => False end →
  flag_after flagged op = Some f → eval_op vs op = Some vs' → leaves B vs' f Q → wp (gen_op func_idx op) b m Q.
Proof using Hi Hf HB Hsm Hrsp0.
  intros Hop Hfl E HQ. pose proof (flags_ok_top _ _ Hf) as Htop.
  destruct op; try done; cbn [gen_op flag_after eval_op] in *.
  - apply res_option_Some in E. injection Hfl as <-. eapply wp_drop; [done|done|done|lia|done|].
    intros b' m' Hi' Ht Hp. eapply leaves_same; [done|lia|done|].
    destruct flagged; cbn [andb flags_ok] in *; [|by apply Hp; left].
    destruct (_ && _) eqn:E2; cbn [negb flags_ok]; [|done]. apply Hp. right.
    apply andb_true_iff in E2 as [?%Z.eqb_eq ?%Z.leb_le]. done.
  - apply res_option_Some in E. destruct flagged; [done|]. injection Hfl as <-.
    eapply wp_pick; [done|done|done|lia|lia|done|]. intros b' m' Hi' Hp. eapply leaves_one; [done|lia|done|done].
  - apply res_option_Some in E. destruct flagged; [done|]. injection Hfl as <-.
    eapply wp_swap; [done|done|done|lia|done|]. intros b' m' Hi' Hp. eapply leaves_same; [done|lia|done|done].
  - case_decide as Hv; [|done]. injection Hfl as <-. injection E as <-.
    eapply wp_const; [done|done|done|done|lia|lia|]. intros b' m' Hi' Hp. by apply HQ.
Qed.

Lemma step_op op f Q :
  flag_after flagged op = Some f → eval_op vs op = Some vs' → leaves B vs' f Q → wp (gen_op func_idx op) b m Q.
Proof using Hi Hf HB Hsm Hrsp0.
  intros Hfl E HQ.
  destruct op; cbn [flag_after] in Hfl; try done; try (by eapply step_move).
  all: try match type of Hfl with context [match ?t with _ => _ end] => is_var t; destruct t as [z|]; [|done] end.
  all: try match type of Hfl with context [match ?t with _ => _ end] => is_var t; destruct t as [s z]  end.
  all: try match type of Hfl with context [match ?t with _ => _ end] => is_var t; destruct t; [|done] end.
  all: injection Hfl as <-; cbn [gen_op eval_op] in *.
  all: try match goal with s : Signedness |- _ => destruct s; cbn [is_signed] end.
  all: try (eapply step_cmp; [|  |exact E|exact HQ]; [|done]; intros a c;
    cbv [condition unsigned cc.EQUAL cc.NOT_EQUAL cc.GE_U cc.LT_U cc.GT_U cc.LE_U cc.GE_S cc.LT_S cc.GT_S cc.LE_S];
    split; lia).
  all: try (eapply step_binop; [| | |exact E|exact HQ]; [| |done]).
  all: try (by eapply step_eqz).
  all: first [apply computes_add|apply computes_sub|apply computes_and|apply computes_or|apply computes_xor
    |apply maps_id|apply maps_commutative; intros x y; unfold wrapping; first [by rewrite Z.add_comm|apply Z.land_comm|apply Z.lor_comm|apply Z.lxor_comm]].
Qed.
End operator.

(** ** The body *)

Lemma eval_op_len vs op vs' f f' : eval_op vs op = Some vs' → flag_after f op = Some f' → zlen vs < 2 ^ 32 → zlen vs' ≤ zlen vs + 1.
Proof.
  assert (∀ z g, eval_bin z g vs = Some vs' → zlen vs' ≤ zlen vs + 1) as Hbin.
  { intros z g (vs0 & a & c & -> & ->)%eval_bin_inv. rewrite !zlen_app. change (zlen [_; _]) with 2. change (zlen [_]) with 1. lia. }
  intros E Hfl Hlen. destruct op; cbn [eval_op flag_after] in *; try done;
    repeat match type of E with match ?t with _ => _ end = _ => is_var t; destruct t; try done end;
    try (by eapply Hbin).
  - apply res_option_Some, ctx_drop_inv in E as (? & ? & ? & -> & -> & _). rewrite !zlen_app.
    pose proof (zlen_nonneg x0). lia.
  - apply res_option_Some, ctx_pick_inv in E as (? & -> & _). rewrite zlen_app. change (zlen [_]) with 1. lia.
  - apply res_option_Some in E. assert (Forall2 (λ _ _, True) vs vs) as HF by (apply Forall_Forall2_diag, Forall_true; done).
    destruct (ctx_swap_rel _ _ _ _ _ HF ltac:(lia) E) as (_ & _ & _ & _ & Hp). unfold zlen. rewrite Hp. lia.
  - injection E as <-. rewrite zlen_app. change (zlen [_]) with 1. lia.
  - destruct (pop_int ty vs) as [[vs0 a]|] eqn:Ep; [|done]. cbn in E. injection E as <-. apply pop_int_inv in Ep. subst vs.
    rewrite !zlen_app. change (zlen [_]) with 1. lia.
Qed.

Definition starts_plain (body : list (@Operator L)) : Prop :=
  match body with Op.Label_ _ :: _ => False | _ => True end.
Lemma safe_starts_plain f ops rest : flag_safe f ops = true → starts_plain rest → starts_plain (ops ++ rest).
Proof. destruct ops as [|[] ops]; cbn; try done. Qed.

(** A turn of the loop. *)
Lemma step_translate bs op f f' body B b m vs (Q : (Blocks * list (@Operator L)) → BlockState → machine → Prop) :
  flag_after f op = Some f' → starts_plain body → inv B b m [] [] vs →
  wp (gen_op func_idx op) b m (λ _, Q (bs, body)) → wp (translate_step func_idx bs op body) b m Q.
Proof using Hrsp0.
  intros Hf Hb Hi HQ. unfold translate_step. apply wp_bind.
  assert (wp (_ ← assertions bs op; _ ← gen_op func_idx op; ret (bs, body)) b m Q) as Hgen.
  { apply wp_bind. eapply (wp_assertions rsp0 m0 Hrsp0); [done|by intros l ->|]. apply wp_bind.
    eapply wp_mono; [exact HQ|]. intros. by apply wp_ret. }
  destruct body as [|[] body]; try done; apply wp_ret; destruct op; try done; exact Hgen.
Qed.

Lemma translate_ops bs rest Q : starts_plain rest → ∀ ops B b m vs f vs',
  flag_safe f ops = true → eval_ops vs ops = Some vs' → inv B b m [] [] vs → flags_ok f (bs_stack b) →
  zlen vs + zlen ops < 190 → B + 200 + 2 * zlen ops ≤ 2 ^ 16 →
  (∀ B' b' m', inv B' b' m' [] [] vs' → zlen vs' < 190 → wpr la (translate_loop func_idx (length rest) bs rest) b' m' Q) →
  wpr la (translate_loop func_idx (length (ops ++ rest)) bs (ops ++ rest)) b m Q.
Proof using Hrsp0.
  intros Hrest ops. induction ops as [|op ops IH]; intros B b m vs f vs' Hs E Hi Hf Hn HB HQ.
  { injection E as <-. eapply HQ; [done|]. change (zlen []) with 0 in Hn. lia. }
  cbn [flag_safe eval_ops] in *. rewrite zlen_cons in Hn, HB. pose proof (zlen_nonneg ops). pose proof (zlen_nonneg vs).
  destruct (flag_after f op) as [f'|] eqn:Hfl; [|done]. destruct (eval_op vs op) as [vs1|] eqn:E1; [|done]. cbn in E.
  pose proof (eval_op_len _ _ _ _ _ E1 Hfl ltac:(lia)).
  cbn [app length translate_loop]. apply wpr_bind. eapply step_translate; [done|by eapply safe_starts_plain|done|].
  eapply step_op; [done|done|lia|lia|done|done|]. intros b' m' Hi' Hf'.
  eapply (IH (B + 2)); [done|done|done|done|lia|lia|done].
Qed.

(** The last operator. *)
Lemma translate_return B b m vs v locs :
  inv B b m [] [] (vs ++ [v]) → zlen vs < 190 → locs = [CReg RAX] →
  wpr la (translate_loop (L:=L) func_idx 1
    [(Return, mkBlock Return (Some (inl (function_start locs))) 1 false None 0 false)] [Op.Br Return]) b m
    (λ _, returns rsp0 m0 v).
Proof using Hrsp0.
  intros Hi Hvs ->. cbn [translate_loop]. apply wpr_then.
  unfold translate_step. apply wpr_bind, wp_ret, wpr_bind.
  eapply (wp_assertions rsp0 m0 Hrsp0); [done|done|]. apply wpr_then.
  unfold translate_br. apply wpr_bind. eapply wp_lift; [reflexivity|]. apply wpr_bind. eapply wp_lift; [reflexivity|].
  cbn [blk_label blk_cc]. apply wpr_bind. eapply wp_pass_to_caller; [done|done|done|]. intros b' m' Hret.
  apply wpr_then, wpr_ret. eexists. split; [done|]. eexists. split; [done|]. eexists. by split.
Qed.
End straight.

(** ** Functions *)

Lemma straight_line_body {L : Type} `{!EqDecision L} `{!CodegenEnv} (func_idx : Z) `{Sse} (la : Z → Z)
    (params : list SignlessType) (locs : list CCLoc) (z : Size) (ops : list (@Operator L))
    (vs ws : list Value) (a : Z) (m : machine) (s : ctx)
    (Hlocs : arg_locs params = Ret locs)
    (Hsp : 2 ^ 20 ≤ gpr m RSP_ + 8 < 2 ^ 63)
    (Hargs : Forall2 (holds (gpr m RSP_ + 8) m) (map ValueLocation_from locs) vs)
    (Hvs : Forall value_ok vs)
    (Hsafe : flag_safe false ops = true)
    (Heval : eval_ops vs ops = Some (ws ++ [value_of z a]))
    (Hsize : zlen params + zlen ops < 180) :
  ∃ s' items m',
    translate func_idx params [TInt z] (ops ++ [Op.Br Return]) s = Ret (s', tt) ∧
    code s' = code s ++ items ∧ exec la None items m = Some (Returned m') ∧
    rep (value_of z a) (gpr m' 0) ∧ gpr m' RSP_ = gpr m RSP_ ∧
    (∀ r, Rq r ∉ SCRATCH_REGS → gpr m' r = gpr m r) ∧
    (∀ x, ¬ (gpr m RSP_ + 8 - 2 ^ 19 ≤ x < gpr m RSP_) → mm m' x = mm m x).
Proof.
  assert (zlen vs = zlen params) as Elen.
  { pose proof (Forall2_length _ _ _ Hargs) as E1. rewrite length_map, (arg_locs_length _ _ _ _ _ Hlocs) in E1.
    unfold zlen. by rewrite E1. }
  pose proof (zlen_nonneg params). pose proof (zlen_nonneg ops).
  assert (wpr la (translate func_idx params [TInt z] (ops ++ [Op.Br Return])) (block_state s) m
    (λ _, returns (gpr m RSP_ + 8) m (value_of z a))) as Hw.
  { apply wpr_bind. eapply wp_start_function; [done|done|lia|done|done|]. intros b' Hi Hp.
    apply wpr_bind. eapply wp_lift; [reflexivity|].
    eapply (translate_ops func_idx (gpr m RSP_ + 8) m Hsp la _ [Op.Br Return]); [done|done|done|exact Hi|exact Hp|lia|lia|].
    intros B' b'' m'' Hi' Hlen. rewrite zlen_app in Hlen. pose proof (zlen_nonneg [value_of z a]).
    eapply translate_return; [done|exact Hi'|lia|done]. }
  destruct (Hw s eq_refl) as (s' & [] & items & m' & E & Ec & Ex & [Hv Hr [Hk1 Hk2]]).
  exists s', items, m'. split_and!; try done; [lia| |].
  - intros r Hns. destruct (decide (r = RSP_)) as [->|]; [lia|by apply Hk1].
  - intros x Hx. apply Hk2. lia.
Qed.

(** C6: a straight-line function of a fragment of Microwasm computes its result.  For every
    body of constants, [pick], [swap], [drop], 32- and 64-bit [add], [sub], [and], [or],
    [xor] and [eqz], and the comparisons of 32 bits, that moves nothing over a result that
    is still in the flags, leaves an integer on top and has, with the parameters, fewer
    than 180 operators: [translate] succeeds, its checks of the counts of uses included,
    and the code that it emits, run with the arguments in the places of the calling
    convention, returns with that integer in [rax], with the stack pointer as it was, and
    with every register that is not a scratch register and all memory but the function's
    own part of the stack unchanged, also when registers had to be spilled.
    (Multiplication, division, remainder, shifts, rotations, counts of bits and the
    comparisons of 64 bits are not in the fragment: the code for a multiplication is not
    always right after a spill.) *)
Theorem straight_line_function {L : Type} `{!EqDecision L} `{!CodegenEnv} (func_idx : Z) `{Sse} (la : Z → Z)
    (params : list SignlessType) (locs : list CCLoc) (z : Size) (ops : list (@Operator L))
    (vs ws : list Value) (a : Z) (m : machine) (s : ctx)
    (Hlocs : arg_locs params = Ret locs)
    (Hsp : 2 ^ 20 ≤ gpr m RSP_ + 8 < 2 ^ 63)
    (Hargs : Forall2 (holds (gpr m RSP_ + 8) m) (map ValueLocation_from locs) vs)
    (Hvs : Forall value_ok vs)
    (Hsafe : flag_safe false ops = true)
    (Heval : eval_ops vs ops = Some (ws ++ [value_of z a]))
    (Hsize : zlen params + zlen ops < 180) :
  ∃ s' items m',
    translate func_idx params [TInt z] (ops ++ [Op.Br Return]) s = Ret (s', tt) ∧
    code s' = code s ++ items ∧ exec la None items m = Some (Returned m') ∧
    rep (value_of z a) (gpr m' 0) ∧ gpr m' RSP_ = gpr m RSP_ ∧
    (∀ r, Rq r ∉ SCRATCH_REGS → gpr m' r = gpr m r) ∧
    (∀ x, ¬ (gpr m RSP_ + 8 - 2 ^ 19 ≤ x < gpr m RSP_) → mm m' x = mm m x).
Proof. by eapply straight_line_body. Qed.

(** ** Examples *)

(** No float operation is executed here. *)
#[local] Instance example_sse : Sse :=
  Build_Sse (λ _ _ _, 0) (λ _ _ _, no_flags) (λ _ _ _, 0) (λ _ _ _ _, 0).
#[local] Instance example_types : ModuleContext := Build_ModuleContext (λ _, Ret ([], [])) (λ _, Ret ([], [])) (λ _, Panic).
#[local] Instance example_offsets : ModuleOffsets :=
  Build_ModuleOffsets Some Some Ret Ret (Ret 0) (Ret 8) Some Ret Ret Some Ret Ret (Ret 0) (Ret 8) Ret (Ret 8) (Ret 0) (Ret 16) (Ret 24) Ret Ret.
#[local] Instance example_env : CodegenEnv :=
  Build_CodegenEnv example_types example_offsets true (Build_HostFloat (λ a _, a) (λ _ _, true)) W32.
Definition example_ctx : ctx := mkCtx [] [] 0 [] [] (mkBlockState [] 0 (mkRegisters (0, []) (0, []))).
(** The registers given, and the stack pointer at 2^30. *)
Definition example_machine (regs : list (Z * Z)) (mem : Store.mem) : machine :=
  mkMachine (λ r, match list_find (λ p, p.1 = r) regs with Some (_, p) => p.2 | None => if r =? RSP_ then 2 ^ 30 else 0 end)
    (λ _, 0) no_flags mem.
(** The 32-bit integer that the code emitted for a body returns. *)
Definition run_function (params : list SignlessType) (ops : list (@Operator Z)) (m : machine) : option Z :=
  match translate 0 params [TInt _32] (ops ++ [Op.Br Return]) example_ctx with
  | Ret (s, _) =>
      match exec (λ _, 0) None (code s) m with Some (Returned m) => Some (gpr m 0 mod 2 ^ 32) | _ => None end
  | Panic => None
  end.

Definition less_than : list (@Operator Z) :=
  [Op.Pick 1; Op.Pick 1; Op.Lt SI32; Op.Const (V.I32 5); Op.Add (TInt _32); Op.Drop (1, 2)].

Lemma straight_line_function_witness :
  ∃ s' items m', translate 0 [TInt _32; TInt _32] [TInt _32] (less_than ++ [Op.Br Return]) example_ctx = Ret (s', tt) ∧
    code s' = items ∧
    exec (λ _, 0) None items (example_machine [(6, 1); (2, 2)] (λ _, 0)) = Some (Returned m') ∧
    rep (V.I32 6) (gpr m' 0).
Proof.
  destruct (straight_line_function 0 (λ _, 0) [TInt _32; TInt _32] [CReg RSI; CReg RDX] _32 less_than
    [V.I32 1; V.I32 2] [] 6 (example_machine [(6, 1); (2, 2)] (λ _, 0)) example_ctx) as (s' & items & m' & E & Ec & Ex & Hv & _).
  - reflexivity.
  - vm_compute. split; discriminate || reflexivity.
  - repeat constructor.
  - repeat constructor; cbn; discriminate || reflexivity.
  - reflexivity.
  - reflexivity.
  - reflexivity.
  - exists s', items, m'. split; [exact E|]. split; [exact Ec|]. split; [exact Ex|exact Hv].
Defined.

(** A comparison that is lost.  In the body for [(x < y) + (z + w)], the operands of the
    inner sum are picked over the result of the comparison, which is in the flags; the
    inner addition overwrites them before the outer one reads them.  With 1, 2, 10 and
    20 as arguments the sum is 31, and the code returns 30. *)
Lemma comparison_lost :
  let body := [Op.Pick 3; Op.Pick 3; Op.Lt SI32; Op.Pick 2; Op.Pick 2; Op.Add (TInt _32); Op.Add (TInt _32); Op.Drop (1, 4)] in
  flag_safe false body = false ∧
  eval_ops [V.I32 1; V.I32 2; V.I32 10; V.I32 20] body = Some [V.I32 31] ∧
  run_function (replicate 4 (TInt _32)) body (example_machine [(6, 1); (2, 2); (1, 10); (8, 20)] (λ _, 0)) = Some 30.
Proof. vm_compute. done. Qed.

(** A product that reads the return address.  With a register for each of eight
    values and the two factors on the stack, [mul] computes the offset of one factor and
    then spills a register, which moves the stack pointer; the instruction reads the
    slot below.  For the factors 6 and 7, and a return address of 1000, the code returns
    7000. *)
Lemma multiplication_after_spill :
  let add := [Op.Pick 6; Op.Pick 6; Op.Add (TInt _32)] in
  let body := add ++ add ++ add ++ [Op.Pick 4; Op.Pick 4; Op.Mul (TInt _32); Op.Drop (1, 10)] in
  let sp := 2 ^ 30 in
  let mem := Store.store_le (Store.store_le (Store.store_le (λ _, 0) sp 8 1000) (sp + 8) 8 6) (sp + 16) 8 7 in
  let m := example_machine [(6, 1); (2, 2); (1, 3); (8, 4); (9, 5)] mem in
  eval_ops (map V.I32 [1; 2; 3; 4; 5; 6; 7]) body = Some [V.I32 42] ∧
  run_function (replicate 7 (TInt _32)) body m = Some 7000.
Proof. vm_compute. done. Qed.
