(* ===== verification/LightbeamWasm.v ===== *)
(** * Lightbeam: from WebAssembly to machine code

    The composition of the two halves of the compiler, [translate_wasm] of
    [lightbeam/src/function_body.rs], and its correctness for functions without control
    flow. *)

From S2P Require Import Prelude Microwasm MicrowasmTyping MicrowasmProofs MicrowasmSound MicrowasmValues X64 LightbeamRegs LightbeamOwns.
From S2P Require Import HostFloats Lightbeam LightbeamOps LightbeamMemory LightbeamBlocks LightbeamInts LightbeamConversions LightbeamTranslate.
From S2P Require Import LightbeamInv LightbeamMoves LightbeamArith LightbeamStack LightbeamReturn LightbeamTheorems.
Import V(Value) W(WasmOperator) Op(Operator) registers.
Local Open Scope Z_scope.

(** ** The composition *)

(** [translate_wasm], for a function with the given type.  The operators are converted
    as the code generator asks for them; an error of the conversion is a panic.  The
    conversion takes a turn for each operator, one for the locals and one for the end. *)
Definition translate_wasm `{CodegenEnv} (func_idx : Z) (params rets : list SignlessType)
    (locals_reader : result (list (result (Z * WT.Type_) BinaryReaderError)) BinaryReaderError)
    (reader : result (list (result WasmOperator BinaryReaderError)) BinaryReaderError) : M unit :=
  conv ← lift (MicrowasmConv_new params rets locals_reader reader);
  body ← lift (unwrap (collect (length (internal conv) + 2) conv));
  body ← lift body;
  translate func_idx params rets body.

(** ** WebAssembly *)

(** Operators with two operands: their size, what they compute, and whether they are
    comparisons. *)
Definition wasm_binary (op : WasmOperator) : option (Size * (Z → Z → Value) * bool) :=
  let wrap32 f := Some (_32, λ a c, V.I32 (wrap_s 32 (f a c)), false) in
  let wrap64 f := Some (_64, λ a c, V.I64 (wrap_s 64 (f a c)), false) in
  let signed f := Some (_32, λ a c, V.I32 (Z.b2z (f a c)), true) in
  let unsigned f := Some (_32, λ a c, V.I32 (Z.b2z (f (a mod 2 ^ 32) (c mod 2 ^ 32))), true) in
  match op with
  | W.I32Add => wrap32 Z.add | W.I32Sub => wrap32 Z.sub
  | W.I32And => Some (_32, λ a c, V.I32 (Z.land a c), false)
  | W.I32Or => Some (_32, λ a c, V.I32 (Z.lor a c), false)
  | W.I32Xor => Some (_32, λ a c, V.I32 (Z.lxor a c), false)
  | W.I64Add => wrap64 Z.add | W.I64Sub => wrap64 Z.sub
  | W.I64And => Some (_64, λ a c, V.I64 (Z.land a c), false)
  | W.I64Or => Some (_64, λ a c, V.I64 (Z.lor a c), false)
  | W.I64Xor => Some (_64, λ a c, V.I64 (Z.lxor a c), false)
  | W.I32Eq => signed Z.eqb | W.I32Ne => signed (λ a c, negb (a =? c))
  | W.I32LtS => signed Z.ltb | W.I32LtU => unsigned Z.ltb
  | W.I32LeS => signed Z.leb | W.I32LeU => unsigned Z.leb
  | W.I32GtS => signed Z.gtb | W.I32GtU => unsigned Z.gtb
  | W.I32GeS => signed Z.geb | W.I32GeU => unsigned Z.geb
  | _ => None
  end.

(** A step of a function with the locals [l] and the operands [s]. *)
Definition wasm_step (l s : list Value) (op : WasmOperator) : option (list Value * list Value) :=
  let store i v := y ← zget l i; if decide (type_ v = type_ y) then Some (<[Z.to_nat i := v]> l) else None in
  match op with
  | W.Nop => Some (l, s)
  | W.Drop => '(s, _) ← vec_pop s; Some (l, s)
  | W.I32Const n => Some (l, s ++ [V.I32 n])
  | W.I64Const n => Some (l, s ++ [V.I64 n])
  | W.GetLocal i => v ← zget l i; Some (l, s ++ [v])
  | W.SetLocal i => '(s, v) ← vec_pop s; l ← store i v; Some (l, s)
  | W.TeeLocal i => '(_, v) ← vec_pop s; l ← store i v; Some (l, s)
  | W.I32Eqz => '(s, a) ← pop_int _32 s; Some (l, s ++ [V.I32 (Z.b2z (a =? 0))])
  | W.I64Eqz => '(s, a) ← pop_int _64 s; Some (l, s ++ [V.I32 (Z.b2z (a =? 0))])
  | _ =>
      '(z, f, _) ← wasm_binary op;
      '(s, c) ← pop_int z s; '(s, a) ← pop_int z s; Some (l, s ++ [f a c])
  end.
Fixpoint wasm_run (l s : list Value) (ops : list WasmOperator) : option (list Value * list Value) :=
  match ops with [] => Some (l, s) | op :: ops => '(l, s) ← wasm_step l s op; wasm_run l s ops end.

(** Whether the result of a comparison may be on top of the operands; the operators on
    locals are not to be used then. *)
Definition wasm_flag (flagged : bool) (op : WasmOperator) : option bool :=
  match op with
  | W.Nop => Some flagged
  | W.Drop => Some false
  | W.I32Const n => if decide (value_ok (V.I32 n)) then Some false else None
  | W.I64Const n => if decide (value_ok (V.I64 n)) then Some false else None
  | W.GetLocal _ | W.SetLocal _ | W.TeeLocal _ => if flagged then None else Some false
  | W.I32Eqz | W.I64Eqz => Some true
  | _ => '(_, _, cmp) ← wasm_binary op; Some cmp
  end.
Fixpoint wasm_safe (flagged : bool) (ops : list WasmOperator) : bool :=
  match ops with
  | [] => true
  | op :: ops => match wasm_flag flagged op with Some f => wasm_safe f ops | None => false end
  end.

(** ** The conversion of a step *)

Section conversion.
Context `{ModuleContext}.

(** What the conversion of an operator has to be: operators that do to the locals and
    operands, one after the other on one stack, what the operator does. *)
Definition converts (c : MicrowasmConv) (op : WasmOperator) (vs vs' : list Value) (f f' : bool) : Prop :=
  ∃ ops, translate_op c op = Microwasm.emit (set_stack (map type_ vs') c) ops ∧ zlen ops ≤ 3 ∧
    (∀ rest, eval_ops vs (ops ++ rest) = eval_ops vs' rest) ∧
    (∀ rest, flag_safe f (ops ++ rest) = flag_safe f' rest).

Lemma eval_one vs vs' (x : OperatorFromWasm) rest :
  eval_op vs x = Some vs' → eval_ops vs ([x] ++ rest) = eval_ops vs' rest.
Proof. intros E. cbn [app eval_ops]. by rewrite E. Qed.
Lemma eval_store ws v i y rest :
  zget ws i = Some y → zlen ws + 1 < 2 ^ 64 →
  eval_ops (ws ++ [v]) (([Op.Swap (zlen ws - i); Op.Drop (0, 0)] : list OperatorFromWasm) ++ rest) = eval_ops (<[Z.to_nat i := v]> ws) rest.
Proof.
  intros Hi Hs. cbn [app eval_ops eval_op]. rewrite (ctx_swap_spec ws v i y Hi) by lia. cbn [res_option mbind option_bind].
  by rewrite run_drop_top.
Qed.

(** An operator with a signature of concrete types that becomes one operator. *)
Lemma converts_one c vs op (x : OperatorFromWasm) i r vs' f f' :
  op_sig c op = Ret (OpSig_new (map Concrete i) (map Concrete r)) → (length r ≤ 1)%nat →
  (∃ p, stack c = p ++ i ∧ map type_ vs' = p ++ r) →
  (∀ c, emit_op c op = Microwasm.emit c [x]) → eval_op vs x = Some vs' → flag_after f x = Some f' →
  converts c op vs vs' f f'.
Proof.
  intros Hsig Hr (p & Hp & Ht) He Hev Hf. exists [x]. split_and!; [|change (zlen [x]) with 1; lia| |].
  - rewrite (translate_concrete c p i [] Hp op i r Hsig) by done. by rewrite He, Ht, app_nil_l.
  - intros rest. by apply eval_one.
  - intros rest. cbn [app flag_safe]. by rewrite Hf.
Qed.

Section step.
Context (c : MicrowasmConv) (l s : list Value) (Hstack : stack c = map type_ (l ++ s))
  (Hsize : zlen (l ++ s) + 2 < 2 ^ 31).

Lemma stack_size : zlen (stack c) = zlen (l ++ s).
Proof. rewrite Hstack. unfold zlen. by rewrite length_map. Qed.

(** Operators with two operands. *)
Lemma binary_spec op z f cmp :
  wasm_binary op = Some (z, f, cmp) → ∃ (x : OperatorFromWasm) t,
    op_sig c op = Ret (OpSig_new (map Concrete [TInt z; TInt z]) (map Concrete [t])) ∧
    (∀ c, emit_op c op = Microwasm.emit c [x]) ∧ (∀ vs, eval_op vs x = eval_bin z f vs) ∧
    (∀ fl, flag_after fl x = Some cmp) ∧ (∀ a c, type_ (f a c) = t).
Proof. destruct op; try done; intros [= <- <- <-]; eexists _, _; split_and!; reflexivity. Qed.
Lemma type_value_of z a : type_ (value_of z a) = TInt z.
Proof. by destruct z. Qed.
Lemma converts_binary op z f cmp s' a b fl :
  wasm_binary op = Some (z, f, cmp) → s = s' ++ [value_of z a; value_of z b] →
  converts c op (l ++ s) (l ++ s' ++ [f a b]) fl cmp.
Proof using Hstack Hsize.
  intros Hop ->. destruct (binary_spec op z f cmp Hop) as (x & t & Hsig & He & Hev & Hf & Ht).
  eapply converts_one; [exact Hsig|cbn; lia| |done| |done].
  - exists (map type_ (l ++ s')). rewrite Hstack, !app_assoc, !map_app. cbn. by rewrite !type_value_of, Ht.
  - rewrite Hev. unfold eval_bin, pop_int. rewrite app_assoc.
    change [value_of z a; value_of z b] with ([value_of z a] ++ [value_of z b]). rewrite app_assoc, vec_pop_snoc. cbn.
    assert (∀ y, as_of z (value_of z y) = Some y) as Has by (by destruct z). rewrite Has. cbn.
    rewrite vec_pop_snoc. cbn. rewrite Has. cbn. by rewrite app_assoc.
Qed.

Lemma converts_eqz op z s' a fl :
  (op, z) ∈ [(W.I32Eqz, _32); (W.I64Eqz, _64)] → s = s' ++ [value_of z a] →
  converts c op (l ++ s) (l ++ s' ++ [of_bool (a =? 0)]) fl true.
Proof using Hstack Hsize.
  intros Hop ->. eapply (converts_one _ _ op (Op.Eqz z) [TInt z] [TInt _32]).
  - apply elem_of_cons in Hop as [[= -> ->]|Hop]; [done|]. by apply list_elem_of_singleton in Hop as [= -> ->].
  - cbn. lia.
  - exists (map type_ (l ++ s')). rewrite Hstack, !app_assoc, !map_app. cbn. by rewrite type_value_of.
  - intros c'. apply elem_of_cons in Hop as [[= -> ->]|Hop]; [done|]. by apply list_elem_of_singleton in Hop as [= -> ->].
  - cbn [eval_op]. unfold pop_int. rewrite app_assoc, vec_pop_snoc. cbn.
    assert (as_of z (value_of z a) = Some a) as -> by (by destruct z). cbn. by rewrite app_assoc.
  - done.
Qed.

Lemma converts_const op v fl :
  (op = W.I32Const match v with V.I32 n => n | _ => 0 end ∧ type_ v = TInt _32 ∨
   op = W.I64Const match v with V.I64 n => n | _ => 0 end ∧ type_ v = TInt _64) → value_ok v →
  converts c op (l ++ s) (l ++ s ++ [v]) fl false.
Proof using Hstack Hsize.
  intros Hop Hv. eapply (converts_one _ _ op (Op.Const v) [] [type_ v]).
  - by destruct Hop as [[-> ->]|[-> ->]].
  - cbn. lia.
  - exists (map type_ (l ++ s)). split; [by rewrite Hstack, app_nil_r|by rewrite app_assoc, map_app].
  - intros c'. destruct Hop as [[-> E]|[-> E]]; destruct v; by simplify_eq/=.
  - cbn. by rewrite app_assoc.
  - cbn [flag_after]. by rewrite decide_True.
Qed.

Lemma converts_drop s' v fl : s = s' ++ [v] → converts c W.Drop (l ++ s) (l ++ s') fl false.
Proof using Hstack Hsize.
  intros ->. exists [Op.Drop (0, 0)]. split_and!; [|done| |].
  - unfold translate_op. cbn [op_sig]. rewrite bind_Ret_l. unfold apply_op. cbn [input output rev app foldM].
    unfold apply_input at 1. cbn [fst]. rewrite Hstack, app_assoc, map_app. cbn [map]. rewrite vec_pop_snoc. done.
  - intros rest. apply eval_one. cbn [eval_op]. by rewrite app_assoc, run_drop_top.
  - intros rest. cbn [app flag_safe flag_after]. cbn. by rewrite andb_false_r.
Qed.

Lemma local_type i v : zget l i = Some v → zget (stack c) i = Some (type_ v) ∧ zget (l ++ s) i = Some v.
Proof using Hstack Hsize.
  intros Hi. pose proof (zget_Some_lt _ _ _ Hi). assert (zget (l ++ s) i = Some v) as E by (rewrite zget_app_l by lia; done).
  split; [|done]. by rewrite Hstack, zget_map, E.
Qed.
Lemma converts_get i v : zget l i = Some v → converts c (W.GetLocal i) (l ++ s) (l ++ s ++ [v]) false false.
Proof using Hstack Hsize.
  intros Hi. destruct (local_type i v Hi) as [Ht Hv]. pose proof stack_size as Hz. eexists. split_and!.
  - rewrite (translate_get_local c ltac:(lia) i _ Ht), app_assoc, map_app, <-Hstack. reflexivity.
  - done.
  - intros rest. apply eval_one. cbn [eval_op]. rewrite Hz, (ctx_pick_spec _ i v Hv) by lia. by rewrite app_assoc.
  - done.
Qed.
Lemma converts_set i v y s' :
  zget l i = Some y → type_ v = type_ y → s = s' ++ [v] →
  converts c (W.SetLocal i) (l ++ s) (<[Z.to_nat i := v]> l ++ s') false false.
Proof using Hstack Hsize.
  intros Hi Hty E. pose proof (zget_Some_lt _ _ _ Hi) as Hlt. pose proof stack_size as Hz.
  assert (zget (l ++ s') i = Some y) as Hg by (rewrite zget_app_l by lia; done).
  assert (stack c = map type_ (l ++ s') ++ [type_ y]) as Hst by (by rewrite Hstack, E, app_assoc, map_app, <-Hty).
  assert (<[Z.to_nat i := v]> l ++ s' = <[Z.to_nat i := v]> (l ++ s')) as E2 by (rewrite insert_app_l; [done|unfold zlen in Hlt; lia]).
  assert (zlen (map type_ (l ++ s')) = zlen (l ++ s')) as Hm by (unfold zlen; by rewrite length_map).
  rewrite E, E2, app_assoc. eexists. split_and!.
  - rewrite (translate_set_local c ltac:(lia) _ i (type_ y) Hst) by (by rewrite zget_map, Hg).
    rewrite Hm. rewrite list_fmap_insert, list_insert_id; [reflexivity|].
    rewrite Hty. unfold zget in Hg. case_match; [|done]. by rewrite list_lookup_fmap, Hg.
  - done.
  - intros rest. apply (eval_store _ v i y); [done|]. rewrite E, app_assoc, zlen_app in Hsize. change (zlen [v]) with 1 in Hsize. lia.
  - done.
Qed.
Lemma converts_tee i v y s' :
  zget l i = Some y → type_ v = type_ y → s = s' ++ [v] →
  converts c (W.TeeLocal i) (l ++ s) (<[Z.to_nat i := v]> l ++ s) false false.
Proof using Hstack Hsize.
  intros Hi Hty E. pose proof (zget_Some_lt _ _ _ Hi) as Hlt. pose proof stack_size as Hz.
  assert (zget (l ++ s') i = Some y) as Hg by (rewrite zget_app_l by lia; done).
  assert (stack c = map type_ (l ++ s') ++ [type_ y]) as Hst by (by rewrite Hstack, E, app_assoc, map_app, <-Hty).
  assert (<[Z.to_nat i := v]> l ++ s = <[Z.to_nat i := v]> (l ++ s)) as E2 by (rewrite insert_app_l; [done|unfold zlen in Hlt; lia]).
  rewrite E2. eexists. split_and!.
  - rewrite (translate_tee_local c _ _ Hst ltac:(lia) _ i (type_ y) Hst) by (by rewrite zget_map, Hg).
    rewrite Hz, list_fmap_insert, list_insert_id; [change (type_ <$> l ++ s) with (map type_ (l ++ s)); rewrite <-Hstack; by destruct c|].
    destruct (local_type i y Hi) as [Ht _]. rewrite Hstack in Ht. rewrite Hty. unfold zget in Ht. by case_match.
  - done.
  - intros rest. cbn [app eval_ops eval_op].
    pose proof (ctx_pick_spec (l ++ s) (zlen (l ++ s')) v) as Ep.
    assert (zlen (l ++ s) = zlen (l ++ s') + 1) as Hl by (rewrite E, app_assoc, zlen_app; done).
    replace (zlen (l ++ s) - 1 - zlen (l ++ s')) with 0 in Ep by lia.
    rewrite Ep; [|by rewrite E, app_assoc, zget_app_r, Z.sub_diag by lia|lia]. cbn [res_option mbind option_bind].
    apply (eval_store (l ++ s) v i y rest); [by destruct (local_type i y Hi)|lia].
  - done.
Qed.

Lemma converts_step op l' s' f f' :
  wasm_step l s op = Some (l', s') → wasm_flag f op = Some f' → converts c op (l ++ s) (l' ++ s') f f'.
Proof using Hstack Hsize.
  intros E Hf.
  assert (∀ z g cmp, wasm_binary op = Some (z, g, cmp) → f' = cmp →
    ('(s, c) ← pop_int z s; '(s, a) ← pop_int z s; Some (l, s ++ [g a c])) = Some (l', s') →
    converts c op (l ++ s) (l' ++ s') f f') as Hbin.
  { intros z g cmp Hop -> Hpop. destruct (pop_int z s) as [[s1 y]|] eqn:E1; [|done]. cbn in Hpop.
    destruct (pop_int z s1) as [[s2 x]|] eqn:E2; [|done]. cbn in Hpop. injection Hpop as <- <-.
    apply pop_int_inv in E1, E2. eapply converts_binary; [done|]. by rewrite E1, E2, <-app_assoc. }
  destruct op; cbn [wasm_step wasm_flag] in E, Hf;
    try (by (eapply Hbin; [reflexivity|by injection Hf as <-|exact E])); try done.
  - injection E as <- <-. injection Hf as <-. exists []. split_and!; [|done..].
    unfold translate_op. cbn [op_sig]. rewrite bind_Ret_l, apply_op_none, bind_Ret_l. rewrite <-Hstack. by destruct c.
  - destruct (vec_pop s) as [[s1 v]|] eqn:Ep; [|done]. cbn in E. injection E as <- <-. injection Hf as <-.
    apply vec_pop_Some in Ep. by eapply converts_drop.
  - destruct (zget l local_index) as [v|] eqn:Ev; [|done]. injection E as <- <-. destruct f; [done|]. injection Hf as <-.
    by apply converts_get.
  - destruct (vec_pop s) as [[s1 v]|] eqn:Ep; [|done]. cbn in E. apply vec_pop_Some in Ep.
    destruct (zget l local_index) as [y|] eqn:Ev; [|done]. cbn in E. case_decide as Ht; [|done]. injection E as <- <-.
    destruct f; [done|]. injection Hf as <-. by eapply converts_set.
  - destruct (vec_pop s) as [[s1 v]|] eqn:Ep; [|done]. cbn in E. apply vec_pop_Some in Ep.
    destruct (zget l local_index) as [y|] eqn:Ev; [|done]. cbn in E. case_decide as Ht; [|done]. injection E as <- <-.
    destruct f; [done|]. injection Hf as <-. by eapply converts_tee.
  - injection E as <- <-. case_decide as Hv; [|done]. injection Hf as <-. apply converts_const; [by left|done].
  - injection E as <- <-. case_decide as Hv; [|done]. injection Hf as <-. apply converts_const; [by right|done].
  - destruct (pop_int _32 s) as [[s1 a]|] eqn:Ep; [|done]. cbn in E. injection E as <- <-. injection Hf as <-.
    apply pop_int_inv in Ep. apply (converts_eqz _ _32); [by left|done].
  - destruct (pop_int _64 s) as [[s1 a]|] eqn:Ep; [|done]. cbn in E. injection E as <- <-. injection Hf as <-.
    apply pop_int_inv in Ep. apply (converts_eqz _ _64); [by right; left|done].
Qed.

Lemma step_size op l' s' :
  wasm_step l s op = Some (l', s') → zlen l' = zlen l ∧ zlen s' ≤ zlen s + 1.
Proof using Type.
  clear Hstack Hsize.
  assert (∀ z s1 y s2, pop_int z s1 = Some (s2, y) → zlen s1 = zlen s2 + 1) as Hpi.
  { intros z s1 y s2 ->%pop_int_inv. by rewrite zlen_app. }
  assert (∀ s1 (y : Value) s2, vec_pop s1 = Some (s2, y) → zlen s1 = zlen s2 + 1) as Hp.
  { intros s1 y s2 ->%vec_pop_Some. by rewrite zlen_app. }
  assert (∀ i (y : Value), zlen (<[Z.to_nat i := y]> l) = zlen l) as Hl by (intros; unfold zlen; by rewrite length_insert).
  assert (∀ (y : list Value) z, zlen (y ++ [z]) = zlen y + 1) as Ha by (intros; by rewrite zlen_app).
  intros E. destruct op; cbn -[pop_int vec_pop zget decide] in E; try done;
    repeat (match type of E with
      | context [vec_pop ?x] => let H := fresh in destruct (vec_pop x) as [[? ?]|] eqn:H; [apply Hp in H|done]
      | context [pop_int ?z ?x] => let H := fresh in destruct (pop_int z x) as [[? ?]|] eqn:H; [apply Hpi in H|done]
      | context [zget ?x ?i] => destruct (zget x i); [|done]
      | context [decide ?P] => destruct (decide P); [|done]
      end; cbn -[pop_int vec_pop zget decide] in E); simplify_eq; rewrite ?Hl, ?Ha; split; lia.
Qed.
End step.

(** ** The conversion of a function *)

Lemma collect_straight rets i n ops : ∀ c l s l' s' f,
  is_done c = false → consts_to_emit c = None → unreachable c = false →
  control_frames c = [mkControlFrame i n rets FFunction] → internal c = map Ok (ops ++ [W.End]) →
  stack c = map type_ (l ++ s) → zlen (l ++ s) + zlen ops + 2 < 2 ^ 31 →
  wasm_run l s ops = Some (l', s') → wasm_safe f ops = true →
  ∃ out, collect (length ops + 2) c = Some (Ret (out ++ [Op.Br Return])) ∧ zlen out ≤ 3 * zlen ops ∧
    eval_ops (l ++ s) out = Some (l' ++ s') ∧ flag_safe f out = true.
Proof.
  induction ops as [|op ops IH]; intros c l s l' s' f Hd Hc Hu Hfr Hin Hst Hsz Hrun Hsafe.
  { injection Hrun as <- <-. exists []. split_and!; [|done..]. cbn [length Nat.add collect]. unfold next, read.
    rewrite Hd, Hc, Hu, Hin. cbn [map app]. unfold translate_op. cbn [op_sig]. rewrite bind_Ret_l, apply_op_none, bind_Ret_l.
    cbn [emit_op]. unfold emit_end. cbn [control_frames set_internal]. rewrite Hfr. reflexivity. }
  cbn [wasm_run wasm_safe] in Hrun, Hsafe. rewrite zlen_cons in Hsz. pose proof (zlen_nonneg ops).
  destruct (wasm_step l s op) as [[l1 s1]|] eqn:Est; [|done]. cbn in Hrun.
  destruct (wasm_flag f op) as [f1|] eqn:Efl; [|done].
  set (c1 := set_internal (map Ok (ops ++ [W.End])) c).
  destruct (converts_step c1 l s ltac:(done) ltac:(lia) op l1 s1 f f1 Est Efl) as (out1 & Et & Hn1 & Hev & Hfs).
  destruct (step_size l s op l1 s1 Est) as [Hl1 Hs1].
  destruct (IH (set_stack (map type_ (l1 ++ s1)) c1) l1 s1 l' s' f1) as (out & Eo & Hn & Hev2 & Hfs2); try done.
  { rewrite !zlen_app in *. lia. }
  exists (out1 ++ out). split_and!.
  - cbn [length Nat.add collect]. unfold next, read. rewrite Hd, Hc, Hu, Hin. cbn [map app]. fold c1. rewrite Et.
    unfold Microwasm.emit. rewrite Eo. cbn [mbind option_bind]. rewrite bind_Ret_l. by rewrite app_assoc.
  - rewrite zlen_app, zlen_cons. unfold OperatorFromWasm in *. lia.
  - by rewrite Hev.
  - by rewrite Hfs.
Qed.
End conversion.

Lemma run_lift {A B} (r : res A) (a : A) (f : A → M B) s : r = Ret a → (lift r ≫= f) s = f a s.
Proof. by intros ->. Qed.

(** The default values of locals. *)
Lemma eval_consts (cs : list Value) vs (rest : list OperatorFromWasm) :
  eval_ops vs (map Op.Const cs ++ rest) = eval_ops (vs ++ cs) rest.
Proof.
  revert vs. induction cs as [|v cs IH]; intros vs; [by rewrite app_nil_r|].
  cbn [map app eval_ops eval_op mbind option_bind]. by rewrite IH, <-app_assoc.
Qed.
Lemma safe_consts lt (rest : list OperatorFromWasm) :
  flag_safe false (map Op.Const (map default_for_type lt) ++ rest) = flag_safe false rest.
Proof.
  induction lt as [|t lt IH]; [done|]. cbn [map app flag_safe flag_after].
  rewrite decide_True; [exact IH|]. destruct t as [[]|[]]; cbn; lia.
Qed.

(** ** Functions *)

(** C2: from WebAssembly to machine code, for a fragment without control flow.  For every
    WebAssembly function over locals, constants, [drop], [nop], 32- and 64-bit [add],
    [sub], [and], [or], [xor], [eqz] and the comparisons of 32 bits, that does not use a
    local while the result of a comparison is on top, that ends with an integer on top
    when it is run on its arguments, and in which the parameters, the locals and three
    times the operators are fewer than 180: [translate_wasm] succeeds, and the code that
    it emits, run with the arguments where the calling convention puts them, returns with
    that integer in [rax], with the stack pointer, the registers that are not scratch
    registers and all memory but its own part of the stack as they were.
    (Multiplication, division, remainder, shifts, rotations, counts of bits and the
    comparisons of 64 bits are not in the fragment; the code for a multiplication is not
    always right, see [multiplication_after_spill].) *)
Theorem wasm_function_computes `{CodegenEnv} `{Sse} (func_idx : Z) (la : Z → Z)
    (params : list SignlessType) (decls : list (Z * WT.Type_)) (lt : list SignlessType) (locs : list CCLoc)
    (z : Size) (ops : list WasmOperator) (args l' s' : list Value) (a : Z) (m : machine) (s : ctx)
    (Hlocals : local_types decls = Some lt)
    (Hlocs : arg_locs params = Ret locs)
    (Hargs : map type_ args = params)
    (Hsp : 2 ^ 20 ≤ gpr m RSP_ + 8 < 2 ^ 63)
    (Hpassed : Forall2 (holds (gpr m RSP_ + 8) m) (map ValueLocation_from locs) args)
    (Hok : Forall value_ok args)
    (Hsafe : wasm_safe false ops = true)
    (Hrun : wasm_run (args ++ map default_for_type lt) [] ops = Some (l', s' ++ [value_of z a]))
    (Hsize : zlen params + zlen lt + 3 * zlen ops < 180) :
  ∃ c' items m',
    translate_wasm func_idx params [TInt z] (Ok (map Ok decls)) (Ok (map Ok (ops ++ [W.End]))) s = Ret (c', tt) ∧
    code c' = code s ++ items ∧ exec la None items m = Some (Returned m') ∧
    rep (value_of z a) (gpr m' 0) ∧ gpr m' RSP_ = gpr m RSP_ ∧
    (∀ r, Rq r ∉ SCRATCH_REGS → gpr m' r = gpr m r) ∧
    (∀ x, ¬ (gpr m RSP_ + 8 - 2 ^ 19 ≤ x < gpr m RSP_) → mm m' x = mm m x).
Proof.
  pose proof (zlen_nonneg params). pose proof (zlen_nonneg lt). pose proof (zlen_nonneg ops).
  assert (map type_ (args ++ map default_for_type lt) = params ++ lt) as Hty.
  { rewrite map_app, Hargs, map_map. f_equal. rewrite <-(List.map_id lt) at 2. apply map_ext, type_default. }
  assert (zlen (args ++ map default_for_type lt) = zlen params + zlen lt) as Hz.
  { rewrite zlen_app, <-Hargs. unfold zlen. by rewrite !length_map. }
  destruct (collect_straight [TInt z] 0 (zlen (params ++ lt)) ops
    (mkConv false None (params ++ lt) (map Ok (ops ++ [W.End])) 1 [mkControlFrame 0 (zlen (params ++ lt)) [TInt z] FFunction] false)
    (args ++ map default_for_type lt) [] l' (s' ++ [value_of z a]) false) as (out & Eo & Hn & Hev & Hfs); try done.
  { by rewrite app_nil_r. }
  { rewrite app_nil_r, Hz. lia. }
  rewrite app_nil_r in Hev. set (cs := map default_for_type lt) in *.
  destruct (straight_line_body func_idx la params locs z (map Op.Const cs ++ out) args (l' ++ s') a m s) as
    (c' & items & m' & E & Hres); try done.
  { subst cs. by rewrite safe_consts. }
  { by rewrite eval_consts, Hev, app_assoc. }
  { rewrite zlen_app. subst cs. unfold zlen in *. rewrite !length_map. lia. }
  exists c', items, m'. split; [|exact Hres]. unfold translate_wasm.
  assert (collect (length (map (@Ok _ BinaryReaderError) (ops ++ [W.End])) + 2)
    (mkConv false (Some cs) (params ++ lt) (map Ok (ops ++ [W.End])) 1 [mkControlFrame 0 (zlen (params ++ lt)) [TInt z] FFunction] false) =
    Some (Ret ((map Op.Const cs ++ out) ++ [Op.Br Return]))) as Ecol.
  { rewrite length_map, length_app. cbn [length]. rewrite <-Nat.add_assoc, (Nat.add_comm 1 2), Nat.add_assoc, Nat.add_1_r.
    cbn [collect]. unfold next. cbn [is_done consts_to_emit]. unfold Microwasm.emit, take_consts.
    cbn [is_done stack internal current_id control_frames unreachable]. rewrite Eo. cbn [mbind option_bind]. by rewrite bind_Ret_l, <-app_assoc. }
  rewrite (run_lift _ _ _ _ (MicrowasmConv_new_spec params [TInt z] decls lt _ Hlocals ltac:(rewrite zlen_app; lia))).
  cbn [internal]. fold cs. rewrite Ecol. cbn [unwrap]. by rewrite !(run_lift _ _ _ _ eq_refl).
Qed.

(** ** Examples *)

#[local] Existing Instances example_sse example_env.

(** [((x < y) + 5) ^ y], with a local that is not used. *)
Definition example_body : list WasmOperator :=
  [W.GetLocal 0; W.GetLocal 1; W.I32LtS; W.I32Const 5; W.I32Add; W.TeeLocal 0; W.GetLocal 1; W.I32Xor].

Lemma wasm_function_computes_witness :
  ∃ c' m', translate_wasm 0 [TInt _32; TInt _32] [TInt _32] (Ok [Ok (1, WT.I64)]) (Ok (map Ok (example_body ++ [W.End]))) example_ctx = Ret (c', tt) ∧
    exec (λ _, 0) None (code c') (example_machine [(6, 1); (2, 2)] (λ _, 0)) = Some (Returned m') ∧
    rep (V.I32 4) (gpr m' 0).
Proof.
  destruct (wasm_function_computes 0 (λ _, 0) [TInt _32; TInt _32] [(1, WT.I64)] [TInt _64] [CReg RSI; CReg RDX] _32 example_body
    [V.I32 1; V.I32 2] [V.I32 6; V.I32 2; V.I64 0] [] 4 (example_machine [(6, 1); (2, 2)] (λ _, 0)) example_ctx)
    as (c' & items & m' & E & Ec & Ex & Hv & _).
  - reflexivity.
  - reflexivity.
  - reflexivity.
  - vm_compute. split; discriminate || reflexivity.
  - repeat constructor.
  - repeat constructor; cbn; discriminate || reflexivity.
  - reflexivity.
  - reflexivity.
  - reflexivity.
  - exists c', m'. split; [exact E|]. rewrite Ec. split; [exact Ex|exact Hv].
Defined.
