(* ===== verification/LightbeamErrors.v ===== *)
(** * Lightbeam: where the code is wrong

    Functions for which the code that is generated does not compute what the operators
    mean, run on the processor of [X64]. *)

From S2P Require Import Prelude Microwasm HostFloats X64 LightbeamRegs Lightbeam LightbeamOps LightbeamMemory LightbeamBlocks.
From S2P Require Import LightbeamInts LightbeamCalls LightbeamFloats LightbeamConversions LightbeamTranslate LightbeamTheorems.
Import V(Value) Op(Operator) registers.
Local Open Scope Z_scope.

#[local] Existing Instances example_sse example_env.

(** The labels are 16 bytes apart, and their constants are in memory. *)
Definition label_address (l : Z) : Z := 2 ^ 20 + 16 * l.
Definition place_constant (mem : Store.mem) (e : (Z * LabelKey) * Z) : Store.mem :=
  match e.1.2 with
  | KValue (LV_I32 v) => Store.store_le mem (label_address e.2) 4 (v mod 2 ^ 32)
  | KValue (LV_I64 v) => Store.store_le mem (label_address e.2) 8 (v mod 2 ^ 64)
  | _ => mem
  end.
Definition place_constants (ls : list ((Z * LabelKey) * Z)) (m : machine) : machine :=
  with_mm m (foldl place_constant (mm m) ls).

(** What the code of a function does when it is run. *)
Definition run_code (params rets : list SignlessType) (ops : list (@Operator Z)) (m : machine) : option outcome :=
  match translate 0 params rets (ops ++ [Op.Br Return]) example_ctx with
  | Ret (s, _) => exec label_address None (code s) (place_constants (labels s) m)
  | Panic => None
  end.
Definition result (z : Size) (o : option outcome) : option Z :=
  match o with Some (Returned m) => Some (gpr m 0 mod 2 ^ size_bits z) | _ => None end.

Definition args_in_registers (xs ys : list (Z * Z)) : machine :=
  let m := example_machine xs (λ _, 0) in
  mkMachine (gpr m) (λ r, match list_find (λ p, p.1 = r) ys with Some (_, p) => p.2 | None => 0 end) (fl m) (mm m).

(** ** Operands that are still in use *)

(** Operands are overwritten.  [i64.ctz], [f64.convert_i64_u] and [f32.copysign] change
    the register of an operand, which may hold a local too.  The functions
    [x + ctz(x)] at 8, [convert(x); x] at 2^63 + 5 and [copysign(x, y); y] at 2 and 1.5
    return 67, 2^62 + 3 and 0 instead of 11, 2^63 + 5 and the bits of 1.5. *)
Lemma operands_overwritten :
  result _64 (run_code [TInt _64] [TInt _64]
    [Op.Pick 0; Op.Ctz _64; Op.Add (TInt _64)] (args_in_registers [(6, 8)] [])) = Some 67 ∧
  result _64 (run_code [TInt _64] [TInt _64]
    [Op.Pick 0; Op.FConvertFromI (mkSignfulInt Unsigned _64) _64; Op.Drop (0, 0)]
    (args_in_registers [(6, 2 ^ 63 + 5)] [])) = Some (2 ^ 62 + 3) ∧
  result _32 (run_code [TFloat _32; TFloat _32] [TInt _32]
    [Op.Pick 1; Op.Pick 1; Op.Copysign _32; Op.Drop (0, 0); Op.I32ReinterpretFromF32]
    (args_in_registers [] [(0, 0x40000000); (1, 0x3fc00000)])) = Some 0.
Proof. vm_compute. done. Qed.

(** ** Constants *)

(** Remainders and quotients of constants.  The remainder by the constant -1 is -1
    instead of 0; of the least integer and -1, two constants, the quotient is the least
    integer, where the instruction for it traps, and for the remainder, which is 0, the
    compiler panics. *)
Lemma constant_remainders_wrong :
  let rem := Op.Rem (mkSignfulInt Signed _32) in let div := Op.Div (TInt (mkSignfulInt Signed _32)) in
  result _32 (run_code [TInt _32] [TInt _32] [Op.Const (V.I32 (-1)); rem] (args_in_registers [(6, 7)] [])) = Some (2 ^ 32 - 1) ∧
  result _32 (run_code [] [TInt _32] [Op.Const (V.I32 (- 2 ^ 31)); Op.Const (V.I32 (-1)); div] (args_in_registers [] [])) = Some (2 ^ 31) ∧
  run_code [TInt _32] [TInt _32] [Op.Const (V.I32 (-1)); div] (args_in_registers [(6, 2 ^ 31)] []) = Some Fault ∧
  translate 0 [] [TInt _32] ([Op.Const (V.I32 (- 2 ^ 31)); Op.Const (V.I32 (-1)); rem; Op.Br Return] : list (@Operator Z)) example_ctx = Panic.
Proof. vm_compute. done. Qed.

(** ** Arguments on the stack *)

(** A module in which every function takes six integers. *)
Definition six_integers : CodegenEnv :=
  Build_CodegenEnv (Build_ModuleContext (λ _, Ret (replicate 6 (TInt _32), [])) (λ _, Ret ([], [])) (λ _, Panic))
    example_offsets true (Build_HostFloat (λ a _, a) (λ _ _, true)) W32.
Definition call_with_six : list (@Operator Z) := map (λ n, Op.Const (V.I32 n)) [1; 2; 3; 4; 5; 6] ++ [Op.Call 0; Op.Br Return].
Definition self_ctx : ctx := mkCtx [] [] 1 [] [0] (block_state example_ctx).

(** The machine at the call of the function itself. *)
Definition at_call (ops : list (@Operator Z)) (m : machine) : option machine :=
  match translate (H := six_integers) 0 [] [] ops self_ctx with
  | Ret (s, _) => match exec label_address None (code s) m with Some (CallsLabel 0 m) => Some m | _ => None end
  | Panic => None
  end.

(** Arguments on the stack are lost.  The sixth argument of a call has its place on
    the stack, at the top for the callee; it is written to that place of the caller's
    own frame, above its return address, instead: the callee finds something else, and
    what the caller's caller had there is overwritten. *)
Lemma stack_arguments_lost :
  arg_locs (replicate 6 (TInt _32)) = Ret [CReg RSI; CReg RDX; CReg RCX; CReg R8; CReg R9; CStack 0] ∧
  (let m := args_in_registers [] [] in
   m' ← at_call call_with_six m;
   Some (map (gpr m') [6; 2; 1; 8; 9], Store.load_le (mm m') (gpr m' RSP_) 8,
         gpr m' RSP_ <? gpr m RSP_, Store.load_le (mm m') (gpr m RSP_ + 8) 8)) = Some ([1; 2; 3; 4; 5], 0, true, 6).
Proof. vm_compute. done. Qed.
