(* ===== verification/WasiTypes.v ===== *)
(** * The types of the WASI interface

    Models [wasmtime-wasi-c/src/wasm32.rs]: the types that a guest and the host
    exchange through the guest's memory.  Declarations are values of [cty]; the
    rules of [repr(C)] give their sizes, alignments and offsets.  A [ctype]
    pairs a declaration with the Rocq type of its values and their bytes. *)

From S2P Require Import Prelude VMOffsets Store VMContext.
Local Open Scope string_scope.
Local Open Scope list_scope.
Local Open Scope Z_scope.

(** ** Declarations and their layout *)

#[local] Set Warnings "-register-all".
Inductive cty :=
| CInt (bytes : Z)
| CArray (t : cty) (n : Z)
| CStruct (fs : list (string * cty))
| CUnion (fs : list (string * cty)).

Fixpoint c_align (t : cty) : Z :=
  match t with
  | CInt n => n
  | CArray t _ => c_align t
  | CStruct fs | CUnion fs => fold_right (λ f a, Z.max (c_align (snd f)) a) 1 fs
  end.

(** The size of a structure is the end of its last field, rounded up to its
    alignment. *)
Fixpoint c_size (t : cty) : Z :=
  match t with
  | CInt n => n
  | CArray t n => c_size t * n
  | CStruct fs =>
      align_up (fold_left (λ o f, align_up o (c_align (snd f)) + c_size (snd f)) fs 0) (c_align t)
  | CUnion fs => align_up (fold_right (λ f a, Z.max (c_size (snd f)) a) 0 fs) (c_align t)
  end.

(** The offset and the type of the field [name], when the fields [fs] are placed
    from the offset [off] on. *)
Fixpoint find_field (off : Z) (fs : list (string * cty)) (name : string) : option (Z * cty) :=
  match fs with
  | [] => None
  | (f, t) :: fs =>
      let o := align_up off (c_align t) in
      if bool_decide (f = name) then Some (o, t) else find_field (o + c_size t) fs name
  end.

Definition field_of (t : cty) (name : string) : option (Z * cty) :=
  match t with
  | CStruct fs => find_field 0 fs name
  | CUnion fs => f ← list_find (λ f, fst f = name) fs; Some (0, snd (snd f))
  | _ => None
  end.

Definition offset_of (t : cty) (name : string) : option Z := fst <$> field_of t name.

(** The bytes of fields placed from the offset [off] on, zero between them. *)
Fixpoint pack_at (off : Z) (fs : list (string * cty)) (vs : list (list Z)) : list Z :=
  match fs, vs with
  | (_, t) :: fs, v :: vs =>
      let o := align_up off (c_align t) in
      replicate (Z.to_nat (o - off)) 0 ++ v ++ pack_at (o + c_size t) fs vs
  | _, _ => []
  end.

Definition pack (fs : list (string * cty)) (vs : list (list Z)) : list Z :=
  let b := pack_at 0 fs vs in
  b ++ replicate (Z.to_nat (c_size (CStruct fs) - zlen b)) 0.

(** The bytes of a field of a value. *)
Definition get_bytes (t : cty) (bs : list Z) (name : string) : list Z :=
  match field_of t name with
  | Some (o, f) => take (Z.to_nat (c_size f)) (drop (Z.to_nat o) bs)
  | None => []
  end.
Definition get_int (t : cty) (bs : list Z) (name : string) : Z := le_val (get_bytes t bs name).

(** ** Types with values *)

Record ctype (A : Type) := mkCType { ct_ty : cty; ct_repr : ReprC A }.
Arguments mkCType {_} _ _.
Arguments ct_ty {_} _.
Arguments ct_repr {_} _.
Coercion ct_ty : ctype >-> cty.

Definition c_encode {A} (T : ctype A) : A → list Z := @encode A (ct_repr T).
Definition c_decode {A} (T : ctype A) : list Z → A := @decode A (ct_repr T).
Definition c_valid {A} (T : ctype A) : A → Prop := @valid A (ct_repr T).

(** An unsigned integer of [n] bytes; [i64] and the like are their bits. *)
Definition uint_repr (n : nat) : ReprC Z := {|
  size_of := Z.of_nat n; valid x := 0 ≤ x < 2 ^ (8 * Z.of_nat n);
  encode := le_bytes n; decode := le_val |}.
Definition uint (n : nat) : ctype Z := mkCType (CInt (Z.of_nat n)) (uint_repr n).

(** A structure with the fields [fs], whose values are given by their fields'
    bytes [enc] and rebuilt from the integer fields and field bytes. *)
Definition struct_repr {A} (fs : list (string * cty)) (v : A → Prop) (enc : A → list (list Z))
    (dec : (string → Z) → (string → list Z) → A) : ReprC A := {|
  size_of := c_size (CStruct fs); valid := v; encode a := pack fs (enc a);
  decode bs := dec (get_int (CStruct fs) bs) (get_bytes (CStruct fs) bs) |}.
Definition struct {A} fs v enc dec : ctype A :=
  mkCType (CStruct fs) (@struct_repr A fs v enc dec).

(** A union is its bytes. *)
Definition union_repr (fs : list (string * cty)) : ReprC (list Z) := {|
  size_of := c_size (CUnion fs);
  valid bs := zlen bs = c_size (CUnion fs); encode bs := bs; decode bs := bs |}.
Definition union (fs : list (string * cty)) : ctype (list Z) :=
  mkCType (CUnion fs) (union_repr fs).

(** [mem::zeroed] of a union, an assignment to one of its members and a read. *)
Definition union_zeroed (T : ctype (list Z)) : list Z := replicate (Z.to_nat (c_size T)) 0.
Definition union_set {A} (u : list Z) (T : ctype A) (v : A) : list Z :=
  let b := c_encode T v in b ++ drop (length b) u.
Definition union_get {A} (u : list Z) (T : ctype A) : A :=
  c_decode T (take (Z.to_nat (c_size T)) u).

(** Integers of [n] bytes. *)
Notation fits n x := (0 ≤ x < 2 ^ (8 * n)).

(** ** Integer types *)

Definition c_char : ctype Z := uint 1.
Definition size_t : ctype Z := uint 4.
Definition uintptr_t : ctype Z := uint 4.
Definition __wasi_advice_t : ctype Z := uint 1.
Definition __wasi_clockid_t : ctype Z := uint 4.
Definition __wasi_device_t : ctype Z := uint 8.
Definition __wasi_dircookie_t : ctype Z := uint 8.
Definition __wasi_errno_t : ctype Z := uint 2.
Definition __wasi_eventrwflags_t : ctype Z := uint 2.
Definition __wasi_eventtype_t : ctype Z := uint 1.
Definition __wasi_exitcode_t : ctype Z := uint 4.
Definition __wasi_fd_t : ctype Z := uint 4.
Definition __wasi_fdflags_t : ctype Z := uint 2.
Definition __wasi_fdsflags_t : ctype Z := uint 2.
Definition __wasi_filesize_t : ctype Z := uint 8.
Definition __wasi_filetype_t : ctype Z := uint 1.
Definition __wasi_preopentype_t : ctype Z := uint 1.
Definition __wasi_fstflags_t : ctype Z := uint 2.
Definition __wasi_inode_t : ctype Z := uint 8.
Definition __wasi_linkcount_t : ctype Z := uint 4.
Definition __wasi_lookupflags_t : ctype Z := uint 4.
Definition __wasi_oflags_t : ctype Z := uint 2.
Definition __wasi_riflags_t : ctype Z := uint 2.
Definition __wasi_rights_t : ctype Z := uint 8.
Definition __wasi_roflags_t : ctype Z := uint 2.
Definition __wasi_sdflags_t : ctype Z := uint 1.
Definition __wasi_siflags_t : ctype Z := uint 2.
Definition __wasi_signal_t : ctype Z := uint 1.
Definition __wasi_subclockflags_t : ctype Z := uint 2.
Definition __wasi_timestamp_t : ctype Z := uint 8.
Definition __wasi_userdata_t : ctype Z := uint 8.
Definition __wasi_whence_t : ctype Z := uint 1.

(** ** Structures and unions *)

Definition fsid_t : cty := CStruct [("__val", CArray (CInt 4) 2)].

Definition __wasi_dirent_t : cty := CStruct
  [("d_next", __wasi_dircookie_t : cty); ("d_ino", __wasi_inode_t : cty); ("d_namlen", CInt 4);
   ("d_type", __wasi_filetype_t : cty); ("__bindgen_padding_0", CArray (CInt 1) 3)].

Record event_fd_readwrite := mkEventFdReadwrite {
  ev_nbytes : Z;
  ev_flags : Z;
  ev_rw_padding_0 : list Z;
}.
Definition __wasi_event_t___wasi_event_u___wasi_event_u_fd_readwrite_t : ctype event_fd_readwrite :=
  struct [("nbytes", __wasi_filesize_t : cty); ("flags", __wasi_eventrwflags_t : cty);
          ("__bindgen_padding_0", CArray (CInt 2) 3)]
    (λ s, fits 8 (ev_nbytes s) ∧ fits 2 (ev_flags s) ∧ zlen (ev_rw_padding_0 s) = 6)
    (λ s, [le_bytes 8 (ev_nbytes s); le_bytes 2 (ev_flags s); ev_rw_padding_0 s])
    (λ i b, mkEventFdReadwrite (i "nbytes") (i "flags") (b "__bindgen_padding_0")).

Definition __wasi_event_t___wasi_event_u : ctype (list Z) := union
  [("fd_readwrite", __wasi_event_t___wasi_event_u___wasi_event_u_fd_readwrite_t : cty);
   ("_bindgen_union_align", CArray (CInt 8) 2)].

Record wasm32_event := mkEvent {
  ev_userdata : Z;
  ev_error : Z;
  ev_type_ : Z;
  ev_padding_0 : Z;
  ev_u : list Z;
}.
Definition __wasi_event_t : ctype wasm32_event :=
  struct [("userdata", __wasi_userdata_t : cty); ("error", __wasi_errno_t : cty);
          ("type_", __wasi_eventtype_t : cty); ("__bindgen_padding_0", CInt 4);
          ("u", __wasi_event_t___wasi_event_u : cty)]
    (λ s, fits 8 (ev_userdata s) ∧ fits 2 (ev_error s) ∧ fits 1 (ev_type_ s) ∧
          fits 4 (ev_padding_0 s) ∧ zlen (ev_u s) = 16)
    (λ s, [le_bytes 8 (ev_userdata s); le_bytes 2 (ev_error s); le_bytes 1 (ev_type_ s);
           le_bytes 4 (ev_padding_0 s); ev_u s])
    (λ i b, mkEvent (i "userdata") (i "error") (i "type_") (i "__bindgen_padding_0") (b "u")).

Definition __wasi_prestat_t___wasi_prestat_u___wasi_prestat_u_dir_t : ctype Z :=
  struct [("pr_name_len", size_t : cty)] (λ n, fits 4 n) (λ n, [le_bytes 4 n])
    (λ i _, i "pr_name_len").
Definition __wasi_prestat_t___wasi_prestat_u : ctype (list Z) := union
  [("dir", __wasi_prestat_t___wasi_prestat_u___wasi_prestat_u_dir_t : cty)].
Record wasm32_prestat := mkPrestat { pr_type : Z; pr_u : list Z }.
Definition __wasi_prestat_t : ctype wasm32_prestat :=
  struct [("pr_type", __wasi_preopentype_t : cty); ("u", __wasi_prestat_t___wasi_prestat_u : cty)]
    (λ s, fits 1 (pr_type s) ∧ zlen (pr_u s) = 4)
    (λ s, [le_bytes 1 (pr_type s); pr_u s])
    (λ i b, mkPrestat (i "pr_type") (b "u")).

(** The events of an earlier version, which nothing uses. *)
Definition __wasi_event_t__bindgen_ty_1__bindgen_ty_1 : cty := CStruct
  [("nbytes", __wasi_filesize_t : cty); ("flags", __wasi_eventrwflags_t : cty);
   ("__bindgen_padding_0", CArray (CInt 2) 3)].
Definition __wasi_event_t__bindgen_ty_1 : cty := CUnion
  [("fd_readwrite", __wasi_event_t__bindgen_ty_1__bindgen_ty_1);
   ("_bindgen_union_align", CArray (CInt 8) 2)].
Definition __wasi_event_t__bindgen_ty_1__bindgen_ty_2 : cty := CStruct
  [("signal", __wasi_signal_t : cty); ("exitcode", __wasi_exitcode_t : cty)].

Record wasm32_fdstat := mkFdstat {
  fs_filetype : Z;
  fs_flags : Z;
  fs_padding_0 : Z;
  fs_rights_base : Z;
  fs_rights_inheriting : Z;
}.
Definition __wasi_fdstat_t : ctype wasm32_fdstat :=
  struct [("fs_filetype", __wasi_filetype_t : cty); ("fs_flags", __wasi_fdflags_t : cty);
          ("__bindgen_padding_0", CInt 4); ("fs_rights_base", __wasi_rights_t : cty);
          ("fs_rights_inheriting", __wasi_rights_t : cty)]
    (λ s, fits 1 (fs_filetype s) ∧ fits 2 (fs_flags s) ∧ fits 4 (fs_padding_0 s) ∧
          fits 8 (fs_rights_base s) ∧ fits 8 (fs_rights_inheriting s))
    (λ s, [le_bytes 1 (fs_filetype s); le_bytes 2 (fs_flags s); le_bytes 4 (fs_padding_0 s);
           le_bytes 8 (fs_rights_base s); le_bytes 8 (fs_rights_inheriting s)])
    (λ i _, mkFdstat (i "fs_filetype") (i "fs_flags") (i "__bindgen_padding_0")
              (i "fs_rights_base") (i "fs_rights_inheriting")).

Record wasm32_filestat := mkFilestat {
  st_dev : Z;
  st_ino : Z;
  st_filetype : Z;
  st_nlink : Z;
  st_size : Z;
  st_atim : Z;
  st_mtim : Z;
  st_ctim : Z;
}.
Definition __wasi_filestat_t : ctype wasm32_filestat :=
  struct [("st_dev", __wasi_device_t : cty); ("st_ino", __wasi_inode_t : cty);
          ("st_filetype", __wasi_filetype_t : cty); ("st_nlink", __wasi_linkcount_t : cty);
          ("st_size", __wasi_filesize_t : cty); ("st_atim", __wasi_timestamp_t : cty);
          ("st_mtim", __wasi_timestamp_t : cty); ("st_ctim", __wasi_timestamp_t : cty)]
    (λ s, fits 8 (st_dev s) ∧ fits 8 (st_ino s) ∧ fits 1 (st_filetype s) ∧ fits 4 (st_nlink s) ∧
          fits 8 (st_size s) ∧ fits 8 (st_atim s) ∧ fits 8 (st_mtim s) ∧ fits 8 (st_ctim s))
    (λ s, [le_bytes 8 (st_dev s); le_bytes 8 (st_ino s); le_bytes 1 (st_filetype s);
           le_bytes 4 (st_nlink s); le_bytes 8 (st_size s); le_bytes 8 (st_atim s);
           le_bytes 8 (st_mtim s); le_bytes 8 (st_ctim s)])
    (λ i _, mkFilestat (i "st_dev") (i "st_ino") (i "st_filetype") (i "st_nlink") (i "st_size")
              (i "st_atim") (i "st_mtim") (i "st_ctim")).

Record wasm32_ciovec := mkCiovec { cio_buf : Z; cio_buf_len : Z }.
Definition __wasi_ciovec_t : ctype wasm32_ciovec :=
  struct [("buf", uintptr_t : cty); ("buf_len", size_t : cty)]
    (λ s, fits 4 (cio_buf s) ∧ fits 4 (cio_buf_len s))
    (λ s, [le_bytes 4 (cio_buf s); le_bytes 4 (cio_buf_len s)])
    (λ i _, mkCiovec (i "buf") (i "buf_len")).

Record wasm32_iovec := mkIovec { io_buf : Z; io_buf_len : Z }.
Definition __wasi_iovec_t : ctype wasm32_iovec :=
  struct [("buf", uintptr_t : cty); ("buf_len", size_t : cty)]
    (λ s, fits 4 (io_buf s) ∧ fits 4 (io_buf_len s))
    (λ s, [le_bytes 4 (io_buf s); le_bytes 4 (io_buf_len s)])
    (λ i _, mkIovec (i "buf") (i "buf_len")).

Record subscription_clock := mkSubscriptionClock {
  sc_identifier : Z;
  sc_clock_id : Z;
  sc_padding_0 : Z;
  sc_timeout : Z;
  sc_precision : Z;
  sc_flags : Z;
  sc_padding_1 : list Z;
}.
Definition __wasi_subscription_t___wasi_subscription_u___wasi_subscription_u_clock_t
    : ctype subscription_clock :=
  struct [("identifier", __wasi_userdata_t : cty); ("clock_id", __wasi_clockid_t : cty);
          ("__bindgen_padding_0", CInt 4); ("timeout", __wasi_timestamp_t : cty);
          ("precision", __wasi_timestamp_t : cty); ("flags", __wasi_subclockflags_t : cty);
          ("__bindgen_padding_1", CArray (CInt 2) 3)]
    (λ s, fits 8 (sc_identifier s) ∧ fits 4 (sc_clock_id s) ∧ fits 4 (sc_padding_0 s) ∧
          fits 8 (sc_timeout s) ∧ fits 8 (sc_precision s) ∧ fits 2 (sc_flags s) ∧
          zlen (sc_padding_1 s) = 6)
    (λ s, [le_bytes 8 (sc_identifier s); le_bytes 4 (sc_clock_id s); le_bytes 4 (sc_padding_0 s);
           le_bytes 8 (sc_timeout s); le_bytes 8 (sc_precision s); le_bytes 2 (sc_flags s);
           sc_padding_1 s])
    (λ i b, mkSubscriptionClock (i "identifier") (i "clock_id") (i "__bindgen_padding_0")
              (i "timeout") (i "precision") (i "flags") (b "__bindgen_padding_1")).

Definition __wasi_subscription_t___wasi_subscription_u___wasi_subscription_u_fd_readwrite_t
    : ctype Z :=
  struct [("fd", __wasi_fd_t : cty)] (λ n, fits 4 n) (λ n, [le_bytes 4 n]) (λ i _, i "fd").

Definition __wasi_subscription_t___wasi_subscription_u : ctype (list Z) := union
  [("clock", __wasi_subscription_t___wasi_subscription_u___wasi_subscription_u_clock_t : cty);
   ("fd_readwrite",
    __wasi_subscription_t___wasi_subscription_u___wasi_subscription_u_fd_readwrite_t : cty);
   ("_bindgen_union_align", CArray (CInt 8) 5)].

Record wasm32_subscription := mkSubscription {
  su_userdata : Z;
  su_type_ : Z;
  su_padding_0 : Z;
  su_u : list Z;
}.
Definition __wasi_subscription_t : ctype wasm32_subscription :=
  struct [("userdata", __wasi_userdata_t : cty); ("type_", __wasi_eventtype_t : cty);
          ("__bindgen_padding_0", CInt 4);
          ("u", __wasi_subscription_t___wasi_subscription_u : cty)]
    (λ s, fits 8 (su_userdata s) ∧ fits 1 (su_type_ s) ∧ fits 4 (su_padding_0 s) ∧
          zlen (su_u s) = 40)
    (λ s, [le_bytes 8 (su_userdata s); le_bytes 1 (su_type_ s); le_bytes 4 (su_padding_0 s);
           su_u s])
    (λ i b, mkSubscription (i "userdata") (i "type_") (i "__bindgen_padding_0") (b "u")).

(** ** Constants *)

(** The error numbers. *)
Definition errno_constants : list (string * Z) := [
  ("__WASI_ESUCCESS", 0); ("__WASI_E2BIG", 1); ("__WASI_EACCES", 2); ("__WASI_EADDRINUSE", 3);
  ("__WASI_EADDRNOTAVAIL", 4); ("__WASI_EAFNOSUPPORT", 5); ("__WASI_EAGAIN", 6);
  ("__WASI_EALREADY", 7); ("__WASI_EBADF", 8); ("__WASI_EBADMSG", 9); ("__WASI_EBUSY", 10);
  ("__WASI_ECANCELED", 11); ("__WASI_ECHILD", 12); ("__WASI_ECONNABORTED", 13);
  ("__WASI_ECONNREFUSED", 14); ("__WASI_ECONNRESET", 15); ("__WASI_EDEADLK", 16);
  ("__WASI_EDESTADDRREQ", 17); ("__WASI_EDOM", 18); ("__WASI_EDQUOT", 19); ("__WASI_EEXIST",
  20); ("__WASI_EFAULT", 21); ("__WASI_EFBIG", 22); ("__WASI_EHOSTUNREACH", 23);
  ("__WASI_EIDRM", 24); ("__WASI_EILSEQ", 25); ("__WASI_EINPROGRESS", 26); ("__WASI_EINTR", 27);
  ("__WASI_EINVAL", 28); ("__WASI_EIO", 29); ("__WASI_EISCONN", 30); ("__WASI_EISDIR", 31);
  ("__WASI_ELOOP", 32); ("__WASI_EMFILE", 33); ("__WASI_EMLINK", 34); ("__WASI_EMSGSIZE", 35);
  ("__WASI_EMULTIHOP", 36); ("__WASI_ENAMETOOLONG", 37); ("__WASI_ENETDOWN", 38);
  ("__WASI_ENETRESET", 39); ("__WASI_ENETUNREACH", 40); ("__WASI_ENFILE", 41);
  ("__WASI_ENOBUFS", 42); ("__WASI_ENODEV", 43); ("__WASI_ENOENT", 44); ("__WASI_ENOEXEC", 45);
  ("__WASI_ENOLCK", 46); ("__WASI_ENOLINK", 47); ("__WASI_ENOMEM", 48); ("__WASI_ENOMSG", 49);
  ("__WASI_ENOPROTOOPT", 50); ("__WASI_ENOSPC", 51); ("__WASI_ENOSYS", 52); ("__WASI_ENOTCONN",
  53); ("__WASI_ENOTDIR", 54); ("__WASI_ENOTEMPTY", 55); ("__WASI_ENOTRECOVERABLE", 56);
  ("__WASI_ENOTSOCK", 57); ("__WASI_ENOTSUP", 58); ("__WASI_ENOTTY", 59); ("__WASI_ENXIO", 60);
  ("__WASI_EOVERFLOW", 61); ("__WASI_EOWNERDEAD", 62); ("__WASI_EPERM", 63); ("__WASI_EPIPE",
  64); ("__WASI_EPROTO", 65); ("__WASI_EPROTONOSUPPORT", 66); ("__WASI_EPROTOTYPE", 67);
  ("__WASI_ERANGE", 68); ("__WASI_EROFS", 69); ("__WASI_ESPIPE", 70); ("__WASI_ESRCH", 71);
  ("__WASI_ESTALE", 72); ("__WASI_ETIMEDOUT", 73); ("__WASI_ETXTBSY", 74); ("__WASI_EXDEV", 75);
  ("__WASI_ENOTCAPABLE", 76)].

(** The arms of [strerror]: a constant and the string it gives. *)
Definition strerror_arms : list (string * string) := [
  ("__WASI_ESUCCESS", "__WASI_ESUCCESS"); ("__WASI_E2BIG", "__WASI_E2BIG"); ("__WASI_EACCES",
  "__WASI_EACCES"); ("__WASI_EADDRINUSE", "__WASI_EADDRINUSE"); ("__WASI_EADDRNOTAVAIL",
  "__WASI_EADDRNOTAVAIL"); ("__WASI_EAFNOSUPPORT", "__WASI_EAFNOSUPPORT"); ("__WASI_EAGAIN",
  "__WASI_EAGAIN"); ("__WASI_EALREADY", "__WASI_EALREADY"); ("__WASI_EBADF", "__WASI_EBADF");
  ("__WASI_EBADMSG", "__WASI_EBADMSG"); ("__WASI_EBUSY", "__WASI_EBUSY"); ("__WASI_ECANCELED",
  "__WASI_ECANCELED"); ("__WASI_ECHILD", "__WASI_ECHILD"); ("__WASI_ECONNABORTED",
  "__WASI_ECONNABORTED"); ("__WASI_ECONNREFUSED", "__WASI_ECONNREFUSED"); ("__WASI_ECONNRESET",
  "__WASI_ECONNRESET"); ("__WASI_EDEADLK", "__WASI_EDEADLK"); ("__WASI_EDESTADDRREQ",
  "__WASI_EDESTADDRREQ"); ("__WASI_EDOM", "__WASI_EDOM"); ("__WASI_EDQUOT", "__WASI_EDQUOT");
  ("__WASI_EEXIST", "__WASI_EEXIST"); ("__WASI_EFAULT", "__WASI_EFAULT"); ("__WASI_EFBIG",
  "__WASI_EFBIG"); ("__WASI_EHOSTUNREACH", "__WASI_EHOSTUNREACH"); ("__WASI_EIDRM",
  "__WASI_EIDRM"); ("__WASI_EILSEQ", "__WASI_EILSEQ"); ("__WASI_EINPROGRESS",
  "__WASI_EINPROGRESS"); ("__WASI_EINTR", "__WASI_EINTR"); ("__WASI_EINVAL", "__WASI_EINVAL");
  ("__WASI_EIO", "__WASI_EIO"); ("__WASI_EISCONN", "__WASI_EISCONN"); ("__WASI_EISDIR",
  "__WASI_EISDIR"); ("__WASI_ELOOP", "__WASI_ELOOP"); ("__WASI_EMFILE", "__WASI_EMFILE");
  ("__WASI_EMLINK", "__WASI_EMLINK"); ("__WASI_EMSGSIZE", "__WASI_EMSGSIZE");
  ("__WASI_EMULTIHOP", "__WASI_EMULTIHOP"); ("__WASI_ENAMETOOLONG", "__WASI_ENAMETOOLONG");
  ("__WASI_ENETDOWN", "__WASI_ENETDOWN"); ("__WASI_ENETRESET", "__WASI_ENETRESET");
  ("__WASI_ENETUNREACH", "__WASI_ENETUNREACH"); ("__WASI_ENFILE", "__WASI_ENFILE");
  ("__WASI_ENOBUFS", "__WASI_ENOBUFS"); ("__WASI_ENODEV", "__WASI_ENODEV"); ("__WASI_ENOENT",
  "__WASI_ENOENT"); ("__WASI_ENOEXEC", "__WASI_ENOEXEC"); ("__WASI_ENOLCK", "__WASI_ENOLCK");
  ("__WASI_ENOLINK", "__WASI_ENOLINK"); ("__WASI_ENOMEM", "__WASI_ENOMEM"); ("__WASI_ENOMSG",
  "__WASI_ENOMSG"); ("__WASI_ENOPROTOOPT", "__WASI_ENOPROTOOPT"); ("__WASI_ENOSPC",
  "__WASI_ENOSPC"); ("__WASI_ENOSYS", "__WASI_ENOSYS"); ("__WASI_ENOTCONN", "__WASI_ENOTCONN");
  ("__WASI_ENOTDIR", "__WASI_ENOTDIR"); ("__WASI_ENOTEMPTY", "__WASI_ENOTEMPTY");
  ("__WASI_ENOTRECOVERABLE", "__WASI_ENOTRECOVERABLE"); ("__WASI_ENOTSOCK", "__WASI_ENOTSOCK");
  ("__WASI_ENOTSUP", "__WASI_ENOTSUP"); ("__WASI_ENOTTY", "__WASI_ENOTTY"); ("__WASI_ENXIO",
  "__WASI_ENXIO"); ("__WASI_EOVERFLOW", "__WASI_EOVERFLOW"); ("__WASI_EOWNERDEAD",
  "__WASI_EOWNERDEAD"); ("__WASI_EPERM", "__WASI_EPERM"); ("__WASI_EPIPE", "__WASI_EPIPE");
  ("__WASI_EPROTO", "__WASI_EPROTO"); ("__WASI_EPROTONOSUPPORT", "__WASI_EPROTONOSUPPORT");
  ("__WASI_EPROTOTYPE", "__WASI_EPROTOTYPE"); ("__WASI_ERANGE", "__WASI_ERANGE");
  ("__WASI_EROFS", "__WASI_EROFS"); ("__WASI_ESPIPE", "__WASI_ESPIPE"); ("__WASI_ESRCH",
  "__WASI_ESRCH"); ("__WASI_ESTALE", "__WASI_ESTALE"); ("__WASI_ETIMEDOUT", "__WASI_ETIMEDOUT");
  ("__WASI_ETXTBSY", "__WASI_ETXTBSY"); ("__WASI_EXDEV", "__WASI_EXDEV"); ("__WASI_ENOTCAPABLE",
  "__WASI_ENOTCAPABLE")].

(** The first arm whose constant is the number; another number panics. *)
Definition strerror (errno : Z) : res string :=
  arm ← unwrap (list_find (λ a, list_to_map (M := gmap string Z) errno_constants !! (fst a) = Some errno)
                  strerror_arms);
  Ret (snd (snd arm)).

Definition __WASI_ESUCCESS : Z := 0.
Definition __WASI_EFAULT : Z := 21.
Definition __WASI_EINVAL : Z := 28.
Definition __WASI_ENOMEM : Z := 48.
Definition __WASI_ENOTCAPABLE : Z := 76.

Definition __WASI_EVENTTYPE_CLOCK : Z := 0.
Definition __WASI_EVENTTYPE_FD_READ : Z := 1.
Definition __WASI_EVENTTYPE_FD_WRITE : Z := 2.

Definition __WASI_WHENCE_CUR : Z := 0.
Definition __WASI_WHENCE_END : Z := 1.
Definition __WASI_WHENCE_SET : Z := 2.

Definition whence_to_str (whence : Z) : res string :=
  if whence =? __WASI_WHENCE_CUR then Ret "__WASI_WHENCE_CUR"
  else if whence =? __WASI_WHENCE_END then Ret "__WASI_WHENCE_END"
  else if whence =? __WASI_WHENCE_SET then Ret "__WASI_WHENCE_SET"
  else Panic.

(** ** The layout tests

    The tests that [bindgen] generated: the sizes, alignments and offsets that the
    declarations should have. *)

Definition has_layout (t : cty) (size : Z) (align : option Z) (offsets : list (string * Z)) : bool :=
  bool_decide (c_size t = size) && from_option (λ a, bool_decide (c_align t = a)) true align &&
  forallb (λ f, bool_decide (offset_of t (fst f) = Some (snd f))) offsets.

Definition bindgen_test_layout_fsid_t : bool :=
  has_layout fsid_t 8 (Some 4)
    [("__val", 0)].
Definition bindgen_test_layout_wasi_dirent_t : bool :=
  has_layout __wasi_dirent_t 24 None
    [("d_next", 0); ("d_ino", 8); ("d_namlen", 16); ("d_type", 20)].
Definition bindgen_test_layout___wasi_event_t___wasi_event_u___wasi_event_u_fd_readwrite_t
    : bool :=
  has_layout __wasi_event_t___wasi_event_u___wasi_event_u_fd_readwrite_t 16 (Some 8)
    [("nbytes", 0); ("flags", 8)].
Definition bindgen_test_layout___wasi_event_t___wasi_event_u : bool :=
  has_layout __wasi_event_t___wasi_event_u 16 (Some 8)
    [("fd_readwrite", 0)].
Definition bindgen_test_layout___wasi_event_t : bool :=
  has_layout __wasi_event_t 32 (Some 8)
    [("userdata", 0); ("error", 8); ("type_", 10); ("u", 16)].
Definition bindgen_test_layout___wasi_prestat_t___wasi_prestat_u___wasi_prestat_u_dir_t : bool :=
  has_layout __wasi_prestat_t___wasi_prestat_u___wasi_prestat_u_dir_t 4 (Some 4)
    [("pr_name_len", 0)].
Definition bindgen_test_layout___wasi_prestat_t___wasi_prestat_u : bool :=
  has_layout __wasi_prestat_t___wasi_prestat_u 4 (Some 4)
    [("dir", 0)].
Definition bindgen_test_layout___wasi_prestat_t : bool :=
  has_layout __wasi_prestat_t 8 (Some 4)
    [("pr_type", 0); ("u", 4)].
Definition bindgen_test_layout_wasi_event_t__bindgen_ty_1__bindgen_ty_1 : bool :=
  has_layout __wasi_event_t__bindgen_ty_1__bindgen_ty_1 16 None
    [("nbytes", 0); ("flags", 8)].
Definition bindgen_test_layout_wasi_event_t__bindgen_ty_1__bindgen_ty_2 : bool :=
  has_layout __wasi_event_t__bindgen_ty_1__bindgen_ty_2 8 (Some 4)
    [("signal", 0); ("exitcode", 4)].
Definition bindgen_test_layout_wasi_event_t__bindgen_ty_1 : bool :=
  has_layout __wasi_event_t__bindgen_ty_1 16 None
    [("fd_readwrite", 0)].
Definition bindgen_test_layout_wasi_event_t : bool :=
  has_layout __wasi_event_t 32 None
    [("userdata", 0); ("error", 8); ("type_", 10)].
Definition bindgen_test_layout_wasi_fdstat_t : bool :=
  has_layout __wasi_fdstat_t 24 None
    [("fs_filetype", 0); ("fs_flags", 2); ("fs_rights_base", 8); ("fs_rights_inheriting", 16)].
Definition bindgen_test_layout_wasi_filestat_t : bool :=
  has_layout __wasi_filestat_t 56 None
    [("st_dev", 0); ("st_ino", 8); ("st_filetype", 16); ("st_nlink", 20); ("st_size", 24);
     ("st_atim", 32); ("st_mtim", 40); ("st_ctim", 48)].
Definition bindgen_test_layout_wasi_ciovec_t : bool :=
  has_layout __wasi_ciovec_t 8 (Some 4)
    [("buf", 0); ("buf_len", 4)].
Definition bindgen_test_layout_wasi_iovec_t : bool :=
  has_layout __wasi_iovec_t 8 (Some 4)
    [("buf", 0); ("buf_len", 4)].
Definition bindgen_test_layout___wasi_subscription_t___wasi_subscription_u___wasi_subscription_u_clock_t
    : bool :=
  has_layout __wasi_subscription_t___wasi_subscription_u___wasi_subscription_u_clock_t 40 (Some 8)
    [("identifier", 0); ("clock_id", 8); ("timeout", 16); ("precision", 24); ("flags", 32)].
Definition bindgen_test_layout___wasi_subscription_t___wasi_subscription_u___wasi_subscription_u_fd_readwrite_t
    : bool :=
  has_layout __wasi_subscription_t___wasi_subscription_u___wasi_subscription_u_fd_readwrite_t 4 (Some 4)
    [("fd", 0)].
Definition bindgen_test_layout___wasi_subscription_t___wasi_subscription_u : bool :=
  has_layout __wasi_subscription_t___wasi_subscription_u 40 (Some 8)
    [("clock", 0); ("fd_readwrite", 0)].
Definition bindgen_test_layout___wasi_subscription_t : bool :=
  has_layout __wasi_subscription_t 56 (Some 8)
    [("userdata", 0); ("type_", 8); ("u", 16)].

(** All the layout tests of the file. *)
Definition layout_tests : list bool := [
  bindgen_test_layout_fsid_t;
  bindgen_test_layout_wasi_dirent_t;
  bindgen_test_layout___wasi_event_t___wasi_event_u___wasi_event_u_fd_readwrite_t;
  bindgen_test_layout___wasi_event_t___wasi_event_u;
  bindgen_test_layout___wasi_event_t;
  bindgen_test_layout___wasi_prestat_t___wasi_prestat_u___wasi_prestat_u_dir_t;
  bindgen_test_layout___wasi_prestat_t___wasi_prestat_u;
  bindgen_test_layout___wasi_prestat_t;
  bindgen_test_layout_wasi_event_t__bindgen_ty_1__bindgen_ty_1;
  bindgen_test_layout_wasi_event_t__bindgen_ty_1__bindgen_ty_2;
  bindgen_test_layout_wasi_event_t__bindgen_ty_1;
  bindgen_test_layout_wasi_event_t;
  bindgen_test_layout_wasi_fdstat_t;
  bindgen_test_layout_wasi_filestat_t;
  bindgen_test_layout_wasi_ciovec_t;
  bindgen_test_layout_wasi_iovec_t;
  bindgen_test_layout___wasi_subscription_t___wasi_subscription_u___wasi_subscription_u_clock_t;
  bindgen_test_layout___wasi_subscription_t___wasi_subscription_u___wasi_subscription_u_fd_readwrite_t;
  bindgen_test_layout___wasi_subscription_t___wasi_subscription_u;
  bindgen_test_layout___wasi_subscription_t].

(** ** Lemmas *)

Lemma layout_tests_hold : forallb id layout_tests = true.
Proof. vm_compute. reflexivity. Qed.

(** *** Fields of packed structures *)

Lemma align_up_ge x a : 0 < a → x ≤ align_up x a.
Proof.
  intros Ha. unfold align_up. pose proof (Z.mod_pos_bound (x + (a - 1)) a Ha).
  pose proof (Z.div_mod (x + (a - 1)) a). lia.
Qed.

(** The fields have a positive alignment, and values of their sizes. *)
Definition well_packed (fs : list (string * cty)) (vs : list (list Z)) : Prop :=
  Forall2 (λ f v, 0 < c_align (snd f) ∧ zlen v = c_size (snd f)) fs vs.

(** The end of the last field. *)
Definition struct_end (fs : list (string * cty)) : Z :=
  fold_left (λ o f, align_up o (c_align (snd f)) + c_size (snd f)) fs 0.

Lemma pack_at_len fs vs : well_packed fs vs → zlen (pack_at 0 fs vs) = struct_end fs.
Proof.
  intros Hw. unfold struct_end. rewrite <-(Z.sub_0_r (fold_left _ _ _)).
  generalize 0 as off. induction Hw as [|[n t] v fs vs [Ha Hv] _ IH]; intros off; [unfold zlen; cbn; lia|cbn].
  cbn [snd] in *. rewrite !zlen_app, IH, Hv. pose proof (align_up_ge off _ Ha).
  unfold zlen at 1. rewrite length_replicate, Z2Nat.id by lia. lia.
Qed.

(** A field read from packed bytes is the value that was packed. *)
Lemma find_field_pack off fs vs name k o t v :
  well_packed fs vs →
  list_find (λ f, fst f = name) fs = Some (k, (name, t)) → vs !! k = Some v →
  find_field off fs name = Some (o, t) →
  off ≤ o ∧ take (Z.to_nat (c_size t)) (drop (Z.to_nat (o - off)) (pack_at off fs vs)) = v.
Proof.
  intros Hw. revert off k. induction Hw as [|[n t'] w fs vs [Ha Hv] _ IH]; intros off k Hf Hk Ho;
    [done|]. cbn [list_find find_field pack_at fst snd] in *. pose proof (align_up_ge off _ Ha).
  pose proof (zlen_nonneg w).
  destruct (decide (n = name)) as [->|Hne].
  - rewrite bool_decide_true in Ho by done. simplify_eq/=.
    split; [done|].
    rewrite drop_app_length' by (by rewrite length_replicate).
    rewrite take_app_length'; [done|]. unfold zlen in Hv. lia.
  - rewrite bool_decide_false in Ho by done.
    destruct (list_find _ fs) as [[k' f]|] eqn:E; cbn [fmap option_fmap option_map] in Hf; [|done]. simplify_eq/=.
    edestruct (IH _ _ eq_refl Hk Ho) as [Hle Heq]; [done..|]. split; [lia|].
    etrans; [|exact Heq]. f_equal.
    rewrite app_assoc, drop_app_ge; rewrite length_app, length_replicate; [|unfold zlen in *; lia].
    f_equal. unfold zlen in *. lia.
Qed.

Lemma get_bytes_pack fs vs name k o t v :
  well_packed fs vs →
  list_find (λ f, fst f = name) fs = Some (k, (name, t)) → vs !! k = Some v →
  find_field 0 fs name = Some (o, t) → o + c_size t ≤ struct_end fs →
  get_bytes (CStruct fs) (pack fs vs) name = v.
Proof.
  intros Hw Hf Hk Ho Hend. unfold get_bytes, field_of. rewrite Ho.
  rewrite <-(pack_at_len fs vs) in Hend by done.
  destruct (find_field_pack 0 fs vs name k o t v) as [Hle Heq]; [done..|].
  rewrite Z.sub_0_r in Heq. rewrite <-Heq. unfold pack.
  assert (0 ≤ c_size t).
  { apply list_find_Some in Hf as (Hf & _ & _).
    destruct (Forall2_lookup_lr _ _ _ _ _ _ Hw Hf Hk) as [_ Hv]. cbn in Hv. rewrite <-Hv.
    apply zlen_nonneg. }
  rewrite drop_app_le by (unfold zlen in *; lia). rewrite take_app_le; [done|].
  rewrite length_drop. unfold zlen in *. lia.
Qed.

(** The laws of a type: values have bytes of its size and are read back. *)
Definition ctype_laws {A} (T : ctype A) : Prop :=
  @size_of A (ct_repr T) = c_size T ∧ @ReprCLaws A (ct_repr T).

Lemma uint_laws n : (0 < n)%nat → ctype_laws (uint n).
Proof.
  intros Hn. split; [done|split]; cbn.
  - lia.
  - intros a _. apply zlen_le_bytes.
  - intros a Ha. rewrite le_val_bytes. by apply Z.mod_small.
Qed.

Lemma get_int_pack fs vs name k o t n x :
  well_packed fs vs →
  list_find (λ f, fst f = name) fs = Some (k, (name, t)) → vs !! k = Some (le_bytes n x) →
  find_field 0 fs name = Some (o, t) → o + c_size t ≤ struct_end fs → fits (Z.of_nat n) x →
  get_int (CStruct fs) (pack fs vs) name = x.
Proof.
  intros Hw Hf Hk Ho Hend Hx. unfold get_int. erewrite get_bytes_pack by done.
  rewrite le_val_bytes. by apply Z.mod_small.
Qed.

Ltac solve_ctype :=
  split; [reflexivity|split; [reflexivity| |]];
  intros []; cbn -[get_int get_bytes pack le_bytes c_size Z.mul Z.pow zlen];
  intros; destruct_and?;
  match goal with
  | |- context [pack ?fs ?vs] =>
      assert (well_packed fs vs) as Hw;
      [repeat constructor; cbn [snd]; try done; rewrite ?zlen_le_bytes; done|]
  end;
  [unfold pack; rewrite zlen_app; unfold zlen at 2; rewrite length_replicate, pack_at_len by done;
   reflexivity
  |f_equal; (eapply get_int_pack || eapply get_bytes_pack);
     [eassumption|reflexivity|reflexivity|reflexivity|vm_compute; discriminate|..]; done].

Lemma fdstat_laws : ctype_laws __wasi_fdstat_t.
Proof. solve_ctype. Qed.
Lemma filestat_laws : ctype_laws __wasi_filestat_t.
Proof. solve_ctype. Qed.
Lemma prestat_laws : ctype_laws __wasi_prestat_t.
Proof. solve_ctype. Qed.
Lemma event_laws : ctype_laws __wasi_event_t.
Proof. solve_ctype. Qed.
Lemma event_fd_readwrite_laws :
  ctype_laws __wasi_event_t___wasi_event_u___wasi_event_u_fd_readwrite_t.
Proof. solve_ctype. Qed.
Lemma ciovec_laws : ctype_laws __wasi_ciovec_t.
Proof. solve_ctype. Qed.
Lemma iovec_laws : ctype_laws __wasi_iovec_t.
Proof. solve_ctype. Qed.
Lemma subscription_laws : ctype_laws __wasi_subscription_t.
Proof. solve_ctype. Qed.
Lemma subscription_clock_laws :
  ctype_laws __wasi_subscription_t___wasi_subscription_u___wasi_subscription_u_clock_t.
Proof. solve_ctype. Qed.

(** *** Error names *)

Lemma strerror_total e : 0 ≤ e ≤ __WASI_ENOTCAPABLE → ∃ s, strerror e = Ret s.
Proof.
  intros He. apply is_ret_iff.
  assert (forallb (λ e, is_ret (strerror e)) (seqZ 0 77) = true) as Hall
    by (vm_compute; reflexivity).
  rewrite forallb_forall in Hall. apply Hall, list_elem_of_In, elem_of_seqZ.
  unfold __WASI_ENOTCAPABLE in He. lia.
Qed.
