(* ===== verification/WasiInterface.v ===== *)
(** * The WASI interface

    The calls that both implementations of WASI offer, with the conversions
    between their parameters and the integers of the calling convention: the
    [syscalls!] macro and the traits [AbiRet] and [AbiParam] of
    [wasmtime-wasi-c/src/syscalls.rs] and [wasmtime-wasi/src/syscalls.rs], and
    the [signature!] macro of their [instantiate.rs]. *)

From S2P Require Import Prelude Environ ModuleEnv WasiTypes.
Local Open Scope string_scope.
Local Open Scope list_scope.
Local Open Scope Z_scope.

(** ** The calling convention *)

(** The integer types of parameters and results. *)
Inductive int_ty := Ti8 | Ti16 | Ti32 | Tu8 | Tu16 | Tu32 | Ti64 | Tu64.

Definition codegen_ty (t : int_ty) : ir_type :=
  match t with Ti64 | Tu64 => I64 | _ => I32 end.

(** [AbiParam::convert]: [param as $i], from an [i32] or [i64]. *)
Definition param_convert (t : int_ty) (param : Z) : Z :=
  match t with
  | Ti8 => wrap_s 8 param | Ti16 => wrap_s 16 param | Ti32 => wrap_s 32 param
  | Tu8 => wrap_u 8 param | Tu16 => wrap_u 16 param | Tu32 => wrap_u 32 param
  | Ti64 => wrap_s 64 param | Tu64 => wrap_u 64 param
  end.

(** [AbiRet::convert]: [self as i32] or [self as i64]. *)
Definition ret_convert (t : int_ty) (self : Z) : Z :=
  match t with Ti64 | Tu64 => wrap_s 64 self | _ => wrap_s 32 self end.

(** ** The calls *)

Inductive syscall :=
| Sys_args_get (argv argv_buf : Z)
| Sys_args_sizes_get (argc argv_buf_size : Z)
| Sys_clock_res_get (clock_id resolution : Z)
| Sys_clock_time_get (clock_id precision time : Z)
| Sys_environ_get (environ environ_buf : Z)
| Sys_environ_sizes_get (environ_count environ_buf_size : Z)
| Sys_fd_prestat_get (fd buf : Z)
| Sys_fd_prestat_dir_name (fd path path_len : Z)
| Sys_fd_close (fd : Z)
| Sys_fd_datasync (fd : Z)
| Sys_fd_pread (fd iovs iovs_len offset nread : Z)
| Sys_fd_pwrite (fd iovs iovs_len offset nwritten : Z)
| Sys_fd_read (fd iovs iovs_len nread : Z)
| Sys_fd_renumber (from_ to : Z)
| Sys_fd_seek (fd offset whence newoffset : Z)
| Sys_fd_tell (fd newoffset : Z)
| Sys_fd_fdstat_get (fd buf : Z)
| Sys_fd_fdstat_set_flags (fd flags : Z)
| Sys_fd_fdstat_set_rights (fd fs_rights_base fs_rights_inheriting : Z)
| Sys_fd_sync (fd : Z)
| Sys_fd_write (fd iovs iovs_len nwritten : Z)
| Sys_fd_advise (fd offset len advice : Z)
| Sys_fd_allocate (fd offset len : Z)
| Sys_path_create_directory (fd path path_len : Z)
| Sys_path_link (fd0 flags0 path0 path_len0 fd1 path1 path_len1 : Z)
| Sys_path_open (dirfd dirflags path path_len oflags fs_rights_base
    fs_rights_inheriting fs_flags fd : Z)
| Sys_fd_readdir (fd buf buf_len cookie buf_used : Z)
| Sys_path_readlink (fd path path_len buf buf_len buf_used : Z)
| Sys_path_rename (fd0 path0 path_len0 fd1 path1 path_len1 : Z)
| Sys_fd_filestat_get (fd buf : Z)
| Sys_fd_filestat_set_times (fd st_atim st_mtim fstflags : Z)
| Sys_fd_filestat_set_size (fd size : Z)
| Sys_path_filestat_get (fd flags path path_len buf : Z)
| Sys_path_filestat_set_times (fd flags path path_len st_atim st_mtim fstflags : Z)
| Sys_path_symlink (path0 path_len0 fd path1 path_len1 : Z)
| Sys_path_unlink_file (fd path path_len : Z)
| Sys_path_remove_directory (fd path path_len : Z)
| Sys_poll_oneoff (in_ out nsubscriptions nevents : Z)
| Sys_proc_exit (rval : Z)
| Sys_proc_raise (sig : Z)
| Sys_random_get (buf buf_len : Z)
| Sys_sched_yield
| Sys_sock_recv (sock ri_data ri_data_len ri_flags ro_datalen ro_flags : Z)
| Sys_sock_send (sock si_data si_data_len si_flags so_datalen : Z)
| Sys_sock_shutdown (sock how : Z).

(** The types of the parameters and of the results of each call, in the order in
    which [instantiate.rs] declares them. *)
Definition syscall_table : list (string * (list int_ty * list int_ty)) := [
  ("args_get", ([Tu32; Tu32], [Tu16]));
  ("args_sizes_get", ([Tu32; Tu32], [Tu16]));
  ("clock_res_get", ([Tu32; Tu32], [Tu16]));
  ("clock_time_get", ([Tu32; Tu64; Tu32], [Tu16]));
  ("environ_get", ([Tu32; Tu32], [Tu16]));
  ("environ_sizes_get", ([Tu32; Tu32], [Tu16]));
  ("fd_prestat_get", ([Tu32; Tu32], [Tu16]));
  ("fd_prestat_dir_name", ([Tu32; Tu32; Tu32], [Tu16]));
  ("fd_close", ([Tu32], [Tu16]));
  ("fd_datasync", ([Tu32], [Tu16]));
  ("fd_pread", ([Tu32; Tu32; Tu32; Tu64; Tu32], [Tu16]));
  ("fd_pwrite", ([Tu32; Tu32; Tu32; Tu64; Tu32], [Tu16]));
  ("fd_read", ([Tu32; Tu32; Tu32; Tu32], [Tu16]));
  ("fd_renumber", ([Tu32; Tu32], [Tu16]));
  ("fd_seek", ([Tu32; Ti64; Tu8; Tu32], [Tu16]));
  ("fd_tell", ([Tu32; Tu32], [Tu16]));
  ("fd_fdstat_get", ([Tu32; Tu32], [Tu16]));
  ("fd_fdstat_set_flags", ([Tu32; Tu16], [Tu16]));
  ("fd_fdstat_set_rights", ([Tu32; Tu64; Tu64], [Tu16]));
  ("fd_sync", ([Tu32], [Tu16]));
  ("fd_write", ([Tu32; Tu32; Tu32; Tu32], [Tu16]));
  ("fd_advise", ([Tu32; Tu64; Tu64; Tu8], [Tu16]));
  ("fd_allocate", ([Tu32; Tu64; Tu64], [Tu16]));
  ("path_create_directory", ([Tu32; Tu32; Tu32], [Tu16]));
  ("path_link", ([Tu32; Tu32; Tu32; Tu32; Tu32; Tu32; Tu32], [Tu16]));
  ("path_open", ([Tu32; Tu32; Tu32; Tu32; Tu16; Tu64; Tu64; Tu16; Tu32], [Tu16]));
  ("fd_readdir", ([Tu32; Tu32; Tu32; Tu64; Tu32], [Tu16]));
  ("path_readlink", ([Tu32; Tu32; Tu32; Tu32; Tu32; Tu32], [Tu16]));
  ("path_rename", ([Tu32; Tu32; Tu32; Tu32; Tu32; Tu32], [Tu16]));
  ("fd_filestat_get", ([Tu32; Tu32], [Tu16]));
  ("fd_filestat_set_times", ([Tu32; Tu64; Tu64; Tu16], [Tu16]));
  ("fd_filestat_set_size", ([Tu32; Tu64], [Tu16]));
  ("path_filestat_get", ([Tu32; Tu32; Tu32; Tu32; Tu32], [Tu16]));
  ("path_filestat_set_times", ([Tu32; Tu32; Tu32; Tu32; Tu64; Tu64; Tu16], [Tu16]));
  ("path_symlink", ([Tu32; Tu32; Tu32; Tu32; Tu32], [Tu16]));
  ("path_unlink_file", ([Tu32; Tu32; Tu32], [Tu16]));
  ("path_remove_directory", ([Tu32; Tu32; Tu32], [Tu16]));
  ("poll_oneoff", ([Tu32; Tu32; Tu32; Tu32], [Tu16]));
  ("proc_exit", ([Tu32], []));
  ("proc_raise", ([Tu8], [Tu16]));
  ("random_get", ([Tu32; Tu32], [Tu16]));
  ("sched_yield", ([], [Tu16]));
  ("sock_recv", ([Tu32; Tu32; Tu32; Tu16; Tu32; Tu32], [Tu16]));
  ("sock_send", ([Tu32; Tu32; Tu32; Tu16; Tu32], [Tu16]));
  ("sock_shutdown", ([Tu32; Tu8], [Tu16]))].

(** The call that a shim makes: its parameters converted to their types. *)
Definition make_syscall (name : string) (args : list Z) : option syscall :=
  match name, args with
  | "args_get", [argv; argv_buf] => Some (Sys_args_get argv argv_buf)
  | "args_sizes_get", [argc; argv_buf_size] => Some (Sys_args_sizes_get argc argv_buf_size)
  | "clock_res_get", [clock_id; resolution] => Some (Sys_clock_res_get clock_id resolution)
  | "clock_time_get", [clock_id; precision; time] => Some (Sys_clock_time_get clock_id precision
      time)
  | "environ_get", [environ; environ_buf] => Some (Sys_environ_get environ environ_buf)
  | "environ_sizes_get", [environ_count; environ_buf_size] => Some (Sys_environ_sizes_get
      environ_count environ_buf_size)
  | "fd_prestat_get", [fd; buf] => Some (Sys_fd_prestat_get fd buf)
  | "fd_prestat_dir_name", [fd; path; path_len] => Some (Sys_fd_prestat_dir_name fd path
      path_len)
  | "fd_close", [fd] => Some (Sys_fd_close fd)
  | "fd_datasync", [fd] => Some (Sys_fd_datasync fd)
  | "fd_pread", [fd; iovs; iovs_len; offset; nread] => Some (Sys_fd_pread fd iovs iovs_len offset
      nread)
  | "fd_pwrite", [fd; iovs; iovs_len; offset; nwritten] => Some (Sys_fd_pwrite fd iovs iovs_len
      offset nwritten)
  | "fd_read", [fd; iovs; iovs_len; nread] => Some (Sys_fd_read fd iovs iovs_len nread)
  | "fd_renumber", [from_; to] => Some (Sys_fd_renumber from_ to)
  | "fd_seek", [fd; offset; whence; newoffset] => Some (Sys_fd_seek fd offset whence newoffset)
  | "fd_tell", [fd; newoffset] => Some (Sys_fd_tell fd newoffset)
  | "fd_fdstat_get", [fd; buf] => Some (Sys_fd_fdstat_get fd buf)
  | "fd_fdstat_set_flags", [fd; flags] => Some (Sys_fd_fdstat_set_flags fd flags)
  | "fd_fdstat_set_rights", [fd; fs_rights_base; fs_rights_inheriting] => Some
      (Sys_fd_fdstat_set_rights fd fs_rights_base fs_rights_inheriting)
  | "fd_sync", [fd] => Some (Sys_fd_sync fd)
  | "fd_write", [fd; iovs; iovs_len; nwritten] => Some (Sys_fd_write fd iovs iovs_len nwritten)
  | "fd_advise", [fd; offset; len; advice] => Some (Sys_fd_advise fd offset len advice)
  | "fd_allocate", [fd; offset; len] => Some (Sys_fd_allocate fd offset len)
  | "path_create_directory", [fd; path; path_len] => Some (Sys_path_create_directory fd path
      path_len)
  | "path_link", [fd0; flags0; path0; path_len0; fd1; path1; path_len1] => Some (Sys_path_link
      fd0 flags0 path0 path_len0 fd1 path1 path_len1)
  | "path_open", [dirfd; dirflags; path; path_len; oflags; fs_rights_base; fs_rights_inheriting;
      fs_flags; fd] => Some (Sys_path_open dirfd dirflags path path_len oflags fs_rights_base
      fs_rights_inheriting fs_flags fd)
  | "fd_readdir", [fd; buf; buf_len; cookie; buf_used] => Some (Sys_fd_readdir fd buf buf_len
      cookie buf_used)
  | "path_readlink", [fd; path; path_len; buf; buf_len; buf_used] => Some (Sys_path_readlink fd
      path path_len buf buf_len buf_used)
  | "path_rename", [fd0; path0; path_len0; fd1; path1; path_len1] => Some (Sys_path_rename fd0
      path0 path_len0 fd1 path1 path_len1)
  | "fd_filestat_get", [fd; buf] => Some (Sys_fd_filestat_get fd buf)
  | "fd_filestat_set_times", [fd; st_atim; st_mtim; fstflags] => Some (Sys_fd_filestat_set_times
      fd st_atim st_mtim fstflags)
  | "fd_filestat_set_size", [fd; size] => Some (Sys_fd_filestat_set_size fd size)
  | "path_filestat_get", [fd; flags; path; path_len; buf] => Some (Sys_path_filestat_get fd flags
      path path_len buf)
  | "path_filestat_set_times", [fd; flags; path; path_len; st_atim; st_mtim; fstflags] => Some
      (Sys_path_filestat_set_times fd flags path path_len st_atim st_mtim fstflags)
  | "path_symlink", [path0; path_len0; fd; path1; path_len1] => Some (Sys_path_symlink path0
      path_len0 fd path1 path_len1)
  | "path_unlink_file", [fd; path; path_len] => Some (Sys_path_unlink_file fd path path_len)
  | "path_remove_directory", [fd; path; path_len] => Some (Sys_path_remove_directory fd path
      path_len)
  | "poll_oneoff", [in_; out; nsubscriptions; nevents] => Some (Sys_poll_oneoff in_ out
      nsubscriptions nevents)
  | "proc_exit", [rval] => Some (Sys_proc_exit rval)
  | "proc_raise", [sig] => Some (Sys_proc_raise sig)
  | "random_get", [buf; buf_len] => Some (Sys_random_get buf buf_len)
  | "sched_yield", [] => Some Sys_sched_yield
  | "sock_recv", [sock; ri_data; ri_data_len; ri_flags; ro_datalen; ro_flags] => Some
      (Sys_sock_recv sock ri_data ri_data_len ri_flags ro_datalen ro_flags)
  | "sock_send", [sock; si_data; si_data_len; si_flags; so_datalen] => Some (Sys_sock_send sock
      si_data si_data_len si_flags so_datalen)
  | "sock_shutdown", [sock; how] => Some (Sys_sock_shutdown sock how)
  | _, _ => None
  end.

Definition shim_call (name : string) (args : list Z) : option syscall :=
  '(params, _) ← imap_get syscall_table name;
  if bool_decide (length args = length params)
  then make_syscall name (zip_with param_convert params args) else None.

(** ** The module of an instance that implements the interface *)

Section module.
Context (abi_special : ir_type → ArgumentPurpose → AbiParam).
Context (pointer_type : ir_type) (abi_new : ir_type → AbiParam) (triple_default : Z).

(** One use of [signature!], with the address of the shim. *)
Definition signature_ (prefix : string) (shim : string → Z) (st : Module_ * list Z)
    (row : string * (list int_ty * list int_ty)) : Module_ * list Z :=
  let '(module, finished_functions) := st in
  let '(name, (ps, rs)) := row in
  let sig := zlen (signatures module) in
  let module := set_signatures module (signatures module ++
    [translate_signature abi_special
       (mkSignature (map abi_new (map codegen_ty ps)) (map abi_new (map codegen_ty rs))
          triple_default) pointer_type]) in
  let func := zlen (functions module) in
  let module := push_func_import module (functions module ++ [sig]) (imported_funcs module) in
  let module := set_exports module
    (imap_insert (exports module) (prefix +:+ name) (ExportFunction func)) in
  (module, finished_functions ++ [shim name]).

Definition wasi_module (prefix : string) (shim : string → Z) : Module_ * list Z :=
  fold_left (signature_ prefix shim) syscall_table (Module_new, []).
End module.

(** ** Lemmas *)

(** The parameters of a call are in the range of their types. *)
Definition args_ok (sc : syscall) : Prop :=
  match sc with
  | Sys_args_get argv argv_buf => fits 4 argv ∧ fits 4 argv_buf
  | Sys_args_sizes_get argc argv_buf_size => fits 4 argc ∧ fits 4 argv_buf_size
  | Sys_clock_res_get clock_id resolution => fits 4 clock_id ∧ fits 4 resolution
  | Sys_clock_time_get clock_id precision time => fits 4 clock_id ∧ fits 8 precision ∧ fits 4
      time
  | Sys_environ_get environ environ_buf => fits 4 environ ∧ fits 4 environ_buf
  | Sys_environ_sizes_get environ_count environ_buf_size => fits 4 environ_count ∧ fits 4
      environ_buf_size
  | Sys_fd_prestat_get fd buf => fits 4 fd ∧ fits 4 buf
  | Sys_fd_prestat_dir_name fd path path_len => fits 4 fd ∧ fits 4 path ∧ fits 4 path_len
  | Sys_fd_close fd => fits 4 fd
  | Sys_fd_datasync fd => fits 4 fd
  | Sys_fd_pread fd iovs iovs_len offset nread => fits 4 fd ∧ fits 4 iovs ∧ fits 4 iovs_len ∧
      fits 8 offset ∧ fits 4 nread
  | Sys_fd_pwrite fd iovs iovs_len offset nwritten => fits 4 fd ∧ fits 4 iovs ∧ fits 4 iovs_len ∧
      fits 8 offset ∧ fits 4 nwritten
  | Sys_fd_read fd iovs iovs_len nread => fits 4 fd ∧ fits 4 iovs ∧ fits 4 iovs_len ∧ fits 4
      nread
  | Sys_fd_renumber from_ to => fits 4 from_ ∧ fits 4 to
  | Sys_fd_seek fd _ whence newoffset => fits 4 fd ∧ fits 1 whence ∧ fits 4 newoffset
  | Sys_fd_tell fd newoffset => fits 4 fd ∧ fits 4 newoffset
  | Sys_fd_fdstat_get fd buf => fits 4 fd ∧ fits 4 buf
  | Sys_fd_fdstat_set_flags fd flags => fits 4 fd ∧ fits 2 flags
  | Sys_fd_fdstat_set_rights fd fs_rights_base fs_rights_inheriting => fits 4 fd ∧ fits 8
      fs_rights_base ∧ fits 8 fs_rights_inheriting
  | Sys_fd_sync fd => fits 4 fd
  | Sys_fd_write fd iovs iovs_len nwritten => fits 4 fd ∧ fits 4 iovs ∧ fits 4 iovs_len ∧ fits 4
      nwritten
  | Sys_fd_advise fd offset len advice => fits 4 fd ∧ fits 8 offset ∧ fits 8 len ∧ fits 1 advice
  | Sys_fd_allocate fd offset len => fits 4 fd ∧ fits 8 offset ∧ fits 8 len
  | Sys_path_create_directory fd path path_len => fits 4 fd ∧ fits 4 path ∧ fits 4 path_len
  | Sys_path_link fd0 flags0 path0 path_len0 fd1 path1 path_len1 => fits 4 fd0 ∧ fits 4 flags0 ∧
      fits 4 path0 ∧ fits 4 path_len0 ∧ fits 4 fd1 ∧ fits 4 path1 ∧ fits 4 path_len1
  | Sys_path_open dirfd dirflags path path_len oflags fs_rights_base fs_rights_inheriting
      fs_flags fd => fits 4 dirfd ∧ fits 4 dirflags ∧ fits 4 path ∧ fits 4 path_len ∧ fits 2
      oflags ∧ fits 8 fs_rights_base ∧ fits 8 fs_rights_inheriting ∧ fits 2 fs_flags ∧ fits 4 fd
  | Sys_fd_readdir fd buf buf_len cookie buf_used => fits 4 fd ∧ fits 4 buf ∧ fits 4 buf_len ∧
      fits 8 cookie ∧ fits 4 buf_used
  | Sys_path_readlink fd path path_len buf buf_len buf_used => fits 4 fd ∧ fits 4 path ∧ fits 4
      path_len ∧ fits 4 buf ∧ fits 4 buf_len ∧ fits 4 buf_used
  | Sys_path_rename fd0 path0 path_len0 fd1 path1 path_len1 => fits 4 fd0 ∧ fits 4 path0 ∧ fits 4
      path_len0 ∧ fits 4 fd1 ∧ fits 4 path1 ∧ fits 4 path_len1
  | Sys_fd_filestat_get fd buf => fits 4 fd ∧ fits 4 buf
  | Sys_fd_filestat_set_times fd st_atim st_mtim fstflags => fits 4 fd ∧ fits 8 st_atim ∧ fits 8
      st_mtim ∧ fits 2 fstflags
  | Sys_fd_filestat_set_size fd size => fits 4 fd ∧ fits 8 size
  | Sys_path_filestat_get fd flags path path_len buf => fits 4 fd ∧ fits 4 flags ∧ fits 4 path ∧
      fits 4 path_len ∧ fits 4 buf
  | Sys_path_filestat_set_times fd flags path path_len st_atim st_mtim fstflags => fits 4 fd ∧
      fits 4 flags ∧ fits 4 path ∧ fits 4 path_len ∧ fits 8 st_atim ∧ fits 8 st_mtim ∧ fits 2
      fstflags
  | Sys_path_symlink path0 path_len0 fd path1 path_len1 => fits 4 path0 ∧ fits 4 path_len0 ∧ fits
      4 fd ∧ fits 4 path1 ∧ fits 4 path_len1
  | Sys_path_unlink_file fd path path_len => fits 4 fd ∧ fits 4 path ∧ fits 4 path_len
  | Sys_path_remove_directory fd path path_len => fits 4 fd ∧ fits 4 path ∧ fits 4 path_len
  | Sys_poll_oneoff in_ out nsubscriptions nevents => fits 4 in_ ∧ fits 4 out ∧ fits 4
      nsubscriptions ∧ fits 4 nevents
  | Sys_proc_exit rval => fits 4 rval
  | Sys_proc_raise sig => fits 1 sig
  | Sys_random_get buf buf_len => fits 4 buf ∧ fits 4 buf_len
  | Sys_sched_yield => True
  | Sys_sock_recv sock ri_data ri_data_len ri_flags ro_datalen ro_flags => fits 4 sock ∧ fits 4
      ri_data ∧ fits 4 ri_data_len ∧ fits 2 ri_flags ∧ fits 4 ro_datalen ∧ fits 4 ro_flags
  | Sys_sock_send sock si_data si_data_len si_flags so_datalen => fits 4 sock ∧ fits 4 si_data ∧
      fits 4 si_data_len ∧ fits 2 si_flags ∧ fits 4 so_datalen
  | Sys_sock_shutdown sock how => fits 4 sock ∧ fits 1 how
  end.
