(* ===== verification/WasiTranslate.v ===== *)
(** * Values between a WASI guest and the host

    Models [wasmtime-wasi-c/src/translate.rs]: addresses of the guest are
    checked against the memory that some instance exports under the name
    [memory] and become addresses of the host; values are decoded from and
    encoded to the guest's memory. *)

From S2P Require Import Prelude Environ VMOffsets Store Registry Memory VMContext Table Instance WasiTypes.
Local Open Scope string_scope.
Local Open Scope list_scope.
Local Open Scope Z_scope.

(** [?] on results inside computations that may panic. *)
Definition try_bind {A B E} (m : res (result A E)) (k : A → res (result B E)) : res (result B E) :=
  r ← m; match r with Ok a => k a | Err e => Ret (Err e) end.
Notation "x ←? m ; k" := (try_bind m (λ x, k))
  (at level 20, m at level 100, k at level 200, right associativity).

(** An iterator of results collected into a result: the first error wins. *)
Fixpoint collect {A B E} (f : A → res (result B E)) (l : list A) : res (result (list B) E) :=
  match l with
  | [] => Ret (Ok [])
  | a :: l => b ←? f a; bs ←? collect f l; Ret (Ok (b :: bs))
  end.

(** The values of a slice of [n] elements at the host address [ptr]. *)
Definition read_slice {A} (T : ctype A) (m : mem) (ptr : Z) (n : Z) : list A :=
  map (λ i, @load_val A (ct_repr T) m (ptr + i * c_size T)) (seqZ 0 n).

(** ** Values of the host

    The declarations of [wasmtime_ssp.h], with the pointers of the host. *)

Record host_iovec := mkHostIovec { hio_buf : Z; hio_buf_len : Z }.
Record host_ciovec := mkHostCiovec { hcio_buf : Z; hcio_buf_len : Z }.

(** The member of the union that was written last. *)
Inductive host_subscription_u :=
| SubscriptionZeroed
| SubscriptionClock (identifier clock_id timeout precision flags : Z)
| SubscriptionFdReadwrite (fd : Z).
Record host_subscription := mkHostSubscription {
  hsu_userdata : Z;
  hsu_type_ : Z;
  hsu_u : host_subscription_u;
}.

Record host_event := mkHostEvent {
  hev_userdata : Z;
  hev_error : Z;
  hev_type_ : Z;
  hev_nbytes : Z;  (* [u.fd_readwrite.nbytes] *)
  hev_flags : Z;   (* [u.fd_readwrite.flags] *)
}.
Record host_prestat := mkHostPrestat { hpr_type : Z; hpr_name_len : Z }.
Record host_fdstat := mkHostFdstat {
  hfs_filetype : Z;
  hfs_flags : Z;
  hfs_rights_base : Z;
  hfs_rights_inheriting : Z;
}.
Record host_filestat := mkHostFilestat {
  hst_dev : Z;
  hst_ino : Z;
  hst_filetype : Z;
  hst_nlink : Z;
  hst_size : Z;
  hst_atim : Z;
  hst_mtim : Z;
  hst_ctim : Z;
}.

(** ** Numbers *)

Definition encode_device (device : Z) : Z := device.
Definition encode_inode (inode : Z) : Z := inode.
Definition encode_linkcount (linkcount : Z) : Z := linkcount.
Definition decode_userdata (userdata : Z) : Z := userdata.
Definition encode_userdata (userdata : Z) : Z := userdata.
Definition decode_eventtype (eventtype : Z) : Z := eventtype.
Definition encode_eventtype (eventtype : Z) : Z := eventtype.
Definition decode_filesize (filesize : Z) : Z := filesize.
Definition encode_filesize (filesize : Z) : Z := filesize.
Definition encode_eventrwflags (eventrwflags : Z) : Z := eventrwflags.
Definition decode_subclockflags (subclockflags : Z) : Z := subclockflags.
Definition decode_fd (fd : Z) : Z := fd.
Definition decode_filedelta (filedelta : Z) : Z := filedelta.
Definition decode_whence (whence : Z) : Z := whence.
Definition decode_clockid (clockid : Z) : Z := clockid.
Definition decode_timestamp (timestamp : Z) : Z := timestamp.
Definition encode_timestamp (timestamp : Z) : Z := timestamp.
Definition decode_exitcode (exitcode : Z) : Z := exitcode.
Definition decode_lookupflags (lookupflags : Z) : Z := lookupflags.
Definition decode_oflags (oflags : Z) : Z := oflags.
Definition decode_advice (advice : Z) : Z := advice.
Definition decode_dircookie (dircookie : Z) : Z := dircookie.
Definition encode_preopentype (preopentype : Z) : Z := preopentype.
Definition encode_filetype (filetype : Z) : Z := filetype.
Definition decode_fstflags (fstflags : Z) : Z := fstflags.
Definition encode_fstflags (fstflags : Z) : Z := fstflags.
Definition decode_fdflags (fdflags : Z) : Z := fdflags.
Definition encode_fdflags (fdflags : Z) : Z := fdflags.
Definition decode_sdflags (sdflags : Z) : Z := sdflags.
Definition decode_rights (rights : Z) : Z := rights.
Definition encode_rights (rights : Z) : Z := rights.
Definition decode_riflags (riflags : Z) : Z := riflags.
Definition decode_siflags (siflags : Z) : Z := siflags.

Definition encode_usize (len : Z) : res Z := unwrap (try_from_u 32 len).

Definition encode_errno (e : Z) : res Z := _ ← rassert (e <=? __WASI_ENOTCAPABLE); Ret e.

(** ** Pointers *)

Section translate.
Context `{InstanceLayout}.
Implicit Types σ : rt.

Definition decode_ptr σ (vmctx ptr len align : Z) : res (result Z Z) :=
  export ← lookup_global_export σ (instance_of_vmctx vmctx) "memory";
  match export with
  | Some (RtMemory definition _ _) =>
      let d : VMMemoryDefinition := load_val (rt_mem σ) definition in
      _ ←? (if 0 <? len then
             match checked_add 64 ptr (len - 1) with
             | Some last =>
                 if md_current_length d <=? last then Ret (Err __WASI_EFAULT) else Ret (Ok tt)
             | None => Ret (Err __WASI_EFAULT)
             end
           else Ret (Ok tt));
      if negb (ptr mod align =? 0) then Ret (Err __WASI_EINVAL)
      else p ← op_add 64 (md_base d) ptr; Ret (Ok p)
  | _ => Ret (Err __WASI_EINVAL)
  end.

Definition decode_ptr_to σ (vmctx : Z) (T : cty) (ptr : Z) : res (result Z Z) :=
  decode_ptr σ vmctx ptr (c_size T) (c_align T).

Definition decode_pointee σ (vmctx : Z) (T : cty) (ptr : Z) : res (result unit Z) :=
  _ ←? decode_ptr_to σ vmctx T ptr; Ret (Ok tt).

Definition encode_pointee {A} σ (vmctx : Z) (T : ctype A) (ptr : Z) (t : A) : res rt :=
  r ← decode_ptr_to σ vmctx T ptr;
  match r with
  | Ok p => Ret (with_mem σ (@ptr_write A (ct_repr T) (rt_mem σ) p t))
  | Err _ => Panic
  end.

Definition decode_slice_of σ (vmctx : Z) (T : cty) (ptr len : Z) : res (result (Z * Z) Z) :=
  len ← unwrap (try_from_u 64 len);
  bytes ← unwrap (checked_mul 64 (c_size T) len);
  ptr ←? decode_ptr σ vmctx ptr bytes (c_align T);
  Ret (Ok (ptr, len)).

(** ** Strings and vectors *)

Definition decode_char_slice σ (vmctx ptr len : Z) : res (result (Z * Z) Z) :=
  decode_slice_of σ vmctx c_char ptr len.

Definition decode_charstar_slice σ (vmctx ptr count : Z) : res (result (Z * Z) Z) :=
  decode_slice_of σ vmctx uintptr_t ptr count.

(** The loop writes one guest address per host pointer. *)
Fixpoint encode_charstar_slice_from (i : Z) (m : mem) (ptr : Z) (host_vec : list Z)
    (guest_base host_base : Z) : res mem :=
  match host_vec with
  | [] => Ret m
  | host :: host_vec =>
      guest ← (if host =? 0 then Ret 0
               else d ← op_sub 64 host host_base; op_add 32 guest_base (wrap_u 32 d));
      encode_charstar_slice_from (i + 1)
        (@ptr_write Z (ct_repr uintptr_t) m (ptr + i * c_size uintptr_t) guest)
        ptr host_vec guest_base host_base
  end.
Definition encode_charstar_slice σ (ptr : Z) (host_vec : list Z) (guest_base host_base : Z)
    : res rt :=
  m ← encode_charstar_slice_from 0 (rt_mem σ) ptr host_vec guest_base host_base;
  Ret (with_mem σ m).

Definition decode_ciovec σ (vmctx : Z) (ciovec : wasm32_ciovec) : res (result host_ciovec Z) :=
  len ← unwrap (try_from_u 64 (cio_buf_len ciovec));
  buf ←? decode_ptr σ vmctx (cio_buf ciovec) len 1;
  Ret (Ok (mkHostCiovec buf len)).

Definition decode_iovec σ (vmctx : Z) (iovec : wasm32_iovec) : res (result host_iovec Z) :=
  len ← unwrap (try_from_u 64 (io_buf_len iovec));
  buf ←? decode_ptr σ vmctx (io_buf iovec) len 1;
  Ret (Ok (mkHostIovec buf len)).

Definition decode_ciovec_slice σ (vmctx ptr len : Z) : res (result (list host_ciovec) Z) :=
  slice ←? decode_slice_of σ vmctx __wasi_ciovec_t ptr len;
  collect (decode_ciovec σ vmctx)
    (read_slice __wasi_ciovec_t (rt_mem σ) (fst slice) (snd slice)).

Definition decode_iovec_slice σ (vmctx ptr len : Z) : res (result (list host_iovec) Z) :=
  slice ←? decode_slice_of σ vmctx __wasi_iovec_t ptr len;
  collect (decode_iovec σ vmctx)
    (read_slice __wasi_iovec_t (rt_mem σ) (fst slice) (snd slice)).

(** ** Subscriptions and events *)

Definition decode_subscription (guest : wasm32_subscription) : res (result host_subscription Z) :=
  let userdata := decode_userdata (su_userdata guest) in
  let type_ := decode_eventtype (su_type_ guest) in
  if su_type_ guest =? __WASI_EVENTTYPE_CLOCK then
    let clock := union_get (su_u guest)
      __wasi_subscription_t___wasi_subscription_u___wasi_subscription_u_clock_t in
    Ret (Ok (mkHostSubscription userdata type_
      (SubscriptionClock (decode_userdata (sc_identifier clock)) (decode_clockid (sc_clock_id clock))
         (decode_timestamp (sc_timeout clock)) (decode_timestamp (sc_precision clock))
         (decode_subclockflags (sc_flags clock)))))
  else if (su_type_ guest =? __WASI_EVENTTYPE_FD_READ) || (su_type_ guest =? __WASI_EVENTTYPE_FD_WRITE)
  then
    let fd := union_get (su_u guest)
      __wasi_subscription_t___wasi_subscription_u___wasi_subscription_u_fd_readwrite_t in
    Ret (Ok (mkHostSubscription userdata type_ (SubscriptionFdReadwrite (decode_fd fd))))
  else Ret (Err __WASI_EINVAL).

Definition decode_subscription_slice σ (vmctx ptr len : Z)
    : res (result (list host_subscription) Z) :=
  slice ←? decode_slice_of σ vmctx __wasi_subscription_t ptr len;
  collect decode_subscription
    (read_slice __wasi_subscription_t (rt_mem σ) (fst slice) (snd slice)).

Definition encode_event (host : host_event) : res wasm32_event :=
  error ← encode_errno (hev_error host);
  let guest u := mkEvent (encode_userdata (hev_userdata host)) error
                   (encode_eventtype (hev_type_ host)) 0 u in
  let zeroed := union_zeroed __wasi_event_t___wasi_event_u in
  if hev_type_ host =? __WASI_EVENTTYPE_CLOCK then Ret (guest zeroed)
  else if (hev_type_ host =? __WASI_EVENTTYPE_FD_READ) || (hev_type_ host =? __WASI_EVENTTYPE_FD_WRITE)
  then
    Ret (guest (union_set zeroed __wasi_event_t___wasi_event_u___wasi_event_u_fd_readwrite_t
      (mkEventFdReadwrite (encode_filesize (hev_nbytes host)) (encode_eventrwflags (hev_flags host))
         (replicate 6 0))))
  else Panic.

Definition decode_event_slice σ (vmctx ptr len : Z) : res (result (Z * Z) Z) :=
  decode_slice_of σ vmctx __wasi_event_t ptr len.

(** [ptr.add(n)] of a pointer to events is [n * size_of] bytes further, and
    the loop passes [i * size_of] as [n]. *)
Fixpoint encode_event_slice_from (i : Z) (m : mem) (ptr : Z) (host_vec : list host_event)
    : res mem :=
  match host_vec with
  | [] => Ret m
  | host :: host_vec =>
      guest ← encode_event host;
      n ← op_mul 64 i (c_size __wasi_event_t);
      encode_event_slice_from (i + 1)
        (@ptr_write wasm32_event (ct_repr __wasi_event_t) m (ptr + n * c_size __wasi_event_t) guest)
        ptr host_vec
  end.
Definition encode_event_slice σ (ptr : Z) (host_vec : list host_event) : res rt :=
  m ← encode_event_slice_from 0 (rt_mem σ) ptr host_vec; Ret (with_mem σ m).

(** ** Results by reference *)

Definition decode_fd_byref σ (vmctx fd_ptr : Z) : res (result unit Z) :=
  decode_pointee σ vmctx __wasi_fd_t fd_ptr.
Definition encode_fd_byref σ (vmctx fd_ptr fd : Z) : res rt :=
  fd ← unwrap (try_from_u 32 fd); encode_pointee σ vmctx __wasi_fd_t fd_ptr fd.

Definition decode_timestamp_byref σ (vmctx timestamp_ptr : Z) : res (result unit Z) :=
  decode_pointee σ vmctx __wasi_timestamp_t timestamp_ptr.
Definition encode_timestamp_byref σ (vmctx timestamp_ptr host_timestamp : Z) : res rt :=
  t ← unwrap (try_from_u 64 host_timestamp);
  encode_pointee σ vmctx __wasi_timestamp_t timestamp_ptr t.

Definition decode_filesize_byref σ (vmctx filesize_ptr : Z) : res (result unit Z) :=
  decode_pointee σ vmctx __wasi_filesize_t filesize_ptr.
Definition encode_filesize_byref σ (vmctx filesize_ptr host_filesize : Z) : res rt :=
  s ← unwrap (try_from_u 64 host_filesize);
  encode_pointee σ vmctx __wasi_filesize_t filesize_ptr s.

Definition decode_roflags_byref σ (vmctx roflags_ptr : Z) : res (result unit Z) :=
  decode_pointee σ vmctx __wasi_roflags_t roflags_ptr.
Definition encode_roflags_byref σ (vmctx roflags_ptr host_roflags : Z) : res rt :=
  f ← unwrap (try_from_u 16 host_roflags);
  encode_pointee σ vmctx __wasi_roflags_t roflags_ptr f.

Definition decode_usize_byref σ (vmctx usize_ptr : Z) : res (result unit Z) :=
  decode_pointee σ vmctx size_t usize_ptr.
Definition encode_usize_byref σ (vmctx usize_ptr host_usize : Z) : res rt :=
  u ← unwrap (try_from_u 32 host_usize); encode_pointee σ vmctx size_t usize_ptr u.

Definition decode_prestat_byref σ (vmctx prestat_ptr : Z) : res (result unit Z) :=
  decode_pointee σ vmctx __wasi_prestat_t prestat_ptr.
Definition encode_prestat_byref σ (vmctx prestat_ptr : Z) (host : host_prestat) : res rt :=
  pr_name_len ← encode_usize (hpr_name_len host);
  encode_pointee σ vmctx __wasi_prestat_t prestat_ptr
    (mkPrestat (encode_preopentype (hpr_type host))
       (c_encode __wasi_prestat_t___wasi_prestat_u___wasi_prestat_u_dir_t pr_name_len)).

Definition decode_fdstat_byref σ (vmctx fdstat_ptr : Z) : res (result unit Z) :=
  decode_pointee σ vmctx __wasi_fdstat_t fdstat_ptr.
Definition encode_fdstat_byref σ (vmctx fdstat_ptr : Z) (host : host_fdstat) : res rt :=
  encode_pointee σ vmctx __wasi_fdstat_t fdstat_ptr
    (mkFdstat (encode_filetype (hfs_filetype host)) (encode_fdflags (hfs_flags host)) 0
       (encode_rights (hfs_rights_base host)) (encode_rights (hfs_rights_inheriting host))).

Definition decode_filestat_byref σ (vmctx filestat_ptr : Z) : res (result unit Z) :=
  decode_pointee σ vmctx __wasi_filestat_t filestat_ptr.
Definition encode_filestat_byref σ (vmctx filestat_ptr : Z) (host : host_filestat) : res rt :=
  encode_pointee σ vmctx __wasi_filestat_t filestat_ptr
    (mkFilestat (encode_device (hst_dev host)) (encode_inode (hst_ino host))
       (encode_filetype (hst_filetype host)) (encode_linkcount (hst_nlink host))
       (encode_filesize (hst_size host)) (encode_timestamp (hst_atim host))
       (encode_timestamp (hst_mtim host)) (encode_timestamp (hst_ctim host))).
End translate.
