(* ===== verification/WasiSyscalls.v ===== *)
(** * The system calls of WASI over the C library

    Models [wasmtime-wasi-c/src/syscalls.rs] and [instantiate.rs]: each call
    decodes its arguments, calls a function of the sandboxed system primitives,
    and encodes the results.  The C functions [wasmtime_ssp_*] are the class
    [SSP], except those for arguments and environment variables, which are
    modelled from [sandboxed-system-primitives/src/posix.c]. *)

From S2P Require Import Prelude Environ ModuleEnv VMOffsets Store Registry Memory VMContext Table Instance WasiTypes WasiInterface WasiTranslate.
Local Open Scope string_scope.
Local Open Scope list_scope.
Local Open Scope Z_scope.

(** ** The C library *)

(** A call of the library by its arguments.  [curfds] and [prestats] are
    addresses of its tables, [path], [buf] and the buffers of vectors are host
    addresses; the type is that of the results it stores through pointers. *)
Inductive ssp_call : Type → Type :=
| wasmtime_ssp_clock_res_get (clock_id : Z) : ssp_call Z
| wasmtime_ssp_clock_time_get (clock_id precision : Z) : ssp_call Z
| wasmtime_ssp_fd_prestat_get (prestats fd : Z) : ssp_call host_prestat
| wasmtime_ssp_fd_prestat_dir_name (prestats fd path path_len : Z) : ssp_call unit
| wasmtime_ssp_fd_close (curfds prestats fd : Z) : ssp_call unit
| wasmtime_ssp_fd_datasync (curfds fd : Z) : ssp_call unit
| wasmtime_ssp_fd_pread (curfds fd : Z) (iovs : list host_iovec) (offset : Z) : ssp_call Z
| wasmtime_ssp_fd_pwrite (curfds fd : Z) (iovs : list host_ciovec) (offset : Z) : ssp_call Z
| wasmtime_ssp_fd_read (curfds fd : Z) (iovs : list host_iovec) : ssp_call Z
| wasmtime_ssp_fd_renumber (curfds prestats from_ to : Z) : ssp_call unit
| wasmtime_ssp_fd_seek (curfds fd offset whence : Z) : ssp_call Z
| wasmtime_ssp_fd_tell (curfds fd : Z) : ssp_call Z
| wasmtime_ssp_fd_fdstat_get (curfds fd : Z) : ssp_call host_fdstat
| wasmtime_ssp_fd_fdstat_set_flags (curfds fd flags : Z) : ssp_call unit
| wasmtime_ssp_fd_fdstat_set_rights (curfds fd base inheriting : Z) : ssp_call unit
| wasmtime_ssp_fd_sync (curfds fd : Z) : ssp_call unit
| wasmtime_ssp_fd_write (curfds fd : Z) (iovs : list host_ciovec) : ssp_call Z
| wasmtime_ssp_fd_advise (curfds fd offset len advice : Z) : ssp_call unit
| wasmtime_ssp_fd_allocate (curfds fd offset len : Z) : ssp_call unit
| wasmtime_ssp_path_create_directory (curfds fd path path_len : Z) : ssp_call unit
| wasmtime_ssp_path_link (curfds fd0 flags0 path0 path_len0 fd1 path1 path_len1 : Z) : ssp_call unit
| wasmtime_ssp_path_open (curfds dirfd dirflags path path_len oflags fs_rights_base
    fs_rights_inheriting fs_flags : Z) : ssp_call Z
| wasmtime_ssp_fd_readdir (curfds fd buf buf_len cookie : Z) : ssp_call Z
| wasmtime_ssp_path_readlink (curfds fd path path_len buf buf_len : Z) : ssp_call Z
| wasmtime_ssp_path_rename (curfds fd0 path0 path_len0 fd1 path1 path_len1 : Z) : ssp_call unit
| wasmtime_ssp_fd_filestat_get (curfds fd : Z) : ssp_call host_filestat
| wasmtime_ssp_fd_filestat_set_times (curfds fd st_atim st_mtim fstflags : Z) : ssp_call unit
| wasmtime_ssp_fd_filestat_set_size (curfds fd size : Z) : ssp_call unit
| wasmtime_ssp_path_filestat_get (curfds fd flags path path_len : Z) : ssp_call host_filestat
| wasmtime_ssp_path_filestat_set_times (curfds fd flags path path_len st_atim st_mtim fstflags : Z)
    : ssp_call unit
| wasmtime_ssp_path_symlink (curfds path0 path_len0 fd path1 path_len1 : Z) : ssp_call unit
| wasmtime_ssp_path_unlink_file (curfds fd path path_len : Z) : ssp_call unit
| wasmtime_ssp_path_remove_directory (curfds fd path path_len : Z) : ssp_call unit
| wasmtime_ssp_poll_oneoff (curfds : Z) (in_ : list host_subscription)
    : ssp_call (list host_event * Z)
| wasmtime_ssp_random_get (buf buf_len : Z) : ssp_call unit
| wasmtime_ssp_sched_yield : ssp_call unit
| wasmtime_ssp_sock_recv (curfds sock : Z) (ri_data : list host_iovec) (ri_flags : Z)
    : ssp_call (Z * Z)
| wasmtime_ssp_sock_send (curfds sock : Z) (si_data : list host_ciovec) (si_flags : Z)
    : ssp_call Z
| wasmtime_ssp_sock_shutdown (curfds sock how : Z) : ssp_call unit.

(** A call is given the values of its results before it, a state that holds the
    tables, the files and the rest of the system, and the memory; it returns an
    error number. *)
Class SSP := {
  ssp_state : Type;
  ssp : ∀ {O}, ssp_call O → O → ssp_state → mem → Z * O * ssp_state * mem;
}.

(** [struct argv_environ_values]; the allocations of [argv_buf] and
    [environ_buf] with what they hold. *)
Record argv_environ_values := mkArgvEnviron {
  argc : Z;
  argv_buf_size : Z;
  argv : list Z;
  argv_buf : Z;
  argv_buf_bytes : list Z;
  environ_count : Z;
  environ_buf_size : Z;
  environ : list Z;
  environ_buf : Z;
  environ_buf_bytes : list Z;
}.

(** The body of [wasmtime_ssp_args_get] and of [wasmtime_ssp_environ_get]: [n]
    pointers into the buffer at [from] become pointers into the one at [to]; the
    vector [v] gets them and a null pointer, the buffer is copied. *)
Definition copy_strings (n size : Z) (ptrs : list Z) (from : Z) (bytes : list Z)
    (v : list Z) (to : Z) (m : mem) : res (list Z * mem) :=
  v ← foldM (λ v i, p ← zindex ptrs i; zset v i (to + (p - from))) v (seqZ 0 n);
  v ← zset v n 0;
  Ret (v, store_bytes m to (take (Z.to_nat size) bytes)).

Definition wasmtime_ssp_args_get (ae : argv_environ_values) (host_argv : list Z) (host_argv_buf : Z)
    (m : mem) : res (Z * list Z * mem) :=
  '(v, m) ← copy_strings (argc ae) (argv_buf_size ae) (argv ae) (argv_buf ae) (argv_buf_bytes ae)
              host_argv host_argv_buf m;
  Ret (__WASI_ESUCCESS, v, m).

Definition wasmtime_ssp_environ_get (ae : argv_environ_values) (host_environ : list Z)
    (host_environ_buf : Z) (m : mem) : res (Z * list Z * mem) :=
  '(v, m) ← copy_strings (environ_count ae) (environ_buf_size ae) (environ ae) (environ_buf ae)
              (environ_buf_bytes ae) host_environ host_environ_buf m;
  Ret (__WASI_ESUCCESS, v, m).

Definition wasmtime_ssp_args_sizes_get (ae : argv_environ_values) : Z * Z * Z :=
  (__WASI_ESUCCESS, argc ae, argv_buf_size ae).
Definition wasmtime_ssp_environ_sizes_get (ae : argv_environ_values) : Z * Z * Z :=
  (__WASI_ESUCCESS, environ_count ae, environ_buf_size ae).

(** [p] and [q] are the addresses that [malloc] gave to the buffers. *)
Definition argv_environ_init (p q : Z) (argv_offsets argv_bytes environ_offsets environ_bytes : list Z)
    : argv_environ_values :=
  mkArgvEnviron (zlen argv_offsets) (zlen argv_bytes) (map (λ o, p + o) argv_offsets) p argv_bytes
    (zlen environ_offsets) (zlen environ_bytes) (map (λ o, q + o) environ_offsets) q environ_bytes.

(** ** The state of the calls *)

(** The host state of an instance: the addresses of the boxes of the library's
    tables, and its arguments. *)
Record WASIState := mkWASIState {
  ws_curfds : Z;
  ws_prestats : Z;
  ws_argv_environ : argv_environ_values;
}.

Section syscalls.
Context `{InstanceLayout} `{SSP}.
(** Whether messages of the level [Trace] are formatted. *)
Context (log_trace : bool).

(** [w_hosts] has the instances whose host state is a [WASIState]. *)
Record wst := mkWst {
  w_rt : rt;
  w_hosts : gmap Z WASIState;
  w_ssp : ssp_state;
}.
Implicit Types s : wst.

Definition with_rt s (σ : rt) : wst := mkWst σ (w_hosts s) (w_ssp s).

Definition return_encoded_errno s (e : Z) : res (wst * Z) :=
  errno ← encode_errno e;
  _ ← (if log_trace then strerror errno else Ret "");
  Ret (s, errno).

(** [match m { Ok(x) => k, Err(e) => return return_encoded_errno(e) }] *)
Definition or_return {A} s (m : res (result A Z)) (k : A → res (wst * Z)) : res (wst * Z) :=
  r ← m; match r with Ok a => k a | Err e => return_encoded_errno s e end.
Notation "x ←[ s ] m ; k" := (or_return s m (λ x, k))
  (at level 20, s at level 50, m at level 100, k at level 200, right associativity).

Definition downcast s (vmctx : Z) : res WASIState :=
  unwrap (w_hosts s !! instance_of_vmctx vmctx).
Definition get_curfds s (vmctx : Z) : res Z := h ← downcast s vmctx; Ret (ws_curfds h).
Definition get_prestats s (vmctx : Z) : res Z := h ← downcast s vmctx; Ret (ws_prestats h).
Definition get_argv_environ s (vmctx : Z) : res argv_environ_values :=
  h ← downcast s vmctx; Ret (ws_argv_environ h).

(** A call of the library, on the process's memory. *)
Definition host {O} s (c : ssp_call O) (o : O) : Z * O * wst :=
  let '(e, o, t, m) := ssp c o (w_ssp s) (rt_mem (w_rt s)) in
  (e, o, mkWst (with_mem (w_rt s) m) (w_hosts s) t).

(** A write to the guest's memory, and one that is made only on success. *)
Definition update s (m : res rt) : res wst := σ ← m; Ret (with_rt s σ).
Definition on_success s (e : Z) (k : wst → res wst) : res wst :=
  if e =? __WASI_ESUCCESS then k s else Ret s.

(** ** Arguments and environment *)

Definition args_get s (vmctx argv_ argv_buf_ : Z) : res (wst * Z) :=
  ae ← get_argv_environ s vmctx;
  match try_from_u 32 (argc ae) with
  | None => Ret (s, __WASI_ENOMEM)
  | Some argc_ =>
  match try_from_u 32 (argv_buf_size ae) with
  | None => Ret (s, __WASI_ENOMEM)
  | Some argv_buf_size_ =>
      buf ←[s] decode_char_slice (w_rt s) vmctx argv_buf_ argv_buf_size_;
      let host_argv_buf := fst buf in
      n ← op_add 32 argc_ 1;
      argvp ←[s] decode_charstar_slice (w_rt s) vmctx argv_ n;
      len ← op_add 64 (argc ae) 1;
      let host_argv := replicate (Z.to_nat len) 0 in
      '(e, host_argv, m) ← wasmtime_ssp_args_get ae host_argv host_argv_buf (rt_mem (w_rt s));
      let s := with_rt s (with_mem (w_rt s) m) in
      s ← update s (encode_charstar_slice (w_rt s) (fst argvp) host_argv argv_buf_ host_argv_buf);
      return_encoded_errno s e
  end end.

Definition args_sizes_get s (vmctx argc_ argv_buf_size_ : Z) : res (wst * Z) :=
  _ ←[s] decode_usize_byref (w_rt s) vmctx argc_;
  _ ←[s] decode_usize_byref (w_rt s) vmctx argv_buf_size_;
  ae ← get_argv_environ s vmctx;
  let '(e, host_argc, host_argv_buf_size) := wasmtime_ssp_args_sizes_get ae in
  s ← on_success s e (λ s,
        s ← update s (encode_usize_byref (w_rt s) vmctx argc_ host_argc);
        update s (encode_usize_byref (w_rt s) vmctx argv_buf_size_ host_argv_buf_size));
  return_encoded_errno s e.

Definition environ_get s (vmctx environ_ environ_buf_ : Z) : res (wst * Z) :=
  ae ← get_argv_environ s vmctx;
  match try_from_u 32 (environ_count ae) with
  | None => Ret (s, __WASI_ENOMEM)
  | Some environ_count_ =>
  match try_from_u 32 (environ_buf_size ae) with
  | None => Ret (s, __WASI_ENOMEM)
  | Some environ_buf_size_ =>
      buf ←[s] decode_char_slice (w_rt s) vmctx environ_buf_ environ_buf_size_;
      let host_environ_buf := fst buf in
      n ← op_add 32 environ_count_ 1;
      environp ←[s] decode_charstar_slice (w_rt s) vmctx environ_ n;
      len ← op_add 64 (environ_count ae) 1;
      let host_environ := replicate (Z.to_nat len) 0 in
      '(e, host_environ, m) ←
        wasmtime_ssp_environ_get ae host_environ host_environ_buf (rt_mem (w_rt s));
      let s := with_rt s (with_mem (w_rt s) m) in
      s ← update s (encode_charstar_slice (w_rt s) (fst environp) host_environ environ_buf_
                      host_environ_buf);
      return_encoded_errno s e
  end end.

Definition environ_sizes_get s (vmctx environ_count_ environ_buf_size_ : Z) : res (wst * Z) :=
  _ ←[s] decode_usize_byref (w_rt s) vmctx environ_count_;
  _ ←[s] decode_usize_byref (w_rt s) vmctx environ_buf_size_;
  ae ← get_argv_environ s vmctx;
  let '(e, host_environ_count, host_environ_buf_size) := wasmtime_ssp_environ_sizes_get ae in
  s ← on_success s e (λ s,
        s ← update s (encode_usize_byref (w_rt s) vmctx environ_count_ host_environ_count);
        update s (encode_usize_byref (w_rt s) vmctx environ_buf_size_ host_environ_buf_size));
  return_encoded_errno s e.

(** ** Clocks *)

Definition clock_res_get s (vmctx clock_id resolution : Z) : res (wst * Z) :=
  let clock_id := decode_clockid clock_id in
  _ ←[s] decode_timestamp_byref (w_rt s) vmctx resolution;
  let '(e, host_resolution, s) := host s (wasmtime_ssp_clock_res_get clock_id) 0 in
  s ← on_success s e (λ s,
        update s (encode_timestamp_byref (w_rt s) vmctx resolution host_resolution));
  return_encoded_errno s e.

Definition clock_time_get s (vmctx clock_id precision time : Z) : res (wst * Z) :=
  let clock_id := decode_clockid clock_id in
  let precision := decode_timestamp precision in
  _ ←[s] decode_timestamp_byref (w_rt s) vmctx time;
  let '(e, host_time, s) := host s (wasmtime_ssp_clock_time_get clock_id precision) 0 in
  s ← on_success s e (λ s, update s (encode_timestamp_byref (w_rt s) vmctx time host_time));
  return_encoded_errno s e.

(** ** Preopened directories *)

(** The result is written whatever the error number is. *)
Definition fd_prestat_get s (vmctx fd buf : Z) : res (wst * Z) :=
  prestats ← get_prestats s vmctx;
  let fd := decode_fd fd in
  _ ←[s] decode_prestat_byref (w_rt s) vmctx buf;
  let '(e, host_buf, s) := host s (wasmtime_ssp_fd_prestat_get prestats fd) (mkHostPrestat 0 0) in
  s ← update s (encode_prestat_byref (w_rt s) vmctx buf host_buf);
  return_encoded_errno s e.

Definition fd_prestat_dir_name s (vmctx fd path path_len : Z) : res (wst * Z) :=
  prestats ← get_prestats s vmctx;
  p ←[s] decode_char_slice (w_rt s) vmctx path path_len;
  let '(path, path_len) := p in
  let '(e, _, s) := host s (wasmtime_ssp_fd_prestat_dir_name prestats fd path path_len) tt in
  return_encoded_errno s e.

(** ** File descriptors *)

Definition fd_close s (vmctx fd : Z) : res (wst * Z) :=
  curfds ← get_curfds s vmctx;
  prestats ← get_prestats s vmctx;
  let fd := decode_fd fd in
  let '(e, _, s) := host s (wasmtime_ssp_fd_close curfds prestats fd) tt in
  return_encoded_errno s e.

Definition fd_datasync s (vmctx fd : Z) : res (wst * Z) :=
  curfds ← get_curfds s vmctx;
  let fd := decode_fd fd in
  let '(e, _, s) := host s (wasmtime_ssp_fd_datasync curfds fd) tt in
  return_encoded_errno s e.

Definition fd_pread s (vmctx fd iovs iovs_len offset nread : Z) : res (wst * Z) :=
  curfds ← get_curfds s vmctx;
  let fd := decode_fd fd in
  iovs ←[s] decode_iovec_slice (w_rt s) vmctx iovs iovs_len;
  let offset := decode_filesize offset in
  _ ←[s] decode_usize_byref (w_rt s) vmctx nread;
  let '(e, host_nread, s) := host s (wasmtime_ssp_fd_pread curfds fd iovs offset) 0 in
  s ← on_success s e (λ s, update s (encode_usize_byref (w_rt s) vmctx nread host_nread));
  return_encoded_errno s e.

Definition fd_pwrite s (vmctx fd iovs iovs_len offset nwritten : Z) : res (wst * Z) :=
  curfds ← get_curfds s vmctx;
  let fd := decode_fd fd in
  iovs ←[s] decode_ciovec_slice (w_rt s) vmctx iovs iovs_len;
  let offset := decode_filesize offset in
  _ ←[s] decode_usize_byref (w_rt s) vmctx nwritten;
  let '(e, host_nwritten, s) := host s (wasmtime_ssp_fd_pwrite curfds fd iovs offset) 0 in
  s ← on_success s e (λ s, update s (encode_usize_byref (w_rt s) vmctx nwritten host_nwritten));
  return_encoded_errno s e.

Definition fd_read s (vmctx fd iovs iovs_len nread : Z) : res (wst * Z) :=
  curfds ← get_curfds s vmctx;
  let fd := decode_fd fd in
  iovs ←[s] decode_iovec_slice (w_rt s) vmctx iovs iovs_len;
  _ ←[s] decode_usize_byref (w_rt s) vmctx nread;
  let '(e, host_nread, s) := host s (wasmtime_ssp_fd_read curfds fd iovs) 0 in
  s ← on_success s e (λ s, update s (encode_usize_byref (w_rt s) vmctx nread host_nread));
  return_encoded_errno s e.

Definition fd_renumber s (vmctx from_ to : Z) : res (wst * Z) :=
  curfds ← get_curfds s vmctx;
  prestats ← get_prestats s vmctx;
  let from_ := decode_fd from_ in
  let to := decode_fd to in
  let '(e, _, s) := host s (wasmtime_ssp_fd_renumber curfds prestats from_ to) tt in
  return_encoded_errno s e.

(** The message of the call names [whence]. *)
Definition fd_seek s (vmctx fd offset whence newoffset : Z) : res (wst * Z) :=
  _ ← (if log_trace then whence_to_str whence else Ret "");
  curfds ← get_curfds s vmctx;
  let fd := decode_fd fd in
  let offset := decode_filedelta offset in
  let whence := decode_whence whence in
  _ ←[s] decode_filesize_byref (w_rt s) vmctx newoffset;
  let '(e, host_newoffset, s) := host s (wasmtime_ssp_fd_seek curfds fd offset whence) 0 in
  s ← on_success s e (λ s,
        update s (encode_filesize_byref (w_rt s) vmctx newoffset host_newoffset));
  return_encoded_errno s e.

Definition fd_tell s (vmctx fd newoffset : Z) : res (wst * Z) :=
  curfds ← get_curfds s vmctx;
  let fd := decode_fd fd in
  _ ←[s] decode_filesize_byref (w_rt s) vmctx newoffset;
  let '(e, host_newoffset, s) := host s (wasmtime_ssp_fd_tell curfds fd) 0 in
  s ← on_success s e (λ s,
        update s (encode_filesize_byref (w_rt s) vmctx newoffset host_newoffset));
  return_encoded_errno s e.

Definition fd_fdstat_get s (vmctx fd buf : Z) : res (wst * Z) :=
  curfds ← get_curfds s vmctx;
  let fd := decode_fd fd in
  _ ←[s] decode_fdstat_byref (w_rt s) vmctx buf;
  let '(e, host_buf, s) := host s (wasmtime_ssp_fd_fdstat_get curfds fd) (mkHostFdstat 0 0 0 0) in
  s ← on_success s e (λ s, update s (encode_fdstat_byref (w_rt s) vmctx buf host_buf));
  return_encoded_errno s e.

Definition fd_fdstat_set_flags s (vmctx fd flags : Z) : res (wst * Z) :=
  curfds ← get_curfds s vmctx;
  let fd := decode_fd fd in
  let flags := decode_fdflags flags in
  let '(e, _, s) := host s (wasmtime_ssp_fd_fdstat_set_flags curfds fd flags) tt in
  return_encoded_errno s e.

Definition fd_fdstat_set_rights s (vmctx fd fs_rights_base fs_rights_inheriting : Z)
    : res (wst * Z) :=
  curfds ← get_curfds s vmctx;
  let fd := decode_fd fd in
  let fs_rights_base := decode_rights fs_rights_base in
  let fs_rights_inheriting := decode_rights fs_rights_inheriting in
  let '(e, _, s) := host s
    (wasmtime_ssp_fd_fdstat_set_rights curfds fd fs_rights_base fs_rights_inheriting) tt in
  return_encoded_errno s e.

Definition fd_sync s (vmctx fd : Z) : res (wst * Z) :=
  curfds ← get_curfds s vmctx;
  let fd := decode_fd fd in
  let '(e, _, s) := host s (wasmtime_ssp_fd_sync curfds fd) tt in
  return_encoded_errno s e.

Definition fd_write s (vmctx fd iovs iovs_len nwritten : Z) : res (wst * Z) :=
  curfds ← get_curfds s vmctx;
  let fd := decode_fd fd in
  iovs ←[s] decode_ciovec_slice (w_rt s) vmctx iovs iovs_len;
  _ ←[s] decode_usize_byref (w_rt s) vmctx nwritten;
  let '(e, host_nwritten, s) := host s (wasmtime_ssp_fd_write curfds fd iovs) 0 in
  s ← on_success s e (λ s, update s (encode_usize_byref (w_rt s) vmctx nwritten host_nwritten));
  return_encoded_errno s e.

Definition fd_advise s (vmctx fd offset len advice : Z) : res (wst * Z) :=
  curfds ← get_curfds s vmctx;
  let fd := decode_fd fd in
  let offset := decode_filesize offset in
  let len := decode_filesize len in
  let advice := decode_advice advice in
  let '(e, _, s) := host s (wasmtime_ssp_fd_advise curfds fd offset len advice) tt in
  return_encoded_errno s e.

Definition fd_allocate s (vmctx fd offset len : Z) : res (wst * Z) :=
  curfds ← get_curfds s vmctx;
  let fd := decode_fd fd in
  let offset := decode_filesize offset in
  let len := decode_filesize len in
  let '(e, _, s) := host s (wasmtime_ssp_fd_allocate curfds fd offset len) tt in
  return_encoded_errno s e.

(** ** Paths *)

Definition path_create_directory s (vmctx fd path path_len : Z) : res (wst * Z) :=
  curfds ← get_curfds s vmctx;
  let fd := decode_fd fd in
  p ←[s] decode_char_slice (w_rt s) vmctx path path_len;
  let '(path, path_len) := p in
  let '(e, _, s) := host s (wasmtime_ssp_path_create_directory curfds fd path path_len) tt in
  return_encoded_errno s e.

Definition path_link s (vmctx fd0 flags0 path0 path_len0 fd1 path1 path_len1 : Z) : res (wst * Z) :=
  curfds ← get_curfds s vmctx;
  let fd0 := decode_fd fd0 in
  let flags0 := decode_lookupflags flags0 in
  p0 ←[s] decode_char_slice (w_rt s) vmctx path0 path_len0;
  let '(path0, path_len0) := p0 in
  let fd1 := decode_fd fd1 in
  p1 ←[s] decode_char_slice (w_rt s) vmctx path1 path_len1;
  let '(path1, path_len1) := p1 in
  let '(e, _, s) := host s
    (wasmtime_ssp_path_link curfds fd0 flags0 path0 path_len0 fd1 path1 path_len1) tt in
  return_encoded_errno s e.

(** The result is written whatever the error number is. *)
Definition path_open s (vmctx dirfd dirflags path path_len oflags fs_rights_base
    fs_rights_inheriting fs_flags fd : Z) : res (wst * Z) :=
  curfds ← get_curfds s vmctx;
  let dirfd := decode_fd dirfd in
  let dirflags := decode_lookupflags dirflags in
  p ←[s] decode_char_slice (w_rt s) vmctx path path_len;
  let '(path, path_len) := p in
  let oflags := decode_oflags oflags in
  let fs_rights_base := decode_rights fs_rights_base in
  let fs_rights_inheriting := decode_rights fs_rights_inheriting in
  let fs_flags := decode_fdflags fs_flags in
  _ ←[s] decode_fd_byref (w_rt s) vmctx fd;
  let '(e, host_fd, s) := host s
    (wasmtime_ssp_path_open curfds dirfd dirflags path path_len oflags fs_rights_base
       fs_rights_inheriting fs_flags) (2 ^ 32 - 1) in
  s ← update s (encode_fd_byref (w_rt s) vmctx fd host_fd);
  return_encoded_errno s e.

Definition fd_readdir s (vmctx fd buf buf_len cookie buf_used : Z) : res (wst * Z) :=
  curfds ← get_curfds s vmctx;
  let fd := decode_fd fd in
  b ←[s] decode_char_slice (w_rt s) vmctx buf buf_len;
  let '(buf, buf_len) := b in
  let cookie := decode_dircookie cookie in
  _ ←[s] decode_usize_byref (w_rt s) vmctx buf_used;
  let '(e, host_buf_used, s) := host s (wasmtime_ssp_fd_readdir curfds fd buf buf_len cookie) 0 in
  s ← on_success s e (λ s, update s (encode_usize_byref (w_rt s) vmctx buf_used host_buf_used));
  return_encoded_errno s e.

Definition path_readlink s (vmctx fd path path_len buf buf_len buf_used : Z) : res (wst * Z) :=
  curfds ← get_curfds s vmctx;
  let fd := decode_fd fd in
  p ←[s] decode_char_slice (w_rt s) vmctx path path_len;
  let '(path, path_len) := p in
  b ←[s] decode_char_slice (w_rt s) vmctx buf buf_len;
  let '(buf, buf_len) := b in
  _ ←[s] decode_usize_byref (w_rt s) vmctx buf_used;
  let '(e, host_buf_used, s) := host s
    (wasmtime_ssp_path_readlink curfds fd path path_len buf buf_len) 0 in
  s ← on_success s e (λ s, update s (encode_usize_byref (w_rt s) vmctx buf_used host_buf_used));
  return_encoded_errno s e.

Definition path_rename s (vmctx fd0 path0 path_len0 fd1 path1 path_len1 : Z) : res (wst * Z) :=
  curfds ← get_curfds s vmctx;
  let fd0 := decode_fd fd0 in
  p0 ←[s] decode_char_slice (w_rt s) vmctx path0 path_len0;
  let '(path0, path_len0) := p0 in
  let fd1 := decode_fd fd1 in
  p1 ←[s] decode_char_slice (w_rt s) vmctx path1 path_len1;
  let '(path1, path_len1) := p1 in
  let '(e, _, s) := host s
    (wasmtime_ssp_path_rename curfds fd0 path0 path_len0 fd1 path1 path_len1) tt in
  return_encoded_errno s e.

(** ** File status *)

Definition fd_filestat_get s (vmctx fd buf : Z) : res (wst * Z) :=
  curfds ← get_curfds s vmctx;
  let fd := decode_fd fd in
  _ ←[s] decode_filestat_byref (w_rt s) vmctx buf;
  let '(e, host_buf, s) := host s (wasmtime_ssp_fd_filestat_get curfds fd)
                             (mkHostFilestat 0 0 0 0 0 0 0 0) in
  s ← on_success s e (λ s, update s (encode_filestat_byref (w_rt s) vmctx buf host_buf));
  return_encoded_errno s e.

Definition fd_filestat_set_times s (vmctx fd st_atim st_mtim fstflags : Z) : res (wst * Z) :=
  curfds ← get_curfds s vmctx;
  let fd := decode_fd fd in
  let st_atim := decode_timestamp st_atim in
  let st_mtim := decode_timestamp st_mtim in
  let fstflags := decode_fstflags fstflags in
  let '(e, _, s) := host s (wasmtime_ssp_fd_filestat_set_times curfds fd st_atim st_mtim fstflags) tt in
  return_encoded_errno s e.

Definition fd_filestat_set_size s (vmctx fd size : Z) : res (wst * Z) :=
  curfds ← get_curfds s vmctx;
  let fd := decode_fd fd in
  let size := decode_filesize size in
  let '(e, _, s) := host s (wasmtime_ssp_fd_filestat_set_size curfds fd size) tt in
  return_encoded_errno s e.

Definition path_filestat_get s (vmctx fd flags path path_len buf : Z) : res (wst * Z) :=
  curfds ← get_curfds s vmctx;
  let fd := decode_fd fd in
  let flags := decode_lookupflags flags in
  p ←[s] decode_char_slice (w_rt s) vmctx path path_len;
  let '(path, path_len) := p in
  _ ←[s] decode_filestat_byref (w_rt s) vmctx buf;
  let '(e, host_buf, s) := host s (wasmtime_ssp_path_filestat_get curfds fd flags path path_len)
                             (mkHostFilestat 0 0 0 0 0 0 0 0) in
  s ← on_success s e (λ s, update s (encode_filestat_byref (w_rt s) vmctx buf host_buf));
  return_encoded_errno s e.

Definition path_filestat_set_times s (vmctx fd flags path path_len st_atim st_mtim fstflags : Z)
    : res (wst * Z) :=
  curfds ← get_curfds s vmctx;
  let fd := decode_fd fd in
  let flags := decode_lookupflags flags in
  p ←[s] decode_char_slice (w_rt s) vmctx path path_len;
  let '(path, path_len) := p in
  let st_atim := decode_timestamp st_atim in
  let st_mtim := decode_timestamp st_mtim in
  let fstflags := decode_fstflags fstflags in
  let '(e, _, s) := host s
    (wasmtime_ssp_path_filestat_set_times curfds fd flags path path_len st_atim st_mtim fstflags) tt in
  return_encoded_errno s e.

Definition path_symlink s (vmctx path0 path_len0 fd path1 path_len1 : Z) : res (wst * Z) :=
  curfds ← get_curfds s vmctx;
  p0 ←[s] decode_char_slice (w_rt s) vmctx path0 path_len0;
  let '(path0, path_len0) := p0 in
  let fd := decode_fd fd in
  p1 ←[s] decode_char_slice (w_rt s) vmctx path1 path_len1;
  let '(path1, path_len1) := p1 in
  let '(e, _, s) := host s (wasmtime_ssp_path_symlink curfds path0 path_len0 fd path1 path_len1) tt in
  return_encoded_errno s e.

Definition path_unlink_file s (vmctx fd path path_len : Z) : res (wst * Z) :=
  curfds ← get_curfds s vmctx;
  let fd := decode_fd fd in
  p ←[s] decode_char_slice (w_rt s) vmctx path path_len;
  let '(path, path_len) := p in
  let '(e, _, s) := host s (wasmtime_ssp_path_unlink_file curfds fd path path_len) tt in
  return_encoded_errno s e.

Definition path_remove_directory s (vmctx fd path path_len : Z) : res (wst * Z) :=
  curfds ← get_curfds s vmctx;
  let fd := decode_fd fd in
  p ←[s] decode_char_slice (w_rt s) vmctx path path_len;
  let '(path, path_len) := p in
  let '(e, _, s) := host s (wasmtime_ssp_path_remove_directory curfds fd path path_len) tt in
  return_encoded_errno s e.

(** ** Polling *)

Definition poll_oneoff s (vmctx in_ out nsubscriptions nevents : Z) : res (wst * Z) :=
  curfds ← get_curfds s vmctx;
  in_ ←[s] decode_subscription_slice (w_rt s) vmctx in_ nsubscriptions;
  o ←[s] decode_event_slice (w_rt s) vmctx out nsubscriptions;
  let '(out, out_len) := o in
  let host_out := replicate (Z.to_nat out_len) (mkHostEvent 0 0 0 0 0) in
  _ ←[s] decode_usize_byref (w_rt s) vmctx nevents;
  _ ← rassert (zlen in_ =? zlen host_out);
  let '(e, (host_out, host_nevents), s) := host s (wasmtime_ssp_poll_oneoff curfds in_) (host_out, 0) in
  s ← on_success s e (λ s,
        s ← update s (encode_usize_byref (w_rt s) vmctx nevents host_nevents);
        let host_out := take (Z.to_nat host_nevents) host_out in
        update s (encode_event_slice (w_rt s) out host_out));
  return_encoded_errno s e.

(** ** Process, randomness and sockets *)

(** How a call ends: it returns an error number to the guest, or the process
    ends with an exit code and nothing is executed after it. *)
Inductive outcome := Returned (errno : Z) | Exited (code : Z).

(** [wasmtime_ssp_proc_exit] is [_Exit]: it does not return. *)
Definition proc_exit s (vmctx rval : Z) : res (wst * outcome) :=
  let rval := decode_exitcode rval in
  Ret (s, Exited rval).

(** [unimplemented!] *)
Definition proc_raise s (vmctx sig : Z) : res (wst * Z) := Panic.

Definition random_get s (vmctx buf buf_len : Z) : res (wst * Z) :=
  b ←[s] decode_char_slice (w_rt s) vmctx buf buf_len;
  let '(buf, buf_len) := b in
  let '(e, _, s) := host s (wasmtime_ssp_random_get buf buf_len) tt in
  return_encoded_errno s e.

Definition sched_yield s (vmctx : Z) : res (wst * Z) :=
  let '(e, _, s) := host s wasmtime_ssp_sched_yield tt in
  return_encoded_errno s e.

Definition sock_recv s (vmctx sock ri_data ri_data_len ri_flags ro_datalen ro_flags : Z)
    : res (wst * Z) :=
  curfds ← get_curfds s vmctx;
  let sock := decode_fd sock in
  ri_data ←[s] decode_iovec_slice (w_rt s) vmctx ri_data ri_data_len;
  let ri_flags := decode_riflags ri_flags in
  _ ←[s] decode_usize_byref (w_rt s) vmctx ro_datalen;
  _ ←[s] decode_roflags_byref (w_rt s) vmctx ro_flags;
  let '(e, (host_ro_datalen, host_ro_flags), s) :=
    host s (wasmtime_ssp_sock_recv curfds sock ri_data ri_flags) (0, 0) in
  s ← on_success s e (λ s,
        s ← update s (encode_usize_byref (w_rt s) vmctx ro_datalen host_ro_datalen);
        update s (encode_roflags_byref (w_rt s) vmctx ro_flags host_ro_flags));
  return_encoded_errno s e.

Definition sock_send s (vmctx sock si_data si_data_len si_flags so_datalen : Z) : res (wst * Z) :=
  curfds ← get_curfds s vmctx;
  let sock := decode_fd sock in
  si_data ←[s] decode_ciovec_slice (w_rt s) vmctx si_data si_data_len;
  let si_flags := decode_siflags si_flags in
  _ ←[s] decode_usize_byref (w_rt s) vmctx so_datalen;
  let '(e, host_so_datalen, s) := host s (wasmtime_ssp_sock_send curfds sock si_data si_flags) 0 in
  s ← on_success s e (λ s, update s (encode_usize_byref (w_rt s) vmctx so_datalen host_so_datalen));
  return_encoded_errno s e.

Definition sock_shutdown s (vmctx sock how : Z) : res (wst * Z) :=
  curfds ← get_curfds s vmctx;
  let sock := decode_fd sock in
  let how := decode_sdflags how in
  let '(e, _, s) := host s (wasmtime_ssp_sock_shutdown curfds sock how) tt in
  return_encoded_errno s e.

(** ** The functions that a guest calls *)

Definition errno_result (m : res (wst * Z)) : res (wst * outcome) :=
  '(s, e) ← m; Ret (s, Returned e).

Definition dispatch s (vmctx : Z) (sc : syscall) : res (wst * outcome) :=
  match sc with
  | Sys_args_get argv argv_buf => errno_result (args_get s vmctx argv argv_buf)
  | Sys_args_sizes_get argc argv_buf_size => errno_result (args_sizes_get s vmctx argc
      argv_buf_size)
  | Sys_clock_res_get clock_id resolution => errno_result (clock_res_get s vmctx clock_id
      resolution)
  | Sys_clock_time_get clock_id precision time => errno_result (clock_time_get s vmctx clock_id
      precision time)
  | Sys_environ_get environ environ_buf => errno_result (environ_get s vmctx environ environ_buf)
  | Sys_environ_sizes_get environ_count environ_buf_size => errno_result (environ_sizes_get s
      vmctx environ_count environ_buf_size)
  | Sys_fd_prestat_get fd buf => errno_result (fd_prestat_get s vmctx fd buf)
  | Sys_fd_prestat_dir_name fd path path_len => errno_result (fd_prestat_dir_name s vmctx fd path
      path_len)
  | Sys_fd_close fd => errno_result (fd_close s vmctx fd)
  | Sys_fd_datasync fd => errno_result (fd_datasync s vmctx fd)
  | Sys_fd_pread fd iovs iovs_len offset nread => errno_result (fd_pread s vmctx fd iovs iovs_len
      offset nread)
  | Sys_fd_pwrite fd iovs iovs_len offset nwritten => errno_result (fd_pwrite s vmctx fd iovs
      iovs_len offset nwritten)
  | Sys_fd_read fd iovs iovs_len nread => errno_result (fd_read s vmctx fd iovs iovs_len nread)
  | Sys_fd_renumber from_ to => errno_result (fd_renumber s vmctx from_ to)
  | Sys_fd_seek fd offset whence newoffset => errno_result (fd_seek s vmctx fd offset whence
      newoffset)
  | Sys_fd_tell fd newoffset => errno_result (fd_tell s vmctx fd newoffset)
  | Sys_fd_fdstat_get fd buf => errno_result (fd_fdstat_get s vmctx fd buf)
  | Sys_fd_fdstat_set_flags fd flags => errno_result (fd_fdstat_set_flags s vmctx fd flags)
  | Sys_fd_fdstat_set_rights fd fs_rights_base fs_rights_inheriting => errno_result
      (fd_fdstat_set_rights s vmctx fd fs_rights_base fs_rights_inheriting)
  | Sys_fd_sync fd => errno_result (fd_sync s vmctx fd)
  | Sys_fd_write fd iovs iovs_len nwritten => errno_result (fd_write s vmctx fd iovs iovs_len
      nwritten)
  | Sys_fd_advise fd offset len advice => errno_result (fd_advise s vmctx fd offset len advice)
  | Sys_fd_allocate fd offset len => errno_result (fd_allocate s vmctx fd offset len)
  | Sys_path_create_directory fd path path_len => errno_result (path_create_directory s vmctx fd
      path path_len)
  | Sys_path_link fd0 flags0 path0 path_len0 fd1 path1 path_len1 => errno_result (path_link s
      vmctx fd0 flags0 path0 path_len0 fd1 path1 path_len1)
  | Sys_path_open dirfd dirflags path path_len oflags fs_rights_base fs_rights_inheriting
      fs_flags fd => errno_result (path_open s vmctx dirfd dirflags path path_len oflags
      fs_rights_base fs_rights_inheriting fs_flags fd)
  | Sys_fd_readdir fd buf buf_len cookie buf_used => errno_result (fd_readdir s vmctx fd buf
      buf_len cookie buf_used)
  | Sys_path_readlink fd path path_len buf buf_len buf_used => errno_result (path_readlink s
      vmctx fd path path_len buf buf_len buf_used)
  | Sys_path_rename fd0 path0 path_len0 fd1 path1 path_len1 => errno_result (path_rename s vmctx
      fd0 path0 path_len0 fd1 path1 path_len1)
  | Sys_fd_filestat_get fd buf => errno_result (fd_filestat_get s vmctx fd buf)
  | Sys_fd_filestat_set_times fd st_atim st_mtim fstflags => errno_result (fd_filestat_set_times
      s vmctx fd st_atim st_mtim fstflags)
  | Sys_fd_filestat_set_size fd size => errno_result (fd_filestat_set_size s vmctx fd size)
  | Sys_path_filestat_get fd flags path path_len buf => errno_result (path_filestat_get s vmctx
      fd flags path path_len buf)
  | Sys_path_filestat_set_times fd flags path path_len st_atim st_mtim fstflags => errno_result
      (path_filestat_set_times s vmctx fd flags path path_len st_atim st_mtim fstflags)
  | Sys_path_symlink path0 path_len0 fd path1 path_len1 => errno_result (path_symlink s vmctx
      path0 path_len0 fd path1 path_len1)
  | Sys_path_unlink_file fd path path_len => errno_result (path_unlink_file s vmctx fd path
      path_len)
  | Sys_path_remove_directory fd path path_len => errno_result (path_remove_directory s vmctx fd
      path path_len)
  | Sys_poll_oneoff in_ out nsubscriptions nevents => errno_result (poll_oneoff s vmctx in_ out
      nsubscriptions nevents)
  | Sys_proc_exit rval => proc_exit s vmctx rval
  | Sys_proc_raise sig => errno_result (proc_raise s vmctx sig)
  | Sys_random_get buf buf_len => errno_result (random_get s vmctx buf buf_len)
  | Sys_sched_yield => errno_result (sched_yield s vmctx)
  | Sys_sock_recv sock ri_data ri_data_len ri_flags ro_datalen ro_flags => errno_result
      (sock_recv s vmctx sock ri_data ri_data_len ri_flags ro_datalen ro_flags)
  | Sys_sock_send sock si_data si_data_len si_flags so_datalen => errno_result (sock_send s vmctx
      sock si_data si_data_len si_flags so_datalen)
  | Sys_sock_shutdown sock how => errno_result (sock_shutdown s vmctx sock how)
  end.

Definition convert_outcome (r : outcome) : outcome :=
  match r with Returned e => Returned (ret_convert Tu16 e) | Exited code => Exited code end.

(** The shim of the call [name]: the parameters and the result in the types of
    the calling convention. *)
Definition shim s (vmctx : Z) (name : string) (args : list Z) : res (wst * outcome) :=
  match shim_call name args with
  | Some sc => '(s, r) ← dispatch s vmctx sc; Ret (s, convert_outcome r)
  | None => Panic
  end.

(** ** The instance *)

(** [allocate_argv_environ]: the offsets of strings in a buffer, each with its
    terminating zero. *)
Definition push_string (st : list Z * list Z) (bytes : list Z) : list Z * list Z :=
  let '(offsets, buf) := st in (offsets ++ [zlen buf], buf ++ bytes ++ [0]).

Definition allocate_argv_environ (args : list (list Z)) (env : list (list Z * list Z))
    : list Z * list Z * list Z * list Z :=
  let '(argv_offsets, argv_bytes) := fold_left push_string args ([], []) in
  let '(environ_offsets, environ_bytes) :=
    fold_left (λ st kv, push_string st (fst kv ++ [61] ++ snd kv)) env ([], []) in
  (argv_offsets, argv_bytes, environ_offsets, environ_bytes).
End syscalls.
