(* ===== verification/WasiProofs.v ===== *)
(** * Properties of the system calls of WASI

    The contract of the C library ([SSPLaws]), the invariant under which a
    guest's memory is confined, and the theorems about [WasiTranslate] and
    [WasiSyscalls]. *)

From S2P Require Import Prelude Environ ModuleEnv VMOffsets Store Registry Memory VMContext Table Instance WasiTypes WasiInterface WasiTranslate WasiSyscalls.
Local Open Scope string_scope.
Local Open Scope list_scope.
Local Open Scope Z_scope.

(** ** The contract of the library *)

(** The memory that a call may write: the buffers that it is given for
    results. *)
Definition buffers {O} (c : ssp_call O) : list (Z * Z) :=
  match c with
  | wasmtime_ssp_fd_prestat_dir_name _ _ path path_len => [(path, path_len)]
  | wasmtime_ssp_fd_pread _ _ iovs _ | wasmtime_ssp_fd_read _ _ iovs
  | wasmtime_ssp_sock_recv _ _ iovs _ => map (λ v, (hio_buf v, hio_buf_len v)) iovs
  | wasmtime_ssp_fd_readdir _ _ buf buf_len _ | wasmtime_ssp_path_readlink _ _ _ _ buf buf_len
  | wasmtime_ssp_random_get buf buf_len => [(buf, buf_len)]
  | _ => []
  end.

(** The memory that a call may read: paths and data. *)
Definition inputs {O} (c : ssp_call O) : list (Z * Z) :=
  match c with
  | wasmtime_ssp_fd_pwrite _ _ iovs _ | wasmtime_ssp_fd_write _ _ iovs
  | wasmtime_ssp_sock_send _ _ iovs _ => map (λ v, (hcio_buf v, hcio_buf_len v)) iovs
  | wasmtime_ssp_path_create_directory _ _ path path_len
  | wasmtime_ssp_path_open _ _ _ path path_len _ _ _ _
  | wasmtime_ssp_path_readlink _ _ path path_len _ _
  | wasmtime_ssp_path_filestat_get _ _ _ path path_len
  | wasmtime_ssp_path_filestat_set_times _ _ _ path path_len _ _ _
  | wasmtime_ssp_path_unlink_file _ _ path path_len
  | wasmtime_ssp_path_remove_directory _ _ path path_len => [(path, path_len)]
  | wasmtime_ssp_path_link _ _ _ path0 path_len0 _ path1 path_len1
  | wasmtime_ssp_path_rename _ _ path0 path_len0 _ path1 path_len1
  | wasmtime_ssp_path_symlink _ path0 path_len0 _ path1 path_len1 =>
      [(path0, path_len0); (path1, path_len1)]
  | _ => []
  end.

Definition errno_ok (e : Z) : Prop := 0 ≤ e ≤ __WASI_ENOTCAPABLE.

Definition event_ok (v : host_event) : Prop :=
  fits 8 (hev_userdata v) ∧ errno_ok (hev_error v) ∧ 0 ≤ hev_type_ v ≤ 2 ∧
  fits 8 (hev_nbytes v) ∧ fits 2 (hev_flags v).
Definition filestat_ok (v : host_filestat) : Prop :=
  fits 8 (hst_dev v) ∧ fits 8 (hst_ino v) ∧ fits 1 (hst_filetype v) ∧ fits 4 (hst_nlink v) ∧
  fits 8 (hst_size v) ∧ fits 8 (hst_atim v) ∧ fits 8 (hst_mtim v) ∧ fits 8 (hst_ctim v).

(** The results of a call are values of their types; names of directories and
    transfers are shorter than [2^32]; no more events than subscriptions. *)
Definition results_ok {O} (c : ssp_call O) : O → Prop :=
  match c in ssp_call O return O → Prop with
  | wasmtime_ssp_clock_res_get _ | wasmtime_ssp_clock_time_get _ _
  | wasmtime_ssp_fd_seek _ _ _ _ | wasmtime_ssp_fd_tell _ _ => λ o, fits 8 o
  | wasmtime_ssp_fd_prestat_get _ _ => λ o, fits 1 (hpr_type o) ∧ fits 4 (hpr_name_len o)
  | wasmtime_ssp_fd_pread _ _ _ _ | wasmtime_ssp_fd_pwrite _ _ _ _ | wasmtime_ssp_fd_read _ _ _
  | wasmtime_ssp_fd_write _ _ _ | wasmtime_ssp_path_open _ _ _ _ _ _ _ _ _
  | wasmtime_ssp_fd_readdir _ _ _ _ _ | wasmtime_ssp_path_readlink _ _ _ _ _ _
  | wasmtime_ssp_sock_send _ _ _ _ => λ o, fits 4 o
  | wasmtime_ssp_fd_fdstat_get _ _ => λ o,
      fits 1 (hfs_filetype o) ∧ fits 2 (hfs_flags o) ∧ fits 8 (hfs_rights_base o) ∧
      fits 8 (hfs_rights_inheriting o)
  | wasmtime_ssp_fd_filestat_get _ _ | wasmtime_ssp_path_filestat_get _ _ _ _ _ => filestat_ok
  | wasmtime_ssp_poll_oneoff _ in_ => λ o,
      length (fst o) = length in_ ∧ 0 ≤ snd o ≤ zlen in_ ∧ Forall event_ok (fst o)
  | wasmtime_ssp_sock_recv _ _ _ _ => λ o, fits 4 (fst o) ∧ fits 2 (snd o)
  | _ => λ _, True
  end.

(** A range of host addresses inside the guest's memory. *)
Definition inside (base len : Z) (r : Z * Z) : Prop :=
  snd r = 0 ∨ (base ≤ fst r ∧ 0 ≤ snd r ∧ fst r + snd r ≤ base + len).

(** The library as far as a guest with [len] bytes of memory at [base] needs it: a
    call whose buffers and inputs are inside that memory returns an error number of
    WASI, keeps its results well-formed and writes nothing but its buffers.
    Nothing is known about a call with another address. *)
Class SSPLaws `{SSP} (base len : Z) : Prop := {
  ssp_contract {O} (c : ssp_call O) o t m e o' t' m' :
    Forall (inside base len) (buffers c) → Forall (inside base len) (inputs c) →
    results_ok c o → ssp c o t m = (e, o', t', m') →
    errno_ok e ∧ results_ok c o' ∧
    ∀ x, (∀ a n, (a, n) ∈ buffers c → ¬ (a ≤ x < a + n)) → m' x = m x;
}.

(** ** Guests *)

Section guest.
Context `{InstanceLayout}.

(** The memory that the instance at [vmctx] finds under the name [memory] is
    [len] bytes at [base]; its definition is kept outside of it. *)
Definition guest_memory (σ : rt) (vmctx base len : Z) : Prop :=
  ∃ def v plan,
    lookup_global_export σ (instance_of_vmctx vmctx) "memory" = Ret (Some (RtMemory def v plan)) ∧
    load_val (rt_mem σ) def = mkVMMemoryDefinition base len ∧
    0 < base ∧ base + 2 ^ 32 ≤ 2 ^ 64 ∧ 0 ≤ len ≤ 2 ^ 32 ∧
    (def + 16 ≤ base ∨ base + len ≤ def).

(** What [decode_ptr] answers for a memory of [len] bytes at [base]. *)
Definition checked_ptr (base len ptr n align : Z) : result Z Z :=
  if (0 <? n) && (len <? ptr + n) then Err __WASI_EFAULT
  else if ptr mod align =? 0 then Ok (base + ptr) else Err __WASI_EINVAL.

Lemma decode_ptr_checked σ vmctx base len ptr n align :
  guest_memory σ vmctx base len → fits 4 ptr → 0 ≤ n →
  decode_ptr σ vmctx ptr n align = Ret (checked_ptr base len ptr n align).
Proof.
  intros (def & v & plan & He & Hd & Hb & Hb' & Hl & _) Hp Hn. unfold decode_ptr, checked_ptr.
  rewrite He. cbn [mbind res_mbind]. rewrite Hd. cbn [md_current_length md_base].
  unfold try_bind, checked_add, in_u. cbn [mbind res_mbind].
  destruct (Z.ltb_spec 0 n); cbn [andb].
  - destruct (_ && _) eqn:E.
    + destruct (Z.leb_spec len (ptr + (n - 1))), (Z.ltb_spec len (ptr + n)); try lia; cbn; [done|].
      destruct (_ =? 0); cbn [negb]; [|done]. by rewrite op_add_fits by lia.
    + rewrite (proj2 (Z.ltb_lt _ _)); [done|].
      apply andb_false_iff in E as [E|E]; [apply Z.leb_gt in E|apply Z.ltb_ge in E]; lia.
  - cbn. destruct (_ =? 0); cbn [negb]; [|done]. by rewrite op_add_fits by lia.
Qed.
End guest.

(** ** Confinement *)

(** From [s] to [s'] only the guest's memory and the state of the library have
    changed. *)
Definition confined `{SSP} (base len : Z) (s s' : wst) : Prop :=
  w_hosts s' = w_hosts s ∧
  ∃ m, w_rt s' = with_mem (w_rt s) m ∧
       ∀ x, ¬ (base ≤ x < base + len) → m x = rt_mem (w_rt s) x.

Lemma le_val_bound bs :
  Forall (λ b, 0 ≤ b < 256) bs → 0 ≤ le_val bs < 2 ^ (8 * zlen bs).
Proof.
  induction 1 as [|b bs Hb _ IH]; [done|]. cbn [le_val]. rewrite zlen_cons.
  pose proof (zlen_nonneg bs).
  replace (8 * (zlen bs + 1)) with (8 + 8 * zlen bs) by lia. rewrite Z.pow_add_r by lia. lia.
Qed.

Definition bytes (m : mem) : Prop := ∀ x, 0 ≤ m x < 256.

(** An integer field of a structure in memory has its width. *)
Lemma get_int_fits m a n t name o f w :
  bytes m → field_of t name = Some (o, f) → c_size f = w → 0 ≤ w →
  fits w (get_int t (load_bytes m a n) name).
Proof.
  intros Hm Hf <- Hw. unfold get_int, get_bytes. rewrite Hf.
  set (bs := take _ _). assert (Forall (λ b, 0 ≤ b < 256) bs) as Hbs.
  { apply Forall_take, Forall_drop, Forall_forall. intros b Hb. unfold load_bytes in Hb.
    apply list_elem_of_fmap in Hb as (i & -> & _). apply Hm. }
  destruct (le_val_bound bs Hbs) as [Hl Hu]. split; [done|]. eapply Z.lt_le_trans; [exact Hu|].
  apply Z.pow_le_mono_r; [done|]. unfold zlen, bs. rewrite length_take. lia.
Qed.

Lemma encode_fits {A} (T : ctype A) v : ctype_laws T → c_valid T v → zlen (c_encode T v) = c_size T.
Proof. intros [<- HT] Hv. by apply (@encode_len A (ct_repr T) HT). Qed.

(** *** Strings *)

Lemma zget_app_mid {A} (l : list A) x k : zget (l ++ x :: k) (zlen l) = Some x.
Proof. rewrite zget_app_r by lia. by rewrite Z.sub_diag. Qed.

Lemma zset_app_mid {A} (l : list A) x k y n :
  zlen l = n → zset (l ++ x :: k) n y = Ret (l ++ y :: k).
Proof.
  intros <-. rewrite zset_Ret by (rewrite zlen_app, zlen_cons; pose proof (zlen_nonneg l);
    pose proof (zlen_nonneg k); lia).
  unfold zlen. rewrite Nat2Z.id, insert_app_r_alt by lia. by rewrite Nat.sub_diag.
Qed.

Lemma copy_loop (g : Z → Z) all done todo rest :
  all = done ++ todo → zlen rest = zlen todo + 1 →
  foldM (λ v i, p ← zindex all i; zset v i (g p)) (map g done ++ rest) (seqZ (zlen done) (zlen todo)) =
  Ret (map g all ++ drop (length todo) rest).
Proof.
  revert done rest. induction todo as [|p todo IH]; intros done rest -> Hr.
  - by rewrite app_nil_r.
  - destruct rest as [|x rest]; [unfold zlen in Hr; cbn in Hr; lia|].
    rewrite !zlen_cons in *. rewrite seqZ_cons by (pose proof (zlen_nonneg todo); lia).
    cbn [foldM].
    assert (zindex (done ++ p :: todo) (zlen done) = Ret p) as -> by (apply zindex_Ret, zget_app_mid).
    cbn [unwrap mbind res_mbind].
    rewrite zset_app_mid by (unfold zlen; by rewrite length_map). cbn [unwrap mbind res_mbind].
    replace (map g done ++ g p :: rest) with (map g (done ++ [p]) ++ rest)
      by (by rewrite map_app, <-app_assoc).
    replace (Z.succ (zlen done)) with (zlen (done ++ [p])) by (rewrite zlen_app, zlen_cons; unfold zlen; cbn; lia).
    replace (Z.pred (zlen todo + 1)) with (zlen todo) by lia.
    rewrite (IH (done ++ [p]) rest) by (try (by rewrite <-app_assoc); lia). done.
Qed.

(** The loop and the copy of [wasmtime_ssp_args_get]. *)
Lemma copy_strings_spec n size ptrs from bs v to m :
  zlen ptrs = n → zlen v = n + 1 →
  copy_strings n size ptrs from bs v to m =
  Ret (map (λ p, to + (p - from)) ptrs ++ [0], store_bytes m to (take (Z.to_nat size) bs)).
Proof.
  intros <- Hv. unfold copy_strings.
  pose proof (copy_loop (λ p, to + (p - from)) ptrs [] ptrs v eq_refl Hv) as E.
  change (zlen []) with 0 in E. cbn [map app] in E. rewrite E. clear E. cbn [mbind res_mbind].
  assert (∃ y, drop (length ptrs) v = [y]) as [y ->].
  { assert (length (drop (length ptrs) v) = 1%nat) as Hl
      by (rewrite length_drop; unfold zlen in Hv; lia).
    destruct (drop _ _) as [|y [|]]; try done. by exists y. }
  rewrite zset_app_mid by (unfold zlen; by rewrite length_map). done.
Qed.

(** The loop of [encode_charstar_slice] on the pointers [host_base + o]. *)
Lemma encode_charstars i m ptr offs gb hb :
  0 < hb → Forall (λ o, 0 ≤ o ∧ hb + o < 2 ^ 64 ∧ gb + o < 2 ^ 32) offs → 0 ≤ gb →
  ∃ m', encode_charstar_slice_from i m ptr (map (λ o, hb + o) offs ++ [0]) gb hb = Ret m' ∧
    (∀ x, ¬ (ptr + 4 * i ≤ x < ptr + 4 * (i + zlen offs + 1)) → m' x = m x) ∧
    (∀ k o, zget offs k = Some o → load_le m' (ptr + 4 * (i + k)) 4 = gb + o) ∧
    load_le m' (ptr + 4 * (i + zlen offs)) 4 = 0.
Proof.
  intros Hhb Ho Hgb. revert i m. induction Ho as [|o offs (Ho & Ho' & Hg) _ IH]; intros i m.
  - eexists. split; [done|].
    split; [|split]; [|by intros k o Hk%zget_nil|].
    + intros x Hx. unfold ptr_write. apply store_bytes_out.
      change (zlen (encode 0)) with 4. change (c_size uintptr_t) with 4. unfold zlen in Hx. cbn in Hx. lia.
    + replace (ptr + 4 * (i + zlen [])) with (ptr + i * c_size uintptr_t)
        by (change (c_size uintptr_t) with 4; unfold zlen; cbn; lia).
      by apply (load_store_le_same m _ 4 0).
  - cbn [map app encode_charstar_slice_from].
    rewrite (proj2 (Z.eqb_neq (hb + o) 0)) by lia.
    rewrite op_sub_fits by lia. cbn [mbind res_mbind]. replace (hb + o - hb) with o by lia.
    unfold wrap_u. rewrite (Z.mod_small o) by lia. rewrite op_add_fits by lia. cbn [mbind res_mbind].
    set (m1 := ptr_write m _ _).
    destruct (IH (i + 1) m1) as (m' & E & Hout & Hk & Hlast). exists m'. split; [exact E|].
    rewrite zlen_cons in *. pose proof (zlen_nonneg offs).
    assert (∀ x, ¬ (ptr + 4 * i ≤ x < ptr + 4 * i + 4) → m1 x = m x) as Hm1.
    { intros x Hx. unfold m1, ptr_write. apply store_bytes_out.
      change (zlen (encode (gb + o))) with 4. change (c_size uintptr_t) with 4. lia. }
    split; [intros x Hx; rewrite Hout, Hm1 by lia; done|]. split.
    + intros k o' Hko. destruct (Z.eq_dec k 0) as [->|Hne].
      * change (Some o = Some o') in Hko. simplify_eq. rewrite (load_le_ext m' m1).
        -- unfold m1. replace (ptr + 4 * (i + 0)) with (ptr + i * c_size uintptr_t)
             by (change (c_size uintptr_t) with 4; lia).
           change (ptr_write m (ptr + i * c_size uintptr_t) (gb + o')) with
             (store_le m (ptr + i * c_size uintptr_t) 4 (gb + o')).
           apply load_store_le_same. change (2 ^ (8 * Z.of_nat 4)) with (2 ^ 32). lia.
        -- intros x Hx. apply Hout. lia.
      * pose proof (zget_Some_lt _ _ _ Hko). rewrite zget_cons in Hko by lia.
        rewrite <-(Hk _ _ Hko). f_equal. lia.
    + rewrite <-Hlast. f_equal. lia.
Qed.

(** [n] pointers into a buffer of [size] bytes at [from], of a length that a guest
    can address. *)
Definition strings_ok (n size : Z) (ptrs : list Z) (from : Z) (bs : list Z) : Prop :=
  zlen ptrs = n ∧ zlen bs = size ∧ n + 1 < 2 ^ 32 ∧ size < 2 ^ 32 ∧
  Forall (λ p, from ≤ p < from + size) ptrs.

#[export] Instance strings_ok_dec n size ptrs from bs : Decision (strings_ok n size ptrs from bs).
Proof. apply _. Defined.

Definition argv_environ_ok (ae : argv_environ_values) : Prop :=
  strings_ok (argc ae) (argv_buf_size ae) (argv ae) (argv_buf ae) (argv_buf_bytes ae) ∧
  strings_ok (environ_count ae) (environ_buf_size ae) (environ ae) (environ_buf ae)
    (environ_buf_bytes ae).

#[export] Instance argv_environ_ok_dec ae : Decision (argv_environ_ok ae).
Proof. apply _. Defined.

(** What [args_get] and [environ_get] do after they have found the strings. *)
Definition get_strings `{InstanceLayout} `{SSP} (log_trace : bool) (s : wst) (vmctx : Z)
    (n size : Z) (ptrs : list Z) (from : Z) (bs : list Z) (vp bp : Z) : res (wst * Z) :=
  match try_from_u 32 n with
  | None => Ret (s, __WASI_ENOMEM)
  | Some n' =>
  match try_from_u 32 size with
  | None => Ret (s, __WASI_ENOMEM)
  | Some size' =>
      or_return log_trace s (decode_char_slice (w_rt s) vmctx bp size') (λ buf,
      n1 ← op_add 32 n' 1;
      or_return log_trace s (decode_charstar_slice (w_rt s) vmctx vp n1) (λ vec,
      l ← op_add 64 n 1;
      '(e, v, m) ← ('(v, m) ← copy_strings n size ptrs from bs (replicate (Z.to_nat l) 0) (fst buf)
                                (rt_mem (w_rt s));
                    Ret (__WASI_ESUCCESS, v, m));
      let s := with_rt s (with_mem (w_rt s) m) in
      s ← update s (encode_charstar_slice (w_rt s) (fst vec) v bp (fst buf));
      return_encoded_errno log_trace s e))
  end end.

Lemma encode_event_valid v :
  event_ok v → ∃ g, encode_event v = Ret g ∧ c_valid __wasi_event_t g.
Proof.
  intros (Hu & He & Ht & Hn & Hf). unfold encode_event, encode_errno.
  rewrite (proj2 (Z.leb_le _ _)) by apply He. cbn [mbind res_mbind rassert].
  unfold errno_ok, __WASI_ENOTCAPABLE in He.
  assert (hev_type_ v = 0 ∨ hev_type_ v = 1 ∨ hev_type_ v = 2) as [E|E] by lia.
  - rewrite E. eexists. split; [done|]. hnf. cbn [ev_userdata ev_error ev_type_ ev_padding_0 ev_u].
    unfold encode_userdata. split_and!; done || lia.
  - replace (hev_type_ v =? __WASI_EVENTTYPE_CLOCK) with false by (destruct E as [->| ->]; done).
    replace (_ || _) with true by (destruct E as [->| ->]; done).
    eexists. split; [done|]. hnf. cbn [ev_userdata ev_error ev_type_ ev_padding_0 ev_u].
    unfold encode_userdata, encode_eventtype. split_and!; done || lia.
Qed.

(** What a call needs of its parameters: [proc_raise] is not implemented, the trace
    message of [fd_seek] names only the known values of [whence], and
    [poll_oneoff] writes several events to the wrong places. *)
Definition supported (log_trace : bool) (sc : syscall) : Prop :=
  match sc with
  | Sys_proc_raise _ => False
  | Sys_fd_seek _ _ whence _ => log_trace = true → is_ret (whence_to_str whence) = true
  | Sys_poll_oneoff _ _ nsubscriptions _ => nsubscriptions ≤ 1
  | _ => True
  end.

Section confinement.
Context `{InstanceLayout} `{SSP} (log_trace : bool).
Context (vmctx base len : Z) `{!SSPLaws base len} (s0 : wst).
Hypothesis Hguest : guest_memory (w_rt s0) vmctx base len.
Set Default Proof Using "Type*".
Implicit Types s : wst.

Notation st := (confined base len s0).

Lemma confined_refl s : confined base len s s.
Proof using. split; [done|]. exists (rt_mem (w_rt s)). split; [|done]. by destruct s as [[[] ? ?] ? ?]. Qed.

(** A state in which only guest memory is written further. *)
Lemma confined_step s m t :
  st s → (∀ x, ¬ (base ≤ x < base + len) → m x = rt_mem (w_rt s) x) →
  st (mkWst (with_mem (w_rt s) m) (w_hosts s) t).
Proof using.
  intros (Hh & m0 & Hr & Hm) Hx. split; [done|]. exists m. cbn. rewrite Hr. split; [done|].
  intros x Hn. rewrite Hx, Hr by done. by apply Hm.
Qed.

Lemma confined_guest s : st s → guest_memory (w_rt s) vmctx base len.
Proof.
  destruct Hguest as (def & v & plan & He & Hd & Hb & Hb' & Hl & Hout).
  intros (_ & m & Hr & Hm). exists def, v, plan. rewrite Hr. split; [done|].
  split; [|done]. rewrite <-Hd. apply load_val_ext. cbn [size_of VMMemoryDefinition_repr].
  intros x Hx. apply Hm. lia.
Qed.

(** *** Decoding *)

(** The computation decodes a value with [Q] or fails with an error of
    [decode_ptr]. *)
Definition decodes {A} (m : res (result A Z)) (Q : A → Prop) : Prop :=
  ∃ r, m = Ret r ∧ match r with Ok a => Q a | Err e => e = __WASI_EFAULT ∨ e = __WASI_EINVAL end.

Lemma decodes_bind {A B} (m : res (result A Z)) (k : A → res (result B Z)) Q R :
  decodes m Q → (∀ a, Q a → decodes (k a) R) → decodes (try_bind m k) R.
Proof using.
  intros ([a|e] & -> & Ha) Hk; [by apply Hk|]. by exists (Err e).
Qed.

Lemma decodes_ok {A} (a : A) (Q : A → Prop) : Q a → decodes (Ret (Ok a)) Q.
Proof using. by exists (Ok a). Qed.

Lemma decodes_collect {A B} (f : A → res (result B Z)) l Q :
  Forall (λ a, decodes (f a) Q) l → decodes (collect f l) (λ bs, Forall Q bs ∧ length bs = length l).
Proof using.
  induction 1 as [|a l Ha _ IH]; cbn [collect]; [by apply decodes_ok|].
  eapply decodes_bind; [exact Ha|]. intros b Hb. eapply decodes_bind; [exact IH|].
  intros bs [Hbs Hl]. apply decodes_ok. split; [by constructor|]. cbn. by rewrite Hl.
Qed.

Lemma decodes_ptr s ptr n align :
  st s → fits 4 ptr → 0 ≤ n → decodes (decode_ptr (w_rt s) vmctx ptr n align)
    (λ p, p = base + ptr ∧ inside base len (p, n) ∧ checked_ptr base len ptr n align = Ok p).
Proof.
  intros Hs Hp Hn. rewrite (decode_ptr_checked _ _ base len) by auto using confined_guest.
  eexists. split; [done|]. unfold checked_ptr, inside. cbn [fst snd].
  destruct (Z.ltb_spec 0 n), (Z.ltb_spec len (ptr + n)); cbn [andb]; try (by left);
    destruct (_ =? 0); auto; (split; [done|]); (split; [|done]); lia.
Qed.

(** A pointer whose target was checked: it can be written later. *)
Definition writable (T : cty) (ptr : Z) : Prop :=
  fits 4 ptr ∧ checked_ptr base len ptr (c_size T) (c_align T) = Ok (base + ptr) ∧
  base + ptr + c_size T ≤ base + len.

Lemma decodes_pointee s (T : cty) ptr :
  st s → fits 4 ptr → 0 < c_size T →
  decodes (decode_pointee (w_rt s) vmctx T ptr) (λ _, writable T ptr).
Proof.
  intros Hs Hp HT. eapply decodes_bind; [apply decodes_ptr; [done..|lia]|].
  intros p (-> & Hin & Hc). apply decodes_ok. split; [done|]. split; [done|].
  destruct Hin as [Hin|Hin]; cbn in Hin; lia.
Qed.

Lemma decodes_slice s (T : cty) ptr n :
  st s → fits 4 ptr → fits 4 n → 0 < c_size T < 2 ^ 16 →
  decodes (decode_slice_of (w_rt s) vmctx T ptr n)
    (λ p, p = (base + ptr, n) ∧ inside base len (base + ptr, c_size T * n)).
Proof.
  intros Hs Hp Hn HT. unfold decode_slice_of. rewrite (proj2 (try_from_u_Some 64 n n)) by lia.
  cbn [unwrap mbind res_mbind].
  rewrite (proj2 (checked_mul_Some 64 (c_size T) n (c_size T * n))) by nia.
  cbn [unwrap mbind res_mbind]. eapply decodes_bind; [apply decodes_ptr; [done..|nia]|].
  intros p (-> & Hin & _). by apply decodes_ok.
Qed.

(** A slice inside the memory and aligned is accepted. *)
Lemma decode_slice_accepts s (T : cty) ptr n :
  st s → fits 4 ptr → fits 4 n → 0 < c_size T < 2 ^ 16 →
  ptr + c_size T * n ≤ len → ptr mod c_align T = 0 →
  decode_slice_of (w_rt s) vmctx T ptr n = Ret (Ok (base + ptr, n)).
Proof.
  intros Hs Hp Hn HT Hin Hal. unfold decode_slice_of.
  rewrite (proj2 (try_from_u_Some 64 n n)) by lia. cbn [unwrap mbind res_mbind].
  rewrite (proj2 (checked_mul_Some 64 (c_size T) n (c_size T * n))) by nia.
  cbn [unwrap mbind res_mbind]. rewrite (decode_ptr_checked _ _ base len) by (auto using confined_guest; nia).
  unfold checked_ptr. rewrite Hal.
  destruct (Z.ltb_spec len (ptr + c_size T * n)); [lia|]. by rewrite andb_false_r.
Qed.

Lemma decodes_chars s ptr n :
  st s → fits 4 ptr → fits 4 n →
  decodes (decode_char_slice (w_rt s) vmctx ptr n)
    (λ p, p = (base + ptr, n) ∧ inside base len (base + ptr, n)).
Proof.
  intros Hs Hp Hn. destruct (decodes_slice s c_char ptr n) as (r & E & Hr); [done..|].
  change (c_size c_char) with 1 in Hr. rewrite Z.mul_1_l in Hr. by exists r.
Qed.

(** *** Writing results *)

(** A write of a value at a pointer that was checked. *)
Lemma encode_pointee_confined {A} s (T : ctype A) ptr (v : A) :
  st s → writable T ptr → zlen (c_encode T v) = c_size T →
  encode_pointee (w_rt s) vmctx T ptr v =
    Ret (with_mem (w_rt s) (@ptr_write A (ct_repr T) (rt_mem (w_rt s)) (base + ptr) v)) ∧
  st (with_rt s (with_mem (w_rt s) (@ptr_write A (ct_repr T) (rt_mem (w_rt s)) (base + ptr) v))).
Proof.
  intros Hs (Hp & Hc & Hin) Hv. split.
  - unfold encode_pointee, decode_ptr_to. rewrite (decode_ptr_checked _ _ base len), Hc.
    + done.
    + by apply confined_guest.
    + done.
    + rewrite <-Hv. apply zlen_nonneg.
  - apply confined_step; [done|]. intros x Hx. unfold ptr_write. apply store_bytes_out.
    unfold c_encode in Hv. rewrite Hv. lia.
Qed.

(** *** Whole calls *)

(** The call returns an error number of WASI, and was confined. *)
Definition safe (r : res (wst * Z)) : Prop :=
  ∃ s e, r = Ret (s, e) ∧ st s ∧ errno_ok e.

Lemma return_encoded_errno_ok s e : errno_ok e → return_encoded_errno log_trace s e = Ret (s, e).
Proof using.
  intros He. unfold return_encoded_errno, encode_errno.
  rewrite (proj2 (Z.leb_le _ _)) by (apply He). cbn [mbind res_mbind rassert].
  destruct log_trace; [|done]. destruct (strerror_total e He) as [w ->]. done.
Qed.

Lemma safe_return s e : st s → errno_ok e → safe (return_encoded_errno log_trace s e).
Proof using. intros Hs He. exists s, e. by rewrite return_encoded_errno_ok. Qed.

Lemma safe_or_return {A} s (m : res (result A Z)) k Q :
  st s → decodes m Q → (∀ a, Q a → safe (k a)) → safe (or_return log_trace s m k).
Proof using.
  intros Hs ([a|e] & -> & Ha) Hk; [by apply Hk|]. cbn. apply safe_return; [done|].
  destruct Ha as [->| ->]; done.
Qed.

(** The library on buffers inside the guest's memory. *)
Lemma host_confined {O} s (c : ssp_call O) o :
  st s → results_ok c o → Forall (inside base len) (buffers c) → Forall (inside base len) (inputs c) →
  ∃ e o' s', host s c o = (e, o', s') ∧ st s' ∧ errno_ok e ∧ results_ok c o'.
Proof.
  intros Hs Ho Hb Hi. unfold host. destruct (ssp c o _ _) as [[[e o'] t'] m'] eqn:E.
  destruct (ssp_contract c o _ _ e o' t' m' Hb Hi Ho E) as (He & Ho' & Hm).
  eexists e, o', _. split; [done|]. split; [|done]. apply confined_step; [done|].
  intros x Hx. apply Hm. intros a n Hin. rewrite Forall_forall in Hb.
  destruct (Hb _ Hin) as [Hn|Hn]; cbn in Hn; lia.
Qed.

(** A computation that writes results keeps the state confined. *)
Definition writes (r : res wst) : Prop := ∃ s, r = Ret s ∧ st s.

Lemma safe_writes (r : res wst) k : writes r → (∀ s, st s → safe (k s)) → safe (r ≫= k).
Proof using. intros (s & -> & Hs) Hk. by apply Hk. Qed.
Lemma writes_bind (r : res wst) k : writes r → (∀ s, st s → writes (k s)) → writes (r ≫= k).
Proof using. intros (s & -> & Hs) Hk. by apply Hk. Qed.
Lemma writes_on_success s e k : st s → (∀ s, st s → writes (k s)) → writes (on_success s e k).
Proof using. intros Hs Hk. unfold on_success. destruct (_ =? _); [by apply Hk|by exists s]. Qed.

Lemma writes_pointee {A} s (T : ctype A) ptr v :
  st s → writable T ptr → zlen (c_encode T v) = c_size T →
  writes (update s (encode_pointee (w_rt s) vmctx T ptr v)).
Proof.
  intros Hs Hw Hv. destruct (encode_pointee_confined s T ptr v Hs Hw Hv) as [E Hs'].
  unfold update. rewrite E. by eexists.
Qed.

(** *** The decoders of vectors *)

Hypothesis Hbytes : bytes (rt_mem (w_rt s0)).

Lemma decodes_vector {A B} (T : ctype A) (f : A → res (result B Z)) ptr n Q :
  fits 4 ptr → fits 4 n → 0 < c_size T < 2 ^ 16 →
  (∀ a, decodes (f (@load_val A (ct_repr T) (rt_mem (w_rt s0)) a)) Q) →
  decodes (try_bind (decode_slice_of (w_rt s0) vmctx T ptr n)
             (λ slice, collect f (read_slice T (rt_mem (w_rt s0)) (fst slice) (snd slice))))
    (λ vs, Forall Q vs ∧ zlen vs = n).
Proof.
  intros Hp Hn HT Hf. eapply decodes_bind; [by apply decodes_slice; [apply confined_refl|..]|].
  intros p [-> _]. cbn [fst snd]. unfold read_slice. set (l := map _ _).
  assert (zlen l = n) as Hln.
  { unfold zlen, l. rewrite length_map, length_seqZ. lia. }
  destruct (decodes_collect f l Q) as ([vs|e] & Hr & Hvs).
  - apply Forall_forall. intros v Hv. apply list_elem_of_In, in_map_iff in Hv as (i & <- & _).
    apply Hf.
  - exists (Ok vs). destruct Hvs as [HQ Hl]. rewrite <-Hln. unfold zlen. by rewrite Hl.
  - by exists (Err e).
Qed.

Lemma decodes_iovecs ptr n :
  fits 4 ptr → fits 4 n → decodes (decode_iovec_slice (w_rt s0) vmctx ptr n)
    (λ vs, Forall (λ v, inside base len (hio_buf v, hio_buf_len v)) vs ∧ zlen vs = n).
Proof.
  intros Hp Hn. apply decodes_vector; [done..|]. intros a. set (v := load_val _ a).
  assert (fits 4 (io_buf v) ∧ fits 4 (io_buf_len v)) as [Hb Hl].
  { split; eapply get_int_fits; done. }
  unfold decode_iovec. rewrite (proj2 (try_from_u_Some 64 _ (io_buf_len v))) by lia.
  cbn [unwrap mbind res_mbind].
  eapply decodes_bind; [apply decodes_ptr; [apply confined_refl|done|lia]|].
  intros p (-> & Hin & _). by apply decodes_ok.
Qed.

Lemma decodes_ciovecs ptr n :
  fits 4 ptr → fits 4 n → decodes (decode_ciovec_slice (w_rt s0) vmctx ptr n)
    (λ vs, Forall (λ v, inside base len (hcio_buf v, hcio_buf_len v)) vs ∧ zlen vs = n).
Proof.
  intros Hp Hn. apply decodes_vector; [done..|]. intros a. set (v := load_val _ a).
  assert (fits 4 (cio_buf v) ∧ fits 4 (cio_buf_len v)) as [Hb Hl].
  { split; eapply get_int_fits; done. }
  unfold decode_ciovec. rewrite (proj2 (try_from_u_Some 64 _ (cio_buf_len v))) by lia.
  cbn [unwrap mbind res_mbind].
  eapply decodes_bind; [apply decodes_ptr; [apply confined_refl|done|lia]|].
  intros p (-> & Hin & _). by apply decodes_ok.
Qed.

Lemma decodes_subscriptions ptr n :
  fits 4 ptr → fits 4 n →
  decodes (decode_subscription_slice (w_rt s0) vmctx ptr n) (λ vs, Forall (λ _, True) vs ∧ zlen vs = n).
Proof.
  intros Hp Hn. apply decodes_vector; [done..|]. intros a. unfold decode_subscription.
  repeat case_match; by (apply decodes_ok || (eexists; split; [done|by right])).
Qed.

(** *** The encoders of results *)

Lemma writes_byref s (T : ctype Z) n ptr v :
  T = uint n → (0 < n)%nat → st s → writable T ptr → fits (Z.of_nat n) v →
  writes (update s (v ← unwrap (try_from_u (8 * Z.of_nat n) v); encode_pointee (w_rt s) vmctx T ptr v)).
Proof.
  intros -> Hn Hs Hw Hv. rewrite (proj2 (try_from_u_Some _ v v)) by done.
  apply writes_pointee; [done..|]. apply encode_fits; [by apply uint_laws|done].
Qed.

Lemma writes_usize s ptr v :
  st s → writable size_t ptr → fits 4 v → writes (update s (encode_usize_byref (w_rt s) vmctx ptr v)).
Proof. intros. by apply (writes_byref s _ 4); [|lia|..]. Qed.
Lemma writes_fd s ptr v :
  st s → writable __wasi_fd_t ptr → fits 4 v →
  writes (update s (encode_fd_byref (w_rt s) vmctx ptr v)).
Proof. intros. by apply (writes_byref s _ 4); [|lia|..]. Qed.
Lemma writes_timestamp s ptr v :
  st s → writable __wasi_timestamp_t ptr → fits 8 v →
  writes (update s (encode_timestamp_byref (w_rt s) vmctx ptr v)).
Proof. intros. by apply (writes_byref s _ 8); [|lia|..]. Qed.
Lemma writes_filesize s ptr v :
  st s → writable __wasi_filesize_t ptr → fits 8 v →
  writes (update s (encode_filesize_byref (w_rt s) vmctx ptr v)).
Proof. intros. by apply (writes_byref s _ 8); [|lia|..]. Qed.
Lemma writes_roflags s ptr v :
  st s → writable __wasi_roflags_t ptr → fits 2 v →
  writes (update s (encode_roflags_byref (w_rt s) vmctx ptr v)).
Proof. intros. by apply (writes_byref s _ 2); [|lia|..]. Qed.

Lemma writes_prestat s ptr v :
  st s → writable __wasi_prestat_t ptr → fits 1 (hpr_type v) ∧ fits 4 (hpr_name_len v) →
  writes (update s (encode_prestat_byref (w_rt s) vmctx ptr v)).
Proof.
  intros Hs Hw [Ht Hn]. unfold encode_prestat_byref, encode_usize.
  rewrite (proj2 (try_from_u_Some 32 _ (hpr_name_len v))) by done. cbn [unwrap mbind res_mbind].
  apply writes_pointee; [done..|]. apply encode_fits; [apply prestat_laws|done].
Qed.
Lemma writes_fdstat s ptr v :
  st s → writable __wasi_fdstat_t ptr →
  fits 1 (hfs_filetype v) ∧ fits 2 (hfs_flags v) ∧ fits 8 (hfs_rights_base v) ∧
    fits 8 (hfs_rights_inheriting v) →
  writes (update s (encode_fdstat_byref (w_rt s) vmctx ptr v)).
Proof.
  intros Hs Hw Hv. apply writes_pointee; [done..|].
  apply encode_fits; [apply fdstat_laws|]. destruct_and! Hv. hnf. split_and!; done.
Qed.
Lemma writes_filestat s ptr v :
  st s → writable __wasi_filestat_t ptr → filestat_ok v →
  writes (update s (encode_filestat_byref (w_rt s) vmctx ptr v)).
Proof. intros Hs Hw Hv. apply writes_pointee; [done..|]. apply encode_fits; [apply filestat_laws|done]. Qed.

(** *** Arguments and environment *)

(** The memory after the strings were copied and their addresses written. *)
Definition strings_written (n size : Z) (ptrs : list Z) (from : Z) (bs : list Z) (vp bp : Z)
    (m m' : mem) : Prop :=
  (∀ x, ¬ (base + vp ≤ x < base + vp + 4 * (n + 1)) → ¬ (base + bp ≤ x < base + bp + size) →
        m' x = m x) ∧
  (∀ k, 0 ≤ k < size → ¬ (base + vp ≤ base + bp + k < base + vp + 4 * (n + 1)) →
        zget bs k = Some (m' (base + bp + k))) ∧
  (∀ k p, zget ptrs k = Some p → load_le m' (base + vp + 4 * k) 4 = bp + (p - from)) ∧
  load_le m' (base + vp + 4 * n) 4 = 0.

Lemma get_strings_ok n size ptrs from bs vp bp :
  strings_ok n size ptrs from bs → fits 4 vp → fits 4 bp →
  decode_char_slice (w_rt s0) vmctx bp size = Ret (Ok (base + bp, size)) →
  decode_charstar_slice (w_rt s0) vmctx vp (n + 1) = Ret (Ok (base + vp, n + 1)) →
  inside base len (base + bp, size) →
  ∃ m', get_strings log_trace s0 vmctx n size ptrs from bs vp bp =
          return_encoded_errno log_trace (with_rt s0 (with_mem (w_rt s0) m')) __WASI_ESUCCESS ∧
        strings_written n size ptrs from bs vp bp (rt_mem (w_rt s0)) m'.
Proof.
  intros (Hn & Hs & Hn' & Hs' & Hp) Hvp Hbp E E' Hin.
  pose proof (zlen_nonneg ptrs). pose proof (zlen_nonneg bs).
  unfold get_strings, or_return.
  rewrite (proj2 (try_from_u_Some 32 n n)), (proj2 (try_from_u_Some 32 size size)), E by lia.
  cbn [mbind res_mbind fst]. rewrite (op_add_fits 32), (op_add_fits 64) by lia.
  cbn [mbind res_mbind]. rewrite E'. cbn [mbind res_mbind fst].
  rewrite (copy_strings_spec n size ptrs from bs) by (try done; unfold zlen; rewrite length_replicate; lia).
  cbn [mbind res_mbind]. unfold update, encode_charstar_slice. cbn [w_rt with_rt].
  replace (map (λ p, base + bp + (p - from)) ptrs) with
    (map (λ o, base + bp + o) (map (λ p, p - from) ptrs)) by (by rewrite map_map).
  set (offs := map (λ p, p - from) ptrs). rewrite take_ge by (unfold zlen in *; lia).
  set (m1 := store_bytes _ _ bs).
  destruct Hguest as (def & v & plan & _ & _ & Hb & Hb' & Hl & _).
  assert (zlen offs = n) as Hlo by (unfold zlen, offs in *; by rewrite length_map).
  destruct (encode_charstars 0 m1 (base + vp) offs bp (base + bp)) as (m' & E2 & Hout & Hk & Hlast);
    [lia| |lia|].
  { unfold offs. apply Forall_map. apply (Forall_impl _ _ _ Hp). intros p Hp'. cbn.
    destruct Hin as [Hin|Hin]; cbn in Hin; lia. }
  exists m'. change (rt_mem (with_mem (w_rt s0) m1)) with m1. rewrite E2.
  cbn [mbind res_mbind]. split; [done|].
  rewrite Hlo in Hout, Hlast. split; [|split; [|split]].
  - intros x Hx1 Hx2. rewrite Hout by lia. unfold m1. rewrite store_bytes_out; [done|lia].
  - intros k Hk1 Hk2. rewrite Hout by lia. unfold m1. rewrite store_bytes_in by lia.
    destruct (zget_is_Some bs k) as [b ->]; [lia|done].
  - intros k p Hkp. rewrite <-(Hk k (p - from)); [f_equal; lia|].
    unfold offs. rewrite zget_map, Hkp. done.
  - rewrite <-Hlast. f_equal; lia.
Qed.

Lemma safe_get_strings n size ptrs from bs vp bp :
  strings_ok n size ptrs from bs → fits 4 vp → fits 4 bp →
  safe (get_strings log_trace s0 vmctx n size ptrs from bs vp bp).
Proof.
  intros Hok Hvp Hbp. pose proof Hok as (Hn & Hs & Hn' & Hs' & _).
  pose proof (zlen_nonneg ptrs). pose proof (zlen_nonneg bs).
  assert (∀ e, e = __WASI_EFAULT ∨ e = __WASI_EINVAL → safe (return_encoded_errno log_trace s0 e)) as Herr.
  { intros e He. apply safe_return; [apply confined_refl|]. destruct He as [->| ->]; done. }
  destruct (decodes_chars s0 bp size) as ([pq|e] & E & Hr); [apply confined_refl|done|lia| |].
  - destruct Hr as [-> Hin1].
    destruct (decodes_slice s0 uintptr_t vp (n + 1)) as ([pq|e] & E' & Hr);
      [apply confined_refl|done|lia|done| |].
    + destruct Hr as [-> Hin2]. change (c_size uintptr_t) with 4 in Hin2.
      destruct (get_strings_ok n size ptrs from bs vp bp Hok Hvp Hbp E E' Hin1) as (m' & -> & Hw & _).
      apply safe_return; [|done]. apply confined_step; [apply confined_refl|].
      intros x Hx. apply Hw; intros Hin; destruct Hin1 as [Hin1|Hin1], Hin2 as [Hin2|Hin2];
        cbn in *; lia.
    + unfold get_strings, or_return.
      rewrite (proj2 (try_from_u_Some 32 n n)), (proj2 (try_from_u_Some 32 size size)), E by lia.
      cbn [mbind res_mbind fst]. rewrite (op_add_fits 32) by lia. cbn [mbind res_mbind].
      unfold decode_charstar_slice. rewrite E'. by apply Herr.
  - unfold get_strings, or_return.
    rewrite (proj2 (try_from_u_Some 32 n n)), (proj2 (try_from_u_Some 32 size size)), E by lia.
    by apply Herr.
Qed.

(** *** Every call *)

(** Where the events are written: the [k]-th one is [k * 32] elements of 32 bytes
    after the first. *)
Lemma encode_event_slice_from_spec evs : ∀ i m ptr,
  0 ≤ i → i + zlen evs ≤ 2 ^ 32 → Forall event_ok evs →
  ∃ m', encode_event_slice_from i m ptr evs = Ret m' ∧
    (∀ k v, zget evs k = Some v → ∃ g, encode_event v = Ret g ∧
       load_bytes m' (ptr + 1024 * (i + k)) 32 = c_encode __wasi_event_t g) ∧
    (∀ x, x < ptr + 1024 * i → m' x = m x).
Proof using.
  induction evs as [|v evs IH]; intros i m ptr Hi Hn Hev; cbn [encode_event_slice_from].
  { exists m. split; [done|]. split; [|done]. intros k v Hk. apply zget_Some_lt in Hk. unfold zlen in Hk. cbn in Hk. lia. }
  rewrite zlen_cons in Hn. pose proof (zlen_nonneg evs). apply Forall_cons in Hev as [Hv Hev].
  destruct (encode_event_valid v Hv) as (g & Eg & Hg). rewrite Eg, bind_Ret_l.
  change (c_size __wasi_event_t) with 32. rewrite op_mul_fits, bind_Ret_l by lia.
  set (m1 := ptr_write _ _ _).
  destruct (IH (i + 1) m1 ptr) as (m' & -> & Hk & Hout); [lia..|done|].
  exists m'. split; [done|]. split.
  - intros k w Hkw. destruct (decide (k = 0)) as [->|Hk0].
    + cbn in Hkw. injection Hkw as <-. exists g. split; [done|].
      replace (ptr + 1024 * (i + 0)) with (ptr + i * 32 * 32) by lia.
      transitivity (load_bytes m1 (ptr + i * 32 * 32) (zlen (c_encode __wasi_event_t g))).
      * rewrite (encode_fits __wasi_event_t g event_laws Hg). apply load_bytes_ext.
        intros x Hx. apply Hout. change (c_size __wasi_event_t) with 32 in Hx. lia.
      * apply load_store_same.
    + pose proof (zget_Some_lt _ _ _ Hkw). rewrite zget_cons in Hkw by lia. destruct (Hk (k - 1) w Hkw) as (g' & ? & Hl). exists g'. split; [done|].
      rewrite <-Hl. f_equal. lia.
  - intros x Hx. rewrite Hout by lia. unfold m1, ptr_write. apply store_bytes_out. lia.
Qed.

Lemma writes_one_event s ptr evs :
  st s → Forall event_ok evs → (length evs ≤ 1)%nat →
  inside base len (ptr, c_size __wasi_event_t * zlen evs) →
  writes (update s (encode_event_slice (w_rt s) ptr evs)).
Proof.
  intros Hs Hev Hl Hin. destruct evs as [|v [|]]; cbn in Hl; [| |lia].
  - exists (with_rt s (with_mem (w_rt s) (rt_mem (w_rt s)))). split; [done|].
    by apply confined_step.
  - apply Forall_cons in Hev as [Hv _]. destruct (encode_event_valid v Hv) as (g & E & Hg).
    unfold encode_event_slice. cbn [encode_event_slice_from]. rewrite E. cbn [mbind res_mbind].
    change (op_mul 64 0 (c_size __wasi_event_t)) with (Ret 0). cbn [mbind res_mbind update].
    eexists. split; [done|]. apply confined_step; [done|]. intros x Hx. unfold ptr_write.
    apply store_bytes_out. fold (c_encode __wasi_event_t g).
    rewrite (encode_fits __wasi_event_t g event_laws Hg).
    change (c_size __wasi_event_t) with 32 in *. unfold inside, zlen in Hin. cbn in Hin. lia.
Qed.

Context (h : WASIState).
Hypothesis Hh : w_hosts s0 !! instance_of_vmctx vmctx = Some h.
Hypothesis Hae : argv_environ_ok (ws_argv_environ h).

Lemma get_curfds_eq : get_curfds s0 vmctx = Ret (ws_curfds h).
Proof using Hh. unfold get_curfds, downcast. by rewrite Hh. Qed.
Lemma get_prestats_eq : get_prestats s0 vmctx = Ret (ws_prestats h).
Proof using Hh. unfold get_prestats, downcast. by rewrite Hh. Qed.
Lemma get_argv_environ_eq : get_argv_environ s0 vmctx = Ret (ws_argv_environ h).
Proof using Hh. unfold get_argv_environ, downcast. by rewrite Hh. Qed.

Ltac confined_done := first [assumption | apply confined_refl].

Ltac buffers_done :=
  cbn [buffers inputs];
  solve [apply Forall_nil_2 | by apply Forall_map | by apply Forall_singleton
        |by apply Forall_cons; split; [|apply Forall_singleton]].

(** One step through the text of a call. *)
Ltac call_step :=
  match goal with
  | |- safe (get_curfds _ _ ≫= _) => rewrite get_curfds_eq; cbn [mbind res_mbind]
  | |- safe (get_prestats _ _ ≫= _) => rewrite get_prestats_eq; cbn [mbind res_mbind]
  | |- safe (get_argv_environ _ _ ≫= _) => rewrite get_argv_environ_eq; cbn [mbind res_mbind]
  | |- safe (or_return _ _ (decode_iovec_slice _ _ _ _) _) =>
      eapply safe_or_return; [confined_done|by apply decodes_iovecs|intros ? [? ?]]
  | |- safe (or_return _ _ (decode_ciovec_slice _ _ _ _) _) =>
      eapply safe_or_return; [confined_done|by apply decodes_ciovecs|intros ? [? ?]]
  | |- safe (or_return _ _ (decode_char_slice _ _ _ _) _) =>
      eapply safe_or_return;
      [confined_done|by apply decodes_chars; [confined_done|..]|intros ? [-> ?]]
  | |- safe (or_return _ _ _ _) =>
      eapply safe_or_return;
      [confined_done|apply decodes_pointee; [confined_done|done|done]|intros ? ?; cbv beta in *]
  | |- safe (match host ?s ?c ?o with _ => _ end) =>
      let e := fresh "e" in let o' := fresh "o" in let s' := fresh "s" in
      destruct (host_confined s c o) as (e & o' & s' & -> & ? & ? & ?);
      [confined_done|try done|buffers_done|buffers_done|]
  | |- safe (on_success _ _ _ ≫= _) =>
      apply safe_writes; [apply writes_on_success; [confined_done|intros ? ?]|intros ? ?]
  | |- safe (update _ _ ≫= _) => apply safe_writes; [|intros ? ?]
  | |- safe (return_encoded_errno _ _ _) => by apply safe_return; [confined_done|]
  | |- writes (update _ _ ≫= _) => apply writes_bind; [|intros ? ?]
  | |- writes (update _ _) =>
      first [by apply writes_usize | by apply writes_timestamp | by apply writes_filesize
            |by apply writes_fd | by apply writes_roflags | by apply writes_prestat
            |by apply writes_fdstat | by apply writes_filestat]
  end.
Ltac call_steps := repeat (cbv beta iota zeta; call_step).

Ltac head t := lazymatch t with ?f _ => head f | _ => t end.
Ltac unfold_call := lazymatch goal with |- safe ?t => let f := head t in unfold f end.

Lemma safe_args_get argv_ argv_buf_ :
  fits 4 argv_ → fits 4 argv_buf_ → safe (args_get log_trace s0 vmctx argv_ argv_buf_).
Proof.
  intros. unfold args_get. call_step. destruct Hae as [Ha _].
  by apply (safe_get_strings _ _ _ _ _ argv_ argv_buf_ Ha).
Qed.
Lemma safe_environ_get environ_ environ_buf_ :
  fits 4 environ_ → fits 4 environ_buf_ → safe (environ_get log_trace s0 vmctx environ_ environ_buf_).
Proof.
  intros. unfold environ_get. call_step. destruct Hae as [_ He].
  by apply (safe_get_strings _ _ _ _ _ environ_ environ_buf_ He).
Qed.

Lemma strings_ok_fits n size ptrs from bs : strings_ok n size ptrs from bs → fits 4 n ∧ fits 4 size.
Proof using.
  intros (<- & <- & ? & ? & _). pose proof (zlen_nonneg ptrs). pose proof (zlen_nonneg bs). lia.
Qed.

Lemma safe_poll_oneoff in_ out n nevents :
  fits 4 in_ → fits 4 out → fits 4 n → fits 4 nevents → n ≤ 1 →
  safe (poll_oneoff log_trace s0 vmctx in_ out n nevents).
Proof.
  intros Hi Ho Hn Hv Hle. unfold poll_oneoff. call_step.
  eapply safe_or_return; [confined_done|by apply decodes_subscriptions|intros subs [_ Hsubs]].
  eapply safe_or_return;
    [confined_done|apply decodes_slice; [confined_done|done..]|intros ? [-> Hin]].
  cbv beta iota zeta. call_step. set (evs := replicate _ _).
  assert (length evs = length subs) as Hlen by (unfold evs; rewrite length_replicate; unfold zlen in *; lia).
  rewrite (proj2 (Z.eqb_eq (zlen subs) (zlen evs))) by (unfold zlen; by rewrite Hlen).
  cbn [rassert mbind res_mbind].
  destruct (host_confined s0 (wasmtime_ssp_poll_oneoff (ws_curfds h) subs) (evs, 0))
    as (e & [evs' k] & s & -> & Hs & He & Hk); [confined_done| |buffers_done|buffers_done|].
  { split; [done|]. cbn [fst snd]. split; [pose proof (zlen_nonneg subs); lia|].
    apply Forall_replicate. done. }
  destruct Hk as (Hl & Hk & Hev). cbn [fst snd] in *. assert (fits 4 k) by lia. call_steps.
  apply writes_one_event; [assumption|by apply Forall_take|rewrite length_take; lia|].
  destruct Hin as [Hz|Hin]; [left|right]; cbn [fst snd] in *;
    change (c_size __wasi_event_t) with 32 in *; unfold zlen in *; rewrite length_take; lia.
Qed.

(** A successful [poll_oneoff]. *)
Lemma poll_oneoff_events in_ out n nevents subs evs k s1 :
  fits 4 in_ → fits 4 out → fits 4 n → fits 4 nevents →
  decode_subscription_slice (w_rt s0) vmctx in_ n = Ret (Ok subs) →
  decode_event_slice (w_rt s0) vmctx out n = Ret (Ok (base + out, n)) →
  decode_usize_byref (w_rt s0) vmctx nevents = Ret (Ok tt) →
  host s0 (wasmtime_ssp_poll_oneoff (ws_curfds h) subs)
    (replicate (Z.to_nat n) (mkHostEvent 0 0 0 0 0), 0) = (__WASI_ESUCCESS, (evs, k), s1) →
  ∃ s', poll_oneoff log_trace s0 vmctx in_ out n nevents = Ret (s', __WASI_ESUCCESS) ∧
    ∀ i v, i < k → zget evs i = Some v → ∃ g, encode_event v = Ret g ∧
      load_bytes (rt_mem (w_rt s')) (base + out + 1024 * i) 32 = c_encode __wasi_event_t g.
Proof.
  intros Hi Ho Hn Hv Esub Eout Enev Eh. unfold poll_oneoff. rewrite get_curfds_eq, bind_Ret_l.
  destruct (decodes_subscriptions in_ n Hi Hn) as (r & Er & Hr). rewrite Esub in Er. injection Er as <-.
  destruct Hr as [_ Hsubs].
  destruct (decodes_pointee s0 size_t nevents (confined_refl s0) Hv ltac:(done)) as (r & Er & Hw).
  unfold decode_usize_byref in Enev. rewrite Enev in Er. injection Er as <-.
  unfold or_return at 1. rewrite Esub, bind_Ret_l. unfold or_return at 1. rewrite Eout, bind_Ret_l.
  unfold or_return at 1. unfold decode_usize_byref. rewrite Enev, bind_Ret_l.
  set (evs0 := replicate _ _) in *.
  assert (length evs0 = length subs) as Hlen by (unfold evs0; rewrite length_replicate; unfold zlen in *; lia).
  rewrite (proj2 (Z.eqb_eq (zlen subs) (zlen evs0))) by (unfold zlen; by rewrite Hlen).
  cbn [rassert]. rewrite bind_Ret_l, Eh.
  destruct (host_confined s0 (wasmtime_ssp_poll_oneoff (ws_curfds h) subs) (evs0, 0))
    as (e & [evs' k'] & s & Eh' & Hs & He & Hk); [confined_done| |buffers_done|buffers_done|].
  { split; [done|]. cbn [fst snd]. split; [pose proof (zlen_nonneg subs); lia|].
    apply Forall_replicate. done. }
  rewrite Eh in Eh'. simplify_eq. destruct Hk as (Hl & Hk & Hev). cbn [fst snd] in Hl, Hk, Hev.
  unfold on_success. rewrite Z.eqb_refl.
  destruct (writes_usize s nevents k' Hs Hw ltac:(lia)) as (s2 & -> & Hs2). rewrite bind_Ret_l.
  unfold encode_event_slice.
  destruct (encode_event_slice_from_spec (take (Z.to_nat k') evs') 0 (rt_mem (w_rt s2)) (base + out))
    as (m' & -> & Hm & _); [lia| |by apply Forall_take|].
  { unfold zlen in *. rewrite length_take. lia. }
  cbn [mbind res_mbind update].
  exists (with_rt s2 (with_mem (w_rt s2) m')). split; [by apply return_encoded_errno_ok|].
  intros i v Hik Hiv. apply (Hm i). pose proof (zget_Some_lt _ _ _ Hiv).
  unfold zget in *. rewrite (proj2 (Z.leb_le 0 i)) in * by lia. rewrite lookup_take_lt; [done|lia].
Qed.

(** Every call that is supported returns, with an error number of WASI. *)
Lemma dispatch_safe sc :
  args_ok sc → supported log_trace sc →
  ∃ s' r, dispatch log_trace s0 vmctx sc = Ret (s', r) ∧ st s' ∧ ∀ e, r = Returned e → errno_ok e.
Proof.
  assert (∀ r, safe r → ∃ s' r', errno_result r = Ret (s', r') ∧ st s' ∧
    ∀ e, r' = Returned e → errno_ok e) as Hsafe.
  { intros r (s & e & -> & Hs & He). eexists s, _. split; [done|]. split; [done|]. by intros ? [= <-]. }
  destruct Hae as [[Ha1 Ha2]%strings_ok_fits [He1 He2]%strings_ok_fits].
  destruct sc; cbn [args_ok supported dispatch]; intros Hargs Hsup; try done;
    try (apply Hsafe; clear Hsafe; destruct_and? Hargs);
    try (by apply safe_args_get); try (by apply safe_environ_get); try (by apply safe_poll_oneoff);
    try (unfold_call; solve [call_steps]).
  - unfold args_sizes_get, wasmtime_ssp_args_sizes_get. call_steps.
  - unfold environ_sizes_get, wasmtime_ssp_environ_sizes_get. call_steps.
  - unfold fd_seek. assert (∃ w, (if log_trace then whence_to_str whence else Ret "") = Ret w) as [w ->].
    { destruct log_trace; [by apply is_ret_iff, Hsup|by eexists]. }
    cbn [mbind res_mbind]. call_steps.
  - eexists _, _. split; [done|]. split; [confined_done|done].
  - unfold sock_recv. call_steps.
    match goal with H : results_ok _ ?o |- _ => destruct o as [n f], H as [Hn Hf] end.
    cbn [fst snd] in *. call_steps.
Qed.
End confinement.
