(* ===== verification/WasiTheorems.v ===== *)
(** * Theorems about WASI calls

    The calls as a guest makes them, through their shims: what they may change,
    the errors without a memory, and what a guest reads of its arguments. *)

From S2P Require Import Prelude Environ ModuleEnv VMOffsets Store Registry Memory VMContext Table Instance WasiTypes WasiInterface WasiTranslate WasiSyscalls WasiProofs.
Local Open Scope string_scope.
Local Open Scope list_scope.
Local Open Scope Z_scope.

(** ** Shims *)

Lemma imap_get_elem {A} (l : list (string * A)) k v : imap_get l k = Some v → (k, v) ∈ l.
Proof.
  induction l as [|[k' v'] l IH]; cbn; [done|]. destruct (decide (k' = k)) as [->|].
  - intros [= ->]. apply list_elem_of_here.
  - intros Hv. by apply list_elem_of_further, IH.
Qed.

Lemma wrap_u_fits w n x : w = 8 * n → 0 ≤ n → fits n (wrap_u w x).
Proof. intros -> Hn. apply Z.mod_pos_bound. apply Z.pow_pos_nonneg; lia. Qed.

(** The parameters that a shim passes are in the range of their types. *)
Lemma shim_call_ok name args sc : shim_call name args = Some sc → args_ok sc.
Proof.
  unfold shim_call. destruct (imap_get syscall_table name) as [[ps rs]|] eqn:E; [|done].
  apply imap_get_elem in E. cbn [mbind option_bind]. case_bool_decide as Hl; [|done].
  unfold syscall_table in E.
  repeat (apply elem_of_cons in E as [E|E];
    [injection E as -> -> ->; repeat (destruct args as [|? args]; try done);
     cbn [zip_with param_convert make_syscall String.eqb Ascii.eqb Bool.eqb]; intros [= <-];
     cbn [args_ok]; repeat (first [by apply wrap_u_fits | split])|]).
  by apply elem_of_nil in E.
Qed.

(** ** Arguments *)

(** The strings are in the buffer at their offsets, each followed by a zero. *)
Definition packed (strs : list (list Z)) (st : list Z * list Z) : Prop :=
  zlen (fst st) = zlen strs ∧
  ∀ k a, zget strs k = Some a →
    ∃ pre post, zget (fst st) k = Some (zlen pre) ∧ snd st = pre ++ (a ++ [0]) ++ post.

Lemma push_strings_packed strs : packed strs (fold_left push_string strs ([], [])).
Proof.
  induction strs as [|a strs IH] using rev_ind; [split; [done|by intros k a Hk%zget_nil]|].
  rewrite fold_left_app. cbn [fold_left]. destruct (fold_left _ _ _) as [offs buf].
  destruct IH as [Hl Hk]. cbn [fst snd] in *. split; cbn [push_string fst snd].
  - rewrite !zlen_app, Hl. done.
  - intros k b Hb. destruct (Z.lt_ge_cases k (zlen strs)) as [Hlt|Hge].
    + rewrite zget_app_l in Hb by done. destruct (Hk k b Hb) as (pre & post & Ho & Hbuf).
      exists pre, (post ++ a ++ [0]). split; [rewrite zget_app_l; [done|lia]|].
      rewrite Hbuf. by rewrite <-!app_assoc.
    + rewrite zget_app_r in Hb by done. apply zget_singleton in Hb as [Hz ->].
      exists buf, []. split; [|by rewrite app_nil_r].
      replace k with (zlen offs) by lia. apply zget_app_mid.
Qed.

Lemma allocate_args strs env :
  let '(offs, buf, _, _) := allocate_argv_environ strs env in packed strs (offs, buf).
Proof.
  unfold allocate_argv_environ. pose proof (push_strings_packed strs) as Hp.
  destruct (fold_left push_string strs ([], [])) as [offs buf].
  by destruct (fold_left _ env _) as [eoffs ebuf].
Qed.

(** Offsets that [packed] gives are inside the buffer. *)
Lemma packed_offsets strs st p :
  packed strs st → Forall (λ q, p ≤ q < p + zlen (snd st)) (map (λ o, p + o) (fst st)).
Proof.
  intros [Hl Hk]. apply Forall_map, Forall_forall. intros o Ho. cbn.
  destruct (elem_of_zget _ _ Ho) as [k Hko].
  destruct (zget_is_Some strs k) as [a Ha]; [apply zget_Some_lt in Hko; lia|].
  destruct (Hk k a Ha) as (pre & post & Hpre & Hbuf). simplify_eq. rewrite Hbuf.
  rewrite !zlen_app. pose proof (zlen_nonneg pre). pose proof (zlen_nonneg a).
  pose proof (zlen_nonneg post). change (zlen [0]) with 1. lia.
Qed.

(** ** Calls are confined *)

(** A string of a buffer that memory holds at [a]. *)
Lemma load_string m a buf pre str post :
  buf = pre ++ str ++ post → (∀ i, 0 ≤ i < zlen buf → zget buf i = Some (m (a + i))) →
  load_bytes m (a + zlen pre) (zlen str) = str.
Proof.
  intros -> Hm. etrans; [|apply (load_store_same m (a + zlen pre) str)].
  apply load_bytes_ext. intros i Hi. rewrite store_bytes_in by done.
  pose proof (zlen_nonneg pre). pose proof (zlen_nonneg post).
  specialize (Hm (zlen pre + i)). rewrite !zlen_app in Hm.
  rewrite zget_app_r, zget_app_l in Hm by lia.
  replace (zlen pre + i - zlen pre) with i in Hm by lia. rewrite Hm by lia. cbn. f_equal. lia.
Qed.

Section theorems.
Context `{InstanceLayout} `{SSP} (log_trace : bool).
Set Default Proof Using "Type".

(** An instance of WASI beside a guest with [len] bytes of memory at [base]. *)
Record wasi_ready (s : wst) (vmctx base len : Z) (h : WASIState) : Prop := {
  ready_memory : guest_memory (w_rt s) vmctx base len;
  ready_bytes : bytes (rt_mem (w_rt s));
  ready_host : w_hosts s !! instance_of_vmctx vmctx = Some h;
  ready_argv : argv_environ_ok (ws_argv_environ h);
}.

(** C8: whatever a guest passes to a WASI function, the call returns without a
    panic, gives back an error number of WASI unless it is [proc_exit], which ends
    the process, and changes nothing outside the
    guest's linear memory but the state of the C library.  Of the library it is
    only assumed that it behaves on addresses inside the guest's memory, so the
    calls pass it no others.  Excluded are [proc_raise], which is not implemented,
    [fd_seek] with an unknown [whence] while tracing, and [poll_oneoff] with more
    than one subscription. *)
Theorem shim_confined s vmctx base len h name args sc :
  SSPLaws base len → wasi_ready s vmctx base len h →
  shim_call name args = Some sc → supported log_trace sc →
  ∃ s' r, shim log_trace s vmctx name args = Ret (s', r) ∧ confined base len s s' ∧
          ∀ e, r = Returned e → errno_ok e.
Proof.
  intros HL [Hm Hb Hh Ha] Hsc Hsup. unfold shim. rewrite Hsc.
  destruct (dispatch_safe log_trace vmctx base len s Hm Hb h Hh Ha sc) as (s' & r & -> & Hs & Hr);
    [by eapply shim_call_ok|done|].
  eexists s', _. split; [done|]. split; [done|]. intros e He.
  destruct r as [e'|]; [|done]. injection He as <-. pose proof (Hr e' eq_refl) as He'.
  unfold errno_ok, __WASI_ENOTCAPABLE in He'. unfold errno_ok, __WASI_ENOTCAPABLE, wrap_s.
  rewrite Z.mod_small by lia. destruct (Z.ltb_spec e' (2 ^ (32 - 1))); lia.
Qed.

(** ** Without a memory *)

(** The calls with an address of the guest among their parameters. *)
Definition takes_address (sc : syscall) : bool :=
  match sc with
  | Sys_fd_close _ | Sys_fd_datasync _ | Sys_fd_renumber _ _ | Sys_fd_fdstat_set_flags _ _
  | Sys_fd_fdstat_set_rights _ _ _ | Sys_fd_sync _ | Sys_fd_advise _ _ _ _ | Sys_fd_allocate _ _ _
  | Sys_fd_filestat_set_times _ _ _ _ | Sys_fd_filestat_set_size _ _ | Sys_proc_exit _
  | Sys_proc_raise _ | Sys_sched_yield | Sys_sock_shutdown _ _ => false
  | _ => true
  end.

(** No instance exports a memory under the name [memory], or two do. *)
Definition no_memory (σ : rt) (vmctx : Z) : Prop :=
  ∃ x, lookup_global_export σ (instance_of_vmctx vmctx) "memory" = Ret x ∧
       match x with Some (RtMemory _ _ _) => False | _ => True end.

Lemma no_memory_ptr σ vmctx ptr len align :
  no_memory σ vmctx → decode_ptr σ vmctx ptr len align = Ret (Err __WASI_EINVAL).
Proof. intros (x & E & Hx). unfold decode_ptr. rewrite E. by destruct x as [[]|]. Qed.

Lemma no_memory_slice σ vmctx (T : cty) ptr n :
  no_memory σ vmctx → fits 4 n → 0 < c_size T < 2 ^ 16 →
  decode_slice_of σ vmctx T ptr n = Ret (Err __WASI_EINVAL).
Proof.
  intros Hn Hf HT. unfold decode_slice_of. rewrite (proj2 (try_from_u_Some 64 n n)) by lia.
  cbn [unwrap mbind res_mbind]. rewrite (proj2 (checked_mul_Some 64 (c_size T) n (c_size T * n))) by nia.
  cbn [unwrap mbind res_mbind]. by rewrite no_memory_ptr.
Qed.

Lemma return_einval s : return_encoded_errno log_trace s __WASI_EINVAL = Ret (s, __WASI_EINVAL).
Proof.
  unfold return_encoded_errno, encode_errno. cbn [mbind res_mbind rassert Z.leb].
  destruct log_trace; [|done]. by vm_compute (strerror _).
Qed.

Lemma or_return_einval {A} s (m : res (result A Z)) k :
  m = Ret (Err __WASI_EINVAL) → or_return log_trace s m k = Ret (s, __WASI_EINVAL).
Proof. intros ->. apply return_einval. Qed.

Ltac head t := lazymatch t with ?f _ => head f | _ => t end.
Ltac no_memory_done :=
  unfold get_curfds, get_prestats, get_argv_environ, downcast;
  repeat match goal with E : w_hosts _ !! _ = Some _ |- _ => rewrite E end;
  cbn [unwrap mbind res_mbind];
  repeat match goal with E : fits 4 ?n |- context [try_from_u 32 ?n] =>
    rewrite (proj2 (try_from_u_Some 32 n n)) by done end;
  apply or_return_einval;
  unfold decode_iovec_slice, decode_ciovec_slice, decode_subscription_slice,
    decode_char_slice, decode_usize_byref, decode_timestamp_byref, decode_filesize_byref,
    decode_prestat_byref, decode_fdstat_byref, decode_filestat_byref, decode_pointee, decode_ptr_to;
  first [by rewrite no_memory_slice | by rewrite no_memory_ptr].

(** When the instance finds no memory, because no instance exports one or
    because several do, every call with an address fails with [EINVAL]; nothing is
    changed and the C library is not called. *)
Theorem no_memory_einval s vmctx h sc :
  no_memory (w_rt s) vmctx → w_hosts s !! instance_of_vmctx vmctx = Some h →
  argv_environ_ok (ws_argv_environ h) → args_ok sc → takes_address sc = true →
  supported log_trace sc →
  dispatch log_trace s vmctx sc = Ret (s, Returned __WASI_EINVAL).
Proof.
  intros Hn Hh [Ha He] Hargs Ht Hsup.
  assert (∀ m, m = Ret (s, __WASI_EINVAL) → errno_result m = Ret (s, Returned __WASI_EINVAL)) as Hr
    by (by intros ? ->).
  destruct sc; cbn [takes_address args_ok supported dispatch] in *; try done; destruct_and? Hargs;
    apply Hr; clear Hr;
    lazymatch goal with
    | |- args_get _ _ _ _ _ = _ => unfold args_get; destruct (strings_ok_fits _ _ _ _ _ Ha) as [Hf1 Hf2]
    | |- environ_get _ _ _ _ _ = _ => unfold environ_get; destruct (strings_ok_fits _ _ _ _ _ He) as [Hf1 Hf2]
    | |- fd_seek _ _ _ _ _ _ _ = _ =>
        unfold fd_seek; assert (∃ w, (if log_trace then whence_to_str whence else Ret "") = Ret w) as [w ->];
        [by destruct log_trace; [apply is_ret_iff, Hsup|eexists]|]
    | |- ?t = _ => let f := head t in unfold f
    end; no_memory_done.
Qed.

(** ** Arguments *)

(** C23: a guest that calls [args_get] with room for the pointers and the bytes
    receives the command line that the instance of WASI was made with: the [k]-th
    pointer is the address, in the guest's memory, of the [k]-th argument followed
    by a zero, and the last pointer is null. *)
Theorem args_get_delivers s vmctx base len h p q strs env argv_ argv_buf_ :
  let '(offs, buf, eoffs, ebuf) := allocate_argv_environ strs env in
  SSPLaws base len → wasi_ready s vmctx base len h →
  ws_argv_environ h = argv_environ_init p q offs buf eoffs ebuf →
  fits 4 argv_ → fits 4 argv_buf_ → argv_ mod 4 = 0 →
  argv_ + 4 * (zlen strs + 1) ≤ len → argv_buf_ + zlen buf ≤ len →
  (argv_ + 4 * (zlen strs + 1) ≤ argv_buf_ ∨ argv_buf_ + zlen buf ≤ argv_) →
  ∃ s', dispatch log_trace s vmctx (Sys_args_get argv_ argv_buf_) = Ret (s', Returned __WASI_ESUCCESS) ∧
    (∀ k a, zget strs k = Some a →
       load_bytes (rt_mem (w_rt s')) (base + load_le (rt_mem (w_rt s')) (base + argv_ + 4 * k) 4)
         (zlen a + 1) = a ++ [0]) ∧
    load_le (rt_mem (w_rt s')) (base + argv_ + 4 * zlen strs) 4 = 0.
Proof.
  pose proof (allocate_args strs env) as Hp.
  destruct (allocate_argv_environ strs env) as [[[offs buf] eoffs] ebuf].
  intros HL [Hm Hb Hh Ha] Hae Hv Hbp Hal Hin1 Hin2 Hdis. destruct Hp as [Hlen Hk]. cbn [fst snd] in *.
  cbn [dispatch]. unfold args_get, get_argv_environ, downcast. rewrite Hh. cbn [unwrap mbind res_mbind].
  destruct Ha as [Ha _]. rewrite Hae in Ha |- *. cbn [argc argv_buf_size argv argv_buf argv_buf_bytes
    argv_environ_init] in Ha |- *.
  pose proof Ha as (_ & _ & Hn & Hs & _). pose proof (zlen_nonneg offs). pose proof (zlen_nonneg buf).
  destruct (get_strings_ok log_trace vmctx base len s Hm Hb _ _ _ _ _ argv_ argv_buf_ Ha Hv Hbp)
    as (m' & E & Hout & Hbuf & Hptr & Hnull).
  - apply (decode_slice_accepts vmctx base len s Hm s c_char); try done; [apply confined_refl| |].
    + change (c_size c_char) with 1. lia.
    + apply Z.mod_1_r.
  - apply (decode_slice_accepts vmctx base len s Hm s uintptr_t); try done; [apply confined_refl|lia|].
    change (c_size uintptr_t) with 4. lia.
  - right. cbn. destruct Hm as (_ & _ & _ & _ & _ & Hbase & _). lia.
  - exists (with_rt s (with_mem (w_rt s) m')). split.
    { etrans; [apply (f_equal errno_result E)|].
      unfold return_encoded_errno, encode_errno. destruct log_trace; [|done]. by vm_compute (strerror _). }
    cbn [w_rt with_rt rt_mem with_mem with_world rt_world w_mem].
    rewrite Hlen in Hbuf, Hnull. split; [|done].
    intros k a Hka. destruct (Hk k a Hka) as (pre & post & Hpre & Hbufeq).
    rewrite (Hptr k (p + zlen pre)) by (rewrite zget_map, Hpre; done).
    replace (base + (argv_buf_ + (p + zlen pre - p))) with (base + argv_buf_ + zlen pre) by lia.
    replace (zlen a + 1) with (zlen (a ++ [0])) by (by rewrite zlen_app).
    apply (load_string _ _ buf _ _ post); [done|]. intros i Hi. apply Hbuf; [done|lia].
Qed.
(** ** Events *)

(** C40: where a successful [poll_oneoff] puts the events that the library has
    returned.  The [i]-th event is written 1024 bytes times [i] after the start of
    the guest's array, although the array that was checked has 32 bytes for each
    subscription.  So from the second event on the guest does not find them in
    the array, and where [out + 1024 * i] is past the guest's memory the call is
    not confined to it. *)
Theorem poll_oneoff_escapes s vmctx base len h in_ out n nevents subs evs k s1 :
  SSPLaws base len → wasi_ready s vmctx base len h →
  fits 4 in_ → fits 4 out → fits 4 n → fits 4 nevents →
  decode_subscription_slice (w_rt s) vmctx in_ n = Ret (Ok subs) →
  decode_event_slice (w_rt s) vmctx out n = Ret (Ok (base + out, n)) →
  decode_usize_byref (w_rt s) vmctx nevents = Ret (Ok tt) →
  host s (wasmtime_ssp_poll_oneoff (ws_curfds h) subs)
    (replicate (Z.to_nat n) (mkHostEvent 0 0 0 0 0), 0) = (__WASI_ESUCCESS, (evs, k), s1) →
  ∃ s', dispatch log_trace s vmctx (Sys_poll_oneoff in_ out n nevents) = Ret (s', Returned __WASI_ESUCCESS) ∧
    ∀ i v, i < k → zget evs i = Some v → ∃ g, encode_event v = Ret g ∧
      load_bytes (rt_mem (w_rt s')) (base + out + 1024 * i) 32 = c_encode __wasi_event_t g ∧
      (len ≤ out + 1024 * i →
       load_bytes (rt_mem (w_rt s)) (base + out + 1024 * i) 32 ≠ c_encode __wasi_event_t g →
       ¬ confined base len s s').
Proof.
  intros HL [Hm Hb Hh Ha] Hi Ho Hn Hv Es Eo En Eh.
  destruct (poll_oneoff_events log_trace vmctx base len s Hm Hb h Hh Ha in_ out n nevents subs evs k s1
    Hi Ho Hn Hv Es Eo En Eh) as (s' & E & Hk).
  exists s'. cbn [dispatch]. rewrite E. split; [done|]. intros i v Hik Hiv.
  destruct (Hk i v Hik Hiv) as (g & Eg & Hg). exists g. split; [done|]. split; [done|].
  intros Hout Hne (_ & m & Hr & Hmem). apply Hne. rewrite <-Hg, Hr. apply load_bytes_ext.
  intros x Hx. symmetry. apply Hmem. lia.
Qed.

End theorems.

(** ** A guest and a library *)

#[local] Instance ex_wasi_layout : InstanceLayout := {| instance_size := 128; vmctx_offset := 128 |}.

(** A library with a clock, a source of bytes and timers that have expired. *)
Definition ex_ssp_fun {O} (c : ssp_call O) : O → Z → mem → Z * O * Z * mem :=
  match c in ssp_call O return O → Z → mem → Z * O * Z * mem with
  | wasmtime_ssp_clock_time_get _ _ => λ _ t m, (__WASI_ESUCCESS, 1234567890123, t + 1, m)
  | wasmtime_ssp_random_get buf n => λ o t m,
      (__WASI_ESUCCESS, o, t, store_bytes m buf (replicate (Z.to_nat n) 7))
  | wasmtime_ssp_poll_oneoff _ in_ => λ _ t m,
      (__WASI_ESUCCESS, (map (λ _, mkHostEvent 5 0 0 0 0) in_, zlen in_), t, m)
  | _ => λ o t m, (52, o, t, m)
  end.
#[local] Instance ex_ssp : SSP := {| ssp_state := Z; ssp O c := @ex_ssp_fun O c |}.

#[local] Instance ex_ssp_laws base len : SSPLaws base len.
Proof.
  split. intros O c o t m e o' t' m' Hb _ Ho E.
  destruct c; cbn in E; simplify_eq; (split; [done|]); (split; [try done|try done]).
  - cbn. rewrite length_map. split; [done|]. split; [pose proof (zlen_nonneg in_); lia|].
    apply Forall_map, Forall_true. done.
  - intros x Hx. apply store_bytes_out. unfold zlen. rewrite length_replicate.
    specialize (Hx buf buf_len). cbn in Hx. specialize (Hx (list_elem_of_here _ _)). lia.
Qed.

Definition ex_guest_def : VMMemoryDefinition := mkVMMemoryDefinition 0x10000 0x10000.
Definition ex_guest_mem : mem := ptr_write (λ _, 0) 0x100 ex_guest_def.
Definition ex_plan : MemoryPlan := mkMemoryPlan (mkMemory 1 None false) Dynamic 0x10000.
Definition ex_wasi_inst : Instance :=
  mkInstance 1 ∅ (mkMmap 0x1000 0x1000) Module_new (mkVMOffsets 8 0 0 0 0 0 0 0 0) 0 [] [] [].
Definition ex_wasi_rt (exports : gmap string (option RtExport)) : rt :=
  mkRt (mkWorld ex_guest_mem (λ _, None)) {[ 0x1000 := ex_wasi_inst ]} {[ 0 := exports ]} handlers_new.
Definition ex_args : list (list Z) := [[97; 98]; [99]].
Definition ex_wasi_state : WASIState :=
  let '(offs, buf, eoffs, ebuf) := allocate_argv_environ ex_args [([75], [86])] in
  mkWASIState 0x200 0x300 (argv_environ_init 0x400 0x500 offs buf eoffs ebuf).
Definition ex_wasi (exports : gmap string (option RtExport)) : wst :=
  mkWst (ex_wasi_rt exports) {[ 0x1000 := ex_wasi_state ]} 0.
Definition ex_exports : gmap string (option RtExport) :=
  {[ "memory" := Some (RtMemory 0x100 0x80 ex_plan) ]}.
Definition ex_vmctx : Z := 0x1080.

Lemma ex_argv_ok : argv_environ_ok (ws_argv_environ ex_wasi_state).
Proof. apply (bool_decide_unpack _). by vm_compute. Qed.

Lemma ex_ready : wasi_ready (ex_wasi ex_exports) ex_vmctx 0x10000 0x10000 ex_wasi_state.
Proof.
  split; [|..|apply ex_argv_ok].
  - exists 0x100, 0x80, ex_plan. split; [by vm_compute|]. split; [by vm_compute|]. lia.
  - intros x. cbn. unfold ex_guest_mem, ptr_write, store_bytes.
    destruct (in_range _ _ _); [|lia]. destruct (zget _ _) as [b|] eqn:Eb; [|cbn; lia]. cbn.
    assert (Forall (λ b, 0 ≤ b < 256) (encode ex_guest_def)) as Hall
      by (apply (bool_decide_unpack _); by vm_compute).
    by apply (zget_Forall _ _ _ _ Hall Eb).
  - by vm_compute.
Qed.

Lemma shim_confined_witness :
  ∃ s' r, shim false (ex_wasi ex_exports) ex_vmctx "random_get" [16; 2 ^ 32 + 4] = Ret (s', r) ∧
    confined 0x10000 0x10000 (ex_wasi ex_exports) s' ∧ ∀ e, r = Returned e → errno_ok e.
Proof.
  apply (shim_confined false _ _ _ _ _ _ _ (Sys_random_get 16 4) _ ex_ready); [by vm_compute|done].
Defined.

Lemma no_memory_einval_witness :
  dispatch false (ex_wasi ∅) ex_vmctx (Sys_fd_read 1 0 1 8) = Ret (ex_wasi ∅, Returned __WASI_EINVAL).
Proof.
  apply (no_memory_einval false _ _ ex_wasi_state); try done; [|apply ex_argv_ok].
  by exists None.
Defined.

Lemma args_get_delivers_witness :
  ∃ s', dispatch false (ex_wasi ex_exports) ex_vmctx (Sys_args_get 16 64) = Ret (s', Returned __WASI_ESUCCESS) ∧
    (∀ k a, zget ex_args k = Some a →
       load_bytes (rt_mem (w_rt s')) (0x10000 + load_le (rt_mem (w_rt s')) (0x10000 + 16 + 4 * k) 4)
         (zlen a + 1) = a ++ [0]) ∧
    load_le (rt_mem (w_rt s')) (0x10000 + 16 + 4 * zlen ex_args) 4 = 0.
Proof.
  apply (args_get_delivers false _ _ _ 0x10000 ex_wasi_state 0x400 0x500 ex_args [([75], [86])]);
    try done; try apply ex_ready; try apply ex_ssp_laws. by left.
Defined.

Lemma poll_oneoff_escapes_witness :
  ∃ s', dispatch false (ex_wasi ex_exports) ex_vmctx (Sys_poll_oneoff 0 (0x10000 - 64) 2 4096)
          = Ret (s', Returned __WASI_ESUCCESS) ∧
        ¬ confined 0x10000 0x10000 (ex_wasi ex_exports) s'.
Proof.
  edestruct (poll_oneoff_escapes false (ex_wasi ex_exports) ex_vmctx 0x10000 0x10000 ex_wasi_state
    0 (0x10000 - 64) 2 4096) as (s' & E & Hk); [apply ex_ssp_laws|apply ex_ready|done..| | | | |].
  - vm_compute. reflexivity.
  - vm_compute. reflexivity.
  - vm_compute. reflexivity.
  - reflexivity.
  - exists s'. split; [exact E|].
    destruct (Hk 1 (mkHostEvent 5 0 0 0 0)) as (g & Eg & _ & Hno); [done|reflexivity|].
    apply Hno; [done|]. vm_compute in Eg. injection Eg as <-. vm_compute. discriminate.
Defined.
