(* ===== verification/WasiInstance.v ===== *)
(** * Instances of WASI

    Models [wasmtime-wasi/src/syscalls.rs], where every call is passed on to the
    crate [wasi-common], and [instantiate.rs] of both implementations.  The
    functions of [wasi-common] and of the C library are classes. *)

From S2P Require Import Prelude Environ ModuleEnv VMOffsets Store Registry Memory VMContext Table Instance WasiTypes WasiInterface WasiTranslate WasiSyscalls.
Local Open Scope string_scope.
Local Open Scope list_scope.
Local Open Scope Z_scope.

(** ** Calls through [wasi-common] *)

Module Common.

(** The functions [hostcalls::*]: a call by its parameters, on a context and on a
    slice of memory where the function takes them; [os] is what is outside.  A
    function may panic, and [proc_exit] ends the process. *)
Class Hostcalls := {
  WasiCtx : Type;
  os : Type;
  hostcalls : syscall → option WasiCtx → option (Z * Z) → os → mem →
              res (outcome * option WasiCtx * os * mem);
  (* of [wasi_common::wasm32] *)
  WASI_EINVAL : Z;
  strerror : Z → res string;
  whence_to_str : Z → res string;
}.

Section calls.
Context `{InstanceLayout} `{Hostcalls}.
Context (log_trace : bool).

(** [cs_ctx] has the instances whose host state is a [WasiCtx]. *)
Record cst := mkCst {
  cs_rt : rt;
  cs_ctx : gmap Z WasiCtx;
  cs_os : os;
}.
Implicit Types s : cst.

(** The error is never returned: the closure of [ok_or_else] panics. *)
Definition get_wasi_ctx s (vmctx : Z) : res (result WasiCtx Z) :=
  match cs_ctx s !! instance_of_vmctx vmctx with
  | Some ctx => Ret (Ok ctx)
  | None => Panic
  end.

Definition get_memory s (vmctx : Z) : res (result (Z * Z) Z) :=
  export ← lookup_global_export (cs_rt s) (instance_of_vmctx vmctx) "memory";
  match export with
  | Some (RtMemory definition _ _) =>
      let d : VMMemoryDefinition := load_val (rt_mem (cs_rt s)) definition in
      Ret (Ok (md_base d, md_current_length d))
  | _ => Ret (Err WASI_EINVAL)
  end.

(** [ok_or_errno!]: the error is returned from the call. *)
Definition ok_or_errno {A} s (m : res (result A Z)) (k : A → res (cst * outcome)) : res (cst * outcome) :=
  r ← m;
  match r with
  | Ok v => k v
  | Err e => _ ← (if log_trace then strerror e else Ret ""); Ret (s, Returned e)
  end.
Notation "x ←[ s ] m ; k" := (ok_or_errno s m (λ x, k))
  (at level 20, s at level 50, m at level 100, k at level 200, right associativity).

(** The call of a function; a context that was lent to it is put back. *)
Definition call s (vmctx : Z) (c : syscall) (ctx : option WasiCtx) (memory : option (Z * Z))
    : res (cst * outcome) :=
  '(r, ctx', o, m) ← hostcalls c ctx memory (cs_os s) (rt_mem (cs_rt s));
  let ctxs := match ctx, ctx' with
              | Some _, Some x => <[instance_of_vmctx vmctx := x]> (cs_ctx s)
              | _, _ => cs_ctx s
              end in
  Ret (mkCst (with_mem (cs_rt s) m) ctxs o, r).

(** The four shapes of the bodies of the calls. *)
Definition with_ctx_memory s (vmctx : Z) (c : syscall) : res (cst * outcome) :=
  wasi_ctx ←[s] get_wasi_ctx s vmctx;
  memory ←[s] get_memory s vmctx;
  call s vmctx c (Some wasi_ctx) (Some memory).
Definition with_memory s (vmctx : Z) (c : syscall) : res (cst * outcome) :=
  memory ←[s] get_memory s vmctx;
  call s vmctx c None (Some memory).
Definition with_ctx s (vmctx : Z) (c : syscall) : res (cst * outcome) :=
  wasi_ctx ←[s] get_wasi_ctx s vmctx;
  call s vmctx c (Some wasi_ctx) None.
Definition plain s (vmctx : Z) (c : syscall) : res (cst * outcome) := call s vmctx c None None.

Definition args_get s (vmctx argv argv_buf : Z)
    : res (cst * outcome) :=
  with_ctx_memory s vmctx (Sys_args_get argv argv_buf).
Definition args_sizes_get s (vmctx argc argv_buf_size : Z)
    : res (cst * outcome) :=
  with_ctx_memory s vmctx (Sys_args_sizes_get argc argv_buf_size).
Definition clock_res_get s (vmctx clock_id resolution : Z)
    : res (cst * outcome) :=
  with_memory s vmctx (Sys_clock_res_get clock_id resolution).
Definition clock_time_get s (vmctx clock_id precision time : Z)
    : res (cst * outcome) :=
  with_memory s vmctx (Sys_clock_time_get clock_id precision time).
Definition environ_get s (vmctx environ environ_buf : Z)
    : res (cst * outcome) :=
  with_ctx_memory s vmctx (Sys_environ_get environ environ_buf).
Definition environ_sizes_get s (vmctx environ_count environ_buf_size : Z)
    : res (cst * outcome) :=
  with_ctx_memory s vmctx (Sys_environ_sizes_get environ_count environ_buf_size).
Definition fd_prestat_get s (vmctx fd buf : Z)
    : res (cst * outcome) :=
  with_ctx_memory s vmctx (Sys_fd_prestat_get fd buf).
Definition fd_prestat_dir_name s (vmctx fd path path_len : Z)
    : res (cst * outcome) :=
  with_ctx_memory s vmctx (Sys_fd_prestat_dir_name fd path path_len).
Definition fd_close s (vmctx fd : Z) : res (cst * outcome) := with_ctx s vmctx (Sys_fd_close fd).
Definition fd_datasync s (vmctx fd : Z) : res (cst * outcome) := with_ctx s vmctx (Sys_fd_datasync fd).
Definition fd_pread s (vmctx fd iovs iovs_len offset nread : Z)
    : res (cst * outcome) :=
  with_ctx_memory s vmctx (Sys_fd_pread fd iovs iovs_len offset nread).
Definition fd_pwrite s (vmctx fd iovs iovs_len offset nwritten : Z)
    : res (cst * outcome) :=
  with_ctx_memory s vmctx (Sys_fd_pwrite fd iovs iovs_len offset nwritten).
Definition fd_read s (vmctx fd iovs iovs_len nread : Z)
    : res (cst * outcome) :=
  with_ctx_memory s vmctx (Sys_fd_read fd iovs iovs_len nread).
Definition fd_renumber s (vmctx from_ to : Z)
    : res (cst * outcome) :=
  with_ctx s vmctx (Sys_fd_renumber from_ to).
Definition fd_seek s (vmctx fd offset whence newoffset : Z) : res (cst * outcome) :=
  _ ← (if log_trace then whence_to_str whence else Ret "");
  with_ctx_memory s vmctx (Sys_fd_seek fd offset whence newoffset).
Definition fd_tell s (vmctx fd newoffset : Z)
    : res (cst * outcome) :=
  with_ctx_memory s vmctx (Sys_fd_tell fd newoffset).
Definition fd_fdstat_get s (vmctx fd buf : Z)
    : res (cst * outcome) :=
  with_ctx_memory s vmctx (Sys_fd_fdstat_get fd buf).
Definition fd_fdstat_set_flags s (vmctx fd flags : Z)
    : res (cst * outcome) :=
  with_ctx s vmctx (Sys_fd_fdstat_set_flags fd flags).
Definition fd_fdstat_set_rights s (vmctx fd fs_rights_base fs_rights_inheriting : Z)
    : res (cst * outcome) :=
  with_ctx s vmctx (Sys_fd_fdstat_set_rights fd fs_rights_base fs_rights_inheriting).
Definition fd_sync s (vmctx fd : Z) : res (cst * outcome) := with_ctx s vmctx (Sys_fd_sync fd).
Definition fd_write s (vmctx fd iovs iovs_len nwritten : Z)
    : res (cst * outcome) :=
  with_ctx_memory s vmctx (Sys_fd_write fd iovs iovs_len nwritten).
Definition fd_advise s (vmctx fd offset len advice : Z)
    : res (cst * outcome) :=
  with_ctx s vmctx (Sys_fd_advise fd offset len advice).
Definition fd_allocate s (vmctx fd offset len : Z)
    : res (cst * outcome) :=
  with_ctx s vmctx (Sys_fd_allocate fd offset len).
Definition path_create_directory s (vmctx fd path path_len : Z)
    : res (cst * outcome) :=
  with_ctx_memory s vmctx (Sys_path_create_directory fd path path_len).
Definition path_link s (vmctx fd0 flags0 path0 path_len0 fd1 path1 path_len1 : Z)
    : res (cst * outcome) :=
  with_ctx_memory s vmctx (Sys_path_link fd0 flags0 path0 path_len0 fd1 path1 path_len1).
Definition path_open s (vmctx dirfd dirflags path path_len oflags fs_rights_base
    fs_rights_inheriting fs_flags fd : Z)
    : res (cst * outcome) :=
  with_ctx_memory s vmctx (Sys_path_open dirfd dirflags path path_len oflags fs_rights_base
    fs_rights_inheriting fs_flags fd).
Definition fd_readdir s (vmctx fd buf buf_len cookie buf_used : Z)
    : res (cst * outcome) :=
  with_ctx_memory s vmctx (Sys_fd_readdir fd buf buf_len cookie buf_used).
Definition path_readlink s (vmctx fd path path_len buf buf_len buf_used : Z)
    : res (cst * outcome) :=
  with_ctx_memory s vmctx (Sys_path_readlink fd path path_len buf buf_len buf_used).
Definition path_rename s (vmctx fd0 path0 path_len0 fd1 path1 path_len1 : Z)
    : res (cst * outcome) :=
  with_ctx_memory s vmctx (Sys_path_rename fd0 path0 path_len0 fd1 path1 path_len1).
Definition fd_filestat_get s (vmctx fd buf : Z)
    : res (cst * outcome) :=
  with_ctx_memory s vmctx (Sys_fd_filestat_get fd buf).
Definition fd_filestat_set_times s (vmctx fd st_atim st_mtim fstflags : Z)
    : res (cst * outcome) :=
  with_ctx s vmctx (Sys_fd_filestat_set_times fd st_atim st_mtim fstflags).
Definition fd_filestat_set_size s (vmctx fd size : Z)
    : res (cst * outcome) :=
  with_ctx s vmctx (Sys_fd_filestat_set_size fd size).
Definition path_filestat_get s (vmctx fd flags path path_len buf : Z)
    : res (cst * outcome) :=
  with_ctx_memory s vmctx (Sys_path_filestat_get fd flags path path_len buf).
Definition path_filestat_set_times s (vmctx fd flags path path_len st_atim st_mtim fstflags : Z)
    : res (cst * outcome) :=
  with_ctx_memory s vmctx (Sys_path_filestat_set_times fd flags path path_len st_atim st_mtim
    fstflags).
Definition path_symlink s (vmctx path0 path_len0 fd path1 path_len1 : Z)
    : res (cst * outcome) :=
  with_ctx_memory s vmctx (Sys_path_symlink path0 path_len0 fd path1 path_len1).
Definition path_unlink_file s (vmctx fd path path_len : Z)
    : res (cst * outcome) :=
  with_ctx_memory s vmctx (Sys_path_unlink_file fd path path_len).
Definition path_remove_directory s (vmctx fd path path_len : Z)
    : res (cst * outcome) :=
  with_ctx_memory s vmctx (Sys_path_remove_directory fd path path_len).
Definition poll_oneoff s (vmctx in_ out nsubscriptions nevents : Z)
    : res (cst * outcome) :=
  with_ctx_memory s vmctx (Sys_poll_oneoff in_ out nsubscriptions nevents).
Definition proc_exit s (vmctx rval : Z) : res (cst * outcome) := plain s vmctx (Sys_proc_exit rval).
Definition proc_raise s (vmctx sig : Z)
    : res (cst * outcome) :=
  with_ctx_memory s vmctx (Sys_proc_raise sig).
Definition random_get s (vmctx buf buf_len : Z)
    : res (cst * outcome) :=
  with_memory s vmctx (Sys_random_get buf buf_len).
Definition sched_yield s (vmctx : Z) : res (cst * outcome) := plain s vmctx Sys_sched_yield.
Definition sock_recv s (vmctx sock ri_data ri_data_len ri_flags ro_datalen ro_flags : Z)
    : res (cst * outcome) :=
  with_ctx_memory s vmctx (Sys_sock_recv sock ri_data ri_data_len ri_flags ro_datalen ro_flags).
Definition sock_send s (vmctx sock si_data si_data_len si_flags so_datalen : Z)
    : res (cst * outcome) :=
  with_ctx_memory s vmctx (Sys_sock_send sock si_data si_data_len si_flags so_datalen).
Definition sock_shutdown s (vmctx sock how : Z)
    : res (cst * outcome) :=
  with_ctx_memory s vmctx (Sys_sock_shutdown sock how).

Definition dispatch s (vmctx : Z) (sc : syscall) : res (cst * outcome) :=
  match sc with
  | Sys_args_get argv argv_buf => args_get s vmctx argv argv_buf
  | Sys_args_sizes_get argc argv_buf_size => args_sizes_get s vmctx argc
      argv_buf_size
  | Sys_clock_res_get clock_id resolution => clock_res_get s vmctx clock_id
      resolution
  | Sys_clock_time_get clock_id precision time => clock_time_get s vmctx clock_id
      precision time
  | Sys_environ_get environ environ_buf => environ_get s vmctx environ environ_buf
  | Sys_environ_sizes_get environ_count environ_buf_size => environ_sizes_get s
      vmctx environ_count environ_buf_size
  | Sys_fd_prestat_get fd buf => fd_prestat_get s vmctx fd buf
  | Sys_fd_prestat_dir_name fd path path_len => fd_prestat_dir_name s vmctx fd path
      path_len
  | Sys_fd_close fd => fd_close s vmctx fd
  | Sys_fd_datasync fd => fd_datasync s vmctx fd
  | Sys_fd_pread fd iovs iovs_len offset nread => fd_pread s vmctx fd iovs iovs_len
      offset nread
  | Sys_fd_pwrite fd iovs iovs_len offset nwritten => fd_pwrite s vmctx fd iovs
      iovs_len offset nwritten
  | Sys_fd_read fd iovs iovs_len nread => fd_read s vmctx fd iovs iovs_len nread
  | Sys_fd_renumber from_ to => fd_renumber s vmctx from_ to
  | Sys_fd_seek fd offset whence newoffset => fd_seek s vmctx fd offset whence
      newoffset
  | Sys_fd_tell fd newoffset => fd_tell s vmctx fd newoffset
  | Sys_fd_fdstat_get fd buf => fd_fdstat_get s vmctx fd buf
  | Sys_fd_fdstat_set_flags fd flags => fd_fdstat_set_flags s vmctx fd flags
  | Sys_fd_fdstat_set_rights fd fs_rights_base fs_rights_inheriting => fd_fdstat_set_rights s vmctx fd fs_rights_base fs_rights_inheriting
  | Sys_fd_sync fd => fd_sync s vmctx fd
  | Sys_fd_write fd iovs iovs_len nwritten => fd_write s vmctx fd iovs iovs_len
      nwritten
  | Sys_fd_advise fd offset len advice => fd_advise s vmctx fd offset len advice
  | Sys_fd_allocate fd offset len => fd_allocate s vmctx fd offset len
  | Sys_path_create_directory fd path path_len => path_create_directory s vmctx fd
      path path_len
  | Sys_path_link fd0 flags0 path0 path_len0 fd1 path1 path_len1 => path_link s
      vmctx fd0 flags0 path0 path_len0 fd1 path1 path_len1
  | Sys_path_open dirfd dirflags path path_len oflags fs_rights_base fs_rights_inheriting
      fs_flags fd => path_open s vmctx dirfd dirflags path path_len oflags
      fs_rights_base fs_rights_inheriting fs_flags fd
  | Sys_fd_readdir fd buf buf_len cookie buf_used => fd_readdir s vmctx fd buf
      buf_len cookie buf_used
  | Sys_path_readlink fd path path_len buf buf_len buf_used => path_readlink s
      vmctx fd path path_len buf buf_len buf_used
  | Sys_path_rename fd0 path0 path_len0 fd1 path1 path_len1 => path_rename s vmctx
      fd0 path0 path_len0 fd1 path1 path_len1
  | Sys_fd_filestat_get fd buf => fd_filestat_get s vmctx fd buf
  | Sys_fd_filestat_set_times fd st_atim st_mtim fstflags => fd_filestat_set_times
      s vmctx fd st_atim st_mtim fstflags
  | Sys_fd_filestat_set_size fd size => fd_filestat_set_size s vmctx fd size
  | Sys_path_filestat_get fd flags path path_len buf => path_filestat_get s vmctx
      fd flags path path_len buf
  | Sys_path_filestat_set_times fd flags path path_len st_atim st_mtim fstflags => path_filestat_set_times s vmctx fd flags path path_len st_atim st_mtim fstflags
  | Sys_path_symlink path0 path_len0 fd path1 path_len1 => path_symlink s vmctx
      path0 path_len0 fd path1 path_len1
  | Sys_path_unlink_file fd path path_len => path_unlink_file s vmctx fd path
      path_len
  | Sys_path_remove_directory fd path path_len => path_remove_directory s vmctx fd
      path path_len
  | Sys_poll_oneoff in_ out nsubscriptions nevents => poll_oneoff s vmctx in_ out
      nsubscriptions nevents
  | Sys_proc_exit rval => proc_exit s vmctx rval
  | Sys_proc_raise sig => proc_raise s vmctx sig
  | Sys_random_get buf buf_len => random_get s vmctx buf buf_len
  | Sys_sched_yield => sched_yield s vmctx
  | Sys_sock_recv sock ri_data ri_data_len ri_flags ro_datalen ro_flags => sock_recv s vmctx sock ri_data ri_data_len ri_flags ro_datalen ro_flags
  | Sys_sock_send sock si_data si_data_len si_flags so_datalen => sock_send s vmctx
      sock si_data si_data_len si_flags so_datalen
  | Sys_sock_shutdown sock how => sock_shutdown s vmctx sock how
  end.

Definition shim s (vmctx : Z) (name : string) (args : list Z) : res (cst * outcome) :=
  match shim_call name args with
  | Some sc => '(s, r) ← dispatch s vmctx sc; Ret (s, convert_outcome r)
  | None => Panic
  end.
End calls.
End Common.

(** ** [instantiate_wasi] *)

Section instantiate.
Context `{OS} `{InstanceLayout}.
Context (wasmtime_call : rt → Z → Z → res (rt * result unit string)) (builtins : libcalls).
Context (abi_special : ir_type → ArgumentPurpose → AbiParam).
Context (pointer_type : ir_type) (abi_new : ir_type → AbiParam) (triple_default : Z).

(** The builder of contexts of [wasi-common] and [File::try_clone]; [F] are open
    files. *)
Class WasiCtxBuilder `{Common.Hostcalls} (F : Type) := {
  builder : Type;
  builder_new : result builder string;
  inherit_stdio : builder → result builder string;
  builder_args : builder → list string → result builder string;
  builder_envs : builder → list (string * string) → result builder string;
  preopened_dir : builder → F → string → builder;
  build : builder → result Common.WasiCtx string;
  try_clone : F → result F string;
}.

(** [Result::and_then] *)
Definition and_then {A B E} (m : result A E) (k : A → result B E) : result B E :=
  match m with Ok a => k a | Err e => Err e end.

Definition add_dirs `{WasiCtxBuilder F} (b : builder) (dirs : list (string * F))
    : result builder string :=
  fold_left (λ b d, and_then b (λ b, and_then (try_clone (snd d)) (λ f,
               Ok (preopened_dir b f (fst d))))) dirs (Ok b).

Definition wasi_ctx `{WasiCtxBuilder F} (preopened_dirs : list (string * F)) (argv : list string)
    (environ : list (string * string)) : result Common.WasiCtx string :=
  and_then (and_then (and_then (and_then builder_new inherit_stdio) (λ b, builder_args b argv))
              (λ b, builder_envs b environ))
    (λ b, and_then (add_dirs b preopened_dirs) build).

Definition instantiate_wasi `{WasiCtxBuilder F} (s : Common.cst) (shim : string → Z) (prefix : string)
    (global_exports : Z) (preopened_dirs : list (string * F)) (argv : list string)
    (environ : list (string * string)) : res (Common.cst * result Z InstantiationError) :=
  let '(module, finished_functions) :=
    wasi_module abi_special pointer_type abi_new triple_default prefix shim in
  match wasi_ctx preopened_dirs argv environ with
  | Err _ => Ret (s, Err Resource)
  | Ok ctx =>
      '(σ, r) ← InstanceHandle_new wasmtime_call builtins (Common.cs_rt s) (λ _, 0) module
                  global_exports finished_functions Imports_none [] [];
      match r with
      | Err e => Ret (Common.mkCst σ (Common.cs_ctx s) (Common.cs_os s), Err e)
      | Ok a => Ret (Common.mkCst σ (<[a := ctx]> (Common.cs_ctx s)) (Common.cs_os s), Ok a)
      end
  end.

(** ** [instantiate_wasi_c] *)

(** The functions of the C library for its tables, and [malloc] and [Box::new],
    which give the address of an allocation. *)
Class SSPTables `{SSP} := {
  malloc : ssp_state → Z → ssp_state * Z;
  box_new : ssp_state → ssp_state * Z;
  fd_table_init : ssp_state → Z → ssp_state;
  fd_table_insert_existing : ssp_state → Z → Z → Z → ssp_state * bool;
  fd_prestats_init : ssp_state → Z → ssp_state;
  fd_prestats_insert : ssp_state → Z → list Z → Z → ssp_state * bool;
}.

(** [CString::new]: no zero inside. *)
Definition CString_new (bytes : list Z) : option (list Z) :=
  if existsb (λ b, b =? 0) bytes then None else Some (bytes ++ [0]).

Definition insert_dir `{SSPTables} (curfds prestats : Z) (st : ssp_state * Z) (d : list Z * Z)
    : res (ssp_state * Z) :=
  let '(t, wasm_fd) := st in
  let '(dir, raw_fd) := d in
  let '(t, ok) := fd_table_insert_existing t curfds wasm_fd raw_fd in
  _ ← rassert ok;
  path ← unwrap (CString_new dir);
  let '(t, ok) := fd_prestats_insert t prestats path wasm_fd in
  _ ← rassert ok;
  wasm_fd ← op_add 32 wasm_fd 1;
  Ret (t, wasm_fd).

Definition insert_stdio `{SSPTables} (curfds : Z) (t : ssp_state) (fd : Z) : res ssp_state :=
  let '(t, ok) := fd_table_insert_existing t curfds fd fd in
  _ ← rassert ok;
  Ret t.

(** [argv_environ_init] aborts when an allocation fails. *)
Definition c_alloc `{SSPTables} (t : ssp_state) (n : Z) : res (ssp_state * Z) :=
  let '(t, p) := malloc t n in
  _ ← rassert (negb (p =? 0));
  Ret (t, p).

Definition instantiate_wasi_c `{SSPTables} (s : wst) (shim : string → Z) (prefix : string)
    (global_exports : Z) (preopened_dirs : list (list Z * Z)) (args : list (list Z))
    (env : list (list Z * list Z)) : res (wst * result Z InstantiationError) :=
  let '(module, finished_functions) :=
    wasi_module abi_special pointer_type abi_new triple_default prefix shim in
  let '(t, curfds) := box_new (w_ssp s) in
  let '(t, prestats) := box_new t in
  let '(t, _) := box_new t in
  let '(argv_offsets, argv_bytes, environ_offsets, environ_bytes) := allocate_argv_environ args env in
  '(t, _) ← c_alloc t (8 * zlen argv_offsets);
  '(t, p) ← c_alloc t (zlen argv_bytes);
  '(t, _) ← c_alloc t (8 * zlen environ_offsets);
  '(t, q) ← c_alloc t (zlen environ_bytes);
  let argv_environ := argv_environ_init p q argv_offsets argv_bytes environ_offsets environ_bytes in
  let t := fd_table_init t curfds in
  let t := fd_prestats_init t prestats in
  t ← insert_stdio curfds t 0;
  t ← insert_stdio curfds t 1;
  t ← insert_stdio curfds t 2;
  '(t, _) ← foldM (insert_dir curfds prestats) (t, 3) preopened_dirs;
  let host_state := mkWASIState curfds prestats argv_environ in
  '(σ, r) ← InstanceHandle_new wasmtime_call builtins (w_rt s) (λ _, 0) module
              global_exports finished_functions Imports_none [] [];
  match r with
  | Err e => Ret (mkWst σ (w_hosts s) t, Err e)
  | Ok a => Ret (mkWst σ (<[a := host_state]> (w_hosts s)) t, Ok a)
  end.
End instantiate.

(** ** The module that is instantiated *)

Section exports.
Context (abi_special : ir_type → ArgumentPurpose → AbiParam).
Context (pointer_type : ir_type) (abi_new : ir_type → AbiParam) (triple_default : Z).
Set Default Proof Using "Type".

(** The signature of a call with the parameters [ps] and the results [rs]. *)
Definition call_signature (ps rs : list int_ty) : Signature :=
  mkSignature
    (abi_special pointer_type VMContextArg :: map (λ t, abi_new (codegen_ty t)) ps)
    (map (λ t, abi_new (codegen_ty t)) rs) triple_default.

(** The module declares the rows [done], in order. *)
Definition declares (prefix : string) (shim : string → Z)
    (done : list (string * (list int_ty * list int_ty))) (st : Module_ * list Z) : Prop :=
  signatures (fst st) = map (λ r, call_signature (fst (snd r)) (snd (snd r))) done ∧
  functions (fst st) = seqZ 0 (zlen done) ∧
  snd st = map (λ r, shim (fst r)) done ∧
  exports (fst st) = imap (λ i r, (prefix +:+ fst r, ExportFunction (Z.of_nat i))) done.

Lemma imap_insert_new {A} (l : list (string * A)) k v : k ∉ map fst l → imap_insert l k v = l ++ [(k, v)].
Proof.
  induction l as [|[k' v'] l IH]; cbn; [done|]. intros Hk.
  rewrite not_elem_of_cons in Hk. destruct Hk as [Hne Hk].
  destruct (decide (k' = k)); [congruence|]. by rewrite IH.
Qed.

Lemma map_fst_imap {A B C} (f : A → B) (g : nat → C) (l : list A) :
  map fst (imap (λ i r, (f r, g i)) l) = map f l.
Proof. revert g. induction l as [|a l IH]; intros g; cbn; [done|]. f_equal. apply (IH (g ∘ S)). Qed.

Lemma imap_get_lookup {A} (l : list (string * A)) k name v :
  NoDup (map fst l) → l !! k = Some (name, v) → imap_get l name = Some v.
Proof.
  revert k. induction l as [|[n' v'] l IH]; intros k Hn Hk; [done|]. cbn in Hn |- *.
  apply NoDup_cons in Hn as [Hx Hn]. destruct k as [|k]; cbn in Hk.
  - simplify_eq. by rewrite decide_True.
  - destruct (decide (n' = name)) as [->|]; [|by apply (IH k)].
    destruct Hx. apply list_elem_of_In. apply (in_map fst l (name, v)).
    apply list_elem_of_In. by eapply list_elem_of_lookup_2.
Qed.

Lemma signature_declares prefix shim done st row :
  declares prefix shim done st → fst row ∉ map fst done →
  declares prefix shim (done ++ [row]) (signature_ abi_special pointer_type abi_new triple_default prefix shim st row).
Proof.
  destruct st as [m fs], row as [name [ps rs]]. intros (Hs & Hf & Hfs & He) Hn. cbn [fst snd] in *.
  unfold declares, signature_. cbn [fst snd signatures functions exports set_signatures push_func_import set_exports].
  rewrite Hs, Hf, Hfs, He, !map_app, zlen_app. cbn [map fst snd].
  split; [|split; [|split]]; [| |done|].
  - unfold translate_signature, call_signature. cbn. by rewrite !map_map.
  - rewrite seqZ_app by (pose proof (zlen_nonneg done); done || (unfold zlen; cbn; lia)).
    f_equal. unfold zlen. cbn. by rewrite length_map.
  - rewrite imap_insert_new.
    + rewrite imap_app. f_equal. cbn. unfold zlen. rewrite length_seqZ. repeat f_equal. lia.
    + rewrite map_fst_imap. intros Hin. apply list_elem_of_In, in_map_iff in Hin as (r & Hr & Hin).
      apply (inj (String.append prefix)) in Hr. apply Hn. rewrite <-Hr.
      by apply list_elem_of_In, in_map.
Qed.

Lemma fold_declares prefix shim done todo st :
  declares prefix shim done st → NoDup (map fst (done ++ todo)) →
  declares prefix shim (done ++ todo)
    (fold_left (signature_ abi_special pointer_type abi_new triple_default prefix shim) todo st).
Proof.
  revert done st. induction todo as [|row todo IH]; intros done st Hd Hn; cbn [fold_left].
  - by rewrite app_nil_r.
  - replace (done ++ row :: todo) with ((done ++ [row]) ++ todo) in Hn |- * by (by rewrite <-app_assoc).
    apply IH; [|done]. apply signature_declares; [done|].
    rewrite !map_app in Hn. apply NoDup_app in Hn as (Hn & _ & _).
    apply NoDup_app in Hn as (_ & Hn & _). intros Hin. apply (Hn _ Hin). apply list_elem_of_here.
Qed.

(** In the module of an instance of WASI, every call of the interface is
    exported under its name with the prefix, as the function at its position in
    the table; the function has the call's signature, with the context first, and
    its code is the call's shim. *)
Theorem wasi_module_exports prefix shim k name ps rs :
  syscall_table !! k = Some (name, (ps, rs)) →
  let '(m, finished_functions) := wasi_module abi_special pointer_type abi_new triple_default prefix shim in
  imap_get (exports m) (prefix +:+ name) = Some (ExportFunction (Z.of_nat k)) ∧
  zget (functions m) (Z.of_nat k) = Some (Z.of_nat k) ∧
  zget (signatures m) (Z.of_nat k) = Some (call_signature ps rs) ∧
  zget finished_functions (Z.of_nat k) = Some (shim name).
Proof.
  intros Hk. unfold wasi_module.
  assert (NoDup (map fst syscall_table)) as Hnd by (apply (bool_decide_unpack _); by vm_compute).
  pose proof (fold_declares prefix shim [] syscall_table (Module_new, []) ltac:(done) Hnd) as Hd.
  destruct (fold_left _ _ _) as [m fs]. destruct Hd as (Hs & Hf & Hfs & He). cbn [fst snd app] in *.
  rewrite Hs, Hf, Hfs, He, !zget_map. assert (zget syscall_table (Z.of_nat k) = Some (name, (ps, rs))) as Hz.
  { unfold zget. rewrite (proj2 (Z.leb_le _ _)) by lia. by rewrite Nat2Z.id. }
  rewrite Hz. split; [|split; [|done]].
  - apply imap_get_lookup with k.
    + rewrite map_fst_imap. rewrite <-(map_map fst (String.append prefix)).
      apply NoDup_fmap_2; [apply _|done].
    + rewrite list_lookup_imap, Hk. done.
  - apply zget_Some_lt in Hz. unfold zget. rewrite (proj2 (Z.leb_le _ _)), Nat2Z.id by lia.
    apply lookup_seqZ. lia.
Qed.
End exports.

(** ** The calls through [wasi-common] are confined *)

Section common.
Context `{InstanceLayout} `{Common.Hostcalls}.
Set Default Proof Using "Type".

(** A function of [wasi-common] that returns has written nothing but the slice it
    was given, and a context that was lent to it stays one. *)
Class HostcallsLaws : Prop := {
  hostcalls_contract c ctx slice o m r ctx' o' m' :
    Common.hostcalls c ctx slice o m = Ret (r, ctx', o', m') →
    (is_Some ctx → is_Some ctx') ∧
    ∀ x, match slice with Some (a, n) => ¬ (a ≤ x < a + n) | None => True end → m' x = m x;
}.

(** The calls of [wasi-common] that take the context, and those that take the
    memory. *)
Definition uses_ctx (sc : syscall) : bool :=
  match sc with
  | Sys_clock_res_get _ _ | Sys_clock_time_get _ _ _ | Sys_random_get _ _ | Sys_proc_exit _
  | Sys_sched_yield => false
  | _ => true
  end.
Definition uses_memory (sc : syscall) : bool :=
  match sc with
  | Sys_fd_close _ | Sys_fd_datasync _ | Sys_fd_renumber _ _ | Sys_fd_fdstat_set_flags _ _
  | Sys_fd_fdstat_set_rights _ _ _ | Sys_fd_sync _ | Sys_fd_advise _ _ _ _ | Sys_fd_allocate _ _ _
  | Sys_fd_filestat_set_times _ _ _ _ | Sys_fd_filestat_set_size _ _ | Sys_proc_exit _
  | Sys_sched_yield => false
  | _ => true
  end.

(** [fd_seek] with a [whence] that has no name, while tracing. *)
Definition unnamed_whence (log_trace : bool) (sc : syscall) : Prop :=
  log_trace = true ∧
  ∃ fd offset whence new, sc = Sys_fd_seek fd offset whence new ∧ Common.whence_to_str whence = Panic.

(** Only the memory at [base], the context of the instance [a] and what is
    outside the program have changed. *)
Definition common_confined (a base len : Z) (s s' : Common.cst) : Prop :=
  (∀ b, b ≠ a → Common.cs_ctx s' !! b = Common.cs_ctx s !! b) ∧
  (is_Some (Common.cs_ctx s !! a) → is_Some (Common.cs_ctx s' !! a)) ∧
  ∃ m, Common.cs_rt s' = with_mem (Common.cs_rt s) m ∧
       ∀ x, ¬ (base ≤ x < base + len) → m x = rt_mem (Common.cs_rt s) x.

Context `{!HostcallsLaws} (log_trace : bool).
Context (s : Common.cst) (vmctx base len : Z) (ctx : Common.WasiCtx).
Hypothesis Hctx : Common.cs_ctx s !! instance_of_vmctx vmctx = Some ctx.
Set Default Proof Using "Type*".

Lemma get_memory_export definition v plan :
  lookup_global_export (Common.cs_rt s) (instance_of_vmctx vmctx) "memory" =
    Ret (Some (RtMemory definition v plan)) →
  load_val (rt_mem (Common.cs_rt s)) definition = mkVMMemoryDefinition base len →
  Common.get_memory s vmctx = Ret (Ok (base, len)).
Proof using. intros He Hd. unfold Common.get_memory. rewrite He, bind_Ret_l, Hd. done. Qed.

Lemma call_confined c octx slice s' r :
  octx = None ∨ octx = Some ctx → slice = None ∨ slice = Some (base, len) →
  Common.call s vmctx c octx slice = Ret (s', r) →
  common_confined (instance_of_vmctx vmctx) base len s s'.
Proof.
  intros Ho Hs. unfold Common.call.
  destruct (Common.hostcalls _ _ _ _ _) as [[[[r' ctx'] o'] m']|] eqn:E; [|done].
  destruct (hostcalls_contract _ _ _ _ _ _ _ _ _ E) as [Hx Hm].
  intros [= <- <-]. split; [|split].
  - intros b Hb. cbn. destruct octx, ctx'; try done. apply lookup_insert_ne. congruence.
  - intros Hsome. cbn. destruct octx, ctx'; try done. rewrite lookup_insert_eq. by eexists.
  - exists m'. split; [done|]. intros x Hout. apply Hm. by destruct Hs as [-> | ->].
Qed.

Lemma get_ctx_eq : Common.get_wasi_ctx s vmctx = Ret (Ok ctx).
Proof. unfold Common.get_wasi_ctx. by rewrite Hctx. Qed.

(** Each call is passed on with what it uses. *)
Lemma dispatch_passes_on sc :
  Common.get_memory s vmctx = Ret (Ok (base, len)) →
  let passed := Common.call s vmctx sc (if uses_ctx sc then Some ctx else None)
                  (if uses_memory sc then Some (base, len) else None) in
  ¬ unnamed_whence log_trace sc ∧ Common.dispatch log_trace s vmctx sc = passed ∨
  unnamed_whence log_trace sc ∧ Common.dispatch log_trace s vmctx sc = Panic.
Proof.
  intros Hmem. cbv zeta.
  destruct sc; cbn [Common.dispatch uses_ctx uses_memory].
  all: try (left; split; [by intros (_ & ? & ? & ? & ? & ? & _)|];
    match goal with |- ?t = _ => let rec hd t := lazymatch t with ?f _ => hd f | _ => t end in
      let f := hd t in unfold f end;
    unfold Common.with_ctx_memory, Common.with_memory, Common.with_ctx, Common.plain, Common.ok_or_errno;
    rewrite ?get_ctx_eq, ?Hmem; reflexivity).
  unfold Common.fd_seek. destruct log_trace; [destruct (Common.whence_to_str whence) eqn:Ew|].
  2:{ right. split; [|done]. split; [done|]. by eexists _, _, _, _. }
  all: left; split; [intros (Hl & ? & ? & ? & ? & [= -> -> -> ->] & Hw); congruence|].
  all: unfold Common.with_ctx_memory, Common.ok_or_errno; rewrite !bind_Ret_l, get_ctx_eq, bind_Ret_l,
    Hmem; reflexivity.
Qed.
End common.

(** C39: through [wasi-common], a call of an instance with a context, and with an
    export of the name [memory] whose definition holds a base and a length, is
    passed on with the instance's own context and exactly that slice of memory,
    where the function takes them, and ends as the function does.  It panics
    exactly when the function does, or for [fd_seek] with a [whence] that has no
    name while tracing.  Where functions write nothing but the slice they are
    given, nothing changes but that memory, the instance's own context and what is
    outside the program. *)
Theorem common_calls_confined `{InstanceLayout} `{Common.Hostcalls} `{!HostcallsLaws} log_trace s vmctx
    definition v plan base len ctx sc :
  Common.cs_ctx s !! instance_of_vmctx vmctx = Some ctx →
  lookup_global_export (Common.cs_rt s) (instance_of_vmctx vmctx) "memory" =
    Ret (Some (RtMemory definition v plan)) →
  load_val (rt_mem (Common.cs_rt s)) definition = mkVMMemoryDefinition base len →
  let passed := Common.hostcalls sc (if uses_ctx sc then Some ctx else None)
                  (if uses_memory sc then Some (base, len) else None)
                  (Common.cs_os s) (rt_mem (Common.cs_rt s)) in
  (Common.dispatch log_trace s vmctx sc = Panic ↔ passed = Panic ∨ unnamed_whence log_trace sc) ∧
  ∀ s' r, Common.dispatch log_trace s vmctx sc = Ret (s', r) →
    (∃ ctx', passed = Ret (r, ctx', Common.cs_os s', rt_mem (Common.cs_rt s'))) ∧
    common_confined (instance_of_vmctx vmctx) base len s s'.
Proof.
  intros Hctx He Hd. pose proof (get_memory_export s vmctx base len _ _ _ He Hd) as Hmem. cbv zeta.
  destruct (dispatch_passes_on log_trace s vmctx base len ctx Hctx sc Hmem) as [[Hu ->] | [Hu ->]].
  2:{ split; [split; [by right|done]|done]. }
  split.
  - unfold Common.call. destruct (Common.hostcalls _ _ _ _ _) as [[[[r' ctx'] o'] m']|] eqn:E.
    + split; [done|]. by intros [?|?].
    + split; [by left|done].
  - intros s' r E. split.
    + unfold Common.call in E. destruct (Common.hostcalls _ _ _ _ _) as [[[[r' ctx'] o'] m']|]; [|done].
      injection E as <- <-. by exists ctx'.
    + eapply call_confined; [done| | |done].
      * destruct (uses_ctx sc); eauto.
      * destruct (uses_memory sc); eauto.
Qed.

(** ** Witnesses *)

Definition ex_abi_new (t : ir_type) : AbiParam := mkAbiParam t Normal.
Definition ex_shim (name : string) : Z := if decide (name = "fd_read") then 0x500 else 0x900.

Lemma wasi_module_exports_witness :
  let '(m, finished_functions) := wasi_module mkAbiParam I64 ex_abi_new 0 "wasi_" ex_shim in
  imap_get (exports m) ("wasi_" +:+ "fd_read") = Some (ExportFunction (Z.of_nat 12)) ∧
  zget (functions m) (Z.of_nat 12) = Some (Z.of_nat 12) ∧
  zget (signatures m) (Z.of_nat 12) =
    Some (call_signature mkAbiParam I64 ex_abi_new 0 [Tu32; Tu32; Tu32; Tu32] [Tu16]) ∧
  zget finished_functions (Z.of_nat 12) = Some (ex_shim "fd_read").
Proof.
  exact (wasi_module_exports mkAbiParam I64 ex_abi_new 0 "wasi_" ex_shim 12 "fd_read"
           [Tu32; Tu32; Tu32; Tu32] [Tu16] eq_refl).
Defined.

#[local] Instance ex_common_layout : InstanceLayout := {| instance_size := 128; vmctx_offset := 128 |}.
(** Functions that fill the slice they are given. *)
#[local] Instance ex_hostcalls : Common.Hostcalls := {|
  Common.WasiCtx := Z; Common.os := unit;
  Common.hostcalls sc ctx slice o m :=
    Ret (match sc with Sys_proc_exit rval => Exited rval | _ => Returned 0 end, ctx, o,
         match slice with Some (a, n) => store_bytes m a (replicate (Z.to_nat n) 1) | None => m end);
  Common.WASI_EINVAL := 28; Common.strerror _ := Ret ""; Common.whence_to_str _ := Ret "" |}.
#[local] Instance ex_hostcalls_laws : HostcallsLaws.
Proof.
  split. intros c ctx slice o m e ctx' o' m' [= <- <- <- <-]. split; [done|].
  intros x Hx. destruct slice as [[a n]|]; [|done]. apply store_bytes_out. unfold zlen.
  rewrite length_replicate. lia.
Qed.
Definition ex_common : Common.cst :=
  Common.mkCst
    (mkRt (mkWorld (ptr_write (λ _, 0) 0x100 (mkVMMemoryDefinition 0x10000 0x20)) (λ _, None))
       {[ 0x1000 := mkInstance 1 ∅ (mkMmap 0x1000 0x1000) Module_new (mkVMOffsets 8 0 0 0 0 0 0 0 0) 0 [] [] [] ]}
       {[ 0 := {[ "memory" := Some (RtMemory 0x100 0x80
                    (mkMemoryPlan (mkMemory 1 None false) Dynamic 0x10000)) ]} ]} handlers_new)
    {[ 0x1000 := 7 ]} tt.

Lemma common_calls_confined_witness :
  ∃ s', Common.dispatch true ex_common 0x1080 (Sys_random_get 0 8) = Ret (s', Returned 0) ∧
        common_confined (instance_of_vmctx 0x1080) 0x10000 0x20 ex_common s'.
Proof.
  destruct (common_calls_confined true ex_common 0x1080 0x100 0x80
    (mkMemoryPlan (mkMemory 1 None false) Dynamic 0x10000) 0x10000 0x20 7 (Sys_random_get 0 8))
    as [_ H]; [by vm_compute..|].
  eexists. split; [reflexivity|]. eapply H. reflexivity.
Defined.
